(* ===== verification/_CoqProject ===== *)
-Q . S2P
Prelude.v
Netip.v
Metadata.v
RuleItems.v
RuleAction.v
RuleMatch.v
RuleSpec.v
RuleGroups.v
RuleRefine.v
Concrete.v
RuleTheorems.v
RuleDomainOnly.v
RuleOptions.v
RuleBuild.v
RuleBuildFacts.v
Srs.v
SrsCodec.v
SrsFacts.v
SrsTotal.v
SrsTheorems.v
FakeIP.v
FakeIPPool.v
FakeIPStore.v
FakeIPTheorems.v
FakeIPTotal.v
OutboundManager.v
OutboundStart.v
OutboundFacts.v
OutboundSwap.v
ProviderGraph.v
ProviderFacts.v
ProviderTags.v
ProviderReplace.v
DnsRouter.v
DnsLegacy.v
DnsWalk.v
DnsSpec.v
DnsTerm.v
DnsRefine.v
DnsValidate.v
DnsValidateFacts.v
DnsUpdate.v
DnsClient.v
DnsClientFacts.v
DnsCache.v
DnsTtl.v
DnsConcrete.v
DnsCompose.v
DnsExchange.v
DnsExchangeFacts.v
DnsFailures.v
RouteSniff.v
RouteMatch.v
RouteFacts.v
RoutePreMatch.v
Group.v
ExpectedStatus.v
Coordinator.v
CoordinatorTheorems.v
Selector.v
URLTest.v
URLTestTheorems.v
Fallback.v
FallbackFacts.v
FallbackTheorems.v
FallbackDial.v
GoBytes.v
TlsFragment.v
Ja3.v
SniffProtocols.v
SniffQuic.v
SniffTheorems.v
UploadQueue.v
UploadQueueFacts.v
Geosite.v
XrayPipe.v
XhttpUpload.v
DomainSet.v
AdGuard.v
AdGuardFacts.v
