(* ===== verification/Prelude.v ===== *)
(** * Verification of the routing core of sing-box-forkop

    sing-box-forkop is a proxy platform in Go: inbounds accept connections, a router
    matches them against rules, DNS queries go through a router of their own, and
    outbounds carry the traffic. This development models the parts of it that decide
    where traffic goes, as the code is written, and proves what makes them correct: the
    rules and rule-sets, the DNS router and client, the FakeIP addresses, the sniffers, the
    manager and the providers of outbounds, and the groups that choose among outbounds.

    ** The parts and their files

    Routing rules (src/route/rule, src/option, src/adapter). A rule is a tree of
    conditions; [RuleSetItem] refers to rule-sets, lists of headless rules. Matching
    walks the tree with a cache of the request ([RuleCache]) that rules share and
    mutate: which destination groups are deferred until addresses are known, whether
    a rule-set matched by a domain, and the options of the rule-set item around.
    - [Netip] has the addresses and prefixes of net/netip, parsing and printing
      included; [Metadata] has the request ([InboundContext]) and [Extern], the class
      of the functions of packages outside the repository (domain matchers, address
      sets, regular expressions, Unicode tables).
    - [RuleItems] models every condition (rule_item_*.go): constructor, [Match] and
      [String]; [RuleAction] the actions (rule_action.go); [RuleMatch] the match
      functions of rule_abstract.go, match_state.go, rule_item_rule_set.go and
      rule_dns.go as state passing over [RuleCache].
    - [RuleSpec] is the declarative semantics [holds]: no cache, no order, no
      deferring. [RuleGroups] and [RuleRefine] relate the two, [RuleTheorems] and
      [RuleDomainOnly] state the results: [Match] refines [holds]; matching before a
      DNS lookup loses no rule that is safe for it and is final when nothing was deferred;
      nested matching
      restores the scope of its caller; the order in logical rules does not matter.
    - [RuleOptions] and [RuleBuild] model the options and the constructors
      (rule_default.go, rule_dns.go, rule_headless.go, rule_set.go, rule_set_local.go);
      [RuleBuildFacts] shows that built rules satisfy what matching relies on, that
      nested rules carry no actions, and that reference counts of rule-sets are exact.

    Binary rule-sets (src/common/srs). [Srs] models reader and writer over byte lists,
    with [Varbin] for sing's varbin and zlib. [SrsCodec] has the encodings of the
    parts, [SrsFacts] the round trip of rules, [SrsTotal] that reading ends,
    [SrsTheorems] the statements about files: round trip, versions, nesting, errors.

    FakeIP addresses (src/dns/transport/fakeip, src/experimental/cachefile/fakeip.go).
    [FakeIP] models the pools with their records in a heap, since the code compares
    references; every critical section of the store is a function: [allocate],
    [Lookup], [sweep_find] and [sweep_apply], [save_prepare] and [save_finish] around
    the write, [reset_memory]. The table in the cache file is [CacheFile]. [FakeIPPool]
    has ranges, rings and the invariant of a pool, [FakeIPStore] its preservation by
    every section and that loading the records of any cache file establishes it,
    [FakeIPTheorems] what queries and connections get over every interleaving of the
    sections, from a store without storage or started with it, [FakeIPTotal] that a query always ends with an
    address.

    Outbounds (src/adapter/outbound/manager.go, src/adapter/lifecycle.go).
    [OutboundManager] models the manager: its list and indexes, [Manager_Create],
    [Manager_Remove], [SwapBatch] and the scopes outbounds start in. [OutboundStart] has
    the start in the order of the dependencies, [OutboundFacts] the agreement of list and
    indexes, [OutboundSwap] what every sequence of operations keeps, dependencies that are
    found among it.

    Providers (src/adapter/provider/graph.go, adapter.go). [ProviderGraph] models the
    outbounds a subscription brings, over a heap of options since the code copies them
    before it rewrites references: filtering, sorting, naming and replacing them.
    [ProviderFacts] shows that filtering and sorting do what their specifications over
    the graph of references say, [ProviderTags] that names are distinct and references
    follow them, [ProviderReplace] that replacing started outbounds publishes all of them
    or leaves the old ones.

    The DNS router (src/dns/router.go). [DnsRouter] has the options of a query and legacy
    mode, where a rule may refuse a response and the next one is tried; [DNSClient] is what
    the router relies on of a client. [DnsLegacy] shows how such an exchange ends.
    [DnsWalk] models the walk over the rules in the other mode: [evaluate] rules start
    exchanges that run beside the walk, rules wait for them or race, and the walk is
    suspended and resumed. When exchanges end is a [Schedule] on a clock. [DnsSpec] is the
    sequential reading of the rules, [DnsTerm] shows that every walk ends, [DnsRefine] that
    the order in which exchanges end does not matter on schedules on which none ends between
    two looks at the futures, and an example of a response that is lost otherwise.
    [DnsValidate] models how rules are checked, built and started and how updates of
    rule-sets are checked; [DnsValidateFacts] shows that accepted rules are what
    [DnsRefine] asks for, [DnsUpdate] which updates a running router accepts.
    [DnsExchange] has queries and lookups around all this and the names of addresses,
    [DnsExchangeFacts] what they return, and that the two forms of a query agree.

    The DNS client (src/dns/client.go and the files beside it). [DnsClient] models the
    cache in memory and on disk, times to live, client subnets, exchanges, lookups and
    refreshes; the libraries it calls are the classes [Edns] and [LRU], the servers a
    [Net]. [DnsClientFacts] has how an exchange ends and the subnets of requests,
    [DnsCache] that the cache never mixes answers up and that the client is a [DNSClient],
    [DnsTtl] that nothing outlives its time, [DnsCompose] what the router over the client
    returns, [DnsFailures] the log of failed exchanges; [DnsConcrete] has the instances
    and witnesses.

    Connections (src/route/route.go, src/common/sniff/sniff.go). [RouteSniff] models what the
    router reads of a connection before it routes it; the sniffers, streams and packets are
    the class [Sniffers] and lists of what reads return. [RouteMatch] has the metadata, the
    walk over the rules with their actions, the chain of groups to an outbound, and the
    match of a first packet; what the router asks of other parts is [RouterEnv].
    [RouteFacts] shows that every connection gets the verdict of the rule that is selected
    and what becomes of the bytes and packets that were read, [RoutePreMatch] that the match
    of a first packet decides what routing decides, for rules that do not resolve.

    Bytes of clients (src/common/sniff, src/common/ja3, src/common/tlsfragment). [GoBytes] has
    slices with their bounds and the weakest preconditions by which panics are excluded.
    [TlsFragment] models the search for the server name in a first write and its cuts, and
    shows that a hello is cut in its name and that the pieces are the bytes of the write.
    [Ja3] is the parser of a ClientHello, [SniffProtocols] and [SniffQuic] are the sniffers, with the parsers and ciphers of other
    packages as the class [SniffLibs]; [SniffTheorems] shows that no bytes make them panic or
    loop, and that a hello in several QUIC packets is found.

    Uploads of XHTTP (src/transport/v2rayxhttp, src/common/xray). [XrayPipe] models buffers,
    lists of them and the pipe between writers and a reader, [UploadQueue] the queue
    in which a server puts numbered requests in order, heap included, [XhttpUpload] the cutting
    of writes into posts. Pipe and queue are functions of the moments at which goroutines come
    in between each other. [XrayPipe] also has what the operations keep, the order and the
    wake-ups of pipes, [UploadQueueFacts] the order of the heap and of the queue, and
    [XhttpUpload] composes them from the writes to the reads.

    Sets of names (src/common/geosite, src/common/domainset). [Geosite] models the reader and
    the writer of a geosite database over byte lists, with the round trip. [DomainSet] models
    the trie that is written for a domain matcher, level by level, and specifies by a walk what
    it accepts, and shows that it accepts the keys of the names.

    AdGuard lists (src/common/convertor/adguard, cmd_rule_set_convert.go). [AdGuard] models the
    parser of lists, the rule they become, the lines that are made of a rule, and the command
    that writes the file; [AdGuardFacts] composes it with [Srs], [RuleBuild] and [RuleMatch]:
    what a converted list blocks. The rule that is printed again and its losses are there too.

    Groups (src/protocol/group, src/common/urltest, src/common/interrupt). [Group] has
    what they share: the count of failed dials, the connections to interrupt, delays,
    expected statuses, filters. [Selector], [URLTest] and [Fallback] model the groups,
    with the outbounds and providers they see as [Members]. [Selector] too,
    [URLTestTheorems], [FallbackFacts] and [FallbackTheorems] show what is selected over
    every interleaving of checks, dials, choices and provider updates; [FallbackDial]
    what a dial and an early write of a fallback group return. [Coordinator] has the tests
    that groups share, as callers that interleave, and [CoordinatorTheorems] what a caller
    gets; [ExpectedStatus] shows that the text of a status stands for one status.

    [Concrete] instantiates [Extern] with small executable functions, for the examples
    and the witnesses that evaluate the theorems at concrete inputs.

    ** Conventions

    A Go function that returns a value and an error is a function into [result]; a
    panic is a third case. Integers are [Z] with the wrap of their width written out
    ([u8] to [u64]). A slice that distinguishes nil is a [Listable]. Strings are
    sequences of bytes. A [range] over a map takes its order from [MapOrder], an
    argument, so that results hold for every order; clocks are arguments.

    ** Bounds and fuel

    [readDefaultRule_loop] has one round of fuel per byte: every round reads a byte.
    Counted loops of the rule-set reader have one round more than there are bytes left,
    [read_loop_good] shows that it is not used up and [read_loop_fuel] that more of it
    changes nothing. [next_free] has one round more than
    there are records, which [next_free_enough] shows to suffice. [Create_loop] takes
    its fuel as an argument; [Create_answers] gives the bound. Logical rules of files
    are read to depth 100, as in the code. [startOutbounds] has two rounds more than
    there are outbounds, the walks of sorting and filtering one more, [affect_loop] one
    more than the prepared outbounds, [free_tag] one more than the used tags: the theorems
    about them show that the fuel is not used up. [early_Write] takes its fuel as an
    argument and [early_write_once] gives the bound. [RealTag] follows groups that select
    each other without end; it has fuel and no answer without it. [exchangeLegacy] has one
    round more than there are rules, [resumeExchangeWithRules] four per rule and three
    more: [exchangeLegacy_total] and [exchangeWithRules_ends] show that they suffice.
    [resolveOutbound] has the fuel of the router; [connections_routed] asks for more than
    the rank of the outbounds. The loops of the sniffers over bytes have one round more than
    there are bytes, [find_fragments] one more than the fragments: [SniffTheorems] shows that
    they end with it, the end of the fuel being an error that no sniffer returns.
    [merge_loop], [post_loop] and [ReadFrom] have one round more than there are bytes, [up] and [down] as many as packets, which their lemmas show to suffice.
    [build_levels] has the length of the longest key and two more, [build_levels_spec] shows
    that it suffices. [extensions_loop] has one round more than there are bytes, and data on
    which the loop of the code does not end is [search_runs_on].

    ** Not modelled

    Network I/O, goroutines beyond the interleaving of critical sections, logging,
    JSON decoding and schemas; the protocols, transports and TLS stacks, which are
    third-party code with glue; remote rule-sets and their HTTP updates; the Clash API;
    the DNS transports other than FakeIP; subscriptions and the parsers of foreign
    configurations. An exchange of the DNS client that waits for another one is one step,
    with what others did meanwhile as an argument. Of connections the copying, the trackers
    and the interrupts are left out, of the ClientHello parser the JA3 string, which nothing
    uses. *)
From Stdlib Require Import Strings.Byte.
From stdpp Require Import base list strings pretty gmap sorting.

Declare Scope go_scope.
Delimit Scope go_scope with go.

(** ** Errors, results, panics *)

(** A Go [error] value: [E.New] (the arguments already joined), [E.Cause], [E.Extend]
    and the error of several that [E.Errors] makes, of sing's exceptions package; a
    named error of a library. *)
Inductive error : Type :=
| ENew (message : string)
| ECause (cause : error) (message : string)
| EExtend (cause : error) (message : string)
| EJoin (first second : error)
| ENamed (name : string).

#[export] Instance error_eq_dec : EqDecision error.
Proof. solve_decision. Defined.

(** [errors.Is] for an error of a library, by its name *)
Fixpoint errors_Is (e : error) (name : string) : bool :=
  match e with
  | ENew _ => false
  | ECause cause _ | EExtend cause _ => errors_Is cause name
  | EJoin first second => errors_Is first name || errors_Is second name
  | ENamed n => bool_decide (n = name)
  end.

(** What a Go function that returns [(T, error)] does: a value, an error or a
    panic. *)
Inductive result (A : Type) : Type :=
| Ok (a : A)
| Err (e : error)
| Panic (message : string).
Arguments Ok {A} a.
Arguments Err {A} e.
Arguments Panic {A} message.

#[export] Instance result_ret : MRet result := @Ok.
#[export] Instance result_bind : MBind result := λ A B f m,
  match m with
  | Ok a => f a
  | Err e => Err e
  | Panic s => Panic s
  end.

(** [if err != nil { return ..., wrap(err) }] *)
Definition map_err {A} (f : error → error) (m : result A) : result A :=
  match m with
  | Err e => Err (f e)
  | r => r
  end.

(** [E.Errors(first, second)]: nil is left out *)
Definition E_Errors (first second : option error) : option error :=
  match first, second with
  | Some e, Some e' => Some (EJoin e e')
  | Some e, None => Some e
  | None, r => r
  end.

Definition is_ok {A} (m : result A) : bool :=
  match m with Ok _ => true | _ => false end.

Definition guard_err (b : bool) (e : error) : result unit :=
  if b then Err e else Ok tt.

(** The loop [for i, x := range l { y, err := f(i, x); ... }] with an early
    return of the first error. *)
Definition mapM_idx {A B} (f : nat → A → result B) : nat → list A → result (list B) :=
  fix go i l :=
    match l with
    | [] => Ok []
    | x :: l => y ← f i x; ys ← go (S i) l; Ok (y :: ys)
    end.

(** The loop [for i, x := range l { err := f(i, x); ... }]. *)
Definition iter_idx {A} (f : nat → A → result unit) : nat → list A → result unit :=
  fix go i l :=
    match l with
    | [] => Ok tt
    | x :: l => _ ← f i x; go (S i) l
    end.

Lemma mapM_idx_Forall2 {A B} (f : nat → A → result B) l i k :
  mapM_idx f i l = Ok k → Forall2 (λ x y, ∃ j, f j x = Ok y) l k.
Proof.
  revert i k. induction l as [|x l IH]; intros i k; cbn; [intros [=<-]; constructor|].
  destruct (f i x) as [y|e|e] eqn:E; cbn; [|done|done].
  destruct (mapM_idx f (S i) l) as [ys|e|e] eqn:E'; cbn; [|done|done].
  intros [=<-]. constructor; eauto.
Qed.

Lemma mapM_idx_ok {A B} (f : nat → A → result B) (g : A → B) l i :
  (∀ j x, x ∈ l → f j x = Ok (g x)) → mapM_idx f i l = Ok (map g l).
Proof.
  revert i. induction l as [|x l IH]; intros i Hf; cbn; [done|].
  rewrite Hf by left. cbn. rewrite IH; [done|]. intros j y Hy. apply Hf. by right.
Qed.

(** ** Integers of a machine width, as integers with the wrap written out *)
Open Scope Z_scope.

Definition wrap (w z : Z) : Z := z mod 2 ^ w.
Abbreviation u8 := (wrap 8).
Abbreviation u16 := (wrap 16).
Abbreviation u32 := (wrap 32).
Abbreviation u64 := (wrap 64).

(** Go's [x &^ y] *)
Definition and_not (x y : Z) : Z := Z.land x (Z.lnot y).

Lemma wrap_range w z : 0 <= w → 0 <= wrap w z < 2 ^ w.
Proof. intros. apply Z.mod_pos_bound. lia. Qed.

Lemma wrap_small w z : 0 <= z < 2 ^ w → wrap w z = z.
Proof. apply Z.mod_small. Qed.

(** A signed integer of 32 bits *)
Definition int32 (z : Z) : Z := (z + 2 ^ 31) mod 2 ^ 32 - 2 ^ 31.

Lemma int32_small z : - 2 ^ 31 <= z < 2 ^ 31 → int32 z = z.
Proof. intros. unfold int32. rewrite Z.mod_small; lia. Qed.

Lemma and_not_0_l y : and_not 0 y = 0.
Proof. apply Z.land_0_l. Qed.

Lemma and_not_testbit x y i :
  0 <= i → Z.testbit (and_not x y) i = Z.testbit x i && negb (Z.testbit y i).
Proof. intros. unfold and_not. by rewrite Z.land_spec, Z.lnot_spec. Qed.

(** ** Strings: a Go string is a sequence of bytes, as a Rocq string is *)

Definition nonempty (s : string) : bool :=
  match s with EmptyString => false | _ => true end.

Lemma nonempty_true s : nonempty s = true ↔ s ≠ "".
Proof. by destruct s. Qed.

(** [strings.Index]: [None] for -1 *)
Fixpoint strings_Index (s sub : string) : option nat :=
  if String.prefix sub s then Some 0%nat
  else match s with
       | EmptyString => None
       | String _ s' => S <$> strings_Index s' sub
       end.

Definition strings_Contains (s sub : string) : bool :=
  match strings_Index s sub with Some _ => true | None => false end.

Definition strings_HasPrefix (s p : string) : bool := String.prefix p s.

Definition str_drop (n : nat) (s : string) : string :=
  String.substring n (String.length s - n) s.
Definition str_take (n : nat) (s : string) : string := String.substring 0 n s.

Definition strings_Join (l : list string) (sep : string) : string :=
  String.concat sep l.

Definition ascii_code (c : Ascii.ascii) : Z := Z.of_N (Ascii.N_of_ascii c).

(** [strings.Trim] and [strings.TrimSpace], on ASCII strings. *)
Definition is_space (c : Ascii.ascii) : bool :=
  (ascii_code c =? 32) || ((9 <=? ascii_code c) && (ascii_code c <=? 13)).

Fixpoint trim_left (f : Ascii.ascii → bool) (s : string) : string :=
  match s with
  | EmptyString => EmptyString
  | String c s' => if f c then trim_left f s' else s
  end.

Fixpoint trim_right (f : Ascii.ascii → bool) (s : string) : string :=
  match s with
  | EmptyString => EmptyString
  | String c s' =>
      match trim_right f s' with
      | EmptyString => if f c then EmptyString else String c EmptyString
      | r => String c r
      end
  end.

Definition trim (f : Ascii.ascii → bool) (s : string) : string := trim_right f (trim_left f s).
Definition strings_TrimSpace (s : string) : string := trim is_space s.

Definition ascii_is_digit (c : Ascii.ascii) : bool :=
  (48 <=? ascii_code c) && (ascii_code c <=? 57).

Definition ascii_lower (c : Ascii.ascii) : Ascii.ascii :=
  if (65 <=? ascii_code c) && (ascii_code c <=? 90)
  then Ascii.ascii_of_N (Ascii.N_of_ascii c + 32) else c.

Fixpoint string_map (f : Ascii.ascii → Ascii.ascii) (s : string) : string :=
  match s with
  | EmptyString => EmptyString
  | String c s' => String (f c) (string_map f s')
  end.

Fixpoint string_forall (f : Ascii.ascii → bool) (s : string) : bool :=
  match s with
  | EmptyString => true
  | String c s' => f c && string_forall f s'
  end.

(** Every byte is below [utf8.RuneSelf]. *)
Definition is_ascii (s : string) : bool := string_forall (λ c, ascii_code c <? 128) s.

(** The fast path of [strings.ToLower], which applies to strings of ASCII. *)
Definition ascii_ToLower (s : string) : string := string_map ascii_lower s.

Lemma ascii_lower_idemp c : ascii_lower (ascii_lower c) = ascii_lower c.
Proof. by destruct c as [[] [] [] [] [] [] [] []]. Qed.

Lemma ascii_lower_ascii c :
  (ascii_code (ascii_lower c) <? 128) = (ascii_code c <? 128).
Proof. by destruct c as [[] [] [] [] [] [] [] []]. Qed.

Lemma ascii_ToLower_idemp s : ascii_ToLower (ascii_ToLower s) = ascii_ToLower s.
Proof.
  induction s as [|c s IH]; [done|]. cbn. unfold ascii_ToLower in *.
  by rewrite ascii_lower_idemp, IH.
Qed.

Lemma is_ascii_ToLower s : is_ascii (ascii_ToLower s) = is_ascii s.
Proof.
  unfold is_ascii, ascii_ToLower.
  induction s as [|c s IH]; [done|]. cbn. by rewrite ascii_lower_ascii, IH.
Qed.

(** [strconv.ParseUint(s, 10, bits)] without the underscore syntax of base 0:
    every byte a digit, at least one, the value below [2^bits]. *)
Fixpoint parse_digits (acc : Z) (s : string) : option Z :=
  match s with
  | EmptyString => Some acc
  | String c s' =>
      if ascii_is_digit c then parse_digits (10 * acc + (ascii_code c - 48)) s' else None
  end.

Definition strconv_ParseUint (s : string) (bits : Z) : option Z :=
  if nonempty s then
    match parse_digits 0 s with
    | Some v => if v <? 2 ^ bits then Some v else None
    | None => None
    end
  else None.

Lemma parse_digits_nonneg s acc v :
  0 <= acc → parse_digits acc s = Some v → 0 <= v.
Proof.
  revert acc. induction s as [|c s IH]; intros acc Ha; cbn; [naive_solver lia|].
  destruct (ascii_is_digit c) eqn:Hd; [|done]. apply IH.
  unfold ascii_is_digit in Hd. lia.
Qed.

Lemma strconv_ParseUint_range s bits v :
  strconv_ParseUint s bits = Some v → 0 <= v < 2 ^ bits.
Proof.
  unfold strconv_ParseUint. destruct (nonempty s); [|done].
  destruct (parse_digits 0 s) eqn:H; [|done]. apply parse_digits_nonneg in H; [|done].
  destruct (Z.ltb_spec z (2 ^ bits)); naive_solver lia.
Qed.

(** ** Lists *)

Lemma existsb_ext_in {A} (f g : A → bool) l :
  (∀ x, In x l → f x = g x) → existsb f l = existsb g l.
Proof.
  induction l as [|x l IH]; intros H; [done|]. cbn.
  rewrite (H x), IH; [done| |by left]. intros y Hy. apply H. by right.
Qed.

Lemma forallb_ext_in {A} (f g : A → bool) l :
  (∀ x, In x l → f x = g x) → forallb f l = forallb g l.
Proof.
  induction l as [|x l IH]; intros H; [done|]. cbn.
  rewrite (H x), IH; [done| |by left]. intros y Hy. apply H. by right.
Qed.

(** [len(l) > 0] *)
Definition has_items {A} (l : list A) : bool :=
  match l with [] => false | _ => true end.

Lemma has_items_app {A} (l k : list A) : has_items (l ++ k) = has_items l || has_items k.
Proof. by destruct l. Qed.

Lemma has_items_false {A} (l : list A) : has_items l = false ↔ l = [].
Proof. by destruct l. Qed.

(** [p != nil] *)
Definition is_set {A} (o : option A) : bool := match o with Some _ => true | None => false end.

(** A list built as the keys of a [map[K]bool]: membership by equality. *)
Definition mem {A} `{EqDecision A} (x : A) (l : list A) : bool := bool_decide (x ∈ l).

Lemma mem_true {A} `{EqDecision A} (x : A) (l : list A) : mem x l = true ↔ x ∈ l.
Proof. apply bool_decide_eq_true. Qed.

(** ** Automation *)
Create HintDb go.
Create Rewrite HintDb go.
#[export] Hint Resolve wrap_range : go.
#[export] Hint Rewrite and_not_0_l Z.lor_0_l Z.lor_0_r Z.land_0_l Z.land_0_r : go.

(** Case analysis on every [if]/[match] scrutinee in the goal, then close. *)
Ltac go_cases :=
  repeat (first [ progress simplify_eq/= | case_match | case_decide ]); try done.

(** Normalise a hypothesis [m ≫= f = Ok r] to the steps that succeeded. *)
Ltac go_inv :=
  repeat match goal with
  | H : (_ ≫= _) = Ok _ |- _ => unfold mbind, result_bind in H
  | H : match ?m with Ok _ => _ | Err _ => _ | Panic _ => _ end = Ok _ |- _ =>
      destruct m eqn:?; try discriminate H
  | H : Ok _ = Ok _ |- _ => injection H as H; subst
  | H : (if ?b then _ else _) = Ok _ |- _ => destruct b eqn:?; try discriminate H
  end.
