(* ===== verification/Netip.v ===== *)
(** * The part of Go's [net/netip] and [net] the sources use

    Addresses and prefixes as values: [Addr] has the zero address, 32-bit
    addresses and 128-bit addresses with a zone; [Prefix] has an address and a
    number of bits, -1 for an invalid prefix as [Prefix.Bits] reports it. Also
    the textual forms: [ParseAddr], [ParsePrefix] and [net.ParseMAC]. *)
From Stdlib Require Import Strings.Ascii Strings.Byte.
From stdpp Require Import base list strings pretty countable.
From S2P Require Import Prelude.

Inductive Addr : Type :=
| AddrZero
| Addr4 (v : Z)
| Addr6 (v : Z) (zone : string).

#[export] Instance Addr_eq_dec : EqDecision Addr.
Proof. solve_decision. Defined.

#[export] Program Instance Addr_countable : Countable Addr :=
  inj_countable'
    (λ a, match a with AddrZero => inl () | Addr4 v => inr (inl v) | Addr6 v z => inr (inr (v, z)) end)
    (λ x, match x with inl _ => AddrZero | inr (inl v) => Addr4 v | inr (inr (v, z)) => Addr6 v z end) _.
Next Obligation. by intros []. Qed.

Definition Addr_IsValid (a : Addr) : bool :=
  match a with AddrZero => false | _ => true end.
Definition Addr_Is4 (a : Addr) : bool := match a with Addr4 _ => true | _ => false end.
Definition Addr_Is6 (a : Addr) : bool := match a with Addr6 _ _ => true | _ => false end.
Definition Addr_BitLen (a : Addr) : Z :=
  match a with AddrZero => 0 | Addr4 _ => 32 | Addr6 _ _ => 128 end.
Definition Addr_value (a : Addr) : Z :=
  match a with AddrZero => 0 | Addr4 v => v | Addr6 v _ => v end.
Definition Addr_hasZone (a : Addr) : bool :=
  match a with Addr6 _ z => nonempty z | _ => false end.
Definition Addr_withoutZone (a : Addr) : Addr :=
  match a with Addr6 v _ => Addr6 v "" | _ => a end.

(** [Is4In6]: an address of ::ffff:0:0/96; [Unmap] turns it into its IPv4 one. *)
Definition Addr_Is4In6 (a : Addr) : bool :=
  match a with Addr6 v _ => Z.shiftr v 32 =? 65535 | _ => false end.
Definition Addr_Unmap (a : Addr) : Addr :=
  if Addr_Is4In6 a then Addr4 (Addr_value a mod 2 ^ 32) else a.

(** The values an address of the family can have. *)
Definition Addr_wf (a : Addr) : Prop :=
  match a with
  | AddrZero => True
  | Addr4 v => 0 <= v < 2 ^ 32
  | Addr6 v _ => 0 <= v < 2 ^ 128
  end.

(** Bytes of a number, most significant first, as [As4], [As16], [AsSlice] and
    [encoding/binary]'s big endian give them. *)
Definition z2b (z : Z) : byte := Ascii.byte_of_ascii (Ascii.ascii_of_N (Z.to_N (z mod 256))).
Definition b2z (b : byte) : Z := Z.of_N (Ascii.N_of_ascii (Ascii.ascii_of_byte b)).

#[export] Instance byte_eq_decision : EqDecision byte := Byte.byte_eq_dec.

Fixpoint be_split (n : nat) (z : Z) : list byte :=
  match n with
  | O => []
  | S n => be_split n (z / 256) ++ [z2b z]
  end.

Definition be_combine (l : list byte) : Z :=
  fold_left (λ acc b, acc * 256 + b2z b) l 0.

Definition Addr_AsSlice (a : Addr) : list byte :=
  match a with
  | AddrZero => []
  | Addr4 v => be_split 4 v
  | Addr6 v _ => be_split 16 v
  end.

(** ** Prefixes *)

Record Prefix : Type := MkPrefix { p_ip : Addr; p_bits : Z }.

#[export] Instance Prefix_eq_dec : EqDecision Prefix.
Proof. solve_decision. Defined.

Definition PrefixZero : Prefix := MkPrefix AddrZero (-1).

Definition PrefixFrom (ip : Addr) (bits : Z) : Prefix :=
  MkPrefix (Addr_withoutZone ip)
    (if Addr_IsValid ip && (0 <=? bits) && (bits <=? Addr_BitLen ip) then bits else -1).

Definition Prefix_Addr (p : Prefix) : Addr := p_ip p.
Definition Prefix_Bits (p : Prefix) : Z := p_bits p.
Definition Prefix_IsValid (p : Prefix) : bool := 0 <=? p_bits p.

(** [Addr.Prefix]: the address with its low bits cleared. *)
Definition mask_value (bitlen bits v : Z) : Z :=
  Z.shiftl (Z.shiftr v (bitlen - bits)) (bitlen - bits).

Definition Addr_Prefix (a : Addr) (bits : Z) : option Prefix :=
  if bits <? 0 then None else
  match a with
  | AddrZero => Some PrefixZero
  | Addr4 v =>
      if 32 <? bits then None else Some (PrefixFrom (Addr4 (mask_value 32 bits v)) bits)
  | Addr6 v _ =>
      if 128 <? bits then None else Some (PrefixFrom (Addr6 (mask_value 128 bits v) "") bits)
  end.

Definition Prefix_Masked (p : Prefix) : Prefix :=
  default PrefixZero (Addr_Prefix (p_ip p) (p_bits p)).

Definition Prefix_Contains (p : Prefix) (ip : Addr) : bool :=
  if negb (Prefix_IsValid p) || Addr_hasZone ip then false else
  let f1 := Addr_BitLen (p_ip p) in
  let f2 := Addr_BitLen ip in
  if (f1 =? 0) || (f2 =? 0) || negb (f1 =? f2) then false else
  Z.shiftr (Addr_value ip) (f1 - p_bits p) =? Z.shiftr (Addr_value (p_ip p)) (f1 - p_bits p).

Definition Prefix_Overlaps (p o : Prefix) : bool :=
  if negb (Prefix_IsValid p) || negb (Prefix_IsValid o) then false else
  if bool_decide (p = o) then true else
  if negb (Bool.eqb (Addr_Is4 (p_ip p)) (Addr_Is4 (p_ip o))) then false else
  let minBits := Z.min (p_bits p) (p_bits o) in
  if minBits =? 0 then true else
  match Addr_Prefix (p_ip p) minBits, Addr_Prefix (p_ip o) minBits with
  | Some p', Some o' => bool_decide (p_ip p' = p_ip o')
  | _, _ => false
  end.

(** ** Textual forms *)

Definition ch (s : string) (i : nat) : option Z := ascii_code <$> String.get i s.

(** [parseIPv4Fields]: digits and dots, the fields so far most significant
    first. [prev] is the byte before, [None] at the start. *)
Fixpoint parseIPv4Fields (s : string) (prev : option Z) (val digLen : Z) (fields : list Z)
    : option (list Z) :=
  match s with
  | EmptyString => if (length fields =? 3)%nat then Some (fields ++ [val]) else None
  | String c s' =>
      let c := ascii_code c in
      if (48 <=? c) && (c <=? 57) then
        if (digLen =? 1) && (val =? 0) then None else
        let val := val * 10 + (c - 48) in
        if 255 <? val then None else parseIPv4Fields s' (Some c) val (digLen + 1) fields
      else if c =? 46 then
        if match prev with None => true | Some p => p =? 46 end || negb (nonempty s')
        then None
        else if (length fields =? 3)%nat then None
        else parseIPv4Fields s' (Some c) 0 0 (fields ++ [val])
      else None
  end.

Definition value4 (fields : list Z) : Z := fold_left (λ acc b, acc * 256 + b) fields 0.

Definition hex_digit (c : Z) : option Z :=
  if (48 <=? c) && (c <=? 57) then Some (c - 48)
  else if (97 <=? c) && (c <=? 102) then Some (c - 87)
  else if (65 <=? c) && (c <=? 70) then Some (c - 55)
  else None.

(** The hexadecimal group at the front of [s]: its value, its number of digits
    and the rest. [None] for more than four digits. *)
Fixpoint parse_group (s : string) (off acc : Z) : option (Z * Z * string) :=
  match s with
  | EmptyString => Some (acc, off, s)
  | String c s' =>
      match hex_digit (ascii_code c) with
      | Some d => if 3 <? off then None else parse_group s' (off + 1) (16 * acc + d)
      | None => Some (acc, off, s)
      end
  end.

(** The loop of [parseIPv6]: [groups] are the 16-bit groups so far ([i] is twice
    their number), [ellipsis] the number of groups before the ellipsis. Returns
    the groups, the ellipsis and what is left of the string; the loop ends when
    there are eight groups or the string ends. *)
Fixpoint parseIPv6_loop (fuel : nat) (s : string) (groups : list Z) (ellipsis : option nat)
    : option (list Z * option nat * string) :=
  match fuel with
  | O => Some (groups, ellipsis, s)
  | S fuel =>
      '(acc, off, rest) ← parse_group s 0 0;
      if off =? 0 then None else
      match rest with
      | String "."%char _ =>
          if match ellipsis with None => negb (length groups =? 6)%nat | Some _ => false end
          then None
          else if (6 <? length groups)%nat then None
          else
            f ← parseIPv4Fields s None 0 0 [];
            match f with
            | [a; b; c; d] => Some (groups ++ [a * 256 + b; c * 256 + d], ellipsis, EmptyString)
            | _ => None
            end
      | EmptyString => Some (groups ++ [acc], ellipsis, EmptyString)
      | String ":"%char EmptyString => None
      | String ":"%char (String ":"%char rest') =>
          match ellipsis with
          | Some _ => None
          | None =>
              let groups := groups ++ [acc] in
              match rest' with
              | EmptyString => Some (groups, Some (length groups), EmptyString)
              | _ => parseIPv6_loop fuel rest' groups (Some (length groups))
              end
          end
      | String ":"%char rest' => parseIPv6_loop fuel rest' (groups ++ [acc]) ellipsis
      | _ => None
      end
  end.

Definition value6 (groups : list Z) : Z := fold_left (λ acc g, acc * 65536 + g) groups 0.

Definition parseIPv6 (s0 : string) : option Addr :=
  let '(s, zone, badzone) :=
    match strings_Index s0 "%" with
    | Some i => (str_take i s0, str_drop (S i) s0, negb (nonempty (str_drop (S i) s0)))
    | None => (s0, ""%string, false)
    end in
  if badzone then None else
  let '(s, ellipsis) :=
    match s with
    | String ":"%char (String ":"%char s') => (s', Some 0%nat)
    | _ => (s, None)
    end in
  if bool_decide (ellipsis = Some 0%nat) && negb (nonempty s) then Some (Addr6 0 zone) else
  '(groups, ellipsis, rest) ← parseIPv6_loop 8 s [] ellipsis;
  if nonempty rest then None else
  if (length groups <? 8)%nat then
    e ← ellipsis;
    Some (Addr6 (value6 (take e groups ++ replicate (8 - length groups) 0 ++ drop e groups)) zone)
  else match ellipsis with
       | Some _ => None
       | None => Some (Addr6 (value6 groups) zone)
       end.

Fixpoint ParseAddr_scan (s0 s : string) : option Addr :=
  match s with
  | EmptyString => None
  | String "."%char _ => f ← parseIPv4Fields s0 None 0 0 []; Some (Addr4 (value4 f))
  | String ":"%char _ => parseIPv6 s0
  | String "%"%char _ => None
  | String _ s' => ParseAddr_scan s0 s'
  end.

Definition netip_ParseAddr (s : string) : option Addr := ParseAddr_scan s s.

(** [strings.LastIndexByte] *)
Fixpoint last_index (c : Ascii.ascii) (s : string) : option nat :=
  match s with
  | EmptyString => None
  | String c' s' =>
      match last_index c s' with
      | Some i => Some (S i)
      | None => if Ascii.eqb c' c then Some 0%nat else None
      end
  end.

Definition netip_ParsePrefix (s : string) : option Prefix :=
  i ← last_index "/"%char s;
  ip ← netip_ParseAddr (str_take i s);
  if Addr_hasZone ip then None else
  let bitsStr := str_drop (S i) s in
  if (1 <? String.length bitsStr)%nat &&
     match ch bitsStr 0 with Some c => (c <? 49) || (57 <? c) | None => false end
  then None else
  bits ← strconv_ParseUint bitsStr 63;
  if Addr_BitLen ip <? bits then None else Some (PrefixFrom ip bits).

(** ** Printing: [Addr.String] and [Prefix.String] *)

Definition hex_char (d : Z) : Ascii.ascii :=
  Ascii.ascii_of_N (Z.to_N (if d <? 10 then 48 + d else 87 + d)).

(** [appendHex]: lower case, no leading zeros *)
Definition hex16 (g : Z) : string :=
  let d3 := g / 4096 in let d2 := g / 256 mod 16 in
  let d1 := g / 16 mod 16 in let d0 := g mod 16 in
  let s0 := String (hex_char d0) EmptyString in
  let s1 := if 16 <=? g then String (hex_char d1) s0 else s0 in
  let s2 := if 256 <=? g then String (hex_char d2) s1 else s1 in
  if 4096 <=? g then String (hex_char d3) s2 else s2.

Definition string4 (v : Z) : string :=
  (pretty (v / 2 ^ 24 mod 256) +:+ "." +:+ pretty (v / 2 ^ 16 mod 256) +:+ "." +:+
   pretty (v / 2 ^ 8 mod 256) +:+ "." +:+ pretty (v mod 256))%string.

Definition groups6 (v : Z) : list Z :=
  map (λ i, v / 2 ^ (16 * (7 - i)) mod 65536) [0; 1; 2; 3; 4; 5; 6; 7].

Fixpoint zero_run (l : list Z) : nat :=
  match l with
  | 0 :: l => S (zero_run l)
  | _ => 0
  end.

(** The longest run of at least two zero groups, the first of equals:
    where it starts and its length. *)
Fixpoint longest_run (i : nat) (l : list Z) (best : nat * nat) : nat * nat :=
  match l with
  | [] => best
  | _ :: l' =>
      let r := zero_run l in
      longest_run (S i) l' (if (2 <=? r)%nat && (best.2 <? r)%nat then (i, r) else best)
  end.

Definition string6 (v : Z) (zone : string) : string :=
  let gs := groups6 v in
  let '(start, len) := longest_run 0 gs (0%nat, 0%nat) in
  let body :=
    if (len =? 0)%nat then strings_Join (map hex16 gs) ":"
    else (strings_Join (map hex16 (take start gs)) ":" +:+ "::" +:+
          strings_Join (map hex16 (drop (start + len) gs)) ":")%string in
  (body +:+ if nonempty zone then "%" +:+ zone else "")%string.

Definition Addr_String (a : Addr) : string :=
  match a with
  | AddrZero => "invalid IP"
  | Addr4 v => string4 v
  | Addr6 v zone =>
      if Addr_Is4In6 a then
        ("::ffff:" +:+ string4 (v mod 2 ^ 32) +:+ if nonempty zone then "%" +:+ zone else "")%string
      else string6 v zone
  end.

Definition Prefix_String (p : Prefix) : string :=
  if Prefix_IsValid p then (Addr_String (p_ip p) +:+ "/" +:+ pretty (p_bits p))%string
  else "invalid Prefix".

(** ** Hardware addresses: [net.ParseMAC] and [HardwareAddr.String] *)

(** [xtoi2(s, e)]: two hexadecimal digits, then the end or the byte [e]. *)
Definition xtoi2 (s : string) (e : Z) : option Z :=
  match s with
  | String a (String b rest) =>
      if match rest with EmptyString => true | String c _ => ascii_code c =? e end then
        x ← hex_digit (ascii_code a); y ← hex_digit (ascii_code b); Some (16 * x + y)
      else None
  | _ => None
  end.

(** The loop over bytes three characters apart, for [:] and [-]. *)
Fixpoint parse_mac3 (n : nat) (s : string) (e : Z) : option (list Z) :=
  match n with
  | O => Some []
  | S n => x ← xtoi2 s e; xs ← parse_mac3 n (str_drop 3 s) e; Some (x :: xs)
  end.

(** The loop over pairs of bytes five characters apart, for the dotted form. *)
Fixpoint parse_mac5 (n : nat) (s : string) (e : Z) : option (list Z) :=
  match n with
  | O => Some []
  | S n =>
      x ← xtoi2 (str_take 2 s) 0; y ← xtoi2 (str_drop 2 s) e;
      xs ← parse_mac5 n (str_drop 5 s) e; Some (x :: y :: xs)
  end.

Definition mac_len (n : nat) : bool := (n =? 6)%nat || (n =? 8)%nat || (n =? 20)%nat.

Definition net_ParseMAC (s : string) : option (list byte) :=
  let len := String.length s in
  if (len <? 14)%nat then None else
  c2 ← ch s 2; c4 ← ch s 4;
  if (c2 =? 58) || (c2 =? 45) then
    if negb ((len + 1) mod 3 =? 0)%nat then None else
    let n := ((len + 1) / 3)%nat in
    if mac_len n then map z2b <$> parse_mac3 n s c2 else None
  else if c4 =? 46 then
    if negb ((len + 1) mod 5 =? 0)%nat then None else
    let n := (2 * (len + 1) / 5)%nat in
    if mac_len n then map z2b <$> parse_mac5 (n / 2) s c4 else None
  else None.

Definition hex_byte (b : byte) : string :=
  String (hex_char (b2z b / 16)) (String (hex_char (b2z b mod 16)) EmptyString).

Definition HardwareAddr_String (a : list byte) : string :=
  strings_Join (map hex_byte a) ":".

(** [hex.DecodeString]: pairs of digits only *)
Fixpoint hex_DecodeString (s : string) : option (list byte) :=
  match s with
  | EmptyString => Some []
  | String a (String b rest) =>
      x ← hex_digit (ascii_code a); y ← hex_digit (ascii_code b);
      xs ← hex_DecodeString rest; Some (z2b (16 * x + y) :: xs)
  | _ => None
  end.
