(* ===== verification/Metadata.v ===== *)
(** * Code the sources only call, and the metadata of a connection

    [Extern] collects the operations of third-party packages (sing, netipx,
    miekg/dns) and the two parts of the Go standard library that are engines of
    their own (regular expressions, Unicode case tables) as parameters of the
    model. Then the data of a request: [InboundContext] of adapter/inbound.go,
    with the fields rule matching reads, its "rule cache" part as a record of
    its own because matching writes only there. *)
From Stdlib Require Import Strings.Byte.
From stdpp Require Import base list strings gmap.
From S2P Require Import Prelude Netip.

(** [M.Socksaddr] of sing: an address or a domain name, and a port. *)
Record Socksaddr : Type := MkSocksaddr {
  sa_Addr : Addr;
  sa_Port : Z;
  sa_Fqdn : string;
}.

(** [myIPSet] of common/srs: the layout the sources rely on for
    [netipx.IPSet], a list of ranges. *)
Record myIPRange : Type := MkIPRange { ipr_from : Addr; ipr_to : Addr }.

#[export] Instance myIPRange_eq_dec : EqDecision myIPRange.
Proof. solve_decision. Defined.

Definition IPSet : Type := list myIPRange.

(** What [netipx.IPSetBuilder] is given: [AddPrefix] or [Add]. *)
Inductive IPSetInput : Type :=
| AddPrefix (p : Prefix)
| AddAddr (a : Addr).

(** The records of a DNS message as the sources see them (miekg/dns): the owner
    name, and the payload of the types the sources look into. *)
Inductive SVCBValue : Type :=
| SVCBIPv4Hint (hint : list (list byte))
| SVCBIPv6Hint (hint : list (list byte))
| SVCBOther.

(** An option of an OPT record; the subnet one with its family, netmask and address. *)
Inductive EDNS0 : Type :=
| EDNS0_SUBNET (family sourceNetmask : Z) (address : list byte)
| EDNS0_Other (code : Z) (data : list byte).

Inductive RData : Type :=
| RData_A (ip : list byte)
| RData_AAAA (ip : list byte)
| RData_HTTPS (value : list SVCBValue)
| RData_SOA (minttl : Z) (raw : list byte)
| RData_OPT (option : list EDNS0)
| RData_Other (rrtype : Z) (raw : list byte).

Record RR : Type := MkRR { rr_Name : string; rr_Class : Z; rr_Ttl : Z; rr_Data : RData }.

Record Question : Type := MkQuestion { q_Name : string; q_Qtype : Z; q_Qclass : Z }.

Record MsgHdr : Type := MkMsgHdr {
  hdr_Id : Z;
  hdr_Response : bool;
  hdr_Authoritative : bool;
  hdr_RecursionDesired : bool;
  hdr_RecursionAvailable : bool;
  hdr_Rcode : Z;
}.

Record Msg : Type := MkMsg {
  msg_Hdr : MsgHdr;
  msg_Question : list Question;
  msg_Answer : list RR;
  msg_Ns : list RR;
  msg_Extra : list RR;
}.

Definition msg_Rcode (m : Msg) : Z := hdr_Rcode (msg_Hdr m).

Class Extern : Type := {
  (** go4.org/netipx *)
  IPSet_Contains : IPSet → Addr → bool;
  IPSetBuilder_IPSet : list IPSetInput → result IPSet;
  IPSet_Prefixes : IPSet → list Prefix;
  (** github.com/sagernet/sing/common/domain *)
  Matcher : Type;
  Matcher_Match : Matcher → string → bool;
  Matcher_Dump : Matcher → list string * list string;
  domain_NewMatcher : list string → list string → bool → Matcher;
  Matcher_Write : Matcher → list byte;
  domain_ReadMatcher : list byte → result (Matcher * list byte);
  AdGuardMatcher : Type;
  AdGuardMatcher_Match : AdGuardMatcher → string → bool;
  AdGuardMatcher_Dump : AdGuardMatcher → list string;
  domain_NewAdGuardMatcher : list string → AdGuardMatcher;
  AdGuardMatcher_Write : AdGuardMatcher → list byte;
  domain_ReadAdGuardMatcher : list byte → result (AdGuardMatcher * list byte);
  (** github.com/sagernet/sing/common/metadata and common/network *)
  Socksaddr_IsIP : Socksaddr → bool;
  Socksaddr_IsIPv6 : Socksaddr → bool;
  AddrFromIP : list byte → Addr;
  ParseSocksaddrHostPort : string → Z → Socksaddr;
  IsPublicAddr : Addr → bool;
  (** github.com/miekg/dns *)
  dns_IsDuplicate : RR → RR → bool;
  dns_CanonicalName : string → string;
  dns_TypeToString : Z → option string;
  dns_RcodeToString : Z → string;
  dns_RRString : RR → string;
  (** regexp: [Compile] and [MatchString] *)
  Regexp : Type;
  regexp_Compile : string → result Regexp;
  Regexp_MatchString : Regexp → string → bool;
  (** the Unicode tables behind [strings.ToLower] and [strings.EqualFold], for
      strings that are not ASCII *)
  unicode_ToLower : string → string;
  unicode_EqualFold : string → string → bool;
}.

(** [strings.ToLower]: ASCII strings byte by byte, others by the tables. *)
Definition strings_ToLower `{Extern} (s : string) : string :=
  if is_ascii s then ascii_ToLower s else unicode_ToLower s.

Definition strings_EqualFold `{Extern} (s t : string) : bool :=
  if is_ascii s && is_ascii t then bool_decide (ascii_ToLower s = ascii_ToLower t)
  else unicode_EqualFold s t.

(** [adapter.ConnectionOwner] *)
Record ConnectionOwner : Type := MkConnectionOwner {
  co_ProcessID : Z;
  co_UserId : Z;
  co_UserName : string;
  co_ProcessPath : string;
  co_AndroidPackageNames : list string;
}.

(** The "rule cache" fields of [InboundContext]. *)
Record RuleCache : Type := MkRuleCache {
  IPCIDRMatchSource : bool;
  IPCIDRAcceptEmpty : bool;
  SourceAddressMatch : bool;
  SourcePortMatch : bool;
  DestinationAddressMatch : bool;
  DestinationPortMatch : bool;
  DeferredIPCIDRMatchGroups : Z;
  IgnoreDestinationIPCIDRMatch : bool;
  RuleSetDomainOnly : bool;
  RuleSetDomainMatched : bool;
}.

(** The request: the fields of [InboundContext] that rule items read. *)
Record InboundContext : Type := MkInboundContext {
  md_Inbound : string;
  md_IPVersion : Z;
  md_Network : string;
  md_Source : Socksaddr;
  md_Destination : Socksaddr;
  md_User : string;
  md_Outbound : string;
  md_Protocol : string;
  md_Domain : string;
  md_Client : string;
  md_DestinationAddresses : list Addr;
  md_DNSResponse : option Msg;
  md_NamedDNSResponses : gmap string Msg;
  md_DestinationAddressMatchFromResponse : bool;
  md_ProcessInfo : option ConnectionOwner;
  md_SourceMACAddress : option (list byte);
  md_SourceHostname : string;
  md_QueryType : Z;
  md_QueryClientSubnet : Prefix;
  md_QueryDNSSEC : bool;
  md_PreMatch : bool;
  md_cache : RuleCache;
}.

Definition set_cache (md : InboundContext) (c : RuleCache) : InboundContext :=
  MkInboundContext (md_Inbound md) (md_IPVersion md) (md_Network md) (md_Source md)
    (md_Destination md) (md_User md) (md_Outbound md) (md_Protocol md) (md_Domain md)
    (md_Client md) (md_DestinationAddresses md) (md_DNSResponse md)
    (md_NamedDNSResponses md) (md_DestinationAddressMatchFromResponse md)
    (md_ProcessInfo md) (md_SourceMACAddress md) (md_SourceHostname md)
    (md_QueryType md) (md_QueryClientSubnet md) (md_QueryDNSSEC md) (md_PreMatch md) c.

(** [matchMetadata := *metadata; matchMetadata.DNSResponse = response;
    matchMetadata.DestinationAddressMatchFromResponse = true] *)
Definition with_response (md : InboundContext) (response : option Msg) : InboundContext :=
  MkInboundContext (md_Inbound md) (md_IPVersion md) (md_Network md) (md_Source md)
    (md_Destination md) (md_User md) (md_Outbound md) (md_Protocol md) (md_Domain md)
    (md_Client md) (md_DestinationAddresses md) response
    (md_NamedDNSResponses md) true
    (md_ProcessInfo md) (md_SourceMACAddress md) (md_SourceHostname md)
    (md_QueryType md) (md_QueryClientSubnet md) (md_QueryDNSSEC md) (md_PreMatch md)
    (md_cache md).

(** Assignments to single fields of the rule cache. *)
Definition set_DeferredIPCIDRMatchGroups (c : RuleCache) (g : Z) : RuleCache :=
  MkRuleCache (IPCIDRMatchSource c) (IPCIDRAcceptEmpty c) (SourceAddressMatch c)
    (SourcePortMatch c) (DestinationAddressMatch c) (DestinationPortMatch c) g
    (IgnoreDestinationIPCIDRMatch c) (RuleSetDomainOnly c) (RuleSetDomainMatched c).

Definition set_RuleSetDomainMatched (c : RuleCache) (b : bool) : RuleCache :=
  MkRuleCache (IPCIDRMatchSource c) (IPCIDRAcceptEmpty c) (SourceAddressMatch c)
    (SourcePortMatch c) (DestinationAddressMatch c) (DestinationPortMatch c)
    (DeferredIPCIDRMatchGroups c) (IgnoreDestinationIPCIDRMatch c)
    (RuleSetDomainOnly c) b.

Definition set_IgnoreDestinationIPCIDRMatch (c : RuleCache) (b : bool) : RuleCache :=
  MkRuleCache (IPCIDRMatchSource c) (IPCIDRAcceptEmpty c) (SourceAddressMatch c)
    (SourcePortMatch c) (DestinationAddressMatch c) (DestinationPortMatch c)
    (DeferredIPCIDRMatchGroups c) b (RuleSetDomainOnly c) (RuleSetDomainMatched c).

Definition set_IPCIDR (c : RuleCache) (source acceptEmpty : bool) : RuleCache :=
  MkRuleCache source acceptEmpty (SourceAddressMatch c)
    (SourcePortMatch c) (DestinationAddressMatch c) (DestinationPortMatch c)
    (DeferredIPCIDRMatchGroups c) (IgnoreDestinationIPCIDRMatch c)
    (RuleSetDomainOnly c) (RuleSetDomainMatched c).

(** [RuleSetDomainOnly = true; IgnoreDestinationIPCIDRMatch = true;
    RuleSetDomainMatched = false] *)
Definition set_domainOnly (c : RuleCache) : RuleCache :=
  MkRuleCache (IPCIDRMatchSource c) (IPCIDRAcceptEmpty c) (SourceAddressMatch c)
    (SourcePortMatch c) (DestinationAddressMatch c) (DestinationPortMatch c)
    (DeferredIPCIDRMatchGroups c) true true false.

(** [InboundContext.ResetRuleMatchCache] *)
Definition ResetRuleMatchCache (c : RuleCache) : RuleCache :=
  MkRuleCache (IPCIDRMatchSource c) (IPCIDRAcceptEmpty c) false false false false 0
    (IgnoreDestinationIPCIDRMatch c) (RuleSetDomainOnly c) (RuleSetDomainMatched c).

(** [InboundContext.ResetRuleCache] *)
Definition ResetRuleCache (c : RuleCache) : RuleCache :=
  ResetRuleMatchCache (set_IPCIDR c false false).

(** The rule cache of a fresh [InboundContext]. *)
Definition RuleCacheZero : RuleCache :=
  MkRuleCache false false false false false false 0 false false false.

Section Addresses.
Context `{Extern}.

Definition valid_addr (a : Addr) : list Addr := if Addr_IsValid a then [a] else [].

(** The hints of one HTTPS value: IPv4 hints are unmapped. *)
Definition hint_addresses (v : SVCBValue) : list Addr :=
  match v with
  | SVCBIPv4Hint hint => concat (map (λ ip, valid_addr (Addr_Unmap (AddrFromIP ip))) hint)
  | SVCBIPv6Hint hint => concat (map (λ ip, valid_addr (AddrFromIP ip)) hint)
  | SVCBOther => []
  end.

Definition record_addresses (r : RR) : list Addr :=
  match rr_Data r with
  | RData_A ip | RData_AAAA ip => valid_addr (AddrFromIP ip)
  | RData_HTTPS value => concat (map hint_addresses value)
  | _ => []
  end.

(** [DNSResponseAddresses]: the addresses of a successful response. *)
Definition DNSResponseAddresses (response : option Msg) : list Addr :=
  match response with
  | None => []
  | Some m => if msg_Rcode m =? 0 then concat (map record_addresses (msg_Answer m)) else []
  end.

Definition DNSResponseAddressesForMatch (md : InboundContext) : list Addr :=
  DNSResponseAddresses (md_DNSResponse md).

End Addresses.

(** ** The network state rule items ask for *)

(** [control.Interface] *)
Record Interface : Type := MkInterface {
  if_Name : string;
  if_Addresses : list Prefix;
}.

(** [adapter.NetworkInterface]; the type is the number of [C.InterfaceType] *)
Record NetworkInterface : Type := MkNetworkInterface {
  ni_Interface : Interface;
  ni_Type : Z;
  ni_Expensive : bool;
  ni_Constrained : bool;
}.

(** [adapter.WIFIState] *)
Record WIFIState : Type := MkWIFIState { wifi_SSID : string; wifi_BSSID : string }.

(** What the network manager, the Clash mode manager and the build answer while
    one match runs. [nm_InterfaceMonitor] is [None] when there is no monitor. *)
Record Env : Type := MkEnv {
  nm_DefaultNetworkInterface : option NetworkInterface;
  nm_NetworkInterfaces : list NetworkInterface;
  nm_Interfaces : list Interface;
  nm_InterfaceMonitor : option (option Interface * list string);
  nm_WIFIState : WIFIState;
  env_clashMode : option string;
  env_IsAndroid : bool;
}.

Definition set_of (l : list string) : gset string := list_to_set l.
Definition in_map (s : gset string) (x : string) : bool := bool_decide (x ∈ s).

Lemma in_map_set_of l x : in_map (set_of l) x = true ↔ x ∈ l.
Proof. unfold in_map, set_of. rewrite bool_decide_eq_true. set_solver. Qed.
