(* ===== verification/RuleItems.v ===== *)
(** * Rule items: the single conditions of a rule

    One constructor of [RuleItem] per item type of route/rule/rule_item_*.go and
    rule_*_address.go with the fields of the Go struct; per type its [New...]
    function, its [Match] method (a function of the request and of the network
    state, items write nothing) and its [String] method. A [map[string]bool]
    filled from a list is a [gset]. [RuleSetItem], which matches nested rules, is
    in RuleMatch.v. *)
From Stdlib Require Import Strings.Byte.
From stdpp Require Import base list strings pretty gmap.
From S2P Require Import Prelude Netip Metadata.

(** [rangeItem] of rule_item_port_range.go *)
Record rangeItem : Type := MkRangeItem { ri_start : Z; ri_end : Z }.

(** [adapter.OutboundWithPreferredRoutes]: what an outbound prefers. Of the
    metadata its implementations read [PreMatch] only. *)
Record OutboundWithPreferredRoutes : Type := MkPreferredRoutes {
  PreferredDomain : bool → string → bool;
  PreferredAddress : bool → Addr → bool;
}.

(** The [selector] argument of [NewDNSResponseRecordItem]. *)
Inductive recordSelector : Type := dnsResponseAnswers | dnsResponseNS | dnsResponseExtra.

Definition select_records (s : recordSelector) (message : Msg) : list RR :=
  match s with
  | dnsResponseAnswers => msg_Answer message
  | dnsResponseNS => msg_Ns message
  | dnsResponseExtra => msg_Extra message
  end.

Section Items.
Context `{Extern}.

Inductive RuleItem : Type :=
| InboundItem (inbounds : list string) (inboundMap : gset string)
| IPVersionItem (isIPv6 : bool)
| NetworkItem (networks : list string) (networkMap : gset string)
| AuthUserItem (users : list string) (userMap : gset string)
| ProtocolItem (protocols : list string) (protocolMap : gset string)
| ClientItem (clients : list string) (clientMap : gset string)
| DomainItem (matcher : Matcher) (description : string)
| DomainKeywordItem (keywords : list string)
| DomainRegexItem (matchers : list Regexp) (description : string)
| AdGuardDomainItem (matcher : AdGuardMatcher)
| IPCIDRItem (ipSet : IPSet) (isSource : bool) (description : string)
| IPIsPrivateItem (isSource : bool)
| IPAcceptAnyItem
| PortItem (ports : list Z) (isSource : bool)
| PortRangeItem (isSource : bool) (portRanges : list string) (portRangeList : list rangeItem)
| ProcessItem (processes : list string) (processMap : gset string)
| ProcessPathItem (processes : list string) (processMap : gset string)
| ProcessPathRegexItem (matchers : list Regexp) (description : string)
| PackageNameItem (packageNames : list string) (packageMap : gset string)
| PackageNameRegexItem (matchers : list Regexp) (description : string)
| UserItem (users : list string) (userMap : gset string)
| UserIdItem (userIds : list Z)
| ClashModeItem (mode : string)
| NetworkTypeItem (networkType : list Z)
| NetworkIsExpensiveItem
| NetworkIsConstrainedItem
| WIFISSIDItem (ssidList : list string) (ssidMap : gset string)
| WIFIBSSIDItem (bssidList : list string) (bssidMap : gset string)
| InterfaceAddressItem (interfaceAddresses : list (string * list Prefix))
| NetworkInterfaceAddressItem (interfaceAddresses : list (Z * list Prefix))
| DefaultInterfaceAddressItem (interfaceAddresses : list Prefix)
| SourceMACAddressItem (addresses : list string) (addressMap : gset string)
| SourceHostnameItem (hostnames : list string) (hostnameMap : gset string)
| PreferredByItem (outboundTags : list string) (outbounds : list OutboundWithPreferredRoutes)
| PreferredByDNSItem (transportTags : list string) (transports : list (string → bool))
| QueryTypeItem (typeList : list Z)
| QueryClientSubnetItem (prefixes : list Prefix)
| QueryDNSSECItem
| DNSResponseRCodeItem (rcode : Z)
| DNSResponseRecordItem (field : string) (records : list (option RR)) (selector : recordSelector)
| OutboundItem (outbounds : list string) (outboundMap : gset string) (matchAny : bool).

(** ** Constructors *)

Definition NewInboundRule (inbounds : list string) : RuleItem :=
  InboundItem inbounds (set_of inbounds).
Definition NewIPVersionItem (isIPv6 : bool) : RuleItem := IPVersionItem isIPv6.
Definition NewNetworkItem (networks : list string) : RuleItem :=
  NetworkItem networks (set_of networks).
Definition NewAuthUserItem (users : list string) : RuleItem :=
  AuthUserItem users (set_of users).
Definition NewProtocolItem (protocols : list string) : RuleItem :=
  ProtocolItem protocols (set_of protocols).
Definition NewClientItem (clients : list string) : RuleItem :=
  ClientItem clients (set_of clients).

(** "[a b c...]" for more than three elements, as several items describe
    themselves; the element alone when there is one. *)
Definition describe_list (l : list string) : string :=
  match l with
  | [x] => x
  | _ =>
      if (3 <? length l)%nat
      then ("[" +:+ strings_Join (take 3 l) " " +:+ "...]")%string
      else ("[" +:+ strings_Join l " " +:+ "]")%string
  end.

(** As [describe_list], with every element shown however many there are. *)
Definition describe_all (l : list string) : string :=
  match l with
  | [x] => x
  | _ => ("[" +:+ strings_Join l " " +:+ "]")%string
  end.

(** As [describe_list], but without the dots: the items of regular expressions. *)
Definition describe_first (l : list string) : string :=
  match l with
  | [x] => x
  | _ =>
      if (3 <? length l)%nat
      then ("[" +:+ strings_Join (take 3 l) " " +:+ "]")%string
      else ("[" +:+ strings_Join l " " +:+ "]")%string
  end.

(** [NewDomainItem]; [newMatcher] is [domainset.NewMatcher]. *)
Definition NewDomainItem (newMatcher : list string → list string → result Matcher)
    (domains domainSuffixes : list string) : result RuleItem :=
  if mem ""%string domains then Err (ENew "domain: empty item is not allowed") else
  if mem ""%string domainSuffixes then Err (ENew "domain_suffix: empty item is not allowed") else
  let description :=
    if has_items domains then ("domain=" +:+ describe_list domains)%string else ""%string in
  let description :=
    if has_items domainSuffixes then
      ((if nonempty description then description +:+ " " else description) +:+
       "domain_suffix=" +:+ describe_list domainSuffixes)%string
    else description in
  matcher ← newMatcher domains domainSuffixes;
  Ok (DomainItem matcher description).

Definition NewRawDomainItem (matcher : Matcher) : RuleItem :=
  DomainItem matcher "domain/domain_suffix=<binary>".

Definition NewDomainKeywordItem (keywords : list string) : RuleItem :=
  DomainKeywordItem keywords.

(** The loop over the expressions, the same in the three regex items. *)
Definition compile_all (expressions : list string) : result (list Regexp) :=
  mapM_idx (λ i regex,
    map_err (λ e, ECause e ("parse expression " +:+ pretty (Z.of_nat i))%string)
      (regexp_Compile regex)) 0 expressions.

Definition NewDomainRegexItem (expressions : list string) : result RuleItem :=
  matchers ← compile_all expressions;
  Ok (DomainRegexItem matchers ("domain_regex=" +:+ describe_first expressions)%string).

Definition NewAdGuardDomainItem (ruleLines : list string) : RuleItem :=
  AdGuardDomainItem (domain_NewAdGuardMatcher ruleLines).
Definition NewRawAdGuardDomainItem (matcher : AdGuardMatcher) : RuleItem :=
  AdGuardDomainItem matcher.

(** What one prefix string adds to the set: a prefix, else an address. *)
Definition parse_ipset_input (i : nat) (prefixString : string) : result IPSetInput :=
  match netip_ParsePrefix prefixString with
  | Some prefix => Ok (AddPrefix prefix)
  | None =>
      match netip_ParseAddr prefixString with
      | Some addr => Ok (AddAddr addr)
      | None =>
          Err (ECause (ENamed "netip.ParsePrefix")
                 ("parse [" +:+ pretty (Z.of_nat i) +:+ "]")%string)
      end
  end.

Definition cidr_description (isSource : bool) : string :=
  if isSource then "source_ip_cidr=" else "ip_cidr=".

Definition NewIPCIDRItem (isSource : bool) (prefixStrings : list string) : result RuleItem :=
  inputs ← mapM_idx parse_ipset_input 0 prefixStrings;
  let description := (cidr_description isSource +:+ describe_list prefixStrings)%string in
  ipSet ← IPSetBuilder_IPSet inputs;
  Ok (IPCIDRItem ipSet isSource description).

Definition NewRawIPCIDRItem (isSource : bool) (ipSet : IPSet) : RuleItem :=
  IPCIDRItem ipSet isSource (cidr_description isSource +:+ "<binary>")%string.

Definition NewIPIsPrivateItem (isSource : bool) : RuleItem := IPIsPrivateItem isSource.
Definition NewIPAcceptAnyItem : RuleItem := IPAcceptAnyItem.
Definition NewPortItem (isSource : bool) (ports : list Z) : RuleItem := PortItem ports isSource.

Definition ErrBadPortRange : error := ENew "bad port range".

(** One range: "start:end", an empty start is 0 and an empty end 0xFFFF. *)
Definition parse_port_range (portRange : string) : result rangeItem :=
  match strings_Index portRange ":" with
  | None => Err (EExtend ErrBadPortRange portRange)
  | Some subIndex =>
      let bad := Err (ECause (ENamed "strconv.ParseUint")
                        ("bad port range: " +:+ portRange)%string) in
      start ← (if (0 <? subIndex)%nat then
                 match strconv_ParseUint (str_take subIndex portRange) 16 with
                 | Some v => Ok v
                 | None => bad
                 end
               else Ok 0);
      end_ ← (if (subIndex =? String.length portRange - 1)%nat then Ok 65535
              else
                match strconv_ParseUint (str_drop (S subIndex) portRange) 16 with
                | Some v => Ok v
                | None => bad
                end);
      Ok (MkRangeItem (u16 start) (u16 end_))
  end.

Definition NewPortRangeItem (isSource : bool) (rangeList : list string) : result RuleItem :=
  portRangeList ← mapM_idx (λ _, parse_port_range) 0 rangeList;
  Ok (PortRangeItem isSource rangeList portRangeList).

Definition NewProcessItem (l : list string) : RuleItem := ProcessItem l (set_of l).
Definition NewProcessPathItem (l : list string) : RuleItem := ProcessPathItem l (set_of l).
Definition NewProcessPathRegexItem (expressions : list string) : result RuleItem :=
  matchers ← compile_all expressions;
  Ok (ProcessPathRegexItem matchers
        ("process_path_regex=" +:+ describe_first expressions)%string).
Definition NewPackageNameItem (l : list string) : RuleItem := PackageNameItem l (set_of l).
Definition NewPackageNameRegexItem (expressions : list string) : result RuleItem :=
  matchers ← compile_all expressions;
  Ok (PackageNameRegexItem matchers
        ("package_name_regex=" +:+ describe_first expressions)%string).
Definition NewUserItem (users : list string) : RuleItem := UserItem users (set_of users).
Definition NewUserIDItem (userIdList : list Z) : RuleItem := UserIdItem userIdList.
Definition NewClashModeItem (mode : string) : RuleItem := ClashModeItem mode.
Definition NewNetworkTypeItem (networkType : list Z) : RuleItem := NetworkTypeItem networkType.
Definition NewNetworkIsExpensiveItem : RuleItem := NetworkIsExpensiveItem.
Definition NewNetworkIsConstrainedItem : RuleItem := NetworkIsConstrainedItem.
Definition NewWIFISSIDItem (ssidList : list string) : RuleItem :=
  WIFISSIDItem ssidList (set_of ssidList).

(** [adapter.NormalizeWIFIBSSID] *)
Definition NormalizeWIFIBSSID (bssid : string) : string :=
  let bssid := strings_TrimSpace bssid in
  if negb (nonempty bssid) then ""%string else
  let fallback :=
    if (String.length bssid =? 12)%nat then
      match hex_DecodeString bssid with
      | Some decoded => HardwareAddr_String decoded
      | None => bssid
      end
    else bssid in
  match net_ParseMAC bssid with
  | Some parsed => if (length parsed =? 6)%nat then HardwareAddr_String parsed else fallback
  | None => fallback
  end.

Definition NewWIFIBSSIDItem (bssidList : list string) : RuleItem :=
  WIFIBSSIDItem bssidList (set_of (map NormalizeWIFIBSSID bssidList)).

(** The map of rule_interface_address.go: a later entry of a key replaces an
    earlier one, the entries of a [badjson.TypedMap] have distinct keys. *)
Definition NewInterfaceAddressItem (entries : list (string * list Prefix)) : RuleItem :=
  InterfaceAddressItem entries.
Definition NewNetworkInterfaceAddressItem (entries : list (Z * list Prefix)) : RuleItem :=
  NetworkInterfaceAddressItem entries.
Definition NewDefaultInterfaceAddressItem (prefixes : list Prefix) : RuleItem :=
  DefaultInterfaceAddressItem prefixes.

Definition NewSourceMACAddressItem (addressList : list string) : RuleItem :=
  SourceMACAddressItem addressList
    (set_of (map (λ address,
       match net_ParseMAC address with
       | Some parsed => HardwareAddr_String parsed
       | None => address
       end) addressList)).
Definition NewSourceHostnameItem (l : list string) : RuleItem :=
  SourceHostnameItem l (set_of l).
Definition NewPreferredByItem (outboundTags : list string) : RuleItem :=
  PreferredByItem outboundTags [].
Definition NewPreferredByDNSItem (transportTags : list string) : RuleItem :=
  PreferredByDNSItem transportTags [].
Definition NewQueryTypeItem (typeList : list Z) : RuleItem := QueryTypeItem (map u16 typeList).
Definition NewQueryClientSubnetItem (prefixables : list Prefix) : RuleItem :=
  QueryClientSubnetItem prefixables.
Definition NewQueryDNSSECItem : RuleItem := QueryDNSSECItem.
Definition NewDNSResponseRCodeItem (rcode : Z) : RuleItem := DNSResponseRCodeItem rcode.
Definition NewDNSResponseRecordItem (field : string) (records : list (option RR))
    (selector : recordSelector) : RuleItem :=
  DNSResponseRecordItem field records selector.

(** [NewOutboundRule]: "any" is not a tag but a flag. *)
Definition NewOutboundRule (outbounds : list string) : RuleItem :=
  OutboundItem outbounds
    (set_of (filter (λ o, o ≠ "any"%string) outbounds))
    (mem "any"%string outbounds).

(** ** Matching *)

(** The name a domain item looks at: the sniffed or asked domain, else the name
    of the destination. *)
Definition domainHost (md : InboundContext) : string :=
  if nonempty (md_Domain md) then md_Domain md else sa_Fqdn (md_Destination md).

Definition InboundItem_Match (inboundMap : gset string) (md : InboundContext) : bool :=
  in_map inboundMap (md_Inbound md).

Definition IPVersionItem_Match (isIPv6 : bool) (md : InboundContext) : bool :=
  negb (md_IPVersion md =? 0) && Bool.eqb (md_IPVersion md =? 6) isIPv6 ||
  Socksaddr_IsIP (md_Destination md) &&
  Bool.eqb (Socksaddr_IsIPv6 (md_Destination md)) isIPv6.

Definition NetworkItem_Match (networkMap : gset string) (md : InboundContext) : bool :=
  in_map networkMap (md_Network md).
Definition AuthUserItem_Match (userMap : gset string) (md : InboundContext) : bool :=
  in_map userMap (md_User md).
Definition ProtocolItem_Match (protocolMap : gset string) (md : InboundContext) : bool :=
  in_map protocolMap (md_Protocol md).
Definition ClientItem_Match (clientMap : gset string) (md : InboundContext) : bool :=
  in_map clientMap (md_Client md).

Definition DomainItem_Match (matcher : Matcher) (md : InboundContext) : bool :=
  if negb (nonempty (domainHost md)) then false
  else Matcher_Match matcher (strings_ToLower (domainHost md)).

Definition DomainKeywordItem_Match (keywords : list string) (md : InboundContext) : bool :=
  if negb (nonempty (domainHost md)) then false
  else existsb (strings_Contains (strings_ToLower (domainHost md))) keywords.

Definition DomainRegexItem_Match (matchers : list Regexp) (md : InboundContext) : bool :=
  if negb (nonempty (domainHost md)) then false
  else existsb (λ matcher, Regexp_MatchString matcher (strings_ToLower (domainHost md))) matchers.

Definition AdGuardDomainItem_Match (matcher : AdGuardMatcher) (md : InboundContext) : bool :=
  if negb (nonempty (domainHost md)) then false
  else AdGuardMatcher_Match matcher (strings_ToLower (domainHost md)).

Definition IPCIDRItem_Match (ipSet : IPSet) (isSource : bool) (md : InboundContext) : bool :=
  if isSource || IPCIDRMatchSource (md_cache md)
  then IPSet_Contains ipSet (sa_Addr (md_Source md))
  else if md_DestinationAddressMatchFromResponse md then
    let addresses := DNSResponseAddressesForMatch md in
    if negb (has_items addresses) then IPCIDRAcceptEmpty (md_cache md)
    else existsb (IPSet_Contains ipSet) addresses
  else if Socksaddr_IsIP (md_Destination md)
  then IPSet_Contains ipSet (sa_Addr (md_Destination md))
  else if has_items (md_DestinationAddresses md)
  then existsb (IPSet_Contains ipSet) (md_DestinationAddresses md)
  else IPCIDRAcceptEmpty (md_cache md).

Definition IPIsPrivateItem_Match (isSource : bool) (md : InboundContext) : bool :=
  if isSource then negb (IsPublicAddr (sa_Addr (md_Source md)))
  else if md_DestinationAddressMatchFromResponse md
  then existsb (λ a, negb (IsPublicAddr a)) (DNSResponseAddressesForMatch md)
  else if Addr_IsValid (sa_Addr (md_Destination md))
  then negb (IsPublicAddr (sa_Addr (md_Destination md)))
  else existsb (λ a, negb (IsPublicAddr a)) (md_DestinationAddresses md).

Definition IPAcceptAnyItem_Match (md : InboundContext) : bool :=
  if md_DestinationAddressMatchFromResponse md
  then has_items (DNSResponseAddressesForMatch md)
  else has_items (md_DestinationAddresses md).

Definition PortItem_Match (ports : list Z) (isSource : bool) (md : InboundContext) : bool :=
  if isSource then mem (sa_Port (md_Source md)) ports
  else mem (sa_Port (md_Destination md)) ports.

Definition PortRangeItem_Match (isSource : bool) (portRangeList : list rangeItem)
    (md : InboundContext) : bool :=
  let port := if isSource then sa_Port (md_Source md) else sa_Port (md_Destination md) in
  existsb (λ r, (ri_start r <=? port) && (port <=? ri_end r)) portRangeList.

(** [filepath.Base] with the separator of Unix *)
Fixpoint drop_slashes (s : string) : string :=
  match s with
  | String c s' => if ascii_code c =? 47 then drop_slashes s' else s
  | EmptyString => EmptyString
  end.
Definition filepath_Base (path : string) : string :=
  if negb (nonempty path) then "."%string else
  let path := String.rev (drop_slashes (String.rev path)) in
  let path :=
    match last_index (Ascii.ascii_of_N 47) path with
    | Some i => str_drop (S i) path
    | None => path
    end in
  if nonempty path then path else "/"%string.

Definition ProcessItem_Match (processMap : gset string) (md : InboundContext) : bool :=
  match md_ProcessInfo md with
  | Some info =>
      if nonempty (co_ProcessPath info)
      then in_map processMap (filepath_Base (co_ProcessPath info)) else false
  | None => false
  end.

Definition ProcessPathItem_Match (env : Env) (processMap : gset string) (md : InboundContext)
    : bool :=
  match md_ProcessInfo md with
  | Some info =>
      if nonempty (co_ProcessPath info) && in_map processMap (co_ProcessPath info) then true
      else if env_IsAndroid env
      then existsb (in_map processMap) (co_AndroidPackageNames info) else false
  | None => false
  end.

Definition ProcessPathRegexItem_Match (matchers : list Regexp) (md : InboundContext) : bool :=
  match md_ProcessInfo md with
  | Some info =>
      if nonempty (co_ProcessPath info)
      then existsb (λ matcher, Regexp_MatchString matcher (co_ProcessPath info)) matchers
      else false
  | None => false
  end.

Definition PackageNameItem_Match (packageMap : gset string) (md : InboundContext) : bool :=
  match md_ProcessInfo md with
  | Some info =>
      if has_items (co_AndroidPackageNames info)
      then existsb (in_map packageMap) (co_AndroidPackageNames info) else false
  | None => false
  end.

Definition PackageNameRegexItem_Match (matchers : list Regexp) (md : InboundContext) : bool :=
  match md_ProcessInfo md with
  | Some info =>
      if has_items (co_AndroidPackageNames info)
      then existsb (λ matcher,
             existsb (Regexp_MatchString matcher) (co_AndroidPackageNames info)) matchers
      else false
  | None => false
  end.

Definition UserItem_Match (userMap : gset string) (md : InboundContext) : bool :=
  match md_ProcessInfo md with
  | Some info =>
      if nonempty (co_UserName info) then in_map userMap (co_UserName info) else false
  | None => false
  end.

Definition UserIdItem_Match (userIds : list Z) (md : InboundContext) : bool :=
  match md_ProcessInfo md with
  | Some info => if co_UserId info =? -1 then false else mem (co_UserId info) userIds
  | None => false
  end.

(** After [Start]: the manager is [None] when the service is not there. *)
Definition ClashModeItem_Match (env : Env) (mode : string) : bool :=
  match env_clashMode env with
  | Some current => strings_EqualFold current mode
  | None => false
  end.

Definition NetworkTypeItem_Match (env : Env) (networkType : list Z) : bool :=
  match nm_DefaultNetworkInterface env with
  | Some networkInterface => mem (ni_Type networkInterface) networkType
  | None => false
  end.
Definition NetworkIsExpensiveItem_Match (env : Env) : bool :=
  match nm_DefaultNetworkInterface env with
  | Some networkInterface => ni_Expensive networkInterface
  | None => false
  end.
Definition NetworkIsConstrainedItem_Match (env : Env) : bool :=
  match nm_DefaultNetworkInterface env with
  | Some networkInterface => ni_Constrained networkInterface
  | None => false
  end.
Definition WIFISSIDItem_Match (env : Env) (ssidMap : gset string) : bool :=
  in_map ssidMap (wifi_SSID (nm_WIFIState env)).
Definition WIFIBSSIDItem_Match (env : Env) (bssidMap : gset string) : bool :=
  in_map bssidMap (wifi_BSSID (nm_WIFIState env)).

(** [common.Find]: the zero value when there is none. *)
Definition find_interface (name : string) (interfaces : list Interface) : Interface :=
  default (MkInterface "" []) (List.find (λ it, bool_decide (if_Name it = name)) interfaces).

Definition InterfaceAddressItem_Match (env : Env)
    (interfaceAddresses : list (string * list Prefix)) : bool :=
  forallb (λ '(ifName, addresses),
    let iface := find_interface ifName (nm_Interfaces env) in
    if negb (nonempty (if_Name iface)) then false
    else negb (forallb (λ address,
           forallb (λ it, negb (Prefix_Overlaps address it)) (if_Addresses iface)) addresses))
    interfaceAddresses.

Definition NetworkInterfaceAddressItem_Match (env : Env)
    (interfaceAddresses : list (Z * list Prefix)) : bool :=
  let myInterfaces :=
    match nm_InterfaceMonitor env with Some (_, my) => my | None => [] end in
  forallb (λ '(ifType, addresses),
    existsb (λ networkInterface,
      if mem (if_Name (ni_Interface networkInterface)) myInterfaces then false
      else if negb (ni_Type networkInterface =? ifType) then false
      else existsb (λ it, existsb (λ prefix, Prefix_Overlaps prefix it) addresses)
             (if_Addresses (ni_Interface networkInterface)))
      (nm_NetworkInterfaces env))
    interfaceAddresses.

Definition DefaultInterfaceAddressItem_Match (env : Env) (interfaceAddresses : list Prefix)
    : bool :=
  match nm_InterfaceMonitor env with
  | Some (Some defaultInterface, _) =>
      forallb (λ address,
        negb (forallb (λ it, negb (Prefix_Overlaps address it))
                (if_Addresses defaultInterface))) interfaceAddresses
  | _ => false
  end.

Definition SourceMACAddressItem_Match (addressMap : gset string) (md : InboundContext) : bool :=
  match md_SourceMACAddress md with
  | Some address => in_map addressMap (HardwareAddr_String address)
  | None => false
  end.

Definition SourceHostnameItem_Match (hostnameMap : gset string) (md : InboundContext) : bool :=
  if nonempty (md_SourceHostname md) then in_map hostnameMap (md_SourceHostname md) else false.

Definition PreferredByItem_Match (outbounds : list OutboundWithPreferredRoutes)
    (md : InboundContext) : bool :=
  (nonempty (domainHost md) &&
   existsb (λ outbound, PreferredDomain outbound (md_PreMatch md) (domainHost md)) outbounds) ||
  (Socksaddr_IsIP (md_Destination md) &&
   existsb (λ outbound, PreferredAddress outbound (md_PreMatch md) (sa_Addr (md_Destination md))) outbounds) ||
  existsb (λ address, existsb (λ outbound, PreferredAddress outbound (md_PreMatch md) address) outbounds)
    (md_DestinationAddresses md).

Definition PreferredByDNSItem_Match (transports : list (string → bool)) (md : InboundContext)
    : bool :=
  if negb (nonempty (domainHost md)) then false
  else existsb (λ preferred, preferred (dns_CanonicalName (domainHost md))) transports.

Definition QueryTypeItem_Match (typeList : list Z) (md : InboundContext) : bool :=
  if md_QueryType md =? 0 then false else mem (md_QueryType md) typeList.

Definition QueryClientSubnetItem_Match (prefixes : list Prefix) (md : InboundContext) : bool :=
  let clientSubnet := md_QueryClientSubnet md in
  if negb (Prefix_IsValid clientSubnet) then false
  else existsb (λ prefix,
         (Prefix_Bits prefix <=? Prefix_Bits clientSubnet) &&
         Prefix_Contains prefix (Prefix_Addr clientSubnet)) prefixes.

Definition QueryDNSSECItem_Match (md : InboundContext) : bool := md_QueryDNSSEC md.

Definition DNSResponseRCodeItem_Match (rcode : Z) (md : InboundContext) : bool :=
  match md_DNSResponse md with
  | Some response => msg_Rcode response =? rcode
  | None => false
  end.

(** [DNSRecordOptions.Match] *)
Definition DNSRecordOptions_Match (expected : option RR) (record : RR) : bool :=
  match expected with Some rr => dns_IsDuplicate rr record | None => false end.

Definition DNSResponseRecordItem_Match (records : list (option RR)) (selector : recordSelector)
    (md : InboundContext) : bool :=
  match md_DNSResponse md with
  | Some response =>
      existsb (λ expected,
        existsb (DNSRecordOptions_Match expected) (select_records selector response)) records
  | None => false
  end.

Definition OutboundItem_Match (outboundMap : gset string) (matchAny : bool)
    (md : InboundContext) : bool :=
  if matchAny then nonempty (md_Outbound md) else in_map outboundMap (md_Outbound md).

(** The method table of the [RuleItem] interface. *)
Definition RuleItem_Match (env : Env) (item : RuleItem) (md : InboundContext) : bool :=
  match item with
  | InboundItem _ m => InboundItem_Match m md
  | IPVersionItem b => IPVersionItem_Match b md
  | NetworkItem _ m => NetworkItem_Match m md
  | AuthUserItem _ m => AuthUserItem_Match m md
  | ProtocolItem _ m => ProtocolItem_Match m md
  | ClientItem _ m => ClientItem_Match m md
  | DomainItem m _ => DomainItem_Match m md
  | DomainKeywordItem l => DomainKeywordItem_Match l md
  | DomainRegexItem l _ => DomainRegexItem_Match l md
  | AdGuardDomainItem m => AdGuardDomainItem_Match m md
  | IPCIDRItem s b _ => IPCIDRItem_Match s b md
  | IPIsPrivateItem b => IPIsPrivateItem_Match b md
  | IPAcceptAnyItem => IPAcceptAnyItem_Match md
  | PortItem l b => PortItem_Match l b md
  | PortRangeItem b _ l => PortRangeItem_Match b l md
  | ProcessItem _ m => ProcessItem_Match m md
  | ProcessPathItem _ m => ProcessPathItem_Match env m md
  | ProcessPathRegexItem l _ => ProcessPathRegexItem_Match l md
  | PackageNameItem _ m => PackageNameItem_Match m md
  | PackageNameRegexItem l _ => PackageNameRegexItem_Match l md
  | UserItem _ m => UserItem_Match m md
  | UserIdItem l => UserIdItem_Match l md
  | ClashModeItem mode => ClashModeItem_Match env mode
  | NetworkTypeItem l => NetworkTypeItem_Match env l
  | NetworkIsExpensiveItem => NetworkIsExpensiveItem_Match env
  | NetworkIsConstrainedItem => NetworkIsConstrainedItem_Match env
  | WIFISSIDItem _ m => WIFISSIDItem_Match env m
  | WIFIBSSIDItem _ m => WIFIBSSIDItem_Match env m
  | InterfaceAddressItem l => InterfaceAddressItem_Match env l
  | NetworkInterfaceAddressItem l => NetworkInterfaceAddressItem_Match env l
  | DefaultInterfaceAddressItem l => DefaultInterfaceAddressItem_Match env l
  | SourceMACAddressItem _ m => SourceMACAddressItem_Match m md
  | SourceHostnameItem _ m => SourceHostnameItem_Match m md
  | PreferredByItem _ l => PreferredByItem_Match l md
  | PreferredByDNSItem _ l => PreferredByDNSItem_Match l md
  | QueryTypeItem l => QueryTypeItem_Match l md
  | QueryClientSubnetItem l => QueryClientSubnetItem_Match l md
  | QueryDNSSECItem => QueryDNSSECItem_Match md
  | DNSResponseRCodeItem z => DNSResponseRCodeItem_Match z md
  | DNSResponseRecordItem _ l s => DNSResponseRecordItem_Match l s md
  | OutboundItem _ m b => OutboundItem_Match m b md
  end.

(** ** Descriptions *)

(** [C.InterfaceType.String] *)
Definition InterfaceType_String (t : Z) : string :=
  if t =? 0 then "wifi" else if t =? 1 then "cellular" else if t =? 2 then "ethernet"
  else if t =? 3 then "other" else pretty t.

(** [option.DNSQueryTypeToString] *)
Definition DNSQueryTypeToString (queryType : Z) : string :=
  match dns_TypeToString queryType with Some name => name | None => pretty queryType end.

Definition InboundItem_String (inbounds : list string) : string :=
  ("inbound=" +:+ describe_all inbounds)%string.
Definition NetworkItem_String (networks : list string) : string :=
  ("network=" +:+ describe_all networks)%string.
Definition AuthUserItem_String (users : list string) : string :=
  ("auth_user=" +:+ describe_all users)%string.
Definition ProtocolItem_String (protocols : list string) : string :=
  ("protocol=" +:+ describe_all protocols)%string.
Definition ClientItem_String (clients : list string) : string :=
  ("client=" +:+ describe_all clients)%string.
Definition ProcessItem_String (processes : list string) : string :=
  ("process_name=" +:+ describe_all processes)%string.
Definition ProcessPathItem_String (processes : list string) : string :=
  ("process_path=" +:+ describe_all processes)%string.
Definition PackageNameItem_String (packageNames : list string) : string :=
  ("package_name=" +:+ describe_all packageNames)%string.
Definition UserItem_String (users : list string) : string :=
  ("user=" +:+ describe_all users)%string.
Definition WIFISSIDItem_String (ssidList : list string) : string :=
  ("wifi_ssid=" +:+ describe_all ssidList)%string.
Definition WIFIBSSIDItem_String (bssidList : list string) : string :=
  ("wifi_bssid=" +:+ describe_all bssidList)%string.
Definition SourceMACAddressItem_String (addresses : list string) : string :=
  ("source_mac_address=" +:+ describe_all addresses)%string.
Definition SourceHostnameItem_String (hostnames : list string) : string :=
  ("source_hostname=" +:+ describe_all hostnames)%string.
Definition PreferredByItem_String (outboundTags : list string) : string :=
  ("preferred_by=" +:+ describe_all outboundTags)%string.
Definition PreferredByDNSItem_String (transportTags : list string) : string :=
  ("preferred_by=" +:+ describe_all transportTags)%string.
Definition OutboundItem_String (outbounds : list string) : string :=
  ("outbound=" +:+ describe_all outbounds)%string.
Definition IPVersionItem_String (isIPv6 : bool) : string :=
  ("ip_version=" +:+ if isIPv6 then "6" else "4")%string.
Definition DomainKeywordItem_String (keywords : list string) : string :=
  ("domain_keyword=" +:+ describe_list keywords)%string.
Definition AdGuardDomainItem_String : string := "!adguard_domain_rules=<binary>".
Definition IPIsPrivateItem_String (isSource : bool) : string :=
  if isSource then "source_ip_is_private=true" else "ip_is_private=true".
Definition IPAcceptAnyItem_String : string := "ip_accept_any=true".
Definition PortItem_String (ports : list Z) (isSource : bool) : string :=
  ((if isSource then "source_port=" else "port=") +:+ describe_all (map pretty ports))%string.
Definition PortRangeItem_String (isSource : bool) (portRanges : list string) : string :=
  ((if isSource then "source_port_range=" else "port_range=") +:+
   describe_all portRanges)%string.
Definition UserIdItem_String (userIds : list Z) : string :=
  ("user_id=" +:+ describe_all (map pretty userIds))%string.
Definition ClashModeItem_String (mode : string) : string := ("clash_mode=" +:+ mode)%string.
Definition NetworkTypeItem_String (networkType : list Z) : string :=
  ("network_type=" +:+ describe_all (map InterfaceType_String networkType))%string.
Definition NetworkIsExpensiveItem_String : string := "network_is_expensive=true".
Definition NetworkIsConstrainedItem_String : string := "network_is_expensive=true".
Definition address_entry (key : string) (prefixes : list Prefix) : string :=
  (key +:+ "=" +:+ strings_Join (map Prefix_String prefixes) ",")%string.
Definition InterfaceAddressItem_String (entries : list (string * list Prefix)) : string :=
  ("interface_address=[" +:+
   strings_Join (map (λ e, address_entry e.1 e.2) entries) " " +:+ "]")%string.
Definition NetworkInterfaceAddressItem_String (entries : list (Z * list Prefix)) : string :=
  ("network_interface_address=[" +:+
   strings_Join (map (λ e, address_entry (InterfaceType_String e.1) e.2) entries) " " +:+
   "]")%string.
Definition DefaultInterfaceAddressItem_String (interfaceAddresses : list Prefix) : string :=
  ("default_interface_address=" +:+ describe_list (map Prefix_String interfaceAddresses))%string.
Definition QueryTypeItem_String (typeList : list Z) : string :=
  ("query_type=" +:+ describe_all (map DNSQueryTypeToString typeList))%string.
Definition QueryClientSubnetItem_String (prefixes : list Prefix) : string :=
  ("query_client_subnet=" +:+ describe_all (map Prefix_String prefixes))%string.
Definition QueryDNSSECItem_String : string := "query_dnssec=true".
Definition DNSResponseRCodeItem_String (rcode : Z) : string :=
  ("response_rcode=" +:+ dns_RcodeToString rcode)%string.
Definition DNSResponseRecordItem_String (field : string) (records : list (option RR)) : string :=
  (field +:+ "=[" +:+
   strings_Join (concat (map (λ r, match r with Some rr => [dns_RRString rr] | None => [] end)
                   records)) " " +:+ "]")%string.

Definition RuleItem_String (item : RuleItem) : string :=
  match item with
  | InboundItem l _ => InboundItem_String l
  | NetworkItem l _ => NetworkItem_String l
  | AuthUserItem l _ => AuthUserItem_String l
  | ProtocolItem l _ => ProtocolItem_String l
  | ClientItem l _ => ClientItem_String l
  | ProcessItem l _ => ProcessItem_String l
  | ProcessPathItem l _ => ProcessPathItem_String l
  | PackageNameItem l _ => PackageNameItem_String l
  | UserItem l _ => UserItem_String l
  | WIFISSIDItem l _ => WIFISSIDItem_String l
  | WIFIBSSIDItem l _ => WIFIBSSIDItem_String l
  | SourceMACAddressItem l _ => SourceMACAddressItem_String l
  | SourceHostnameItem l _ => SourceHostnameItem_String l
  | PreferredByItem l _ => PreferredByItem_String l
  | PreferredByDNSItem l _ => PreferredByDNSItem_String l
  | OutboundItem l _ _ => OutboundItem_String l
  | IPVersionItem b => IPVersionItem_String b
  | DomainItem _ d | DomainRegexItem _ d | IPCIDRItem _ _ d
  | ProcessPathRegexItem _ d | PackageNameRegexItem _ d => d
  | DomainKeywordItem l => DomainKeywordItem_String l
  | AdGuardDomainItem _ => AdGuardDomainItem_String
  | IPIsPrivateItem b => IPIsPrivateItem_String b
  | IPAcceptAnyItem => IPAcceptAnyItem_String
  | PortItem l b => PortItem_String l b
  | PortRangeItem b l _ => PortRangeItem_String b l
  | UserIdItem l => UserIdItem_String l
  | ClashModeItem m => ClashModeItem_String m
  | NetworkTypeItem l => NetworkTypeItem_String l
  | NetworkIsExpensiveItem => NetworkIsExpensiveItem_String
  | NetworkIsConstrainedItem => NetworkIsConstrainedItem_String
  | InterfaceAddressItem l => InterfaceAddressItem_String l
  | NetworkInterfaceAddressItem l => NetworkInterfaceAddressItem_String l
  | DefaultInterfaceAddressItem l => DefaultInterfaceAddressItem_String l
  | QueryTypeItem l => QueryTypeItem_String l
  | QueryClientSubnetItem l => QueryClientSubnetItem_String l
  | QueryDNSSECItem => QueryDNSSECItem_String
  | DNSResponseRCodeItem z => DNSResponseRCodeItem_String z
  | DNSResponseRecordItem f l _ => DNSResponseRecordItem_String f l
  end.

End Items.
