(* ===== verification/RuleAction.v ===== *)
(** * Rule actions: route/rule/rule_action.go and adapter/rule.go

    What a matching rule does: the action values, [NewRuleAction] and
    [NewDNSRuleAction] from the options of option/rule_action.go, which actions
    end the rule walk, the sniffer table, the flood counter of [reject] and the
    response of [predefined]. Durations and times are integers of
    nanoseconds. *)
From Stdlib Require Import Strings.Byte.
From stdpp Require Import base list strings pretty gmap.
From S2P Require Import Prelude Netip Metadata.

(** ** Options *)

(** [option.RawRouteOptionsActionOptions]; [NetworkStrategy] is a pointer. *)
Record RawRouteOptionsActionOptions : Type := MkRawRouteOptions {
  o_OverrideAddress : string;
  o_OverridePort : Z;
  o_NetworkStrategy : option Z;
  o_FallbackDelay : Z;
  o_UDPDisableDomainUnmapping : bool;
  o_UDPConnect : bool;
  o_UDPTimeout : Z;
  o_TLSFragment : bool;
  o_TLSFragmentFallbackDelay : Z;
  o_TLSRecordFragment : bool;
  o_TLSSpoof : string;
  o_TLSSpoofMethod : string;
}.

#[export] Instance RawRouteOptions_eq_dec : EqDecision RawRouteOptionsActionOptions.
Proof. solve_decision. Defined.

Definition RawRouteOptionsZero : RawRouteOptionsActionOptions :=
  MkRawRouteOptions "" 0 None 0 false false 0 false 0 false "" "".

Record RouteActionOptions : Type := MkRouteActionOptions {
  ro_Outbound : string;
  ro_Raw : RawRouteOptionsActionOptions;
}.

#[export] Instance RouteActionOptions_eq_dec : EqDecision RouteActionOptions.
Proof. solve_decision. Defined.

Record RejectActionOptions : Type := MkRejectOptions { rj_Method : string; rj_NoDrop : bool }.

#[export] Instance RejectActionOptions_eq_dec : EqDecision RejectActionOptions.
Proof. solve_decision. Defined.

Record RouteActionSniff : Type := MkSniffOptions { sn_Sniffer : list string; sn_Timeout : Z }.

#[export] Instance RouteActionSniff_eq_dec : EqDecision RouteActionSniff.
Proof. solve_decision. Defined.

(** [option.RouteActionResolve]; [RewriteTTL] and [ClientSubnet] are pointers. *)
Record RouteActionResolve : Type := MkResolveOptions {
  rs_Server : string;
  rs_Timeout : Z;
  rs_Strategy : Z;
  rs_DisableCache : bool;
  rs_DisableOptimisticCache : bool;
  rs_RewriteTTL : option Z;
  rs_ClientSubnet : option Prefix;
}.

#[export] Instance RouteActionResolve_eq_dec : EqDecision RouteActionResolve.
Proof. solve_decision. Defined.

(** [option.RuleAction] *)
Record RuleActionOptions : Type := MkRuleActionOptions {
  ra_Action : string;
  ra_RouteOptions : RouteActionOptions;
  ra_RouteOptionsOptions : RawRouteOptionsActionOptions;
  ra_BypassOptions : RouteActionOptions;
  ra_RejectOptions : RejectActionOptions;
  ra_SniffOptions : RouteActionSniff;
  ra_ResolveOptions : RouteActionResolve;
}.

#[export] Instance RuleActionOptions_eq_dec : EqDecision RuleActionOptions.
Proof. solve_decision. Defined.

Definition RuleActionOptionsZero : RuleActionOptions :=
  MkRuleActionOptions "" (MkRouteActionOptions "" RawRouteOptionsZero) RawRouteOptionsZero
    (MkRouteActionOptions "" RawRouteOptionsZero) (MkRejectOptions "" false)
    (MkSniffOptions [] 0) (MkResolveOptions "" 0 0 false false None None).

(** [option.AbstractDNSRouteActionOptions] *)
Record AbstractDNSRouteActionOptions : Type := MkAbstractDNSOptions {
  d_Timeout : Z;
  d_Strategy : Z;
  d_DisableCache : bool;
  d_DisableOptimisticCache : bool;
  d_RewriteTTL : option Z;
  d_ClientSubnet : option Prefix;
  d_RemoveClientSubnet : bool;
}.

#[export] Instance AbstractDNSOptions_eq_dec : EqDecision AbstractDNSRouteActionOptions.
Proof. solve_decision. Defined.

Definition AbstractDNSOptionsZero : AbstractDNSRouteActionOptions :=
  MkAbstractDNSOptions 0 0 false false None None false.

Record DNSRouteActionOptions : Type := MkDNSRouteOptions {
  dr_Server : string;
  dr_Speculative : bool;
  dr_Abstract : AbstractDNSRouteActionOptions;
}.

#[export] Instance DNSRouteOptions_eq_dec : EqDecision DNSRouteActionOptions.
Proof. solve_decision. Defined.

Record DNSEvaluateActionOptions : Type := MkDNSEvaluateOptions {
  de_Server : string;
  de_Tag : string;
  de_Speculative : bool;
  de_Abstract : AbstractDNSRouteActionOptions;
}.

#[export] Instance DNSEvaluateOptions_eq_dec : EqDecision DNSEvaluateActionOptions.
Proof. solve_decision. Defined.

#[export] Instance SVCBValue_eq_dec : EqDecision SVCBValue.
Proof. solve_decision. Defined.
#[export] Instance EDNS0_eq_dec : EqDecision EDNS0.
Proof. solve_decision. Defined.
#[export] Instance RData_eq_dec : EqDecision RData.
Proof. solve_decision. Defined.
#[export] Instance RR_eq_dec : EqDecision RR.
Proof. solve_decision. Defined.

(** [option.DNSRouteActionPredefined]: the records may be nil. *)
Record DNSRouteActionPredefined : Type := MkPredefinedOptions {
  pd_Rcode : option Z;
  pd_Answer : list (option RR);
  pd_Ns : list (option RR);
  pd_Extra : list (option RR);
}.

#[export] Instance PredefinedOptions_eq_dec : EqDecision DNSRouteActionPredefined.
Proof. solve_decision. Defined.

(** [option.DNSRuleAction] *)
Record DNSRuleActionOptions : Type := MkDNSRuleActionOptions {
  da_Action : string;
  da_Race : bool;
  da_RouteOptions : DNSRouteActionOptions;
  da_EvaluateOptions : DNSEvaluateActionOptions;
  da_RouteOptionsOptions : AbstractDNSRouteActionOptions;
  da_RejectOptions : RejectActionOptions;
  da_PredefinedOptions : DNSRouteActionPredefined;
}.

#[export] Instance DNSRuleActionOptions_eq_dec : EqDecision DNSRuleActionOptions.
Proof. solve_decision. Defined.

Definition DNSRuleActionOptionsZero : DNSRuleActionOptions :=
  MkDNSRuleActionOptions "" false (MkDNSRouteOptions "" false AbstractDNSOptionsZero)
    (MkDNSEvaluateOptions "" "" false AbstractDNSOptionsZero) AbstractDNSOptionsZero
    (MkRejectOptions "" false) (MkPredefinedOptions None [] [] []).

(** ** Action values *)

Inductive StreamSniffer : Type :=
| TLSClientHello | HTTPHost | StreamDomainNameQuery | BitTorrent | SSH | RDP.
Inductive PacketSniffer : Type :=
| QUICClientHello | DomainNameQuery | STUNMessage | UTP | UDPTracker | DTLSRecord | NTP.

(** [RuleActionRouteOptions]; [NewRuleAction] leaves the two lists of network
    types nil. *)
Record RuleActionRouteOptions : Type := MkRuleActionRouteOptions {
  OverrideAddress : Socksaddr;
  OverridePort : Z;
  NetworkStrategy : option Z;
  NetworkType : list Z;
  FallbackNetworkType : list Z;
  FallbackDelay : Z;
  UDPDisableDomainUnmapping : bool;
  UDPConnect : bool;
  UDPTimeout : Z;
  TLSFragment : bool;
  TLSFragmentFallbackDelay : Z;
  TLSRecordFragment : bool;
  TLSSpoof : string;
  TLSSpoofMethod : Z;
}.

Record RuleActionDNSRouteOptions : Type := MkRuleActionDNSRouteOptions {
  Strategy : Z;
  Timeout : Z;
  DisableCache : bool;
  DisableOptimisticCache : bool;
  RewriteTTL : option Z;
  ClientSubnet : Prefix;
  RemoveClientSubnet : bool;
}.

Inductive RuleAction : Type :=
| RuleActionRoute (Outbound : string) (options : RuleActionRouteOptions)
| RuleActionBypass (Outbound : string) (options : RuleActionRouteOptions)
| RuleActionOfRouteOptions (options : RuleActionRouteOptions)
| RuleActionDNSRoute (Server : string) (Speculative : bool)
    (options : RuleActionDNSRouteOptions)
| RuleActionEvaluate (Server Tag : string) (Speculative : bool)
    (options : RuleActionDNSRouteOptions)
| RuleActionRespond
| RuleActionOfDNSRouteOptions (options : RuleActionDNSRouteOptions)
| RuleActionReject (Method : string) (NoDrop : bool)
| RuleActionHijackDNS
| RuleActionSniff (SnifferNames : list string) (StreamSniffers : list StreamSniffer)
    (PacketSniffers : list PacketSniffer) (sniffTimeout : Z)
| RuleActionResolve (Server : string) (resolveTimeout : Z) (resolveStrategy : Z)
    (resolveDisableCache resolveDisableOptimisticCache : bool)
    (resolveRewriteTTL : option Z) (resolveClientSubnet : Prefix)
| RuleActionPredefined (Rcode : Z) (Answer Ns Extra : list (option RR)).

(** The [Type] methods *)
Definition RuleAction_Type (a : RuleAction) : string :=
  match a with
  | RuleActionRoute _ _ | RuleActionDNSRoute _ _ _ => "route"
  | RuleActionBypass _ _ => "bypass"
  | RuleActionOfRouteOptions _ | RuleActionOfDNSRouteOptions _ => "route-options"
  | RuleActionEvaluate _ _ _ _ => "evaluate"
  | RuleActionRespond => "respond"
  | RuleActionReject _ _ => "reject"
  | RuleActionHijackDNS => "hijack-dns"
  | RuleActionSniff _ _ _ _ => "sniff"
  | RuleActionResolve _ _ _ _ _ _ _ => "resolve"
  | RuleActionPredefined _ _ _ _ => "predefined"
  end.

(** [adapter.IsFinalAction] *)
Definition IsFinalAction (a : RuleAction) : bool :=
  negb (mem (RuleAction_Type a) ["sniff"; "resolve"; "evaluate"]%string).

Section Actions.
Context `{Extern}.
(** [tlsspoof.PlatformSupported], a constant of the build *)
Variable platformSupported : bool.

(** [tlsspoof.ParseMethod] *)
Definition ParseMethod (s : string) : result Z :=
  if mem s [""; "wrong-sequence"]%string then Ok 0
  else if bool_decide (s = "wrong-checksum"%string) then Ok 1
  else if bool_decide (s = "wrong-ack"%string) then Ok 2
  else if bool_decide (s = "wrong-md5"%string) then Ok 3
  else if bool_decide (s = "wrong-timestamp"%string) then Ok 4
  else Err (ENew ("tls_spoof: unknown method: " +:+ s)%string).

(** [tlsspoof.ParseOptions] *)
Definition ParseOptions (spoof method : string) : result (string * Z) :=
  if negb (nonempty spoof) then
    if nonempty method then Err (ENew "spoof_method requires spoof") else Ok (""%string, 0)
  else if negb platformSupported
  then Err (ENew "tls_spoof is not supported on this platform")
  else parsedMethod ← ParseMethod method; Ok (spoof, parsedMethod).

(** [tlsspoof.Method.String] *)
Definition Method_String (m : Z) : string :=
  if m =? 0 then "wrong-sequence" else if m =? 1 then "wrong-checksum"
  else if m =? 2 then "wrong-ack" else if m =? 3 then "wrong-md5"
  else if m =? 4 then "wrong-timestamp" else "unknown".

Definition newRuleActionRouteOptions (options : RawRouteOptionsActionOptions)
    : result RuleActionRouteOptions :=
  '(spoof, spoofMethod) ← ParseOptions (o_TLSSpoof options) (o_TLSSpoofMethod options);
  Ok {| OverrideAddress := ParseSocksaddrHostPort (o_OverrideAddress options) 0;
        OverridePort := o_OverridePort options;
        NetworkStrategy := o_NetworkStrategy options;
        NetworkType := [];
        FallbackNetworkType := [];
        FallbackDelay := o_FallbackDelay options;
        UDPDisableDomainUnmapping := o_UDPDisableDomainUnmapping options;
        UDPConnect := o_UDPConnect options;
        UDPTimeout := o_UDPTimeout options;
        TLSFragment := o_TLSFragment options;
        TLSFragmentFallbackDelay := o_TLSFragmentFallbackDelay options;
        TLSRecordFragment := o_TLSRecordFragment options;
        TLSSpoof := spoof;
        TLSSpoofMethod := spoofMethod |}.

(** [RuleActionSniff.build]: the sniffers of the names, in order, until an
    unknown name. *)
Fixpoint sniff_build (names : list string) (stream : list StreamSniffer)
    (packet : list PacketSniffer) : result (list StreamSniffer * list PacketSniffer) :=
  match names with
  | [] => Ok (stream, packet)
  | name :: names =>
      if bool_decide (name = "tls"%string)
      then sniff_build names (stream ++ [TLSClientHello]) packet
      else if bool_decide (name = "http"%string)
      then sniff_build names (stream ++ [HTTPHost]) packet
      else if bool_decide (name = "quic"%string)
      then sniff_build names stream (packet ++ [QUICClientHello])
      else if bool_decide (name = "dns"%string)
      then sniff_build names (stream ++ [StreamDomainNameQuery]) (packet ++ [DomainNameQuery])
      else if bool_decide (name = "stun"%string)
      then sniff_build names stream (packet ++ [STUNMessage])
      else if bool_decide (name = "bittorrent"%string)
      then sniff_build names (stream ++ [BitTorrent]) (packet ++ [UTP; UDPTracker])
      else if bool_decide (name = "dtls"%string)
      then sniff_build names stream (packet ++ [DTLSRecord])
      else if bool_decide (name = "ssh"%string)
      then sniff_build names (stream ++ [SSH]) packet
      else if bool_decide (name = "rdp"%string)
      then sniff_build names (stream ++ [RDP]) packet
      else if bool_decide (name = "ntp"%string)
      then sniff_build names stream (packet ++ [NTP])
      else Err (ENew ("unknown sniffer: " +:+ name)%string)
  end.

(** [NewRuleAction]: [None] is the nil action of a nested rule. *)
Definition NewRuleAction (action : RuleActionOptions) : result (option RuleAction) :=
  let a := ra_Action action in
  if negb (nonempty a) then Ok None
  else if bool_decide (a = "route"%string) then
    routeOptions ← newRuleActionRouteOptions (ro_Raw (ra_RouteOptions action));
    Ok (Some (RuleActionRoute (ro_Outbound (ra_RouteOptions action)) routeOptions))
  else if bool_decide (a = "route-options"%string) then
    routeOptions ← newRuleActionRouteOptions (ra_RouteOptionsOptions action);
    Ok (Some (RuleActionOfRouteOptions routeOptions))
  else if bool_decide (a = "bypass"%string) then
    routeOptions ← newRuleActionRouteOptions (ro_Raw (ra_BypassOptions action));
    Ok (Some (RuleActionBypass (ro_Outbound (ra_BypassOptions action)) routeOptions))
  else if bool_decide (a = "reject"%string) then
    Ok (Some (RuleActionReject (rj_Method (ra_RejectOptions action))
                (rj_NoDrop (ra_RejectOptions action))))
  else if bool_decide (a = "hijack-dns"%string) then Ok (Some RuleActionHijackDNS)
  else if bool_decide (a = "sniff"%string) then
    '(stream, packet) ← sniff_build (sn_Sniffer (ra_SniffOptions action)) [] [];
    Ok (Some (RuleActionSniff (sn_Sniffer (ra_SniffOptions action)) stream packet
                (sn_Timeout (ra_SniffOptions action))))
  else if bool_decide (a = "resolve"%string) then
    let o := ra_ResolveOptions action in
    Ok (Some (RuleActionResolve (rs_Server o) (rs_Timeout o) (rs_Strategy o)
                (rs_DisableCache o) (rs_DisableOptimisticCache o) (rs_RewriteTTL o)
                (default PrefixZero (rs_ClientSubnet o))))
  else Panic ("unknown rule action: " +:+ a)%string.

(** The route options of a DNS action, the same in three of its cases. *)
Definition dns_route_options (o : AbstractDNSRouteActionOptions) : RuleActionDNSRouteOptions :=
  {| Strategy := d_Strategy o;
     Timeout := d_Timeout o;
     DisableCache := d_DisableCache o;
     DisableOptimisticCache := d_DisableOptimisticCache o;
     RewriteTTL := d_RewriteTTL o;
     ClientSubnet := default PrefixZero (d_ClientSubnet o);
     RemoveClientSubnet := d_RemoveClientSubnet o |}.

Definition NewDNSRuleAction (action : DNSRuleActionOptions) : result (option RuleAction) :=
  let a := da_Action action in
  if negb (nonempty a) then Ok None
  else if bool_decide (a = "route"%string) then
    let o := da_RouteOptions action in
    Ok (Some (RuleActionDNSRoute (dr_Server o) (dr_Speculative o)
                (dns_route_options (dr_Abstract o))))
  else if bool_decide (a = "evaluate"%string) then
    let o := da_EvaluateOptions action in
    Ok (Some (RuleActionEvaluate (de_Server o) (de_Tag o) (de_Speculative o)
                (dns_route_options (de_Abstract o))))
  else if bool_decide (a = "respond"%string) then Ok (Some RuleActionRespond)
  else if bool_decide (a = "route-options"%string) then
    Ok (Some (RuleActionOfDNSRouteOptions (dns_route_options (da_RouteOptionsOptions action))))
  else if bool_decide (a = "reject"%string) then
    Ok (Some (RuleActionReject (rj_Method (da_RejectOptions action))
                (rj_NoDrop (da_RejectOptions action))))
  else if bool_decide (a = "predefined"%string) then
    let o := da_PredefinedOptions action in
    Ok (Some (RuleActionPredefined (default 0 (pd_Rcode o)) (pd_Answer o) (pd_Ns o)
                (pd_Extra o)))
  else Panic ("unknown rule action: " +:+ a)%string.

(** ** The flood counter of [reject] *)

Inductive rejectCause : Type := ErrReset | ErrDrop.

Definition dropWindow : Z := 30 * 10 ^ 9.
Definition dropLimit : nat := 50.

(** [RuleActionReject.Error] at the time [timeNow]: what is returned ([None] is
    the nil error of "reply") and the new [dropCounter]. *)
Definition Reject_Error (Method : string) (NoDrop : bool) (timeNow : Z)
    (dropCounter : list Z) : result (option rejectCause * list Z) :=
  if bool_decide (Method = "drop"%string) then Ok (Some ErrDrop, dropCounter)
  else if bool_decide (Method = "reply"%string) then Ok (None, dropCounter)
  else if negb (bool_decide (Method = "default"%string))
  then Panic ("unknown reject method: " +:+ Method)%string
  else if NoDrop then Ok (Some ErrReset, dropCounter)
  else
    let dropCounter :=
      List.filter (λ t, timeNow - t <=? dropWindow) dropCounter ++ [timeNow] in
    if (dropLimit <? length dropCounter)%nat then Ok (Some ErrDrop, dropCounter)
    else Ok (Some ErrReset, dropCounter).

(** ** The response of [predefined] *)

Definition strings_HasSuffix (s suffix : string) : bool :=
  String.prefix (String.rev suffix) (String.rev s).

(** [rewriteRecords] on one record: a wildcard owner name becomes the name that
    was asked, when that name ends as the wildcard does. *)
Definition rewriteRecord (question : Question) (it : RR) : RR :=
  if strings_HasPrefix (rr_Name it) "*" then
    if strings_HasSuffix (q_Name question) (str_drop 1 (rr_Name it))
    then MkRR (q_Name question) (rr_Class it) (rr_Ttl it) (rr_Data it) else it
  else it.

(** A nil record makes [it.Header()] panic. *)
Definition rewriteRecords (records : list (option RR)) (question : Question)
    : result (list RR) :=
  mapM_idx (λ _ r,
    match r with
    | Some it => Ok (rewriteRecord question it)
    | None => Panic "nil pointer dereference"
    end) 0 records.

Definition Predefined_Response (Rcode : Z) (Answer Ns Extra : list (option RR))
    (request : Msg) : result Msg :=
  match msg_Question request with
  | [] => Panic "index out of range"
  | question :: _ =>
      answer ← rewriteRecords Answer question;
      ns ← rewriteRecords Ns question;
      extra ← rewriteRecords Extra question;
      Ok {| msg_Hdr :=
              {| hdr_Id := hdr_Id (msg_Hdr request);
                 hdr_Response := true;
                 hdr_Authoritative := true;
                 hdr_RecursionDesired := true;
                 hdr_RecursionAvailable := true;
                 hdr_Rcode := Rcode |};
            msg_Question := msg_Question request;
            msg_Answer := answer;
            msg_Ns := ns;
            msg_Extra := extra |}
  end.

End Actions.
