(* ===== verification/RuleMatch.v ===== *)
(** * Rule matching: route/rule/rule_abstract.go, match_state.go,
    rule_item_rule_set.go and the [Match] methods of the rule and rule-set types

    A rule is a value of [HeadlessRule] with one constructor per Go type that
    implements [adapter.HeadlessRule]; rule-sets hold rules, and a rule may refer
    to rule-sets, so the type is nested. Matching threads the rule cache of the
    request as explicit state: every function takes the cache before and returns
    the cache after, the other fields of the request are only read. *)
From stdpp Require Import base list strings gmap.
From S2P Require Import Prelude Netip Metadata RuleItems RuleAction.

(** ** match_state.go *)

Definition ruleMatchSourceAddress : Z := 1.
Definition ruleMatchSourcePort : Z := 2.
Definition ruleMatchDestinationAddress : Z := 4.
Definition ruleMatchDestinationPort : Z := 8.

Record ruleGroupMatch : Type := MkGroups { required : Z; satisfied : Z }.

Definition groups_done (g : ruleGroupMatch) : bool :=
  and_not (required g) (satisfied g) =? 0.

Definition mergeWith (g other : ruleGroupMatch) : ruleGroupMatch :=
  MkGroups (Z.lor (required g) (required other)) (Z.lor (satisfied g) (satisfied other)).

(** [ruleMatchState.has] *)
Definition state_has (s target : Z) : bool := negb (Z.land s target =? 0).

Record ruleMatchSnapshot : Type := MkSnapshot {
  s_ipCidrMatchSource : bool;
  s_ipCidrAcceptEmpty : bool;
  s_deferredIPCIDRMatchGroups : Z;
  s_ignoreDestinationIPCIDRMatch : bool;
  s_ruleSetDomainOnly : bool;
}.

Definition snapshotRuleMatch (c : RuleCache) : ruleMatchSnapshot :=
  MkSnapshot (IPCIDRMatchSource c) (IPCIDRAcceptEmpty c) (DeferredIPCIDRMatchGroups c)
    (IgnoreDestinationIPCIDRMatch c) (RuleSetDomainOnly c).

Definition snapshot_restore (s : ruleMatchSnapshot) (c : RuleCache) : RuleCache :=
  MkRuleCache (s_ipCidrMatchSource s) (s_ipCidrAcceptEmpty s) (SourceAddressMatch c)
    (SourcePortMatch c) (DestinationAddressMatch c) (DestinationPortMatch c)
    (s_deferredIPCIDRMatchGroups s) (s_ignoreDestinationIPCIDRMatch s)
    (s_ruleSetDomainOnly s) (RuleSetDomainMatched c).

(** ** The types *)

(** [adapter.RuleSetMetadata] *)
Record RuleSetMetadata : Type := MkRuleSetMetadata {
  ContainsProcessRule : bool;
  ContainsWIFIRule : bool;
  ContainsIPCIDRRule : bool;
  ContainsDNSQueryTypeRule : bool;
  ContainsNonIPCIDRRule : bool;
}.

(** A loaded rule-set ([LocalRuleSet], [RemoteRuleSet]): what matching uses. *)
Record RuleSetOf (R : Type) : Type := MkRuleSet {
  rs_tag : string;
  rs_rules : list R;
  rs_metadata : RuleSetMetadata;
}.
Arguments MkRuleSet {R}.
Arguments rs_tag {R}.
Arguments rs_rules {R}.
Arguments rs_metadata {R}.

Record RuleSetItemOf (R : Type) : Type := MkRuleSetItem {
  tagList : list string;
  setList : list (RuleSetOf R);
  ipCidrMatchSource : bool;
  ipCidrAcceptEmpty : bool;
  domainOnly : bool;
}.
Arguments MkRuleSetItem {R}.
Arguments tagList {R}.
Arguments setList {R}.
Arguments ipCidrMatchSource {R}.
Arguments ipCidrAcceptEmpty {R}.
Arguments domainOnly {R}.

(** An element of [allItems]: an item of one of the groups or the rule-set item. *)
Inductive anyItem `{Extern} : Type :=
| PlainItem (item : RuleItem)
| TheRuleSetItem.

Record abstractDefaultRule `{Extern} (R : Type) : Type := MkDefault {
  items : list RuleItem;
  sourceAddressItems : list RuleItem;
  sourcePortItems : list RuleItem;
  destinationAddressItems : list RuleItem;
  destinationIPCIDRItems : list RuleItem;
  destinationPortItems : list RuleItem;
  allItems : list anyItem;
  ruleSetItem : option (RuleSetItemOf R);
  invert : bool;
  action : option RuleAction;
}.
Arguments MkDefault {_ R}.
Arguments items {_ R}.
Arguments sourceAddressItems {_ R}.
Arguments sourcePortItems {_ R}.
Arguments destinationAddressItems {_ R}.
Arguments destinationIPCIDRItems {_ R}.
Arguments destinationPortItems {_ R}.
Arguments allItems {_ R}.
Arguments ruleSetItem {_ R}.
Arguments invert {_ R}.
Arguments action {_ R}.

Inductive logicalMode : Type := LogicalTypeAnd | LogicalTypeOr.

Record abstractLogicalRule (R : Type) : Type := MkLogical {
  l_rules : list R;
  l_mode : logicalMode;
  l_invert : bool;
  l_action : option RuleAction;
}.
Arguments MkLogical {R}.
Arguments l_rules {R}.
Arguments l_mode {R}.
Arguments l_invert {R}.
Arguments l_action {R}.

(** The types that implement [adapter.HeadlessRule]. *)
Inductive HeadlessRule `{Extern} : Type :=
| DefaultRule (r : abstractDefaultRule HeadlessRule)
| DefaultHeadlessRule (r : abstractDefaultRule HeadlessRule)
| DefaultDNSRule (r : abstractDefaultRule HeadlessRule)
    (matchResponse : bool) (matchResponseTag : string) (race : bool)
| LogicalRule (r : abstractLogicalRule HeadlessRule)
| LogicalHeadlessRule (r : abstractLogicalRule HeadlessRule)
| LogicalDNSRule (r : abstractLogicalRule HeadlessRule)
    (matchResponseTags : list string) (matchResponseAnonymous : bool) (race : bool).

Abbreviation RuleSet := (RuleSetOf HeadlessRule).
Abbreviation RuleSetItem := (RuleSetItemOf HeadlessRule).

Section Match.
Context `{Extern}.
Variable env : Env.

(** ** Groups of items *)

Definition matchItem (req : InboundContext) (c : RuleCache) (item : RuleItem) : bool :=
  RuleItem_Match env item (set_cache req c).

Definition matchAnyItem (l : list RuleItem) (req : InboundContext) (c : RuleCache) : bool :=
  existsb (matchItem req c) l.

Definition require (bit : Z) (g : ruleGroupMatch) : ruleGroupMatch :=
  MkGroups (Z.lor (required g) bit) (satisfied g).
Definition satisfy (bit : Z) (g : ruleGroupMatch) : ruleGroupMatch :=
  MkGroups (required g) (Z.lor (satisfied g) bit).

Section Default.
Context {R : Type}.
Implicit Types r : abstractDefaultRule R.

Definition destinationIPCIDRMatchesSource (r : abstractDefaultRule R) (c : RuleCache) : bool :=
  IPCIDRMatchSource c && has_items (destinationIPCIDRItems r).

Definition destinationIPCIDRMatchesDestination (r : abstractDefaultRule R) (c : RuleCache)
    : bool :=
  negb (IgnoreDestinationIPCIDRMatch c) && negb (IPCIDRMatchSource c) &&
  has_items (destinationIPCIDRItems r).

(** [abstractDefaultRule.evaluateGroups], block by block *)
Definition evaluateGroups (r : abstractDefaultRule R) (req : InboundContext) (c : RuleCache)
    : ruleGroupMatch * RuleCache :=
  let g := MkGroups 0 0 in
  let g :=
    if has_items (sourceAddressItems r) then
      let g := require ruleMatchSourceAddress g in
      if matchAnyItem (sourceAddressItems r) req c
      then satisfy ruleMatchSourceAddress g else g
    else g in
  let g :=
    if destinationIPCIDRMatchesSource r c then
      let g := require ruleMatchSourceAddress g in
      if negb (state_has (satisfied g) ruleMatchSourceAddress) &&
         matchAnyItem (destinationIPCIDRItems r) req c
      then satisfy ruleMatchSourceAddress g else g
    else g in
  let g :=
    if negb (RuleSetDomainOnly c) && has_items (sourcePortItems r) then
      let g := require ruleMatchSourcePort g in
      if matchAnyItem (sourcePortItems r) req c then satisfy ruleMatchSourcePort g else g
    else g in
  let '(g, c) :=
    if has_items (destinationAddressItems r) then
      let g := require ruleMatchDestinationAddress g in
      if matchAnyItem (destinationAddressItems r) req c
      then (satisfy ruleMatchDestinationAddress g, set_RuleSetDomainMatched c true)
      else (g, c)
    else (g, c) in
  let g :=
    if destinationIPCIDRMatchesDestination r c then
      let g := require ruleMatchDestinationAddress g in
      if negb (state_has (satisfied g) ruleMatchDestinationAddress) &&
         matchAnyItem (destinationIPCIDRItems r) req c
      then satisfy ruleMatchDestinationAddress g else g
    else g in
  let g :=
    if negb (RuleSetDomainOnly c) && has_items (destinationPortItems r) then
      let g := require ruleMatchDestinationPort g in
      if matchAnyItem (destinationPortItems r) req c
      then satisfy ruleMatchDestinationPort g else g
    else g in
  let c :=
    if IgnoreDestinationIPCIDRMatch c && negb (IPCIDRMatchSource c) &&
       has_items (destinationIPCIDRItems r) && negb (has_items (destinationAddressItems r))
    then set_DeferredIPCIDRMatchGroups c
           (Z.lor (DeferredIPCIDRMatchGroups c) ruleMatchDestinationAddress)
    else c in
  (g, c).

(** [abstractDefaultRule.evaluateForMerge]; [None] for [false] *)
Definition evaluateForMerge (r : abstractDefaultRule R) (req : InboundContext) (c : RuleCache)
    : option ruleGroupMatch * RuleCache :=
  let '(groups, c) := evaluateGroups r req c in
  if forallb (matchItem req c) (items r) then (Some groups, c) else (None, c).

End Default.

(** [mergeableRuleIn] *)
Definition mergeableRuleIn (rules : list HeadlessRule) : option (abstractDefaultRule HeadlessRule) :=
  match rules with
  | [DefaultHeadlessRule r] =>
      if invert r then None
      else match ruleSetItem r with Some _ => None | None => Some r end
  | _ => None
  end.

(** ** Nested matching, over the [Match] of the rules inside *)
Section Nested.
Variable rule_Match : HeadlessRule → InboundContext → RuleCache → bool * RuleCache.

Section AnyRule.
Variables (req : InboundContext) (snapshot : ruleMatchSnapshot).

(** The loop of [matchAnyHeadlessRule] with [matched] and [deferredGroups]. *)
Fixpoint matchAny_loop (rules : list HeadlessRule) (matched : bool) (deferredGroups : Z)
    (c : RuleCache) : bool * RuleCache :=
  match rules with
  | [] =>
      let c := snapshot_restore snapshot c in
      (matched,
       if matched then
         set_DeferredIPCIDRMatchGroups c (Z.lor (DeferredIPCIDRMatchGroups c) deferredGroups)
       else c)
  | rule :: rules =>
      let c := ResetRuleMatchCache c in
      let '(m, c) := rule_Match rule req c in
      if m then
        if (DeferredIPCIDRMatchGroups c =? 0) &&
           (negb (RuleSetDomainOnly c) || RuleSetDomainMatched c)
        then (true, snapshot_restore snapshot c)
        else matchAny_loop rules true (Z.lor deferredGroups (DeferredIPCIDRMatchGroups c)) c
      else matchAny_loop rules matched deferredGroups c
  end.
End AnyRule.

Definition matchAnyHeadlessRule (rules : list HeadlessRule) (req : InboundContext)
    (c : RuleCache) : bool * RuleCache :=
  matchAny_loop req (snapshotRuleMatch c) rules false 0 c.

(** [LocalRuleSet.Match] and [RemoteRuleSet.Match] *)
Definition RuleSet_Match (s : RuleSet) (req : InboundContext) (c : RuleCache)
    : bool * RuleCache :=
  matchAnyHeadlessRule (rs_rules s) req c.

(** [RuleSetItem.prepareNestedMatch] *)
Definition prepareNestedMatch (item : RuleSetItem) (c : RuleCache) : RuleCache :=
  let c := set_IPCIDR (ResetRuleMatchCache c) (ipCidrMatchSource item) (ipCidrAcceptEmpty item) in
  if domainOnly item then set_domainOnly c else c.

Section ItemLoops.
Variables (item : RuleSetItem) (req : InboundContext).

Fixpoint ruleSetItem_loop (sets : list RuleSet) (c : RuleCache) : bool * RuleCache :=
  match sets with
  | [] => (false, c)
  | s :: sets =>
      let c := prepareNestedMatch item c in
      let '(m, c) := RuleSet_Match s req c in
      if m && (negb (domainOnly item) || RuleSetDomainMatched c) then (true, c)
      else ruleSetItem_loop sets c
  end.

Variables (snapshot : ruleMatchSnapshot) (outerGroups : ruleGroupMatch) (outerDone : bool).

(** The loop of [matchWithOuterGroups]: a set of one plain rule is merged with
    the groups of the outer rule, another set is a condition of its own. *)
Fixpoint outerGroups_loop (sets : list RuleSet) (matched : bool) (deferredGroups : Z)
    (c : RuleCache) : bool * RuleCache :=
  match sets with
  | [] =>
      let c := snapshot_restore snapshot c in
      (matched,
       if matched then
         set_DeferredIPCIDRMatchGroups c (Z.lor (DeferredIPCIDRMatchGroups c) deferredGroups)
       else c)
  | s :: sets =>
      let c := prepareNestedMatch item c in
      match mergeableRuleIn (rs_rules s) with
      | Some branch =>
          let '(branchGroups, c) := evaluateForMerge branch req c in
          match branchGroups with
          | Some branchGroups =>
              let merged := mergeWith outerGroups branchGroups in
              if groups_done merged then
                let branchDeferredGroups :=
                  and_not (DeferredIPCIDRMatchGroups c) (satisfied merged) in
                if branchDeferredGroups =? 0 then
                  let c := snapshot_restore snapshot c in
                  (true, set_DeferredIPCIDRMatchGroups c
                           (and_not (DeferredIPCIDRMatchGroups c) (satisfied merged)))
                else outerGroups_loop sets true (Z.lor deferredGroups branchDeferredGroups) c
              else outerGroups_loop sets matched deferredGroups c
          | None => outerGroups_loop sets matched deferredGroups c
          end
      | None =>
          if outerDone then
            let '(m, c) := RuleSet_Match s req c in
            if m then
              if DeferredIPCIDRMatchGroups c =? 0 then (true, snapshot_restore snapshot c)
              else outerGroups_loop sets true
                     (Z.lor deferredGroups (DeferredIPCIDRMatchGroups c)) c
            else outerGroups_loop sets matched deferredGroups c
          else outerGroups_loop sets matched deferredGroups c
      end
  end.
End ItemLoops.

(** [RuleSetItem.Match] *)
Definition RuleSetItem_Match (item : RuleSetItem) (req : InboundContext) (c : RuleCache)
    : bool * RuleCache :=
  let snapshot := snapshotRuleMatch c in
  let '(m, c) := ruleSetItem_loop item req (setList item) c in
  (m, snapshot_restore snapshot c).

(** [RuleSetItem.matchWithOuterGroups] *)
Definition matchWithOuterGroups (item : RuleSetItem) (req : InboundContext) (c : RuleCache)
    (outerGroups : ruleGroupMatch) : bool * RuleCache :=
  if domainOnly item then
    if groups_done outerGroups then RuleSetItem_Match item req c else (false, c)
  else
    outerGroups_loop item req (snapshotRuleMatch c) outerGroups (groups_done outerGroups)
      (setList item) false 0 c.

(** [abstractDefaultRule.matchInner] *)
Definition matchInner (r : abstractDefaultRule HeadlessRule) (req : InboundContext)
    (c : RuleCache) : bool * RuleCache :=
  let '(groups, c) := evaluateGroups r req c in
  if negb (forallb (matchItem req c) (items r)) then (false, c) else
  let '(matched, c) :=
    match ruleSetItem r with
    | Some item => matchWithOuterGroups item req c groups
    | None => (groups_done groups, c)
    end in
  (matched,
   if matched then
     set_DeferredIPCIDRMatchGroups c
       (and_not (DeferredIPCIDRMatchGroups c) (satisfied groups))
   else c).

(** [abstractDefaultRule.Match] *)
Definition default_Match (r : abstractDefaultRule HeadlessRule) (req : InboundContext)
    (c : RuleCache) : bool * RuleCache :=
  if negb (has_items (allItems r)) then (true, c) else
  let domainMatched := RuleSetDomainMatched c in
  let '(matched, c) := matchInner r req c in
  let c := if negb matched || invert r then set_RuleSetDomainMatched c domainMatched else c in
  if invert r then
    if negb matched then (true, set_DeferredIPCIDRMatchGroups c 0)
    else (negb (DeferredIPCIDRMatchGroups c =? 0), c)
  else (matched, c).

(** The two loops of [abstractLogicalRule.Match]: [matched], [deferredGroups]
    and the cache when the loop ends. *)
Fixpoint and_loop (req : InboundContext) (rules : list HeadlessRule) (deferredGroups : Z)
    (c : RuleCache) : bool * Z * RuleCache :=
  match rules with
  | [] => (true, deferredGroups, c)
  | rule :: rules =>
      let c := ResetRuleCache c in
      let '(m, c) := rule_Match rule req c in
      if negb m then (false, 0, c)
      else and_loop req rules (Z.lor deferredGroups (DeferredIPCIDRMatchGroups c)) c
  end.

Fixpoint or_loop (req : InboundContext) (rules : list HeadlessRule) (matched : bool)
    (deferredGroups : Z) (c : RuleCache) : bool * Z * RuleCache :=
  match rules with
  | [] => (matched, deferredGroups, c)
  | rule :: rules =>
      let c := ResetRuleCache c in
      let '(m, c) := rule_Match rule req c in
      if m then
        if (DeferredIPCIDRMatchGroups c =? 0) &&
           (negb (RuleSetDomainOnly c) || RuleSetDomainMatched c)
        then (true, 0, c)
        else or_loop req rules true (Z.lor deferredGroups (DeferredIPCIDRMatchGroups c)) c
      else or_loop req rules matched deferredGroups c
  end.

(** [abstractLogicalRule.Match] *)
Definition logical_Match (r : abstractLogicalRule HeadlessRule) (req : InboundContext)
    (c : RuleCache) : bool * RuleCache :=
  let domainMatched := RuleSetDomainMatched c in
  let snapshot := snapshotRuleMatch c in
  let '(matched, deferredGroups, c) :=
    match l_mode r with
    | LogicalTypeAnd => and_loop req (l_rules r) 0 c
    | LogicalTypeOr => or_loop req (l_rules r) false 0 c
    end in
  let c := snapshot_restore snapshot c in
  let c := if negb matched || l_invert r then set_RuleSetDomainMatched c domainMatched else c in
  let c :=
    if matched then
      set_DeferredIPCIDRMatchGroups c (Z.lor (DeferredIPCIDRMatchGroups c) deferredGroups)
    else c in
  if l_invert r then
    if negb matched then (true, c) else (negb (deferredGroups =? 0), c)
  else (matched, c).

(** [DefaultDNSRule.matchForMatch]: with [match_response] the rule looks at a
    copy of the metadata, so the cache of the caller stays. *)
Definition dns_matchForMatch (r : abstractDefaultRule HeadlessRule) (matchResponse : bool)
    (matchResponseTag : string) (req : InboundContext) (c : RuleCache) : bool * RuleCache :=
  if matchResponse then
    let response :=
      if nonempty matchResponseTag then md_NamedDNSResponses req !! matchResponseTag
      else md_DNSResponse req in
    match response with
    | None => (invert r, c)
    | Some m => ((default_Match r (with_response req (Some m)) c).1, c)
    end
  else default_Match r req c.

End Nested.

(** The [Match] methods. *)
Fixpoint rule_Match (rule : HeadlessRule) (req : InboundContext) (c : RuleCache)
    : bool * RuleCache :=
  match rule with
  | DefaultRule r | DefaultHeadlessRule r => default_Match rule_Match r req c
  | DefaultDNSRule r matchResponse matchResponseTag _ =>
      dns_matchForMatch rule_Match r matchResponse matchResponseTag req c
  | LogicalRule r | LogicalHeadlessRule r | LogicalDNSRule r _ _ _ =>
      logical_Match rule_Match r req c
  end.

(** The same on the whole metadata. *)
Definition HeadlessRule_Match (rule : HeadlessRule) (md : InboundContext)
    : bool * InboundContext :=
  let '(m, c) := rule_Match rule md (md_cache md) in (m, set_cache md c).

(** ** DNS rules: rule_dns.go *)

(** [LegacyPreMatch]: matching before the lookup, destination addresses are not
    known yet. *)
Definition LegacyPreMatch (rule : HeadlessRule) (md : InboundContext) : bool * InboundContext :=
  let prepared := set_IgnoreDestinationIPCIDRMatch (md_cache md) true in
  let finish '(m, c) := (m, set_cache md (set_IgnoreDestinationIPCIDRMatch c false)) in
  match rule with
  | DefaultDNSRule r matchResponse _ _ =>
      if matchResponse then (false, md)
      else finish (default_Match rule_Match r md prepared)
  | LogicalDNSRule r _ _ _ => finish (logical_Match rule_Match r md prepared)
  | _ => (false, md)
  end.

(** [MatchAddressLimit]: matching the addresses of a response, on a copy. *)
Definition MatchAddressLimit (rule : HeadlessRule) (md : InboundContext) (response : option Msg)
    : bool :=
  let matchMetadata := with_response md response in
  let c := ResetRuleCache (md_cache md) in
  match rule with
  | DefaultDNSRule r _ _ _ => (default_Match rule_Match r matchMetadata c).1
  | LogicalDNSRule r _ _ _ => (logical_Match rule_Match r matchMetadata c).1
  | _ => false
  end.

(** [RuleSetItem.ContainsDestinationIPCIDRRule] *)
Definition ContainsDestinationIPCIDRRule (item : RuleSetItem) : bool :=
  if ipCidrMatchSource item || domainOnly item then false
  else existsb (λ s, ContainsIPCIDRRule (rs_metadata s)) (setList item).

(** [WithAddressLimit] of [DefaultDNSRule] and [LogicalDNSRule] *)
Fixpoint WithAddressLimit (rule : HeadlessRule) : bool :=
  match rule with
  | DefaultDNSRule r _ _ _ =>
      if has_items (destinationIPCIDRItems r) then true
      else match ruleSetItem r with
           | Some item => ContainsDestinationIPCIDRRule item
           | None => false
           end
  | LogicalDNSRule r _ _ _ => existsb WithAddressLimit (l_rules r)
  | _ => false
  end.

End Match.
