(* ===== verification/RuleSpec.v ===== *)
(** * What a rule means: a specification of matching without a cache

    [rule_Match] threads the rule cache of the request, accumulates bit sets and
    saves and restores snapshots. [holds] says what a rule means in one page: the
    conditions of a group are alternatives, the groups and the other items all
    have to hold, a rule-set of one plain rule is merged group by group with the
    rule that refers to it, another rule-set is a condition of its own, [invert]
    is negation. This file has the specification and the facts on bit sets and
    groups of items that relate the two; the refinement is in RuleRefine.v. *)
From stdpp Require Import base list strings gmap.
From S2P Require Import Prelude Netip Metadata RuleItems RuleAction RuleMatch.

(** ** Induction over rules

    The rules directly inside a rule: the branches of a logical rule, the rules
    of the rule-sets a rule refers to. *)
Section Nested.
Context `{Extern}.

Definition ruleSet_rules (r : abstractDefaultRule HeadlessRule) : list HeadlessRule :=
  match ruleSetItem r with
  | Some item => concat (map rs_rules (setList item))
  | None => []
  end.

Definition subrules (rule : HeadlessRule) : list HeadlessRule :=
  match rule with
  | DefaultRule r | DefaultHeadlessRule r | DefaultDNSRule r _ _ _ => ruleSet_rules r
  | LogicalRule r | LogicalHeadlessRule r | LogicalDNSRule r _ _ _ => l_rules r
  end.

Lemma HeadlessRule_nested_ind (P : HeadlessRule → Prop) :
  (∀ rule, Forall P (subrules rule) → P rule) → ∀ rule, P rule.
Proof.
  intros Hstep. fix IH 1. intros rule. apply Hstep.
  destruct rule as [r|r|r ? ? ?|r|r|r ? ? ?];
    [ destruct r as [? ? ? ? ? ? ? [[? sets ? ? ?]|] ? ?]
    | destruct r as [? ? ? ? ? ? ? [[? sets ? ? ?]|] ? ?]
    | destruct r as [? ? ? ? ? ? ? [[? sets ? ? ?]|] ? ?]
    | destruct r as [rules ? ? ?] | destruct r as [rules ? ? ?]
    | destruct r as [rules ? ? ?] ];
    cbn; unfold ruleSet_rules; cbn; try apply Forall_nil_2;
    try (induction rules as [|x rules IHr];
         [apply Forall_nil_2|apply Forall_cons_2; [apply IH|exact IHr]]; fail);
    (induction sets as [|[tag rules md] sets IHs]; cbn; [apply Forall_nil_2|]);
    (apply Forall_app_2; [|exact IHs]; clear IHs);
    (induction rules as [|x rules IHr];
     [apply Forall_nil_2|apply Forall_cons_2; [apply IH|exact IHr]]).
Qed.

End Nested.

(** ** The specification *)

Inductive group : Type :=
| SourceAddressGroup
| SourcePortGroup
| DestinationAddressGroup
| DestinationPortGroup.

Definition all_groups : list group :=
  [SourceAddressGroup; SourcePortGroup; DestinationAddressGroup; DestinationPortGroup].

(** What the rule-set item around a rule says of its CIDR conditions:
    [rule_set_ip_cidr_match_source] and [rule_set_ip_cidr_accept_empty]. *)
Record scope : Type := MkScope { sc_source : bool; sc_acceptEmpty : bool }.

Definition top_scope : scope := MkScope false false.
Definition item_scope {R} (item : RuleSetItemOf R) : scope :=
  MkScope (ipCidrMatchSource item) (ipCidrAcceptEmpty item).
Definition scope_of (c : RuleCache) : scope :=
  MkScope (IPCIDRMatchSource c) (IPCIDRAcceptEmpty c).

Section Spec.
Context `{Extern}.
Variable env : Env.

(** Does an item hold for a request, in a scope? *)
Definition item_holds (sc : scope) (req : InboundContext) (item : RuleItem) : bool :=
  RuleItem_Match env item (set_cache req (set_IPCIDR RuleCacheZero (sc_source sc) (sc_acceptEmpty sc))).

(** The items of a rule by group. With [ignore], destination CIDR items are left
    out, as before a lookup. *)
Definition group_items {R} (ignore : bool) (sc : scope) (r : abstractDefaultRule R) (g : group)
    : list RuleItem :=
  match g with
  | SourceAddressGroup =>
      sourceAddressItems r ++ (if sc_source sc then destinationIPCIDRItems r else [])
  | SourcePortGroup => sourcePortItems r
  | DestinationAddressGroup =>
      destinationAddressItems r ++
      (if ignore || sc_source sc then [] else destinationIPCIDRItems r)
  | DestinationPortGroup => destinationPortItems r
  end.

Definition group_conds {R} (ignore : bool) (sc : scope) (req : InboundContext)
    (r : abstractDefaultRule R) (g : group) : list bool :=
  map (item_holds sc req) (group_items ignore sc r g).

(** A group without conditions holds, another one needs one of them. *)
Definition group_holds (conds : list bool) : bool := negb (has_items conds) || existsb id conds.
Definition groups_hold (conds : group → list bool) : bool :=
  forallb (λ g, group_holds (conds g)) all_groups.

Definition merge_conds (a b : group → list bool) (g : group) : list bool := a g ++ b g.

Section Rules.
Variable holds : scope → HeadlessRule → InboundContext → bool.

(** One rule-set of a rule whose own groups have the conditions [outer]. *)
Definition set_holds (outer : group → list bool) (sc : scope) (req : InboundContext) (s : RuleSet)
    : bool :=
  match mergeableRuleIn (rs_rules s) with
  | Some branch =>
      forallb (item_holds sc req) (items branch) &&
      groups_hold (merge_conds outer (group_conds false sc req branch))
  | None => groups_hold outer && existsb (λ rule, holds sc rule req) (rs_rules s)
  end.

Definition body_holds (sc : scope) (r : abstractDefaultRule HeadlessRule) (req : InboundContext)
    : bool :=
  forallb (item_holds sc req) (items r) &&
  match ruleSetItem r with
  | Some item =>
      existsb (set_holds (group_conds false sc req r) (item_scope item) req) (setList item)
  | None => groups_hold (group_conds false sc req r)
  end.

Definition default_holds (sc : scope) (r : abstractDefaultRule HeadlessRule)
    (req : InboundContext) : bool :=
  negb (has_items (allItems r)) || xorb (invert r) (body_holds sc r req).

Definition logical_holds (r : abstractLogicalRule HeadlessRule) (req : InboundContext) : bool :=
  xorb (l_invert r)
    match l_mode r with
    | LogicalTypeAnd => forallb (λ rule, holds top_scope rule req) (l_rules r)
    | LogicalTypeOr => existsb (λ rule, holds top_scope rule req) (l_rules r)
    end.

(** A rule with [match_response] looks at the stored response; without one its
    condition fails. *)
Definition dns_holds (sc : scope) (r : abstractDefaultRule HeadlessRule) (matchResponse : bool)
    (tag : string) (req : InboundContext) : bool :=
  if matchResponse then
    match (if nonempty tag then md_NamedDNSResponses req !! tag else md_DNSResponse req) with
    | None => invert r
    | Some m => default_holds sc r (with_response req (Some m))
    end
  else default_holds sc r req.
End Rules.

Fixpoint holds (sc : scope) (rule : HeadlessRule) (req : InboundContext) : bool :=
  match rule with
  | DefaultRule r | DefaultHeadlessRule r => default_holds holds sc r req
  | DefaultDNSRule r matchResponse tag _ => dns_holds holds sc r matchResponse tag req
  | LogicalRule r | LogicalHeadlessRule r | LogicalDNSRule r _ _ _ => logical_holds holds r req
  end.

End Spec.
