(* ===== verification/RuleGroups.v ===== *)
(** * Groups as bit sets

    [evaluateGroups] computes two bit sets, the groups that have conditions and
    the groups that hold. Here: bit sets of groups and their algebra, and that
    the two bit sets are those of the conditions of the specification. *)
From stdpp Require Import base list strings gmap.
From S2P Require Import Prelude Netip Metadata RuleItems RuleAction RuleMatch RuleSpec.

Definition group_bit (g : group) : Z :=
  match g with
  | SourceAddressGroup => ruleMatchSourceAddress
  | SourcePortGroup => ruleMatchSourcePort
  | DestinationAddressGroup => ruleMatchDestinationAddress
  | DestinationPortGroup => ruleMatchDestinationPort
  end.

(** The bit set of the groups [p] is true of. *)
Definition bits (p : group → bool) : Z :=
  fold_right (λ g acc, Z.lor (if p g then group_bit g else 0) acc) 0 all_groups.

(** Split on what [p] says of each group. *)
Ltac split_groups p :=
  destruct (p SourceAddressGroup), (p SourcePortGroup),
    (p DestinationAddressGroup), (p DestinationPortGroup).

Lemma bits_lor p q : Z.lor (bits p) (bits q) = bits (λ g, p g || q g).
Proof. unfold bits; cbn. split_groups p; split_groups q; reflexivity. Qed.

Lemma bits_and_not p q : and_not (bits p) (bits q) = bits (λ g, p g && negb (q g)).
Proof. unfold bits; cbn. split_groups p; split_groups q; reflexivity. Qed.

Lemma bits_zero p : (bits p =? 0) = forallb (λ g, negb (p g)) all_groups.
Proof. unfold bits; cbn. split_groups p; reflexivity. Qed.

Lemma bits_ext p q : (∀ g, p g = q g) → bits p = bits q.
Proof. intros E. unfold bits; cbn. by rewrite !E. Qed.

(** The only group that is ever deferred. *)
Definition defer (b : bool) : Z := if b then ruleMatchDestinationAddress else 0.

Lemma defer_bits b :
  defer b = bits (λ g, match g with DestinationAddressGroup => b | _ => false end).
Proof. by destruct b. Qed.

Lemma defer_lor a b : Z.lor (defer a) (defer b) = defer (a || b).
Proof. by destruct a, b. Qed.

Lemma defer_zero b : (defer b =? 0) = negb b.
Proof. by destruct b. Qed.

Lemma defer_and_not b p :
  and_not (defer b) (bits p) = defer (b && negb (p DestinationAddressGroup)).
Proof. unfold bits; cbn. split_groups p; destruct b; reflexivity. Qed.

#[export] Hint Rewrite defer_lor defer_zero defer_and_not : go.

(** ** The bit sets of lists of conditions *)

Definition mask (conds : group → list bool) : ruleGroupMatch :=
  MkGroups (bits (λ g, has_items (conds g))) (bits (λ g, existsb id (conds g))).

Lemma mask_done conds : groups_done (mask conds) = groups_hold conds.
Proof.
  unfold groups_done, mask; cbn [required satisfied]. rewrite bits_and_not, bits_zero.
  apply forallb_ext_in. intros g _. unfold group_holds. by rewrite negb_andb, negb_involutive.
Qed.

Lemma mask_merge a b : mergeWith (mask a) (mask b) = mask (merge_conds a b).
Proof.
  unfold mergeWith, mask, merge_conds; cbn [required satisfied]. rewrite !bits_lor.
  f_equal; apply bits_ext; intros g; [by rewrite has_items_app|by rewrite existsb_app].
Qed.

Section Evaluate.
Context `{Extern}.
Variable env : Env.
Implicit Types (c : RuleCache) (req : InboundContext).

(** ** What matching keeps of the cache *)

(** The fields that say in which scope a rule is matched. *)
Definition match_scope c : bool * bool * bool * bool :=
  (IPCIDRMatchSource c, IPCIDRAcceptEmpty c, IgnoreDestinationIPCIDRMatch c,
   RuleSetDomainOnly c).

Lemma match_scope_restore c c' : match_scope (snapshot_restore (snapshotRuleMatch c) c') = match_scope c.
Proof. done. Qed.

Lemma match_scope_Deferred c z : match_scope (set_DeferredIPCIDRMatchGroups c z) = match_scope c.
Proof. done. Qed.

Lemma match_scope_DomainMatched c b : match_scope (set_RuleSetDomainMatched c b) = match_scope c.
Proof. done. Qed.

Lemma match_scope_fields c c' :
  match_scope c' = match_scope c →
  scope_of c' = scope_of c ∧ IPCIDRMatchSource c' = IPCIDRMatchSource c ∧
  IgnoreDestinationIPCIDRMatch c' = IgnoreDestinationIPCIDRMatch c ∧
  RuleSetDomainOnly c' = RuleSetDomainOnly c.
Proof. destruct c, c'. unfold match_scope, scope_of; cbn. by intros [=-> -> -> ->]. Qed.

(** An item reads nothing of the cache but the scope. *)
Lemma matchItem_scope req c item : matchItem env req c item = item_holds env (scope_of c) req item.
Proof. by destruct item. Qed.

Lemma matchAnyItem_scope l req c :
  matchAnyItem env l req c = existsb id (map (item_holds env (scope_of c) req) l).
Proof.
  unfold matchAnyItem. induction l as [|item l IH]; [done|]. cbn. by rewrite IH, matchItem_scope.
Qed.

Lemma forallb_matchItem l req c :
  forallb (matchItem env req c) l = forallb (item_holds env (scope_of c) req) l.
Proof. apply forallb_ext_in. intros. apply matchItem_scope. Qed.

(** ** evaluateGroups *)

(** The shapes of the blocks of [evaluateGroups]. *)
Definition add_block (g : ruleGroupMatch) (bit : Z) (h e : bool) : ruleGroupMatch :=
  MkGroups (Z.lor (required g) (if h then bit else 0))
    (Z.lor (satisfied g) (if h && e then bit else 0)).

Lemma block_spec g bit h e :
  (if h : bool then if e : bool then satisfy bit (require bit g) else require bit g else g) =
  add_block g bit h e.
Proof.
  destruct g, h, e; unfold add_block, require, satisfy; cbn; by rewrite ?Z.lor_0_r.
Qed.

Lemma block_cache_spec g bit h e (c1 c2 : RuleCache) :
  (if h : bool
   then if e : bool then (satisfy bit (require bit g), c1) else (require bit g, c2)
   else (g, c2)) = (add_block g bit h e, if h && e then c1 else c2).
Proof.
  destruct g, h, e; unfold add_block, require, satisfy; cbn; by rewrite ?Z.lor_0_r.
Qed.

Lemma block_guarded_spec g bit h e :
  (∀ s, state_has s bit = true → Z.lor s bit = s) →
  (if h : bool then
     if negb (state_has (satisfied (require bit g)) bit) && e
     then satisfy bit (require bit g) else require bit g
   else g) = add_block g bit h e.
Proof.
  intros Habs. unfold add_block, require, satisfy.
  destruct h; [|by destruct g; cbn; rewrite !Z.lor_0_r]. cbn.
  destruct (state_has (satisfied g) bit) eqn:Hs; destruct e; cbn; rewrite ?Z.lor_0_r; try done.
  by rewrite (Habs (satisfied g)).
Qed.

Lemma state_has_absorb k s : 0 <= k → state_has s (2 ^ k) = true → Z.lor s (2 ^ k) = s.
Proof.
  intros Hk Hs. apply Z.bits_inj'. intros n Hn. rewrite Z.lor_spec, Z.pow2_bits_eqb by done.
  destruct (Z.eqb_spec k n) as [<-|]; [|by rewrite orb_false_r].
  rewrite orb_true_r. symmetry. apply not_false_iff_true. intros Hb.
  unfold state_has in Hs. apply negb_true_iff, Z.eqb_neq in Hs. apply Hs.
  apply Z.bits_inj'. intros m Hm. rewrite Z.land_spec, Z.pow2_bits_eqb, Z.bits_0 by done.
  destruct (Z.eqb_spec k m) as [<-|]; [by rewrite Hb|by rewrite andb_false_r].
Qed.

(** Does a rule put off its destination CIDR items? *)
Definition node_defers {R} (ignore : bool) (sc : scope) (r : abstractDefaultRule R) : bool :=
  ignore && negb (sc_source sc) && has_items (destinationIPCIDRItems r) &&
  negb (has_items (destinationAddressItems r)).

Lemma existsb_has_items l : existsb id l = has_items l && existsb id l.
Proof. by destruct l. Qed.

Lemma has_items_map {A B} (f : A → B) l : has_items (map f l) = has_items l.
Proof. by destruct l. Qed.

(** The lists of blocks, joined group by group. *)
Lemma add_blocks_mask {R} (r : abstractDefaultRule R) req ignore sc :
  let e l := existsb id (map (item_holds env sc req) l) in
  add_block (add_block (add_block (add_block (add_block (add_block (MkGroups 0 0)
    ruleMatchSourceAddress (has_items (sourceAddressItems r)) (e (sourceAddressItems r)))
    ruleMatchSourceAddress (sc_source sc && has_items (destinationIPCIDRItems r))
      (e (destinationIPCIDRItems r)))
    ruleMatchSourcePort (has_items (sourcePortItems r)) (e (sourcePortItems r)))
    ruleMatchDestinationAddress (has_items (destinationAddressItems r))
      (e (destinationAddressItems r)))
    ruleMatchDestinationAddress
      (negb ignore && negb (sc_source sc) && has_items (destinationIPCIDRItems r))
      (e (destinationIPCIDRItems r)))
    ruleMatchDestinationPort (has_items (destinationPortItems r)) (e (destinationPortItems r))
  = mask (group_conds env ignore sc req r).
Proof.
  cbv zeta. unfold mask, add_block, bits, group_conds, group_items; cbn [required satisfied].
  f_equal; cbn [fold_right all_groups]; rewrite ?map_app, ?has_items_app, ?existsb_app, ?has_items_map.
  - destruct (sc_source sc), ignore; cbn;
      destruct (has_items (sourceAddressItems r)), (has_items (sourcePortItems r)),
        (has_items (destinationAddressItems r)), (has_items (destinationPortItems r));
      rewrite ?has_items_map; destruct (has_items (destinationIPCIDRItems r)); reflexivity.
  - assert (Hh : ∀ l, has_items l && existsb id (map (item_holds env sc req) l) =
                      existsb id (map (item_holds env sc req) l)) by (by intros []).
    rewrite <- !andb_assoc, !Hh.
    destruct (sc_source sc), ignore; cbn;
      repeat match goal with |- context [existsb id ?l] => destruct (existsb id l) end;
      reflexivity.
Qed.

(** The groups a rule computes are those of its conditions; the scope stays; the
    destination group is deferred exactly when [node_defers] says so. *)
Lemma evaluateGroups_spec {R} (r : abstractDefaultRule R) req c :
  RuleSetDomainOnly c = false →
  let ignore := IgnoreDestinationIPCIDRMatch c in
  (evaluateGroups env r req c).1 = mask (group_conds env ignore (scope_of c) req r) ∧
  match_scope (evaluateGroups env r req c).2 = match_scope c ∧
  DeferredIPCIDRMatchGroups (evaluateGroups env r req c).2 =
    Z.lor (DeferredIPCIDRMatchGroups c) (defer (node_defers ignore (scope_of c) r)).
Proof.
  intros Hd. unfold evaluateGroups. cbv zeta.
  rewrite block_cache_spec. cbv iota.
  rewrite !block_guarded_spec
    by (intros; first [by apply (state_has_absorb 0)|by apply (state_has_absorb 2)]).
  rewrite !block_spec.
  set (c1 := if _ && _ then set_RuleSetDomainMatched c true else c).
  assert (Hc1 : match_scope c1 = match_scope c) by (unfold c1; by destruct (_ && _)).
  assert (Hdef : DeferredIPCIDRMatchGroups c1 = DeferredIPCIDRMatchGroups c)
    by (unfold c1; by destruct (_ && _)).
  clearbody c1. destruct (match_scope_fields _ _ Hc1) as (Hsc & Hsrc & Hign & Hdo).
  unfold destinationIPCIDRMatchesSource, destinationIPCIDRMatchesDestination.
  rewrite !matchAnyItem_scope, Hsc, Hsrc, Hign, Hdo, Hd; cbn [fst snd].
  split; [apply (add_blocks_mask r req (IgnoreDestinationIPCIDRMatch c) (scope_of c))|].
  unfold node_defers; cbn [sc_source scope_of].
  destruct (_ && _ && _ && _); cbn [defer]; rewrite ?match_scope_Deferred; cbn;
    by rewrite Hdef, ?Z.lor_0_r.
Qed.

Lemma evaluateForMerge_spec {R} (r : abstractDefaultRule R) req c :
  RuleSetDomainOnly c = false →
  let ignore := IgnoreDestinationIPCIDRMatch c in
  (evaluateForMerge env r req c).1 =
    (if forallb (item_holds env (scope_of c) req) (items r)
     then Some (mask (group_conds env ignore (scope_of c) req r)) else None) ∧
  match_scope (evaluateForMerge env r req c).2 = match_scope c ∧
  DeferredIPCIDRMatchGroups (evaluateForMerge env r req c).2 =
    Z.lor (DeferredIPCIDRMatchGroups c) (defer (node_defers ignore (scope_of c) r)).
Proof.
  intros Hd. cbv zeta. destruct (evaluateGroups_spec r req c Hd) as (Hg & Hs & Hdef).
  unfold evaluateForMerge. destruct (evaluateGroups env r req c) as [g c1]; cbn in *.
  rewrite forallb_matchItem. destruct (match_scope_fields _ _ Hs) as (-> & _).
  by destruct (forallb _ _); cbn; rewrite ?Hg.
Qed.

End Evaluate.
