(* ===== verification/RuleRefine.v ===== *)
(** * Matching refines its specification

    One induction over the nested rules shows what [rule_Match] computes in both
    of its modes. With the destination addresses known it decides [holds]. Before
    a lookup, when destination CIDR items are put off, it approximates [holds]
    for whatever the response will be: no match is final, a match that deferred
    nothing is final, a match that deferred the destination group is a "maybe". *)
From stdpp Require Import base list strings gmap.
From S2P Require Import Prelude Netip Metadata RuleItems RuleAction RuleMatch RuleSpec RuleGroups.

Section Conditions.
Context `{Extern}.

(** No rule-set below the rule is used for its domains only. *)
Definition item_full (r : abstractDefaultRule HeadlessRule) : bool :=
  match ruleSetItem r with Some item => negb (domainOnly item) | None => true end.

Fixpoint no_domain_only (rule : HeadlessRule) : bool :=
  match rule with
  | DefaultRule r | DefaultHeadlessRule r | DefaultDNSRule r _ _ _ =>
      item_full r &&
      match ruleSetItem r with
      | Some item => forallb (λ s, forallb no_domain_only (rs_rules s)) (setList item)
      | None => true
      end
  | LogicalRule r | LogicalHeadlessRule r | LogicalDNSRule r _ _ _ =>
      forallb no_domain_only (l_rules r)
  end.

(** Items that do not look at the response of a lookup. *)
Definition response_free (source : bool) (item : RuleItem) : bool :=
  match item with
  | DNSResponseRCodeItem _ | DNSResponseRecordItem _ _ _ | IPAcceptAnyItem => false
  | IPCIDRItem _ isSource _ => isSource || source
  | IPIsPrivateItem isSource => isSource
  | _ => true
  end.

(** Can a rule put off destination CIDR items? *)
Fixpoint defers (source : bool) (rule : HeadlessRule) : bool :=
  match rule with
  | DefaultRule r | DefaultHeadlessRule r | DefaultDNSRule r _ _ _ =>
      node_defers true (MkScope source false) r ||
      match ruleSetItem r with
      | Some item =>
          existsb (λ s, existsb (defers (ipCidrMatchSource item)) (rs_rules s)) (setList item)
      | None => false
      end
  | LogicalRule r | LogicalHeadlessRule r | LogicalDNSRule r _ _ _ =>
      existsb (defers false) (l_rules r)
  end.

(** The conditions on one rule: items outside the destination CIDR items do not
    look at the response; domain items and destination CIDR items are not
    alternatives of each other, neither in the rule nor through a rule-set. *)
Definition outer_items (r : abstractDefaultRule HeadlessRule) : list RuleItem :=
  items r ++ sourceAddressItems r ++ sourcePortItems r ++ destinationAddressItems r ++
  destinationPortItems r.

Definition branch_has_domains (s : RuleSet) : bool :=
  match mergeableRuleIn (rs_rules s) with
  | Some b => has_items (destinationAddressItems b)
  | None => false
  end.

Definition sets_unmixed (source : bool) (r : abstractDefaultRule HeadlessRule) : bool :=
  match ruleSetItem r with
  | Some item =>
      (negb (has_items (destinationAddressItems r)) ||
       negb (existsb (λ s, existsb (defers (ipCidrMatchSource item)) (rs_rules s)) (setList item))) &&
      (source || negb (has_items (destinationIPCIDRItems r)) ||
       negb (existsb branch_has_domains (setList item)))
  | None => true
  end.

Definition node_safe (source : bool) (r : abstractDefaultRule HeadlessRule) : bool :=
  forallb (response_free source) (outer_items r) &&
  (if source then forallb (response_free source) (destinationIPCIDRItems r)
   else negb (has_items (destinationIPCIDRItems r) && has_items (destinationAddressItems r))) &&
  sets_unmixed source r.

Fixpoint lookup_safe (source : bool) (rule : HeadlessRule) : bool :=
  match rule with
  | DefaultRule r | DefaultHeadlessRule r =>
      node_safe source r &&
      match ruleSetItem r with
      | Some item =>
          forallb (λ s, forallb (lookup_safe (ipCidrMatchSource item)) (rs_rules s)) (setList item)
      | None => true
      end
  | DefaultDNSRule r matchResponse _ _ =>
      negb matchResponse && node_safe source r &&
      match ruleSetItem r with
      | Some item =>
          forallb (λ s, forallb (lookup_safe (ipCidrMatchSource item)) (rs_rules s)) (setList item)
      | None => true
      end
  | LogicalRule r | LogicalHeadlessRule r | LogicalDNSRule r _ _ _ =>
      forallb (lookup_safe false) (l_rules r)
  end.

Definition refinable (ignore source : bool) (rule : HeadlessRule) : bool :=
  no_domain_only rule && (negb ignore || lookup_safe source rule).

(** The request the specification is asked about: the same one, or before a
    lookup the one with the response to come. *)
Definition same_request (ignore : bool) (req req' : InboundContext) : Prop :=
  if ignore then ∃ response, req' = with_response req response else req' = req.

(** ** Conditions before and after the lookup *)
Variable env : Env.

Lemma response_free_holds sc req response item :
  response_free (sc_source sc) item = true →
  item_holds env sc (with_response req response) item = item_holds env sc req item.
Proof.
  destruct item; try done; cbn; intros Hf.
  - unfold item_holds; cbn. unfold IPCIDRItem_Match; cbn. by rewrite Hf.
  - unfold item_holds; cbn. unfold IPIsPrivateItem_Match; cbn. by rewrite Hf.
Qed.

(** [pre] are the conditions of the groups before, [real] after the lookup. *)
Definition conds_rel (deferred : bool) (pre real : group → list bool) : Prop :=
  (∀ g, g ≠ DestinationAddressGroup → pre g = real g) ∧
  if deferred then pre DestinationAddressGroup = []
  else pre DestinationAddressGroup = real DestinationAddressGroup.

Lemma groups_hold_unfold conds :
  groups_hold conds =
  group_holds (conds SourceAddressGroup) && group_holds (conds SourcePortGroup) &&
  group_holds (conds DestinationAddressGroup) && group_holds (conds DestinationPortGroup).
Proof. unfold groups_hold; cbn. by rewrite andb_true_r, !andb_assoc. Qed.

Lemma conds_rel_pre d pre real :
  conds_rel d pre real →
  groups_hold pre =
  group_holds (real SourceAddressGroup) && group_holds (real SourcePortGroup) &&
  group_holds (pre DestinationAddressGroup) && group_holds (real DestinationPortGroup).
Proof.
  intros [He _]. rewrite groups_hold_unfold.
  by rewrite (He SourceAddressGroup), (He SourcePortGroup), (He DestinationPortGroup).
Qed.

Lemma conds_rel_no d pre real :
  conds_rel d pre real → groups_hold pre = false → groups_hold real = false.
Proof.
  intros Hr. rewrite (conds_rel_pre _ _ _ Hr), groups_hold_unfold. destruct Hr as [_ Hd].
  destruct d; rewrite Hd; [|done].
  destruct (group_holds (real SourceAddressGroup)), (group_holds (real SourcePortGroup)),
    (group_holds (real DestinationPortGroup)); cbn; try done; intros _; apply andb_false_r.
Qed.

Lemma conds_rel_yes pre real : conds_rel false pre real → groups_hold pre = groups_hold real.
Proof.
  intros Hr. rewrite (conds_rel_pre _ _ _ Hr), groups_hold_unfold. by destruct Hr as [_ ->].
Qed.

Lemma conds_rel_merge d e pre real pre' real' :
  conds_rel d pre real → conds_rel e pre' real' →
  (d = true → pre' DestinationAddressGroup = []) →
  (e = true → pre DestinationAddressGroup = []) →
  conds_rel (d || e) (merge_conds pre pre') (merge_conds real real').
Proof.
  intros [H1 H2] [H3 H4] H5 H6. unfold merge_conds. split.
  - intros g Hg. by rewrite H1, H3 by done.
  - destruct d; cbn; [by rewrite H2, H5|]. destruct e; cbn; [by rewrite H4, H6|by rewrite H2, H4].
Qed.

(** Before the lookup the conditions of a safe rule are those after it, or the
    destination group is empty and deferred. *)
Lemma node_conds_rel ignore sc req req' r :
  same_request ignore req req' → negb ignore || node_safe (sc_source sc) r = true →
  conds_rel (node_defers ignore sc r) (group_conds env ignore sc req r)
    (group_conds env false sc req' r).
Proof.
  unfold same_request, node_defers. destruct ignore; cbn [negb orb andb]; [|intros -> _; by split].
  intros [response ->] Hsafe. unfold node_safe in Hsafe.
  apply andb_true_iff in Hsafe as [[Hout Hip]%andb_true_iff _].
  assert (Hmap : ∀ l, forallb (response_free (sc_source sc)) l = true →
            map (item_holds env sc req) l =
            map (item_holds env sc (with_response req response)) l).
  { intros l Hl. rewrite forallb_forall in Hl. apply map_ext_in. intros i Hi.
    symmetry. by apply response_free_holds, Hl. }
  unfold outer_items in Hout. rewrite !forallb_app, !andb_true_iff in Hout.
  destruct Hout as (_ & Hsa & Hsp & Hda & Hdp).
  unfold conds_rel, group_conds, group_items. split.
  - intros [] Hg; try done; rewrite ?map_app, ?Hmap by done; try done. f_equal.
    destruct (sc_source sc); [|done]. by apply Hmap.
  - cbn [orb]. rewrite !map_app, (Hmap _ Hda). destruct (sc_source sc); cbn [negb andb]; [done|].
    destruct (destinationIPCIDRItems r); [done|].
    by destruct (destinationAddressItems r).
Qed.

Lemma node_items_same ignore sc req req' r :
  same_request ignore req req' → negb ignore || node_safe (sc_source sc) r = true →
  forallb (item_holds env sc req) (items r) = forallb (item_holds env sc req') (items r).
Proof.
  unfold same_request. destruct ignore; cbn; [|by intros ->]. intros [response ->] Hsafe.
  unfold node_safe in Hsafe. apply andb_true_iff in Hsafe as [[Hout _]%andb_true_iff _].
  unfold outer_items in Hout. rewrite forallb_app in Hout. apply andb_true_iff in Hout as [Hi _].
  rewrite forallb_forall in Hi. apply forallb_ext_in. intros i Hin. symmetry.
  by apply response_free_holds, Hi.
Qed.

(** ** Outcomes *)

(** [res] is the outcome of a disjunction that was a "maybe" already when [d]:
    it keeps the scope of [c]; without a match nothing holds; with a match the
    deferred groups are none, and [sem] holds, or the destination group, and then
    something can defer it. *)
Definition outcome (ignore d may sem : bool) (res : bool * Z) : Prop :=
  (res.1 = false → d = false ∧ sem = false) ∧
  (res.1 = true → ∃ δ, res.2 = defer δ ∧ (δ = false → sem = true) ∧
     (δ = true → ignore = true ∧ d || may = true)).

Definition verdict (res : bool * RuleCache) : bool * Z :=
  (res.1, DeferredIPCIDRMatchGroups res.2).

Definition approximates (ignore may sem : bool) (c : RuleCache) (res : bool * RuleCache) : Prop :=
  match_scope res.2 = match_scope c ∧ outcome ignore false may sem (verdict res).

(** The cache a match starts with. *)
Definition ready (ignore : bool) (c : RuleCache) : Prop :=
  RuleSetDomainOnly c = false ∧ IgnoreDestinationIPCIDRMatch c = ignore ∧
  DeferredIPCIDRMatchGroups c = 0.

Definition rule_ok (ignore : bool) (rule : HeadlessRule) : Prop :=
  ∀ req req' c,
    same_request ignore req req' → ready ignore c →
    refinable ignore (IPCIDRMatchSource c) rule = true →
    approximates ignore (defers (IPCIDRMatchSource c) rule) (holds env (scope_of c) rule req') c
      (rule_Match env rule req c).

(** The start of a disjunction, and what one more alternative makes of it. *)
Lemma outcome_nil ignore d : (d = true → ignore = true) → outcome ignore d false false (d, defer d).
Proof. intros Hd. split; cbn; [done|]. intros ->. exists true. naive_solver. Qed.

Lemma outcome_skip ignore d may may' sem res :
  outcome ignore d may sem res → outcome ignore d (may' || may) (false || sem) res.
Proof.
  intros [Hno Hyes]. split; [done|]. intros Ht. destruct (Hyes Ht) as (δ & ? & ? & Hδ).
  exists δ. split_and!; [done|done|]. intros Hd. destruct (Hδ Hd) as [? Hm]. split; [done|].
  destruct d, may', may; done.
Qed.

Lemma outcome_defer ignore d may sem sem' res :
  outcome ignore true may sem res → outcome ignore d (true || may) (sem' || sem) res.
Proof.
  intros [Hno Hyes]. split; [naive_solver|]. intros Ht.
  destruct (Hyes Ht) as (δ & ? & Hs & Hδ). exists δ. split_and!; [done| |].
  - intros Hd. rewrite (Hs Hd). apply orb_true_r.
  - intros Hd. destruct (Hδ Hd). split; [done|]. by destruct d.
Qed.

Lemma outcome_mono ignore d d' may may' sem sem' res :
  outcome ignore d may sem res →
  (d = false → sem = false → d' = false ∧ sem' = false) → (sem = true → sem' = true) →
  (d || may = true → d' || may' = true) → outcome ignore d' may' sem' res.
Proof.
  intros [Hno Hyes] H1 H2 H3. split; [intros Hf; destruct (Hno Hf); auto|].
  intros Ht. destruct (Hyes Ht) as (δ & ? & ? & Hδ). exists δ. split_and!; auto.
  intros Hd. destruct (Hδ Hd). auto.
Qed.

Lemma outcome_hit ignore d may : outcome ignore d may true (true, 0).
Proof. split; cbn; [done|]. intros _. by exists false. Qed.

(** What a rule of a list does from a cache that was reset. *)
Lemma rule_ok_reset ignore rule req req' c0 c :
  rule_ok ignore rule → same_request ignore req req' →
  refinable ignore (IPCIDRMatchSource c0) rule = true →
  RuleSetDomainOnly c0 = false → IgnoreDestinationIPCIDRMatch c0 = ignore →
  DeferredIPCIDRMatchGroups c = 0 → match_scope c = match_scope c0 →
  approximates ignore (defers (IPCIDRMatchSource c0) rule) (holds env (scope_of c0) rule req') c0
    (rule_Match env rule req c).
Proof.
  intros Hok Hreq Href Hdo Hig Hz Hs. destruct (match_scope_fields _ _ Hs) as (E1 & E2 & E3 & E4).
  rewrite <- E2 in Href. specialize (Hok req req' c Hreq). rewrite E1, E2 in Hok.
  destruct Hok as [Hs' Ho]; [split_and!; congruence|congruence|]. split; [congruence|done].
Qed.

Section AnyRule.
Variables (ignore : bool) (req req' : InboundContext) (c0 : RuleCache).
Hypotheses (Hreq : same_request ignore req req') (Hc0 : ready ignore c0).

Lemma matchAny_loop_ok rules d c :
  Forall (rule_ok ignore) rules →
  forallb (refinable ignore (IPCIDRMatchSource c0)) rules = true →
  match_scope c = match_scope c0 → (d = true → ignore = true) →
  let res := matchAny_loop (rule_Match env) req (snapshotRuleMatch c0) rules d (defer d) c in
  match_scope res.2 = match_scope c0 ∧
  outcome ignore d (existsb (defers (IPCIDRMatchSource c0)) rules)
    (existsb (λ rule, holds env (scope_of c0) rule req') rules) (verdict res).
Proof using Hreq Hc0.
  destruct Hc0 as (Hdo & Hig & Hz). intros Hok. revert d c.
  induction Hok as [|rule rules Hrule Hok IH]; intros d c; cbn [matchAny_loop forallb existsb].
  - intros _ _ Hd. split; [by destruct d|]. unfold verdict; cbn [fst snd].
    destruct d; cbn; rewrite Hz; by apply outcome_nil.
  - intros [Href Hrefs]%andb_true_iff Hs Hd.
    pose proof (rule_ok_reset ignore rule req req' c0 (ResetRuleMatchCache c) Hrule Hreq Href
      Hdo Hig eq_refl Hs) as [Hs' [Hno Hyes]].
    destruct (rule_Match env rule req (ResetRuleMatchCache c)) as [m c'] eqn:E; cbn in *.
    destruct (match_scope_fields _ _ Hs') as (_ & _ & _ & ->). rewrite Hdo, andb_true_r.
    destruct m.
    + destruct (Hyes eq_refl) as (δ & -> & Hsem & Hmay). rewrite defer_zero.
      destruct δ; cbn [negb].
      * rewrite defer_lor, orb_true_r. destruct (Hmay eq_refl) as [Higt ->].
        destruct (IH true c' Hrefs Hs' (λ _, Higt)) as [? Ho]. split; [done|].
        by apply outcome_defer.
      * rewrite (Hsem eq_refl). split; [done|]. unfold verdict; cbn. rewrite Hz. apply outcome_hit.
    + destruct (Hno eq_refl) as [_ ->]. destruct (IH d c' Hrefs Hs' Hd). split; [done|].
      by apply outcome_skip.
Qed.

Lemma RuleSet_Match_ok s :
  Forall (rule_ok ignore) (rs_rules s) →
  forallb (refinable ignore (IPCIDRMatchSource c0)) (rs_rules s) = true →
  approximates ignore (existsb (defers (IPCIDRMatchSource c0)) (rs_rules s))
    (existsb (λ rule, holds env (scope_of c0) rule req') (rs_rules s)) c0
    (RuleSet_Match (rule_Match env) s req c0).
Proof using Hreq Hc0. intros Hok Href. by apply (matchAny_loop_ok _ false c0). Qed.

(** The branches of a logical rule start from a reset cache each. *)
Lemma branch_ok rule c :
  rule_ok ignore rule → refinable ignore false rule = true →
  RuleSetDomainOnly c = false → IgnoreDestinationIPCIDRMatch c = ignore →
  let res := rule_Match env rule req (ResetRuleCache c) in
  RuleSetDomainOnly res.2 = false ∧ IgnoreDestinationIPCIDRMatch res.2 = ignore ∧
  outcome ignore false (defers false rule) (holds env top_scope rule req') (verdict res).
Proof using Hreq.
  intros Hrule Href Hdo Hig. destruct (Hrule req req' (ResetRuleCache c) Hreq) as [Hs Ho].
  - by split_and!.
  - done.
  - destruct (match_scope_fields _ _ Hs) as (_ & _ & E1 & E2). split_and!; [|by rewrite E1|done].
    by rewrite E2.
Qed.

Lemma or_loop_ok rules d c :
  Forall (rule_ok ignore) rules → forallb (refinable ignore false) rules = true →
  RuleSetDomainOnly c = false → IgnoreDestinationIPCIDRMatch c = ignore →
  (d = true → ignore = true) →
  outcome ignore d (existsb (defers false) rules)
    (existsb (λ rule, holds env top_scope rule req') rules)
    (or_loop (rule_Match env) req rules d (defer d) c).1.
Proof using Hreq.
  intros Hok. revert d c.
  induction Hok as [|rule rules Hrule Hok IH]; intros d c; cbn [or_loop forallb existsb].
  - intros _ _ _ Hd. by apply outcome_nil.
  - intros [Href Hrefs]%andb_true_iff Hdo Hig Hd.
    destruct (branch_ok rule c Hrule Href Hdo Hig) as (Hdo' & Hig' & Hno & Hyes).
    destruct (rule_Match env rule req (ResetRuleCache c)) as [m c'] eqn:E; cbn in *.
    rewrite Hdo', andb_true_r. destruct m.
    + destruct (Hyes eq_refl) as (δ & -> & Hsem & Hmay). rewrite defer_zero.
      destruct δ; cbn [negb].
      * rewrite defer_lor, orb_true_r. destruct (Hmay eq_refl) as [Higt ->].
        apply outcome_defer. apply (IH true c'); done.
      * rewrite (Hsem eq_refl). cbn. apply outcome_hit.
    + destruct (Hno eq_refl) as [_ ->]. apply outcome_skip. by apply IH.
Qed.

(** A conjunction that was a "maybe" already when [d]. *)
Lemma and_loop_ok rules d c :
  Forall (rule_ok ignore) rules → forallb (refinable ignore false) rules = true →
  RuleSetDomainOnly c = false → IgnoreDestinationIPCIDRMatch c = ignore →
  (d = true → ignore = true) →
  let res := (and_loop (rule_Match env) req rules (defer d) c).1 in
  let sem := forallb (λ rule, holds env top_scope rule req') rules in
  (res.1 = false → sem = false) ∧
  (res.1 = true → ∃ δ, res.2 = defer δ ∧ (δ = false → d = false ∧ sem = true) ∧
     (δ = true → ignore = true ∧ d || existsb (defers false) rules = true)).
Proof using Hreq.
  clear Hc0 c0. intros Hok. revert d c.
  induction Hok as [|rule rules Hrule Hok IH]; intros d c; cbn [and_loop forallb existsb].
  - intros _ _ _ Hd. split; [done|]. intros _. exists d. cbn. rewrite orb_false_r. naive_solver.
  - intros [Href Hrefs]%andb_true_iff Hdo Hig Hd.
    destruct (branch_ok rule c Hrule Href Hdo Hig) as (Hdo' & Hig' & Hno & Hyes).
    destruct (rule_Match env rule req (ResetRuleCache c)) as [m c'] eqn:E; cbn in *.
    destruct m; cbn [negb]; [|split; [|done]; intros _; by destruct (Hno eq_refl) as [_ ->]].
    destruct (Hyes eq_refl) as (δ & -> & Hsem & Hmay). rewrite defer_lor.
    destruct (IH (d || δ) c') as [IHno IHyes]; try done; [destruct d, δ; naive_solver|].
    split; [intros Hf; rewrite (IHno Hf); apply andb_false_r|].
    intros Ht. destruct (IHyes Ht) as (ε & ? & He & Hem). exists ε. split_and!; [done| |].
    + intros He'. destruct (He He') as [[-> ->]%orb_false_iff ->]. by rewrite Hsem.
    + intros He'. destruct (Hem He') as [? Hor]. split; [done|].
      destruct d, δ; cbn in *; try done; [|by rewrite Hor, orb_true_r].
      by destruct (Hmay eq_refl) as [_ ->].
Qed.

End AnyRule.

(** ** The rule-sets of a rule *)

Lemma mergeableRuleIn_Some rules b :
  mergeableRuleIn rules = Some b →
  rules = [DefaultHeadlessRule b] ∧ invert b = false ∧ ruleSetItem b = None.
Proof.
  unfold mergeableRuleIn. intros E. repeat case_match; simplify_eq. done.
Qed.

Lemma node_defers_scope sc r ignore a :
  node_defers ignore sc r = ignore && node_defers true (MkScope (sc_source sc) a) r (R := HeadlessRule).
Proof. unfold node_defers; cbn. by rewrite !andb_assoc. Qed.

Section Sets.
Variables (ignore : bool) (req req' : InboundContext) (item : RuleSetItem).
Hypotheses (Hreq : same_request ignore req req') (Hfull : domainOnly item = false).

(** The groups of the outer rule before and after the lookup, and the cache at
    the snapshot. *)
Variables (o : bool) (pre real : group → list bool) (c0 : RuleCache).
Hypotheses (Hrel : conds_rel o pre real) (Ho : o = true → ignore = true).
Hypotheses (Hdo : RuleSetDomainOnly c0 = false) (Hig : IgnoreDestinationIPCIDRMatch c0 = ignore)
  (Hc0 : DeferredIPCIDRMatchGroups c0 = defer o).

Let source := ipCidrMatchSource item.
Let set_defers (s : RuleSet) : bool := existsb (defers source) (rs_rules s).

(** No set mixes with the outer rule. *)
Definition set_compatible (s : RuleSet) : Prop :=
  (ignore = true → set_defers s = true → pre DestinationAddressGroup = []) ∧
  (o = true → branch_has_domains s = false).

Lemma prepareNestedMatch_spec c :
  RuleSetDomainOnly c = false → IgnoreDestinationIPCIDRMatch c = ignore →
  ready ignore (prepareNestedMatch item c) ∧
  scope_of (prepareNestedMatch item c) = item_scope item.
Proof using Hfull. intros Hd Hi. unfold prepareNestedMatch. rewrite Hfull. by split_and!. Qed.

(** The conditions of a mergeable rule join those of the outer rule. *)
Lemma branch_conds_rel s b :
  mergeableRuleIn (rs_rules s) = Some b → set_compatible s →
  forallb (refinable ignore source) (rs_rules s) = true →
  let β := node_defers ignore (item_scope item) b in
  (β = true → ignore = true ∧ set_defers s = true) ∧
  forallb (item_holds env (item_scope item) req) (items b) =
    forallb (item_holds env (item_scope item) req') (items b) ∧
  conds_rel (o || β)
    (merge_conds pre (group_conds env ignore (item_scope item) req b))
    (merge_conds real (group_conds env false (item_scope item) req' b)).
Proof using Hreq Hrel Ho.
  clear Hig Hdo Hc0 c0. intros Hm [Hc1 Hc2] Href. cbv zeta.
  assert (Hdom : branch_has_domains s = has_items (destinationAddressItems b))
    by (unfold branch_has_domains; by rewrite Hm).
  apply mergeableRuleIn_Some in Hm as (Hrules & _ & Hnone). rewrite Hrules in Href.
  cbn [forallb] in Href. rewrite andb_true_r in Href. apply andb_true_iff in Href as [_ Hsafe].
  assert (Hnode : negb ignore || node_safe (sc_source (item_scope item)) b = true)
    by (destruct ignore; cbn in *; [by apply andb_true_iff in Hsafe as [? _]|done]).
  assert (Hβ : node_defers ignore (item_scope item) b = true →
               ignore = true ∧ set_defers s = true).
  { rewrite (node_defers_scope _ _ _ false). intros [-> Hn]%andb_true_iff. split; [done|].
    unfold set_defers. rewrite Hrules. cbn [existsb defers].
    by rewrite (Hn : node_defers true (MkScope source false) b = true). }
  split_and!; [done|by apply (node_items_same ignore)|].
  apply conds_rel_merge; [done|by apply node_conds_rel| |].
  - intros Hot. specialize (Hc2 Hot). rewrite Hdom in Hc2. apply has_items_false in Hc2.
    unfold group_conds, group_items. by rewrite (Ho Hot), Hc2.
  - intros Hb. destruct (Hβ Hb). by apply Hc1.
Qed.

(** What one set does to the loop: no match, a match that is put off, or a match
    that ends the loop with what the outer rule itself has deferred. *)
Definition set_step (s : RuleSet) (sets : list RuleSet) (d : bool) (c : RuleCache)
    (v : option bool) (c2 : RuleCache) : Prop :=
  let loop := outerGroups_loop env (rule_Match env) item req (snapshotRuleMatch c0) (mask pre)
                (groups_hold pre) in
  let sem := set_holds env (holds env) real (item_scope item) req' s in
  match v with
  | None => loop (s :: sets) d (defer d) c = loop sets d (defer d) c2 ∧ sem = false
  | Some true =>
      loop (s :: sets) d (defer d) c = loop sets true (defer true) c2 ∧
      ignore = true ∧ set_defers s = true
  | Some false =>
      loop (s :: sets) d (defer d) c = (true, c2) ∧ match_scope c2 = match_scope c0 ∧
      DeferredIPCIDRMatchGroups c2 = defer o ∧ (o = false → sem = true)
  end.

Definition loop_cache (c : RuleCache) : Prop :=
  RuleSetDomainOnly c = false ∧ IgnoreDestinationIPCIDRMatch c = ignore.

Lemma loop_cache_scope c c' : loop_cache c → match_scope c' = match_scope c → loop_cache c'.
Proof using.
  intros [Hd Hi] Hs. destruct (match_scope_fields _ _ Hs) as (_ & _ & E1 & E2).
  split; congruence.
Qed.

Lemma mergeable_step s b sets d c :
  mergeableRuleIn (rs_rules s) = Some b → set_compatible s →
  forallb (refinable ignore source) (rs_rules s) = true → loop_cache c →
  ∃ v c2, loop_cache c2 ∧ set_step s sets d c v c2.
Proof using Hreq Hfull Hrel Ho Hdo Hig Hc0.
  intros Hm Hcomp Href [Hdc Hic]. destruct (prepareNestedMatch_spec c Hdc Hic) as [Hready Hscope].
  unfold set_step, set_holds. cbn [outerGroups_loop]. rewrite Hm.
  set (c1 := prepareNestedMatch item c) in *. clearbody c1.
  destruct (evaluateForMerge_spec env b req c1) as (E1 & E2 & E3); [apply Hready|].
  destruct Hready as (Hd1 & Hi1 & Hz1). rewrite Hi1, Hscope in E1, E3.
  destruct (evaluateForMerge env b req c1) as [g c2]; cbn [fst snd] in *. subst g.
  rewrite Hz1, Z.lor_0_l in E3.
  assert (Hc2 : loop_cache c2) by (by apply (loop_cache_scope c1)).
  destruct (branch_conds_rel s b Hm Hcomp Href) as (Hβ & Hitems & Hcr).
  rewrite Hitems. clear Hitems.
  destruct (forallb _ (items b)); cbn [andb]; [|exists None, c2; by split_and!].
  rewrite mask_merge, mask_done.
  destruct (groups_hold (merge_conds pre _)) eqn:Hg;
    [|exists None, c2; rewrite (conds_rel_no _ _ _ Hcr Hg); by split_and!].
  assert (Hsat : o || node_defers ignore (item_scope item) b = true →
    existsb id (merge_conds pre (group_conds env ignore (item_scope item) req b)
                  DestinationAddressGroup) = false).
  { intros E. destruct Hcr as [_ Hnil]. rewrite E in Hnil. by rewrite Hnil. }
  unfold mask; cbn [satisfied]. rewrite E3, !defer_and_not, defer_zero.
  destruct (node_defers ignore (item_scope item) b) eqn:Eβ; cbn [andb negb].
  - rewrite Hsat by apply orb_true_r. cbn [negb]. rewrite defer_lor, orb_true_r.
    exists (Some true), c2. destruct (Hβ eq_refl). by split_and!.
  - eexists (Some false), _. split; [|split; [reflexivity|split; [done|]]].
    + by split.
    + cbn [DeferredIPCIDRMatchGroups set_DeferredIPCIDRMatchGroups snapshot_restore snapshotRuleMatch
           s_deferredIPCIDRMatchGroups].
      rewrite Hc0, defer_and_not, orb_false_r in *. destruct o; cbn [andb]; [by rewrite Hsat|].
      split; [done|]. intros _. by rewrite <- (conds_rel_yes _ _ Hcr).
Qed.

Lemma plain_step s sets d c :
  mergeableRuleIn (rs_rules s) = None → Forall (rule_ok ignore) (rs_rules s) →
  forallb (refinable ignore source) (rs_rules s) = true → loop_cache c →
  ∃ v c2, loop_cache c2 ∧ set_step s sets d c v c2.
Proof using Hreq Hfull Hrel Ho Hdo Hig Hc0.
  intros Hm Hok Href [Hdc Hic]. destruct (prepareNestedMatch_spec c Hdc Hic) as [Hready Hscope].
  unfold set_step, set_holds. cbn [outerGroups_loop]. rewrite Hm.
  set (c1 := prepareNestedMatch item c) in *. clearbody c1.
  assert (Hsrc : IPCIDRMatchSource c1 = source) by exact (f_equal sc_source Hscope).
  rewrite <- Hsrc in Href.
  pose proof (RuleSet_Match_ok ignore req req' c1 Hreq Hready s Hok Href) as [Hs [Hno Hyes]].
  rewrite Hscope, Hsrc in *. destruct Hready as (Hd1 & Hi1 & _).
  destruct (groups_hold pre) eqn:Hg; cbn [andb].
  2: { exists None, c1. split; [by split|]. rewrite (conds_rel_no _ _ _ Hrel Hg). by split_and!. }
  destruct (RuleSet_Match (rule_Match env) s req c1) as [m c2].
  unfold verdict in *; cbn [fst snd] in *.
  assert (Hc2 : loop_cache c2) by (by apply (loop_cache_scope c1)).
  destruct m; [|exists None, c2; destruct (Hno eq_refl) as [_ ->]; rewrite andb_false_r; by split_and!].
  destruct (Hyes eq_refl) as (δ & -> & Hsem & Hmay). rewrite defer_zero, defer_lor.
  destruct δ; cbn [negb].
  - rewrite orb_true_r. exists (Some true), c2. destruct (Hmay eq_refl). by split_and!.
  - eexists (Some false), _. split; [|split; [reflexivity|split; [done|split; [done|]]]].
    + by split.
    + intros Hof. rewrite Hof in Hrel. rewrite <- (conds_rel_yes _ _ Hrel), Hg. by apply Hsem.
Qed.

(** The loop over the rule-sets: a "maybe" of the outer rule stays one. *)
Lemma outerGroups_loop_ok sets d c :
  Forall (λ s, Forall (rule_ok ignore) (rs_rules s)) sets →
  forallb (λ s, forallb (refinable ignore source) (rs_rules s)) sets = true →
  Forall set_compatible sets → loop_cache c → (d = true → ignore = true) →
  let res := outerGroups_loop env (rule_Match env) item req (snapshotRuleMatch c0) (mask pre)
               (groups_hold pre) sets d (defer d) c in
  match_scope res.2 = match_scope c0 ∧
  outcome ignore d (o || existsb set_defers sets)
    (existsb (set_holds env (holds env) real (item_scope item) req') sets) (verdict res).
Proof using Hreq Hfull Hrel Ho Hdo Hig Hc0.
  intros Hok. revert d c. induction Hok as [|s sets Hs Hok IH]; intros d c.
  - intros _ _ _ Hd. cbn [outerGroups_loop]. split; [by destruct d|].
    unfold verdict; cbn [fst snd]. destruct d; [|by split].
    cbn -[defer]. rewrite Hc0, defer_lor, orb_true_r. split; [done|]. exists true. naive_solver.
  - cbn [forallb]. intros [Href Hrefs]%andb_true_iff [Hcomp Hcomps]%Forall_cons Hc Hd.
    assert (∃ v c2, loop_cache c2 ∧ set_step s sets d c v c2) as (v & c2 & Hc2 & Hstep).
    { destruct (mergeableRuleIn (rs_rules s)) as [b|] eqn:Hm;
        [by apply (mergeable_step s b)|by apply plain_step]. }
    cbv zeta. cbn [existsb]. destruct v as [[]|]; destruct Hstep as [-> Hstep].
    + destruct Hstep as [Higt Hdef]. destruct (IH true c2 Hrefs Hcomps Hc2 (λ _, Higt)) as [? IHo].
      split; [done|]. rewrite Hdef. apply (outcome_mono _ _ _ _ _ _ _ _ IHo); [done| |].
      * intros ->. apply orb_true_r.
      * by destruct d, o.
    + destruct Hstep as (? & Hz & Hsem). split; [done|]. split; [done|]. intros _. exists o.
      split_and!; [done|by intros ->; rewrite Hsem|]. intros ->. split; [auto|apply orb_true_r].
    + rewrite Hstep. destruct (IH d c2 Hrefs Hcomps Hc2 Hd) as [? IHo]. split; [done|].
      apply (outcome_mono _ _ _ _ _ _ _ _ IHo); try done. by destruct d, o, (set_defers s).
Qed.

End Sets.

(** ** Rules *)

(** The conditions on a default rule, whatever its Go type. *)
Definition default_refinable (ignore source : bool) (r : abstractDefaultRule HeadlessRule)
    : Prop :=
  item_full r = true ∧ negb ignore || node_safe source r = true ∧
  ∀ item, ruleSetItem r = Some item →
    forallb (λ s, forallb (refinable ignore (ipCidrMatchSource item)) (rs_rules s)) (setList item)
      = true.

Lemma refinable_rules ignore source rules :
  forallb no_domain_only rules = true →
  negb ignore || forallb (lookup_safe source) rules = true →
  forallb (refinable ignore source) rules = true.
Proof.
  intros H1 H2. apply forallb_forall. intros x Hx. unfold refinable.
  rewrite forallb_forall in H1. rewrite (H1 x Hx). destruct ignore; [|done].
  cbn in *. rewrite forallb_forall in H2. auto.
Qed.

Lemma default_refinable_intro ignore source r :
  item_full r &&
    match ruleSetItem r with
    | Some item => forallb (λ s, forallb no_domain_only (rs_rules s)) (setList item)
    | None => true
    end = true →
  negb ignore || (node_safe source r &&
    match ruleSetItem r with
    | Some item =>
        forallb (λ s, forallb (lookup_safe (ipCidrMatchSource item)) (rs_rules s)) (setList item)
    | None => true
    end) = true →
  default_refinable ignore source r.
Proof.
  intros [H1 H2]%andb_true_iff H3. split_and!; [done| |].
  - destruct ignore; [|done]. by apply andb_true_iff in H3 as [? _].
  - intros item E. rewrite E in *. apply forallb_forall. intros s Hs.
    rewrite forallb_forall in H2. apply refinable_rules; [auto|].
    destruct ignore; [|done]. apply andb_true_iff in H3 as [_ H3].
    rewrite forallb_forall in H3. exact (H3 s Hs).
Qed.

Definition default_defers (source : bool) (r : abstractDefaultRule HeadlessRule) : bool :=
  node_defers true (MkScope source false) r ||
  match ruleSetItem r with
  | Some item =>
      existsb (λ s, existsb (defers (ipCidrMatchSource item)) (rs_rules s)) (setList item)
  | None => false
  end.

Lemma ruleSet_rules_Forall (P : HeadlessRule → Prop) r item :
  ruleSetItem r = Some item → Forall P (ruleSet_rules r) →
  Forall (λ s, Forall P (rs_rules s)) (setList item).
Proof.
  intros E. unfold ruleSet_rules. rewrite E.
  induction (setList item) as [|s sets IH]; cbn; [by constructor|].
  intros [? ?]%Forall_app. constructor; auto.
Qed.

Section Default.
Variables (ignore : bool) (r : abstractDefaultRule HeadlessRule).
Variables (req req' : InboundContext) (c : RuleCache).
Hypotheses (Hsub : Forall (rule_ok ignore) (ruleSet_rules r)).
Hypotheses (Hreq : same_request ignore req req') (Hc : ready ignore c).
Hypothesis (Href : default_refinable ignore (IPCIDRMatchSource c) r).

Let pre := group_conds env ignore (scope_of c) req r.
Let o := node_defers ignore (scope_of c) r.

Lemma sets_compatible item :
  ruleSetItem r = Some item → Forall (set_compatible ignore item o pre) (setList item).
Proof using All.
  intros E. destruct Href as (_ & Hnode & _). apply Forall_forall. intros s Hs%list_elem_of_In.
  assert (Hun : ignore = true → sets_unmixed (IPCIDRMatchSource c) r = true).
  { intros ->. cbn in Hnode. by apply andb_true_iff in Hnode as [_ ?]. }
  unfold sets_unmixed in Hun. rewrite E in Hun. split.
  - intros Hi Hd. specialize (Hun Hi). apply andb_true_iff in Hun as [Hun _].
    assert (existsb (λ s, existsb (defers (ipCidrMatchSource item)) (rs_rules s)) (setList item)
            = true) as Hex by (apply existsb_exists; eauto).
    rewrite Hex, orb_false_r in Hun. apply negb_true_iff, has_items_false in Hun.
    unfold pre, group_conds, group_items. by rewrite Hi, Hun.
  - unfold o, node_defers. rewrite !andb_true_iff. intros [[[Hi Hsrc] Hip] _].
    specialize (Hun Hi). apply andb_true_iff in Hun as [_ Hun]. cbn in Hsrc.
    apply negb_true_iff in Hsrc. rewrite Hsrc, Hip in Hun. cbn in Hun.
    apply negb_true_iff in Hun. apply not_true_iff_false. intros Hb.
    assert (existsb branch_has_domains (setList item) = true)
      by (apply existsb_exists; eauto). congruence.
Qed.

(** What was deferred is not among the groups the rule itself satisfied. *)
Lemma deferred_unsatisfied :
  ignore = true → o || match ruleSetItem r with
    | Some item =>
        existsb (λ s, existsb (defers (ipCidrMatchSource item)) (rs_rules s)) (setList item)
    | None => false
    end = true →
  pre DestinationAddressGroup = [].
Proof using All.
  intros Hi [Ho|Hs]%orb_true_iff.
  - unfold o, node_defers in Ho. rewrite !andb_true_iff in Ho. destruct Ho as [_ Ha].
    apply negb_true_iff, has_items_false in Ha. unfold pre, group_conds, group_items.
    by rewrite Hi, Ha.
  - destruct (ruleSetItem r) as [item|] eqn:E; [|done].
    apply existsb_exists in Hs as (s & Hin & Hd). pose proof (sets_compatible item E) as Hall.
    rewrite Forall_forall in Hall. apply list_elem_of_In in Hin. by apply (Hall s Hin).
Qed.

Let sets_defer : bool :=
  match ruleSetItem r with
  | Some item =>
      existsb (λ s, existsb (defers (ipCidrMatchSource item)) (rs_rules s)) (setList item)
  | None => false
  end.

(** The part of [matchInner] after the plain items. *)
Lemma matchGroups_ok c1 :
  match_scope c1 = match_scope c → DeferredIPCIDRMatchGroups c1 = defer o →
  let res := match ruleSetItem r with
             | Some item => matchWithOuterGroups env (rule_Match env) item req c1 (mask pre)
             | None => (groups_done (mask pre), c1)
             end in
  let real := group_conds env false (scope_of c) req' r in
  match_scope res.2 = match_scope c ∧
  outcome ignore false (o || sets_defer)
    match ruleSetItem r with
    | Some item => existsb (set_holds env (holds env) real (item_scope item) req') (setList item)
    | None => groups_hold real
    end (verdict res).
Proof using All.
  intros Hs Hd. cbv zeta. destruct Href as (Hfull & Hnode & Hsets).
  pose proof (node_conds_rel ignore (scope_of c) req req' r Hreq Hnode) as Hrel.
  fold pre in Hrel. fold o in Hrel. pose proof sets_compatible as Hcomp.
  destruct (match_scope_fields _ _ Hs) as (_ & _ & Hi1 & Hdo1). destruct Hc as (Hdo & Hig & _).
  assert (Ho : o = true → ignore = true)
    by (unfold o, node_defers; rewrite !andb_true_iff; tauto).
  rewrite mask_done. unfold item_full in Hfull.
  unfold sets_defer. destruct (ruleSetItem r) as [item|] eqn:E.
  - apply negb_true_iff in Hfull. unfold matchWithOuterGroups. rewrite Hfull, mask_done, <- Hs.
    apply (outerGroups_loop_ok ignore req req' item Hreq Hfull o pre _ c1); try done;
      [congruence|congruence|by apply (ruleSet_rules_Forall _ r)|auto|auto|split; congruence].
  - split; [done|]. unfold verdict; cbn [fst snd]. rewrite Hd, orb_false_r. split; cbn [fst snd].
    + intros Hf. split; [done|]. by apply (conds_rel_no _ _ _ Hrel).
    + intros Ht. exists o. split_and!; [done| |auto].
      intros Hof. rewrite Hof in Hrel. by rewrite <- (conds_rel_yes _ _ Hrel).
Qed.

Lemma default_defers_split : ignore = true → o || sets_defer = default_defers (IPCIDRMatchSource c) r.
Proof using All.
  intros Hi. unfold o, default_defers. by rewrite (node_defers_scope _ _ _ false), Hi.
Qed.

Lemma matchInner_ok :
  approximates ignore (default_defers (IPCIDRMatchSource c) r)
    (body_holds env (holds env) (scope_of c) r req') c (matchInner env (rule_Match env) r req c).
Proof using All.
  pose proof matchGroups_ok as Hgroups. pose proof deferred_unsatisfied as Hunsat.
  fold sets_defer in Hunsat.
  pose proof (node_items_same ignore (scope_of c) req req' r Hreq (proj1 (proj2 Href))) as Hitems.
  pose proof default_defers_split as Hsplit.
  destruct Hc as (Hdo & Hig & Hz). destruct (evaluateGroups_spec env r req c Hdo) as (Hg & Hs & Hd).
  rewrite Hig in Hg, Hd. rewrite Hz, Z.lor_0_l in Hd. fold pre in Hg. fold o in Hd.
  unfold matchInner, body_holds.
  destruct (evaluateGroups env r req c) as [g c1]; cbn [fst snd] in *. subst g.
  rewrite forallb_matchItem. destruct (match_scope_fields _ _ Hs) as (-> & _).
  rewrite Hitems. clear Hitems. destruct (forallb _ (items r)); cbn [negb andb]; [|by split_and!].
  destruct (Hgroups c1 Hs Hd) as [Hs2 [Hno Hyes]]. clear Hgroups.
  destruct (match ruleSetItem r with
            | Some item => matchWithOuterGroups env (rule_Match env) item req c1 (mask pre)
            | None => (groups_done (mask pre), c1)
            end) as [m c2].
  unfold verdict in *; cbn [fst snd] in *. split; [by destruct m|].
  split; [intros Hf; by apply Hno|]. unfold verdict; cbn [fst snd]. intros Ht.
  destruct (Hyes Ht) as (δ & Hδ & Hsem & Hmay). rewrite Ht.
  unfold mask; cbn [DeferredIPCIDRMatchGroups set_DeferredIPCIDRMatchGroups satisfied].
  rewrite Hδ, defer_and_not.
  exists (δ && negb (existsb id (pre DestinationAddressGroup))). split; [done|].
  destruct δ; cbn [andb]; [|by split].
  destruct (Hmay eq_refl) as [Hi Hor]. rewrite (Hunsat Hi Hor), <- (Hsplit Hi). by split.
Qed.

Lemma default_Match_ok :
  approximates ignore (default_defers (IPCIDRMatchSource c) r)
    (default_holds env (holds env) (scope_of c) r req') c
    (default_Match env (rule_Match env) r req c).
Proof using All.
  pose proof matchInner_ok as [Hs [Hno Hyes]]. destruct Hc as (_ & _ & Hz).
  unfold default_Match, default_holds.
  destruct (has_items (allItems r)); cbn [negb orb].
  2: { split; [done|]; split; [done|]. intros _. exists false. unfold verdict; cbn. by rewrite Hz. }
  destruct (matchInner env (rule_Match env) r req c) as [m c1].
  unfold verdict in *; cbn [fst snd] in *.
  destruct (invert r); cbn [xorb]; destruct m; cbn [negb orb].
  - destruct (Hyes eq_refl) as (δ & Hδ & Hsem & Hmay). cbn. rewrite Hδ, defer_zero.
    split; [done|]. destruct δ; split; cbn; try done.
    + intros _. exists true. by split_and!.
    + intros _. by rewrite Hsem.
  - destruct (Hno eq_refl) as [_ ->]. split; [done|]. split; [done|]. intros _. by exists false.
  - split; [done|]. by split.
  - destruct (Hno eq_refl) as [_ ->]. by split_and!.
Qed.

End Default.

Lemma logical_Match_ok ignore r req req' c :
  Forall (rule_ok ignore) (l_rules r) → same_request ignore req req' → ready ignore c →
  forallb (refinable ignore false) (l_rules r) = true →
  approximates ignore (existsb (defers false) (l_rules r)) (logical_holds (holds env) r req') c
    (logical_Match (rule_Match env) r req c).
Proof.
  intros Hok Hreq Hc Href. destruct Hc as (Hdo & Hig & Hz).
  unfold logical_Match, logical_holds.
  assert (Hloop : ∃ m dg c1 sem,
    match l_mode r with
    | LogicalTypeAnd => and_loop (rule_Match env) req (l_rules r) 0 c
    | LogicalTypeOr => or_loop (rule_Match env) req (l_rules r) false 0 c
    end = (m, dg, c1) ∧
    match l_mode r with
    | LogicalTypeAnd => forallb (λ rule, holds env top_scope rule req') (l_rules r)
    | LogicalTypeOr => existsb (λ rule, holds env top_scope rule req') (l_rules r)
    end = sem ∧ outcome ignore false (existsb (defers false) (l_rules r)) sem (m, dg)).
  { destruct (l_mode r).
    - destruct (and_loop_ok ignore req req' Hreq (l_rules r) false c Hok Href Hdo Hig) as [Hn Hy];
        [done|]. change (defer false) with 0 in Hn, Hy.
      destruct (and_loop _ _ _ _ _) as [[m dg] c1]. eexists _, _, _, _. split_and!; [done|done|].
      split; [naive_solver|]. intros Ht. destruct (Hy Ht) as (δ & ? & ? & ?). exists δ. naive_solver.
    - pose proof (or_loop_ok ignore req req' Hreq (l_rules r) false c Hok Href Hdo Hig) as Ho.
      change (defer false) with 0 in Ho. specialize (Ho ltac:(done)).
      destruct (or_loop _ _ _ _ _ _) as [[m dg] c1]. eexists _, _, _, _. by split_and!. }
  destruct Hloop as (m & dg & c1 & sem & -> & -> & [Hno Hyes]). cbn [fst snd] in *.
  split; [by destruct m, (l_invert r)|].
  destruct m; [destruct (Hyes eq_refl) as (δ & -> & Hsem & Hmay)|destruct (Hno eq_refl) as [_ ->]];
    destruct (l_invert r); unfold verdict; cbn -[defer]; rewrite ?Hz, ?Z.lor_0_l, ?defer_zero.
  - split; cbn -[defer]; intros Hδ; destruct δ; try done; [by rewrite Hsem|by exists true].
  - split; [done|]. intros _. by exists δ.
  - split; [done|]. intros _. by exists false.
  - by split.
Qed.

(** Every rule does what the conditions of this file promise. *)
Lemma rule_ok_all ignore rule : rule_ok ignore rule.
Proof.
  induction rule as [rule IH] using HeadlessRule_nested_ind.
  intros req req' c Hreq Hc Href. unfold refinable in Href.
  apply andb_true_iff in Href as [Hfull Hsafe].
  destruct rule as [r|r|r matchResponse tag race|r|r|r tags anonymous race]; cbn [subrules] in IH.
  1, 2: by apply default_Match_ok, default_refinable_intro.
  2-4: by apply logical_Match_ok, refinable_rules.
  cbn [rule_Match holds defers no_domain_only lookup_safe] in *.
  unfold dns_matchForMatch, dns_holds. destruct matchResponse; cycle 1.
  { by apply default_Match_ok, default_refinable_intro. }
  destruct ignore; [by cbn in Hsafe|]. cbn in Hreq. subst req'.
  destruct (if nonempty tag then _ else _) as [m|].
  - assert (Hr : default_refinable false (IPCIDRMatchSource c) r)
      by (by apply default_refinable_intro).
    destruct (default_Match_ok false r (with_response req (Some m)) _ c IH eq_refl Hc Hr)
      as [_ [Hno Hyes]].
    split; [done|]. split; [exact Hno|]. intros Ht. destruct (Hyes Ht) as (δ & _ & Hsem & Hmay).
    exists false. split_and!; [apply Hc| |done]. intros _. apply Hsem. destruct δ; [|done].
    by destruct (Hmay eq_refl).
  - split; [done|]. split; cbn; [done|]. intros Ht. exists false. by split_and!; [apply Hc| |].
Qed.

End Conditions.
