(* ===== verification/Concrete.v ===== *)
(** * A concrete instance of the code the sources only call

    The theorems hold for every [Extern]. This instance is a small executable
    implementation of it, so that examples and witnesses can be evaluated: address
    sets as lists of ranges, a domain matcher as its two lists of names with an
    encoding that can be read back, no regular expressions but literal ones. *)
From Stdlib Require Import Strings.Byte Strings.String.
From stdpp Require Import base list strings gmap.
From S2P Require Import Prelude Netip Metadata.

(** ** Address sets *)

Definition same_family (a b : Addr) : bool :=
  match a, b with
  | Addr4 _, Addr4 _ | Addr6 _ _, Addr6 _ _ => true
  | _, _ => false
  end.

Definition range_contains (r : myIPRange) (a : Addr) : bool :=
  same_family (ipr_from r) a && (Addr_value (ipr_from r) <=? Addr_value a) &&
  (Addr_value a <=? Addr_value (ipr_to r)).

Definition c_IPSet_Contains (s : IPSet) (a : Addr) : bool := existsb (λ r, range_contains r a) s.

Definition with_value (a : Addr) (v : Z) : Addr :=
  match a with AddrZero => AddrZero | Addr4 _ => Addr4 v | Addr6 _ z => Addr6 v z end.

Definition prefix_range (p : Prefix) : myIPRange :=
  let a := p_ip (Prefix_Masked p) in
  MkIPRange a (with_value a (Addr_value a + 2 ^ (Addr_BitLen a - p_bits p) - 1)).

(** An address of its family's width, with no zone. *)
Definition addr_inside (a : Addr) : bool :=
  match a with
  | AddrZero => false
  | Addr4 v => (0 <=? v) && (v <? 2 ^ 32)
  | Addr6 v zone => (0 <=? v) && (v <? 2 ^ 128) && bool_decide (zone = ""%string)
  end.

Definition c_IPSetBuilder_IPSet (l : list IPSetInput) : result IPSet :=
  let s := map (λ i, match i with AddPrefix p => prefix_range p | AddAddr a => MkIPRange a a end) l in
  if forallb (λ r, addr_inside (ipr_from r) && addr_inside (ipr_to r)) s &&
     (Z.of_nat (length s) <? 2 ^ 64)
  then Ok s else Err (ENamed "IPSet").

(** ** Strings as bytes that can be read back: [x01 c] for a character, [x00] at
    the end of a string, [x02] before a string, [x03] at the end of a list. *)

Fixpoint put_string (s : string) : list byte :=
  match s with
  | EmptyString => [x00]
  | String c s => x01 :: Ascii.byte_of_ascii c :: put_string s
  end.

Fixpoint put_strings (l : list string) : list byte :=
  match l with
  | [] => [x03]
  | s :: l => x02 :: put_string s ++ put_strings l
  end.

(** One automaton reads a list: [cur] is the string being read, reversed. *)
Fixpoint get_strings (acc : list string) (cur : option (list Ascii.ascii)) (b : list byte)
    : result (list string * list byte) :=
  match cur, b with
  | None, x03 :: b => Ok (reverse acc, b)
  | None, x02 :: b => get_strings acc (Some []) b
  | Some cs, x00 :: b => get_strings (String.string_of_list_ascii (reverse cs) :: acc) None b
  | Some cs, x01 :: c :: b => get_strings acc (Some (Ascii.ascii_of_byte c :: cs)) b
  | _, _ => Err (ENamed "unexpected EOF")
  end.

Lemma append_nil_r s : (s +:+ "")%string = s.
Proof. induction s as [|c s IH]; [done|]. exact (f_equal (String c) IH). Qed.

Lemma string_of_list_snoc l c s :
  (String.string_of_list_ascii (l ++ [c]) +:+ s)%string =
  (String.string_of_list_ascii l +:+ String c s)%string.
Proof. induction l as [|x l IH]; [done|]. exact (f_equal (String x) IH). Qed.

Lemma get_put_string s acc cs rest :
  get_strings acc (Some cs) (put_string s ++ rest) =
  get_strings ((String.string_of_list_ascii (reverse cs) +:+ s)%string :: acc) None rest.
Proof.
  revert cs. induction s as [|c s IH]; intros cs; cbn; [by rewrite append_nil_r|].
  by rewrite IH, Ascii.ascii_of_byte_of_ascii, reverse_cons, string_of_list_snoc.
Qed.

Lemma get_put_strings l acc rest :
  get_strings acc None (put_strings l ++ rest) = Ok (reverse acc ++ l, rest).
Proof.
  revert acc. induction l as [|s l IH]; intros acc; [by rewrite app_nil_r|].
  cbn [put_strings get_strings app]. rewrite <- app_assoc, get_put_string. cbn [reverse].
  rewrite IH, reverse_cons, <- app_assoc. done.
Qed.

Definition c_suffix (suffix s : string) : bool :=
  String.prefix (String.rev suffix) (String.rev s).

#[export] Instance concrete : Extern := {|
  IPSet_Contains := c_IPSet_Contains;
  IPSetBuilder_IPSet := c_IPSetBuilder_IPSet;
  IPSet_Prefixes := λ s, map (λ r, PrefixFrom (ipr_from r) (Addr_BitLen (ipr_from r))) s;
  Matcher := list string * list string;
  Matcher_Match m s := mem s m.1 || existsb (λ x, c_suffix x s) m.2;
  Matcher_Dump m := m;
  domain_NewMatcher domains suffixes _ := (domains, suffixes);
  Matcher_Write m := put_strings m.1 ++ put_strings m.2;
  domain_ReadMatcher b :=
    '(d, b) ← get_strings [] None b; '(s, b) ← get_strings [] None b; Ok ((d, s), b);
  AdGuardMatcher := list string;
  AdGuardMatcher_Match m s := mem s m;
  AdGuardMatcher_Dump m := m;
  domain_NewAdGuardMatcher lines := lines;
  AdGuardMatcher_Write := put_strings;
  domain_ReadAdGuardMatcher := get_strings [] None;
  Socksaddr_IsIP a := Addr_IsValid (sa_Addr a);
  Socksaddr_IsIPv6 a := Addr_Is6 (sa_Addr a);
  AddrFromIP b :=
    if (length b =? 4)%nat then Addr4 (be_combine b)
    else if (length b =? 16)%nat then Addr6 (be_combine b) "" else AddrZero;
  ParseSocksaddrHostPort host port :=
    match netip_ParseAddr host with
    | Some a => MkSocksaddr a port ""
    | None => MkSocksaddr AddrZero port host
    end;
  IsPublicAddr a := negb (Addr_value a =? 0);
  dns_IsDuplicate _ _ := false;
  dns_CanonicalName s := s;
  dns_TypeToString _ := None;
  dns_RcodeToString _ := "";
  dns_RRString _ := "";
  Regexp := string;
  regexp_Compile s := Ok s;
  Regexp_MatchString r s := strings_Contains s r;
  unicode_ToLower s := s;
  unicode_EqualFold s t := bool_decide (s = t);
|}.

Lemma concrete_matcher_roundtrip (m : Matcher) rest :
  domain_ReadMatcher (Matcher_Write m ++ rest) = Ok (m, rest).
Proof.
  destruct m as [d s]. cbn [domain_ReadMatcher Matcher_Write concrete fst snd].
  rewrite <- app_assoc, get_put_strings. cbn. by rewrite get_put_strings.
Qed.

Lemma concrete_adguard_roundtrip (m : AdGuardMatcher) rest :
  domain_ReadAdGuardMatcher (AdGuardMatcher_Write m ++ rest) = Ok (m, rest).
Proof. apply get_put_strings. Qed.

(** ** A machine and a request *)

Definition c_env : Env := MkEnv None [] [] None (MkWIFIState "" "") None false.

Definition c_addr : Addr := Addr4 16909060.

(** A request for the name [domain] from 10.0.0.1. *)
Definition c_request (domain : string) : InboundContext :=
  MkInboundContext "in" 4 "tcp" (MkSocksaddr (Addr4 167772161) 40000 "")
    (MkSocksaddr AddrZero 443 domain) "" "" "" domain "" [] None ∅ false None None "" 1
    PrefixZero false false RuleCacheZero.

Definition c_response (addresses : list Z) : Msg :=
  MkMsg (MkMsgHdr 1 true false true true 0) [MkQuestion "example.org." 1 1]
    (map (λ a, MkRR "example.org." 1 60 (RData_A (be_split 4 a))) addresses) [] [].
