(* ===== verification/RuleTheorems.v ===== *)
(** * The theorems on rule matching

    Matching decides the specification when the addresses are known, approximates
    it before a lookup, keeps the scope of its caller, and does not depend on the
    order of alternatives. Two examples at the end show where the conditions of
    the second are needed. *)
From stdpp Require Import base list strings gmap.
From S2P Require Import Prelude Netip Metadata RuleItems RuleAction RuleMatch RuleSpec RuleGroups RuleRefine Concrete.
From Stdlib Require Import Sorting.Permutation.

(** The cache right after [ResetRuleCache]. *)
Definition fresh_cache (c : RuleCache) : Prop := ready false c ∧ scope_of c = top_scope.

Section Theorems.
Context `{Extern}.
Variable env : Env.

Definition is_dns_rule (rule : HeadlessRule) : bool :=
  match rule with DefaultDNSRule _ _ _ _ | LogicalDNSRule _ _ _ _ => true | _ => false end.

(** With the addresses known, [Match] computes [holds] and nothing is deferred. *)
Lemma Match_exact rule req c :
  no_domain_only rule = true → ready false c →
  (rule_Match env rule req c).1 = holds env (scope_of c) rule req ∧
  match_scope (rule_Match env rule req c).2 = match_scope c ∧
  ((rule_Match env rule req c).1 = true →
   DeferredIPCIDRMatchGroups (rule_Match env rule req c).2 = 0).
Proof.
  intros Hfull Hc.
  assert (Href : refinable false (IPCIDRMatchSource c) rule = true)
    by (unfold refinable; by rewrite Hfull).
  pose proof (rule_ok_all env false rule req req c eq_refl Hc Href) as [Hs [Hno Hyes]].
  destruct (rule_Match env rule req c) as [m c']; cbn in *. split_and!; [|done|].
  - destruct m; [|symmetry; by apply Hno]. destruct (Hyes eq_refl) as (δ & _ & Hsem & Hmay).
    symmetry. apply Hsem. destruct δ; [|done]. by destruct (Hmay eq_refl).
  - intros Ht. destruct (Hyes Ht) as (δ & -> & _ & Hmay). destruct δ; [|done].
    by destruct (Hmay eq_refl).
Qed.

(** The methods of DNS rules through the common [Match]. *)
Lemma MatchAddressLimit_Match rule md response :
  is_dns_rule rule = true → lookup_safe false rule = true →
  MatchAddressLimit env rule md response =
  (rule_Match env rule (with_response md response) (ResetRuleCache (md_cache md))).1.
Proof. by destruct rule as [| |r [] ? ?| | |]. Qed.

Lemma LegacyPreMatch_Match rule md :
  is_dns_rule rule = true → lookup_safe false rule = true →
  LegacyPreMatch env rule md =
  let res := rule_Match env rule md (set_IgnoreDestinationIPCIDRMatch (md_cache md) true) in
  (res.1, set_cache md (set_IgnoreDestinationIPCIDRMatch res.2 false)).
Proof.
  destruct rule as [| |r [] ? ?| | |]; try done; cbn; intros _ Hs.
  - by destruct (default_Match _ _ _ _ _).
  - by destruct (logical_Match _ _ _ _).
Qed.

(** Before the lookup the rule is matched against every response to come. *)
Lemma prematch_approximates rule md response :
  no_domain_only rule = true → lookup_safe false rule = true → fresh_cache (md_cache md) →
  outcome true false (defers false rule) (holds env top_scope rule (with_response md response))
    (verdict (rule_Match env rule md (set_IgnoreDestinationIPCIDRMatch (md_cache md) true))).
Proof.
  intros Hfull Hsafe [(Hd & Hi & Hz) Hs].
  assert (Hsrc : IPCIDRMatchSource (md_cache md) = false) by exact (f_equal sc_source Hs).
  rewrite <- Hs. pose proof (rule_ok_all env true rule md (with_response md response)
    (set_IgnoreDestinationIPCIDRMatch (md_cache md) true)) as Hok.
  cbn [IPCIDRMatchSource set_IgnoreDestinationIPCIDRMatch] in Hok. rewrite Hsrc in Hok.
  apply Hok; [by eexists|by split_and!|]. unfold refinable. by rewrite Hfull, Hsafe.
Qed.

Lemma MatchAddressLimit_holds rule md response :
  is_dns_rule rule = true → no_domain_only rule = true → lookup_safe false rule = true →
  fresh_cache (md_cache md) →
  MatchAddressLimit env rule md response = holds env top_scope rule (with_response md response).
Proof.
  intros Hdns Hfull Hsafe [(Hd & Hi & Hz) Hs]. rewrite MatchAddressLimit_Match by done.
  by apply (Match_exact rule (with_response md response) (ResetRuleCache (md_cache md))).
Qed.

(** ** The order of alternatives *)

Lemma existsb_perm {A} (f : A → bool) l l' : Permutation l l' → existsb f l = existsb f l'.
Proof. induction 1; cbn; [done|congruence|by rewrite !orb_assoc, (orb_comm (f y))|congruence]. Qed.

Lemma forallb_perm {A} (f : A → bool) l l' : Permutation l l' → forallb f l = forallb f l'.
Proof. induction 1; cbn; [done|congruence|by rewrite !andb_assoc, (andb_comm (f y))|congruence]. Qed.

Lemma logical_holds_perm r rules req :
  Permutation (l_rules r) rules →
  logical_holds (holds env) r req =
  logical_holds (holds env) (MkLogical rules (l_mode r) (l_invert r) (l_action r)) req.
Proof.
  intros Hp. unfold logical_holds; cbn.
  by destruct (l_mode r); rewrite ?(forallb_perm _ _ _ Hp), ?(existsb_perm _ _ _ Hp).
Qed.

(** ** The scope of the caller *)

Lemma evaluateGroups_scope {R} (r : abstractDefaultRule R) req c :
  match_scope (evaluateGroups env r req c).2 = match_scope c.
Proof.
  unfold evaluateGroups. cbv zeta. rewrite block_cache_spec. cbv iota. cbn [snd].
  destruct (_ && _ && _ && _), (_ && _); reflexivity.
Qed.

Lemma matchAny_loop_scope req s c0 rules : ∀ b z c,
  s = snapshotRuleMatch c0 →
  match_scope (matchAny_loop (rule_Match env) req s rules b z c).2 = match_scope c0.
Proof.
  induction rules as [|rule rules IH]; intros b z c ->; cbn; [by destruct b|].
  destruct (rule_Match _ _ _ _) as [[] c']; [destruct (_ && _)|]; [done|by apply IH|by apply IH].
Qed.

Lemma outerGroups_loop_scope item req s c0 g o sets : ∀ b z c,
  s = snapshotRuleMatch c0 →
  match_scope (outerGroups_loop env (rule_Match env) item req s g o sets b z c).2 = match_scope c0.
Proof.
  induction sets as [|st sets IH]; intros b z c ->; cbn [outerGroups_loop]; [by destruct b|].
  repeat (first [done|by apply IH|case_match]).
Qed.

Lemma default_Match_scope r req c :
  match_scope (default_Match env (rule_Match env) r req c).2 = match_scope c.
Proof.
  assert (Hin : match_scope (matchInner env (rule_Match env) r req c).2 = match_scope c).
  { unfold matchInner. pose proof (evaluateGroups_scope r req c) as Hg.
    destruct (evaluateGroups env r req c) as [g c1]; cbn in Hg. destruct (negb _); [done|].
    destruct (ruleSetItem r) as [item|]; [|by destruct (groups_done g)].
    unfold matchWithOuterGroups, RuleSetItem_Match.
    destruct (domainOnly item), (groups_done g); try done.
    - by destruct (ruleSetItem_loop _ _ _ _ _) as [[] c2].
    - pose proof (outerGroups_loop_scope item req _ c1 g true (setList item) false 0 c1 eq_refl).
      destruct (outerGroups_loop _ _ _ _ _ _ _ _ _ _ _) as [[] c2]; cbn [snd] in *;
        rewrite ?match_scope_Deferred; congruence.
    - pose proof (outerGroups_loop_scope item req _ c1 g false (setList item) false 0 c1 eq_refl).
      destruct (outerGroups_loop _ _ _ _ _ _ _ _ _ _ _) as [[] c2]; cbn [snd] in *;
        rewrite ?match_scope_Deferred; congruence. }
  unfold default_Match. destruct (negb _); [done|].
  by destruct (matchInner _ _ _ _ _) as [[] c1], (invert r).
Qed.

Lemma rule_Match_scope rule req c :
  match_scope (rule_Match env rule req c).2 = match_scope c.
Proof.
  destruct rule as [r|r|r mr tag race|r|r|r ? ? ?]; cbn [rule_Match];
    try apply default_Match_scope.
  - unfold dns_matchForMatch. destruct mr; [|apply default_Match_scope].
    by destruct (if nonempty tag then _ else _).
  - unfold logical_Match. by repeat case_match.
  - unfold logical_Match. by repeat case_match.
  - unfold logical_Match. by repeat case_match.
Qed.

End Theorems.

(** ** Theorems *)

(** C1: with the destination addresses known, and no rule-set used for its domains
    only, the stateful [Match] of every rule type (default, logical, DNS, headless, with
    nested rule-sets, merging and inversion) returns what the declarative semantics
    [holds] says, restores the scope of its caller and leaves nothing deferred. *)
Theorem Match_refines_holds `{Extern} env rule req c :
  no_domain_only rule = true → ready false c →
  (rule_Match env rule req c).1 = holds env (scope_of c) rule req ∧
  match_scope (rule_Match env rule req c).2 = match_scope c ∧
  ((rule_Match env rule req c).1 = true →
   DeferredIPCIDRMatchGroups (rule_Match env rule req c).2 = 0).
Proof. apply Match_exact. Qed.

(** C25: a DNS rule that would accept a response is not lost before the lookup: when
    domain items and destination CIDR items are not mixed as alternatives ([lookup_safe];
    [prematch_loses_inverted_rule] is a rule that is lost without it), no rule-set is used
    for its domains only and the cache is that of a new query,
    [MatchAddressLimit] on any response implies [LegacyPreMatch] on the request. *)
Theorem LegacyPreMatch_complete `{Extern} env rule md response :
  is_dns_rule rule = true → no_domain_only rule = true → lookup_safe false rule = true →
  fresh_cache (md_cache md) →
  MatchAddressLimit env rule md response = true → (LegacyPreMatch env rule md).1 = true.
Proof.
  intros Hdns Hfull Hsafe Hc. rewrite MatchAddressLimit_holds, LegacyPreMatch_Match by done.
  intros Hh. destruct (prematch_approximates env rule md response Hfull Hsafe Hc) as [Hno _].
  rewrite Hh in Hno. unfold verdict in Hno; cbn in *.
  destruct (rule_Match _ _ _ _).1; [done|]. by destruct Hno.
Qed.

(** a match before the lookup that deferred nothing is final: the rule then
    accepts every response. *)
Theorem LegacyPreMatch_final `{Extern} env rule md response :
  is_dns_rule rule = true → no_domain_only rule = true → lookup_safe false rule = true →
  fresh_cache (md_cache md) →
  (LegacyPreMatch env rule md).1 = true →
  DeferredIPCIDRMatchGroups (md_cache (LegacyPreMatch env rule md).2) = 0 →
  MatchAddressLimit env rule md response = true.
Proof.
  intros Hdns Hfull Hsafe Hc. rewrite MatchAddressLimit_holds, LegacyPreMatch_Match by done.
  intros Ht Hz. destruct (prematch_approximates env rule md response Hfull Hsafe Hc) as [_ Hyes].
  unfold verdict in Hyes; cbn in *. destruct (Hyes Ht) as (δ & Hd & Hsem & _). apply Hsem.
  rewrite Hd in Hz. by destruct δ.
Qed.

(** Matching any rule, whatever it nests, gives its caller back the scope it was
    called in: the two CIDR options of the rule-set around it and the two modes. *)
Lemma Match_keeps_scope `{Extern} env rule req c :
  match_scope (rule_Match env rule req c).2 = match_scope c.
Proof. apply rule_Match_scope. Qed.

(** The order of the rules of a logical rule does not matter, although they share
    one cache: with the addresses known, a permuted list gives the same verdict. *)
Theorem logical_order_irrelevant `{Extern} env r rules req c :
  Permutation (l_rules r) rules →
  no_domain_only (LogicalRule r) = true → ready false c →
  (rule_Match env (LogicalRule r) req c).1 =
  (rule_Match env (LogicalRule (MkLogical rules (l_mode r) (l_invert r) (l_action r))) req c).1.
Proof.
  intros Hp Hfull Hc.
  assert (Hfull' : no_domain_only (LogicalRule (MkLogical rules (l_mode r) (l_invert r)
    (l_action r))) = true) by (cbn; by rewrite <- (forallb_perm _ _ _ Hp)).
  rewrite (proj1 (Match_exact env _ req c Hfull Hc)), (proj1 (Match_exact env _ req c Hfull' Hc)).
  by apply logical_holds_perm.
Qed.

(** ** Examples *)

Definition c_range (lo hi : Z) : RuleItem := IPCIDRItem [MkIPRange (Addr4 lo) (Addr4 hi)] false "cidr".
Definition c_domain (name : string) : RuleItem := DomainItem (H := concrete) ([name], []) "domain".

(** A default rule of domain items, destination CIDR items and rule-sets. *)
Definition c_rule (domains cidrs : list RuleItem) (sets : option RuleSetItem) (inv : bool)
    : abstractDefaultRule HeadlessRule :=
  MkDefault [] [] [] domains cidrs []
    (map PlainItem (domains ++ cidrs) ++ match sets with Some _ => [TheRuleSetItem] | None => [] end)
    sets inv None.

Definition c_meta : RuleSetMetadata := MkRuleSetMetadata false false true false false.
Definition c_sets (source : bool) (rules : list HeadlessRule) : option RuleSetItem :=
  Some (MkRuleSetItem ["geo"] [MkRuleSet "geo" rules c_meta] source false false).

(** 1.0.0.0/24 and 2.0.0.0/24 in a rule-set of two rules *)
Definition c_two : list HeadlessRule :=
  [DefaultHeadlessRule (c_rule [] [c_range 16777216 16777471] None false);
   DefaultHeadlessRule (c_rule [] [c_range 33554432 33554687] None false)].

(** "domain example.org and an address of the rule-set" *)
Definition c_dns_rule : HeadlessRule :=
  LogicalDNSRule (MkLogical
    [DefaultDNSRule (c_rule [c_domain "example.org"] [] None false) false "" false;
     DefaultDNSRule (c_rule [] [] (c_sets false c_two) false) false "" false]
    LogicalTypeAnd false None) [] false false.

Lemma Match_refines_holds_witness :
  (rule_Match c_env c_dns_rule (c_request "example.org") RuleCacheZero).1 =
  holds c_env top_scope c_dns_rule (c_request "example.org").
Proof. apply (Match_refines_holds c_env c_dns_rule); [reflexivity|by split_and!]. Defined.

Lemma LegacyPreMatch_complete_witness :
  (LegacyPreMatch c_env c_dns_rule (c_request "example.org")).1 = true.
Proof.
  apply (LegacyPreMatch_complete c_env c_dns_rule (c_request "example.org")
           (Some (c_response [16777220])));
    [reflexivity|reflexivity|reflexivity|by split_and!|vm_compute; reflexivity].
Defined.

Lemma LegacyPreMatch_final_witness :
  MatchAddressLimit c_env
    (DefaultDNSRule (c_rule [c_domain "example.org"] [] None false) false "" false)
    (c_request "example.org") (Some (c_response [77])) = true.
Proof.
  apply (LegacyPreMatch_final c_env);
    [reflexivity|reflexivity|reflexivity|by split_and!|vm_compute; reflexivity
    |vm_compute; reflexivity].
Defined.

Lemma logical_order_irrelevant_witness :
  (rule_Match c_env (LogicalRule (MkLogical c_two LogicalTypeOr true None))
     (c_request "example.org") RuleCacheZero).1 =
  (rule_Match c_env (LogicalRule (MkLogical (reverse c_two) LogicalTypeOr true None))
     (c_request "example.org") RuleCacheZero).1.
Proof.
  apply (logical_order_irrelevant c_env (MkLogical c_two LogicalTypeOr true None) (reverse c_two));
    [apply perm_swap|reflexivity|by split_and!].
Defined.

(** Without the condition on mixing, [LegacyPreMatch_complete] fails: an inverted rule
    "domain example.org and an address of the rule-set" accepts a response outside the
    rule-set, but is skipped before the lookup, because the deferred destination group
    of the rule-set is cleared by the domain the rule itself matched. *)
Example prematch_loses_inverted_rule :
  let rule := DefaultDNSRule (c_rule [c_domain "example.org"] [] (c_sets false c_two) true)
                false "" false in
  MatchAddressLimit c_env rule (c_request "example.org") (Some (c_response [77])) = true ∧
  (LegacyPreMatch c_env rule (c_request "example.org")).1 = false.
Proof. vm_compute. by split. Qed.

(** [rule_set_ip_cidr_match_source] reaches the rules of a rule-set but not the rules
    inside a logical rule of it: the same CIDR condition matches the source address in
    the first rule-set and not in the second. *)
Example match_source_lost_in_logical_rule :
  let cidr := DefaultHeadlessRule (c_rule [] [c_range 167772160 184549375] None false) in
  let logical := LogicalHeadlessRule (MkLogical [cidr] LogicalTypeOr false None) in
  let rule rules := DefaultRule (c_rule [] [] (c_sets true rules) false) in
  (rule_Match c_env (rule [cidr]) (c_request "example.org") RuleCacheZero).1 = true ∧
  (rule_Match c_env (rule [logical]) (c_request "example.org") RuleCacheZero).1 = false.
Proof. vm_compute. by split. Qed.
