(* ===== verification/RuleDomainOnly.v ===== *)
(** * Rule-sets used for their domains only

    A rule-set item with [domainOnly] asks whether a rule-set matches by a domain:
    ports and destination CIDR items are ignored, and a match counts only if a
    domain item made it. The code finds out with a flag in the shared cache that
    every match sets and failed or inverted matches take back; [domain_match] says
    which rules match by a domain. *)
From stdpp Require Import base list strings gmap.
From S2P Require Import Prelude Netip Metadata RuleItems RuleAction RuleMatch RuleSpec RuleGroups RuleRefine Concrete RuleTheorems.

Section DomainOnly.
Context `{Extern}.
Variable env : Env.

(** The rules a rule-set can hold, without [invert]. *)
Fixpoint plain_headless (rule : HeadlessRule) : bool :=
  match rule with
  | DefaultHeadlessRule r =>
      negb (invert r) && match ruleSetItem r with None => true | Some _ => false end
  | LogicalHeadlessRule r => negb (l_invert r) && forallb plain_headless (l_rules r)
  | _ => false
  end.

Definition without_ports (r : abstractDefaultRule HeadlessRule) : abstractDefaultRule HeadlessRule :=
  MkDefault (items r) (sourceAddressItems r) [] (destinationAddressItems r)
    (destinationIPCIDRItems r) [] (allItems r) (ruleSetItem r) (invert r) (action r).

Definition domain_conds (sc : scope) (req : InboundContext) (r : abstractDefaultRule HeadlessRule)
    : group → list bool := group_conds env true sc req (without_ports r).

(** Does the rule match, ports and destination CIDR items ignored? *)
Fixpoint loose_match (sc : scope) (rule : HeadlessRule) (req : InboundContext) : bool :=
  match rule with
  | DefaultHeadlessRule r =>
      negb (has_items (allItems r)) ||
      forallb (item_holds env sc req) (items r) && groups_hold (domain_conds sc req r)
  | LogicalHeadlessRule r =>
      match l_mode r with
      | LogicalTypeAnd => forallb (λ rule, loose_match top_scope rule req) (l_rules r)
      | LogicalTypeOr => existsb (λ rule, loose_match top_scope rule req) (l_rules r)
      end
  | _ => false
  end.

(** Does a domain item take part in the match? *)
Fixpoint domain_match (sc : scope) (rule : HeadlessRule) (req : InboundContext) : bool :=
  match rule with
  | DefaultHeadlessRule r =>
      has_items (allItems r) && loose_match sc rule req &&
      existsb (item_holds env sc req) (destinationAddressItems r)
  | LogicalHeadlessRule r =>
      loose_match sc rule req && existsb (λ rule, domain_match top_scope rule req) (l_rules r)
  | _ => false
  end.

(** What a match in this mode does: the verdict, and the flag. *)
Definition domain_mode (c : RuleCache) : Prop := RuleSetDomainOnly c = true.

Definition flags (m dm : bool) (c : RuleCache) (res : bool * RuleCache) : Prop :=
  res.1 = m ∧ RuleSetDomainMatched res.2 = RuleSetDomainMatched c || dm.

Definition domain_ok (rule : HeadlessRule) : Prop :=
  ∀ req c, plain_headless rule = true → domain_mode c → IgnoreDestinationIPCIDRMatch c = true →
    flags (loose_match (scope_of c) rule req) (domain_match (scope_of c) rule req) c
      (rule_Match env rule req c).

Lemma existsb_map_id {A} (f : A → bool) l : existsb id (map f l) = existsb f l.
Proof. induction l as [|x l IH]; [done|]. cbn. by rewrite IH. Qed.

Lemma evaluateGroups_domain r req c :
  domain_mode c → IgnoreDestinationIPCIDRMatch c = true →
  (evaluateGroups env r req c).1 = mask (domain_conds (scope_of c) req r) ∧
  RuleSetDomainMatched (evaluateGroups env r req c).2 =
    RuleSetDomainMatched c || existsb (item_holds env (scope_of c) req) (destinationAddressItems r).
Proof.
  unfold domain_mode. intros Hd Hi. unfold evaluateGroups. cbv zeta.
  rewrite block_cache_spec. cbv iota.
  rewrite !block_guarded_spec
    by (intros; first [by apply (state_has_absorb 0)|by apply (state_has_absorb 2)]).
  rewrite !block_spec.
  set (c1 := if _ && _ then set_RuleSetDomainMatched c true else c).
  assert (Hc1 : match_scope c1 = match_scope c) by (unfold c1; by destruct (_ && _)).
  destruct (match_scope_fields _ _ Hc1) as (Hsc & Hsrc & Hig & Hdo).
  unfold destinationIPCIDRMatchesSource, destinationIPCIDRMatchesDestination.
  rewrite !matchAnyItem_scope, Hsc, Hsrc, Hig, Hdo, Hd, Hi; cbn [fst snd negb andb]. split.
  - exact (add_blocks_mask env (without_ports r) req true (scope_of c)).
  - assert (Hm : RuleSetDomainMatched c1 = RuleSetDomainMatched c ||
              existsb (item_holds env (scope_of c) req) (destinationAddressItems r)).
    { unfold c1. rewrite matchAnyItem_scope, existsb_map_id.
      destruct (destinationAddressItems r) as [|i l]; [by rewrite orb_false_r|].
      destruct (existsb _ (i :: l)); cbn; [by rewrite orb_true_r|by rewrite orb_false_r]. }
    destruct (negb _ && _ && _); exact Hm.
Qed.

(** A flag that is set stays set; a loop that ends early has set it. *)
Lemma matchAny_loop_domain req s rules : Forall domain_ok rules → ∀ b z c,
  forallb plain_headless rules = true → domain_mode c → IgnoreDestinationIPCIDRMatch c = true →
  flags (b || existsb (λ rule, loose_match (scope_of c) rule req) rules)
    (existsb (λ rule, domain_match (scope_of c) rule req) rules) c
    (matchAny_loop (rule_Match env) req s rules b z c).
Proof.
  induction 1 as [|rule rules Hrule Hok IH]; intros b z c; cbn [matchAny_loop forallb existsb].
  - intros _ _ _. rewrite orb_false_r. split; [done|]. rewrite orb_false_r. by destruct b.
  - intros [Hp Hps]%andb_true_iff Hd Hi.
    pose proof (rule_Match_scope env rule req (ResetRuleMatchCache c)) as Hs.
    destruct (Hrule req (ResetRuleMatchCache c) Hp Hd Hi) as [Hm Hf].
    change (scope_of (ResetRuleMatchCache c)) with (scope_of c) in Hm, Hf.
    destruct (rule_Match env rule req (ResetRuleMatchCache c)) as [m c']; cbn [fst snd] in *.
    destruct (match_scope_fields _ _ Hs) as (Hsc & _ & Hi' & Hd').
    change (scope_of (ResetRuleMatchCache c)) with (scope_of c) in Hsc.
    assert (Hdc : domain_mode c') by (unfold domain_mode; by rewrite Hd').
    destruct (IH (b || m) (if m then Z.lor z (DeferredIPCIDRMatchGroups c') else z) c' Hps Hdc)
      as [IHm IHf]; [by rewrite Hi'|]. rewrite Hsc in IHm, IHf.
    unfold domain_mode in Hdc. rewrite Hdc. cbn [negb orb]. subst m.
    change (RuleSetDomainMatched (ResetRuleMatchCache c)) with (RuleSetDomainMatched c) in Hf.
    unfold flags. rewrite orb_assoc, orb_assoc, <- Hf.
    destruct (loose_match (scope_of c) rule req); [|rewrite orb_false_r in *; by split].
    rewrite orb_true_r in *. destruct (DeferredIPCIDRMatchGroups c' =? 0); [|by split].
    cbn [andb]. destruct (RuleSetDomainMatched c') eqn:E; [|by split].
    cbn. by rewrite E.
Qed.

(** One branch of a logical rule. *)
Lemma branch_domain rule req c :
  domain_ok rule → plain_headless rule = true → domain_mode c →
  IgnoreDestinationIPCIDRMatch c = true →
  let res := rule_Match env rule req (ResetRuleCache c) in
  domain_mode res.2 ∧ IgnoreDestinationIPCIDRMatch res.2 = true ∧
  flags (loose_match top_scope rule req) (domain_match top_scope rule req) c res.
Proof.
  intros Hrule Hp Hd Hi. cbv zeta.
  pose proof (rule_Match_scope env rule req (ResetRuleCache c)) as Hs.
  destruct (match_scope_fields _ _ Hs) as (_ & _ & Hi' & Hd').
  split_and!; [unfold domain_mode; by rewrite Hd'|by rewrite Hi'|].
  exact (Hrule req (ResetRuleCache c) Hp Hd Hi).
Qed.

Lemma or_loop_domain req rules : Forall domain_ok rules → ∀ b z c,
  forallb plain_headless rules = true → domain_mode c → IgnoreDestinationIPCIDRMatch c = true →
  let res := or_loop (rule_Match env) req rules b z c in
  flags (b || existsb (λ rule, loose_match top_scope rule req) rules)
    (existsb (λ rule, domain_match top_scope rule req) rules) c (res.1.1, res.2).
Proof.
  induction 1 as [|rule rules Hrule Hok IH]; intros b z c; cbn [or_loop forallb existsb].
  - intros _ _ _. unfold flags; cbn. by rewrite !orb_false_r.
  - intros [Hp Hps]%andb_true_iff Hd Hi.
    destruct (branch_domain rule req c Hrule Hp Hd Hi) as (Hdc & Hic & Hm & Hf).
    destruct (rule_Match env rule req (ResetRuleCache c)) as [m c']; cbn [fst snd] in *.
    destruct (IH (b || m) (if m then Z.lor z (DeferredIPCIDRMatchGroups c') else z) c' Hps Hdc Hic)
      as [IHm IHf]. cbn [fst snd] in *.
    unfold domain_mode in Hdc. rewrite Hdc. cbn [negb orb]. subst m.
    unfold flags. rewrite orb_assoc, orb_assoc, <- Hf.
    destruct (loose_match top_scope rule req); [|rewrite orb_false_r in *; by split].
    rewrite orb_true_r in *. destruct (DeferredIPCIDRMatchGroups c' =? 0); [|by split].
    cbn [andb]. destruct (RuleSetDomainMatched c') eqn:E; [|by split].
    cbn. by rewrite E.
Qed.

Lemma and_loop_domain req rules : Forall domain_ok rules → ∀ z c,
  forallb plain_headless rules = true → domain_mode c → IgnoreDestinationIPCIDRMatch c = true →
  let res := and_loop (rule_Match env) req rules z c in
  res.1.1 = forallb (λ rule, loose_match top_scope rule req) rules ∧
  (res.1.1 = true →
   RuleSetDomainMatched res.2 =
   RuleSetDomainMatched c || existsb (λ rule, domain_match top_scope rule req) rules).
Proof.
  induction 1 as [|rule rules Hrule Hok IH]; intros z c; cbn [and_loop forallb existsb].
  - intros _ _ _. cbn. by rewrite orb_false_r.
  - intros [Hp Hps]%andb_true_iff Hd Hi.
    destruct (branch_domain rule req c Hrule Hp Hd Hi) as (Hdc & Hic & Hm & Hf).
    destruct (rule_Match env rule req (ResetRuleCache c)) as [m c']; cbn [fst snd] in *.
    rewrite <- Hm. destruct m; cbn [negb andb]; [|done]. rewrite orb_assoc, <- Hf. by apply IH.
Qed.

Lemma domain_match_loose sc rule req :
  domain_match sc rule req = true → loose_match sc rule req = true.
Proof.
  destruct rule as [r|r|r ? ? ?|r|r|r ? ? ?]; cbn [domain_match]; try done.
  - intros [[_ ?]%andb_true_iff _]%andb_true_iff. done.
  - by intros [? _]%andb_true_iff.
Qed.

Lemma domain_ok_default r : domain_ok (DefaultHeadlessRule r).
Proof.
  intros req c [Hinv Hset]%andb_true_iff Hd Hi. apply negb_true_iff in Hinv.
  destruct (ruleSetItem r) eqn:Hnone; [done|].
  destruct (evaluateGroups_domain r req c Hd Hi) as [Hg Hf].
  pose proof (evaluateGroups_scope env r req c) as Hs.
  cbn [rule_Match]. unfold default_Match, matchInner. rewrite Hnone, Hinv.
  unfold flags. cbn [domain_match loose_match].
  destruct (has_items (allItems r)); cbn [negb orb andb]; [|rewrite orb_false_r; by split].
  destruct (evaluateGroups env r req c) as [g c1]; cbn [fst snd] in *. subst g.
  rewrite forallb_matchItem, mask_done. destruct (match_scope_fields _ _ Hs) as (-> & _).
  destruct (forallb _ (items r)); cbn -[groups_hold]; [|by rewrite orb_false_r].
  destruct (groups_hold _); cbn; [done|by rewrite orb_false_r].
Qed.

Lemma domain_ok_all rule : domain_ok rule.
Proof.
  induction rule as [rule IH] using HeadlessRule_nested_ind.
  destruct rule as [r|r|r ? ? ?|r|r|r ? ? ?]; try done; [apply domain_ok_default|].
  intros req c [Hinv Hp]%andb_true_iff Hd Hi. apply negb_true_iff in Hinv. cbn [subrules] in IH.
  cbn [rule_Match]. unfold logical_Match, flags. cbn [domain_match loose_match]. rewrite Hinv.
  destruct (l_mode r).
  - destruct (and_loop_domain req _ IH 0 c Hp Hd Hi) as [Hm Hf].
    destruct (and_loop _ _ _ _ _) as [[m dg] c1]; cbn [fst snd] in *. rewrite <- Hm.
    destruct m; cbn; [rewrite (Hf eq_refl); by split|rewrite orb_false_r; by split].
  - destruct (or_loop_domain req _ IH false 0 c Hp Hd Hi) as [Hm Hf].
    destruct (or_loop _ _ _ _ _ _) as [[m dg] c1]; cbn [fst snd orb] in *. rewrite <- Hm.
    destruct m; cbn; [rewrite Hf; by split|rewrite orb_false_r; by split].
Qed.

Lemma RuleSet_Match_domain s req c :
  forallb plain_headless (rs_rules s) = true → domain_mode c →
  IgnoreDestinationIPCIDRMatch c = true → RuleSetDomainMatched c = false →
  let res := RuleSet_Match (rule_Match env) s req c in
  res.1 && RuleSetDomainMatched res.2 =
  existsb (λ rule, domain_match (scope_of c) rule req) (rs_rules s).
Proof.
  intros Hp Hd Hi Hf. cbv zeta. unfold RuleSet_Match, matchAnyHeadlessRule.
  assert (Hok : Forall domain_ok (rs_rules s))
    by (apply Forall_forall; intros; apply domain_ok_all).
  destruct (matchAny_loop_domain req (snapshotRuleMatch c) _ Hok false 0 c Hp Hd Hi) as [-> ->].
  rewrite Hf. cbn [orb]. destruct (existsb (λ rule, domain_match _ _ _) _) eqn:E;
    [|by rewrite andb_false_r]. apply existsb_exists in E as (rule & Hin & Hm).
  rewrite andb_true_r. apply existsb_exists. exists rule. split; [done|].
  by apply domain_match_loose.
Qed.

End DomainOnly.

(** A rule-set item that uses its sets for their domains only matches exactly when
    a rule of one of the sets matches by a domain: the flag kept in the shared cache, and
    taken back by failed matches, never leaks from one rule or set to another. *)
Theorem domain_only_item_Match `{Extern} env item req c :
  domainOnly item = true →
  forallb (λ s, forallb plain_headless (rs_rules s)) (setList item) = true →
  (RuleSetItem_Match (rule_Match env) item req c).1 =
  existsb (λ s, existsb (λ rule, domain_match env (item_scope item) rule req) (rs_rules s))
    (setList item).
Proof.
  intros Hd. unfold RuleSetItem_Match.
  assert (Hloop : ∀ sets c, forallb (λ s, forallb plain_headless (rs_rules s)) sets = true →
    (ruleSetItem_loop (rule_Match env) item req sets c).1 =
    existsb (λ s, existsb (λ rule, domain_match env (item_scope item) rule req) (rs_rules s)) sets).
  { clear c. induction sets as [|s sets IH]; intros c; [done|].
    cbn [ruleSetItem_loop forallb existsb]. intros [Hp Hps]%andb_true_iff.
    assert (Hc : domain_mode (prepareNestedMatch item c) ∧
      IgnoreDestinationIPCIDRMatch (prepareNestedMatch item c) = true ∧
      RuleSetDomainMatched (prepareNestedMatch item c) = false ∧
      scope_of (prepareNestedMatch item c) = item_scope item)
      by (unfold prepareNestedMatch; rewrite Hd; by split_and!).
    destruct Hc as (H1 & H2 & H3 & H4).
    rewrite <- H4, <- (RuleSet_Match_domain env s req _ Hp H1 H2 H3), H4, Hd.
    destruct (RuleSet_Match (rule_Match env) s req _) as [m c']; cbn [fst snd negb orb].
    destruct (m && RuleSetDomainMatched c'); [done|]. by apply IH. }
  intros Hp. rewrite <- (Hloop _ c Hp). by destruct (ruleSetItem_loop _ _ _ _ _).
Qed.

Lemma domain_only_item_Match_witness :
  (RuleSetItem_Match (rule_Match c_env)
     (MkRuleSetItem ["geo"] [MkRuleSet "geo" (c_two ++
        [LogicalHeadlessRule (MkLogical (c_two ++
           [DefaultHeadlessRule (c_rule [c_domain "example.org"] [] None false)])
           LogicalTypeAnd false None)]) c_meta] false false true)
     (c_request "example.org") RuleCacheZero).1 = true.
Proof. rewrite domain_only_item_Match; [reflexivity|reflexivity|reflexivity]. Defined.
