(* ===== verification/RuleOptions.v ===== *)
(** * The options rules are built from

    option/rule.go, option/rule_dns.go and option/rule_set.go: the fields of the
    configuration, and what counts as a rule with conditions. A [Listable] is a Go
    slice: [None] is nil, which is not the same as empty for [reflect.DeepEqual]. *)
From stdpp Require Import base list strings gmap.
From S2P Require Import Prelude Netip Metadata RuleItems RuleAction.

Definition Listable (A : Type) : Type := option (list A).

Definition elems {A} (l : Listable A) : list A := default [] l.
(** [len(l) > 0] *)
Definition listed {A} (l : Listable A) : bool := has_items (elems l).
Lemma listed_is_set {A} (l : Listable A) : listed l = true → is_set l = true.
Proof. by destruct l. Qed.

(** [common.All] over a predicate that may panic *)
Definition all_result {A} (f : A → result bool) : list A → result bool :=
  fix go l :=
    match l with
    | [] => Ok true
    | x :: l => b ← f x; if b : bool then go l else Ok false
    end.

(** ** Headless rules: option/rule_set.go *)
Section Headless.
Context `{Extern}.

Record DefaultHeadlessRuleOptions : Type := MkHeadlessOptions {
  h_QueryType : Listable Z;
  h_Network : Listable string;
  h_Domain : Listable string;
  h_DomainSuffix : Listable string;
  h_DomainKeyword : Listable string;
  h_DomainRegex : Listable string;
  h_SourceIPCIDR : Listable string;
  h_IPCIDR : Listable string;
  h_SourcePort : Listable Z;
  h_SourcePortRange : Listable string;
  h_Port : Listable Z;
  h_PortRange : Listable string;
  h_ProcessName : Listable string;
  h_ProcessPath : Listable string;
  h_ProcessPathRegex : Listable string;
  h_PackageName : Listable string;
  h_PackageNameRegex : Listable string;
  h_NetworkType : Listable Z;
  h_NetworkIsExpensive : bool;
  h_NetworkIsConstrained : bool;
  h_WIFISSID : Listable string;
  h_WIFIBSSID : Listable string;
  h_NetworkInterfaceAddress : option (list (Z * list Prefix));
  h_DefaultInterfaceAddress : Listable Prefix;
  h_Invert : bool;
  h_DomainMatcher : option Matcher;
  h_SourceIPSet : option IPSet;
  h_IPSet : option IPSet;
  h_AdGuardDomain : Listable string;
  h_AdGuardDomainMatcher : option AdGuardMatcher;
}.

(** The zero value but for [Invert]. *)
Definition HeadlessOptionsZero (invert : bool) : DefaultHeadlessRuleOptions :=
  MkHeadlessOptions None None None None None None None None None None None None None None None
    None None None false false None None None None invert None None None None None.

(** [isNonIPCIDRHeadlessRule] of rule_set.go: a field other than [IPCIDR], [IPSet]
    and [Invert] is not zero. *)
Definition isNonIPCIDRHeadlessRule (r : DefaultHeadlessRuleOptions) : bool :=
  is_set (h_QueryType r) || is_set (h_Network r) || is_set (h_Domain r) ||
  is_set (h_DomainSuffix r) || is_set (h_DomainKeyword r) || is_set (h_DomainRegex r) ||
  is_set (h_SourceIPCIDR r) || is_set (h_SourcePort r) || is_set (h_SourcePortRange r) ||
  is_set (h_Port r) || is_set (h_PortRange r) || is_set (h_ProcessName r) ||
  is_set (h_ProcessPath r) || is_set (h_ProcessPathRegex r) || is_set (h_PackageName r) ||
  is_set (h_PackageNameRegex r) || is_set (h_NetworkType r) || h_NetworkIsExpensive r ||
  h_NetworkIsConstrained r || is_set (h_WIFISSID r) || is_set (h_WIFIBSSID r) ||
  is_set (h_NetworkInterfaceAddress r) || is_set (h_DefaultInterfaceAddress r) ||
  is_set (h_DomainMatcher r) || is_set (h_SourceIPSet r) || is_set (h_AdGuardDomain r) ||
  is_set (h_AdGuardDomainMatcher r).

(** [DefaultHeadlessRule.IsValid]: a field other than [Invert] is not zero. *)
Definition DefaultHeadlessRule_IsValid (r : DefaultHeadlessRuleOptions) : bool :=
  isNonIPCIDRHeadlessRule r || is_set (h_IPCIDR r) || is_set (h_IPSet r).

(** [option.HeadlessRule] with [LogicalHeadlessRule] inside *)
Inductive HeadlessRuleOptions : Type :=
| MkHeadlessRuleOptions (Type_ : string) (DefaultOptions : DefaultHeadlessRuleOptions)
    (Mode : string) (Rules : list HeadlessRuleOptions) (Invert : bool).

Fixpoint HeadlessRule_IsValid (r : HeadlessRuleOptions) : result bool :=
  match r with
  | MkHeadlessRuleOptions ty d _ rules _ =>
      if bool_decide (ty = "default"%string) || negb (nonempty ty)
      then Ok (DefaultHeadlessRule_IsValid d)
      else if bool_decide (ty = "logical"%string)
      then if has_items rules then all_result HeadlessRule_IsValid rules else Ok false
      else Panic ("unknown rule type: " +:+ ty)%string
  end.

End Headless.

(** ** Route rules: option/rule.go *)

Record RawDefaultRuleOptions : Type := MkRawDefaultRule {
  r_Inbound : Listable string;
  r_IPVersion : Z;
  r_Network : Listable string;
  r_AuthUser : Listable string;
  r_Protocol : Listable string;
  r_Client : Listable string;
  r_Domain : Listable string;
  r_DomainSuffix : Listable string;
  r_DomainKeyword : Listable string;
  r_DomainRegex : Listable string;
  r_Geosite : Listable string;
  r_SourceGeoIP : Listable string;
  r_GeoIP : Listable string;
  r_SourceIPCIDR : Listable string;
  r_SourceIPIsPrivate : bool;
  r_IPCIDR : Listable string;
  r_IPIsPrivate : bool;
  r_SourcePort : Listable Z;
  r_SourcePortRange : Listable string;
  r_Port : Listable Z;
  r_PortRange : Listable string;
  r_ProcessName : Listable string;
  r_ProcessPath : Listable string;
  r_ProcessPathRegex : Listable string;
  r_PackageName : Listable string;
  r_PackageNameRegex : Listable string;
  r_User : Listable string;
  r_UserID : Listable Z;
  r_ClashMode : string;
  r_NetworkType : Listable Z;
  r_NetworkIsExpensive : bool;
  r_NetworkIsConstrained : bool;
  r_WIFISSID : Listable string;
  r_WIFIBSSID : Listable string;
  r_InterfaceAddress : option (list (string * list Prefix));
  r_NetworkInterfaceAddress : option (list (Z * list Prefix));
  r_DefaultInterfaceAddress : Listable Prefix;
  r_SourceMACAddress : Listable string;
  r_SourceHostname : Listable string;
  r_PreferredBy : Listable string;
  r_RuleSet : Listable string;
  r_RuleSetIPCIDRMatchSource : bool;
  r_Invert : bool;
  r_Deprecated_RulesetIPCIDRMatchSource : bool;
}.

#[export] Instance RawDefaultRule_eq_dec : EqDecision RawDefaultRuleOptions.
Proof. solve_decision. Defined.

Definition RawDefaultRuleZero (invert : bool) : RawDefaultRuleOptions :=
  MkRawDefaultRule None 0 None None None None None None None None None None None None false None
    false None None None None None None None None None None None "" None false false None None
    None None None None None None None false invert false.

(** [DefaultRule.IsValid]: the conditions or the action are not zero. *)
Definition DefaultRule_IsValid (raw : RawDefaultRuleOptions) (action : RuleActionOptions) : bool :=
  negb (bool_decide (raw = RawDefaultRuleZero (r_Invert raw)) &&
        bool_decide (action = RuleActionOptionsZero)).

(** [option.Rule] *)
Inductive RuleOptions : Type :=
| MkRuleOptions (Type_ : string) (DefaultOptions : RawDefaultRuleOptions)
    (DefaultAction : RuleActionOptions)
    (Mode : string) (Rules : list RuleOptions) (Invert : bool) (LogicalAction : RuleActionOptions).

Fixpoint Rule_IsValid (r : RuleOptions) : result bool :=
  match r with
  | MkRuleOptions ty raw action _ rules _ _ =>
      if bool_decide (ty = "default"%string) then Ok (DefaultRule_IsValid raw action)
      else if bool_decide (ty = "logical"%string)
      then if has_items rules then all_result Rule_IsValid rules else Ok false
      else Panic ("unknown rule type: " +:+ ty)%string
  end.

(** [LogicalRule.IsValid] *)
Definition LogicalRule_IsValid (rules : list RuleOptions) : result bool :=
  if has_items rules then all_result Rule_IsValid rules else Ok false.

(** ** DNS rules: option/rule_dns.go *)

(** [DNSRuleMatchResponse] *)
Record DNSRuleMatchResponse : Type := MkMatchResponse { mr_Enabled : bool; mr_Tag : string }.

#[export] Instance MatchResponse_eq_dec : EqDecision DNSRuleMatchResponse.
Proof. solve_decision. Defined.

Definition MatchResponse_IsEnabled (m : option DNSRuleMatchResponse) : bool :=
  match m with Some m => mr_Enabled m | None => false end.
Definition MatchResponse_ResponseTag (m : option DNSRuleMatchResponse) : string :=
  match m with Some m => mr_Tag m | None => "" end.

Record RawDefaultDNSRuleOptions : Type := MkRawDefaultDNSRule {
  n_Inbound : Listable string;
  n_IPVersion : Z;
  n_QueryType : Listable Z;
  n_QueryClientSubnet : Listable Prefix;
  n_QueryDNSSEC : bool;
  n_Network : Listable string;
  n_AuthUser : Listable string;
  n_Protocol : Listable string;
  n_Domain : Listable string;
  n_DomainSuffix : Listable string;
  n_DomainKeyword : Listable string;
  n_DomainRegex : Listable string;
  n_SourceIPCIDR : Listable string;
  n_SourceIPIsPrivate : bool;
  n_SourcePort : Listable Z;
  n_SourcePortRange : Listable string;
  n_Port : Listable Z;
  n_PortRange : Listable string;
  n_ProcessName : Listable string;
  n_ProcessPath : Listable string;
  n_ProcessPathRegex : Listable string;
  n_PackageName : Listable string;
  n_PackageNameRegex : Listable string;
  n_User : Listable string;
  n_UserID : Listable Z;
  n_Outbound : Listable string;
  n_ClashMode : string;
  n_NetworkType : Listable Z;
  n_NetworkIsExpensive : bool;
  n_NetworkIsConstrained : bool;
  n_WIFISSID : Listable string;
  n_WIFIBSSID : Listable string;
  n_InterfaceAddress : option (list (string * list Prefix));
  n_NetworkInterfaceAddress : option (list (Z * list Prefix));
  n_DefaultInterfaceAddress : Listable Prefix;
  n_SourceMACAddress : Listable string;
  n_SourceHostname : Listable string;
  n_PreferredBy : Listable string;
  n_RuleSet : Listable string;
  n_RuleSetIPCIDRMatchSource : bool;
  n_RuleSetDomainOnly : bool;
  n_MatchResponse : option DNSRuleMatchResponse;
  n_IPCIDR : Listable string;
  n_IPIsPrivate : bool;
  n_IPAcceptAny : bool;
  n_ResponseRcode : option Z;
  n_ResponseAnswer : Listable (option RR);
  n_ResponseNs : Listable (option RR);
  n_ResponseExtra : Listable (option RR);
  n_Invert : bool;
  n_Geosite : Listable string;
  n_SourceGeoIP : Listable string;
  n_GeoIP : Listable string;
  n_RuleSetIPCIDRAcceptEmpty : bool;
  n_Deprecated_RulesetIPCIDRMatchSource : bool;
}.

#[export] Instance RawDefaultDNSRule_eq_dec : EqDecision RawDefaultDNSRuleOptions.
Proof. solve_decision. Defined.

Definition RawDefaultDNSRuleZero (invert : bool) : RawDefaultDNSRuleOptions :=
  MkRawDefaultDNSRule None 0 None None false None None None None None None None None false None
    None None None None None None None None None None None "" None false false None None None
    None None None None None None false false None None false false None None None None invert
    None None None false false.

(** [DefaultDNSRule.IsValid] *)
Definition DefaultDNSRule_IsValid (raw : RawDefaultDNSRuleOptions) (action : DNSRuleActionOptions)
    : bool :=
  negb (bool_decide (raw = RawDefaultDNSRuleZero (n_Invert raw)) &&
        bool_decide (action = DNSRuleActionOptionsZero)).

(** [option.DNSRule] *)
Inductive DNSRuleOptions : Type :=
| MkDNSRuleOptions (Type_ : string) (DefaultOptions : RawDefaultDNSRuleOptions)
    (DefaultAction : DNSRuleActionOptions)
    (Mode : string) (Rules : list DNSRuleOptions) (Invert : bool)
    (LogicalAction : DNSRuleActionOptions).

Fixpoint DNSRule_IsValid (r : DNSRuleOptions) : result bool :=
  match r with
  | MkDNSRuleOptions ty raw action _ rules _ _ =>
      if bool_decide (ty = "default"%string) then Ok (DefaultDNSRule_IsValid raw action)
      else if bool_decide (ty = "logical"%string)
      then if has_items rules then all_result DNSRule_IsValid rules else Ok false
      else Panic ("unknown DNS rule type: " +:+ ty)%string
  end.

(** [LogicalDNSRule.IsValid] *)
Definition LogicalDNSRule_IsValid (rules : list DNSRuleOptions) : result bool :=
  if has_items rules then all_result DNSRule_IsValid rules else Ok false.
