(* ===== verification/RuleBuild.v ===== *)
(** * Building rules: rule_default.go, rule_dns.go, rule_headless.go,
    rule_nested_action.go and rule_set.go

    A constructor goes through the fields of its options in the order of the
    source; a field that is set adds an item to its group and to [allItems]. *)
From stdpp Require Import base list strings pretty gmap.
From S2P Require Import Prelude Netip Metadata RuleItems RuleAction RuleMatch RuleOptions.

Section Build.
Context `{Extern}.
(** [domainset.NewMatcher]; whether the platform can spoof TLS; whether the
    context has a network manager. *)
Variable newMatcher : list string → list string → result Matcher.
Variable platformSupported : bool.
Variable networkManager : bool.

(** ** Adding an item to a rule *)

Abbreviation Rule0 := (abstractDefaultRule HeadlessRule).

Definition emptyRule (inv : bool) (act : option RuleAction) : Rule0 :=
  MkDefault [] [] [] [] [] [] [] None inv act.

Definition addItem (item : RuleItem) (r : Rule0) : Rule0 :=
  MkDefault (items r ++ [item]) (sourceAddressItems r) (sourcePortItems r)
    (destinationAddressItems r) (destinationIPCIDRItems r) (destinationPortItems r)
    (allItems r ++ [PlainItem item]) (ruleSetItem r) (invert r) (action r).
Definition addSourceAddress (item : RuleItem) (r : Rule0) : Rule0 :=
  MkDefault (items r) (sourceAddressItems r ++ [item]) (sourcePortItems r)
    (destinationAddressItems r) (destinationIPCIDRItems r) (destinationPortItems r)
    (allItems r ++ [PlainItem item]) (ruleSetItem r) (invert r) (action r).
Definition addSourcePort (item : RuleItem) (r : Rule0) : Rule0 :=
  MkDefault (items r) (sourceAddressItems r) (sourcePortItems r ++ [item])
    (destinationAddressItems r) (destinationIPCIDRItems r) (destinationPortItems r)
    (allItems r ++ [PlainItem item]) (ruleSetItem r) (invert r) (action r).
Definition addDestinationAddress (item : RuleItem) (r : Rule0) : Rule0 :=
  MkDefault (items r) (sourceAddressItems r) (sourcePortItems r)
    (destinationAddressItems r ++ [item]) (destinationIPCIDRItems r) (destinationPortItems r)
    (allItems r ++ [PlainItem item]) (ruleSetItem r) (invert r) (action r).
Definition addDestinationIPCIDR (item : RuleItem) (r : Rule0) : Rule0 :=
  MkDefault (items r) (sourceAddressItems r) (sourcePortItems r)
    (destinationAddressItems r) (destinationIPCIDRItems r ++ [item]) (destinationPortItems r)
    (allItems r ++ [PlainItem item]) (ruleSetItem r) (invert r) (action r).
Definition addDestinationPort (item : RuleItem) (r : Rule0) : Rule0 :=
  MkDefault (items r) (sourceAddressItems r) (sourcePortItems r)
    (destinationAddressItems r) (destinationIPCIDRItems r) (destinationPortItems r ++ [item])
    (allItems r ++ [PlainItem item]) (ruleSetItem r) (invert r) (action r).
Definition setRuleSetItem (item : RuleSetItem) (r : Rule0) : Rule0 :=
  MkDefault (items r) (sourceAddressItems r) (sourcePortItems r)
    (destinationAddressItems r) (destinationIPCIDRItems r) (destinationPortItems r)
    (allItems r ++ [TheRuleSetItem]) (Some item) (invert r) (action r).

(** [if cond { rule.group = append(rule.group, item); ... }] *)
Definition when (cond : bool) (f : Rule0 → Rule0) (r : Rule0) : result Rule0 :=
  Ok (if cond then f r else r).

(** The same with a constructor that may fail. *)
Definition when_ok (cond : bool) (item : result RuleItem) (f : RuleItem → Rule0 → Rule0)
    (r : Rule0) : result Rule0 :=
  if cond then item ← item; Ok (f item r) else Ok r.

Definition cause (message : string) (m : result RuleItem) : result RuleItem :=
  map_err (λ e, ECause e message) m.

(** [if cond { return nil, err }] *)
Definition refuse (cond : bool) (e : error) (r : Rule0) : result Rule0 :=
  if cond then Err e else Ok r.

(** The steps of a constructor, in order. *)
Definition steps (l : list (Rule0 → result Rule0)) (r : Rule0) : result Rule0 :=
  fold_left (λ m f, m ≫= f) l (Ok r).

(** [NewRuleSetItem] *)
Definition NewRuleSetItem (tags : list string) (matchSource acceptEmpty domainOnly : bool)
    : RuleSetItem := MkRuleSetItem tags [] matchSource acceptEmpty domainOnly.

(** ** Headless rules *)

(** The items of [NewDefaultHeadlessRule] up to the ports. *)
Definition NewDefaultHeadlessRule_addressItems (o : DefaultHeadlessRuleOptions)
    : list (Rule0 → result Rule0) :=
  let hasDomain := listed (h_Domain o) || listed (h_DomainSuffix o) in
  [
    when (listed (h_QueryType o)) (addItem (NewQueryTypeItem (elems (h_QueryType o))));
    when (listed (h_Network o)) (addItem (NewNetworkItem (elems (h_Network o))));
    when_ok hasDomain (NewDomainItem newMatcher (elems (h_Domain o)) (elems (h_DomainSuffix o)))
      addDestinationAddress;
    (λ r, match h_DomainMatcher o with
          | Some m => when (negb hasDomain) (addDestinationAddress (NewRawDomainItem m)) r
          | None => Ok r
          end);
    when (listed (h_DomainKeyword o))
      (addDestinationAddress (NewDomainKeywordItem (elems (h_DomainKeyword o))));
    when_ok (listed (h_DomainRegex o))
      (cause "domain_regex" (NewDomainRegexItem (elems (h_DomainRegex o)))) addDestinationAddress;
    when_ok (listed (h_SourceIPCIDR o))
      (cause "source_ip_cidr" (NewIPCIDRItem true (elems (h_SourceIPCIDR o)))) addSourceAddress;
    (λ r, match h_SourceIPSet o with
          | Some s =>
              when (negb (listed (h_SourceIPCIDR o))) (addSourceAddress (NewRawIPCIDRItem true s)) r
          | None => Ok r
          end);
    when_ok (listed (h_IPCIDR o))
      (cause "ipcidr" (NewIPCIDRItem false (elems (h_IPCIDR o)))) addDestinationIPCIDR;
    (λ r, match h_IPSet o with
          | Some s =>
              when (negb (listed (h_IPCIDR o))) (addDestinationIPCIDR (NewRawIPCIDRItem false s)) r
          | None => Ok r
          end);
    when (listed (h_SourcePort o)) (addSourcePort (NewPortItem true (elems (h_SourcePort o))));
    when_ok (listed (h_SourcePortRange o))
      (cause "source_port_range" (NewPortRangeItem true (elems (h_SourcePortRange o))))
      addSourcePort;
    when (listed (h_Port o)) (addDestinationPort (NewPortItem false (elems (h_Port o))));
    when_ok (listed (h_PortRange o))
      (cause "port_range" (NewPortRangeItem false (elems (h_PortRange o)))) addDestinationPort
  ].

(** The items of [NewDefaultHeadlessRule] from the process on. *)
Definition NewDefaultHeadlessRule_otherItems (o : DefaultHeadlessRuleOptions)
    : list (Rule0 → result Rule0) :=
  [
    when (listed (h_ProcessName o)) (addItem (NewProcessItem (elems (h_ProcessName o))));
    when (listed (h_ProcessPath o)) (addItem (NewProcessPathItem (elems (h_ProcessPath o))));
    when_ok (listed (h_ProcessPathRegex o))
      (cause "process_path_regex" (NewProcessPathRegexItem (elems (h_ProcessPathRegex o)))) addItem;
    when (listed (h_PackageName o)) (addItem (NewPackageNameItem (elems (h_PackageName o))));
    when_ok (listed (h_PackageNameRegex o))
      (cause "package_name_regex" (NewPackageNameRegexItem (elems (h_PackageNameRegex o)))) addItem;
    when (networkManager && listed (h_NetworkType o))
      (addItem (NewNetworkTypeItem (elems (h_NetworkType o))));
    when (networkManager && h_NetworkIsExpensive o) (addItem NewNetworkIsExpensiveItem);
    when (networkManager && h_NetworkIsConstrained o) (addItem NewNetworkIsConstrainedItem);
    when (networkManager && listed (h_WIFISSID o)) (addItem (NewWIFISSIDItem (elems (h_WIFISSID o))));
    when (networkManager && listed (h_WIFIBSSID o))
      (addItem (NewWIFIBSSIDItem (elems (h_WIFIBSSID o))));
    when (networkManager && listed (h_NetworkInterfaceAddress o))
      (addItem (NewNetworkInterfaceAddressItem (elems (h_NetworkInterfaceAddress o))));
    when (networkManager && listed (h_DefaultInterfaceAddress o))
      (addItem (NewDefaultInterfaceAddressItem (elems (h_DefaultInterfaceAddress o))));
    when (listed (h_AdGuardDomain o))
      (addDestinationAddress (NewAdGuardDomainItem (elems (h_AdGuardDomain o))));
    (λ r, match h_AdGuardDomainMatcher o with
          | Some m =>
              when (negb (listed (h_AdGuardDomain o)))
                (addDestinationAddress (NewRawAdGuardDomainItem m)) r
          | None => Ok r
          end)
  ].

(** [NewDefaultHeadlessRule] *)
Definition NewDefaultHeadlessRule (o : DefaultHeadlessRuleOptions) : result Rule0 :=
  steps (NewDefaultHeadlessRule_addressItems o ++ NewDefaultHeadlessRule_otherItems o)
    (emptyRule (h_Invert o) None).

Definition parse_mode (mode : string) : result logicalMode :=
  if bool_decide (mode = "and"%string) then Ok LogicalTypeAnd
  else if bool_decide (mode = "or"%string) then Ok LogicalTypeOr
  else Err (ENew ("unknown logical mode: " +:+ mode)%string).

Definition sub_rule {A} (i : nat) (m : result A) : result A :=
  map_err (λ e, ECause e ("sub rule[" +:+ pretty (Z.of_nat i) +:+ "]")%string) m.

Definition is_default_type (ty : string) : bool :=
  negb (nonempty ty) || bool_decide (ty = "default"%string).
Definition is_logical_type (ty : string) : bool := bool_decide (ty = "logical"%string).

(** [NewHeadlessRule] with [NewLogicalHeadlessRule] inside *)
Fixpoint NewHeadlessRule (options : HeadlessRuleOptions) : result HeadlessRule :=
  match options with
  | MkHeadlessRuleOptions ty d mode rules inv =>
      if is_default_type ty then
        if negb (DefaultHeadlessRule_IsValid d) then Err (ENew "missing conditions") else
        r ← NewDefaultHeadlessRule d; Ok (DefaultHeadlessRule r)
      else if is_logical_type ty then
        valid ← (if has_items rules then all_result HeadlessRule_IsValid rules else Ok false);
        if negb valid then Err (ENew "missing conditions") else
        mode ← parse_mode mode;
        subs ← mapM_idx (λ i sub, sub_rule i (NewHeadlessRule sub)) 0 rules;
        Ok (LogicalHeadlessRule (MkLogical subs mode inv None))
      else Err (ENew ("unknown rule type: " +:+ ty)%string)
  end.

(** ** Rule-sets: rule_set.go *)

Fixpoint HasHeadlessRule (cond : DefaultHeadlessRuleOptions → bool) (rule : HeadlessRuleOptions)
    : bool :=
  match rule with
  | MkHeadlessRuleOptions ty d _ rules _ =>
      if bool_decide (ty = "default"%string) then cond d
      else if is_logical_type ty then existsb (HasHeadlessRule cond) rules
      else false
  end.

Definition isProcessHeadlessRule (r : DefaultHeadlessRuleOptions) : bool :=
  listed (h_ProcessName r) || listed (h_ProcessPath r) || listed (h_ProcessPathRegex r) ||
  listed (h_PackageName r) || listed (h_PackageNameRegex r).
Definition isWIFIHeadlessRule (r : DefaultHeadlessRuleOptions) : bool :=
  listed (h_WIFISSID r) || listed (h_WIFIBSSID r).
Definition isIPCIDRHeadlessRule (r : DefaultHeadlessRuleOptions) : bool :=
  listed (h_IPCIDR r) || is_set (h_IPSet r).
Definition isDNSQueryTypeHeadlessRule (r : DefaultHeadlessRuleOptions) : bool :=
  listed (h_QueryType r).

Definition buildRuleSetMetadata (rules : list HeadlessRuleOptions) : RuleSetMetadata :=
  MkRuleSetMetadata
    (existsb (HasHeadlessRule isProcessHeadlessRule) rules)
    (existsb (HasHeadlessRule isWIFIHeadlessRule) rules)
    (existsb (HasHeadlessRule isIPCIDRHeadlessRule) rules)
    (existsb (HasHeadlessRule isDNSQueryTypeHeadlessRule) rules)
    (existsb (HasHeadlessRule isNonIPCIDRHeadlessRule) rules).

(** [extractIPSetFromRule]; a rule of another type panics *)
Fixpoint extractIPSetFromRule (rule : HeadlessRule) : result (list IPSet) :=
  match rule with
  | DefaultHeadlessRule r =>
      Ok (concat (map (λ item, match item with IPCIDRItem s _ _ => [s] | _ => [] end)
                    (destinationIPCIDRItems r)))
  | LogicalHeadlessRule r =>
      sets ← mapM_idx (λ _, extractIPSetFromRule) 0 (l_rules r); Ok (concat sets)
  | _ => Panic "unexpected rule type"
  end.

(** ** Route rules *)

(** [if options.IPVersion > 0 { ... }] *)
Definition when_ip_version (v : Z) (r : Rule0) : result Rule0 :=
  if 0 <? v then
    if (v =? 4) || (v =? 6) then Ok (addItem (NewIPVersionItem (v =? 6)) r)
    else Err (ENew ("invalid ip version: " +:+ pretty v)%string)
  else Ok r.

Definition geosite_removed : error :=
  ENew "geosite database is deprecated in sing-box 1.8.0 and removed in sing-box 1.12.0".
Definition geoip_removed : error :=
  ENew "geoip database is deprecated in sing-box 1.8.0 and removed in sing-box 1.12.0".
Definition match_source_removed : error :=
  ENew "rule_set_ipcidr_match_source is deprecated in sing-box 1.10.0 and removed in sing-box 1.11.0".

(** The items of [NewDefaultRule] up to the ports. *)
Definition NewDefaultRule_addressItems (o : RawDefaultRuleOptions)
    : list (Rule0 → result Rule0) :=
  [
    when (listed (r_Inbound o)) (addItem (NewInboundRule (elems (r_Inbound o))));
    when_ip_version (r_IPVersion o);
    when (listed (r_Network o)) (addItem (NewNetworkItem (elems (r_Network o))));
    when (listed (r_AuthUser o)) (addItem (NewAuthUserItem (elems (r_AuthUser o))));
    when (listed (r_Protocol o)) (addItem (NewProtocolItem (elems (r_Protocol o))));
    when (listed (r_Client o)) (addItem (NewClientItem (elems (r_Client o))));
    when_ok (listed (r_Domain o) || listed (r_DomainSuffix o))
      (NewDomainItem newMatcher (elems (r_Domain o)) (elems (r_DomainSuffix o)))
      addDestinationAddress;
    when (listed (r_DomainKeyword o))
      (addDestinationAddress (NewDomainKeywordItem (elems (r_DomainKeyword o))));
    when_ok (listed (r_DomainRegex o)) (NewDomainRegexItem (elems (r_DomainRegex o)))
      addDestinationAddress;
    refuse (listed (r_Geosite o)) geosite_removed;
    refuse (listed (r_SourceGeoIP o)) geoip_removed;
    refuse (listed (r_GeoIP o)) geoip_removed;
    when_ok (listed (r_SourceIPCIDR o))
      (cause "source_ip_cidr" (NewIPCIDRItem true (elems (r_SourceIPCIDR o)))) addSourceAddress;
    when (r_SourceIPIsPrivate o) (addSourceAddress (NewIPIsPrivateItem true));
    when_ok (listed (r_IPCIDR o))
      (cause "ipcidr" (NewIPCIDRItem false (elems (r_IPCIDR o)))) addDestinationIPCIDR;
    when (r_IPIsPrivate o) (addDestinationIPCIDR (NewIPIsPrivateItem false));
    when (listed (r_SourcePort o)) (addSourcePort (NewPortItem true (elems (r_SourcePort o))));
    when_ok (listed (r_SourcePortRange o))
      (cause "source_port_range" (NewPortRangeItem true (elems (r_SourcePortRange o))))
      addSourcePort;
    when (listed (r_Port o)) (addDestinationPort (NewPortItem false (elems (r_Port o))));
    when_ok (listed (r_PortRange o))
      (cause "port_range" (NewPortRangeItem false (elems (r_PortRange o)))) addDestinationPort
  ].

(** The items of [NewDefaultRule] from the process on. *)
Definition NewDefaultRule_otherItems (o : RawDefaultRuleOptions)
    : list (Rule0 → result Rule0) :=
  [
    when (listed (r_ProcessName o)) (addItem (NewProcessItem (elems (r_ProcessName o))));
    when (listed (r_ProcessPath o)) (addItem (NewProcessPathItem (elems (r_ProcessPath o))));
    when_ok (listed (r_ProcessPathRegex o))
      (cause "process_path_regex" (NewProcessPathRegexItem (elems (r_ProcessPathRegex o)))) addItem;
    when (listed (r_PackageName o)) (addItem (NewPackageNameItem (elems (r_PackageName o))));
    when_ok (listed (r_PackageNameRegex o))
      (cause "package_name_regex" (NewPackageNameRegexItem (elems (r_PackageNameRegex o)))) addItem;
    when (listed (r_User o)) (addItem (NewUserItem (elems (r_User o))));
    when (listed (r_UserID o)) (addItem (NewUserIDItem (elems (r_UserID o))));
    when (nonempty (r_ClashMode o)) (addItem (NewClashModeItem (r_ClashMode o)));
    when (listed (r_NetworkType o)) (addItem (NewNetworkTypeItem (elems (r_NetworkType o))));
    when (r_NetworkIsExpensive o) (addItem NewNetworkIsExpensiveItem);
    when (r_NetworkIsConstrained o) (addItem NewNetworkIsConstrainedItem);
    when (listed (r_WIFISSID o)) (addItem (NewWIFISSIDItem (elems (r_WIFISSID o))));
    when (listed (r_WIFIBSSID o)) (addItem (NewWIFIBSSIDItem (elems (r_WIFIBSSID o))));
    when (listed (r_InterfaceAddress o))
      (addItem (NewInterfaceAddressItem (elems (r_InterfaceAddress o))));
    when (listed (r_NetworkInterfaceAddress o))
      (addItem (NewNetworkInterfaceAddressItem (elems (r_NetworkInterfaceAddress o))));
    when (listed (r_DefaultInterfaceAddress o))
      (addItem (NewDefaultInterfaceAddressItem (elems (r_DefaultInterfaceAddress o))));
    when (listed (r_SourceMACAddress o))
      (addItem (NewSourceMACAddressItem (elems (r_SourceMACAddress o))));
    when (listed (r_SourceHostname o))
      (addItem (NewSourceHostnameItem (elems (r_SourceHostname o))));
    when (listed (r_PreferredBy o)) (addItem (NewPreferredByItem (elems (r_PreferredBy o))));
    refuse (listed (r_RuleSet o) && r_Deprecated_RulesetIPCIDRMatchSource o) match_source_removed;
    when (listed (r_RuleSet o))
      (setRuleSetItem (NewRuleSetItem (elems (r_RuleSet o)) (r_RuleSetIPCIDRMatchSource o)
                         false false))
  ].

(** [NewDefaultRule] after the action *)
Definition NewDefaultRule_items (o : RawDefaultRuleOptions) (act : option RuleAction)
    : result Rule0 :=
  steps (NewDefaultRule_addressItems o ++ NewDefaultRule_otherItems o)
    (emptyRule (r_Invert o) act).

(** [NewDefaultRule] *)
Definition NewDefaultRule (o : RawDefaultRuleOptions) (action : RuleActionOptions)
    : result HeadlessRule :=
  act ← map_err (λ e, ECause e "action") (NewRuleAction platformSupported action);
  r ← NewDefaultRule_items o act; Ok (DefaultRule r).

Definition nested_action_unsupported : error :=
  ENew "rule action is not supported in nested rules".

Definition ruleHasConfiguredAction (rule : RuleOptions) : bool :=
  match rule with
  | MkRuleOptions ty _ defaultAction _ _ _ logicalAction =>
      if is_default_type ty then negb (bool_decide (defaultAction = RuleActionOptionsZero))
      else if is_logical_type ty then negb (bool_decide (logicalAction = RuleActionOptionsZero))
      else false
  end.

Fixpoint validateNoNestedRuleActions (rule : RuleOptions) (nested : bool) : result unit :=
  match rule with
  | MkRuleOptions ty _ _ _ rules _ _ =>
      if nested && ruleHasConfiguredAction rule then Err nested_action_unsupported
      else if is_logical_type ty
      then iter_idx (λ i sub, sub_rule i (validateNoNestedRuleActions sub true)) 0 rules
      else Ok tt
  end.

(** [""] or ["route"]: the action that needs an outbound or a server. *)
Definition is_route_action (a : string) : bool :=
  negb (nonempty a) || bool_decide (a = "route"%string).

(** [NewRule] with [NewLogicalRule] inside *)
Fixpoint NewRule (options : RuleOptions) (checkOutbound : bool) : result HeadlessRule :=
  match options with
  | MkRuleOptions ty raw defaultAction mode rules inv logicalAction =>
      let missing a :=
        is_route_action (ra_Action a) && negb (nonempty (ro_Outbound (ra_RouteOptions a))) &&
        checkOutbound in
      if is_default_type ty then
        if negb (DefaultRule_IsValid raw defaultAction) then Err (ENew "missing conditions") else
        if missing defaultAction then Err (ENew "missing outbound field") else
        NewDefaultRule raw defaultAction
      else if is_logical_type ty then
        valid ← LogicalRule_IsValid rules;
        if negb valid then Err (ENew "missing conditions") else
        if missing logicalAction then Err (ENew "missing outbound field") else
        act ← map_err (λ e, ECause e "action") (NewRuleAction platformSupported logicalAction);
        mode ← parse_mode mode;
        subs ← mapM_idx (λ i sub,
                 sub_rule i (_ ← validateNoNestedRuleActions sub true; NewRule sub false)) 0 rules;
        Ok (LogicalRule (MkLogical subs mode inv act))
      else Err (ENew ("unknown rule type: " +:+ ty)%string)
  end.

(** ** DNS rules *)

Definition accept_empty_removed : error :=
  ENew "Legacy `rule_set_ip_cidr_accept_empty` DNS rule item is deprecated in sing-box 1.14.0 and will be removed in sing-box 1.16.0, checkout documentation for migration: https://sing-box.sagernet.org/migration/#migrate-address-filter-fields-to-response-matching".

(** [validateDNSRuleAction] *)
Definition validateDNSRuleAction (action : DNSRuleActionOptions) : result unit :=
  let a := da_Action action in
  if bool_decide (a = "reject"%string) &&
     bool_decide (rj_Method (da_RejectOptions action) = "reply"%string)
  then Err (ENew "reject method `reply` is not supported for DNS rules") else
  let routeOptions :=
    if is_route_action a then dr_Abstract (da_RouteOptions action)
    else if bool_decide (a = "evaluate"%string) then de_Abstract (da_EvaluateOptions action)
    else if bool_decide (a = "route-options"%string) then da_RouteOptionsOptions action
    else AbstractDNSOptionsZero in
  if d_RemoveClientSubnet routeOptions && is_set (d_ClientSubnet routeOptions)
  then Err (ENew "`client_subnet` and `remove_client_subnet` are mutually exclusive") else
  if da_Race action then
    if negb (is_route_action a || mem a ["respond"; "reject"; "predefined"]%string)
    then Err (ENew "`race` requires a final action")
    else if dr_Speculative (da_RouteOptions action)
    then Err (ENew "`race` and `speculative` cannot be combined on the same rule")
    else Ok tt
  else Ok tt.

(** The items of [NewDefaultDNSRule] up to the ports. *)
Definition NewDefaultDNSRule_addressItems (o : RawDefaultDNSRuleOptions)
    : list (Rule0 → result Rule0) :=
  [
    when (listed (n_Inbound o)) (addItem (NewInboundRule (elems (n_Inbound o))));
    when_ip_version (n_IPVersion o);
    when (listed (n_QueryType o)) (addItem (NewQueryTypeItem (elems (n_QueryType o))));
    when (listed (n_QueryClientSubnet o))
      (addItem (NewQueryClientSubnetItem (elems (n_QueryClientSubnet o))));
    when (n_QueryDNSSEC o) (addItem NewQueryDNSSECItem);
    when (listed (n_Network o)) (addItem (NewNetworkItem (elems (n_Network o))));
    when (listed (n_AuthUser o)) (addItem (NewAuthUserItem (elems (n_AuthUser o))));
    when (listed (n_Protocol o)) (addItem (NewProtocolItem (elems (n_Protocol o))));
    when_ok (listed (n_Domain o) || listed (n_DomainSuffix o))
      (NewDomainItem newMatcher (elems (n_Domain o)) (elems (n_DomainSuffix o)))
      addDestinationAddress;
    when (listed (n_DomainKeyword o))
      (addDestinationAddress (NewDomainKeywordItem (elems (n_DomainKeyword o))));
    when_ok (listed (n_DomainRegex o))
      (cause "domain_regex" (NewDomainRegexItem (elems (n_DomainRegex o)))) addDestinationAddress;
    refuse (listed (n_Geosite o)) geosite_removed;
    refuse (listed (n_SourceGeoIP o)) geoip_removed;
    refuse (listed (n_GeoIP o)) geoip_removed;
    when_ok (listed (n_SourceIPCIDR o))
      (cause "source_ip_cidr" (NewIPCIDRItem true (elems (n_SourceIPCIDR o)))) addSourceAddress;
    when_ok (listed (n_IPCIDR o))
      (cause "ip_cidr" (NewIPCIDRItem false (elems (n_IPCIDR o)))) addDestinationIPCIDR;
    when (n_SourceIPIsPrivate o) (addSourceAddress (NewIPIsPrivateItem true));
    when (n_IPIsPrivate o) (addDestinationIPCIDR (NewIPIsPrivateItem false));
    when (n_IPAcceptAny o) (addDestinationIPCIDR NewIPAcceptAnyItem);
    (λ r, match n_ResponseRcode o with
          | Some rcode => Ok (addItem (NewDNSResponseRCodeItem rcode) r)
          | None => Ok r
          end);
    when (listed (n_ResponseAnswer o))
      (addItem (NewDNSResponseRecordItem "response_answer" (elems (n_ResponseAnswer o))
                  dnsResponseAnswers));
    when (listed (n_ResponseNs o))
      (addItem (NewDNSResponseRecordItem "response_ns" (elems (n_ResponseNs o)) dnsResponseNS));
    when (listed (n_ResponseExtra o))
      (addItem (NewDNSResponseRecordItem "response_extra" (elems (n_ResponseExtra o))
                  dnsResponseExtra));
    when (listed (n_SourcePort o)) (addSourcePort (NewPortItem true (elems (n_SourcePort o))));
    when_ok (listed (n_SourcePortRange o))
      (cause "source_port_range" (NewPortRangeItem true (elems (n_SourcePortRange o))))
      addSourcePort;
    when (listed (n_Port o)) (addDestinationPort (NewPortItem false (elems (n_Port o))));
    when_ok (listed (n_PortRange o))
      (cause "port_range" (NewPortRangeItem false (elems (n_PortRange o)))) addDestinationPort
  ].

(** The items of [NewDefaultDNSRule] from the process on. *)
Definition NewDefaultDNSRule_otherItems (o : RawDefaultDNSRuleOptions) (legacyDNSMode : bool)
    : list (Rule0 → result Rule0) :=
  [
    when (listed (n_ProcessName o)) (addItem (NewProcessItem (elems (n_ProcessName o))));
    when (listed (n_ProcessPath o)) (addItem (NewProcessPathItem (elems (n_ProcessPath o))));
    when_ok (listed (n_ProcessPathRegex o))
      (cause "process_path_regex" (NewProcessPathRegexItem (elems (n_ProcessPathRegex o)))) addItem;
    when (listed (n_PackageName o)) (addItem (NewPackageNameItem (elems (n_PackageName o))));
    when_ok (listed (n_PackageNameRegex o))
      (cause "package_name_regex" (NewPackageNameRegexItem (elems (n_PackageNameRegex o)))) addItem;
    when (listed (n_User o)) (addItem (NewUserItem (elems (n_User o))));
    when (listed (n_UserID o)) (addItem (NewUserIDItem (elems (n_UserID o))));
    when (listed (n_Outbound o)) (addItem (NewOutboundRule (elems (n_Outbound o))));
    when (nonempty (n_ClashMode o)) (addItem (NewClashModeItem (n_ClashMode o)));
    when (listed (n_NetworkType o)) (addItem (NewNetworkTypeItem (elems (n_NetworkType o))));
    when (n_NetworkIsExpensive o) (addItem NewNetworkIsExpensiveItem);
    when (n_NetworkIsConstrained o) (addItem NewNetworkIsConstrainedItem);
    when (listed (n_WIFISSID o)) (addItem (NewWIFISSIDItem (elems (n_WIFISSID o))));
    when (listed (n_WIFIBSSID o)) (addItem (NewWIFIBSSIDItem (elems (n_WIFIBSSID o))));
    when (listed (n_InterfaceAddress o))
      (addItem (NewInterfaceAddressItem (elems (n_InterfaceAddress o))));
    when (listed (n_NetworkInterfaceAddress o))
      (addItem (NewNetworkInterfaceAddressItem (elems (n_NetworkInterfaceAddress o))));
    when (listed (n_DefaultInterfaceAddress o))
      (addItem (NewDefaultInterfaceAddressItem (elems (n_DefaultInterfaceAddress o))));
    when (listed (n_SourceMACAddress o))
      (addItem (NewSourceMACAddressItem (elems (n_SourceMACAddress o))));
    when (listed (n_SourceHostname o))
      (addItem (NewSourceHostnameItem (elems (n_SourceHostname o))));
    when (listed (n_PreferredBy o)) (addItem (NewPreferredByDNSItem (elems (n_PreferredBy o))));
    refuse (n_RuleSetIPCIDRAcceptEmpty o && negb legacyDNSMode) accept_empty_removed;
    refuse (listed (n_RuleSet o) && n_Deprecated_RulesetIPCIDRMatchSource o) match_source_removed;
    when (listed (n_RuleSet o))
      (setRuleSetItem (NewRuleSetItem (elems (n_RuleSet o)) (n_RuleSetIPCIDRMatchSource o)
                         (n_RuleSetIPCIDRAcceptEmpty o) (n_RuleSetDomainOnly o)))
  ].

(** [NewDefaultDNSRule] after the action *)
Definition NewDefaultDNSRule_items (o : RawDefaultDNSRuleOptions) (act : option RuleAction)
    (legacyDNSMode : bool) : result Rule0 :=
  steps (NewDefaultDNSRule_addressItems o ++ NewDefaultDNSRule_otherItems o legacyDNSMode)
    (emptyRule (n_Invert o) act).

(** [NewDefaultDNSRule] *)
Definition NewDefaultDNSRule (o : RawDefaultDNSRuleOptions) (action : DNSRuleActionOptions)
    (legacyDNSMode : bool) : result HeadlessRule :=
  act ← NewDNSRuleAction action;
  r ← NewDefaultDNSRule_items o act legacyDNSMode;
  Ok (DefaultDNSRule r (MatchResponse_IsEnabled (n_MatchResponse o))
        (MatchResponse_ResponseTag (n_MatchResponse o)) (da_Race action)).

Definition dns_nested_action_unsupported : error :=
  ENew "DNS rule action is not supported in nested rules".

Definition dnsRuleHasConfiguredAction (rule : DNSRuleOptions) : bool :=
  match rule with
  | MkDNSRuleOptions ty _ defaultAction _ _ _ logicalAction =>
      if is_default_type ty then negb (bool_decide (defaultAction = DNSRuleActionOptionsZero))
      else if is_logical_type ty
      then negb (bool_decide (logicalAction = DNSRuleActionOptionsZero))
      else false
  end.

Fixpoint validateNoNestedDNSRuleActions (rule : DNSRuleOptions) (nested : bool) : result unit :=
  match rule with
  | MkDNSRuleOptions ty _ _ _ rules _ _ =>
      if nested && dnsRuleHasConfiguredAction rule then Err dns_nested_action_unsupported
      else if is_logical_type ty
      then iter_idx (λ i sub, sub_rule i (validateNoNestedDNSRuleActions sub true)) 0 rules
      else Ok tt
  end.

(** The [MatchResponseTags] and [MatchResponseAnonymous] methods *)
Definition MatchResponseTags (rule : HeadlessRule) : list string :=
  match rule with
  | DefaultDNSRule _ _ tag _ => if nonempty tag then [tag] else []
  | LogicalDNSRule _ tags _ _ => tags
  | _ => []
  end.
Definition MatchResponseAnonymous (rule : HeadlessRule) : bool :=
  match rule with
  | DefaultDNSRule _ enabled tag _ => enabled && negb (nonempty tag)
  | LogicalDNSRule _ _ anonymous _ => anonymous
  | _ => false
  end.

(** [common.Uniq]: the first occurrence of every element *)
Fixpoint common_Uniq (seen : list string) (l : list string) : list string :=
  match l with
  | [] => []
  | x :: l => if mem x seen then common_Uniq seen l else x :: common_Uniq (x :: seen) l
  end.

(** What [NewDNSRule] asks of an action before it builds the rule. *)
Definition check_dns_action (action : DNSRuleActionOptions) (checkServer : bool) : result unit :=
  let a := da_Action action in
  if is_route_action a then
    guard_err (negb (nonempty (dr_Server (da_RouteOptions action))) && checkServer)
      (ENew "missing server field")
  else if bool_decide (a = "evaluate"%string) then
    guard_err (negb (nonempty (de_Server (da_EvaluateOptions action))) && checkServer)
      (ENew "missing server field")
  else Ok tt.

Definition check_evaluate (action : DNSRuleActionOptions) (checkServer : bool) : result unit :=
  guard_err (negb checkServer && bool_decide (da_Action action = "evaluate"%string))
    (ENew (da_Action action +:+ " is only allowed on top-level DNS rules")%string).

(** [NewDNSRule] with [NewLogicalDNSRule] inside *)
Fixpoint NewDNSRule (options : DNSRuleOptions) (checkServer legacyDNSMode : bool)
    : result HeadlessRule :=
  match options with
  | MkDNSRuleOptions ty raw defaultAction mode rules inv logicalAction =>
      if is_default_type ty then
        if negb (DefaultDNSRule_IsValid raw defaultAction)
        then Err (ENew "missing conditions") else
        _ ← check_evaluate defaultAction checkServer;
        _ ← validateDNSRuleAction defaultAction;
        if da_Race defaultAction && negb (MatchResponse_IsEnabled (n_MatchResponse raw))
        then Err (ENew "`race` requires `match_response`") else
        _ ← check_dns_action defaultAction checkServer;
        NewDefaultDNSRule raw defaultAction legacyDNSMode
      else if is_logical_type ty then
        valid ← LogicalDNSRule_IsValid rules;
        if negb valid then Err (ENew "missing conditions") else
        _ ← check_evaluate logicalAction checkServer;
        _ ← validateDNSRuleAction logicalAction;
        _ ← check_dns_action logicalAction checkServer;
        act ← NewDNSRuleAction logicalAction;
        mode ← parse_mode mode;
        subs ← mapM_idx (λ i sub,
                 sub_rule i (_ ← validateNoNestedDNSRuleActions sub true;
                             NewDNSRule sub false legacyDNSMode)) 0 rules;
        let tags := common_Uniq [] (concat (map MatchResponseTags subs)) in
        let anonymous := existsb MatchResponseAnonymous subs in
        if da_Race logicalAction && negb (has_items tags) && negb anonymous
        then Err (ENew "`race` requires `match_response` in sub-rules") else
        Ok (LogicalDNSRule (MkLogical subs mode inv act) tags anonymous (da_Race logicalAction))
      else Err (ENew ("unknown rule type: " +:+ ty)%string)
  end.

End Build.

(** ** Loading a rule-set: [LocalRuleSet.reloadRules]

    [validate] is [validateRuleSetMetadataUpdate] for the tag of the set. A failed
    reload leaves the set as it was; the exported prefixes and the callbacks are not
    part of the model. *)
Record LocalRuleSet `{Extern} : Type := MkLocalRuleSet {
  ls_tag : string;
  ls_rules : list HeadlessRule;
  ls_metadata : RuleSetMetadata;
  ls_contentFormat : string;
  ls_revision : Z;
  ls_refs : Z;
}.
Arguments MkLocalRuleSet {_}.
Arguments ls_tag {_}.
Arguments ls_rules {_}.
Arguments ls_metadata {_}.
Arguments ls_contentFormat {_}.
Arguments ls_revision {_}.
Arguments ls_refs {_}.

Section Load.
Context `{Extern}.
Variable newMatcher : list string → list string → result Matcher.
Variable networkManager : bool.
Variable validate : RuleSetMetadata → result unit.

Definition buildRules (headlessRules : list HeadlessRuleOptions) : result (list HeadlessRule) :=
  mapM_idx (λ i ruleOptions,
    map_err (λ e, ECause e ("parse rule_set.rules.[" +:+ pretty (Z.of_nat i) +:+ "]")%string)
      (NewHeadlessRule newMatcher networkManager ruleOptions)) 0 headlessRules.

Definition reloadRules (s : LocalRuleSet) (headlessRules : list HeadlessRuleOptions)
    (contentFormat : string) : result unit * LocalRuleSet :=
  match buildRules headlessRules with
  | Ok rules =>
      let metadata := buildRuleSetMetadata headlessRules in
      match validate metadata with
      | Ok _ =>
          (Ok tt, MkLocalRuleSet (ls_tag s) rules metadata contentFormat
                    (u64 (ls_revision s + 1)) (ls_refs s))
      | Err e => (Err e, s)
      | Panic m => (Panic m, s)
      end
  | Err e => (Err e, s)
  | Panic m => (Panic m, s)
  end.

(** [IncRef], [DecRef] on the 32-bit counter, [Cleanup], [Close] *)
Definition set_refs (s : LocalRuleSet) (n : Z) : LocalRuleSet :=
  MkLocalRuleSet (ls_tag s) (ls_rules s) (ls_metadata s) (ls_contentFormat s) (ls_revision s) n.
Definition set_rules (s : LocalRuleSet) (l : list HeadlessRule) : LocalRuleSet :=
  MkLocalRuleSet (ls_tag s) l (ls_metadata s) (ls_contentFormat s) (ls_revision s) (ls_refs s).

Definition IncRef (s : LocalRuleSet) : LocalRuleSet := set_refs s (int32 (ls_refs s + 1)).
Definition DecRef (s : LocalRuleSet) : result LocalRuleSet :=
  let refs := int32 (ls_refs s - 1) in
  if refs <? 0 then Panic "rule-set: negative refs" else Ok (set_refs s refs).
Definition Cleanup (s : LocalRuleSet) : LocalRuleSet :=
  if ls_refs s =? 0 then set_rules s [] else s.
Definition Close (s : LocalRuleSet) : LocalRuleSet := set_rules s [].

(** ** [RuleSetItem.Start] and [Close] on the rule-sets of the router

    An item holds references to the sets of the router; here [setList] of an item
    that is started is a list of tags, and the router is a map from tags to sets. *)
Abbreviation Sets := (gmap string LocalRuleSet).

Fixpoint closeSets (setList : list string) (sets : Sets) : result Sets :=
  match setList with
  | [] => Ok sets
  | tag :: setList =>
      match sets !! tag with
      | Some s => s ← DecRef s; closeSets setList (<[tag := s]> sets)
      | None => closeSets setList sets
      end
  end.

(** [RuleSetItem.Close] *)
Definition RuleSetItem_Close (setList : list string) (sets : Sets) : result (list string * Sets) :=
  sets ← closeSets setList sets; Ok ([], sets).

(** The loop of [RuleSetItem.Start]: the error of a missing set, with the sets
    taken so far. *)
Fixpoint startSets (tags : list string) (setList : list string) (sets : Sets)
    : option error * list string * Sets :=
  match tags with
  | [] => (None, setList, sets)
  | tag :: tags =>
      match sets !! tag with
      | None => (Some (ENew ("rule-set not found: " +:+ tag)%string), setList, sets)
      | Some s => startSets tags (setList ++ [tag]) (<[tag := IncRef s]> sets)
      end
  end.

Definition RuleSetItem_Start (tagList setList : list string) (sets : Sets)
    : result (option error * list string * Sets) :=
  '(setList, sets) ← RuleSetItem_Close setList sets;
  match startSets tagList setList sets with
  | (None, setList, sets) => Ok (None, setList, sets)
  | (Some e, setList, sets) =>
      '(setList, sets) ← RuleSetItem_Close setList sets; Ok (Some e, setList, sets)
  end.

End Load.
