(* ===== verification/RuleBuildFacts.v ===== *)
(** * What the constructors of rules guarantee

    Every rule that is built has coherent groups; nested rules carry no action;
    the metadata of a rule-set is sound for its rules, so that a DNS rule without
    an address limit never depends on the addresses of a response; the references
    to rule-sets are counted without ever going negative. *)
From stdpp Require Import base list strings gmap sets.
From S2P Require Import Prelude Netip Metadata RuleItems RuleAction RuleMatch RuleSpec RuleGroups RuleRefine Concrete RuleTheorems RuleOptions RuleBuild.

(** Solve [step_keeps P f] for a step of one of the constructors, [tac] for a step
    that adds to the rule. *)
Ltac solve_step tac :=
  let E := fresh "E" in
  let HP := fresh "HP" in
  intros ? ? E HP; unfold when, when_ok, refuse, when_ip_version in E;
  repeat match type of E with
  | (if ?b then _ else _) = _ => destruct b eqn:?
  | match ?m with Some _ => _ | None => _ end = _ => destruct m eqn:?
  | (?m ≫= _) = _ => destruct m eqn:?; cbn in E
  end; try discriminate E; injection E as <-; repeat case_match; first [exact HP | tac].

Ltac solve_steps tac :=
  repeat (apply Forall_cons_2; [solve_step tac|]); apply Forall_nil_2.

Section Facts.
Context `{Extern}.
Variable newMatcher : list string → list string → result Matcher.
Variable platformSupported : bool.
Variable networkManager : bool.
Abbreviation Rule0 := (abstractDefaultRule HeadlessRule).

(** ** Induction over the steps of a constructor *)

Definition step_keeps (P : Rule0 → Prop) (f : Rule0 → result Rule0) : Prop :=
  ∀ r r', f r = Ok r' → P r → P r'.

Lemma steps_Ok l r r' :
  steps l r = Ok r' → ∀ P, P r → Forall (step_keeps P) l → P r'.
Proof.
  unfold steps. revert r. induction l as [|f l IH]; intros r; cbn; [by intros [=<-]|].
  intros E P HP [Hf Hl]%Forall_cons. destruct (f r) as [r1|e|m] eqn:Ef; cbn in E.
  - by apply (IH r1 E P); [apply (Hf r)|].
  - exfalso. clear -E. induction l as [|g l IH]; cbn in E; [done|auto].
  - exfalso. clear -E. induction l as [|g l IH]; cbn in E; [done|auto].
Qed.

(** ** Coherent groups *)

Definition group_list (r : Rule0) : list RuleItem :=
  items r ++ sourceAddressItems r ++ sourcePortItems r ++ destinationAddressItems r ++
  destinationIPCIDRItems r ++ destinationPortItems r.

(** [allItems] holds the items of the groups and the rule-set item, no others. *)
Definition coherent (r : Rule0) : Prop :=
  (∀ item, PlainItem item ∈ allItems r ↔ item ∈ group_list r) ∧
  (TheRuleSetItem ∈ allItems r ↔ ruleSetItem r ≠ None).

Lemma coherent_empty inv act : coherent (emptyRule inv act).
Proof. split; cbn; [set_solver|]. split; [set_solver|done]. Qed.

Lemma coherent_add item (r : Rule0) :
  coherent r →
  coherent (addItem item r) ∧ coherent (addSourceAddress item r) ∧
  coherent (addSourcePort item r) ∧ coherent (addDestinationAddress item r) ∧
  coherent (addDestinationIPCIDR item r) ∧ coherent (addDestinationPort item r).
Proof.
  intros [H1 H2]. unfold coherent, group_list in *; cbn.
  split_and!; [intros i; specialize (H1 i)|rewrite <- H2|intros i; specialize (H1 i)
    |rewrite <- H2|intros i; specialize (H1 i)|rewrite <- H2|intros i; specialize (H1 i)
    |rewrite <- H2|intros i; specialize (H1 i)|rewrite <- H2|intros i; specialize (H1 i)
    |rewrite <- H2]; set_solver.
Qed.

Lemma coherent_ruleSet item (r : Rule0) : coherent r → coherent (setRuleSetItem item r).
Proof.
  intros [H1 H2]. split; cbn.
  - intros i. specialize (H1 i). unfold group_list in *; cbn. set_solver.
  - split; [done|]. set_solver.
Qed.

Ltac coherent_tac :=
  first [ apply coherent_ruleSet; assumption
        | match goal with HP : coherent ?r |- _ => apply (coherent_add _ _ HP) end ].

Lemma NewDefaultHeadlessRule_coherent o r :
  NewDefaultHeadlessRule newMatcher networkManager o = Ok r → coherent r.
Proof.
  intros E. apply (steps_Ok _ _ _ E); [apply coherent_empty|]. solve_steps coherent_tac.
Qed.

Lemma NewDefaultRule_coherent o act r :
  NewDefaultRule_items newMatcher o act = Ok r → coherent r.
Proof.
  intros E. apply (steps_Ok _ _ _ E); [apply coherent_empty|]. solve_steps coherent_tac.
Qed.

Lemma NewDefaultDNSRule_coherent o act legacy r :
  NewDefaultDNSRule_items newMatcher o act legacy = Ok r → coherent r.
Proof.
  intros E. apply (steps_Ok _ _ _ E); [apply coherent_empty|]. solve_steps coherent_tac.
Qed.

(** With coherent groups, a rule without items has no conditions at all. *)
Lemma coherent_no_items (r : Rule0) :
  coherent r → has_items (allItems r) = false → group_list r = [] ∧ ruleSetItem r = None.
Proof.
  intros [H1 H2] E%has_items_false. rewrite E in H1, H2. split.
  - destruct (group_list r) as [|i l] eqn:El; [done|]. exfalso.
    assert (PlainItem i ∈ ([] : list anyItem)) by (apply H1; by left). set_solver.
  - destruct (ruleSetItem r); [|done]. exfalso.
    assert (TheRuleSetItem ∈ ([] : list anyItem)) by (by apply H2). set_solver.
Qed.

(** ** Headless rules *)

(** What a constructor of default rules keeps from its start. *)
Definition same_head (inv : bool) (act : option RuleAction) (r : Rule0) : Prop :=
  invert r = inv ∧ action r = act.

Lemma NewDefaultHeadlessRule_head o r :
  NewDefaultHeadlessRule newMatcher networkManager o = Ok r →
  same_head (h_Invert o) None r ∧ ruleSetItem r = None.
Proof.
  intros E. apply (steps_Ok _ _ _ E (λ r, same_head (h_Invert o) None r ∧ ruleSetItem r = None));
    [by split|]. solve_steps ltac:(exact HP).
Qed.

Lemma NewDefaultHeadlessRule_no_cidr o r :
  isIPCIDRHeadlessRule o = false →
  NewDefaultHeadlessRule newMatcher networkManager o = Ok r → destinationIPCIDRItems r = [].
Proof.
  intros [H1 H2]%orb_false_iff E.
  apply (steps_Ok _ _ _ E (λ r, destinationIPCIDRItems r = [])); [done|].
  unfold is_set in H2. unfold NewDefaultHeadlessRule_addressItems. rewrite H1. destruct (h_IPSet o); [done|].
  solve_steps ltac:(exact HP).
Qed.

Lemma HeadlessRuleOptions_nested_ind (P : HeadlessRuleOptions → Prop) :
  (∀ ty d mode rules inv, Forall P rules → P (MkHeadlessRuleOptions ty d mode rules inv)) →
  ∀ o, P o.
Proof.
  intros Hstep. fix IH 1. intros [ty d mode rules inv]. apply Hstep.
  induction rules as [|x rules IHr]; [apply Forall_nil_2|apply Forall_cons_2; [apply IH|exact IHr]].
Qed.

(** The types a decoder sets. *)
Fixpoint typed (o : HeadlessRuleOptions) : bool :=
  match o with
  | MkHeadlessRuleOptions ty _ _ rules _ =>
      bool_decide (ty = "default"%string) || is_logical_type ty && forallb typed rules
  end.

(** The rules a rule-set can hold. *)
Fixpoint headless_tree (rule : HeadlessRule) : bool :=
  match rule with
  | DefaultHeadlessRule r => negb (is_set (ruleSetItem r))
  | LogicalHeadlessRule r => forallb headless_tree (l_rules r)
  | _ => false
  end.

Lemma Forall2_forallb_r {A B} (f : B → bool) (R : A → B → Prop) l k :
  Forall2 R l k → (∀ x y, x ∈ l → R x y → f y = true) → forallb f k = true.
Proof.
  induction 1 as [|x y l k HR HF IH]; intros Hf; cbn; [done|].
  rewrite (Hf x y); [|by left|done]. apply IH. intros x' y' Hx. apply Hf. by right.
Qed.

Lemma Forall2_existsb_r {A B} (f : B → bool) (R : A → B → Prop) l k :
  Forall2 R l k → (∀ x y, x ∈ l → R x y → f y = false) → existsb f k = false.
Proof.
  induction 1 as [|x y l k HR HF IH]; intros Hf; cbn; [done|].
  rewrite (Hf x y); [|by left|done]. apply IH. intros x' y' Hx. apply Hf. by right.
Qed.

Lemma map_err_Ok {A} f (m : result A) a : map_err f m = Ok a → m = Ok a.
Proof. by destruct m. Qed.

(** The two shapes of a headless rule that was built. *)
Lemma NewHeadlessRule_cases ty d mode rules inv rule :
  NewHeadlessRule newMatcher networkManager (MkHeadlessRuleOptions ty d mode rules inv) = Ok rule →
  (is_default_type ty = true ∧
   ∃ r, NewDefaultHeadlessRule newMatcher networkManager d = Ok r ∧ rule = DefaultHeadlessRule r) ∨
  (is_logical_type ty = true ∧ is_default_type ty = false ∧
   ∃ subs m, Forall2 (λ o sub, NewHeadlessRule newMatcher networkManager o = Ok sub) rules subs ∧
     rule = LogicalHeadlessRule (MkLogical subs m inv None)).
Proof.
  cbn [NewHeadlessRule]. destruct (is_default_type ty) eqn:Ety.
  - destruct (negb _); [done|]. intros Hm. left. split; [done|]. go_inv. eauto.
  - destruct (is_logical_type ty) eqn:El; [|done]. intros Hm. right.
    split_and!; [done|done|]. go_inv; [|discriminate]. eexists _, _. split; [|done].
    match goal with Hmap : mapM_idx _ _ _ = Ok _ |- _ =>
      apply mapM_idx_Forall2 in Hmap; eapply Forall2_impl; [exact Hmap|] end.
    intros x y [j Hj]. by apply map_err_Ok in Hj.
Qed.

Lemma NewHeadlessRule_tree o : ∀ rule,
  NewHeadlessRule newMatcher networkManager o = Ok rule → headless_tree rule = true.
Proof.
  induction o as [ty d mode rules inv IH] using HeadlessRuleOptions_nested_ind. intros rule E.
  destruct (NewHeadlessRule_cases _ _ _ _ _ _ E)
    as [(_ & r & Hr & ->)|(_ & _ & subs & m & Hs & ->)]; cbn.
  - by rewrite (proj2 (NewDefaultHeadlessRule_head _ _ Hr)).
  - apply (Forall2_forallb_r _ _ _ _ Hs). intros x y Hx. rewrite Forall_forall in IH.
    apply (IH x Hx).
Qed.

Lemma NewHeadlessRule_no_cidr o : ∀ rule source,
  typed o = true → HasHeadlessRule isIPCIDRHeadlessRule o = false →
  NewHeadlessRule newMatcher networkManager o = Ok rule → defers source rule = false.
Proof.
  induction o as [ty d mode rules inv IH] using HeadlessRuleOptions_nested_ind.
  intros rule source Ht Hh E.
  destruct (NewHeadlessRule_cases _ _ _ _ _ _ E)
    as [(Hd & r & Hr & ->)|(Hl & Hd & subs & m & Hs & ->)]; cbn [typed HasHeadlessRule] in *.
  - unfold is_default_type in Hd. unfold is_logical_type in Ht. case_bool_decide; cycle 1.
    { case_bool_decide; [|done]. by subst ty. }
    cbn [defers]. rewrite (proj2 (NewDefaultHeadlessRule_head _ _ Hr)).
    unfold node_defers. rewrite (NewDefaultHeadlessRule_no_cidr _ _ Hh Hr).
    by rewrite andb_false_r.
  - assert (ty ≠ "default"%string) as Hne
      by (intros ->; by cbn in Hd). rewrite bool_decide_eq_false_2 in Ht, Hh by done.
    rewrite Hl in Ht, Hh. cbn in Ht. cbn [defers l_rules].
    apply (Forall2_existsb_r _ _ _ _ Hs). intros x y Hx Hy. rewrite Forall_forall in IH.
    apply (IH x Hx); [| |done].
    + rewrite forallb_forall in Ht. by apply Ht, list_elem_of_In.
    + apply not_true_iff_false. intros Hxt. apply not_true_iff_false in Hh. apply Hh.
      apply existsb_exists. exists x. by rewrite <- list_elem_of_In.
Qed.

(** ** Rule-sets as [reloadRules] leaves them *)

Definition loaded (s : RuleSet) : Prop :=
  ∃ options, forallb typed options = true ∧
    buildRules newMatcher networkManager options = Ok (rs_rules s) ∧
    rs_metadata s = buildRuleSetMetadata options.

Definition default_only (s : RuleSet) : bool :=
  forallb (λ rule, match rule with DefaultHeadlessRule _ => true | _ => false end) (rs_rules s).

(** The sets of an item are loaded; with [rule_set_ip_cidr_match_source] they have no
    logical rules. *)
Definition item_loaded (item : RuleSetItem) : Prop :=
  Forall loaded (setList item) ∧
  (ipCidrMatchSource item = true → forallb default_only (setList item) = true).

Inductive dns_loaded : HeadlessRule → Prop :=
| dns_loaded_default r matchResponse tag race :
    (∀ item, ruleSetItem r = Some item → item_loaded item) →
    dns_loaded (DefaultDNSRule r matchResponse tag race)
| dns_loaded_logical r tags anonymous race :
    Forall dns_loaded (l_rules r) → dns_loaded (LogicalDNSRule r tags anonymous race).

Lemma buildRules_Forall2 options rules :
  buildRules newMatcher networkManager options = Ok rules →
  Forall2 (λ o rule, NewHeadlessRule newMatcher networkManager o = Ok rule) options rules.
Proof.
  intros E%mapM_idx_Forall2. eapply Forall2_impl; [exact E|].
  intros x y [j Hj]. by apply map_err_Ok in Hj.
Qed.

Lemma loaded_no_cidr s source :
  loaded s → ContainsIPCIDRRule (rs_metadata s) = false →
  existsb (defers source) (rs_rules s) = false.
Proof.
  intros (options & Ht & Hb%buildRules_Forall2 & ->) Hm. cbn in Hm.
  apply (Forall2_existsb_r _ _ _ _ Hb). intros x y Hx Hy.
  rewrite forallb_forall in Ht. apply list_elem_of_In in Hx.
  apply (NewHeadlessRule_no_cidr x); [auto| |done].
  apply not_true_iff_false. intros Hxt. apply not_true_iff_false in Hm. apply Hm.
  apply existsb_exists. eauto.
Qed.

Lemma loaded_match_source s :
  loaded s → default_only s = true → existsb (defers true) (rs_rules s) = false.
Proof.
  intros (options & _ & Hb%buildRules_Forall2 & _) Hd. unfold default_only in Hd.
  apply not_true_iff_false. intros (rule & Hin & Hdef)%existsb_exists.
  rewrite forallb_forall in Hd. specialize (Hd _ Hin). destruct rule as [|r| | | |]; try done.
  assert (headless_tree (DefaultHeadlessRule r) = true) as Hh.
  { apply list_elem_of_In in Hin. apply list_elem_of_lookup_1 in Hin as [k Hk].
    destruct (Forall2_lookup_r _ _ _ _ _ Hb Hk) as (o & _ & Ho). by apply (NewHeadlessRule_tree o). }
  cbn in Hh, Hdef. by destruct (ruleSetItem r).
Qed.

Lemma item_no_limit item :
  item_loaded item → domainOnly item = false → ContainsDestinationIPCIDRRule item = false →
  existsb (λ s, existsb (defers (ipCidrMatchSource item)) (rs_rules s)) (setList item) = false.
Proof.
  intros [Hall Hsrc] Hd. unfold ContainsDestinationIPCIDRRule. rewrite Hd, orb_false_r.
  intros Hc. apply not_true_iff_false. intros (s & Hin & Hs)%existsb_exists.
  pose proof Hin as Hin'. apply list_elem_of_In in Hin'. rewrite Forall_forall in Hall.
  specialize (Hall s Hin'). destruct (ipCidrMatchSource item).
  - specialize (Hsrc eq_refl). rewrite forallb_forall in Hsrc.
    by rewrite (loaded_match_source s Hall (Hsrc s Hin)) in Hs.
  - rewrite (loaded_no_cidr s false Hall) in Hs; [done|].
    apply not_true_iff_false. intros Hm. apply not_true_iff_false in Hc. apply Hc.
    apply existsb_exists. eauto.
Qed.

(** A DNS rule without an address limit can defer nothing. *)
Lemma WithAddressLimit_defers rule :
  dns_loaded rule → no_domain_only rule = true → WithAddressLimit rule = false →
  defers false rule = false.
Proof.
  induction rule as [rule IH] using HeadlessRule_nested_ind. intros Hl Hn Hw.
  destruct Hl as [r mr tag race Hitem|r tags an race Hl]; cbn in *.
  - apply andb_true_iff in Hn as [Hfull _]. unfold item_full in Hfull.
    destruct (has_items (destinationIPCIDRItems r)) eqn:E; [done|].
    unfold node_defers. rewrite E. cbn. destruct (ruleSetItem r) as [item|]; [|done].
    apply item_no_limit; [auto|by apply negb_true_iff|done].
  - apply not_true_iff_false. intros (sub & Hin & Hd)%existsb_exists.
    pose proof Hin as Hin'. apply list_elem_of_In in Hin'.
    rewrite Forall_forall in IH, Hl. rewrite forallb_forall in Hn.
    rewrite (IH sub Hin' (Hl sub Hin') (Hn sub Hin)) in Hd; [done|].
    apply not_true_iff_false. intros Hs. apply not_true_iff_false in Hw. apply Hw.
    apply existsb_exists. eauto.
Qed.

(** ** Actions of nested rules *)

Definition rule_action (rule : HeadlessRule) : option RuleAction :=
  match rule with
  | DefaultRule r | DefaultHeadlessRule r | DefaultDNSRule r _ _ _ => action r
  | LogicalRule r | LogicalHeadlessRule r | LogicalDNSRule r _ _ _ => l_action r
  end.

(** No action in the rule nor in the branches of a logical rule. *)
Fixpoint actionless (rule : HeadlessRule) : bool :=
  negb (is_set (rule_action rule)) &&
  match rule with
  | LogicalRule r | LogicalHeadlessRule r | LogicalDNSRule r _ _ _ => forallb actionless (l_rules r)
  | _ => true
  end.

Lemma RuleOptions_nested_ind (P : RuleOptions → Prop) :
  (∀ ty d a mode rules inv la, Forall P rules → P (MkRuleOptions ty d a mode rules inv la)) →
  ∀ o, P o.
Proof.
  intros Hstep. fix IH 1. intros [ty d a mode rules inv la]. apply Hstep.
  induction rules as [|x rules IHr]; [apply Forall_nil_2|apply Forall_cons_2; [apply IH|exact IHr]].
Qed.

Lemma DNSRuleOptions_nested_ind (P : DNSRuleOptions → Prop) :
  (∀ ty d a mode rules inv la, Forall P rules → P (MkDNSRuleOptions ty d a mode rules inv la)) →
  ∀ o, P o.
Proof.
  intros Hstep. fix IH 1. intros [ty d a mode rules inv la]. apply Hstep.
  induction rules as [|x rules IHr]; [apply Forall_nil_2|apply Forall_cons_2; [apply IH|exact IHr]].
Qed.

Lemma NewDefaultRule_head o act r :
  NewDefaultRule_items newMatcher o act = Ok r → same_head (r_Invert o) act r.
Proof.
  intros E. apply (steps_Ok _ _ _ E); [by split|]. solve_steps ltac:(exact HP).
Qed.

Lemma NewDefaultDNSRule_head o act legacy r :
  NewDefaultDNSRule_items newMatcher o act legacy = Ok r → same_head (n_Invert o) act r.
Proof.
  intros E. apply (steps_Ok _ _ _ E); [by split|]. solve_steps ltac:(exact HP).
Qed.

(** The branches of a logical rule were each validated and built. *)
Lemma sub_rules_built {A B} (validate : A → result unit) (build : A → result B) rules i subs :
  mapM_idx (λ i sub, sub_rule i (_ ← validate sub; build sub)) i rules = Ok subs →
  Forall2 (λ o sub, validate o = Ok tt ∧ build o = Ok sub) rules subs.
Proof.
  intros E%mapM_idx_Forall2. eapply Forall2_impl; [exact E|].
  intros x y [j Hj%map_err_Ok]. destruct (validate x) as [[]| |]; try done.
Qed.

Lemma NewRule_cases ty d a mode rules inv la check rule :
  NewRule newMatcher platformSupported (MkRuleOptions ty d a mode rules inv la) check = Ok rule →
  (is_default_type ty = true ∧
   ∃ act r, NewRuleAction platformSupported a = Ok act ∧
     NewDefaultRule_items newMatcher d act = Ok r ∧ rule = DefaultRule r) ∨
  (is_default_type ty = false ∧ is_logical_type ty = true ∧
   ∃ act subs m, NewRuleAction platformSupported la = Ok act ∧
     Forall2 (λ o sub, validateNoNestedRuleActions o true = Ok tt ∧
                       NewRule newMatcher platformSupported o false = Ok sub) rules subs ∧
     rule = LogicalRule (MkLogical subs m inv act)).
Proof.
  cbn [NewRule]. destruct (is_default_type ty) eqn:Ety.
  - destruct (negb _); [done|]. destruct (_ && _); [done|]. unfold NewDefaultRule. intros Hm.
    left. split; [done|]. go_inv. eexists _, _. split_and!; [by eapply map_err_Ok|done|done].
  - destruct (is_logical_type ty) eqn:El; [|done]. intros Hm. right.
    split_and!; [done|done|]. go_inv. eexists _, _, _.
    split_and!; [by eapply map_err_Ok|by eapply sub_rules_built|done].
Qed.

Lemma NewDNSRule_cases ty d a mode rules inv la check legacy rule :
  NewDNSRule newMatcher (MkDNSRuleOptions ty d a mode rules inv la) check legacy = Ok rule →
  (is_default_type ty = true ∧
   ∃ act r mr tag race, NewDNSRuleAction a = Ok act ∧
     NewDefaultDNSRule_items newMatcher d act legacy = Ok r ∧ rule = DefaultDNSRule r mr tag race) ∨
  (is_default_type ty = false ∧ is_logical_type ty = true ∧
   ∃ act subs m tags an race, NewDNSRuleAction la = Ok act ∧
     Forall2 (λ o sub, validateNoNestedDNSRuleActions o true = Ok tt ∧
                       NewDNSRule newMatcher o false legacy = Ok sub) rules subs ∧
     rule = LogicalDNSRule (MkLogical subs m inv act) tags an race).
Proof.
  cbn [NewDNSRule]. destruct (is_default_type ty) eqn:Ety.
  - destruct (negb _); [done|]. unfold NewDefaultDNSRule. intros Hm.
    left. split; [done|]. go_inv. by eexists _, _, _, _, _.
  - destruct (is_logical_type ty) eqn:El; [|done]. intros Hm. right.
    split_and!; [done|done|]. go_inv. eexists _, _, _, _, _, _.
    split_and!; [done|by eapply sub_rules_built|done].
Qed.

Lemma no_configured_action o :
  validateNoNestedRuleActions o true = Ok tt → ruleHasConfiguredAction o = false.
Proof. destruct o. cbn [validateNoNestedRuleActions andb]. by destruct (ruleHasConfiguredAction _). Qed.

Lemma no_configured_dns_action o :
  validateNoNestedDNSRuleActions o true = Ok tt → dnsRuleHasConfiguredAction o = false.
Proof.
  destruct o. cbn [validateNoNestedDNSRuleActions andb]. by destruct (dnsRuleHasConfiguredAction _).
Qed.

Lemma NewRule_actionless o : ∀ check rule,
  validateNoNestedRuleActions o true = Ok tt →
  NewRule newMatcher platformSupported o check = Ok rule → actionless rule = true.
Proof.
  induction o as [ty d a mode rules inv la IH] using RuleOptions_nested_ind.
  intros check rule Hv%no_configured_action E. cbn in Hv.
  destruct (NewRule_cases _ _ _ _ _ _ _ _ _ E)
    as [(Hd & act & r & Ha & Hr & ->)|(Hd & Hl & act & subs & m & Ha & Hs & ->)];
    rewrite Hd, ?Hl in Hv; apply negb_false_iff, bool_decide_eq_true in Hv; subst;
    injection Ha as <-; cbn.
  - by rewrite (proj2 (NewDefaultRule_head _ _ _ Hr)).
  - apply (Forall2_forallb_r _ _ _ _ Hs). intros x y Hx [Hvx Hy]. rewrite Forall_forall in IH.
    by apply (IH x Hx false).
Qed.

Lemma NewDNSRule_actionless o : ∀ check legacy rule,
  validateNoNestedDNSRuleActions o true = Ok tt →
  NewDNSRule newMatcher o check legacy = Ok rule → actionless rule = true.
Proof.
  induction o as [ty d a mode rules inv la IH] using DNSRuleOptions_nested_ind.
  intros check legacy rule Hv%no_configured_dns_action E. cbn in Hv.
  destruct (NewDNSRule_cases _ _ _ _ _ _ _ _ _ _ E)
    as [(Hd & act & r & ? & ? & ? & Ha & Hr & ->)
       |(Hd & Hl & act & subs & m & ? & ? & ? & Ha & Hs & ->)];
    rewrite Hd, ?Hl in Hv; apply negb_false_iff, bool_decide_eq_true in Hv; subst;
    injection Ha as <-; cbn.
  - by rewrite (proj2 (NewDefaultDNSRule_head _ _ _ _ Hr)).
  - apply (Forall2_forallb_r _ _ _ _ Hs). intros opt sub Hin [Hvx Hy].
    rewrite Forall_forall in IH. by apply (IH opt Hin false legacy).
Qed.

(** ** References to rule-sets *)

Definition occurrences (tag : string) (l : list string) : Z :=
  Z.of_nat (length (filter (λ t, t = tag) l)).

Lemma occurrences_app tag l k :
  occurrences tag (l ++ k) = occurrences tag l + occurrences tag k.
Proof. unfold occurrences. rewrite filter_app, length_app. lia. Qed.

Lemma occurrences_cons tag t l :
  occurrences tag (t :: l) = (if decide (t = tag) then 1 else 0) + occurrences tag l.
Proof. unfold occurrences. rewrite filter_cons. case_decide; cbn; lia. Qed.

Lemma occurrences_nonneg tag l : 0 <= occurrences tag l <= Z.of_nat (length l).
Proof. unfold occurrences. pose proof (length_filter (λ t, t = tag) l). lia. Qed.

(** The counter of every set is the number of references to it in [held]. *)
Definition counted (sets : gmap string LocalRuleSet) (held : list string) : Prop :=
  Forall (λ tag, is_Some (sets !! tag)) held ∧
  ∀ tag s, sets !! tag = Some s → ls_refs s = occurrences tag held.

Lemma counted_update sets held held' tag s n :
  counted sets held → sets !! tag = Some s →
  (∀ t, occurrences t held' = if decide (tag = t) then n else occurrences t held) →
  Forall (λ t, t = tag ∨ t ∈ held) held' →
  counted (<[tag := set_refs s n]> sets) held'.
Proof.
  intros [Hdom Hcnt] Hs Hocc Hsub. split.
  - rewrite Forall_forall in *. intros t Ht. destruct (Hsub t Ht) as [->|Hin].
    + rewrite lookup_insert_eq. eauto.
    + rewrite lookup_insert_is_Some. destruct (decide (tag = t)); auto.
  - intros t st. rewrite Hocc. case_decide as Ht.
    + subst t. rewrite lookup_insert_eq. by intros [=<-].
    + rewrite lookup_insert_ne by done. apply Hcnt.
Qed.

Lemma closeSets_counted l others sets :
  counted sets (l ++ others) → Z.of_nat (length (l ++ others)) < 2 ^ 31 →
  ∃ sets', closeSets l sets = Ok sets' ∧ counted sets' others.
Proof.
  revert sets. induction l as [|tag l IH]; intros sets Hc Hlen; [by exists sets|].
  cbn [closeSets app] in *. pose proof Hc as [Hdom Hcnt].
  apply Forall_cons in Hdom as [[s Hs] _]. rewrite Hs. specialize (Hcnt _ _ Hs).
  rewrite occurrences_cons, decide_True in Hcnt by done.
  pose proof (occurrences_nonneg tag (l ++ others)) as Hb. cbn [length] in Hlen.
  unfold DecRef. rewrite int32_small by lia.
  destruct (Z.ltb_spec (ls_refs s - 1) 0); [lia|]. cbn. apply IH; [|lia].
  apply (counted_update _ _ _ _ _ _ Hc Hs).
  - intros t. rewrite occurrences_cons. case_decide; [subst; lia|lia].
  - apply Forall_forall. intros t Ht. right. by right.
Qed.

Lemma startSets_counted tags setList others sets :
  counted sets (setList ++ others) →
  Z.of_nat (length tags + length (setList ++ others)) < 2 ^ 31 →
  match startSets tags setList sets with
  | (None, setList', sets') => setList' = setList ++ tags ∧ counted sets' (setList' ++ others)
  | (Some e, setList', sets') =>
      (∃ tag, tag ∈ tags ∧ sets !! tag = None ∧ e = ENew ("rule-set not found: " +:+ tag)%string) ∧
      counted sets' (setList' ++ others) ∧
      Z.of_nat (length (setList' ++ others)) < 2 ^ 31
  end.
Proof.
  clear newMatcher platformSupported networkManager.
  revert setList sets. induction tags as [|tag tags IH]; intros setList sets Hc Hlen; cbn [startSets].
  { by rewrite app_nil_r. }
  destruct (sets !! tag) as [s|] eqn:Hs.
  2: { split_and!; [exists tag; split; [by left|done]|done|cbn in Hlen; lia]. }
  pose proof (proj2 Hc _ _ Hs) as Hcnt.
  pose proof (occurrences_nonneg tag (setList ++ others)) as Hb.
  assert (Hc' : counted (<[tag := IncRef s]> sets) ((setList ++ [tag]) ++ others)).
  { unfold IncRef. rewrite int32_small by (cbn in Hlen; lia).
    apply (counted_update _ _ _ _ _ _ Hc Hs).
    - intros t. rewrite <- app_assoc, !occurrences_app, occurrences_cons.
      change (occurrences t []) with 0.
      case_decide; [subst t; rewrite Hcnt, occurrences_app; lia|lia].
    - apply Forall_forall. set_solver. }
  specialize (IH (setList ++ [tag]) _ Hc').
  destruct (startSets tags (setList ++ [tag]) _) as [[[e|] setList'] sets'].
  - destruct IH as [(t & Ht & Hn & ->) [? ?]];
      [rewrite !length_app in *; cbn in *; lia|]. split_and!; [|done|done].
    exists t. split_and!; [by right| |done]. destruct (decide (t = tag)) as [->|];
      [by rewrite lookup_insert_eq in Hn|by rewrite lookup_insert_ne in Hn].
  - destruct IH as [-> ?]; [rewrite !length_app in *; cbn in *; lia|].
    split; [by rewrite <- app_assoc|done].
Qed.

End Facts.

(** ** Theorems *)

(** Every rule the constructors build is coherent: its list of all items holds
    exactly the items of its groups and the rule-set item, so the shortcut of [Match] for
    a rule without items is taken only when no group has a condition. *)
Theorem constructors_coherent `{Extern} newMatcher networkManager :
  (∀ o r, NewDefaultHeadlessRule newMatcher networkManager o = Ok r → coherent r) ∧
  (∀ o act r, NewDefaultRule_items newMatcher o act = Ok r → coherent r) ∧
  (∀ o act legacy r, NewDefaultDNSRule_items newMatcher o act legacy = Ok r → coherent r) ∧
  (∀ r : abstractDefaultRule HeadlessRule, coherent r → has_items (allItems r) = false →
     group_list r = [] ∧ ruleSetItem r = None).
Proof.
  split_and!; intros *.
  - apply NewDefaultHeadlessRule_coherent.
  - apply NewDefaultRule_coherent.
  - apply NewDefaultDNSRule_coherent.
  - apply coherent_no_items.
Qed.

(** A DNS rule without an address limit does not depend on the addresses of the
    response: for rules whose rule-sets were loaded with their metadata, if
    [WithAddressLimit] is false then [LegacyPreMatch] already gives the verdict of
    [MatchAddressLimit] on every response, so the response check may be skipped. *)
Theorem no_address_limit_final `{Extern} newMatcher networkManager env rule md response :
  is_dns_rule rule = true → no_domain_only rule = true → lookup_safe false rule = true →
  dns_loaded newMatcher networkManager rule → fresh_cache (md_cache md) →
  WithAddressLimit rule = false →
  MatchAddressLimit env rule md response = (LegacyPreMatch env rule md).1.
Proof.
  intros Hdns Hfull Hsafe Hl Hc Hw. rewrite MatchAddressLimit_holds, LegacyPreMatch_Match by done.
  pose proof (prematch_approximates env rule md response Hfull Hsafe Hc) as [Hno Hyes].
  rewrite (WithAddressLimit_defers _ _ _ Hl Hfull Hw) in Hyes. unfold verdict in *; cbn in *.
  destruct (rule_Match _ _ _ _).1; [|by apply Hno].
  destruct (Hyes eq_refl) as ([] & _ & Hsem & Hmay); [|auto]. by destruct (Hmay eq_refl).
Qed.

(** Nested rules carry no action: the branches of a logical route or DNS rule that
    was built have none, at any depth. *)
Theorem nested_rules_actionless `{Extern} newMatcher platformSupported :
  (∀ o check r, NewRule newMatcher platformSupported o check = Ok (LogicalRule r) →
     forallb actionless (l_rules r) = true) ∧
  (∀ o check legacy r tags anonymous race,
     NewDNSRule newMatcher o check legacy = Ok (LogicalDNSRule r tags anonymous race) →
     forallb actionless (l_rules r) = true).
Proof.
  split; intros [ty d a mode rules inv la] *.
  - intros [(_ & ? & ? & _ & _ & E)|(_ & _ & act & subs & m & _ & Hs & E)]%NewRule_cases;
      [done|]. injection E as ->. cbn.
    apply (Forall2_forallb_r _ _ _ _ Hs). intros x y _ [Hv Hy]. by eapply NewRule_actionless.
  - intros [(_ & ? & ? & ? & ? & ? & _ & _ & E)|(_ & _ & act & subs & m & ? & ? & ? & _ & Hs & E)]
      %NewDNSRule_cases; [done|]. injection E as -> _ _ _. cbn.
    apply (Forall2_forallb_r _ _ _ _ Hs). intros opt sub _ [Hv Hy].
    by eapply NewDNSRule_actionless.
Qed.

(** Starting and closing a rule-set item keeps the reference counters exact and
    never panics: from counters that count the references held by this item and by
    [others], [Start] ends with the references of its tags, or with none of them and the
    error of a missing tag; [Close] gives all of them back. *)
Theorem RuleSetItem_references `{Extern} tagList setList others sets :
  counted sets (setList ++ others) →
  Z.of_nat (length tagList + length (setList ++ others)) < 2 ^ 31 →
  (∃ e held sets', RuleSetItem_Start tagList setList sets = Ok (e, held, sets') ∧
     counted sets' (held ++ others) ∧
     ((e = None ∧ held = tagList) ∨
      (held = [] ∧ ∃ tag, tag ∈ tagList ∧ e = Some (ENew ("rule-set not found: " +:+ tag)%string)))) ∧
  (∃ sets', RuleSetItem_Close setList sets = Ok ([], sets') ∧ counted sets' others).
Proof.
  intros Hc Hlen. destruct (closeSets_counted setList others sets Hc) as (sets1 & E1 & Hc1); [lia|].
  split; [|exists sets1; unfold RuleSetItem_Close; by rewrite E1].
  unfold RuleSetItem_Start, RuleSetItem_Close. rewrite E1. cbn.
  pose proof (startSets_counted tagList [] others sets1 Hc1) as Hs. rewrite length_app in Hlen.
  destruct (startSets tagList [] sets1) as [[[e|] held] sets2].
  - destruct Hs as [(tag & Ht & _ & ->) [Hc2 Hl2]]; [cbn; lia|].
    destruct (closeSets_counted held others sets2 Hc2 Hl2) as (sets3 & E3 & Hc3).
    rewrite E3. cbn. eexists _, _, _. split_and!; [done|done|]. right. eauto.
  - destruct Hs as [-> Hc2]; [cbn; lia|]. eexists _, _, _. split_and!; [done|done|]. by left.
Qed.

(** ** Examples *)

Definition c_newMatcher (domains suffixes : list string) : result Matcher := Ok (domains, suffixes).

(** "domain example.org or example.com" *)
Definition c_headless : DefaultHeadlessRuleOptions :=
  MkHeadlessOptions None None (Some ["example.org"; "example.com"]%string) None None None None None
    None None None None None None None None None None false false None None None None false None
    None None None None.

Definition c_options : HeadlessRuleOptions :=
  MkHeadlessRuleOptions "default" c_headless "" [] false.

Lemma constructors_coherent_witness :
  match NewDefaultHeadlessRule c_newMatcher true c_headless with
  | Ok r => coherent r
  | _ => False
  end.
Proof.
  assert (Hok : is_ok (NewDefaultHeadlessRule c_newMatcher true c_headless) = true)
    by (vm_compute; reflexivity).
  destruct (NewDefaultHeadlessRule c_newMatcher true c_headless) as [r| |] eqn:E;
    [|discriminate Hok|discriminate Hok].
  apply (proj1 (constructors_coherent c_newMatcher true) c_headless). exact E.
Defined.

Definition c_loaded_rules : list HeadlessRule :=
  match buildRules c_newMatcher true [c_options] with Ok l => l | _ => [] end.

Definition c_loaded_rule : HeadlessRule :=
  DefaultDNSRule (c_rule [] [] (Some (MkRuleSetItem ["geo"]%string
    [MkRuleSet "geo" c_loaded_rules (buildRuleSetMetadata [c_options])] false false false)) true)
    false "" false.

Lemma no_address_limit_final_witness :
  MatchAddressLimit c_env c_loaded_rule (c_request "example.net") (Some (c_response [77])) =
  (LegacyPreMatch c_env c_loaded_rule (c_request "example.net")).1.
Proof.
  apply (no_address_limit_final c_newMatcher true);
    [reflexivity|reflexivity|reflexivity| |by split_and!|reflexivity].
  constructor. intros item [=<-]. split; [|done].
  constructor; [|constructor]. exists [c_options]. by split_and!.
Defined.

Definition c_sub : RuleOptions :=
  MkRuleOptions "default"
    (MkRawDefaultRule None 0 (Some ["tcp"]%string) None None None None None None None None None
       None None false None false None None None None None None None None None None None "" None
       false false None None None None None None None None None false false false)
    RuleActionOptionsZero "" [] false RuleActionOptionsZero.

Definition c_logical : RuleOptions :=
  MkRuleOptions "logical" (RawDefaultRuleZero false) RuleActionOptionsZero "or" [c_sub; c_sub] false
    (MkRuleActionOptions "hijack-dns" (ra_RouteOptions RuleActionOptionsZero)
       (ra_RouteOptionsOptions RuleActionOptionsZero) (ra_BypassOptions RuleActionOptionsZero)
       (ra_RejectOptions RuleActionOptionsZero)
       (ra_SniffOptions RuleActionOptionsZero) (ra_ResolveOptions RuleActionOptionsZero)).

Definition is_logical (m : result HeadlessRule) : bool :=
  match m with Ok (LogicalRule _) => true | _ => false end.

Lemma nested_rules_actionless_witness :
  match NewRule c_newMatcher false c_logical true with
  | Ok (LogicalRule r) => forallb actionless (l_rules r) = true
  | _ => False
  end.
Proof.
  assert (Hok : is_logical (NewRule c_newMatcher false c_logical true) = true)
    by (vm_compute; reflexivity).
  destruct (NewRule c_newMatcher false c_logical true) as [[]| |] eqn:E;
    try discriminate Hok.
  apply (proj1 (nested_rules_actionless c_newMatcher false) c_logical true). exact E.
Defined.

Definition c_set (refs : Z) : LocalRuleSet := MkLocalRuleSet "geo" c_two c_meta "binary" 1 refs.

Lemma RuleSetItem_references_witness :
  ∃ sets', RuleSetItem_Close ["geo"]%string {["geo"%string := c_set 2]} = Ok ([], sets') ∧
           counted sets' ["geo"]%string.
Proof.
  apply (RuleSetItem_references ["geo"]%string); [|cbn; lia].
  split; [repeat constructor; rewrite lookup_singleton_eq; eauto|].
  intros tag s [<- <-]%lookup_singleton_Some. reflexivity.
Defined.

(** The metadata of a rule-set does not count a rule without a type, which
    [NewHeadlessRule] builds all the same. *)
Example metadata_skips_untyped_rules :
  buildRuleSetMetadata [MkHeadlessRuleOptions "" c_headless "" [] false] =
    MkRuleSetMetadata false false false false false ∧
  is_ok (NewHeadlessRule c_newMatcher true (MkHeadlessRuleOptions "" c_headless "" [] false)) = true.
Proof. by split. Qed.
