(* ===== verification/Srs.v ===== *)
(** * The binary rule-set format: common/srs/binary.go, ip_set.go, ip_cidr.go

    A rule-set file is a magic number, a version byte and a zlib stream of rules.
    Readers are functions from the bytes that are left to a value and the bytes
    that are left then; writers return the bytes they write. [Varbin] collects the
    functions of sing's varbin package and the zlib streams. *)
From Stdlib Require Import Strings.Byte Strings.String.
From stdpp Require Import base list strings pretty gmap.
From S2P Require Import Prelude Netip Metadata RuleItems RuleAction RuleOptions.

Class Varbin : Type := {
  (** [varbin.WriteUvarint], [varbin.ReadSlice] of bytes and of 16-bit integers *)
  varbin_WriteUvarint : Z → list byte;
  varbin_ReadSlice8 : list byte → result (list byte * list byte);
  varbin_ReadSlice16 : list byte → result (list Z * list byte);
  (** a zlib stream: what the writer produces, what can be read of a stream *)
  zlib_compress : list byte → list byte;
  zlib_NewReader : list byte → result (list byte);
}.

(** ** encoding/binary and io *)

Definition EOF : error := ENamed "EOF".
Definition ErrUnexpectedEOF : error := ENamed "unexpected EOF".
Definition ErrInvalid : error := ENamed "invalid argument".
Definition errOverflow : error := ENamed "binary: varint overflows a 64-bit integer".

(** [ReadByte], and [binary.Read] of a [uint8] *)
Definition read_byte (b : list byte) : result (Z * list byte) :=
  match b with
  | [] => Err EOF
  | x :: b => Ok (b2z x, b)
  end.

(** [io.ReadFull] of [n] bytes *)
Definition io_ReadFull (n : nat) (b : list byte) : result (list byte * list byte) :=
  if (length b <? n)%nat then Err (if has_items b then ErrUnexpectedEOF else EOF)
  else Ok (take n b, drop n b).

(** [binary.Read] of a [uint64], big endian; of a [bool] *)
Definition read_uint64 (b : list byte) : result (Z * list byte) :=
  '(l, b) ← io_ReadFull 8 b; Ok (be_combine l, b).
Definition read_bool (b : list byte) : result (bool * list byte) :=
  '(x, b) ← read_byte b; Ok (negb (x =? 0), b).

(** [binary.ReadUvarint]: [i] bytes were read, [x] is the value so far. *)
Fixpoint ReadUvarint_loop (fuel : nat) (i : Z) (x : Z) (b : list byte) : result (Z * list byte) :=
  match fuel with
  | O => Err errOverflow
  | S fuel =>
      match b with
      | [] => Err (if 0 <? i then ErrUnexpectedEOF else EOF)
      | c :: b =>
          let v := b2z c in
          if v <? 128 then
            if (i =? 9) && (1 <? v) then Err errOverflow
            else Ok (Z.lor x (u64 (Z.shiftl v (7 * i))), b)
          else ReadUvarint_loop fuel (i + 1) (Z.lor x (u64 (Z.shiftl (Z.land v 127) (7 * i)))) b
      end
  end.

Definition ReadUvarint (b : list byte) : result (Z * list byte) := ReadUvarint_loop 10 0 0 b.

(** [binary.PutUvarint] *)
Fixpoint PutUvarint_loop (fuel : nat) (x : Z) : list byte :=
  match fuel with
  | O => []
  | S fuel =>
      if 128 <=? x then z2b (Z.lor (u8 x) 128) :: PutUvarint_loop fuel (Z.shiftr x 7)
      else [z2b x]
  end.
Definition PutUvarint (x : Z) : list byte := PutUvarint_loop 10 x.

(** [for range n { x, err := f(reader); ... }]: a loop over a count that the file gives,
    of up to 2^64 - 1 rounds. The fuel is one more than the bytes that are left; a loop that
    has rounds to go when it is used up has not ended, which [SrsTotal] shows not to be. *)
Section Times.
Context {A : Type}.
Variable f : nat → list byte → result (A * list byte).

Fixpoint read_loop (fuel : nat) (n : Z) (i : nat) (b : list byte) : result (list A * list byte) :=
  if n <=? 0 then Ok ([], b)
  else match fuel with
       | O => Panic "runs on"
       | S fuel => '(x, b) ← f i b; '(l, b) ← read_loop fuel (n - 1) (S i) b; Ok (x :: l, b)
       end.

Definition read_times (n : Z) (b : list byte) : result (list A * list byte) := read_loop (S (length b)) n 0 b.
End Times.
Arguments read_times {A} f n b : simpl never.

(** A slice that was appended to: nil when nothing was. *)
Definition of_slice {A} (l : list A) : Listable A :=
  match l with [] => None | _ => Some l end.

(** ** Strings and integers *)

Definition bytes_of_string (s : string) : list byte := map Ascii.byte_of_ascii (String.list_ascii_of_string s).
Definition string_of_bytes (l : list byte) : string :=
  String.string_of_list_ascii (map Ascii.ascii_of_byte l).

Section Srs.
Context `{Extern, Varbin}.

(** The items of a rule. *)
Definition ruleItemQueryType : Z := 0.
Definition ruleItemNetwork : Z := 1.
Definition ruleItemDomain : Z := 2.
Definition ruleItemDomainKeyword : Z := 3.
Definition ruleItemDomainRegex : Z := 4.
Definition ruleItemSourceIPCIDR : Z := 5.
Definition ruleItemIPCIDR : Z := 6.
Definition ruleItemSourcePort : Z := 7.
Definition ruleItemSourcePortRange : Z := 8.
Definition ruleItemPort : Z := 9.
Definition ruleItemPortRange : Z := 10.
Definition ruleItemProcessName : Z := 11.
Definition ruleItemProcessPath : Z := 12.
Definition ruleItemPackageName : Z := 13.
Definition ruleItemWIFISSID : Z := 14.
Definition ruleItemWIFIBSSID : Z := 15.
Definition ruleItemAdGuardDomain : Z := 16.
Definition ruleItemProcessPathRegex : Z := 17.
Definition ruleItemNetworkType : Z := 18.
Definition ruleItemNetworkIsExpensive : Z := 19.
Definition ruleItemNetworkIsConstrained : Z := 20.
Definition ruleItemNetworkInterfaceAddress : Z := 21.
Definition ruleItemDefaultInterfaceAddress : Z := 22.
Definition ruleItemPackageNameRegex : Z := 23.
Definition ruleItemFinal : Z := 255.

Definition readRuleItemString (b : list byte) : result (Listable string * list byte) :=
  '(n, b) ← ReadUvarint b;
  '(l, b) ← read_times (λ _ b, '(value, b) ← varbin_ReadSlice8 b; Ok (string_of_bytes value, b)) n b;
  Ok (of_slice l, b).

(** [uint64(len(l))] written as a varint *)
Definition write_len {A} (l : list A) : list byte := varbin_WriteUvarint (u64 (Z.of_nat (length l))).

Definition writeRuleItemString (itemType : Z) (value : list string) : list byte :=
  z2b itemType :: write_len value ++
  concat (map (λ s, write_len (bytes_of_string s) ++ bytes_of_string s) value).

Definition writeRuleItemUint8 (itemType : Z) (value : list Z) : list byte :=
  z2b itemType :: write_len value ++ map z2b value.

Definition writeRuleItemUint16 (itemType : Z) (value : list Z) : list byte :=
  z2b itemType :: write_len value ++ concat (map (be_split 2) value).

(** ** Addresses: ip_set.go and ip_cidr.go *)

(** [var addrBytes [16]byte; io.ReadFull(reader, addrBytes[:n])]: the array has sixteen
    bytes, and a longer slice of it panics. *)
Definition read_addrBytes (n : Z) (b : list byte) : result (list byte * list byte) :=
  if 16 <? n then Panic "slice bounds out of range" else io_ReadFull (Z.to_nat n) b.

Definition readIPSetAddr (b : list byte) : result (Addr * list byte) :=
  '(addrLen, b) ← ReadUvarint b;
  if negb (addrLen =? 4) && negb (addrLen =? 16) then Err ErrInvalid else
  '(addrBytes, b) ← read_addrBytes addrLen b;
  Ok (AddrFromIP addrBytes, b).

Definition writeAddr (a : Addr) : list byte := write_len (Addr_AsSlice a) ++ Addr_AsSlice a.

Definition readIPSet (b : list byte) : result (IPSet * list byte) :=
  '(version, b) ← read_byte b;
  if negb (version =? 1) then Err ErrInvalid else
  '(length, b) ← read_uint64 b;
  read_times (λ _ b,
    '(from, b) ← readIPSetAddr b; '(to, b) ← readIPSetAddr b; Ok (MkIPRange from to, b)) length b.

Definition writeIPSet (set : IPSet) : list byte :=
  z2b 1 :: be_split 8 (Z.of_nat (length set)) ++
  concat (map (λ r, writeAddr (ipr_from r) ++ writeAddr (ipr_to r)) set).

Definition readPrefix (b : list byte) : result (Prefix * list byte) :=
  '(addrLen, b) ← ReadUvarint b;
  if negb (addrLen =? 4) && negb (addrLen =? 16) then Err ErrInvalid else
  '(addrBytes, b) ← read_addrBytes addrLen b;
  '(prefixBits, b) ← read_byte b;
  Ok (PrefixFrom (AddrFromIP addrBytes) prefixBits, b).

Definition writePrefix (p : Prefix) : list byte := writeAddr (Prefix_Addr p) ++ [z2b (Prefix_Bits p)].

(** [for j := uint64(0); j < prefixCount; j++ { ... }] *)
Definition readPrefixes (b : list byte) : result (list Prefix * list byte) :=
  '(prefixCount, b) ← ReadUvarint b; read_times (λ _, readPrefix) prefixCount b.
Definition writePrefixes (l : list Prefix) : list byte := write_len l ++ concat (map writePrefix l).

(** [writeRuleItemCIDR] *)
Definition writeRuleItemCIDR (itemType : Z) (value : list string) : result (list byte) :=
  inputs ← mapM_idx parse_ipset_input 0 value;
  ipSet ← IPSetBuilder_IPSet inputs;
  Ok (z2b itemType :: writeIPSet ipSet).

(** [badjson.TypedMap.Put]: the entry of a key is replaced, a new key goes last. *)
Fixpoint typed_Put {V} (k : Z) (v : V) (m : list (Z * V)) : list (Z * V) :=
  match m with
  | [] => [(k, v)]
  | (k', v') :: m => if k =? k' then (k, v) :: m else (k', v') :: typed_Put k v m
  end.

(** ** Assignments to the fields of a rule *)

Definition hset_QueryType (v : Listable Z) (r : DefaultHeadlessRuleOptions)
    : DefaultHeadlessRuleOptions :=
  MkHeadlessOptions v (h_Network r) (h_Domain r) (h_DomainSuffix r) (h_DomainKeyword r) (h_DomainRegex r)
    (h_SourceIPCIDR r) (h_IPCIDR r) (h_SourcePort r) (h_SourcePortRange r) (h_Port r)
    (h_PortRange r) (h_ProcessName r) (h_ProcessPath r) (h_ProcessPathRegex r) (h_PackageName
    r) (h_PackageNameRegex r) (h_NetworkType r) (h_NetworkIsExpensive r)
    (h_NetworkIsConstrained r) (h_WIFISSID r) (h_WIFIBSSID r) (h_NetworkInterfaceAddress r)
    (h_DefaultInterfaceAddress r) (h_Invert r) (h_DomainMatcher r) (h_SourceIPSet r) (h_IPSet
    r) (h_AdGuardDomain r) (h_AdGuardDomainMatcher r).
Definition hset_Network (v : Listable string) (r : DefaultHeadlessRuleOptions)
    : DefaultHeadlessRuleOptions :=
  MkHeadlessOptions (h_QueryType r) v (h_Domain r) (h_DomainSuffix r) (h_DomainKeyword r) (h_DomainRegex r)
    (h_SourceIPCIDR r) (h_IPCIDR r) (h_SourcePort r) (h_SourcePortRange r) (h_Port r)
    (h_PortRange r) (h_ProcessName r) (h_ProcessPath r) (h_ProcessPathRegex r) (h_PackageName
    r) (h_PackageNameRegex r) (h_NetworkType r) (h_NetworkIsExpensive r)
    (h_NetworkIsConstrained r) (h_WIFISSID r) (h_WIFIBSSID r) (h_NetworkInterfaceAddress r)
    (h_DefaultInterfaceAddress r) (h_Invert r) (h_DomainMatcher r) (h_SourceIPSet r) (h_IPSet
    r) (h_AdGuardDomain r) (h_AdGuardDomainMatcher r).
Definition hset_Domain (v : Listable string) (r : DefaultHeadlessRuleOptions)
    : DefaultHeadlessRuleOptions :=
  MkHeadlessOptions (h_QueryType r) (h_Network r) v (h_DomainSuffix r) (h_DomainKeyword r) (h_DomainRegex r)
    (h_SourceIPCIDR r) (h_IPCIDR r) (h_SourcePort r) (h_SourcePortRange r) (h_Port r)
    (h_PortRange r) (h_ProcessName r) (h_ProcessPath r) (h_ProcessPathRegex r) (h_PackageName
    r) (h_PackageNameRegex r) (h_NetworkType r) (h_NetworkIsExpensive r)
    (h_NetworkIsConstrained r) (h_WIFISSID r) (h_WIFIBSSID r) (h_NetworkInterfaceAddress r)
    (h_DefaultInterfaceAddress r) (h_Invert r) (h_DomainMatcher r) (h_SourceIPSet r) (h_IPSet
    r) (h_AdGuardDomain r) (h_AdGuardDomainMatcher r).
Definition hset_DomainSuffix (v : Listable string) (r : DefaultHeadlessRuleOptions)
    : DefaultHeadlessRuleOptions :=
  MkHeadlessOptions (h_QueryType r) (h_Network r) (h_Domain r) v (h_DomainKeyword r) (h_DomainRegex r)
    (h_SourceIPCIDR r) (h_IPCIDR r) (h_SourcePort r) (h_SourcePortRange r) (h_Port r)
    (h_PortRange r) (h_ProcessName r) (h_ProcessPath r) (h_ProcessPathRegex r) (h_PackageName
    r) (h_PackageNameRegex r) (h_NetworkType r) (h_NetworkIsExpensive r)
    (h_NetworkIsConstrained r) (h_WIFISSID r) (h_WIFIBSSID r) (h_NetworkInterfaceAddress r)
    (h_DefaultInterfaceAddress r) (h_Invert r) (h_DomainMatcher r) (h_SourceIPSet r) (h_IPSet
    r) (h_AdGuardDomain r) (h_AdGuardDomainMatcher r).
Definition hset_DomainKeyword (v : Listable string) (r : DefaultHeadlessRuleOptions)
    : DefaultHeadlessRuleOptions :=
  MkHeadlessOptions (h_QueryType r) (h_Network r) (h_Domain r) (h_DomainSuffix r) v (h_DomainRegex r)
    (h_SourceIPCIDR r) (h_IPCIDR r) (h_SourcePort r) (h_SourcePortRange r) (h_Port r)
    (h_PortRange r) (h_ProcessName r) (h_ProcessPath r) (h_ProcessPathRegex r) (h_PackageName
    r) (h_PackageNameRegex r) (h_NetworkType r) (h_NetworkIsExpensive r)
    (h_NetworkIsConstrained r) (h_WIFISSID r) (h_WIFIBSSID r) (h_NetworkInterfaceAddress r)
    (h_DefaultInterfaceAddress r) (h_Invert r) (h_DomainMatcher r) (h_SourceIPSet r) (h_IPSet
    r) (h_AdGuardDomain r) (h_AdGuardDomainMatcher r).
Definition hset_DomainRegex (v : Listable string) (r : DefaultHeadlessRuleOptions)
    : DefaultHeadlessRuleOptions :=
  MkHeadlessOptions (h_QueryType r) (h_Network r) (h_Domain r) (h_DomainSuffix r) (h_DomainKeyword r) v
    (h_SourceIPCIDR r) (h_IPCIDR r) (h_SourcePort r) (h_SourcePortRange r) (h_Port r)
    (h_PortRange r) (h_ProcessName r) (h_ProcessPath r) (h_ProcessPathRegex r) (h_PackageName
    r) (h_PackageNameRegex r) (h_NetworkType r) (h_NetworkIsExpensive r)
    (h_NetworkIsConstrained r) (h_WIFISSID r) (h_WIFIBSSID r) (h_NetworkInterfaceAddress r)
    (h_DefaultInterfaceAddress r) (h_Invert r) (h_DomainMatcher r) (h_SourceIPSet r) (h_IPSet
    r) (h_AdGuardDomain r) (h_AdGuardDomainMatcher r).
Definition hset_SourceIPCIDR (v : Listable string) (r : DefaultHeadlessRuleOptions)
    : DefaultHeadlessRuleOptions :=
  MkHeadlessOptions (h_QueryType r) (h_Network r) (h_Domain r) (h_DomainSuffix r) (h_DomainKeyword r)
    (h_DomainRegex r) v (h_IPCIDR r) (h_SourcePort r) (h_SourcePortRange r) (h_Port r)
    (h_PortRange r) (h_ProcessName r) (h_ProcessPath r) (h_ProcessPathRegex r) (h_PackageName
    r) (h_PackageNameRegex r) (h_NetworkType r) (h_NetworkIsExpensive r)
    (h_NetworkIsConstrained r) (h_WIFISSID r) (h_WIFIBSSID r) (h_NetworkInterfaceAddress r)
    (h_DefaultInterfaceAddress r) (h_Invert r) (h_DomainMatcher r) (h_SourceIPSet r) (h_IPSet
    r) (h_AdGuardDomain r) (h_AdGuardDomainMatcher r).
Definition hset_IPCIDR (v : Listable string) (r : DefaultHeadlessRuleOptions)
    : DefaultHeadlessRuleOptions :=
  MkHeadlessOptions (h_QueryType r) (h_Network r) (h_Domain r) (h_DomainSuffix r) (h_DomainKeyword r)
    (h_DomainRegex r) (h_SourceIPCIDR r) v (h_SourcePort r) (h_SourcePortRange r) (h_Port r)
    (h_PortRange r) (h_ProcessName r) (h_ProcessPath r) (h_ProcessPathRegex r) (h_PackageName
    r) (h_PackageNameRegex r) (h_NetworkType r) (h_NetworkIsExpensive r)
    (h_NetworkIsConstrained r) (h_WIFISSID r) (h_WIFIBSSID r) (h_NetworkInterfaceAddress r)
    (h_DefaultInterfaceAddress r) (h_Invert r) (h_DomainMatcher r) (h_SourceIPSet r) (h_IPSet
    r) (h_AdGuardDomain r) (h_AdGuardDomainMatcher r).
Definition hset_SourcePort (v : Listable Z) (r : DefaultHeadlessRuleOptions)
    : DefaultHeadlessRuleOptions :=
  MkHeadlessOptions (h_QueryType r) (h_Network r) (h_Domain r) (h_DomainSuffix r) (h_DomainKeyword r)
    (h_DomainRegex r) (h_SourceIPCIDR r) (h_IPCIDR r) v (h_SourcePortRange r) (h_Port r)
    (h_PortRange r) (h_ProcessName r) (h_ProcessPath r) (h_ProcessPathRegex r) (h_PackageName
    r) (h_PackageNameRegex r) (h_NetworkType r) (h_NetworkIsExpensive r)
    (h_NetworkIsConstrained r) (h_WIFISSID r) (h_WIFIBSSID r) (h_NetworkInterfaceAddress r)
    (h_DefaultInterfaceAddress r) (h_Invert r) (h_DomainMatcher r) (h_SourceIPSet r) (h_IPSet
    r) (h_AdGuardDomain r) (h_AdGuardDomainMatcher r).
Definition hset_SourcePortRange (v : Listable string) (r : DefaultHeadlessRuleOptions)
    : DefaultHeadlessRuleOptions :=
  MkHeadlessOptions (h_QueryType r) (h_Network r) (h_Domain r) (h_DomainSuffix r) (h_DomainKeyword r)
    (h_DomainRegex r) (h_SourceIPCIDR r) (h_IPCIDR r) (h_SourcePort r) v (h_Port r)
    (h_PortRange r) (h_ProcessName r) (h_ProcessPath r) (h_ProcessPathRegex r) (h_PackageName
    r) (h_PackageNameRegex r) (h_NetworkType r) (h_NetworkIsExpensive r)
    (h_NetworkIsConstrained r) (h_WIFISSID r) (h_WIFIBSSID r) (h_NetworkInterfaceAddress r)
    (h_DefaultInterfaceAddress r) (h_Invert r) (h_DomainMatcher r) (h_SourceIPSet r) (h_IPSet
    r) (h_AdGuardDomain r) (h_AdGuardDomainMatcher r).
Definition hset_Port (v : Listable Z) (r : DefaultHeadlessRuleOptions)
    : DefaultHeadlessRuleOptions :=
  MkHeadlessOptions (h_QueryType r) (h_Network r) (h_Domain r) (h_DomainSuffix r) (h_DomainKeyword r)
    (h_DomainRegex r) (h_SourceIPCIDR r) (h_IPCIDR r) (h_SourcePort r) (h_SourcePortRange r) v
    (h_PortRange r) (h_ProcessName r) (h_ProcessPath r) (h_ProcessPathRegex r) (h_PackageName
    r) (h_PackageNameRegex r) (h_NetworkType r) (h_NetworkIsExpensive r)
    (h_NetworkIsConstrained r) (h_WIFISSID r) (h_WIFIBSSID r) (h_NetworkInterfaceAddress r)
    (h_DefaultInterfaceAddress r) (h_Invert r) (h_DomainMatcher r) (h_SourceIPSet r) (h_IPSet
    r) (h_AdGuardDomain r) (h_AdGuardDomainMatcher r).
Definition hset_PortRange (v : Listable string) (r : DefaultHeadlessRuleOptions)
    : DefaultHeadlessRuleOptions :=
  MkHeadlessOptions (h_QueryType r) (h_Network r) (h_Domain r) (h_DomainSuffix r) (h_DomainKeyword r)
    (h_DomainRegex r) (h_SourceIPCIDR r) (h_IPCIDR r) (h_SourcePort r) (h_SourcePortRange r)
    (h_Port r) v (h_ProcessName r) (h_ProcessPath r) (h_ProcessPathRegex r) (h_PackageName r)
    (h_PackageNameRegex r) (h_NetworkType r) (h_NetworkIsExpensive r) (h_NetworkIsConstrained
    r) (h_WIFISSID r) (h_WIFIBSSID r) (h_NetworkInterfaceAddress r) (h_DefaultInterfaceAddress
    r) (h_Invert r) (h_DomainMatcher r) (h_SourceIPSet r) (h_IPSet r) (h_AdGuardDomain r)
    (h_AdGuardDomainMatcher r).
Definition hset_ProcessName (v : Listable string) (r : DefaultHeadlessRuleOptions)
    : DefaultHeadlessRuleOptions :=
  MkHeadlessOptions (h_QueryType r) (h_Network r) (h_Domain r) (h_DomainSuffix r) (h_DomainKeyword r)
    (h_DomainRegex r) (h_SourceIPCIDR r) (h_IPCIDR r) (h_SourcePort r) (h_SourcePortRange r)
    (h_Port r) (h_PortRange r) v (h_ProcessPath r) (h_ProcessPathRegex r) (h_PackageName r)
    (h_PackageNameRegex r) (h_NetworkType r) (h_NetworkIsExpensive r) (h_NetworkIsConstrained
    r) (h_WIFISSID r) (h_WIFIBSSID r) (h_NetworkInterfaceAddress r) (h_DefaultInterfaceAddress
    r) (h_Invert r) (h_DomainMatcher r) (h_SourceIPSet r) (h_IPSet r) (h_AdGuardDomain r)
    (h_AdGuardDomainMatcher r).
Definition hset_ProcessPath (v : Listable string) (r : DefaultHeadlessRuleOptions)
    : DefaultHeadlessRuleOptions :=
  MkHeadlessOptions (h_QueryType r) (h_Network r) (h_Domain r) (h_DomainSuffix r) (h_DomainKeyword r)
    (h_DomainRegex r) (h_SourceIPCIDR r) (h_IPCIDR r) (h_SourcePort r) (h_SourcePortRange r)
    (h_Port r) (h_PortRange r) (h_ProcessName r) v (h_ProcessPathRegex r) (h_PackageName r)
    (h_PackageNameRegex r) (h_NetworkType r) (h_NetworkIsExpensive r) (h_NetworkIsConstrained
    r) (h_WIFISSID r) (h_WIFIBSSID r) (h_NetworkInterfaceAddress r) (h_DefaultInterfaceAddress
    r) (h_Invert r) (h_DomainMatcher r) (h_SourceIPSet r) (h_IPSet r) (h_AdGuardDomain r)
    (h_AdGuardDomainMatcher r).
Definition hset_ProcessPathRegex (v : Listable string) (r : DefaultHeadlessRuleOptions)
    : DefaultHeadlessRuleOptions :=
  MkHeadlessOptions (h_QueryType r) (h_Network r) (h_Domain r) (h_DomainSuffix r) (h_DomainKeyword r)
    (h_DomainRegex r) (h_SourceIPCIDR r) (h_IPCIDR r) (h_SourcePort r) (h_SourcePortRange r)
    (h_Port r) (h_PortRange r) (h_ProcessName r) (h_ProcessPath r) v (h_PackageName r)
    (h_PackageNameRegex r) (h_NetworkType r) (h_NetworkIsExpensive r) (h_NetworkIsConstrained
    r) (h_WIFISSID r) (h_WIFIBSSID r) (h_NetworkInterfaceAddress r) (h_DefaultInterfaceAddress
    r) (h_Invert r) (h_DomainMatcher r) (h_SourceIPSet r) (h_IPSet r) (h_AdGuardDomain r)
    (h_AdGuardDomainMatcher r).
Definition hset_PackageName (v : Listable string) (r : DefaultHeadlessRuleOptions)
    : DefaultHeadlessRuleOptions :=
  MkHeadlessOptions (h_QueryType r) (h_Network r) (h_Domain r) (h_DomainSuffix r) (h_DomainKeyword r)
    (h_DomainRegex r) (h_SourceIPCIDR r) (h_IPCIDR r) (h_SourcePort r) (h_SourcePortRange r)
    (h_Port r) (h_PortRange r) (h_ProcessName r) (h_ProcessPath r) (h_ProcessPathRegex r) v
    (h_PackageNameRegex r) (h_NetworkType r) (h_NetworkIsExpensive r) (h_NetworkIsConstrained
    r) (h_WIFISSID r) (h_WIFIBSSID r) (h_NetworkInterfaceAddress r) (h_DefaultInterfaceAddress
    r) (h_Invert r) (h_DomainMatcher r) (h_SourceIPSet r) (h_IPSet r) (h_AdGuardDomain r)
    (h_AdGuardDomainMatcher r).
Definition hset_PackageNameRegex (v : Listable string) (r : DefaultHeadlessRuleOptions)
    : DefaultHeadlessRuleOptions :=
  MkHeadlessOptions (h_QueryType r) (h_Network r) (h_Domain r) (h_DomainSuffix r) (h_DomainKeyword r)
    (h_DomainRegex r) (h_SourceIPCIDR r) (h_IPCIDR r) (h_SourcePort r) (h_SourcePortRange r)
    (h_Port r) (h_PortRange r) (h_ProcessName r) (h_ProcessPath r) (h_ProcessPathRegex r)
    (h_PackageName r) v (h_NetworkType r) (h_NetworkIsExpensive r) (h_NetworkIsConstrained r)
    (h_WIFISSID r) (h_WIFIBSSID r) (h_NetworkInterfaceAddress r) (h_DefaultInterfaceAddress r)
    (h_Invert r) (h_DomainMatcher r) (h_SourceIPSet r) (h_IPSet r) (h_AdGuardDomain r)
    (h_AdGuardDomainMatcher r).
Definition hset_NetworkType (v : Listable Z) (r : DefaultHeadlessRuleOptions)
    : DefaultHeadlessRuleOptions :=
  MkHeadlessOptions (h_QueryType r) (h_Network r) (h_Domain r) (h_DomainSuffix r) (h_DomainKeyword r)
    (h_DomainRegex r) (h_SourceIPCIDR r) (h_IPCIDR r) (h_SourcePort r) (h_SourcePortRange r)
    (h_Port r) (h_PortRange r) (h_ProcessName r) (h_ProcessPath r) (h_ProcessPathRegex r)
    (h_PackageName r) (h_PackageNameRegex r) v (h_NetworkIsExpensive r)
    (h_NetworkIsConstrained r) (h_WIFISSID r) (h_WIFIBSSID r) (h_NetworkInterfaceAddress r)
    (h_DefaultInterfaceAddress r) (h_Invert r) (h_DomainMatcher r) (h_SourceIPSet r) (h_IPSet
    r) (h_AdGuardDomain r) (h_AdGuardDomainMatcher r).
Definition hset_NetworkIsExpensive (v : bool) (r : DefaultHeadlessRuleOptions)
    : DefaultHeadlessRuleOptions :=
  MkHeadlessOptions (h_QueryType r) (h_Network r) (h_Domain r) (h_DomainSuffix r) (h_DomainKeyword r)
    (h_DomainRegex r) (h_SourceIPCIDR r) (h_IPCIDR r) (h_SourcePort r) (h_SourcePortRange r)
    (h_Port r) (h_PortRange r) (h_ProcessName r) (h_ProcessPath r) (h_ProcessPathRegex r)
    (h_PackageName r) (h_PackageNameRegex r) (h_NetworkType r) v (h_NetworkIsConstrained r)
    (h_WIFISSID r) (h_WIFIBSSID r) (h_NetworkInterfaceAddress r) (h_DefaultInterfaceAddress r)
    (h_Invert r) (h_DomainMatcher r) (h_SourceIPSet r) (h_IPSet r) (h_AdGuardDomain r)
    (h_AdGuardDomainMatcher r).
Definition hset_NetworkIsConstrained (v : bool) (r : DefaultHeadlessRuleOptions)
    : DefaultHeadlessRuleOptions :=
  MkHeadlessOptions (h_QueryType r) (h_Network r) (h_Domain r) (h_DomainSuffix r) (h_DomainKeyword r)
    (h_DomainRegex r) (h_SourceIPCIDR r) (h_IPCIDR r) (h_SourcePort r) (h_SourcePortRange r)
    (h_Port r) (h_PortRange r) (h_ProcessName r) (h_ProcessPath r) (h_ProcessPathRegex r)
    (h_PackageName r) (h_PackageNameRegex r) (h_NetworkType r) (h_NetworkIsExpensive r) v
    (h_WIFISSID r) (h_WIFIBSSID r) (h_NetworkInterfaceAddress r) (h_DefaultInterfaceAddress r)
    (h_Invert r) (h_DomainMatcher r) (h_SourceIPSet r) (h_IPSet r) (h_AdGuardDomain r)
    (h_AdGuardDomainMatcher r).
Definition hset_WIFISSID (v : Listable string) (r : DefaultHeadlessRuleOptions)
    : DefaultHeadlessRuleOptions :=
  MkHeadlessOptions (h_QueryType r) (h_Network r) (h_Domain r) (h_DomainSuffix r) (h_DomainKeyword r)
    (h_DomainRegex r) (h_SourceIPCIDR r) (h_IPCIDR r) (h_SourcePort r) (h_SourcePortRange r)
    (h_Port r) (h_PortRange r) (h_ProcessName r) (h_ProcessPath r) (h_ProcessPathRegex r)
    (h_PackageName r) (h_PackageNameRegex r) (h_NetworkType r) (h_NetworkIsExpensive r)
    (h_NetworkIsConstrained r) v (h_WIFIBSSID r) (h_NetworkInterfaceAddress r)
    (h_DefaultInterfaceAddress r) (h_Invert r) (h_DomainMatcher r) (h_SourceIPSet r) (h_IPSet
    r) (h_AdGuardDomain r) (h_AdGuardDomainMatcher r).
Definition hset_WIFIBSSID (v : Listable string) (r : DefaultHeadlessRuleOptions)
    : DefaultHeadlessRuleOptions :=
  MkHeadlessOptions (h_QueryType r) (h_Network r) (h_Domain r) (h_DomainSuffix r) (h_DomainKeyword r)
    (h_DomainRegex r) (h_SourceIPCIDR r) (h_IPCIDR r) (h_SourcePort r) (h_SourcePortRange r)
    (h_Port r) (h_PortRange r) (h_ProcessName r) (h_ProcessPath r) (h_ProcessPathRegex r)
    (h_PackageName r) (h_PackageNameRegex r) (h_NetworkType r) (h_NetworkIsExpensive r)
    (h_NetworkIsConstrained r) (h_WIFISSID r) v (h_NetworkInterfaceAddress r)
    (h_DefaultInterfaceAddress r) (h_Invert r) (h_DomainMatcher r) (h_SourceIPSet r) (h_IPSet
    r) (h_AdGuardDomain r) (h_AdGuardDomainMatcher r).
Definition hset_NetworkInterfaceAddress (v : option (list (Z * list Prefix))) (r : DefaultHeadlessRuleOptions)
    : DefaultHeadlessRuleOptions :=
  MkHeadlessOptions (h_QueryType r) (h_Network r) (h_Domain r) (h_DomainSuffix r) (h_DomainKeyword r)
    (h_DomainRegex r) (h_SourceIPCIDR r) (h_IPCIDR r) (h_SourcePort r) (h_SourcePortRange r)
    (h_Port r) (h_PortRange r) (h_ProcessName r) (h_ProcessPath r) (h_ProcessPathRegex r)
    (h_PackageName r) (h_PackageNameRegex r) (h_NetworkType r) (h_NetworkIsExpensive r)
    (h_NetworkIsConstrained r) (h_WIFISSID r) (h_WIFIBSSID r) v (h_DefaultInterfaceAddress r)
    (h_Invert r) (h_DomainMatcher r) (h_SourceIPSet r) (h_IPSet r) (h_AdGuardDomain r)
    (h_AdGuardDomainMatcher r).
Definition hset_DefaultInterfaceAddress (v : Listable Prefix) (r : DefaultHeadlessRuleOptions)
    : DefaultHeadlessRuleOptions :=
  MkHeadlessOptions (h_QueryType r) (h_Network r) (h_Domain r) (h_DomainSuffix r) (h_DomainKeyword r)
    (h_DomainRegex r) (h_SourceIPCIDR r) (h_IPCIDR r) (h_SourcePort r) (h_SourcePortRange r)
    (h_Port r) (h_PortRange r) (h_ProcessName r) (h_ProcessPath r) (h_ProcessPathRegex r)
    (h_PackageName r) (h_PackageNameRegex r) (h_NetworkType r) (h_NetworkIsExpensive r)
    (h_NetworkIsConstrained r) (h_WIFISSID r) (h_WIFIBSSID r) (h_NetworkInterfaceAddress r) v
    (h_Invert r) (h_DomainMatcher r) (h_SourceIPSet r) (h_IPSet r) (h_AdGuardDomain r)
    (h_AdGuardDomainMatcher r).
Definition hset_Invert (v : bool) (r : DefaultHeadlessRuleOptions)
    : DefaultHeadlessRuleOptions :=
  MkHeadlessOptions (h_QueryType r) (h_Network r) (h_Domain r) (h_DomainSuffix r) (h_DomainKeyword r)
    (h_DomainRegex r) (h_SourceIPCIDR r) (h_IPCIDR r) (h_SourcePort r) (h_SourcePortRange r)
    (h_Port r) (h_PortRange r) (h_ProcessName r) (h_ProcessPath r) (h_ProcessPathRegex r)
    (h_PackageName r) (h_PackageNameRegex r) (h_NetworkType r) (h_NetworkIsExpensive r)
    (h_NetworkIsConstrained r) (h_WIFISSID r) (h_WIFIBSSID r) (h_NetworkInterfaceAddress r)
    (h_DefaultInterfaceAddress r) v (h_DomainMatcher r) (h_SourceIPSet r) (h_IPSet r)
    (h_AdGuardDomain r) (h_AdGuardDomainMatcher r).
Definition hset_DomainMatcher (v : option Matcher) (r : DefaultHeadlessRuleOptions)
    : DefaultHeadlessRuleOptions :=
  MkHeadlessOptions (h_QueryType r) (h_Network r) (h_Domain r) (h_DomainSuffix r) (h_DomainKeyword r)
    (h_DomainRegex r) (h_SourceIPCIDR r) (h_IPCIDR r) (h_SourcePort r) (h_SourcePortRange r)
    (h_Port r) (h_PortRange r) (h_ProcessName r) (h_ProcessPath r) (h_ProcessPathRegex r)
    (h_PackageName r) (h_PackageNameRegex r) (h_NetworkType r) (h_NetworkIsExpensive r)
    (h_NetworkIsConstrained r) (h_WIFISSID r) (h_WIFIBSSID r) (h_NetworkInterfaceAddress r)
    (h_DefaultInterfaceAddress r) (h_Invert r) v (h_SourceIPSet r) (h_IPSet r)
    (h_AdGuardDomain r) (h_AdGuardDomainMatcher r).
Definition hset_SourceIPSet (v : option IPSet) (r : DefaultHeadlessRuleOptions)
    : DefaultHeadlessRuleOptions :=
  MkHeadlessOptions (h_QueryType r) (h_Network r) (h_Domain r) (h_DomainSuffix r) (h_DomainKeyword r)
    (h_DomainRegex r) (h_SourceIPCIDR r) (h_IPCIDR r) (h_SourcePort r) (h_SourcePortRange r)
    (h_Port r) (h_PortRange r) (h_ProcessName r) (h_ProcessPath r) (h_ProcessPathRegex r)
    (h_PackageName r) (h_PackageNameRegex r) (h_NetworkType r) (h_NetworkIsExpensive r)
    (h_NetworkIsConstrained r) (h_WIFISSID r) (h_WIFIBSSID r) (h_NetworkInterfaceAddress r)
    (h_DefaultInterfaceAddress r) (h_Invert r) (h_DomainMatcher r) v (h_IPSet r)
    (h_AdGuardDomain r) (h_AdGuardDomainMatcher r).
Definition hset_IPSet (v : option IPSet) (r : DefaultHeadlessRuleOptions)
    : DefaultHeadlessRuleOptions :=
  MkHeadlessOptions (h_QueryType r) (h_Network r) (h_Domain r) (h_DomainSuffix r) (h_DomainKeyword r)
    (h_DomainRegex r) (h_SourceIPCIDR r) (h_IPCIDR r) (h_SourcePort r) (h_SourcePortRange r)
    (h_Port r) (h_PortRange r) (h_ProcessName r) (h_ProcessPath r) (h_ProcessPathRegex r)
    (h_PackageName r) (h_PackageNameRegex r) (h_NetworkType r) (h_NetworkIsExpensive r)
    (h_NetworkIsConstrained r) (h_WIFISSID r) (h_WIFIBSSID r) (h_NetworkInterfaceAddress r)
    (h_DefaultInterfaceAddress r) (h_Invert r) (h_DomainMatcher r) (h_SourceIPSet r) v
    (h_AdGuardDomain r) (h_AdGuardDomainMatcher r).
Definition hset_AdGuardDomain (v : Listable string) (r : DefaultHeadlessRuleOptions)
    : DefaultHeadlessRuleOptions :=
  MkHeadlessOptions (h_QueryType r) (h_Network r) (h_Domain r) (h_DomainSuffix r) (h_DomainKeyword r)
    (h_DomainRegex r) (h_SourceIPCIDR r) (h_IPCIDR r) (h_SourcePort r) (h_SourcePortRange r)
    (h_Port r) (h_PortRange r) (h_ProcessName r) (h_ProcessPath r) (h_ProcessPathRegex r)
    (h_PackageName r) (h_PackageNameRegex r) (h_NetworkType r) (h_NetworkIsExpensive r)
    (h_NetworkIsConstrained r) (h_WIFISSID r) (h_WIFIBSSID r) (h_NetworkInterfaceAddress r)
    (h_DefaultInterfaceAddress r) (h_Invert r) (h_DomainMatcher r) (h_SourceIPSet r) (h_IPSet
    r) v (h_AdGuardDomainMatcher r).
Definition hset_AdGuardDomainMatcher (v : option AdGuardMatcher) (r : DefaultHeadlessRuleOptions)
    : DefaultHeadlessRuleOptions :=
  MkHeadlessOptions (h_QueryType r) (h_Network r) (h_Domain r) (h_DomainSuffix r) (h_DomainKeyword r)
    (h_DomainRegex r) (h_SourceIPCIDR r) (h_IPCIDR r) (h_SourcePort r) (h_SourcePortRange r)
    (h_Port r) (h_PortRange r) (h_ProcessName r) (h_ProcessPath r) (h_ProcessPathRegex r)
    (h_PackageName r) (h_PackageNameRegex r) (h_NetworkType r) (h_NetworkIsExpensive r)
    (h_NetworkIsConstrained r) (h_WIFISSID r) (h_WIFIBSSID r) (h_NetworkInterfaceAddress r)
    (h_DefaultInterfaceAddress r) (h_Invert r) (h_DomainMatcher r) (h_SourceIPSet r) (h_IPSet
    r) (h_AdGuardDomain r) v.

(** ** Default rules *)

Section ReadDefault.
Variable recover : bool.

(** The loop of [readDefaultRule]. [fuel] is more than the bytes left: every round
    takes at least the byte of the item type. *)
Fixpoint readDefaultRule_loop (fuel : nat) (lastItemType : Z) (rule : DefaultHeadlessRuleOptions)
    (b : list byte) : result (DefaultHeadlessRuleOptions * list byte) :=
  match fuel with
  | O => Panic "readDefaultRule: out of fuel"
  | S fuel =>
      '(itemType, b) ← read_byte b;
      let next := readDefaultRule_loop fuel itemType in
      if itemType =? ruleItemQueryType then
        '(l, b) ← varbin_ReadSlice16 b; next (hset_QueryType (Some l) rule) b
      else if itemType =? ruleItemNetwork then
        '(l, b) ← readRuleItemString b; next (hset_Network l rule) b
      else if itemType =? ruleItemDomain then
        '(matcher, b) ← domain_ReadMatcher b;
        let rule := hset_DomainMatcher (Some matcher) rule in
        next (if recover then
                hset_DomainSuffix (Some (Matcher_Dump matcher).2)
                  (hset_Domain (Some (Matcher_Dump matcher).1) rule)
              else rule) b
      else if itemType =? ruleItemDomainKeyword then
        '(l, b) ← readRuleItemString b; next (hset_DomainKeyword l rule) b
      else if itemType =? ruleItemDomainRegex then
        '(l, b) ← readRuleItemString b; next (hset_DomainRegex l rule) b
      else if itemType =? ruleItemSourceIPCIDR then
        '(set, b) ← readIPSet b;
        let rule := hset_SourceIPSet (Some set) rule in
        next (if recover then hset_SourceIPCIDR (Some (map Prefix_String (IPSet_Prefixes set))) rule
              else rule) b
      else if itemType =? ruleItemIPCIDR then
        '(set, b) ← readIPSet b;
        let rule := hset_IPSet (Some set) rule in
        next (if recover then hset_IPCIDR (Some (map Prefix_String (IPSet_Prefixes set))) rule
              else rule) b
      else if itemType =? ruleItemSourcePort then
        '(l, b) ← varbin_ReadSlice16 b; next (hset_SourcePort (Some l) rule) b
      else if itemType =? ruleItemSourcePortRange then
        '(l, b) ← readRuleItemString b; next (hset_SourcePortRange l rule) b
      else if itemType =? ruleItemPort then
        '(l, b) ← varbin_ReadSlice16 b; next (hset_Port (Some l) rule) b
      else if itemType =? ruleItemPortRange then
        '(l, b) ← readRuleItemString b; next (hset_PortRange l rule) b
      else if itemType =? ruleItemProcessName then
        '(l, b) ← readRuleItemString b; next (hset_ProcessName l rule) b
      else if itemType =? ruleItemProcessPath then
        '(l, b) ← readRuleItemString b; next (hset_ProcessPath l rule) b
      else if itemType =? ruleItemProcessPathRegex then
        '(l, b) ← readRuleItemString b; next (hset_ProcessPathRegex l rule) b
      else if itemType =? ruleItemPackageName then
        '(l, b) ← readRuleItemString b; next (hset_PackageName l rule) b
      else if itemType =? ruleItemPackageNameRegex then
        '(l, b) ← readRuleItemString b; next (hset_PackageNameRegex l rule) b
      else if itemType =? ruleItemWIFISSID then
        '(l, b) ← readRuleItemString b; next (hset_WIFISSID l rule) b
      else if itemType =? ruleItemWIFIBSSID then
        '(l, b) ← readRuleItemString b; next (hset_WIFIBSSID l rule) b
      else if itemType =? ruleItemAdGuardDomain then
        '(matcher, b) ← domain_ReadAdGuardMatcher b;
        let rule := hset_AdGuardDomainMatcher (Some matcher) rule in
        next (if recover then hset_AdGuardDomain (Some (AdGuardMatcher_Dump matcher)) rule
              else rule) b
      else if itemType =? ruleItemNetworkType then
        '(l, b) ← varbin_ReadSlice8 b; next (hset_NetworkType (Some (map b2z l)) rule) b
      else if itemType =? ruleItemNetworkIsExpensive then next (hset_NetworkIsExpensive true rule) b
      else if itemType =? ruleItemNetworkIsConstrained then
        next (hset_NetworkIsConstrained true rule) b
      else if itemType =? ruleItemNetworkInterfaceAddress then
        '(size, b) ← ReadUvarint b;
        '(entries, b) ← read_times (λ _ b,
          '(key, b) ← read_byte b; '(value, b) ← readPrefixes b; Ok ((key, value), b)) size b;
        next (hset_NetworkInterfaceAddress
                (Some (fold_left (λ m e, typed_Put e.1 e.2 m) entries [])) rule) b
      else if itemType =? ruleItemDefaultInterfaceAddress then
        '(value, b) ← readPrefixes b;
        next (hset_DefaultInterfaceAddress (of_slice value) rule) b
      else if itemType =? ruleItemFinal then
        '(inv, b) ← read_bool b; Ok (hset_Invert inv rule, b)
      else Err (ENew ("unknown rule item type: " +:+ pretty itemType +:+ ", last type: " +:+
                        pretty lastItemType)%string)
  end.

Definition readDefaultRule (b : list byte) : result (DefaultHeadlessRuleOptions * list byte) :=
  readDefaultRule_loop (S (length b)) 0 (HeadlessOptionsZero false) b.

End ReadDefault.

(** The parts of a rule in the order they are written, up to the first error. *)
Definition write_all (l : list (result (list byte))) : result (list byte) :=
  foldr (λ m acc, x ← m; y ← acc; Ok (x ++ y)) (Ok []) l.

Definition write_if (cond : bool) (bytes : list byte) : result (list byte) :=
  Ok (if cond then bytes else []).

(** An item that exists since some version of the format. *)
Definition write_since (cond : bool) (generateVersion since : Z) (name : string)
    (bytes : list byte) : result (list byte) :=
  if cond then
    if generateVersion <? since
    then Err (ENew (name +:+ " only supported in version " +:+ pretty since +:+ " or later")%string)
    else Ok bytes
  else Ok [].

Definition write_cidr (l : Listable string) (itemType : Z) (name : string) : result (list byte) :=
  if listed l then map_err (λ e, ECause e name) (writeRuleItemCIDR itemType (elems l)) else Ok [].

(** The items [writeDefaultRule] writes up to the ports, and from the process on *)
Definition writeDefaultRule_addressItems (r : DefaultHeadlessRuleOptions) (generateVersion : Z)
    : list (result (list byte)) :=
  let strings l itemType := write_if (listed l) (writeRuleItemString itemType (elems l)) in
  let ports l itemType := write_if (listed l) (writeRuleItemUint16 itemType (elems l)) in
  [
    ports (h_QueryType r) ruleItemQueryType;
    strings (h_Network r) ruleItemNetwork;
    write_if (listed (h_Domain r) || listed (h_DomainSuffix r))
      (z2b ruleItemDomain ::
       Matcher_Write (domain_NewMatcher (elems (h_Domain r)) (elems (h_DomainSuffix r))
                        (generateVersion =? 1)));
    strings (h_DomainKeyword r) ruleItemDomainKeyword;
    strings (h_DomainRegex r) ruleItemDomainRegex;
    write_cidr (h_SourceIPCIDR r) ruleItemSourceIPCIDR "source_ip_cidr";
    write_cidr (h_IPCIDR r) ruleItemIPCIDR "ipcidr";
    ports (h_SourcePort r) ruleItemSourcePort;
    strings (h_SourcePortRange r) ruleItemSourcePortRange;
    ports (h_Port r) ruleItemPort;
    strings (h_PortRange r) ruleItemPortRange
  ].

Definition writeDefaultRule_otherItems (r : DefaultHeadlessRuleOptions) (generateVersion : Z)
    : list (result (list byte)) :=
  let strings l itemType := write_if (listed l) (writeRuleItemString itemType (elems l)) in
  [
    strings (h_ProcessName r) ruleItemProcessName;
    strings (h_ProcessPath r) ruleItemProcessPath;
    strings (h_ProcessPathRegex r) ruleItemProcessPathRegex;
    strings (h_PackageName r) ruleItemPackageName;
    write_since (listed (h_PackageNameRegex r)) generateVersion 5
      "`package_name_regex` rule item is"
      (writeRuleItemString ruleItemPackageNameRegex (elems (h_PackageNameRegex r)));
    write_since (listed (h_NetworkType r)) generateVersion 3 "`network_type` rule item is"
      (writeRuleItemUint8 ruleItemNetworkType (elems (h_NetworkType r)));
    write_since (h_NetworkIsExpensive r) generateVersion 3 "`network_is_expensive` rule item is"
      [z2b ruleItemNetworkIsExpensive];
    write_since (h_NetworkIsConstrained r) generateVersion 3 "`network_is_constrained` rule item is"
      [z2b ruleItemNetworkIsConstrained];
    write_since (listed (h_NetworkInterfaceAddress r)) generateVersion 4
      "`network_interface_address` rule item is"
      (z2b ruleItemNetworkInterfaceAddress :: write_len (elems (h_NetworkInterfaceAddress r)) ++
       concat (map (λ e, z2b (u8 e.1) :: writePrefixes e.2) (elems (h_NetworkInterfaceAddress r))));
    write_since (listed (h_DefaultInterfaceAddress r)) generateVersion 4
      "`default_interface_address` rule item is"
      (z2b ruleItemDefaultInterfaceAddress :: writePrefixes (elems (h_DefaultInterfaceAddress r)));
    strings (h_WIFISSID r) ruleItemWIFISSID;
    strings (h_WIFIBSSID r) ruleItemWIFIBSSID;
    write_since (listed (h_AdGuardDomain r)) generateVersion 2 "AdGuard rule items is"
      (z2b ruleItemAdGuardDomain ::
       AdGuardMatcher_Write (domain_NewAdGuardMatcher (elems (h_AdGuardDomain r))))
  ].

Definition writeDefaultRule_items (r : DefaultHeadlessRuleOptions) (generateVersion : Z)
    : list (result (list byte)) :=
  writeDefaultRule_addressItems r generateVersion ++ writeDefaultRule_otherItems r generateVersion.

(** [writeDefaultRule] *)
Definition writeDefaultRule (r : DefaultHeadlessRuleOptions) (generateVersion : Z)
    : result (list byte) :=
  items ← write_all (writeDefaultRule_items r generateVersion);
  Ok (z2b 0 :: items ++ [z2b ruleItemFinal; z2b (if h_Invert r then 1 else 0)]).

(** ** Rules *)

Definition maxLogicalRuleDepth : nat := 100.

(** [readRule] with [readLogicalRule] inside; [depthLeft] is [maxLogicalRuleDepth - depth],
    a rule deeper than that is refused. *)
Fixpoint readRule_at (depthLeft : nat) (recover : bool) (b : list byte)
    : result (HeadlessRuleOptions * list byte) :=
  '(ruleType, b) ← read_byte b;
  if ruleType =? 0 then
    '(r, b) ← readDefaultRule recover b;
    Ok (MkHeadlessRuleOptions "default" r "" [] false, b)
  else if ruleType =? 1 then
    '(mode, b) ← read_byte b;
    mode ← (if mode =? 0 then Ok "and"%string else if mode =? 1 then Ok "or"%string
            else Err (ENew ("unknown logical mode: " +:+ pretty mode)%string));
    '(length, b) ← ReadUvarint b;
    '(rules, b) ← read_times (λ i b,
      map_err (λ e, ECause e ("read logical rule [" +:+ pretty (Z.of_nat i) +:+ "]")%string)
        match depthLeft with
        | O => Err (ENew "logical rule nested too deep")
        | S depthLeft => readRule_at depthLeft recover b
        end) length b;
    '(inv, b) ← read_bool b;
    Ok (MkHeadlessRuleOptions "logical" (HeadlessOptionsZero false) mode rules inv, b)
  else Err (ENew ("unknown rule type: " +:+ pretty ruleType)%string).

(** [readRule(reader, recover, 0)] *)
Definition readRule (recover : bool) (b : list byte) : result (HeadlessRuleOptions * list byte) :=
  readRule_at maxLogicalRuleDepth recover b.

(** [writeRule] with [writeLogicalRule] inside *)
Fixpoint writeRule (rule : HeadlessRuleOptions) (generateVersion : Z) : result (list byte) :=
  match rule with
  | MkHeadlessRuleOptions ty d mode rules inv =>
      if bool_decide (ty = "default"%string) then writeDefaultRule d generateVersion
      else if bool_decide (ty = "logical"%string) then
        modeByte ← (if bool_decide (mode = "and"%string) then Ok 0
                    else if bool_decide (mode = "or"%string) then Ok 1
                    else Panic ("unknown logical mode: " +:+ mode)%string);
        body ← mapM_idx (λ _ rule, writeRule rule generateVersion) 0 rules;
        Ok (z2b 1 :: z2b modeByte :: write_len rules ++ concat body ++ [z2b (if inv then 1 else 0)])
      else Panic ("unknown rule type: " +:+ ty)%string
  end.

(** ** Files *)

Definition MagicBytes : list byte := [x53; x52; x53].
Definition RuleSetVersionCurrent : Z := 5.

(** [Read]: the version and the rules *)
Definition Read (b : list byte) (recover : bool) : result (Z * list HeadlessRuleOptions) :=
  '(magicBytes, b) ← io_ReadFull 3 b;
  if negb (bool_decide (magicBytes = MagicBytes))
  then Err (ENew "invalid sing-box rule-set file") else
  '(version, b) ← read_byte b;
  if RuleSetVersionCurrent <? version
  then Err (ENew ("unsupported version: " +:+ pretty version)%string) else
  b ← zlib_NewReader b;
  '(length, b) ← ReadUvarint b;
  '(rules, _) ← read_times (λ i b,
    map_err (λ e, ECause e ("read rule[" +:+ pretty (Z.of_nat i) +:+ "]")%string)
      (readRule recover b)) length b;
  Ok (version, rules).

(** [Write] to a writer that does not fail *)
Definition Write (rules : list HeadlessRuleOptions) (generateVersion : Z) : result (list byte) :=
  body ← mapM_idx (λ _ rule, writeRule rule generateVersion) 0 rules;
  Ok (MagicBytes ++ z2b generateVersion :: zlib_compress (write_len rules ++ concat body)).

End Srs.
