(* ===== verification/SrsCodec.v ===== *)
(** * The encodings inside rule-set files

    The round trips of the parts: varints, counted loops, strings, integers,
    addresses, address sets and prefixes. [SrsLaws] says what is relied on of the
    packages the sources only call. *)
From Stdlib Require Import Strings.Byte Strings.String.
From stdpp Require Import base list strings pretty gmap.
From S2P Require Import Prelude Netip Metadata RuleItems RuleAction RuleOptions Srs.

(** A length that fits the 64-bit counters of the format. *)
Definition fits {A} (l : list A) : Prop := Z.of_nat (length l) < 2 ^ 64.

(** An address a rule-set can hold: of a machine's width, with no zone. *)
Definition addr_ok (a : Addr) : Prop :=
  match a with
  | AddrZero => False
  | Addr4 v => 0 <= v < 2 ^ 32
  | Addr6 v zone => 0 <= v < 2 ^ 128 ∧ zone = ""%string
  end.
Definition range_ok (r : myIPRange) : Prop := addr_ok (ipr_from r) ∧ addr_ok (ipr_to r).

Class SrsLaws `{Extern, Varbin} : Prop := {
  (** varbin writes the varints of encoding/binary and reads counted slices *)
  WriteUvarint_law n : 0 <= n < 2 ^ 64 → varbin_WriteUvarint n = PutUvarint n;
  ReadSlice8_law l rest : fits l →
    varbin_ReadSlice8 (PutUvarint (Z.of_nat (length l)) ++ l ++ rest) = Ok (l, rest);
  ReadSlice16_law l rest : fits l → Forall (λ x, 0 <= x < 2 ^ 16) l →
    varbin_ReadSlice16 (PutUvarint (Z.of_nat (length l)) ++ concat (map (be_split 2) l) ++ rest) =
    Ok (l, rest);
  (** a matcher reads back what it wrote *)
  ReadMatcher_law m rest : domain_ReadMatcher (Matcher_Write m ++ rest) = Ok (m, rest);
  ReadAdGuardMatcher_law m rest :
    domain_ReadAdGuardMatcher (AdGuardMatcher_Write m ++ rest) = Ok (m, rest);
  (** the address of the bytes of an address *)
  AddrFromIP_law a : addr_ok a → AddrFromIP (Addr_AsSlice a) = a;
  (** a builder makes sets of proper ranges *)
  IPSetBuilder_law inputs s : IPSetBuilder_IPSet inputs = Ok s → Forall range_ok s ∧ fits s;
  (** a zlib stream can be read back *)
  zlib_law b : zlib_NewReader (zlib_compress b) = Ok b;
}.

(** ** Bytes *)

Lemma b2z_range b : 0 <= b2z b < 256.
Proof. unfold b2z. pose proof (Ascii.N_ascii_bounded (Ascii.ascii_of_byte b)). lia. Qed.

Lemma b2z_z2b z : b2z (z2b z) = z mod 256.
Proof.
  unfold b2z, z2b. rewrite Ascii.ascii_of_byte_of_ascii.
  pose proof (Z.mod_pos_bound z 256 ltac:(lia)). rewrite Ascii.N_ascii_embedding; lia.
Qed.

Lemma b2z_z2b_small z : 0 <= z < 256 → b2z (z2b z) = z.
Proof. intros. rewrite b2z_z2b. by apply Z.mod_small. Qed.

Lemma length_be_split n z : length (be_split n z) = n.
Proof. revert z. induction n as [|n IH]; intros z; [done|]. cbn. rewrite length_app, IH. cbn. lia. Qed.

Lemma be_combine_app l b : be_combine (l ++ [b]) = be_combine l * 256 + b2z b.
Proof. unfold be_combine. by rewrite fold_left_app. Qed.

Lemma be_combine_split n z : 0 <= z < 2 ^ (8 * Z.of_nat n) → be_combine (be_split n z) = z.
Proof.
  revert z. induction n as [|n IH]; intros z Hz; [cbn in *; lia|].
  cbn [be_split]. rewrite be_combine_app, b2z_z2b.
  rewrite IH; [pose proof (Z.div_mod z 256); lia|].
  split; [apply Z.div_pos; lia|]. apply Z.div_lt_upper_bound; [lia|].
  replace (8 * Z.of_nat (S n)) with (8 + 8 * Z.of_nat n) in Hz by lia.
  rewrite Z.pow_add_r in Hz by lia. change (2 ^ 8) with 256 in Hz. lia.
Qed.

Lemma string_of_bytes_of s : string_of_bytes (bytes_of_string s) = s.
Proof.
  unfold string_of_bytes, bytes_of_string. rewrite map_map.
  rewrite (map_ext _ id) by (intros c; apply Ascii.ascii_of_byte_of_ascii).
  rewrite map_id. apply String.string_of_list_ascii_of_string.
Qed.

(** ** Varints *)

Lemma shiftl_split x k :
  0 <= k → Z.lor (Z.shiftl (x mod 128) k) (Z.shiftl (Z.shiftr x 7) (k + 7)) = Z.shiftl x k.
Proof.
  intros Hk. change 128 with (2 ^ 7). rewrite <- Z.land_ones by lia.
  apply Z.bits_inj'. intros n Hn. rewrite Z.lor_spec, !Z.shiftl_spec by lia.
  rewrite Z.land_spec. destruct (Z.lt_ge_cases (n - k) 0).
  { by rewrite !(Z.testbit_neg_r _ (n - k)), (Z.testbit_neg_r _ (n - (k + 7))) by lia. }
  rewrite Z.testbit_ones_nonneg by lia. destruct (Z.ltb_spec (n - k) 7).
  - rewrite andb_true_r, (Z.testbit_neg_r _ (n - (k + 7))) by lia. apply orb_false_r.
  - rewrite andb_false_r, Z.shiftr_spec by lia. cbn. f_equal. lia.
Qed.

(** The bytes with the continuation bit, all 256 cases. *)
Definition continued (n : nat) : bool :=
  let y := Z.of_nat n in
  let v := b2z (z2b (Z.lor y 128)) in
  negb (v <? 128) && (Z.land v 127 =? y mod 128).

Lemma continued_all : forallb continued (seq 0 256) = true.
Proof. vm_compute. reflexivity. Qed.

Lemma continued_byte x :
  (b2z (z2b (Z.lor (u8 x) 128)) <? 128) = false ∧
  Z.land (b2z (z2b (Z.lor (u8 x) 128))) 127 = x mod 128.
Proof.
  pose proof (wrap_range 8 x ltac:(lia)) as Hr. change (2 ^ 8) with 256 in Hr.
  pose proof continued_all as Hall. rewrite forallb_forall in Hall.
  specialize (Hall (Z.to_nat (u8 x))). unfold continued in Hall.
  rewrite Z2Nat.id in Hall by lia. rewrite in_seq in Hall.
  specialize (Hall ltac:(lia)). apply andb_true_iff in Hall as [H1 H2].
  apply negb_true_iff in H1. apply Z.eqb_eq in H2. split; [done|]. rewrite H2.
  unfold wrap. change (2 ^ 8) with 256. apply Z.mod_mod_divide. by exists 2.
Qed.

Lemma ReadUvarint_loop_spec fuel i x acc rest :
  Z.of_nat fuel = 10 - i → 0 <= i <= 9 → 0 <= x → Z.shiftl x (7 * i) < 2 ^ 64 →
  ReadUvarint_loop fuel i acc (PutUvarint_loop fuel x ++ rest) =
  Ok (Z.lor acc (Z.shiftl x (7 * i)), rest).
Proof.
  revert i x acc. induction fuel as [|fuel IH]; intros i x acc Hf Hi Hx Hlt; [lia|].
  pose proof Hlt as Hlt'. rewrite Z.shiftl_mul_pow2 in Hlt' by lia.
  cbn [PutUvarint_loop]. destruct (Z.leb_spec 128 x) as [Hbig|Hsmall]; cbn [app ReadUvarint_loop].
  - destruct (continued_byte x) as [-> ->].
    assert (i <> 9) by (intros ->; lia).
    pose proof (Z.mod_pos_bound x 128 ltac:(lia)). pose proof (Z.mod_le x 128 ltac:(lia) ltac:(lia)).
    rewrite wrap_small by (rewrite Z.shiftl_mul_pow2 by lia; nia).
    rewrite IH; [|lia|lia|by apply Z.shiftr_nonneg|].
    + f_equal. f_equal. rewrite <- Z.lor_assoc. f_equal.
      replace (7 * (i + 1)) with (7 * i + 7) by lia. apply shiftl_split. lia.
    + rewrite Z.shiftr_div_pow2, Z.shiftl_mul_pow2 by lia.
      replace (7 * (i + 1)) with (7 * i + 7) by lia. rewrite Z.pow_add_r by lia.
      pose proof (Z.mul_div_le x (2 ^ 7) ltac:(lia)). nia.
  - rewrite b2z_z2b_small by lia. destruct (Z.ltb_spec x 128); [|lia].
    destruct (Z.eqb_spec i 9); destruct (Z.ltb_spec 1 x); cbn [andb];
      try (rewrite wrap_small; [done|rewrite Z.shiftl_mul_pow2; nia]).
    exfalso. subst i. lia.
Qed.

Lemma ReadUvarint_Put n rest : 0 <= n < 2 ^ 64 → ReadUvarint (PutUvarint n ++ rest) = Ok (n, rest).
Proof.
  intros Hn. unfold ReadUvarint, PutUvarint.
  rewrite (ReadUvarint_loop_spec 10 0 n 0 rest);
    [|lia|lia|lia|rewrite Z.mul_0_r, Z.shiftl_0_r; lia].
  by rewrite Z.mul_0_r, Z.shiftl_0_r.
Qed.

Lemma PutUvarint_cons n : ∃ c l, PutUvarint n = c :: l.
Proof. unfold PutUvarint. cbn [PutUvarint_loop]. destruct (128 <=? n); eauto. Qed.

(** ** Counted loops *)

Lemma read_loop_spec {A} (f : nat → list byte → result (A * list byte)) (e : A → list byte) l fuel i rest :
  (∀ x j b, x ∈ l → f j (e x ++ b) = Ok (x, b)) → (length l ≤ fuel)%nat →
  read_loop f fuel (Z.of_nat (length l)) i (concat (map e l) ++ rest) = Ok (l, rest).
Proof.
  revert fuel i. induction l as [|x l IH]; intros fuel i Hf Hfuel; [by destruct fuel|].
  destruct fuel as [|fuel]; [cbn in Hfuel; lia|]. cbn [read_loop length map concat].
  rewrite (proj2 (Z.leb_gt _ _)) by lia. rewrite <- app_assoc, Hf by left. cbn [mbind result_bind].
  replace (Z.of_nat (S (length l)) - 1) with (Z.of_nat (length l)) by lia.
  rewrite IH; [done| |cbn in Hfuel; lia]. intros y j b Hy. apply Hf. by right.
Qed.

Lemma concat_length_ge {A} (e : A → list byte) l :
  (∀ x, x ∈ l → e x ≠ []) → (length l <= length (concat (map e l)))%nat.
Proof.
  induction l as [|x l IH]; intros He; [done|]. cbn. rewrite length_app.
  specialize (He x) as Hx. destruct (e x); [by destruct Hx; [left|]|].
  specialize (IH ltac:(intros y Hy; apply He; by right)). cbn. lia.
Qed.

Lemma read_times_spec {A} (f : nat → list byte → result (A * list byte)) (e : A → list byte) l rest :
  (∀ x, x ∈ l → e x ≠ []) → (∀ x j b, x ∈ l → f j (e x ++ b) = Ok (x, b)) →
  read_times f (Z.of_nat (length l)) (concat (map e l) ++ rest) = Ok (l, rest).
Proof.
  intros He Hf. apply read_loop_spec; [done|]. rewrite length_app. pose proof (concat_length_ge e l He). lia.
Qed.

(** The same with the bytes of every element given. *)
Lemma read_times_Forall2 {A} (f : nat → list byte → result (A * list byte)) bs l rest :
  Forall2 (λ b x, b ≠ [] ∧ ∀ j rest, f j (b ++ rest) = Ok (x, rest)) bs l →
  read_times f (Z.of_nat (length l)) (concat bs ++ rest) = Ok (l, rest).
Proof.
  intros Hall. unfold read_times.
  assert (Hfuel : (length l ≤ S (length (concat bs ++ rest)))%nat).
  { rewrite length_app. enough (length l <= length (concat bs))%nat by lia.
    induction Hall as [|b x bs l [Hb _] Hall IH]; [done|]. cbn. rewrite length_app. destruct b; [done|]. cbn. lia. }
  revert Hfuel. generalize 0%nat, (S (length (concat bs ++ rest))).
  induction Hall as [|b x bs l [Hb Hf] Hall IH]; intros i fuel Hfuel; [by destruct fuel|].
  destruct fuel as [|fuel]; [cbn in Hfuel; lia|]. cbn [read_loop length concat].
  rewrite (proj2 (Z.leb_gt _ _)) by lia. rewrite <- app_assoc, Hf. cbn [mbind result_bind].
  replace (Z.of_nat (S (length l)) - 1) with (Z.of_nat (length l)) by lia. rewrite IH; [done|cbn in Hfuel; lia].
Qed.

(** ** The parts of rules *)

Section Parts.
Context `{SrsLaws}.

Lemma write_len_Put {A} (l : list A) : fits l → write_len l = PutUvarint (Z.of_nat (length l)).
Proof.
  intros Hl. unfold write_len. unfold fits in Hl. rewrite wrap_small by lia.
  apply WriteUvarint_law. lia.
Qed.

Lemma write_len_nonempty {A} (l : list A) k : fits l → write_len l ++ k ≠ [].
Proof.
  intros Hl. rewrite write_len_Put by done. destruct (PutUvarint_cons (Z.of_nat (length l)))
    as (c & t & ->). done.
Qed.

Lemma ReadUvarint_len {A} (l : list A) rest :
  fits l → ReadUvarint (write_len l ++ rest) = Ok (Z.of_nat (length l), rest).
Proof.
  intros Hl. rewrite write_len_Put by done. apply ReadUvarint_Put. unfold fits in Hl. lia.
Qed.

Lemma read_byte_z2b z rest : 0 <= z < 256 → read_byte (z2b z :: rest) = Ok (z, rest).
Proof. intros. cbn. by rewrite b2z_z2b_small. Qed.

Lemma io_ReadFull_app l rest : io_ReadFull (length l) (l ++ rest) = Ok (l, rest).
Proof.
  unfold io_ReadFull. rewrite length_app.
  destruct (Nat.ltb_spec (length l + length rest) (length l)); [lia|].
  by rewrite take_app_length, drop_app_length.
Qed.

(** Strings *)
Definition string_bytes (s : string) : list byte :=
  write_len (bytes_of_string s) ++ bytes_of_string s.

Definition strings_ok (l : list string) : Prop :=
  fits l ∧ Forall (λ s, fits (bytes_of_string s)) l.

Lemma readRuleItemString_spec l rest :
  strings_ok l →
  readRuleItemString (write_len l ++ concat (map string_bytes l) ++ rest) = Ok (of_slice l, rest).
Proof.
  intros [Hl Hs]. unfold readRuleItemString. rewrite ReadUvarint_len by done. cbn.
  rewrite Forall_forall in Hs. rewrite (read_times_spec _ string_bytes); [done| |].
  - intros s Hin. apply write_len_nonempty. by apply Hs.
  - intros s j b Hin. unfold string_bytes. specialize (Hs s Hin).
    rewrite <- app_assoc, write_len_Put, ReadSlice8_law by done. cbn. by rewrite string_of_bytes_of.
Qed.

(** Addresses *)
Lemma length_AsSlice a :
  addr_ok a → length (Addr_AsSlice a) = 4%nat ∨ length (Addr_AsSlice a) = 16%nat.
Proof.
  destruct a; cbn [Addr_AsSlice addr_ok]; [done| |]; intros _;
    rewrite length_be_split; auto.
Qed.

Lemma AsSlice_fits a : addr_ok a → fits (Addr_AsSlice a).
Proof. intros Ha. unfold fits. destruct (length_AsSlice a Ha) as [-> | ->]; lia. Qed.

Lemma readIPSetAddr_spec a rest : addr_ok a → readIPSetAddr (writeAddr a ++ rest) = Ok (a, rest).
Proof.
  intros Ha. unfold readIPSetAddr, writeAddr. pose proof (AsSlice_fits a Ha).
  rewrite <- app_assoc, ReadUvarint_len by done. cbn [mbind result_bind].
  assert (negb (Z.of_nat (length (Addr_AsSlice a)) =? 4) &&
          negb (Z.of_nat (length (Addr_AsSlice a)) =? 16) = false) as ->
    by (by destruct (length_AsSlice a Ha) as [-> | ->]).
  unfold read_addrBytes. rewrite (proj2 (Z.ltb_ge _ _)) by (destruct (length_AsSlice a Ha); lia).
  rewrite Nat2Z.id, io_ReadFull_app. cbn. by rewrite AddrFromIP_law.
Qed.

Lemma writeAddr_nonempty a k : addr_ok a → writeAddr a ++ k ≠ [].
Proof.
  intros Ha. unfold writeAddr. rewrite <- app_assoc.
  apply write_len_nonempty. by apply AsSlice_fits.
Qed.

Lemma readIPSet_spec s rest :
  Forall range_ok s → fits s → readIPSet (writeIPSet s ++ rest) = Ok (s, rest).
Proof.
  intros Hs Hf. unfold readIPSet, writeIPSet. rewrite <- app_comm_cons.
  rewrite read_byte_z2b by lia. cbn [mbind result_bind negb].
  change (negb (1 =? 1)) with false. cbv iota. unfold read_uint64.
  rewrite <- app_assoc. rewrite <- (length_be_split 8 (Z.of_nat (length s))) at 1.
  rewrite io_ReadFull_app. cbn [mbind result_bind].
  rewrite be_combine_split by (unfold fits in Hf; cbn; lia).
  rewrite Forall_forall in Hs. apply read_times_spec.
  - intros r Hr. apply writeAddr_nonempty. by apply Hs.
  - intros r j b Hr. destruct (Hs r Hr) as [Hfrom Hto]. rewrite <- app_assoc, readIPSetAddr_spec by done.
    cbn [mbind result_bind]. rewrite readIPSetAddr_spec by done. by destruct r.
Qed.

(** Prefixes *)
Definition prefix_ok (p : Prefix) : Prop :=
  addr_ok (p_ip p) ∧ 0 <= p_bits p <= Addr_BitLen (p_ip p).

(** The address of a prefix is read as one of a set. *)
Lemma readPrefix_addr b :
  readPrefix b = ('(addr, b) ← readIPSetAddr b; '(prefixBits, b) ← read_byte b; Ok (PrefixFrom addr prefixBits, b)).
Proof.
  unfold readPrefix, readIPSetAddr. destruct (ReadUvarint b) as [[addrLen b1]| |]; [|done..]. cbn [mbind result_bind].
  destruct (_ && _); [done|]. by destruct (read_addrBytes addrLen b1) as [[addrBytes b2]| |].
Qed.

Lemma readPrefix_spec p rest : prefix_ok p → readPrefix (writePrefix p ++ rest) = Ok (p, rest).
Proof.
  intros [Ha Hb]. rewrite readPrefix_addr. unfold writePrefix, Prefix_Addr, Prefix_Bits.
  rewrite <- app_assoc, readIPSetAddr_spec by done. cbn [mbind result_bind app].
  rewrite read_byte_z2b by (destruct (p_ip p); cbn in *; lia). cbn.
  destruct p as [a bits]; cbn in *. f_equal. f_equal. unfold PrefixFrom.
  destruct (Z.leb_spec 0 bits), (Z.leb_spec bits (Addr_BitLen a)); try lia.
  destruct a; cbn in *; [done|done|]. by destruct Ha as [_ ->].
Qed.

Definition prefixes_ok (l : list Prefix) : Prop := fits l ∧ Forall prefix_ok l.

Lemma readPrefixes_spec l rest :
  prefixes_ok l → readPrefixes (writePrefixes l ++ rest) = Ok (l, rest).
Proof.
  intros [Hf Hl]. unfold readPrefixes, writePrefixes. rewrite <- app_assoc, ReadUvarint_len by done.
  cbn. rewrite Forall_forall in Hl. apply read_times_spec.
  - intros p Hp. apply writeAddr_nonempty. by apply Hl.
  - intros p j b Hp. apply readPrefix_spec. by apply Hl.
Qed.

End Parts.
