(* ===== verification/SrsFacts.v ===== *)
(** * Rule-set files: what is written is what is read

    [decoded] says what a written rule is read back as: the lists that are set, the
    matchers and address sets made of the domains and prefixes, and with [recover]
    the domains and prefixes taken out of those again. *)
From Stdlib Require Import Strings.Byte Strings.String.
From stdpp Require Import base list strings pretty gmap.
From S2P Require Import Prelude Netip Metadata RuleItems RuleAction Concrete RuleOptions RuleBuildFacts Srs SrsCodec.

Section Decoded.
Context `{Extern, Varbin}.

Definition keep {A} (l : Listable A) : Listable A := if listed l then l else None.

Definition written_matcher (v : Z) (r : DefaultHeadlessRuleOptions) : Matcher :=
  domain_NewMatcher (elems (h_Domain r)) (elems (h_DomainSuffix r)) (v =? 1).
Definition written_adguard (r : DefaultHeadlessRuleOptions) : AdGuardMatcher :=
  domain_NewAdGuardMatcher (elems (h_AdGuardDomain r)).
Definition has_domain (r : DefaultHeadlessRuleOptions) : bool :=
  listed (h_Domain r) || listed (h_DomainSuffix r).

(** The address set of a list of prefixes. *)
Definition cidr_set (l : list string) : result IPSet :=
  inputs ← mapM_idx parse_ipset_input 0 l; IPSetBuilder_IPSet inputs.
Definition decoded_set (l : Listable string) : option IPSet :=
  if listed l then match cidr_set (elems l) with Ok s => Some s | _ => None end else None.
Definition recovered {A B} (recover : bool) (f : A → B) (m : option A) : option B :=
  if recover then f <$> m else None.
Definition dump_set (s : IPSet) : list string := map Prefix_String (IPSet_Prefixes s).

Definition decoded_default (recover : bool) (v : Z) (r : DefaultHeadlessRuleOptions)
    : DefaultHeadlessRuleOptions :=
  let matcher := if has_domain r then Some (written_matcher v r) else None in
  let adguard := if listed (h_AdGuardDomain r) then Some (written_adguard r) else None in
  {| h_QueryType := keep (h_QueryType r);
     h_Network := keep (h_Network r);
     h_Domain := recovered recover (λ m, (Matcher_Dump m).1) matcher;
     h_DomainSuffix := recovered recover (λ m, (Matcher_Dump m).2) matcher;
     h_DomainKeyword := keep (h_DomainKeyword r);
     h_DomainRegex := keep (h_DomainRegex r);
     h_SourceIPCIDR := recovered recover dump_set (decoded_set (h_SourceIPCIDR r));
     h_IPCIDR := recovered recover dump_set (decoded_set (h_IPCIDR r));
     h_SourcePort := keep (h_SourcePort r);
     h_SourcePortRange := keep (h_SourcePortRange r);
     h_Port := keep (h_Port r);
     h_PortRange := keep (h_PortRange r);
     h_ProcessName := keep (h_ProcessName r);
     h_ProcessPath := keep (h_ProcessPath r);
     h_ProcessPathRegex := keep (h_ProcessPathRegex r);
     h_PackageName := keep (h_PackageName r);
     h_PackageNameRegex := keep (h_PackageNameRegex r);
     h_NetworkType := keep (h_NetworkType r);
     h_NetworkIsExpensive := h_NetworkIsExpensive r;
     h_NetworkIsConstrained := h_NetworkIsConstrained r;
     h_WIFISSID := keep (h_WIFISSID r);
     h_WIFIBSSID := keep (h_WIFIBSSID r);
     h_NetworkInterfaceAddress := keep (h_NetworkInterfaceAddress r);
     h_DefaultInterfaceAddress := keep (h_DefaultInterfaceAddress r);
     h_Invert := h_Invert r;
     h_DomainMatcher := matcher;
     h_SourceIPSet := decoded_set (h_SourceIPCIDR r);
     h_IPSet := decoded_set (h_IPCIDR r);
     h_AdGuardDomain := recovered recover AdGuardMatcher_Dump adguard;
     h_AdGuardDomainMatcher := adguard |}.

Fixpoint decoded (recover : bool) (v : Z) (o : HeadlessRuleOptions) : HeadlessRuleOptions :=
  match o with
  | MkHeadlessRuleOptions ty d mode rules inv =>
      if bool_decide (ty = "default"%string)
      then MkHeadlessRuleOptions ty (decoded_default recover v d) "" [] false
      else MkHeadlessRuleOptions ty (HeadlessOptionsZero false) mode
             (map (decoded recover v) rules) inv
  end.

(** ** Rules whose values fit the format *)

Definition default_ok (r : DefaultHeadlessRuleOptions) : Prop :=
  Forall (λ l, strings_ok (elems l))
    [h_Network r; h_DomainKeyword r; h_DomainRegex r; h_SourcePortRange r; h_PortRange r;
     h_ProcessName r; h_ProcessPath r; h_ProcessPathRegex r; h_PackageName r;
     h_PackageNameRegex r; h_WIFISSID r; h_WIFIBSSID r] ∧
  Forall (λ l, fits (elems l) ∧ Forall (λ x, 0 <= x < 2 ^ 16) (elems l))
    [h_QueryType r; h_SourcePort r; h_Port r] ∧
  (fits (elems (h_NetworkType r)) ∧ Forall (λ x, 0 <= x < 256) (elems (h_NetworkType r))) ∧
  (fits (elems (h_NetworkInterfaceAddress r)) ∧
   NoDup (map fst (elems (h_NetworkInterfaceAddress r))) ∧
   Forall (λ e, 0 <= e.1 < 256 ∧ prefixes_ok e.2) (elems (h_NetworkInterfaceAddress r))) ∧
  prefixes_ok (elems (h_DefaultInterfaceAddress r)).

(** Logical rules nested at most [depth] deep. *)
Fixpoint rule_fits (depth : nat) (o : HeadlessRuleOptions) : Prop :=
  match o with
  | MkHeadlessRuleOptions ty d _ rules _ =>
      if bool_decide (ty = "default"%string) then default_ok d
      else fits rules ∧
           match depth with
           | O => rules = []
           | S depth => Forall (rule_fits depth) rules
           end
  end.

End Decoded.

Section RoundTrip.
Context `{SrsLaws}.
Variable recover : bool.

Abbreviation Rule := DefaultHeadlessRuleOptions.

(** [bytes] are items that the loop of [readDefaultRule] takes in, with the effect
    [f] on the rule read so far. *)
Definition reads (bytes : list byte) (f : Rule → Rule) : Prop :=
  ∀ fuel last rule rest, (length (bytes ++ rest) < fuel)%nat →
    ∃ fuel' last', (length rest < fuel')%nat ∧
      readDefaultRule_loop recover fuel last rule (bytes ++ rest) =
      readDefaultRule_loop recover fuel' last' (f rule) rest.

Lemma reads_nil : reads [] (λ r, r).
Proof. intros fuel last rule rest Hf. by exists fuel, last. Qed.

Lemma reads_app a b f g : reads a f → reads b g → reads (a ++ b) (λ r, g (f r)).
Proof.
  intros Ha Hb fuel last rule rest Hf. rewrite <- app_assoc in *.
  destruct (Ha _ last rule _ Hf) as (fuel1 & last1 & Hf1 & ->).
  destruct (Hb _ last1 (f rule) _ Hf1) as (fuel2 & last2 & Hf2 & ->). eauto.
Qed.

(** One item: its type and a payload. *)
Lemma reads_item t payload f :
  (∀ fuel last rule rest,
     readDefaultRule_loop recover (S fuel) last rule (z2b t :: payload ++ rest) =
     readDefaultRule_loop recover fuel (b2z (z2b t)) (f rule) rest) →
  reads (z2b t :: payload) f.
Proof.
  intros Hitem [|fuel] last rule rest Hf; [lia|]. exists fuel, (b2z (z2b t)).
  split; [cbn in Hf; rewrite length_app in Hf; lia|]. apply Hitem.
Qed.

Lemma reads_strings t set l :
  strings_ok l → has_items l = true →
  (∀ fuel last rule b, readDefaultRule_loop recover (S fuel) last rule (z2b t :: b) =
     ('(l, b) ← readRuleItemString b;
      readDefaultRule_loop recover fuel (b2z (z2b t)) (set l rule) b)) →
  reads (writeRuleItemString t l) (set (Some l)).
Proof.
  intros Hl Hne Hstep. apply reads_item. intros fuel last rule rest. rewrite Hstep.
  rewrite <- app_assoc. fold (string_bytes). 
  change (λ s, write_len (bytes_of_string s) ++ bytes_of_string s) with string_bytes.
  rewrite readRuleItemString_spec by done. by destruct l.
Qed.

Lemma reads_uint16 t set l :
  fits l → Forall (λ x, 0 <= x < 2 ^ 16) l →
  (∀ fuel last rule b, readDefaultRule_loop recover (S fuel) last rule (z2b t :: b) =
     ('(l, b) ← varbin_ReadSlice16 b;
      readDefaultRule_loop recover fuel (b2z (z2b t)) (set (Some l) rule) b)) →
  reads (writeRuleItemUint16 t l) (set (Some l)).
Proof.
  intros Hf Hl Hstep. apply reads_item. intros fuel last rule rest. rewrite Hstep.
  by rewrite <- app_assoc, write_len_Put, ReadSlice16_law by done.
Qed.

(** Items that are written under a condition. *)
Definition opt (c : bool) (f : Rule → Rule) (rule : Rule) : Rule := if c then f rule else rule.
Definition opt_set (l : Listable string) (f : IPSet → Rule → Rule) (rule : Rule) : Rule :=
  match decoded_set l with Some set => f set rule | None => rule end.

Definition part_reads (m : result (list byte)) (f : Rule → Rule) : Prop :=
  ∀ p, m = Ok p → reads p f.

Lemma part_if c bytes f : (c = true → reads bytes f) → part_reads (write_if c bytes) (opt c f).
Proof. intros Hr p [=<-]. destruct c; [by apply Hr|apply reads_nil]. Qed.

Lemma part_since c v since name bytes f :
  (c = true → reads bytes f) → part_reads (write_since c v since name bytes) (opt c f).
Proof.
  intros Hr p. unfold write_since. destruct c; [|intros [=<-]; apply reads_nil].
  destruct (v <? since); [done|]. intros [=<-]. by apply Hr.
Qed.

Lemma part_strings t set l :
  strings_ok (elems l) →
  (∀ fuel last rule b, readDefaultRule_loop recover (S fuel) last rule (z2b t :: b) =
     ('(l, b) ← readRuleItemString b;
      readDefaultRule_loop recover fuel (b2z (z2b t)) (set l rule) b)) →
  part_reads (write_if (listed l) (writeRuleItemString t (elems l)))
    (opt (listed l) (set (Some (elems l)))).
Proof. intros Hl Hstep. apply part_if. intros Hc. by apply reads_strings. Qed.

Lemma part_uint16 t set l :
  fits (elems l) ∧ Forall (λ x, 0 <= x < 2 ^ 16) (elems l) →
  (∀ fuel last rule b, readDefaultRule_loop recover (S fuel) last rule (z2b t :: b) =
     ('(l, b) ← varbin_ReadSlice16 b;
      readDefaultRule_loop recover fuel (b2z (z2b t)) (set (Some l) rule) b)) →
  part_reads (write_if (listed l) (writeRuleItemUint16 t (elems l)))
    (opt (listed l) (set (Some (elems l)))).
Proof. intros [Hf Hl] Hstep. apply part_if. intros Hc. by apply reads_uint16. Qed.

Lemma part_cidr t name l f :
  (∀ fuel last rule b, readDefaultRule_loop recover (S fuel) last rule (z2b t :: b) =
     ('(set, b) ← readIPSet b; readDefaultRule_loop recover fuel (b2z (z2b t)) (f set rule) b)) →
  part_reads (write_cidr l t name) (opt_set l f).
Proof.
  intros Hstep p. unfold write_cidr, opt_set, decoded_set, writeRuleItemCIDR, cidr_set.
  destruct (listed l); [|intros [=<-]; apply reads_nil].
  destruct (mapM_idx parse_ipset_input 0 (elems l)) as [inputs| |]; try done.
  cbn [mbind result_bind]. destruct (IPSetBuilder_IPSet inputs) as [set| |] eqn:E; try done.
  intros [=<-]. destruct (IPSetBuilder_law _ _ E) as [Hr Hf]. apply reads_item.
  intros fuel last rule rest. by rewrite Hstep, readIPSet_spec.
Qed.

Lemma write_all_reads ms fs bytes :
  Forall2 part_reads ms fs → write_all ms = Ok bytes →
  reads bytes (λ r, fold_left (λ r f, f r) fs r).
Proof.
  intros Hall. revert bytes. induction Hall as [|m f ms fs Hm Hall IH]; intros bytes; cbn.
  - intros [=<-]. apply reads_nil.
  - destruct m as [x| |]; try done. cbn [mbind result_bind].
    unfold write_all in IH. destruct (foldr _ _ ms) as [y| |]; try done.
    intros [=<-]. exact (reads_app _ _ _ _ (Hm x eq_refl) (IH y eq_refl)).
Qed.

(** What the items of a rule do to the rule that is read, in the order they are
    written. *)
Definition effects (v : Z) (r : Rule) : list (Rule → Rule) := [
    opt (listed (h_QueryType r)) (hset_QueryType (Some (elems (h_QueryType r))));
    opt (listed (h_Network r)) (hset_Network (Some (elems (h_Network r))));
    opt (has_domain r) (λ rule,
      let rule := hset_DomainMatcher (Some (written_matcher v r)) rule in
      if recover then
        hset_DomainSuffix (Some (Matcher_Dump (written_matcher v r)).2)
          (hset_Domain (Some (Matcher_Dump (written_matcher v r)).1) rule)
      else rule);
    opt (listed (h_DomainKeyword r)) (hset_DomainKeyword (Some (elems (h_DomainKeyword r))));
    opt (listed (h_DomainRegex r)) (hset_DomainRegex (Some (elems (h_DomainRegex r))));
    opt_set (h_SourceIPCIDR r) (λ set rule,
      let rule := hset_SourceIPSet (Some set) rule in
      if recover then hset_SourceIPCIDR (Some (dump_set set)) rule else rule);
    opt_set (h_IPCIDR r) (λ set rule,
      let rule := hset_IPSet (Some set) rule in
      if recover then hset_IPCIDR (Some (dump_set set)) rule else rule);
    opt (listed (h_SourcePort r)) (hset_SourcePort (Some (elems (h_SourcePort r))));
    opt (listed (h_SourcePortRange r)) (hset_SourcePortRange (Some (elems (h_SourcePortRange r))));
    opt (listed (h_Port r)) (hset_Port (Some (elems (h_Port r))));
    opt (listed (h_PortRange r)) (hset_PortRange (Some (elems (h_PortRange r))));
    opt (listed (h_ProcessName r)) (hset_ProcessName (Some (elems (h_ProcessName r))));
    opt (listed (h_ProcessPath r)) (hset_ProcessPath (Some (elems (h_ProcessPath r))));
    opt (listed (h_ProcessPathRegex r)) (hset_ProcessPathRegex (Some (elems (h_ProcessPathRegex r))));
    opt (listed (h_PackageName r)) (hset_PackageName (Some (elems (h_PackageName r))));
    opt (listed (h_PackageNameRegex r)) (hset_PackageNameRegex (Some (elems (h_PackageNameRegex r))));
    opt (listed (h_NetworkType r)) (hset_NetworkType (Some (elems (h_NetworkType r))));
    opt (h_NetworkIsExpensive r) (hset_NetworkIsExpensive true);
    opt (h_NetworkIsConstrained r) (hset_NetworkIsConstrained true);
    opt (listed (h_NetworkInterfaceAddress r)) (hset_NetworkInterfaceAddress (Some (elems (h_NetworkInterfaceAddress r))));
    opt (listed (h_DefaultInterfaceAddress r)) (hset_DefaultInterfaceAddress (Some (elems (h_DefaultInterfaceAddress r))));
    opt (listed (h_WIFISSID r)) (hset_WIFISSID (Some (elems (h_WIFISSID r))));
    opt (listed (h_WIFIBSSID r)) (hset_WIFIBSSID (Some (elems (h_WIFIBSSID r))));
    opt (listed (h_AdGuardDomain r)) (λ rule,
      let rule := hset_AdGuardDomainMatcher (Some (written_adguard r)) rule in
      if recover then hset_AdGuardDomain (Some (AdGuardMatcher_Dump (written_adguard r))) rule
      else rule)
  ].

Definition when_set {A} (c : bool) (v old : A) : A := if c then v else old.

Lemma opt_hset {A} (c : bool) (get : Rule → A) (set : A → Rule → Rule) v rule :
  (∀ rule, set (get rule) rule = rule) →
  opt c (set v) rule = set (when_set c v (get rule)) rule.
Proof. intros Hs. unfold opt, when_set. by destruct c. Qed.

Lemma effect_domain v r rule :
  opt (has_domain r) (λ rule,
      let rule := hset_DomainMatcher (Some (written_matcher v r)) rule in
      if recover then
        hset_DomainSuffix (Some (Matcher_Dump (written_matcher v r)).2)
          (hset_Domain (Some (Matcher_Dump (written_matcher v r)).1) rule)
      else rule) rule =
  hset_DomainSuffix (when_set (has_domain r && recover) (Some (Matcher_Dump (written_matcher v r)).2)
                       (h_DomainSuffix rule))
    (hset_Domain (when_set (has_domain r && recover) (Some (Matcher_Dump (written_matcher v r)).1)
                    (h_Domain rule))
       (hset_DomainMatcher (when_set (has_domain r) (Some (written_matcher v r))
                              (h_DomainMatcher rule)) rule)).
Proof. unfold opt. destruct (has_domain r), recover, rule; reflexivity. Qed.

Lemma effect_adguard r rule :
  opt (listed (h_AdGuardDomain r)) (λ rule,
      let rule := hset_AdGuardDomainMatcher (Some (written_adguard r)) rule in
      if recover then hset_AdGuardDomain (Some (AdGuardMatcher_Dump (written_adguard r))) rule
      else rule) rule =
  hset_AdGuardDomain (when_set (listed (h_AdGuardDomain r) && recover)
                        (Some (AdGuardMatcher_Dump (written_adguard r))) (h_AdGuardDomain rule))
    (hset_AdGuardDomainMatcher (when_set (listed (h_AdGuardDomain r)) (Some (written_adguard r))
                                  (h_AdGuardDomainMatcher rule)) rule).
Proof. unfold opt. destruct (listed (h_AdGuardDomain r)), recover, rule; reflexivity. Qed.

Definition set_or {A} (m : option A) (old : option A) : option A :=
  match m with Some x => Some x | None => old end.

Lemma effect_source_set l rule :
  opt_set l (λ set rule,
      let rule := hset_SourceIPSet (Some set) rule in
      if recover then hset_SourceIPCIDR (Some (dump_set set)) rule else rule) rule =
  hset_SourceIPCIDR (set_or (recovered recover dump_set (decoded_set l)) (h_SourceIPCIDR rule))
    (hset_SourceIPSet (set_or (decoded_set l) (h_SourceIPSet rule)) rule).
Proof. unfold opt_set. destruct (decoded_set l), recover, rule; reflexivity. Qed.

Lemma effect_set l rule :
  opt_set l (λ set rule,
      let rule := hset_IPSet (Some set) rule in
      if recover then hset_IPCIDR (Some (dump_set set)) rule else rule) rule =
  hset_IPCIDR (set_or (recovered recover dump_set (decoded_set l)) (h_IPCIDR rule))
    (hset_IPSet (set_or (decoded_set l) (h_IPSet rule)) rule).
Proof. unfold opt_set. destruct (decoded_set l), recover, rule; reflexivity. Qed.

Lemma keep_spec {A} (l : Listable A) :
  when_set (A := Listable A) (listed l) (Some (elems l)) None = keep l.
Proof. by destruct l as [[]|]. Qed.

Lemma set_or_None {A} (m : option A) : set_or m None = m.
Proof. by destruct m. Qed.

Lemma when_set_true c : when_set c true false = c.
Proof. by destruct c. Qed.

Ltac fields :=
  cbn [h_QueryType h_Network h_Domain h_DomainSuffix h_DomainKeyword h_DomainRegex
       h_SourceIPCIDR h_IPCIDR h_SourcePort h_SourcePortRange h_Port h_PortRange h_ProcessName
       h_ProcessPath h_ProcessPathRegex h_PackageName h_PackageNameRegex h_NetworkType
       h_NetworkIsExpensive h_NetworkIsConstrained h_WIFISSID h_WIFIBSSID
       h_NetworkInterfaceAddress h_DefaultInterfaceAddress h_Invert h_DomainMatcher
       h_SourceIPSet h_IPSet h_AdGuardDomain h_AdGuardDomainMatcher].
(** The innermost effect, on a rule that is given by its fields. *)
Tactic Notation "effect" constr(get) constr(set) reference(name) :=
  rewrite (opt_hset _ get set) by (by intros []); unfold name at 1; fields.

Lemma effects_decoded v r :
  hset_Invert (h_Invert r) (fold_left (λ r f, f r) (effects v r) (HeadlessOptionsZero false)) =
  decoded_default recover v r.
Proof.
  unfold effects. cbn [fold_left]. unfold HeadlessOptionsZero.
  effect h_QueryType hset_QueryType hset_QueryType.
  effect h_Network hset_Network hset_Network.
  rewrite effect_domain. unfold hset_DomainSuffix, hset_Domain, hset_DomainMatcher. fields.
  effect h_DomainKeyword hset_DomainKeyword hset_DomainKeyword.
  effect h_DomainRegex hset_DomainRegex hset_DomainRegex.
  rewrite effect_source_set. unfold hset_SourceIPCIDR, hset_SourceIPSet. fields.
  rewrite effect_set. unfold hset_IPCIDR, hset_IPSet. fields.
  effect h_SourcePort hset_SourcePort hset_SourcePort.
  effect h_SourcePortRange hset_SourcePortRange hset_SourcePortRange.
  effect h_Port hset_Port hset_Port.
  effect h_PortRange hset_PortRange hset_PortRange.
  effect h_ProcessName hset_ProcessName hset_ProcessName.
  effect h_ProcessPath hset_ProcessPath hset_ProcessPath.
  effect h_ProcessPathRegex hset_ProcessPathRegex hset_ProcessPathRegex.
  effect h_PackageName hset_PackageName hset_PackageName.
  effect h_PackageNameRegex hset_PackageNameRegex hset_PackageNameRegex.
  effect h_NetworkType hset_NetworkType hset_NetworkType.
  effect h_NetworkIsExpensive hset_NetworkIsExpensive hset_NetworkIsExpensive.
  effect h_NetworkIsConstrained hset_NetworkIsConstrained hset_NetworkIsConstrained.
  effect h_NetworkInterfaceAddress hset_NetworkInterfaceAddress hset_NetworkInterfaceAddress.
  effect h_DefaultInterfaceAddress hset_DefaultInterfaceAddress hset_DefaultInterfaceAddress.
  effect h_WIFISSID hset_WIFISSID hset_WIFISSID.
  effect h_WIFIBSSID hset_WIFIBSSID hset_WIFIBSSID.
  rewrite effect_adguard. unfold hset_AdGuardDomain, hset_AdGuardDomainMatcher. fields.
  unfold hset_Invert. fields. unfold decoded_default.
  f_equal; first [ reflexivity | apply keep_spec | apply set_or_None | apply when_set_true
                 | by destruct (has_domain r), recover
                 | by destruct (listed (h_AdGuardDomain r)), recover ].
Qed.

(** ** The items of a rule are read *)

Lemma typed_Put_new {V} k (v : V) m : k ∉ map fst m → typed_Put k v m = m ++ [(k, v)].
Proof.
  induction m as [|[k' v'] m IH]; cbn; [done|]. intros Hk.
  destruct (Z.eqb_spec k k') as [->|]; [exfalso; apply Hk; by left|].
  rewrite IH; [done|]. intros Hin. apply Hk. by right.
Qed.

Lemma typed_Put_all {V} (l m : list (Z * V)) :
  NoDup (map fst (m ++ l)) → fold_left (λ m e, typed_Put e.1 e.2 m) l m = m ++ l.
Proof.
  revert m. induction l as [|[k v] l IH]; intros m Hd; cbn; [by rewrite app_nil_r|].
  rewrite map_app in Hd. cbn in Hd. rewrite typed_Put_new.
  - rewrite IH; [by rewrite <- app_assoc|]. by rewrite <- app_assoc, map_app.
  - apply NoDup_app in Hd as (_ & Hd & _). intros Hin. apply (Hd k Hin). by left.
Qed.

Lemma reads_interfaces l :
  fits l → NoDup (map fst l) → Forall (λ e, 0 <= e.1 < 256 ∧ prefixes_ok e.2) l →
  reads (z2b ruleItemNetworkInterfaceAddress :: write_len l ++
         concat (map (λ e, z2b (u8 e.1) :: writePrefixes e.2) l))
    (hset_NetworkInterfaceAddress (Some l)).
Proof.
  intros Hf Hd Hl. apply reads_item. intros fuel last rule rest.
  assert (Hstep : ∀ b, readDefaultRule_loop recover (S fuel) last rule
      (z2b ruleItemNetworkInterfaceAddress :: b) =
    ('(size, b) ← ReadUvarint b;
     '(entries, b) ← read_times (λ _ b,
       '(key, b) ← read_byte b; '(value, b) ← readPrefixes b; Ok ((key, value), b)) size b;
     readDefaultRule_loop recover fuel (b2z (z2b ruleItemNetworkInterfaceAddress))
       (hset_NetworkInterfaceAddress (Some (fold_left (λ m e, typed_Put e.1 e.2 m) entries []))
          rule) b)) by reflexivity.
  rewrite Hstep, <- app_assoc, ReadUvarint_len by done. cbn [mbind result_bind].
  rewrite Forall_forall in Hl.
  rewrite (read_times_spec _ (λ e, z2b (u8 e.1) :: writePrefixes e.2)); [|done|].
  - cbn [mbind result_bind]. by rewrite typed_Put_all.
  - intros [k value] j b Hin. destruct (Hl _ Hin) as [Hk Hv]; cbn [fst snd] in *.
    rewrite <- app_comm_cons, (wrap_small 8), read_byte_z2b by done. cbn [mbind result_bind].
    by rewrite readPrefixes_spec.
Qed.

Lemma reads_default_interface l :
  prefixes_ok l → has_items l = true →
  reads (z2b ruleItemDefaultInterfaceAddress :: writePrefixes l)
    (hset_DefaultInterfaceAddress (Some l)).
Proof.
  intros Hl Hne. apply reads_item. intros fuel last rule rest.
  transitivity ('(value, b) ← readPrefixes (writePrefixes l ++ rest);
    readDefaultRule_loop recover fuel (b2z (z2b ruleItemDefaultInterfaceAddress))
      (hset_DefaultInterfaceAddress (of_slice value) rule) b); [reflexivity|].
  rewrite readPrefixes_spec by done. by destruct l.
Qed.

Lemma reads_network_type l :
  fits l → Forall (λ x, 0 <= x < 256) l →
  reads (writeRuleItemUint8 ruleItemNetworkType l) (hset_NetworkType (Some l)).
Proof.
  intros Hf Hl. apply reads_item. intros fuel last rule rest.
  transitivity ('(l, b) ← varbin_ReadSlice8 ((write_len l ++ map z2b l) ++ rest);
    readDefaultRule_loop recover fuel (b2z (z2b ruleItemNetworkType))
      (hset_NetworkType (Some (map b2z l)) rule) b); [reflexivity|].
  rewrite <- app_assoc, write_len_Put by done.
  rewrite <- (length_map z2b l), ReadSlice8_law by (unfold fits; by rewrite length_map).
  cbn [mbind result_bind]. rewrite map_map, (map_ext_in _ id), map_id; [done|].
  intros x Hx. rewrite Forall_forall in Hl. apply b2z_z2b_small, Hl. by apply list_elem_of_In.
Qed.

Lemma reads_domain m :
  reads (z2b ruleItemDomain :: Matcher_Write m) (λ rule,
    let rule := hset_DomainMatcher (Some m) rule in
    if recover then hset_DomainSuffix (Some (Matcher_Dump m).2)
                      (hset_Domain (Some (Matcher_Dump m).1) rule)
    else rule).
Proof.
  apply reads_item. intros fuel last rule rest.
  transitivity ('(m, b) ← domain_ReadMatcher (Matcher_Write m ++ rest);
    readDefaultRule_loop recover fuel (b2z (z2b ruleItemDomain))
      (let rule := hset_DomainMatcher (Some m) rule in
       if recover then hset_DomainSuffix (Some (Matcher_Dump m).2)
                         (hset_Domain (Some (Matcher_Dump m).1) rule) else rule) b);
    [reflexivity|]. by rewrite ReadMatcher_law.
Qed.

Lemma reads_adguard m :
  reads (z2b ruleItemAdGuardDomain :: AdGuardMatcher_Write m) (λ rule,
    let rule := hset_AdGuardDomainMatcher (Some m) rule in
    if recover then hset_AdGuardDomain (Some (AdGuardMatcher_Dump m)) rule else rule).
Proof.
  apply reads_item. intros fuel last rule rest.
  transitivity ('(m, b) ← domain_ReadAdGuardMatcher (AdGuardMatcher_Write m ++ rest);
    readDefaultRule_loop recover fuel (b2z (z2b ruleItemAdGuardDomain))
      (let rule := hset_AdGuardDomainMatcher (Some m) rule in
       if recover then hset_AdGuardDomain (Some (AdGuardMatcher_Dump m)) rule else rule) b);
    [reflexivity|]. by rewrite ReadAdGuardMatcher_law.
Qed.

Lemma items_read v r :
  default_ok r → Forall2 part_reads (writeDefaultRule_items r v) (effects v r).
Proof.
  intros (Hs & Hp & [Hnt1 Hnt2] & (Hni1 & Hni2 & Hni3) & Hdi).
  repeat (apply Forall_cons in Hs as [? Hs]). repeat (apply Forall_cons in Hp as [? Hp]).
  unfold writeDefaultRule_items, writeDefaultRule_addressItems, writeDefaultRule_otherItems, effects.
  cbn [app].
  repeat (apply Forall2_cons_2;
    [first [ apply part_strings; [done|reflexivity]
           | apply part_uint16; [done|reflexivity]
           | apply part_cidr; reflexivity
           | apply part_if; intros Hc; apply reads_domain
           | apply part_since; intros Hc; first
               [ apply reads_strings; [done|done|reflexivity] | apply reads_network_type; done
               | apply reads_interfaces; done | apply reads_default_interface; done
               | apply reads_adguard | apply (reads_item _ []); reflexivity ] ]|]).
  apply Forall2_nil_2.
Qed.

Lemma writeDefaultRule_read v r bytes rest :
  default_ok r → writeDefaultRule r v = Ok bytes →
  ∃ body, bytes = z2b 0 :: body ∧
    readDefaultRule recover (body ++ rest) = Ok (decoded_default recover v r, rest).
Proof.
  intros Hok. unfold writeDefaultRule.
  destruct (write_all (writeDefaultRule_items r v)) as [its| |] eqn:E; cbn [mbind result_bind]; try done.
  intros [=<-]. eexists. split; [done|].
  pose proof (write_all_reads _ _ _ (items_read v r Hok) E) as Hr.
  unfold readDefaultRule. rewrite <- app_assoc.
  edestruct (Hr (S (length (its ++ [z2b ruleItemFinal; z2b (if h_Invert r then 1 else 0)] ++ rest)))
    0 (HeadlessOptionsZero false) ([z2b ruleItemFinal; z2b (if h_Invert r then 1 else 0)] ++ rest))
    as (fuel & last & Hf & ->); [lia|].
  destruct fuel as [|fuel]; [lia|]. rewrite <- effects_decoded. cbn [app].
  transitivity ('(inv, b) ← read_bool (z2b (if h_Invert r then 1 else 0) :: rest);
    Ok (hset_Invert inv (fold_left (λ r f, f r) (effects v r) (HeadlessOptionsZero false)), b));
    [reflexivity|].
  by destruct (h_Invert r).
Qed.

(** ** Rules *)

Lemma writeRule_nonempty v o bytes : writeRule o v = Ok bytes → bytes ≠ [].
Proof.
  destruct o as [ty d mode rules inv]. cbn [writeRule]. unfold writeDefaultRule.
  case_bool_decide; [intros Hw; by go_inv|]. case_bool_decide; [|done]. intros Hw. by go_inv.
Qed.

Lemma readRule_at_step depth b :
  readRule_at depth recover b =
  ('(ruleType, b) ← read_byte b;
   if ruleType =? 0 then
     '(r, b) ← readDefaultRule recover b;
     Ok (MkHeadlessRuleOptions "default" r "" [] false, b)
   else if ruleType =? 1 then
     '(mode, b) ← read_byte b;
     mode ← (if mode =? 0 then Ok "and"%string else if mode =? 1 then Ok "or"%string
             else Err (ENew ("unknown logical mode: " +:+ pretty mode)%string));
     '(length, b) ← ReadUvarint b;
     '(rules, b) ← read_times (λ i b,
       map_err (λ e, ECause e ("read logical rule [" +:+ pretty (Z.of_nat i) +:+ "]")%string)
         match depth with
         | O => Err (ENew "logical rule nested too deep")
         | S depth => readRule_at depth recover b
         end) length b;
     '(inv, b) ← read_bool b;
     Ok (MkHeadlessRuleOptions "logical" (HeadlessOptionsZero false) mode rules inv, b)
   else Err (ENew ("unknown rule type: " +:+ pretty ruleType)%string)).
Proof. by destruct depth. Qed.

(** The rules of a list, read with [f] one after the other. *)
Lemma rules_read (f : nat → list byte → result (HeadlessRuleOptions * list byte)) v rules body :
  Forall (λ rule, ∀ j bytes rest, writeRule rule v = Ok bytes →
    f j (bytes ++ rest) = Ok (decoded recover v rule, rest)) rules →
  mapM_idx (λ _ rule, writeRule rule v) 0 rules = Ok body →
  Forall2 (λ b x, b ≠ [] ∧ ∀ j rest, f j (b ++ rest) = Ok (x, rest))
    body (map (decoded recover v) rules).
Proof.
  intros Hf Hbody%mapM_idx_Forall2. induction Hbody as [|r b rules body [j Hw] Hall IH]; cbn [map];
    [constructor|]. apply Forall_cons in Hf as [Hr Hf].
  constructor; [|by apply IH]. split; [by eapply writeRule_nonempty|]. intros j' rest. by apply Hr.
Qed.

Lemma writeRule_read v o : ∀ depth bytes rest,
  rule_fits depth o → writeRule o v = Ok bytes →
  readRule_at depth recover (bytes ++ rest) = Ok (decoded recover v o, rest).
Proof.
  induction o as [ty d mode rules inv IH] using HeadlessRuleOptions_nested_ind.
  intros depth bytes rest Hfit Hw. rewrite readRule_at_step. cbn [writeRule decoded rule_fits] in *.
  assert (Hfit' : if bool_decide (ty = "default"%string) then default_ok d
                  else fits rules ∧ match depth with
                                    | O => rules = []
                                    | S depth => Forall (rule_fits depth) rules
                                    end) by (by destruct depth).
  clear Hfit. case_bool_decide as Hty.
  - destruct (writeDefaultRule_read v d bytes rest Hfit' Hw) as (body & -> & Hr).
    rewrite <- app_comm_cons, read_byte_z2b by lia. cbn [mbind result_bind].
    change (0 =? 0) with true. cbv iota. rewrite Hr. by subst ty.
  - case_bool_decide as Hl; [|done]. destruct Hfit' as [Hf Hsub].
    assert (∃ modeByte body, (mode = "and"%string ∧ modeByte = 0 ∨ mode = "or"%string ∧ modeByte = 1) ∧
      mapM_idx (λ _ rule, writeRule rule v) 0 rules = Ok body ∧
      bytes = z2b 1 :: z2b modeByte :: write_len rules ++ concat body ++ [z2b (if inv then 1 else 0)])
      as (modeByte & body & Hmode & Hbody & ->).
    { repeat case_bool_decide; [| |done]; go_inv; eexists _, _; split_and!; try done; auto. }
    rewrite <- !app_comm_cons, read_byte_z2b by lia. cbn [mbind result_bind].
    change (1 =? 0) with false. change (1 =? 1) with true. cbv iota.
    rewrite read_byte_z2b by lia. cbn [mbind result_bind].
    assert ((if modeByte =? 0 then Ok "and"%string else if modeByte =? 1 then Ok "or"%string
             else Err (ENew ("unknown logical mode: " +:+ pretty modeByte)%string)) = Ok mode) as ->
      by (by destruct Hmode as [[-> ->]|[-> ->]]).
    cbn [mbind result_bind]. rewrite <- !app_assoc, ReadUvarint_len by done. cbn [mbind result_bind].
    rewrite <- (length_map (decoded recover v) rules).
    match goal with |- context [read_times ?f _ _] => set (g := f) end.
    rewrite read_times_Forall2.
    + cbn [mbind result_bind app]. subst ty. by destruct inv.
    + apply (rules_read g v); [|done]. subst g. destruct depth as [|depth]; [by subst|].
      apply Forall_forall. intros r Hr j b rest' Hwr.
      rewrite Forall_forall in IH, Hsub. by rewrite (IH r Hr depth b rest' (Hsub r Hr) Hwr).
Qed.

End RoundTrip.
