(* ===== verification/SrsTotal.v ===== *)
(** * Reading a rule-set ends with rules or an error

    [good n r]: the result [r] is an error, or a value with fewer than [n] bytes
    left; it is no panic, and no loop whose fuel was used up. Every reader takes at
    least a byte, so that loops over a count the file gives end when the file does. *)
From Stdlib Require Import Strings.Byte Strings.String.
From stdpp Require Import base list strings pretty gmap.
From S2P Require Import Prelude Netip Metadata RuleItems RuleAction Concrete RuleOptions Srs SrsCodec.

Definition good {A} (n : nat) (r : result (A * list byte)) : Prop :=
  match r with
  | Ok (_, b) => (length b < n)%nat
  | Err _ => True
  | Panic _ => False
  end.

(** The readers the sources only call return, with at least a byte taken. *)
Class ReaderLaws `{Extern, Varbin} : Prop := {
  ReadSlice8_good b : good (length b) (varbin_ReadSlice8 b);
  ReadSlice16_good b : good (length b) (varbin_ReadSlice16 b);
  ReadMatcher_good b : good (length b) (domain_ReadMatcher b);
  ReadAdGuardMatcher_good b : good (length b) (domain_ReadAdGuardMatcher b);
  zlib_NewReader_returns b : ∀ e, zlib_NewReader b ≠ Panic e;
}.

Lemma good_weaken {A} n m (r : result (A * list byte)) : good n r → (n ≤ m)%nat → good m r.
Proof. destruct r as [[? b]| |]; cbn; try done. lia. Qed.

Lemma good_bind {A B} n m (r : result (A * list byte)) (k : A → list byte → result (B * list byte)) :
  good n r → (∀ x b, (length b < n)%nat → good m (k x b)) → good m ('(x, b) ← r; k x b).
Proof. destruct r as [[x b]| |]; cbn; intros Hr Hk; [by apply Hk|done|done]. Qed.

Lemma good_pure {A B} m (r : result A) (k : A → result (B * list byte)) :
  (∀ e, r ≠ Panic e) → (∀ x, good m (k x)) → good m (x ← r; k x).
Proof. destruct r as [x|e|e]; cbn; intros Hr Hk; [apply Hk|done|by destruct (Hr e)]. Qed.

Lemma good_map_err {A} n (r : result (A * list byte)) f : good n r → good n (map_err f r).
Proof. by destruct r as [[? ?]| |]. Qed.

Lemma read_byte_good b : good (length b) (read_byte b).
Proof. destruct b; cbn; [done|lia]. Qed.

Lemma read_bool_good b : good (length b) (read_bool b).
Proof. destruct b; cbn; [done|lia]. Qed.

Lemma io_ReadFull_good n b : (0 < n)%nat → good (length b) (io_ReadFull n b).
Proof.
  intros Hn. unfold io_ReadFull. destruct (Nat.ltb_spec (length b) n); [done|]. cbn.
  rewrite length_drop. lia.
Qed.

Lemma ReadUvarint_loop_good fuel i x b : good (length b) (ReadUvarint_loop fuel i x b).
Proof.
  revert i x b. induction fuel as [|fuel IH]; intros i x b; [done|]. cbn.
  destruct b as [|c b]; [done|]. cbn. destruct (b2z c <? 128).
  - destruct (_ && _); cbn; [done|lia].
  - eapply good_weaken; [apply IH|lia].
Qed.

Lemma ReadUvarint_good b : good (length b) (ReadUvarint b).
Proof. apply ReadUvarint_loop_good. Qed.

(** ** Counted loops *)

Section Times.
Context {A : Type} (f : nat → list byte → result (A * list byte)).
Hypothesis f_good : ∀ i b, good (length b) (f i b).

(** Every round takes a byte: whatever the count, the loop ends before its fuel. *)
Lemma read_loop_good fuel n i b : (length b < fuel)%nat → good (S (length b)) (read_loop f fuel n i b).
Proof.
  revert n i b. induction fuel as [|fuel IH]; intros n i b Hfuel; [lia|]. cbn [read_loop].
  destruct (n <=? 0); [cbn; lia|]. eapply good_bind; [apply f_good|]. intros x b' Hb'.
  eapply good_bind; [apply IH; lia|]. cbn. lia.
Qed.

Lemma read_times_good n b : good (S (length b)) (read_times f n b).
Proof. apply read_loop_good. lia. Qed.

(** More fuel changes nothing: the fuel of [read_times] is that of a loop without bound. *)
Lemma read_loop_fuel fuel fuel' n i b :
  (length b < fuel)%nat → (fuel ≤ fuel')%nat → read_loop f fuel' n i b = read_loop f fuel n i b.
Proof.
  revert fuel' n i b. induction fuel as [|fuel IH]; intros [|fuel'] n i b Hn Hm; [lia|lia|lia|]. cbn [read_loop].
  destruct (n <=? 0); [done|].
  pose proof (f_good i b) as Hf. destruct (f i b) as [[x b']| |]; cbn in *; [|done|done].
  rewrite (IH fuel'); [done|lia|lia].
Qed.
End Times.

(** ** The parts of a rule *)

Section Parts.
Context `{ReaderLaws}.

(** Steps through a reader: the reader of each value, then the bytes that are left. *)
Ltac step l :=
  eapply good_bind; [apply l; try done|]; intros ? ? ?.

Lemma readRuleItemString_good b : good (length b) (readRuleItemString b).
Proof.
  unfold readRuleItemString. step ReadUvarint_good. eapply good_bind.
  - apply read_times_good. intros _ b'. step ReadSlice8_good. done.
  - cbn. intros. lia.
Qed.

Lemma readIPSetAddr_good b : good (length b) (readIPSetAddr b).
Proof.
  unfold readIPSetAddr. step ReadUvarint_good.
  destruct (negb _ && negb _) eqn:E; [done|]. unfold read_addrBytes. rewrite (proj2 (Z.ltb_ge _ _)) by lia.
  eapply good_bind; [apply io_ReadFull_good; lia|]. cbn. lia.
Qed.

Lemma readIPSet_good b : good (length b) (readIPSet b).
Proof.
  unfold readIPSet. step read_byte_good. destruct (negb _); [done|].
  unfold read_uint64. eapply good_bind.
  { eapply good_bind; [apply io_ReadFull_good; lia|]. cbn. eauto. }
  intros n b' Hb'. eapply good_weaken; [apply read_times_good|lia].
  intros _ b''. step readIPSetAddr_good. step readIPSetAddr_good. cbn. lia.
Qed.

Lemma readPrefix_good b : good (length b) (readPrefix b).
Proof. rewrite readPrefix_addr. step readIPSetAddr_good. step read_byte_good. cbn. lia. Qed.

Lemma readPrefixes_good b : good (length b) (readPrefixes b).
Proof.
  unfold readPrefixes. step ReadUvarint_good. eapply good_weaken; [apply read_times_good|lia].
  intros _ b'. apply readPrefix_good.
Qed.

(** ** Rules *)

(** One item: a reader, then the items after it. *)
Ltac branch l :=
  eapply good_bind; [apply l|]; intros ? ? ?;
  match goal with Hnext : _ |- _ => solve [apply Hnext; lia] end.

Lemma readDefaultRule_loop_good recover fuel last rule b :
  (length b < fuel)%nat → good (length b) (readDefaultRule_loop recover fuel last rule b).
Proof.
  revert last rule b. induction fuel as [|fuel IH]; intros last rule b Hf; [lia|].
  cbn [readDefaultRule_loop]. step read_byte_good.
  assert (Hnext : ∀ last rule b', (length b' < length b)%nat →
    good (length b) (readDefaultRule_loop recover fuel last rule b')).
  { intros last' rule' b' Hb'. eapply good_weaken; [apply IH; lia|lia]. }
  clear IH. cbv zeta. revert Hnext. generalize (readDefaultRule_loop recover fuel). intros next Hnext.
  repeat match goal with
  | |- good _ (if _ =? ?t then _ else _) =>
      unfold t at 1; destruct (_ =? _);
      [first [ apply Hnext; lia
             | branch ReadSlice16_good | branch readRuleItemString_good | branch ReadMatcher_good
             | branch readIPSet_good | branch ReadAdGuardMatcher_good | branch ReadSlice8_good
             | branch readPrefixes_good
             | step ReadUvarint_good; eapply good_bind;
               [apply read_times_good; intros _ ?; step read_byte_good; step readPrefixes_good; cbn; lia
               |intros; apply Hnext; lia]
             | step read_bool_good; cbn; lia ]|]
  end.
  exact I.
Qed.

Lemma readDefaultRule_good recover b : good (length b) (readDefaultRule recover b).
Proof. apply readDefaultRule_loop_good. lia. Qed.

Lemma readRule_at_good depth recover b : good (length b) (readRule_at depth recover b).
Proof.
  revert b. induction depth as [|depth IH]; intros b; cbn [readRule_at];
    (step read_byte_good; case_match; [step readDefaultRule_good; cbn; lia|]; case_match; [|done];
     step read_byte_good; apply good_pure; [by repeat case_match|]; intros mode;
     step ReadUvarint_good; eapply good_bind;
     [apply read_times_good; intros i b'; apply good_map_err; try done; apply IH
     |intros rules b' Hb'; step read_bool_good; cbn; lia]).
Qed.

End Parts.
