(* ===== verification/SrsTheorems.v ===== *)
(** * Rule-set files: the theorems

    A file that was written is read back as the rules that went in; which rules can
    be written at which version of the format; reading ends with rules or an error
    on every input; rules nested too deep are written but refused. *)
From Stdlib Require Import Strings.Byte Strings.String.
From stdpp Require Import base list strings pretty gmap.
From S2P Require Import Prelude Netip Metadata RuleItems RuleAction Concrete RuleOptions RuleBuildFacts Srs SrsCodec SrsFacts SrsTotal.

(** ** A concrete varbin *)

#[export] Instance c_varbin : Varbin := {|
  varbin_WriteUvarint := PutUvarint;
  varbin_ReadSlice8 b := '(n, b) ← ReadUvarint b; io_ReadFull (Z.to_nat (Z.min n (Z.of_nat (length b) + 1))) b;
  varbin_ReadSlice16 b :=
    '(n, b) ← ReadUvarint b;
    read_times (λ _ b, '(l, b) ← io_ReadFull 2 b; Ok (be_combine l, b)) n b;
  zlib_compress b := b;
  zlib_NewReader b := Ok b;
|}.

Lemma c_ReadSlice8_law l rest :
  fits l → varbin_ReadSlice8 (PutUvarint (Z.of_nat (length l)) ++ l ++ rest) = Ok (l, rest).
Proof.
  intros Hl. cbn [varbin_ReadSlice8 c_varbin]. rewrite ReadUvarint_Put by (unfold fits in Hl; lia).
  cbn [mbind result_bind]. rewrite length_app, Z.min_l, Nat2Z.id by lia. apply io_ReadFull_app.
Qed.

Lemma c_ReadSlice16_law l rest :
  fits l → Forall (λ x, 0 <= x < 2 ^ 16) l →
  varbin_ReadSlice16 (PutUvarint (Z.of_nat (length l)) ++ concat (map (be_split 2) l) ++ rest) =
  Ok (l, rest).
Proof.
  intros Hl Hr. cbn [varbin_ReadSlice16 c_varbin]. rewrite ReadUvarint_Put by (unfold fits in Hl; lia).
  cbn [mbind result_bind]. apply (read_times_spec _ (be_split 2)).
  - intros x _ Hx. apply (f_equal length) in Hx. by rewrite length_be_split in Hx.
  - intros x j b Hx. rewrite Forall_forall in Hr. specialize (Hr x Hx).
    rewrite <- (length_be_split 2 x) at 1. rewrite io_ReadFull_app. cbn [mbind result_bind].
    by rewrite be_combine_split.
Qed.

Lemma addr_inside_ok a : addr_inside a = true → addr_ok a.
Proof.
  destruct a as [|v|v zone]; cbn; [done|lia|]. rewrite !andb_true_iff, bool_decide_eq_true.
  intros [? ->]. split; [lia|done].
Qed.

Lemma c_IPSetBuilder_law inputs s :
  IPSetBuilder_IPSet inputs = Ok s → Forall range_ok s ∧ fits s.
Proof.
  cbn [IPSetBuilder_IPSet concrete]. unfold c_IPSetBuilder_IPSet.
  destruct (forallb _ _) eqn:E; cbn [andb]; [|done].
  destruct (Z.ltb_spec (Z.of_nat (length (map (λ i, match i with
    | AddPrefix p => prefix_range p | AddAddr a => MkIPRange a a end) inputs))) (2 ^ 64)); [|done].
  intros [= <-]. split; [|done]. apply Forall_forall. intros r Hr.
  rewrite forallb_forall in E. specialize (E r ltac:(by apply list_elem_of_In)).
  apply andb_true_iff in E as [? ?]. split; by apply addr_inside_ok.
Qed.

Lemma c_AddrFromIP_law a : addr_ok a → AddrFromIP (Addr_AsSlice a) = a.
Proof.
  destruct a as [|v|v zone]; cbn [addr_ok]; [done| |]; intros Hv;
    cbn [AddrFromIP concrete Addr_AsSlice]; rewrite length_be_split; cbn [Nat.eqb].
  - by rewrite be_combine_split.
  - destruct Hv as [? ->]. by rewrite be_combine_split.
Qed.

#[export] Instance c_srs_laws : SrsLaws.
Proof.
  split; eauto using c_ReadSlice8_law, c_ReadSlice16_law, concrete_matcher_roundtrip,
    concrete_adguard_roundtrip, c_AddrFromIP_law, c_IPSetBuilder_law.
Qed.

Lemma get_strings_good n : ∀ acc cur b, (length b ≤ n)%nat → good (length b) (get_strings acc cur b).
Proof.
  induction n as [|n IH]; intros acc cur b Hn.
  - destruct b; [|cbn in Hn; lia]. by destruct cur.
  - destruct b as [|x b]; [by destruct cur|]. cbn in Hn.
    assert (Hb : ∀ acc cur, good (S (length b)) (get_strings acc cur b))
      by (intros; eapply good_weaken; [apply IH; lia|lia]).
    destruct cur as [cs|], x; try exact I; cbn; try apply Hb; try lia.
    destruct b as [|c b]; [done|]. cbn in Hn |- *. eapply good_weaken; [apply IH; lia|lia].
Qed.

#[export] Instance c_reader_laws : ReaderLaws.
Proof.
  split; intros b; cbn [varbin_ReadSlice8 varbin_ReadSlice16 domain_ReadMatcher concrete c_varbin
    domain_ReadAdGuardMatcher zlib_NewReader].
  - eapply good_bind; [apply ReadUvarint_good|]. intros n b' Hb'. unfold io_ReadFull.
    case_match; [done|]. cbn. rewrite length_drop. lia.
  - eapply good_bind; [apply ReadUvarint_good|]. intros n b' Hb'.
    eapply good_weaken; [apply read_times_good|lia]. intros _ b''.
    eapply good_bind; [apply io_ReadFull_good; lia|]. cbn. lia.
  - eapply good_bind; [by apply (get_strings_good (length b))|]. intros x b' Hb'.
    eapply good_bind; [by apply (get_strings_good (length b'))|]. cbn. lia.
  - by apply (get_strings_good (length b)).
  - done.
Qed.

(** ** Files *)

Section Files.
Context `{Extern, Varbin}.

(** How [Read] reads one of the rules of a file. *)
Definition read_indexed (recover : bool) (i : nat) (b : list byte)
    : result (HeadlessRuleOptions * list byte) :=
  map_err (λ e, ECause e ("read rule[" +:+ pretty (Z.of_nat i) +:+ "]")%string) (readRule recover b).

(** The header of a written file leads [Read] to its rules. *)
Lemma Read_header `{!SrsLaws} recover rules version bytes :
  0 <= version <= RuleSetVersionCurrent → fits rules → Write rules version = Ok bytes →
  ∃ body, mapM_idx (λ _ rule, writeRule rule version) 0 rules = Ok body ∧
    Read bytes recover =
    ('(l, _) ← read_times (read_indexed recover) (Z.of_nat (length rules)) (concat body ++ []);
     Ok (version, l)).
Proof.
  intros Hv Hf Hw. unfold Write in Hw.
  destruct (mapM_idx _ 0 rules) as [body| |] eqn:Hbody; cbn in Hw; [|done|done].
  injection Hw as <-. exists body. split; [done|]. unfold Read.
  change (io_ReadFull 3 _) with
    (Ok (MagicBytes, z2b version :: zlib_compress (write_len rules ++ concat body))).
  cbn [mbind result_bind]. rewrite bool_decide_eq_true_2 by done. cbv [negb].
  unfold RuleSetVersionCurrent in *. rewrite read_byte_z2b by lia. cbn [mbind result_bind].
  destruct (Z.ltb_spec 5 version); [lia|]. rewrite zlib_law. cbn [mbind result_bind].
  rewrite ReadUvarint_len by done. cbn [mbind result_bind]. by rewrite app_nil_r.
Qed.

Lemma Read_written `{!SrsLaws} recover rules version bytes :
  0 <= version <= RuleSetVersionCurrent → fits rules →
  Forall (rule_fits maxLogicalRuleDepth) rules → Write rules version = Ok bytes →
  Read bytes recover = Ok (version, map (decoded recover version) rules).
Proof.
  intros Hv Hf Hall Hw. destruct (Read_header recover _ _ _ Hv Hf Hw) as (body & Hbody & ->).
  rewrite <- (length_map (decoded recover version) rules), read_times_Forall2; [done|].
  apply (rules_read recover (read_indexed recover) version); [|done].
  apply Forall_forall. intros r Hr j b rest Hwr. rewrite Forall_forall in Hall.
  unfold read_indexed, readRule.
  by rewrite (writeRule_read recover version r _ b rest (Hall r Hr) Hwr).
Qed.

(** C4 A rule-set that [Write] wrote is read by [Read] as the same version and the
    same rules in the same order: every list, flag and mode of every rule, nested
    logical rules included, with the domains and prefixes as the matchers and address
    sets they were compiled to, and recovered from those when asked for. *)
Theorem Write_Read `{!SrsLaws} recover rules version bytes :
  0 <= version <= RuleSetVersionCurrent →
  fits rules → Forall (rule_fits maxLogicalRuleDepth) rules →
  Write rules version = Ok bytes →
  Read bytes recover = Ok (version, map (decoded recover version) rules).
Proof. apply Read_written. Qed.

(** C26 [Read] returns on every input: with a version and rules or with an error.
    No byte sequence makes it panic (an address with a length other than four and sixteen
    would, which is read into an array of sixteen bytes) or loop: whatever counts it
    announces, no loop has more rounds than there are bytes, and one more; a loop with
    rounds to go after them would be a panic of the model. *)
Theorem Read_returns `{!ReaderLaws} b recover : ∀ e, Read b recover ≠ Panic e.
Proof.
  assert (Hr : ∀ e, match Read b recover with Ok _ | Err _ => True | Panic _ => False end → Read b recover ≠ Panic e)
    by (intros e; by destruct (Read b recover)).
  intros e. apply Hr. clear Hr e. unfold Read.
  pose proof (io_ReadFull_good 3 b ltac:(lia)) as Hb3.
  destruct (io_ReadFull 3 b) as [[magic b1]| |]; [cbn [mbind result_bind]|done|done].
  destruct (negb _); [done|]. pose proof (read_byte_good b1) as Hb1.
  destruct (read_byte b1) as [[version b2]| |]; [cbn [mbind result_bind]|done|done].
  destruct (_ <? version); [done|]. pose proof (zlib_NewReader_returns b2) as Hz.
  destruct (zlib_NewReader b2) as [b3| |]; [cbn [mbind result_bind]|done|by edestruct Hz].
  pose proof (ReadUvarint_good b3) as Hu.
  destruct (ReadUvarint b3) as [[n b4]| |]; [cbn [mbind result_bind]|done|done].
  match goal with |- context [read_times ?f ?n ?b] =>
    pose proof (read_times_good f (λ i b, good_map_err _ _ _ (readRule_at_good _ _ b)) n b) as Ht;
    destruct (read_times f n b) as [[rules b5]| |] end; done.
Qed.

(** ** Versions of the format *)

(** The lowest version that has every item of a rule. *)
Definition required_version (r : DefaultHeadlessRuleOptions) : Z :=
  if listed (h_PackageNameRegex r) then 5
  else if listed (h_NetworkInterfaceAddress r) || listed (h_DefaultInterfaceAddress r) then 4
  else if listed (h_NetworkType r) || h_NetworkIsExpensive r || h_NetworkIsConstrained r then 3
  else if listed (h_AdGuardDomain r) then 2 else 0.

Definition cidr_ok (l : Listable string) : Prop := listed l = true → is_ok (cidr_set (elems l)).

Lemma write_all_ok l : is_ok (write_all l) ↔ Forall (λ m, is_ok m) l.
Proof.
  induction l as [|m l IH]; cbn; [by split|].
  rewrite Forall_cons, <- IH. fold (write_all l). destruct m, (write_all l); cbn; tauto.
Qed.

Lemma write_since_ok c v since name bytes :
  is_ok (write_since c v since name bytes) ↔ (c → since <= v).
Proof.
  unfold write_since. destruct c; [|by split]. destruct (Z.ltb_spec v since); cbn; intuition lia.
Qed.

Lemma write_cidr_ok l t name : is_ok (write_cidr l t name) ↔ cidr_ok l.
Proof.
  unfold write_cidr, cidr_ok, writeRuleItemCIDR, cidr_set. destruct (listed l); [|by split].
  destruct (mapM_idx _ _ _) as [inputs| |]; cbn; [|tauto|tauto].
  destruct (IPSetBuilder_IPSet inputs); cbn; tauto.
Qed.

(** A rule is written exactly when the version of the file has all its items and
    its prefixes parse: newer items are refused with an error, never dropped. *)
Theorem writeDefaultRule_version r version :
  0 <= version →
  is_ok (writeDefaultRule r version) ↔
  required_version r <= version ∧ cidr_ok (h_SourceIPCIDR r) ∧ cidr_ok (h_IPCIDR r).
Proof.
  intros Hv. transitivity (Forall (λ m, is_ok m) (writeDefaultRule_items r version)).
  { rewrite <- write_all_ok. unfold writeDefaultRule. by destruct (write_all _). }
  unfold writeDefaultRule_items, writeDefaultRule_addressItems, writeDefaultRule_otherItems, write_if,
    required_version. cbn [app].
  rewrite !Forall_cons, Forall_nil, !write_since_ok, !write_cidr_ok. cbn [is_ok].
  destruct (listed (h_PackageNameRegex r)), (listed (h_NetworkInterfaceAddress r)),
    (listed (h_DefaultInterfaceAddress r)), (listed (h_NetworkType r)), (h_NetworkIsExpensive r),
    (h_NetworkIsConstrained r), (listed (h_AdGuardDomain r)); cbn [orb Is_true]; intuition lia.
Qed.

(** ** Nesting *)

(** A default rule inside [n] logical rules. *)
Fixpoint nest (n : nat) (d : DefaultHeadlessRuleOptions) : HeadlessRuleOptions :=
  match n with
  | O => MkHeadlessRuleOptions "default" d "" [] false
  | S n => MkHeadlessRuleOptions "logical" (HeadlessOptionsZero false) "and" [nest n d] false
  end.

Lemma nest_written n d version :
  is_ok (writeDefaultRule d version) → ∃ bytes, writeRule (nest n d) version = Ok bytes.
Proof.
  intros Hd. induction n as [|n [bytes IH]].
  - change (writeRule (nest 0 d) version) with (writeDefaultRule d version).
    destruct (writeDefaultRule d version) as [bytes| |]; [by exists bytes|done|done].
  - cbn [nest writeRule]. rewrite bool_decide_eq_false_2, !bool_decide_eq_true_2 by done.
    cbn [mbind result_bind mapM_idx]. rewrite IH. eauto.
Qed.

Lemma nest_fits n depth d : default_ok d → (n ≤ depth)%nat → rule_fits depth (nest n d).
Proof.
  revert depth. induction n as [|n IH]; intros depth Hd Hn.
  - destruct depth; cbn; by rewrite bool_decide_eq_true_2.
  - destruct depth as [|depth]; [lia|]. cbn. rewrite bool_decide_eq_false_2 by done.
    split; [done|]. constructor; [|done]. apply IH; [done|lia].
Qed.

(** The first rule of a list is one that is refused. *)
Lemma nest_refused `{!SrsLaws} recover depth n d version bytes rest :
  (depth < n)%nat → writeRule (nest n d) version = Ok bytes →
  ∃ e, readRule_at depth recover (bytes ++ rest) = Err e.
Proof.
  revert n bytes rest. induction depth as [|depth IH]; intros [|n] bytes rest Hn Hw; try lia;
    rewrite readRule_at_step; cbn [nest writeRule] in Hw;
    rewrite bool_decide_eq_false_2, !bool_decide_eq_true_2 in Hw by done;
    cbn [mbind result_bind mapM_idx] in Hw;
    (destruct (writeRule (nest n d) version) as [sub| |] eqn:E; [|done|done]); injection Hw as <-;
    cbn [app concat]; rewrite <- !app_assoc;
    rewrite read_byte_z2b by lia; cbn [mbind result_bind];
    change (1 =? 0) with false; change (1 =? 1) with true; cbv iota;
    rewrite read_byte_z2b by lia; cbn [mbind result_bind];
    change (0 =? 0) with true; cbv iota; cbn [mbind result_bind];
    rewrite ReadUvarint_len by done; cbn [mbind result_bind];
    unfold read_times; cbn [length read_loop]; change (Z.of_nat 1 <=? 0) with false; cbv iota.
  - cbn. eauto.
  - edestruct (IH n sub) as [e ->]; [lia|done|]. cbn. eauto.
Qed.

(** Logical rules nested [n] deep are written at every depth, and read back
    exactly when [n] is at most [maxLogicalRuleDepth]; deeper ones are an error. *)
Theorem nested_rules_limit `{!SrsLaws} recover n d version :
  0 <= version <= RuleSetVersionCurrent → default_ok d → is_ok (writeDefaultRule d version) →
  ∃ bytes, Write [nest n d] version = Ok bytes ∧
    if bool_decide (n ≤ maxLogicalRuleDepth)%nat
    then Read bytes recover = Ok (version, [decoded recover version (nest n d)])
    else ∃ e, Read bytes recover = Err e.
Proof.
  intros Hv Hd Hok. destruct (nest_written n d version Hok) as [sub Hsub].
  assert (Hw : ∃ bytes, Write [nest n d] version = Ok bytes)
    by (unfold Write; cbn; rewrite Hsub; eauto).
  destruct Hw as [bytes Hw]. exists bytes. split; [done|]. case_bool_decide as Hn.
  - apply (Read_written recover [nest n d]); try done. constructor; [|done]. by apply nest_fits.
  - destruct (Read_header recover [nest n d] version bytes) as (body & Hbody & ->); try done.
    cbn in Hbody. rewrite Hsub in Hbody. injection Hbody as <-. cbn [concat]. rewrite app_nil_r.
    unfold read_times. cbn [length read_loop]. change (Z.of_nat 1 <=? 0) with false. cbv iota.
    destruct (nest_refused recover maxLogicalRuleDepth n d version sub []) as [e He]; [lia|done|].
    unfold read_indexed, readRule. rewrite He. cbn. eauto.
Qed.

End Files.

(** ** The theorems at concrete files *)

Definition c_default : DefaultHeadlessRuleOptions :=
  let r := hset_Domain (Some ["example.org"%string]) (HeadlessOptionsZero true) in
  let r := hset_Port (Some [80; 443]) (hset_NetworkType (Some [1]) r) in
  let r := hset_IPCIDR (Some ["10.0.0.0/8"%string]) (hset_Network (Some ["tcp"%string]) r) in
  hset_DefaultInterfaceAddress (Some [MkPrefix (Addr4 167772160) 8]) r.

Definition c_rules : list HeadlessRuleOptions :=
  [nest 2 c_default; MkHeadlessRuleOptions "logical" (HeadlessOptionsZero false) "or" [] true].

Lemma c_default_ok : default_ok c_default.
Proof.
  unfold default_ok, strings_ok, prefixes_ok, prefix_ok, addr_ok, fits. cbn.
  repeat match goal with
  | |- _ ∧ _ => split
  | |- Forall _ _ => constructor
  | |- NoDup _ => constructor
  end; cbn; try lia; try done.
Qed.

Lemma Write_Read_witness :
  ∃ bytes, Write c_rules 4 = Ok bytes ∧
    Read bytes true = Ok (4, map (decoded true 4) c_rules).
Proof.
  assert (Hok : is_ok (Write c_rules 4) = true) by (vm_compute; reflexivity).
  destruct (Write c_rules 4) as [bytes| |] eqn:E; [|discriminate Hok|discriminate Hok].
  exists bytes. split; [reflexivity|]. apply Write_Read; [unfold RuleSetVersionCurrent; lia| | |exact E].
  - unfold fits. cbn. lia.
  - constructor; [apply nest_fits; [apply c_default_ok|unfold maxLogicalRuleDepth; lia]|].
    constructor; [|constructor]. cbn. split; [unfold fits; cbn; lia|constructor].
Defined.

Lemma Read_returns_witness : Read (MagicBytes ++ [x05; xff; xff; x03; x00; x2a]) true ≠ Panic "".
Proof. apply Read_returns. Defined.

Lemma writeDefaultRule_version_witness :
  is_ok (writeDefaultRule c_default 4) ↔
  required_version c_default <= 4 ∧ cidr_ok (h_SourceIPCIDR c_default) ∧ cidr_ok (h_IPCIDR c_default).
Proof. apply writeDefaultRule_version. lia. Defined.

Lemma nested_rules_limit_witness :
  ∃ bytes, Write [nest 101 c_default] 5 = Ok bytes ∧ ∃ e, Read bytes false = Err e.
Proof.
  apply (nested_rules_limit false 101 c_default 5);
    [unfold RuleSetVersionCurrent; lia|apply c_default_ok|vm_compute; exact I].
Defined.
