(* ===== verification/FakeIP.v ===== *)
(** * FakeIP addresses: dns/transport/fakeip/store.go

    A pool is an address range whose offsets are given to domains in a ring; the
    store has a pool per family, answers queries and connections from memory and
    writes the changes to a table in the cache file (experimental/cachefile/fakeip.go).

    Records are shared: the two indexes of a pool, its lists of changes and a save
    under way all refer to the same record, and the code compares references. A pool
    here has its records in a heap, [pl_records], and refers to them by number.

    The clock is an argument of the operations that read it. [MapOrder] is the order in
    which a [range] over a map visits it, which differs from one loop to the next.
    Logging and the time of the last warning are left out. *)
From stdpp Require Import base list gmap sorting strings countable.
From S2P Require Import Prelude Netip Metadata.

Definition firstOffset : Z := 2.
Definition reserveStep : Z := 1024.
Definition recordLimit : Z := 65536.
Definition MaxUint32 : Z := 2 ^ 32 - 1.
(** [idleTimeout / tickUnit] and [protectTime / tickUnit]: 24 hours and one hour in
    units of 100 milliseconds *)
Definition idleTicks : Z := 864000.
Definition protectTicks : Z := 36000.

Record MapOrder : Type := MkMapOrder {
  iterate : gmap Z nat → list nat;
  iterate_perm m : iterate m ≡ₚ (map_to_list m).*2;
}.

Definition anyOrder : MapOrder := MkMapOrder (λ m, (map_to_list m).*2) (λ m, reflexivity _).

(** ** Records *)

Record record : Type := MkRecord {
  r_domain : string;
  r_offset : Z;
  r_lastUse : Z;
  r_dirty : bool;
  r_removing : bool;
}.

Definition rset_lastUse (v : Z) (r : record) : record :=
  MkRecord (r_domain r) (r_offset r) v (r_dirty r) (r_removing r).
Definition rset_dirty (v : bool) (r : record) : record :=
  MkRecord (r_domain r) (r_offset r) (r_lastUse r) v (r_removing r).
Definition rset_removing (v : bool) (r : record) : record :=
  MkRecord (r_domain r) (r_offset r) (r_lastUse r) (r_dirty r) v.

Definition held (r : record) : bool := negb (nonempty (r_domain r)).

Definition useTick (lastUse : Z) : Z := u32 (Z.shiftr lastUse 32).

(** Named [since] in the source. *)
Definition since (now lastUse : Z) : Z :=
  if useTick lastUse <? now then now - useTick lastUse else 0.

(** A record chosen to be removed; the pool it is of is the one that lists it. *)
Record removal : Type := MkRemoval { rm_record : nat; rm_lastUse : Z }.

(** ** Pools *)

Record pool : Type := MkPool {
  pl_prefix : Prefix;
  pl_base : Addr;
  pl_first : Z;
  pl_end : Z;
  pl_records : gmap nat record; (** the records made so far, by the reference to them *)
  pl_fresh : nat; (** the next reference *)
  pl_byName : gmap string nat;
  pl_byOffset : gmap Z nat;
  pl_next : Z;
  pl_advanced : Z;
  pl_step : Z;
  pl_budget : Z;
  pl_reserved : bool;
  pl_reserveLast : Z;
  pl_dirty : list nat;
  pl_expired : list removal;
  pl_forgotten : list Z;
  pl_limit : Z;
  pl_max : Z;
}.

Definition pset_records (v : gmap nat record) (p : pool) : pool :=
  MkPool (pl_prefix p) (pl_base p) (pl_first p) (pl_end p) v (pl_fresh p) (pl_byName p)
    (pl_byOffset p) (pl_next p) (pl_advanced p) (pl_step p) (pl_budget p) (pl_reserved p)
    (pl_reserveLast p) (pl_dirty p) (pl_expired p) (pl_forgotten p) (pl_limit p) (pl_max
    p).
Definition pset_byName (v : gmap string nat) (p : pool) : pool :=
  MkPool (pl_prefix p) (pl_base p) (pl_first p) (pl_end p) (pl_records p) (pl_fresh p) v
    (pl_byOffset p) (pl_next p) (pl_advanced p) (pl_step p) (pl_budget p) (pl_reserved p)
    (pl_reserveLast p) (pl_dirty p) (pl_expired p) (pl_forgotten p) (pl_limit p) (pl_max
    p).
Definition pset_byOffset (v : gmap Z nat) (p : pool) : pool :=
  MkPool (pl_prefix p) (pl_base p) (pl_first p) (pl_end p) (pl_records p) (pl_fresh p)
    (pl_byName p) v (pl_next p) (pl_advanced p) (pl_step p) (pl_budget p) (pl_reserved p)
    (pl_reserveLast p) (pl_dirty p) (pl_expired p) (pl_forgotten p) (pl_limit p) (pl_max
    p).
Definition pset_next (v : Z) (p : pool) : pool :=
  MkPool (pl_prefix p) (pl_base p) (pl_first p) (pl_end p) (pl_records p) (pl_fresh p)
    (pl_byName p) (pl_byOffset p) v (pl_advanced p) (pl_step p) (pl_budget p) (pl_reserved
    p) (pl_reserveLast p) (pl_dirty p) (pl_expired p) (pl_forgotten p) (pl_limit p)
    (pl_max p).
Definition pset_advanced (v : Z) (p : pool) : pool :=
  MkPool (pl_prefix p) (pl_base p) (pl_first p) (pl_end p) (pl_records p) (pl_fresh p)
    (pl_byName p) (pl_byOffset p) (pl_next p) v (pl_step p) (pl_budget p) (pl_reserved p)
    (pl_reserveLast p) (pl_dirty p) (pl_expired p) (pl_forgotten p) (pl_limit p) (pl_max
    p).
Definition pset_budget (v : Z) (p : pool) : pool :=
  MkPool (pl_prefix p) (pl_base p) (pl_first p) (pl_end p) (pl_records p) (pl_fresh p)
    (pl_byName p) (pl_byOffset p) (pl_next p) (pl_advanced p) (pl_step p) v (pl_reserved
    p) (pl_reserveLast p) (pl_dirty p) (pl_expired p) (pl_forgotten p) (pl_limit p)
    (pl_max p).
Definition pset_reserved (v : bool) (p : pool) : pool :=
  MkPool (pl_prefix p) (pl_base p) (pl_first p) (pl_end p) (pl_records p) (pl_fresh p)
    (pl_byName p) (pl_byOffset p) (pl_next p) (pl_advanced p) (pl_step p) (pl_budget p) v
    (pl_reserveLast p) (pl_dirty p) (pl_expired p) (pl_forgotten p) (pl_limit p) (pl_max
    p).
Definition pset_reserveLast (v : Z) (p : pool) : pool :=
  MkPool (pl_prefix p) (pl_base p) (pl_first p) (pl_end p) (pl_records p) (pl_fresh p)
    (pl_byName p) (pl_byOffset p) (pl_next p) (pl_advanced p) (pl_step p) (pl_budget p)
    (pl_reserved p) v (pl_dirty p) (pl_expired p) (pl_forgotten p) (pl_limit p) (pl_max p).
Definition pset_dirty (v : list nat) (p : pool) : pool :=
  MkPool (pl_prefix p) (pl_base p) (pl_first p) (pl_end p) (pl_records p) (pl_fresh p)
    (pl_byName p) (pl_byOffset p) (pl_next p) (pl_advanced p) (pl_step p) (pl_budget p)
    (pl_reserved p) (pl_reserveLast p) v (pl_expired p) (pl_forgotten p) (pl_limit p)
    (pl_max p).
Definition pset_expired (v : list removal) (p : pool) : pool :=
  MkPool (pl_prefix p) (pl_base p) (pl_first p) (pl_end p) (pl_records p) (pl_fresh p)
    (pl_byName p) (pl_byOffset p) (pl_next p) (pl_advanced p) (pl_step p) (pl_budget p)
    (pl_reserved p) (pl_reserveLast p) (pl_dirty p) v (pl_forgotten p) (pl_limit p)
    (pl_max p).
Definition pset_forgotten (v : list Z) (p : pool) : pool :=
  MkPool (pl_prefix p) (pl_base p) (pl_first p) (pl_end p) (pl_records p) (pl_fresh p)
    (pl_byName p) (pl_byOffset p) (pl_next p) (pl_advanced p) (pl_step p) (pl_budget p)
    (pl_reserved p) (pl_reserveLast p) (pl_dirty p) (pl_expired p) v (pl_limit p) (pl_max
    p).

(** [&record{...}] *)
Definition new_record (r : record) (p : pool) : pool :=
  MkPool (pl_prefix p) (pl_base p) (pl_first p) (pl_end p) (<[pl_fresh p := r]> (pl_records p))
    (S (pl_fresh p)) (pl_byName p) (pl_byOffset p) (pl_next p) (pl_advanced p) (pl_step p)
    (pl_budget p) (pl_reserved p) (pl_reserveLast p) (pl_dirty p) (pl_expired p)
    (pl_forgotten p) (pl_limit p) (pl_max p).

(** The record a reference leads to, and an assignment through it. *)
Definition deref (p : pool) (i : nat) : record :=
  default (MkRecord "" 0 0 false false) (pl_records p !! i).
Definition assign (f : record → record) (i : nat) (p : pool) : pool :=
  pset_records (alter f i (pl_records p)) p.

Definition usable (p : pool) : Z :=
  if pl_end p <=? pl_first p then 0 else pl_end p - pl_first p.

Definition newPool (prefix : Prefix) : pool :=
  let prefix := Prefix_Masked prefix in
  let hostBits := Addr_BitLen (p_ip prefix) - p_bits prefix in
  let last := if hostBits <? 32 then u32 (u32 (Z.shiftl 1 hostBits) - 1) else MaxUint32 in
  let u := if last <=? firstOffset then 0 else last - firstOffset in
  let step := if u =? 0 then 0 else Z.min reserveStep (Z.max (u / 4) 1) in
  let limit := if u =? 0 then 0
               else Z.min (Z.max (u / 4) (Z.min u 256)) recordLimit in
  let max := if u =? 0 then 0 else if limit * 2 <? u then u32 (limit * 2) else u in
  MkPool prefix (p_ip prefix) firstOffset last ∅ 0 ∅ ∅ firstOffset 0 step 0 false 0 [] [] []
    limit max.

(** [len(p.byOffset)] *)
Definition count (p : pool) : Z := Z.of_nat (size (pl_byOffset p)).

Definition full (p : pool) : bool := pl_max p <=? u32 (count p).
Definition room (p : pool) : Z := Z.max (u32 (count p) / 16) 1.

Definition address (p : pool) (offset : Z) : Addr :=
  match pl_base p with
  | AddrZero => AddrZero
  | Addr4 v => Addr4 (u32 (v + offset))
  | Addr6 v _ => Addr6 (Z.shiftl (Z.shiftr v 64) 64 + u64 (v mod 2 ^ 64 + offset)) ""
  end.

(** Named [offset] in the source. *)
Definition offset (p : pool) (a : Addr) : option Z :=
  if negb (Prefix_Contains (pl_prefix p) a) then None else
  let v := Addr_value a in
  let base := Addr_value (pl_base p) in
  if Addr_Is4 (pl_base p) then
    let o := u32 (v - base) in if pl_end p <=? o then None else Some o
  else if negb (Z.shiftr v 64 =? Z.shiftr base 64) then None
  else let o := u64 (v mod 2 ^ 64 - base mod 2 ^ 64) in
       if pl_end p <=? o then None else Some (u32 o).

Definition after (p : pool) (offset : Z) : Z :=
  if (offset <? pl_first p) || (u32 (pl_end p - 1) <=? offset) then pl_first p else offset + 1.

Definition ahead (p : pool) (offset cnt : Z) : Z :=
  pl_first p + u32 ((u32 (offset - pl_first p) + cnt) mod usable p).

Definition remove (i : nat) (p : pool) : pool :=
  let r := deref p i in
  let p := pset_byOffset (delete (r_offset r) (pl_byOffset p)) p in
  if negb (held r) && bool_decide (pl_byName p !! r_domain r = Some i)
  then pset_byName (delete (r_domain r) (pl_byName p)) p else p.

(** How many addresses ago the address of a record was given out. *)
Definition age (p : pool) (r : record) : Z :=
  u64 (u32 (pl_next p - pl_first p) + usable p - 1 - u32 (r_offset r - pl_first p)) mod usable p.

(** One round of the loop of [restore]. *)
Definition restore_record (tick : Z) (p : pool) (i : nat) : pool :=
  let r := deref p i in
  let p := assign (rset_lastUse (Z.lor (Z.shiftl tick 32) (u32 (usable p - 1 - age p r)))) i p in
  let newer := match pl_byName p !! r_domain r with
               | None => true
               | Some other => age p r <? age p (deref p other)
               end in
  if newer then pset_byName (<[r_domain r := i]> (pl_byName p)) p else p.

Definition restore (ord : MapOrder) (current : option Addr) (tick : Z) (p : pool)
    : pool * option Z :=
  let last := current ≫= offset p in
  let next :=
    match last with
    | Some last => after p last
    | None =>
        if has_items (iterate ord (pl_byOffset p))
        then after p (foldr Z.max 0 (map_to_list (pl_byOffset p)).*1) else pl_first p
    end in
  let p := pset_next next p in
  (fold_left (restore_record tick) (iterate ord (pl_byOffset p)) p, last).

(** One round of the loop of [hold]. *)
Definition hold_offset (lastUse : Z) (p : pool) (offset : Z) : pool :=
  match pl_byOffset p !! offset with
  | Some _ => p
  | None =>
      let i := pl_fresh p in
      let p := new_record (MkRecord "" offset lastUse false false) p in
      pset_byOffset (<[offset := i]> (pl_byOffset p)) p
  end.

Definition hold (last lastUse : Z) (p : pool) : pool :=
  if last <? pl_first p then p else
  fold_left (hold_offset lastUse)
    (map (λ back, ahead p last (usable p - Z.of_nat back)) (seq 0 (Z.to_nat (pl_step p)))) p.

Definition older (a b : removal) : Prop := rm_lastUse a <= rm_lastUse b.
#[export] Instance older_dec : RelDecision older.
Proof. intros a b. unfold older. apply _. Defined.

Definition oldest (ord : MapOrder) (cnt protect tick : Z) (p : pool) : list removal :=
  let listed := map (λ i, MkRemoval i (r_lastUse (deref p i))) (iterate ord (pl_byOffset p)) in
  let removable := List.filter (λ c, negb (r_removing (deref p (rm_record c)))) listed in
  let heldBack := List.filter (λ c, held (deref p (rm_record c))) removable in
  let candidates := List.filter (λ c, negb (held (deref p (rm_record c))) &&
                                 (protect <=? since tick (rm_lastUse c))) removable in
  let candidates := if negb (has_items candidates) && (protect =? 0) then heldBack else candidates in
  take (Z.to_nat cnt) (merge_sort older candidates).

(** ** The store *)

Record Store : Type := MkStore {
  s_inet4Range : Prefix;
  s_inet6Range : Prefix;
  s_pool4 : option pool;
  s_pool6 : option pool;
  s_uses : Z;
  s_startTick : Z;
  s_idleTicks : Z;
  s_protectTicks : Z;
  s_closed : bool;
  s_storage : bool;
  s_generation : Z;
  s_storageFailed : bool;
}.

Definition sset_pool4 (v : option pool) (s : Store) : Store :=
  MkStore (s_inet4Range s) (s_inet6Range s) v (s_pool6 s) (s_uses s) (s_startTick s)
    (s_idleTicks s) (s_protectTicks s) (s_closed s) (s_storage s) (s_generation s)
    (s_storageFailed s).
Definition sset_pool6 (v : option pool) (s : Store) : Store :=
  MkStore (s_inet4Range s) (s_inet6Range s) (s_pool4 s) v (s_uses s) (s_startTick s)
    (s_idleTicks s) (s_protectTicks s) (s_closed s) (s_storage s) (s_generation s)
    (s_storageFailed s).
Definition sset_uses (v : Z) (s : Store) : Store :=
  MkStore (s_inet4Range s) (s_inet6Range s) (s_pool4 s) (s_pool6 s) v (s_startTick s)
    (s_idleTicks s) (s_protectTicks s) (s_closed s) (s_storage s) (s_generation s)
    (s_storageFailed s).
Definition sset_closed (v : bool) (s : Store) : Store :=
  MkStore (s_inet4Range s) (s_inet6Range s) (s_pool4 s) (s_pool6 s) (s_uses s)
    (s_startTick s) (s_idleTicks s) (s_protectTicks s) v (s_storage s) (s_generation s)
    (s_storageFailed s).
Definition sset_storage (v : bool) (s : Store) : Store :=
  MkStore (s_inet4Range s) (s_inet6Range s) (s_pool4 s) (s_pool6 s) (s_uses s)
    (s_startTick s) (s_idleTicks s) (s_protectTicks s) (s_closed s) v (s_generation s)
    (s_storageFailed s).
Definition sset_generation (v : Z) (s : Store) : Store :=
  MkStore (s_inet4Range s) (s_inet6Range s) (s_pool4 s) (s_pool6 s) (s_uses s)
    (s_startTick s) (s_idleTicks s) (s_protectTicks s) (s_closed s) (s_storage s) v
    (s_storageFailed s).
Definition sset_storageFailed (v : bool) (s : Store) : Store :=
  MkStore (s_inet4Range s) (s_inet6Range s) (s_pool4 s) (s_pool6 s) (s_uses s)
    (s_startTick s) (s_idleTicks s) (s_protectTicks s) (s_closed s) (s_storage s)
    (s_generation s) v.

(** The pool of a family: [pool6] for [true]. *)
Definition s_pool (isIPv6 : bool) (s : Store) : option pool :=
  if isIPv6 then s_pool6 s else s_pool4 s.
Definition on_pool (isIPv6 : bool) (f : pool → pool) (s : Store) : Store :=
  if isIPv6 then sset_pool6 (f <$> s_pool6 s) s else sset_pool4 (f <$> s_pool4 s) s.

Definition NewStore (inet4Range inet6Range : Prefix) : Store :=
  let make range := if Prefix_IsValid range then Some (newPool range) else None in
  MkStore inet4Range inet6Range (make inet4Range) (make inet6Range) 0 (idleTicks + 2) idleTicks
    protectTicks false false 0 false.

Definition pools (s : Store) : list pool :=
  option_list (s_pool4 s) ++ option_list (s_pool6 s).

(** [poolOf], as the family of the pool *)
Definition poolOf (a : Addr) (s : Store) : option bool :=
  let contains p := Prefix_Contains (pl_prefix p) a in
  if match s_pool4 s with Some p => contains p | None => false end then Some false
  else if match s_pool6 s with Some p => contains p | None => false end then Some true
  else None.

Definition Contains (a : Addr) (s : Store) : bool :=
  Prefix_Contains (s_inet4Range s) a || Prefix_Contains (s_inet6Range s) a.

(** [stamp]: the uses are numbered with 32 bits. *)
Definition stamp (now : Z) (s : Store) : Z * Store :=
  let uses := u32 (s_uses s + 1) in
  (Z.lor (Z.shiftl now 32) uses, sset_uses uses s).

Definition touch (now : Z) (isIPv6 : bool) (i : nat) (s : Store) : Store :=
  let '(st, s) := stamp now s in on_pool isIPv6 (assign (rset_lastUse st) i) s.

Definition release (i : nat) (p : pool) : pool := remove i p.

(** *** New addresses *)

Inductive probe : Type :=
| Free (offset : Z)   (** an offset without a record *)
| UsedUp              (** the saved reserve is used up *)
| OutOfFuel.

(** The loop of [allocate] up to the offset it takes. One more round than there are
    records finds a free offset, if there is one. *)
Fixpoint next_free (fuel : nat) (saved failed : bool) (p : pool) : pool * probe :=
  match fuel with
  | O => (p, OutOfFuel)
  | S fuel =>
      if saved && (pl_budget p =? 0) && negb failed then (p, UsedUp) else
      let offset := pl_next p in
      let p := pset_advanced (u64 (pl_advanced p + 1)) (pset_next (after p offset) p) in
      let p := if saved && (0 <? pl_budget p) then pset_budget (pl_budget p - 1) p else p in
      match pl_byOffset p !! offset with
      | Some _ => next_free fuel saved failed p
      | None => (p, Free offset)
      end
  end.

Inductive need : Type := needNothing | needReserve | needRoom.

(** What [allocate] returns. *)
Record allocation : Type := MkAllocation { al_address : Addr; al_need : need; al_err : option error }.

(** The new record of a domain at a free offset. *)
Definition add_record (domain : string) (offset lastUse : Z) (saved : bool) (p : pool) : pool :=
  let i := pl_fresh p in
  let p := new_record (MkRecord domain offset lastUse saved false) p in
  let p := pset_byOffset (<[offset := i]> (pl_byOffset p))
             (pset_byName (<[domain := i]> (pl_byName p)) p) in
  if saved then pset_dirty (pl_dirty p ++ [i]) p else p.

(** [allocate]; [generation] is what [FakeIPGeneration] returns. *)
Definition allocate (now generation : Z) (isIPv6 : bool) (domain : string) (s : Store)
    : Store * allocation :=
  match s_pool isIPv6 s with
  | None => (s, MkAllocation AddrZero needNothing (Some (ENamed "no pool")))
  | Some p =>
      match pl_byName p !! domain with
      | Some i =>
          (touch now isIPv6 i s, MkAllocation (address p (r_offset (deref p i))) needNothing None)
      | None =>
          if s_closed s
          then (s, MkAllocation AddrZero needNothing (Some (ENew "fakeip store closed")))
          else if full p then (s, MkAllocation AddrZero needRoom None)
          else if s_storage s && negb (generation =? s_generation s)
          then (s, MkAllocation AddrZero needReserve None)
          else
            let '(p', found) :=
              next_free (S (size (pl_byOffset p))) (s_storage s) (s_storageFailed s) p in
            match found with
            | Free offset =>
                let '(st, s) := stamp now s in
                (on_pool isIPv6 (λ _, add_record domain offset st (s_storage s) p') s,
                 MkAllocation (address p offset) needNothing None)
            | UsedUp => (on_pool isIPv6 (λ _, p') s, MkAllocation AddrZero needReserve None)
            | OutOfFuel => (s, MkAllocation AddrZero needNothing (Some (ENamed "out of fuel")))
            end
      end
  end.

Definition Lookup (now : Z) (a : Addr) (s : Store) : Store * option string :=
  match poolOf a s with
  | None => (s, None)
  | Some isIPv6 =>
      match s_pool isIPv6 s with
      | None => (s, None)
      | Some p =>
          match offset p a ≫= λ o, pl_byOffset p !! o with
          | None => (s, None)
          | Some i =>
              let r := deref p i in
              if held r then (s, None) else (touch now isIPv6 i s, Some (r_domain r))
          end
      end
  end.

(** *** Unused records: [sweep] *)

(** The records of a pool to remove. *)
Definition sweep_pool (ord : MapOrder) (tick idle protect : Z) (p : pool) : list removal :=
  let expired :=
    List.filter (λ c, negb (r_removing (deref p (rm_record c))) && (idle <=? since tick (rm_lastUse c)))
      (map (λ i, MkRemoval i (r_lastUse (deref p i))) (iterate ord (pl_byOffset p))) in
  if pl_limit p <? count p - Z.of_nat (length expired)
  then oldest ord (u32 (count p - (pl_limit p - pl_limit p / 8))) protect tick p
  else expired.

(** The first part of [sweep], which only reads: what was found, per family. *)
Definition sweep_find (ord : MapOrder) (now : Z) (s : Store) : list (bool * removal) :=
  let find (isIPv6 : bool) :=
    match s_pool isIPv6 s with
    | None => []
    | Some p => map (pair isIPv6) (sweep_pool ord now (s_idleTicks s) (s_protectTicks s) p)
    end in
  find false ++ find true.

(** A candidate is removed unless it is gone or was used since it was chosen. *)
Definition release_unused (c : removal) (p : pool) : pool :=
  let r := deref p (rm_record c) in
  if bool_decide (pl_byOffset p !! r_offset r = Some (rm_record c)) && (r_lastUse r =? rm_lastUse c)
  then release (rm_record c) p else p.

(** The second part of [sweep]. *)
Definition sweep_apply (found : list (bool * removal)) (s : Store) : Store :=
  fold_left (λ s c,
    on_pool c.1 (if s_storage s then λ p, pset_expired (pl_expired p ++ [c.2]) p
                 else release_unused c.2) s) found s.

(** *** Saving *)

Record FakeIPMetadata : Type := MkFakeIPMetadata {
  Inet4Range : Prefix; Inet6Range : Prefix; Inet4Current : option Addr; Inet6Current : option Addr;
}.

Record saveRequest : Type := MkSaveRequest {
  rq_clean : bool; rq_reserve : bool; rq_room : option bool (** the family *)
}.

(** What a save collected from one pool. *)
Record batch : Type := MkBatch {
  b_puts : list (Addr * string);
  b_deletes : list Addr;
  b_written : list nat;
  b_removals : list removal;
  b_reserve : option (Z * Z); (** the position it was made at, its last offset *)
  b_current : Addr;
}.

(** The cache file was recreated: everything is written again. *)
Definition resave (ord : MapOrder) (p : pool) : pool :=
  let ids := List.filter (λ i, negb (held (deref p i))) (iterate ord (pl_byOffset p)) in
  let p := pset_forgotten [] (pset_budget 0 (pset_reserved false p)) in
  pset_dirty ids (fold_left (λ p i, assign (rset_dirty true) i p) ids p).

(** One round of the loop over [p.expired]. *)
Definition choose (clean : bool) (acc : pool * list removal) (c : removal) : pool * list removal :=
  let '(p, removals) := acc in
  let r := deref p (rm_record c) in
  if clean || r_removing r || negb (bool_decide (pl_byOffset p !! r_offset r = Some (rm_record c))) ||
     negb (r_lastUse r =? rm_lastUse c)
  then (p, removals)
  else (assign (rset_removing true) (rm_record c) p, removals ++ [c]).

(** The records of [p.dirty] that are still to be written. *)
Definition to_write (p : pool) : list nat :=
  List.filter (λ i, let r := deref p i in
    r_dirty r && bool_decide (pl_byOffset p !! r_offset r = Some i)) (pl_dirty p).

(** The part of [save] over one pool, before the write. *)
Definition collect (ord : MapOrder) (now : Z) (clean isRoom : bool) (p : pool) : pool * batch :=
  let p := if isRoom && full p
           then pset_expired (pl_expired p ++ oldest ord (room p) 0 now p) p else p in
  let '(p, removals) := fold_left (choose clean) (pl_expired p) (p, []) in
  let p := pset_expired [] p in
  let gone := List.filter (λ o, bool_decide (pl_byOffset p !! o = None)) (pl_forgotten p) in
  let writes := to_write p in
  let written := List.filter (λ i, negb (r_removing (deref p i))) writes in
  let p := pset_dirty (List.filter (λ i, r_removing (deref p i)) writes) p in
  let extend := negb (pl_reserved p) || (pl_budget p =? 0) || (pl_budget p <? pl_step p / 2) in
  let last :=
    if clean && (pl_next p =? pl_first p) then u32 (pl_first p - 1)
    else if clean then ahead p (pl_next p) (u32 (usable p - 1))
    else if extend then ahead p (pl_next p) (u32 (pl_step p - 1))
    else pl_reserveLast p in
  (p, MkBatch (map (λ i, (address p (r_offset (deref p i)), r_domain (deref p i))) written)
        (map (λ c, address p (r_offset (deref p (rm_record c)))) removals ++ map (address p) gone)
        written removals
        (if negb clean && extend then Some (pl_advanced p, last) else None)
        (address p last)).

(** A save that has something to write. *)
Record write : Type := MkWrite {
  w_request : saveRequest;
  w_batch4 : option batch;
  w_batch6 : option batch;
  w_metadata : FakeIPMetadata;
}.

Definition batches (w : write) : list batch := option_list (w_batch4 w) ++ option_list (w_batch6 w).
Definition w_puts (w : write) : gmap Addr string :=
  list_to_map (reverse (concat (map b_puts (batches w)))).
Definition w_deletes (w : write) : list Addr := concat (map b_deletes (batches w)).

(** [save] up to the write: it has ended, or this is written. *)
Inductive prepared : Type :=
| Ended (err : option error)
| Writing (w : write).

Definition request_needed (request : saveRequest) (s : Store) : bool :=
  match rq_room request with
  | Some v6 => match s_pool v6 s with Some p => full p | None => false end
  | None => false
  end || existsb (λ p, negb (pl_reserved p) || (pl_budget p =? 0)) (pools s).

Definition save_prepare (ord : MapOrder) (now generation : Z) (request : saveRequest) (s : Store)
    : Store * prepared :=
  if negb (s_storage s) then (s, Ended None) else
  if s_closed s && negb (rq_clean request) then (s, Ended (Some (ENew "fakeip store closed"))) else
  let s := if generation =? s_generation s then s
           else on_pool true (resave ord) (on_pool false (resave ord) (sset_generation generation s)) in
  if (rq_reserve request || bool_decide (rq_room request ≠ None)) && negb (request_needed request s)
  then (s, Ended None) else
  let run v6 := collect ord now (rq_clean request) (bool_decide (rq_room request = Some v6)) in
  let c4 := run false <$> s_pool4 s in
  let c6 := run true <$> s_pool6 s in
  let s := sset_pool6 (fst <$> c6) (sset_pool4 (fst <$> c4) s) in
  let w := MkWrite request (snd <$> c4) (snd <$> c6)
             (MkFakeIPMetadata (s_inet4Range s) (s_inet6Range s)
                (b_current ∘ snd <$> c4) (b_current ∘ snd <$> c6)) in
  if negb (has_items (concat (map b_puts (batches w)))) && negb (has_items (w_deletes w)) &&
     negb (rq_clean request || existsb (λ b, bool_decide (b_reserve b ≠ None)) (batches w))
  then (s, Ended None)
  else (s, Writing w).

(** The write failed: the changes of a pool stay for the next save. *)
Definition rollback (isRoom : bool) (b : batch) (p : pool) : pool :=
  let p := pset_dirty (pl_dirty p ++ b_written b) p in
  let p := fold_left (λ p c, assign (rset_removing false) (rm_record c) p) (b_removals b) p in
  if isRoom && full p then
    fold_left (λ p c,
      let r := deref p (rm_record c) in
      if bool_decide (pl_byOffset p !! r_offset r = Some (rm_record c)) && (r_lastUse r =? rm_lastUse c)
      then
        let p := release (rm_record c) p in
        if r_dirty r then p else pset_forgotten (pl_forgotten p ++ [r_offset r]) p
      else p) (b_removals b) p
  else p.

(** A record whose removal is written: it goes, unless it was used meanwhile. *)
Definition finish_removal (p : pool) (c : removal) : pool :=
  let p := assign (rset_removing false) (rm_record c) p in
  let r := deref p (rm_record c) in
  if negb (bool_decide (pl_byOffset p !! r_offset r = Some (rm_record c))) then p
  else if negb (r_lastUse r =? rm_lastUse c) then
    if r_dirty r then p
    else pset_dirty (pl_dirty p ++ [rm_record c]) (assign (rset_dirty true) (rm_record c) p)
  else release (rm_record c) p.

(** The write succeeded. *)
Definition commit (b : batch) (p : pool) : pool :=
  let p := fold_left (λ p i, assign (rset_dirty false) i p) (b_written b) p in
  let p := pset_forgotten [] p in
  let p := fold_left finish_removal (b_removals b) p in
  match b_reserve b with
  | None => p
  | Some (advanced, last) =>
      pset_budget (pl_step p - Z.min (u64 (pl_advanced p - advanced)) (pl_step p))
        (pset_reserveLast last (pset_reserved true p))
  end.

(** [save] after the write *)
Definition save_finish (w : write) (err : option error) (s : Store) : Store :=
  let on v6 (f : batch → pool → pool) (b : option batch) s :=
    match b with Some b => on_pool v6 (f b) s | None => s end in
  match err with
  | Some _ =>
      let back v6 := rollback (bool_decide (rq_room (w_request w) = Some v6)) in
      on true (back true) (w_batch6 w) (on false (back false) (w_batch4 w) (sset_storageFailed true s))
  | None =>
      on true commit (w_batch6 w) (on false commit (w_batch4 w) (sset_storageFailed false s))
  end.

(** [Reset] once the storage is reset *)
Definition reset_memory (s : Store) : Store :=
  let clear p := pset_forgotten [] (pset_expired [] (pset_dirty []
                   (pset_byOffset ∅ (pset_byName ∅ p)))) in
  on_pool true clear (on_pool false clear s).

Definition savePending (generation : Z) (s : Store) : bool :=
  negb (generation =? s_generation s) ||
  existsb (λ p, has_items (pl_dirty p) || has_items (pl_expired p) || has_items (pl_forgotten p) ||
                negb (pl_reserved p) || (pl_budget p <? pl_step p / 2)) (pools s).

(** ** The table in the cache file: experimental/cachefile/fakeip.go

    The bucket of the addresses, with the position of a clean stop under a key of its
    own, and the bucket of the cursor. A transaction changes all of it or nothing. *)

Record CacheFile : Type := MkCacheFile {
  d_address : gmap Addr string;
  d_metadata : option FakeIPMetadata;
  d_cursor : option FakeIPMetadata;
  d_generation : Z;
}.

(** [FakeIPSaveChanges] in a transaction that is committed *)
Definition FakeIPSaveChanges (puts : gmap Addr string) (deletes : list Addr)
    (metadata : FakeIPMetadata) (clean : bool) (d : CacheFile) : CacheFile :=
  MkCacheFile (puts ∪ foldr delete (d_address d) deletes)
    (if clean then Some metadata else None) (Some metadata) (d_generation d).

(** [FakeIPLoadTable]: what it returns, [refused] of the records [load] refuses *)
Definition FakeIPLoadTable (accepts : Addr → string → bool) (d : CacheFile)
    : CacheFile * (list (Addr * string) * option FakeIPMetadata * bool) :=
  let accepted := filter (λ e, accepts e.1 e.2 = true) (d_address d) in
  (MkCacheFile accepted None (d_cursor d) (d_generation d),
   (map_to_list accepted,
    match d_metadata d with Some m => Some m | None => d_cursor d end,
    bool_decide (d_metadata d ≠ None))).

Definition FakeIPReset (d : CacheFile) : CacheFile :=
  MkCacheFile ∅ None (d_cursor d) (d_generation d).

(** The file was damaged and is recreated. *)
Definition recreate (d : CacheFile) : CacheFile :=
  MkCacheFile ∅ None None (d_generation d + 1).

(** ** Operations over the store and the file, one after the other *)

(** What an operation meets: the clock, the order of maps, a failing write. *)
Record moment : Type := MkMoment { m_now : Z; m_order : MapOrder; m_err : option error }.

Definition store_write (w : write) (err : option error) (d : CacheFile) : CacheFile :=
  match err with
  | Some _ => d
  | None => FakeIPSaveChanges (w_puts w) (w_deletes w) (w_metadata w) (rq_clean (w_request w)) d
  end.

Definition save (m : moment) (request : saveRequest) (s : Store) (d : CacheFile)
    : Store * CacheFile * option error :=
  match save_prepare (m_order m) (m_now m) (d_generation d) request s with
  | (s, Ended err) => (s, d, err)
  | (s, Writing w) => (save_finish w (m_err m) s, store_write w (m_err m) d, m_err m)
  end.

Definition makeRoom (m : moment) (isIPv6 : bool) (s : Store) (d : CacheFile) : Store * CacheFile :=
  if s_storage s then
    let '(s, d, _) := save m (MkSaveRequest false false (Some isIPv6)) s d in (s, d)
  else
    (on_pool isIPv6 (λ p,
       if full p
       then fold_left (λ p c, release (rm_record c) p) (oldest (m_order m) (room p) 0 (m_now m) p) p
       else p) s, d).

(** The loop of [Create]; [moments] is what each round meets. *)
Fixpoint Create_loop (fuel : nat) (moments : nat → moment) (isIPv6 : bool) (domain : string)
    (s : Store) (d : CacheFile) : option (Store * CacheFile * (Addr * option error)) :=
  match fuel with
  | O => None
  | S fuel =>
      let m := moments fuel in
      let '(s, a) := allocate (m_now m) (d_generation d) isIPv6 domain s in
      match al_need a with
      | needNothing => Some (s, d, (al_address a, al_err a))
      | needReserve =>
          let '(s, d, _) := save m (MkSaveRequest false true None) s d in
          Create_loop fuel moments isIPv6 domain s d
      | needRoom =>
          let '(s, d) := makeRoom m isIPv6 s d in
          Create_loop fuel moments isIPv6 domain s d
      end
  end.

Section Create.
Context `{Extern}.

Definition Create (fuel : nat) (moments : nat → moment) (isIPv6 : bool) (domain : string)
    (s : Store) (d : CacheFile) : option (Store * CacheFile * (Addr * option error)) :=
  match s_pool isIPv6 s with
  | None =>
      Some (s, d, (AddrZero, Some (ENew (if isIPv6 then "missing IPv6 fakeip address range"
                                         else "missing IPv4 fakeip address range")%string)))
  | Some p =>
      let domain := strings_ToLower domain in
      match pl_byName p !! domain with
      | Some i => Some (touch (m_now (moments fuel)) isIPv6 i s, d,
                        (address p (r_offset (deref p i)), None))
      | None => Create_loop fuel moments isIPv6 domain s d
      end
  end.

(** ** Starting and stopping *)

Definition load_accepts (s : Store) (a : Addr) (domain : string) : bool :=
  match poolOf a s with
  | None => false
  | Some isIPv6 =>
      nonempty domain &&
      match s_pool isIPv6 s with
      | None => false
      | Some p => match offset p a with Some o => pl_first p <=? o | None => false end
      end
  end.

(** The function [load] passes to the file, on a record it accepts. *)
Definition load_record (s : Store) (e : Addr * string) : Store :=
  match poolOf e.1 s with
  | None => s
  | Some isIPv6 =>
      on_pool isIPv6 (λ p,
        let o := default 0 (offset p e.1) in
        let i := pl_fresh p in
        let p := new_record (MkRecord (strings_ToLower e.2) o 0 false false) p in
        pset_byOffset (<[o := i]> (pl_byOffset p)) p) s
  end.

(** The position of a pool after the table is read. *)
Definition restore_pool (ord : MapOrder) (metadata : option FakeIPMetadata) (clean : bool)
    (isIPv6 : bool) (s : Store) : Store :=
  let current :=
    match metadata with
    | None => None
    | Some m =>
        if isIPv6 then if bool_decide (Inet6Range m = s_inet6Range s) then Inet6Current m else None
        else if bool_decide (Inet4Range m = s_inet4Range s) then Inet4Current m else None
    end in
  on_pool isIPv6 (λ p,
    let '(p, last) := restore ord current (s_startTick s - 1) p in
    match last with
    | Some last =>
        if negb clean && (0 <? s_protectTicks s)
        then hold last (u64 (Z.shiftl (u32 (s_startTick s - 1 - (s_idleTicks s - s_protectTicks s))) 32)) p
        else p
    | None => p
    end) s.

(** [load] up to its save *)
Definition load_table (ord : MapOrder) (s : Store) (d : CacheFile) : Store * CacheFile :=
  let s := sset_generation (d_generation d) (sset_storage true s) in
  let '(d, (records, metadata, clean)) := FakeIPLoadTable (load_accepts s) d in
  let s := fold_left load_record records s in
  (restore_pool ord metadata clean true (restore_pool ord metadata clean false s), d).

Definition load (m : moment) (s : Store) (d : CacheFile) : Store * CacheFile :=
  let '(s, d) := load_table (m_order m) s d in
  let '(s, d, _) := save m (MkSaveRequest false false None) s d in (s, d).

(** [Start] with a cache file *)
Definition Start (m : moment) (s : Store) (d : CacheFile) : result (Store * CacheFile) :=
  if existsb (λ p, usable p =? 0) (pools s)
  then Err (ENew "fakeip: range has no address to give out")
  else Ok (load m s d).

Definition Close (m : moment) (s : Store) (d : CacheFile) : Store * CacheFile * option error :=
  if s_closed s then (s, d, None)
  else save m (MkSaveRequest true false None) (sset_closed true s) d.

(** ** The DNS server: dns/transport/fakeip/fakeip.go *)

Record Transport : Type := MkTransport { t_inet4Enabled : bool; t_inet6Enabled : bool }.

Definition NewTransport (inet4Range inet6Range : Prefix) : result (Transport * Store) :=
  if negb (Prefix_IsValid inet4Range) && negb (Prefix_IsValid inet6Range)
  then Err (ENew "at least one of inet4_range or inet6_range must be set")
  else Ok (MkTransport (Prefix_IsValid inet4Range) (Prefix_IsValid inet6Range),
           NewStore inet4Range inet6Range).

(** The answer to a query: [FixedResponseStatus] or [FixedResponse]. *)
Inductive response : Type :=
| ResponseStatus (rcode : Z)
| ResponseAddress (a : Addr).

(** [dns.FqdnToDomain]; [IsFqdn] is of the dns package. *)
Definition FqdnToDomain (IsFqdn : string → bool) (fqdn : string) : string :=
  if IsFqdn fqdn then str_take (String.length fqdn - 1) fqdn else fqdn.

Definition TypeA : Z := 1.
Definition TypeAAAA : Z := 28.

Definition Exchange (IsFqdn : string → bool) (fuel : nat) (moments : nat → moment) (t : Transport)
    (name : string) (qtype : Z) (s : Store) (d : CacheFile)
    : option (Store * CacheFile * result response) :=
  if negb (qtype =? TypeA) && negb (qtype =? TypeAAAA)
  then Some (s, d, Err (ENew "only IP queries are supported by fakeip"))
  else if (qtype =? TypeA) && negb (t_inet4Enabled t) || (qtype =? TypeAAAA) && negb (t_inet6Enabled t)
  then Some (s, d, Ok (ResponseStatus 0))
  else
    let domain := FqdnToDomain IsFqdn name in
    if (255 <? String.length domain)%nat
    then Some (s, d, Err (ENew "domain name too long for fakeip"))
    else
      '(s, d, (a, err)) ← Create fuel moments (qtype =? TypeAAAA) domain s d;
      Some (s, d, match err with Some e => Err e | None => Ok (ResponseAddress a) end).

End Create.
