(* ===== verification/FakeIPPool.v ===== *)
(** * Pools of FakeIP addresses: ranges, rings and the two indexes

    [range_wf] is what [newPool] makes of a range and nothing changes; [pool_wf] is the
    invariant of a pool: the indexes refer to records with the offset and the domain
    they are filed under. *)
From stdpp Require Import sorting base gmap strings countable list.
From S2P Require Import Prelude Netip Metadata FakeIP.

(** ** Ranges *)

(** A range a store can be configured with: its addresses are of its family's width. *)
Definition range_valid (prefix : Prefix) : Prop :=
  match p_ip prefix with
  | AddrZero => False
  | Addr4 v => 0 <= v < 2 ^ 32 ∧ 0 <= p_bits prefix <= 32
  | Addr6 v zone => 0 <= v < 2 ^ 128 ∧ 0 <= p_bits prefix <= 128
  end.

Record range_wf (p : pool) : Prop := {
  rw_prefix : p_ip (pl_prefix p) = pl_base p;
  rw_first : pl_first p = 2;
  rw_end : 2 < pl_end p < 2 ^ 32;
  rw_max : 0 < pl_max p <= usable p;
  rw_step : 0 < pl_step p <= usable p ∧ pl_step p <= reserveStep;
  rw_limit : 0 < pl_limit p;
  (** the base has no host bits and the offsets are host bits *)
  rw_bits : ∃ h, Addr_BitLen (pl_base p) - p_bits (pl_prefix p) = h ∧ 0 <= h ∧ pl_end p < 2 ^ h ∧
    0 <= p_bits (pl_prefix p) ∧
    match pl_base p with
    | AddrZero => False
    | Addr4 v => h <= 32 ∧ 0 <= v ∧ v + 2 ^ h <= 2 ^ 32 ∧ v mod 2 ^ h = 0
    | Addr6 v zone => h <= 128 ∧ 0 <= v ∧ v + 2 ^ h <= 2 ^ 128 ∧ v mod 2 ^ h = 0 ∧ zone = ""%string
    end;
}.

Lemma mask_value_spec bitlen bits v :
  0 <= bits <= bitlen → 0 <= v < 2 ^ bitlen →
  0 <= mask_value bitlen bits v ∧ mask_value bitlen bits v + 2 ^ (bitlen - bits) <= 2 ^ bitlen ∧
  mask_value bitlen bits v mod 2 ^ (bitlen - bits) = 0.
Proof.
  intros Hb Hv. unfold mask_value. rewrite Z.shiftl_mul_pow2, Z.shiftr_div_pow2 by lia.
  set (h := 2 ^ (bitlen - bits)). assert (Hh : 0 < h) by (apply Z.pow_pos_nonneg; lia).
  assert (Hbl : 2 ^ bitlen = 2 ^ bits * h) by (unfold h; rewrite <- Z.pow_add_r by lia; f_equal; lia).
  assert (0 <= v / h < 2 ^ bits) by (split; [apply Z.div_pos; lia|apply Z.div_lt_upper_bound; lia]).
  split_and!; [nia|nia|apply Z.mod_mul; lia].
Qed.

(** The end of a range with [h] host bits. *)
Definition range_end (h : Z) : Z := if h <? 32 then u32 (u32 (Z.shiftl 1 h) - 1) else MaxUint32.

Lemma range_end_spec h : 0 <= h → 0 <= range_end h < 2 ^ h ∧ range_end h < 2 ^ 32.
Proof.
  intros Hh. unfold range_end, MaxUint32. destruct (Z.ltb_spec h 32).
  - rewrite Z.shiftl_mul_pow2, Z.mul_1_l by lia.
    assert (2 ^ h < 2 ^ 32) by (apply Z.pow_lt_mono_r; lia).
    assert (0 < 2 ^ h) by (apply Z.pow_pos_nonneg; lia). rewrite (wrap_small 32 (2 ^ h)), wrap_small by lia. lia.
  - assert (2 ^ 32 <= 2 ^ h) by (apply Z.pow_le_mono_r; lia). lia.
Qed.

(** The sizes [newPool] derives from the number of usable offsets. *)
Lemma sizes_spec u :
  0 < u < 2 ^ 32 →
  let limit := Z.min (Z.max (u / 4) (Z.min u 256)) recordLimit in
  let max := if limit * 2 <? u then u32 (limit * 2) else u in
  let step := Z.min reserveStep (Z.max (u / 4) 1) in
  0 < max <= u ∧ (0 < step <= u ∧ step <= reserveStep) ∧ 0 < limit.
Proof.
  intros Hu. unfold recordLimit, reserveStep. cbn zeta.
  assert (0 <= u / 4 <= u) by (split; [apply Z.div_pos; lia|apply Z.div_le_upper_bound; lia]).
  destruct (Z.ltb_spec (Z.min (Z.max (u / 4) (Z.min u 256)) 65536 * 2) u);
    [rewrite wrap_small by lia|]; lia.
Qed.

Lemma Prefix_Masked_spec prefix :
  range_valid prefix →
  p_bits (Prefix_Masked prefix) = p_bits prefix ∧
  let h := Addr_BitLen (p_ip prefix) - p_bits prefix in
  match p_ip prefix with
  | AddrZero => False
  | Addr4 v => p_ip (Prefix_Masked prefix) = Addr4 (mask_value 32 (p_bits prefix) v)
  | Addr6 v _ => p_ip (Prefix_Masked prefix) = Addr6 (mask_value 128 (p_bits prefix) v) ""
  end.
Proof.
  unfold range_valid, Prefix_Masked, Addr_Prefix. destruct prefix as [[|v|v zone] bits]; cbn; [done| |];
    intros [Hv Hb]; destruct (Z.ltb_spec bits 0); try lia;
    [destruct (Z.ltb_spec 32 bits); [lia|]|destruct (Z.ltb_spec 128 bits); [lia|]]; cbn.
  - destruct (Z.leb_spec 0 bits), (Z.leb_spec bits 32); cbn; try lia. done.
  - destruct (Z.leb_spec 0 bits), (Z.leb_spec bits 128); cbn; try lia. done.
Qed.

Lemma newPool_range prefix :
  range_valid prefix → usable (newPool prefix) ≠ 0 → range_wf (newPool prefix).
Proof.
  intros Hv Hu. destruct (Prefix_Masked_spec prefix Hv) as [Hbits Hip].
  set (h := Addr_BitLen (p_ip (Prefix_Masked prefix)) - p_bits (Prefix_Masked prefix)).
  assert (Hh : 0 <= h).
  { unfold h. rewrite Hbits. unfold range_valid in Hv.
    destruct (p_ip prefix); [done|rewrite Hip; cbn; lia|rewrite Hip; cbn; lia]. }
  pose proof (range_end_spec h Hh) as [He He32].
  assert (Hend : pl_end (newPool prefix) = range_end h) by done.
  unfold usable in Hu. rewrite Hend in Hu. change (pl_first (newPool prefix)) with 2 in Hu.
  destruct (Z.leb_spec (range_end h) 2); [done|].
  assert (Hus : usable (newPool prefix) = range_end h - 2).
  { unfold usable. rewrite Hend. change (pl_first (newPool prefix)) with 2.
    destruct (Z.leb_spec (range_end h) 2); lia. }
  pose proof (sizes_spec (range_end h - 2) ltac:(lia)) as (Hmax & Hstep & Hlimit).
  assert (Hu0 : (if range_end h <=? firstOffset then 0 else range_end h - firstOffset) = range_end h - 2)
    by (unfold firstOffset; destruct (Z.leb_spec (range_end h) 2); lia).
  assert (Hnz : (range_end h - 2 =? 0) = false) by lia.
  split; rewrite ?Hus, ?Hend; try done; try lia.
  - unfold newPool. fold h (range_end h). cbn [pl_max]. by rewrite Hu0, Hnz.
  - unfold newPool. fold h (range_end h). cbn [pl_step]. by rewrite Hu0, Hnz.
  - unfold newPool. fold h (range_end h). cbn [pl_limit]. by rewrite Hu0, Hnz.
  - exists h. unfold newPool. cbn [pl_base pl_prefix pl_end]. fold h (range_end h).
    unfold h, range_valid in *. rewrite Hbits.
    destruct (p_ip prefix) as [|v|v zone]; [done| |]; destruct Hv as [Hv Hb];
      rewrite Hip in *; cbn [Addr_BitLen] in *; rewrite Hbits in *;
      [pose proof (mask_value_spec 32 (p_bits prefix) v)|pose proof (mask_value_spec 128 (p_bits prefix) v)];
      split_and!; try done; lia.
Qed.

(** ** Offsets and addresses *)

Lemma shiftr_host v o h : 0 <= h → v mod 2 ^ h = 0 → 0 <= o < 2 ^ h → Z.shiftr (v + o) h = Z.shiftr v h.
Proof.
  intros Hh Hv Ho. assert (0 < 2 ^ h) by (apply Z.pow_pos_nonneg; lia).
  rewrite !Z.shiftr_div_pow2 by lia. rewrite (Z.div_mod v (2 ^ h)), Hv by lia.
  rewrite Z.add_0_r, (Z.mul_comm (2 ^ h)), Z.div_add_l, Z.div_mul by lia.
  rewrite (Z.div_small o) by lia. lia.
Qed.

(** A 128-bit base whose low half does not overflow. *)
Lemma low_half v o h :
  0 <= h <= 128 → 0 <= v → v mod 2 ^ h = 0 → v + 2 ^ h <= 2 ^ 128 → 0 <= o < 2 ^ h → o < 2 ^ 32 →
  v mod 2 ^ 64 + o < 2 ^ 64.
Proof.
  intros Hh Hv Hm Hle Ho Ho32. assert (0 < 2 ^ h) by (apply Z.pow_pos_nonneg; lia).
  pose proof (Z.mod_pos_bound v (2 ^ 64) ltac:(lia)) as Hb.
  destruct (Z.le_gt_cases 64 h).
  - assert (Hd : 2 ^ h = 2 ^ (h - 64) * 2 ^ 64) by (rewrite <- Z.pow_add_r by lia; f_equal; lia).
    assert (Hv0 : v mod 2 ^ 64 = 0).
    { apply Z.mod_divide in Hm as [k ->]; [|lia]. rewrite Hd, Z.mul_assoc. apply Z.mod_mul. lia. }
    lia.
  - assert (Hd : 2 ^ 64 = 2 ^ (64 - h) * 2 ^ h) by (rewrite <- Z.pow_add_r by lia; f_equal; lia).
    assert (Hlow : (v mod 2 ^ 64) mod 2 ^ h = 0).
    { rewrite Hd, <- (Z.mul_comm (2 ^ h)), Z.rem_mul_r by (try apply Z.pow_nonzero; lia).
      rewrite Hm, Z.add_0_l, Z.mul_comm, Z.mod_mul; lia. }
    apply Z.mod_divide in Hlow as [k Hk]; [|lia]. rewrite Hk in *.
    assert (k < 2 ^ (64 - h)) by nia. assert (k + 1 <= 2 ^ (64 - h)) by lia. nia.
Qed.

Section Range.
Context (p : pool) (Hp : range_wf p).

(** The value of the address at an offset. *)
Lemma address_value o :
  0 <= o < pl_end p →
  Addr_value (address p o) = Addr_value (pl_base p) + o ∧
  Addr_BitLen (address p o) = Addr_BitLen (pl_base p) ∧ Addr_hasZone (address p o) = false ∧
  (Addr_Is4 (pl_base p) = false → Z.shiftr (Addr_value (pl_base p) + o) 64 = Z.shiftr (Addr_value (pl_base p)) 64 ∧
     Addr_value (pl_base p) mod 2 ^ 64 + o < 2 ^ 64).
Proof.
  intros Ho. destruct (rw_bits _ Hp) as (h & Hh & Hh0 & He & Hbits & Hbase).
  pose proof (rw_end _ Hp). unfold address.
  destruct (pl_base p) as [|v|v zone]; [done| |]; cbn [Addr_value Addr_BitLen Addr_hasZone Addr_Is4].
  - destruct Hbase as (? & ? & ? & ?). rewrite wrap_small by lia. done.
  - destruct Hbase as (? & ? & ? & Hm & ->).
    pose proof (low_half v o h ltac:(lia) ltac:(done) Hm ltac:(done) ltac:(lia) ltac:(lia)) as Hlow.
    pose proof (Z.mod_pos_bound v (2 ^ 64) ltac:(lia)).
    rewrite Z.shiftl_mul_pow2, !Z.shiftr_div_pow2, wrap_small by lia.
    pose proof (Z.div_mod v (2 ^ 64) ltac:(lia)). split_and!; try done; [lia|].
    intros _. split; [|done]. symmetry. apply Z.div_unique with (v mod 2 ^ 64 + o); lia.
Qed.

Lemma address_contained o : 0 <= o < pl_end p → Prefix_Contains (pl_prefix p) (address p o) = true.
Proof.
  intros Ho. destruct (address_value o Ho) as (Hval & Hlen & Hzone & _).
  destruct (rw_bits _ Hp) as (h & Hh & Hh0 & He & Hbits & Hbase).
  unfold Prefix_Contains, Prefix_IsValid. rewrite (rw_prefix _ Hp), Hzone, Hlen, Hval, Z.eqb_refl, Hh.
  destruct (Z.leb_spec 0 (p_bits (pl_prefix p))); [cbn [negb orb]|lia].
  assert ((Addr_BitLen (pl_base p) =? 0) = false) as -> by (by destruct (pl_base p)).
  cbn [negb orb]. apply Z.eqb_eq. apply shiftr_host; [done| |lia].
  destruct (pl_base p); [done|apply Hbase|apply Hbase].
Qed.

Lemma offset_address o : 0 <= o < pl_end p → offset p (address p o) = Some o.
Proof.
  intros Ho. destruct (address_value o Ho) as (Hval & _ & _ & H6). pose proof (rw_end _ Hp).
  unfold offset. rewrite address_contained by done. cbn [negb]. rewrite Hval.
  destruct (Addr_Is4 (pl_base p)) eqn:E4.
  - replace (Addr_value (pl_base p) + o - Addr_value (pl_base p)) with o by lia.
    rewrite wrap_small by lia. destruct (Z.leb_spec (pl_end p) o); [lia|done].
  - destruct (H6 eq_refl) as [-> Hlow]. rewrite Z.eqb_refl. cbn [negb].
    set (b := Addr_value (pl_base p)) in *. pose proof (Z.mod_pos_bound b (2 ^ 64) ltac:(lia)).
    assert ((b + o) mod 2 ^ 64 = b mod 2 ^ 64 + o) as ->.
    { rewrite Z.add_mod, (Z.mod_small o), Z.mod_small by lia. done. }
    replace (b mod 2 ^ 64 + o - b mod 2 ^ 64) with o by lia. rewrite (wrap_small 64) by lia.
    destruct (Z.leb_spec (pl_end p) o); [lia|]. by rewrite wrap_small by lia.
Qed.

Lemma address_inj o o' : 0 <= o < pl_end p → 0 <= o' < pl_end p → address p o = address p o' → o = o'.
Proof.
  intros Ho Ho' He. apply (f_equal (offset p)) in He. rewrite !offset_address in He by done. by injection He.
Qed.

Lemma offset_range a o : offset p a = Some o → 0 <= o < pl_end p.
Proof.
  pose proof (rw_end _ Hp). unfold offset. destruct (negb _); [done|].
  destruct (Addr_Is4 _); [|destruct (negb _); [done|]].
  - pose proof (wrap_range 32 (Addr_value a - Addr_value (pl_base p)) ltac:(lia)).
    destruct (Z.leb_spec (pl_end p) (u32 (Addr_value a - Addr_value (pl_base p)))); [done|].
    intros [= <-]. lia.
  - match goal with |- context [wrap 64 ?x] => pose proof (wrap_range 64 x ltac:(lia)); set (y := wrap 64 x) in * end.
    destruct (Z.leb_spec (pl_end p) y); [done|]. intros [= <-]. rewrite wrap_small by lia. lia.
Qed.

(** ** The ring *)

Definition in_ring (o : Z) : Prop := pl_first p <= o < pl_end p.

Lemma usable_eq : usable p = pl_end p - 2.
Proof.
  unfold usable. rewrite (rw_first _ Hp). pose proof (rw_end _ Hp).
  destruct (Z.leb_spec (pl_end p) 2); lia.
Qed.

Lemma ahead_spec o c :
  in_ring o → 0 <= c → ahead p o c = 2 + (o - 2 + c) mod usable p.
Proof.
  unfold in_ring, ahead. rewrite usable_eq, (rw_first _ Hp). pose proof (rw_end _ Hp). intros Ho Hc.
  rewrite (wrap_small 32 (o - 2)) by lia.
  pose proof (Z.mod_pos_bound (o - 2 + c) (pl_end p - 2) ltac:(lia)). by rewrite wrap_small by lia.
Qed.

Lemma ahead_in_ring o c : in_ring o → 0 <= c → in_ring (ahead p o c).
Proof.
  intros Ho Hc. rewrite ahead_spec by done. unfold in_ring. rewrite (rw_first _ Hp), usable_eq.
  pose proof (rw_end _ Hp). pose proof (Z.mod_pos_bound (o - 2 + c) (pl_end p - 2) ltac:(lia)). lia.
Qed.

Lemma ahead_ahead o c c' :
  in_ring o → 0 <= c → 0 <= c' → ahead p (ahead p o c) c' = ahead p o (c + c').
Proof.
  intros Ho Hc Hc'. rewrite (ahead_spec (ahead p o c)), !ahead_spec by (try apply ahead_in_ring; (done || lia)).
  pose proof (rw_end _ Hp). pose proof usable_eq. f_equal.
  replace (2 + (o - 2 + c) mod usable p - 2) with ((o - 2 + c) mod usable p) by lia.
  rewrite Z.add_mod_idemp_l by lia. f_equal. lia.
Qed.

Lemma ahead_0 o : in_ring o → ahead p o 0 = o.
Proof.
  intros Ho. rewrite ahead_spec by (done || lia). unfold in_ring in Ho. rewrite (rw_first _ Hp) in Ho.
  rewrite usable_eq, Z.add_0_r, Z.mod_small; lia.
Qed.

Lemma ahead_usable o : in_ring o → ahead p o (usable p) = o.
Proof.
  intros Ho. rewrite <- (ahead_0 o) at 2 by done. rewrite usable_eq. pose proof (rw_end _ Hp).
  rewrite !ahead_spec by (done || lia). rewrite usable_eq. f_equal.
  rewrite <- (Z.mul_1_l (pl_end p - 2)) at 1. rewrite Z.mod_add by lia. f_equal. lia.
Qed.

Lemma after_ahead o : in_ring o → after p o = ahead p o 1.
Proof.
  intros Ho. rewrite ahead_spec by (done || lia). unfold in_ring in Ho. pose proof (rw_end _ Hp).
  unfold after. rewrite (rw_first _ Hp), usable_eq in *. rewrite wrap_small by lia.
  destruct (Z.ltb_spec o 2); [lia|]. cbn [orb]. destruct (Z.leb_spec (pl_end p - 1) o).
  - replace (o - 2 + 1) with (1 * (pl_end p - 2)) by lia. rewrite Z.mod_mul; lia.
  - rewrite Z.mod_small; lia.
Qed.

Lemma after_in_ring o : 0 <= o < pl_end p → in_ring (after p o).
Proof.
  pose proof (rw_end _ Hp). unfold in_ring, after. rewrite (rw_first _ Hp), wrap_small by lia. intros Ho.
  destruct (Z.ltb_spec o 2); cbn [orb]; [lia|]. destruct (Z.leb_spec (pl_end p - 1) o); lia.
Qed.

(** Steps below a full turn lead to different offsets. *)
Lemma ahead_inj o c c' :
  in_ring o → 0 <= c < usable p → 0 <= c' < usable p → ahead p o c = ahead p o c' → c = c'.
Proof.
  intros Ho Hc Hc'. rewrite !ahead_spec by (done || lia). intros He.
  assert (He' : (o - 2 + c) mod usable p = (o - 2 + c') mod usable p) by lia.
  set (u := usable p) in *. set (x := o - 2) in *.
  pose proof (Z.div_mod (x + c) u ltac:(lia)). pose proof (Z.div_mod (x + c') u ltac:(lia)).
  assert (c - c' = u * ((x + c) / u - (x + c') / u)) by lia.
  assert ((x + c) / u - (x + c') / u = 0) by nia. nia.
Qed.

(** Every offset is some steps ahead. *)
Lemma ahead_surj o o' :
  in_ring o → in_ring o' → ∃ c, 0 <= c < usable p ∧ ahead p o c = o'.
Proof.
  intros Ho Ho'. pose proof (rw_end _ Hp). exists ((o' - o) mod usable p).
  pose proof usable_eq as Hu. pose proof (Z.mod_pos_bound (o' - o) (usable p) ltac:(lia)).
  split; [done|]. rewrite ahead_spec by (done || lia). rewrite Z.add_mod_idemp_r by lia.
  unfold in_ring in *. rewrite (rw_first _ Hp) in *. rewrite Z.mod_small; lia.
Qed.

End Range.

(** ** The invariant of a pool *)

Record pool_wf (p : pool) : Prop := {
  wf_range : range_wf p;
  wf_next : in_ring p (pl_next p);
  wf_budget : 0 <= pl_budget p <= pl_step p;
  wf_fresh : ∀ i, is_Some (pl_records p !! i) → (i < pl_fresh p)%nat;
  wf_offset : ∀ o i, pl_byOffset p !! o = Some i →
    in_ring p o ∧ ∃ r, pl_records p !! i = Some r ∧ r_offset r = o;
  wf_name : ∀ d i, pl_byName p !! d = Some i →
    d ≠ ""%string ∧ ∃ r, pl_records p !! i = Some r ∧ r_domain r = d ∧
      pl_byOffset p !! r_offset r = Some i;
}.

Lemma deref_Some p i r : pl_records p !! i = Some r → deref p i = r.
Proof. unfold deref. by intros ->. Qed.

Lemma wf_deref_offset p o i : pool_wf p → pl_byOffset p !! o = Some i → r_offset (deref p i) = o.
Proof. intros Hp Hi. destruct (wf_offset _ Hp _ _ Hi) as (_ & r & Hr & <-). by rewrite (deref_Some _ _ _ Hr). Qed.

Lemma wf_deref_name p d i :
  pool_wf p → pl_byName p !! d = Some i →
  r_domain (deref p i) = d ∧ pl_byOffset p !! r_offset (deref p i) = Some i.
Proof. intros Hp Hi. destruct (wf_name _ Hp _ _ Hi) as (_ & r & Hr & ? & ?). by rewrite (deref_Some _ _ _ Hr). Qed.

(** A record is filed under one offset: it has one. *)
Lemma wf_offset_unique p o o' i :
  pool_wf p → pl_byOffset p !! o = Some i → pl_byOffset p !! o' = Some i → o = o'.
Proof. intros Hp H1 H2. by rewrite <- (wf_deref_offset p o i), <- (wf_deref_offset p o' i). Qed.

(** Two pools with the same range. *)
Definition same_range (p q : pool) : Prop :=
  pl_prefix p = pl_prefix q ∧ pl_base p = pl_base q ∧ pl_first p = pl_first q ∧ pl_end p = pl_end q ∧
  pl_step p = pl_step q ∧ pl_limit p = pl_limit q ∧ pl_max p = pl_max q.

Lemma same_range_refl p : same_range p p.
Proof. by unfold same_range. Qed.
Lemma same_range_trans p q r : same_range p q → same_range q r → same_range p r.
Proof. unfold same_range. intuition congruence. Qed.

Lemma same_range_fun p q :
  same_range p q → address p = address q ∧ offset p = offset q ∧ ahead p = ahead q ∧ usable p = usable q ∧
    after p = after q.
Proof.
  destruct p, q. unfold same_range. cbn. intros (-> & -> & -> & -> & -> & -> & ->). done.
Qed.

Lemma same_range_wf p q : same_range p q → range_wf p → range_wf q.
Proof.
  intros Hs Hp. destruct (same_range_fun _ _ Hs) as (_ & _ & _ & Hu & _).
  destruct Hs as (E1 & E2 & E3 & E4 & E5 & E6 & E7), Hp. by split; rewrite <- ?Hu, <- ?E1, <- ?E2, <- ?E3, <- ?E4, <- ?E5, <- ?E6, <- ?E7.
Qed.

(** Assignments that leave the domain and the offset of a record. *)
Definition keeps (f : record → record) : Prop :=
  ∀ r, r_domain (f r) = r_domain r ∧ r_offset (f r) = r_offset r.

Lemma assign_lookup f i p j :
  pl_records (assign f i p) !! j = (if decide (i = j) then f <$> pl_records p !! j else pl_records p !! j).
Proof.
  cbn. destruct (decide (i = j)) as [->|Hne]; [by rewrite lookup_alter_eq|by rewrite lookup_alter_ne].
Qed.

Lemma deref_assign f i p j :
  is_Some (pl_records p !! i) →
  deref (assign f i p) j = if decide (i = j) then f (deref p j) else deref p j.
Proof.
  intros [r Hr]. unfold deref. rewrite assign_lookup.
  destruct (decide (i = j)) as [->|]; [by rewrite Hr|done].
Qed.

Lemma deref_assign_keeps f i p j : keeps f →
  r_domain (deref (assign f i p) j) = r_domain (deref p j) ∧
  r_offset (deref (assign f i p) j) = r_offset (deref p j).
Proof.
  intros Hf. unfold deref. rewrite assign_lookup. destruct (decide (i = j)); [|done].
  destruct (pl_records p !! j); cbn; [apply Hf|done].
Qed.

Lemma assign_wf f i p : keeps f → pool_wf p → pool_wf (assign f i p).
Proof.
  intros Hf Hp. destruct Hp as [Hr Hn Hb Hfr Ho Hnm]. split; try done.
  - by apply (same_range_wf p).
  - intros j [r Hj]. rewrite assign_lookup in Hj. apply Hfr. destruct (decide (i = j)); [|done].
    destruct (pl_records p !! j); [done|]. by cbn in Hj.
  - intros o j Hj. destruct (Ho o j Hj) as (? & r & Hrj & <-). split; [done|]. rewrite assign_lookup, Hrj.
    destruct (decide (i = j)); eexists; split; try done. apply Hf.
  - intros d j Hj. destruct (Hnm d j Hj) as (? & r & Hrj & <- & Hjo). split; [done|].
    rewrite assign_lookup, Hrj. destruct (Hf r) as [E1 E2].
    destruct (decide (i = j)); eexists; split_and!; try done. cbn. by rewrite E2.
Qed.

(** Changes to the fields the invariant does not read. *)
Lemma wf_change p q :
  pool_wf p → same_range p q → in_ring p (pl_next q) → 0 <= pl_budget q <= pl_step q →
  pl_records q = pl_records p → pl_fresh q = pl_fresh p → pl_byOffset q = pl_byOffset p →
  pl_byName q = pl_byName p → pool_wf q.
Proof.
  intros [Hr Hn Hb Hfr Ho Hnm] Hs Hn' Hb' E1 E2 E3 E4.
  destruct (Hs) as (_ & _ & Ef & Ee & _). unfold in_ring in *.
  split; rewrite ?E1, ?E2, ?E3, ?E4; unfold in_ring; rewrite <- ?Ef, <- ?Ee; try done.
  by apply (same_range_wf p).
Qed.

(** A new record at a free offset, under a name or held back. *)
Lemma new_offset_wf p r :
  pool_wf p → in_ring p (r_offset r) → pl_byOffset p !! r_offset r = None →
  pool_wf (pset_byOffset (<[r_offset r := pl_fresh p]> (pl_byOffset p)) (new_record r p)).
Proof.
  intros Hp Hin Hfree. pose proof Hp as [Hr Hn Hb Hfr Ho Hnm].
  assert (Hne : ∀ i, is_Some (pl_records p !! i) → i ≠ pl_fresh p)
    by (intros i Hi ->; specialize (Hfr _ Hi); lia).
  split; try done.
  - by apply (same_range_wf p).
  - cbn. intros i Hi. destruct (decide (i = pl_fresh p)) as [->|Hi']; [lia|].
    rewrite lookup_insert_ne in Hi by done. specialize (Hfr i Hi). lia.
  - cbn. intros o i. destruct (decide (r_offset r = o)) as [<-|Hd].
    + rewrite lookup_insert_eq. intros [= <-]. split; [done|]. exists r. by rewrite lookup_insert_eq.
    + rewrite lookup_insert_ne by done. intros Hi. destruct (Ho _ _ Hi) as (? & r' & Hr' & ?).
      split; [done|]. exists r'. by rewrite lookup_insert_ne by (apply not_eq_sym, Hne; eauto).
  - cbn. intros d i Hi. destruct (Hnm d i Hi) as (? & r' & Hr' & Hd & Ho'). split; [done|].
    exists r'. rewrite lookup_insert_ne by (apply not_eq_sym, Hne; eauto). split_and!; [done|done|].
    rewrite lookup_insert_ne; [done|]. intros He. by rewrite He, Ho' in Hfree.
Qed.

Lemma hold_offset_wf lastUse p o : in_ring p o → pool_wf p → pool_wf (hold_offset lastUse p o).
Proof.
  intros Hin Hp. unfold hold_offset. destruct (pl_byOffset p !! o) eqn:E; [done|].
  by apply (new_offset_wf p (MkRecord "" o lastUse false false)).
Qed.

Lemma add_record_wf domain o lastUse saved p :
  domain ≠ ""%string → in_ring p o → pl_byOffset p !! o = None → pool_wf p →
  pool_wf (add_record domain o lastUse saved p).
Proof.
  intros Hd Hin Hfree Hp.
  pose proof (new_offset_wf p (MkRecord domain o lastUse saved false) Hp Hin Hfree) as [Hr Hn Hb Hfr Ho Hnm].
  set (q := pset_byOffset _ _) in *.
  assert (Hq : pool_wf (pset_byName (<[domain := pl_fresh p]> (pl_byName p)) q)).
  { split; try done; [by apply (same_range_wf q)|]. cbn. intros d i.
    destruct (decide (domain = d)) as [<-|Hne].
    - rewrite lookup_insert_eq. intros [= <-]. split; [done|]. eexists. rewrite lookup_insert_eq.
      split_and!; [done|done|]. cbn. by rewrite lookup_insert_eq.
    - rewrite lookup_insert_ne by done. apply Hnm. }
  unfold add_record. destruct saved; [|done].
  apply (wf_change _ _ Hq); try done; apply Hq.
Qed.

Lemma remove_wf i p : pool_wf p → pl_byOffset p !! r_offset (deref p i) = Some i → pool_wf (remove i p).
Proof.
  intros Hp Hi. pose proof Hp as [Hr Hn Hb Hfr Ho Hnm].
  destruct (Ho _ _ Hi) as (_ & r & Hri & _). pose proof (deref_Some _ _ _ Hri) as Hd.
  unfold remove. rewrite Hd in *.
  (* a name that is left leads to another record, at another offset *)
  assert (Hrest : ∀ d j, pl_byName p !! d = Some j → j ≠ i → pl_byName p !! d = Some j →
    d ≠ ""%string ∧ ∃ r', pl_records p !! j = Some r' ∧ r_domain r' = d ∧
      delete (r_offset r) (pl_byOffset p) !! r_offset r' = Some j).
  { intros d j Hj Hne _. destruct (Hnm d j Hj) as (? & r' & Hr' & Hd' & Ho'). split; [done|].
    exists r'. split_and!; [done|done|]. rewrite lookup_delete_ne; [done|]. intros He.
    rewrite <- He in Ho'. congruence. }
  assert (Hoff : ∀ o j, delete (r_offset r) (pl_byOffset p) !! o = Some j →
    in_ring p o ∧ ∃ r', pl_records p !! j = Some r' ∧ r_offset r' = o)
    by (intros o j [_ Hj]%lookup_delete_Some; by apply Ho).
  destruct (negb (held r) && _) eqn:E.
  - apply andb_true_iff in E as [_ E%bool_decide_eq_true]. cbn in E.
    split; try done; [by apply (same_range_wf p)|]. cbn.
    intros d j [Hne Hj]%lookup_delete_Some. apply Hrest; try done. intros ->.
    destruct (Hnm d i Hj) as (_ & r' & Hr' & Hd' & _). congruence.
  - split; try done; [by apply (same_range_wf p)|]. cbn. intros d j Hj. apply Hrest; try done.
    intros ->. destruct (Hnm d i Hj) as (Hd0 & r' & Hr' & Hd' & _). rewrite Hri in Hr'. injection Hr' as <-.
    apply andb_false_iff in E as [E|E%bool_decide_eq_false]; [|cbn in E; congruence].
    unfold held in E. destruct (r_domain r); [by rewrite <- Hd' in Hd0|done].
Qed.

(** ** Taking offsets *)

(** The position moved over [k] offsets. *)
Definition moved (saved : bool) (k : Z) (p : pool) : pool :=
  let p := pset_advanced (u64 (pl_advanced p + k)) (pset_next (ahead p (pl_next p) k) p) in
  if saved then pset_budget (Z.max 0 (pl_budget p - k)) p else p.

(** One round of the loop is one step. *)
Lemma moved_one saved p : pool_wf p →
  (let q := pset_advanced (u64 (pl_advanced p + 1)) (pset_next (after p (pl_next p)) p) in
   if saved && (0 <? pl_budget q) then pset_budget (pl_budget q - 1) q else q) = moved saved 1 p.
Proof.
  intros Hp. unfold moved. rewrite after_ahead by apply Hp.
  pose proof (wf_budget _ Hp). destruct saved; cbn [andb]; [|done]. cbn [pl_budget pset_advanced pset_next].
  destruct (Z.ltb_spec 0 (pl_budget p)).
  - by rewrite Z.max_r by lia.
  - assert (Hz : pl_budget p = 0) by lia. rewrite Z.max_l by lia. rewrite <- Hz. by destruct p.
Qed.

Lemma moved_same_range saved k p : same_range p (moved saved k p).
Proof. unfold moved. by destruct saved. Qed.

Lemma moved_wf saved k p : 0 <= k → pool_wf p → pool_wf (moved saved k p).
Proof.
  intros Hk Hp. pose proof (wf_budget _ Hp).
  apply (wf_change p); try done; try (by unfold moved; destruct saved).
  - unfold moved. destruct saved; cbn; apply ahead_in_ring; (apply Hp || done).
  - unfold moved. destruct saved; cbn; lia.
Qed.

Lemma moved_moved saved k j p :
  0 <= k → 0 <= j → pool_wf p → moved saved j (moved saved k p) = moved saved (k + j) p.
Proof.
  intros Hk Hj Hp. pose proof (wf_next _ Hp) as Hn.
  pose proof (ahead_ahead _ (wf_range _ Hp) (pl_next p) k j Hn Hk Hj) as Ha.
  assert (Hadv : u64 (u64 (pl_advanced p + k) + j) = u64 (pl_advanced p + (k + j))).
  { unfold wrap. rewrite Z.add_mod_idemp_l by done. f_equal. lia. }
  destruct (same_range_fun _ _ (moved_same_range saved k p)) as (_ & _ & Hah & _).
  assert (Hbud : saved = true → Z.max 0 (pl_budget (moved saved k p) - j) = Z.max 0 (pl_budget p - (k + j)))
    by (intros ->; unfold moved; cbn [pl_budget pset_budget pset_advanced pset_next]; lia).
  unfold moved at 1. rewrite <- Hah.
  replace (pl_next (moved saved k p)) with (ahead p (pl_next p) k) by (by unfold moved; destruct saved).
  replace (pl_advanced (moved saved k p)) with (u64 (pl_advanced p + k)) by (by unfold moved; destruct saved).
  rewrite Ha, Hadv. destruct saved; [|done].
  change (pl_budget (pset_advanced ?a (pset_next ?n ?q))) with (pl_budget q). by rewrite Hbud.
Qed.

Lemma moved_0 saved p : pool_wf p → 0 <= pl_advanced p < 2 ^ 64 → moved saved 0 p = p.
Proof.
  intros Hp Ha. unfold moved. rewrite (ahead_0 _ (wf_range _ Hp) _ (wf_next _ Hp)), Z.add_0_r, wrap_small by done.
  pose proof (wf_budget _ Hp). destruct saved; [|by destruct p].
  cbn [pl_budget pset_advanced pset_next].
  replace (Z.max 0 (pl_budget p - 0)) with (pl_budget p) by lia. by destruct p.
Qed.

Lemma next_free_spec fuel saved failed p p' found :
  pool_wf p → 0 <= pl_advanced p < 2 ^ 64 → next_free fuel saved failed p = (p', found) →
  ∃ k, 0 <= k ∧ p' = moved saved k p ∧
    (saved = true → failed = false → k <= pl_budget p) ∧
    (∀ j, 0 <= j < k - 1 → pl_byOffset p !! ahead p (pl_next p) j ≠ None) ∧
    match found with
    | Free o => 1 <= k ∧ o = ahead p (pl_next p) (k - 1) ∧ pl_byOffset p !! o = None
    | UsedUp => saved = true ∧ failed = false ∧ k = pl_budget p ∧
        (1 <= k → pl_byOffset p !! ahead p (pl_next p) (k - 1) ≠ None)
    | OutOfFuel => k = Z.of_nat fuel ∧ (1 <= k → pl_byOffset p !! ahead p (pl_next p) (k - 1) ≠ None)
    end.
Proof.
  revert p. induction fuel as [|fuel IH]; intros p Hp Ha; cbn [next_free].
  { intros [= <- <-]. exists 0. rewrite moved_0 by done. pose proof (wf_budget _ Hp).
    split_and!; try done; lia. }
  pose proof (wf_budget _ Hp) as Hb. destruct (saved && (pl_budget p =? 0) && negb failed) eqn:E.
  { intros [= <- <-]. exists 0. rewrite moved_0 by done. apply andb_true_iff in E as [[Hs Hz]%andb_true_iff Hf].
    split_and!; try done; try lia. by destruct failed. }
  assert (Hle : saved = true → failed = false → 1 <= pl_budget p)
    by (intros -> ->; cbn in E; destruct (Z.eqb_spec (pl_budget p) 0); [done|lia]).
  clear E. pose proof (moved_one saved p Hp) as Hm. cbn zeta in Hm. rewrite Hm. clear Hm.
  assert (Hbo : pl_byOffset (moved saved 1 p) = pl_byOffset p) by (by unfold moved; destruct saved).
  assert (Hnx : pl_next (moved saved 1 p) = ahead p (pl_next p) 1) by (by unfold moved; destruct saved).
  assert (Hadv : 0 <= pl_advanced (moved saved 1 p) < 2 ^ 64)
    by (unfold moved; destruct saved; cbn; apply (wrap_range 64); lia).
  rewrite Hbo. destruct (pl_byOffset p !! pl_next p) as [i|] eqn:Ei.
  - intros Hn. destruct (IH (moved saved 1 p) ltac:(by apply moved_wf) Hadv Hn) as (k & Hk & -> & Hle' & Hocc & Hfound).
    destruct (same_range_fun _ _ (moved_same_range saved 1 p)) as (_ & _ & Hah & _).
    rewrite Hbo, Hnx, <- Hah in *. rewrite moved_moved in * by (done || lia).
    assert (Hshift : ∀ j, 0 <= j → ahead p (ahead p (pl_next p) 1) j = ahead p (pl_next p) (1 + j))
      by (intros; apply ahead_ahead; (apply Hp || done || lia)).
    assert (Hall : ∀ j, 0 <= j < 1 + k - 1 → k ≠ 0 → (1 <= j → j < 1 + k - 1 → pl_byOffset p !! ahead p (pl_next p) j ≠ None) → pl_byOffset p !! ahead p (pl_next p) j ≠ None).
    { intros j Hj Hk0 Hj1. destruct (Z.eq_dec j 0) as [->|]; [by rewrite ahead_0, Ei by apply Hp|]. apply Hj1; lia. }
    assert (Hend : (1 <= k → pl_byOffset p !! ahead p (ahead p (pl_next p) 1) (k - 1) ≠ None) →
      1 <= 1 + k → pl_byOffset p !! ahead p (pl_next p) (1 + k - 1) ≠ None).
    { intros Hl _. destruct (Z.eq_dec k 0) as [->|]; [by rewrite ahead_0, Ei by apply Hp|].
      rewrite Hshift in Hl by lia. replace (1 + k - 1) with (1 + (k - 1)) by lia. apply Hl. lia. }
    exists (1 + k). split_and!; [lia|done| | |].
    + intros Hs Hf. specialize (Hle Hs Hf). specialize (Hle' Hs Hf). subst saved.
      unfold moved in Hle'. cbn [pl_budget pset_budget pset_advanced pset_next] in Hle'. lia.
    + intros j Hj. apply Hall; [lia|lia|]. intros ? ?. specialize (Hocc (j - 1)). rewrite Hshift in Hocc by lia.
      replace (1 + (j - 1)) with j in Hocc by lia. apply Hocc. lia.
    + destruct found as [o| |].
      * destruct Hfound as (? & -> & ?). rewrite Hshift in * by lia.
        replace (1 + k - 1) with (1 + (k - 1)) by lia. split_and!; [lia|done|done].
      * destruct Hfound as (Hs & Hf & Hkb & Hlast). split_and!; [done|done| |by apply Hend].
        specialize (Hle Hs Hf). subst saved. unfold moved in Hkb.
        cbn [pl_budget pset_budget pset_advanced pset_next] in Hkb. lia.
      * destruct Hfound as [Hkf Hlast]. split; [lia|by apply Hend].
  - intros [= <- <-]. exists 1. rewrite ahead_0 by apply Hp. split_and!; try done; lia.
Qed.

(** With fewer records than offsets one of the next offsets is free. *)
Lemma free_offset p :
  pool_wf p → count p < usable p →
  ∃ j, (j ≤ size (pl_byOffset p))%nat ∧ pl_byOffset p !! ahead p (pl_next p) (Z.of_nat j) = None.
Proof.
  intros Hp Hc. set (n := S (size (pl_byOffset p))).
  destruct (Exists_dec (λ j, pl_byOffset p !! ahead p (pl_next p) (Z.of_nat j) = None) (seq 0 n)) as [He|Hn].
  { apply Exists_exists in He as (j & Hj%elem_of_seq & He). exists j. split; [lia|done]. }
  exfalso. set (l := map (λ j, ahead p (pl_next p) (Z.of_nat j)) (seq 0 n)).
  assert (Hnd : NoDup l).
  { apply NoDup_fmap_2_strong; [|apply NoDup_seq]. intros i j Hi%elem_of_seq Hj%elem_of_seq He.
    apply (ahead_inj _ (wf_range _ Hp)) in He; [lia|apply Hp| |]; unfold count in Hc; lia. }
  assert (Hsub : (list_to_set l : gset Z) ⊆ dom (pl_byOffset p)).
  { intros o [j [-> Hj]]%elem_of_list_to_set%list_elem_of_fmap. apply elem_of_dom.
    rewrite <- not_eq_None_Some. intros Hf. apply Hn, Exists_exists. eauto. }
  apply subseteq_size in Hsub. rewrite size_list_to_set, size_dom in Hsub by done.
  unfold l in Hsub. rewrite length_map, length_seq in Hsub. lia.
Qed.

Lemma next_free_enough saved failed p :
  pool_wf p → 0 <= pl_advanced p < 2 ^ 64 → count p < usable p →
  (next_free (S (size (pl_byOffset p))) saved failed p).2 ≠ OutOfFuel.
Proof.
  intros Hp Ha Hc Hout. destruct (free_offset p Hp Hc) as (j & Hj & Hfree).
  destruct (next_free (S (size (pl_byOffset p))) saved failed p) as [p' found] eqn:E. cbn [snd] in Hout. subst found.
  destruct (next_free_spec _ _ _ _ _ _ Hp Ha E) as (k & _ & _ & _ & Hocc & -> & Hlast).
  destruct (decide (j = size (pl_byOffset p))) as [->|].
  - apply Hlast; [lia|]. by replace (Z.of_nat (S (size (pl_byOffset p))) - 1) with (Z.of_nat (size (pl_byOffset p))) by lia.
  - by apply (Hocc (Z.of_nat j)); [lia|].
Qed.
