(* ===== verification/FakeIPStore.v ===== *)
(** * The FakeIP store: the invariant and every operation

    [store_wf] holds of a new store and is preserved by each critical section of the
    code, whatever the clock, the order of maps, failing writes and the changes a save
    carries from one section to the next. *)
From stdpp Require Import sorting base gmap strings countable list.
From S2P Require Import Prelude Netip Metadata FakeIP FakeIPPool.

(** ** Changes to a pool that keep its invariant, its range and its position *)

Definition evolves (p q : pool) : Prop :=
  pool_wf p → pool_wf q ∧ same_range p q ∧ pl_advanced q = pl_advanced p.

Lemma evolves_refl p : evolves p p.
Proof. intros Hp. split; [done|]. split; [apply same_range_refl|done]. Qed.

Lemma evolves_trans p q r : evolves p q → evolves q r → evolves p r.
Proof.
  intros H1 H2 Hp. destruct (H1 Hp) as (Hq & Hs & Ha). destruct (H2 Hq) as (Hr & Hs' & Ha').
  split_and!; [done|by eapply same_range_trans|congruence].
Qed.

Lemma evolves_fold {A} (f : pool → A → pool) l p :
  (∀ q x, evolves q (f q x)) → evolves p (fold_left f l p).
Proof.
  intros Hf. revert p. induction l as [|x l IH]; intros p; [apply evolves_refl|].
  eapply evolves_trans; [apply Hf|apply IH].
Qed.

Lemma evolves_assign f i p : keeps f → evolves p (assign f i p).
Proof. intros Hf Hp. by split_and!; [apply assign_wf| |]. Qed.

Lemma evolves_release_guarded (c : bool) i p :
  (c = true → pl_byOffset p !! r_offset (deref p i) = Some i) →
  evolves p (if c then release i p else p).
Proof.
  intros Hc Hp. destruct c; [|by apply evolves_refl]. split_and!; [apply remove_wf; auto|..];
    unfold release, remove; by case_match.
Qed.

Lemma evolves_fields p q :
  same_range p q → pl_next q = pl_next p → 0 <= pl_budget q <= pl_step q ∨ pl_budget q = pl_budget p →
  pl_records q = pl_records p → pl_fresh q = pl_fresh p → pl_byOffset q = pl_byOffset p →
  pl_byName q = pl_byName p → pl_advanced q = pl_advanced p → evolves p q.
Proof.
  intros Hs En Eb E1 E2 E3 E4 E5 Hp. split_and!; [|done|done].
  apply (wf_change p); try done; [rewrite En; apply Hp|].
  destruct Eb as [?| ->]; [done|]. destruct Hs as (_ & _ & _ & _ & <- & _). apply Hp.
Qed.

Ltac evolve_field := apply evolves_fields; first [done|by right].

Lemma keeps_flags : ∀ v w, keeps (rset_dirty v) ∧ keeps (rset_removing v) ∧ keeps (rset_lastUse w).
Proof. done. Qed.

Lemma evolves_release_unused c p : evolves p (release_unused c p).
Proof.
  unfold release_unused. apply evolves_release_guarded.
  by intros [?%bool_decide_eq_true _]%andb_true_iff.
Qed.

Lemma evolves_resave ord p : evolves p (resave ord p).
Proof.
  unfold resave. set (ids := List.filter _ _). intros Hp.
  assert (Hq : evolves p (pset_forgotten [] (pset_budget 0 (pset_reserved false p)))).
  { apply evolves_fields; try done. left. cbn. destruct (rw_step _ (wf_range _ Hp)). lia. }
  revert Hp. eapply evolves_trans; [exact Hq|]. eapply evolves_trans.
  - apply (evolves_fold (λ p i, assign (rset_dirty true) i p) ids). intros. by apply evolves_assign.
  - evolve_field.
Qed.

Lemma evolves_choose clean l p removals : evolves p (fold_left (choose clean) l (p, removals)).1.
Proof.
  revert p removals. induction l as [|c l IH]; intros p removals; [apply evolves_refl|].
  cbn [fold_left choose]. case_match; [apply IH|].
  eapply evolves_trans; [|apply IH]. by apply evolves_assign.
Qed.

Lemma evolves_collect ord now clean isRoom p : evolves p (collect ord now clean isRoom p).1.
Proof.
  unfold collect. set (p1 := if isRoom && full p then _ else p).
  assert (H1 : evolves p p1) by (unfold p1; case_match; [evolve_field|apply evolves_refl]).
  destruct (fold_left (choose clean) (pl_expired p1) (p1, [])) as [p2 removals] eqn:E. cbn [fst].
  eapply evolves_trans; [exact H1|]. eapply evolves_trans.
  - pose proof (evolves_choose clean (pl_expired p1) p1 []) as H2. rewrite E in H2. exact H2.
  - evolve_field.
Qed.

Lemma evolves_rollback isRoom b p : evolves p (rollback isRoom b p).
Proof.
  unfold rollback. set (p1 := pset_dirty _ p). set (p2 := fold_left _ _ p1).
  assert (H2 : evolves p p2).
  { apply (evolves_trans _ p1); [unfold p1; evolve_field|]. unfold p2.
    apply evolves_fold. intros. by apply evolves_assign. }
  case_match; [|done]. eapply evolves_trans; [exact H2|]. apply evolves_fold. intros q c.
  pose proof (evolves_release_unused c q) as Hr. unfold release_unused in Hr. cbn zeta in *.
  case_match; [|apply evolves_refl]. case_match; [done|].
  eapply evolves_trans; [exact Hr|]. evolve_field.
Qed.

Lemma evolves_finish_removal p c : evolves p (finish_removal p c).
Proof.
  unfold finish_removal. set (q := assign (rset_removing false) (rm_record c) p).
  apply (evolves_trans _ q); [by apply evolves_assign|].
  destruct (bool_decide _) eqn:Hb; cbn [negb]; [|apply evolves_refl].
  destruct (r_lastUse (deref q (rm_record c)) =? rm_lastUse c); cbn [negb].
  - apply (evolves_release_guarded true). intros _. by apply bool_decide_eq_true in Hb.
  - case_match; [apply evolves_refl|].
    apply (evolves_trans _ (assign (rset_dirty true) (rm_record c) q)); [by apply evolves_assign|evolve_field].
Qed.

Lemma evolves_commit b p : evolves p (commit b p).
Proof.
  unfold commit. set (p1 := fold_left _ _ p). set (p2 := pset_forgotten [] p1). set (p3 := fold_left _ _ p2).
  assert (H3 : evolves p p3).
  { apply (evolves_trans _ p1); [apply evolves_fold; intros; by apply evolves_assign|].
    apply (evolves_trans _ p2); [unfold p2; evolve_field|]. apply evolves_fold, evolves_finish_removal. }
  destruct (b_reserve b) as [[adv last]|]; [|done]. apply (evolves_trans _ p3); [done|].
  intros Hp. pose proof (wrap_range 64 (pl_advanced p3 - adv) ltac:(lia)).
  destruct (rw_step _ (wf_range _ Hp)) as [Hstep _].
  revert Hp. apply evolves_fields; try done. left. cbn [pl_budget pl_step pset_budget pset_reserveLast pset_reserved]. lia.
Qed.

Lemma evolves_clear p :
  evolves p (pset_forgotten [] (pset_expired [] (pset_dirty [] (pset_byOffset ∅ (pset_byName ∅ p))))).
Proof.
  intros Hp. destruct Hp. split_and!; [|done|done]. split; try done. by apply (same_range_wf p).
Qed.

(** Removing the candidates of [oldest] one after the other. *)
Lemma evolves_release_all l p :
  NoDup (map rm_record l) → (∀ c, c ∈ l → pl_byOffset p !! r_offset (deref p (rm_record c)) = Some (rm_record c)) →
  evolves p (fold_left (λ p c, release (rm_record c) p) l p).
Proof.
  revert p. induction l as [|c l IH]; intros p Hnd Hin; [apply evolves_refl|]. cbn [map] in Hnd.
  apply NoDup_cons in Hnd as [Hc Hnd]. pose proof (Hin c ltac:(by left)) as Hci.
  intros Hp. destruct (evolves_release_guarded true (rm_record c) p (λ _, Hci) Hp) as (Hq & Hs & Ha).
  assert (Hr : evolves (release (rm_record c) p) (fold_left (λ p c, release (rm_record c) p) l (release (rm_record c) p))).
  { apply IH; [done|]. intros c' Hc'. pose proof (Hin c' ltac:(by right)) as Hci'.
    assert (Hrec : deref (release (rm_record c) p) (rm_record c') = deref p (rm_record c'))
      by (unfold release, remove; by case_match).
    rewrite Hrec. unfold release, remove.
    assert (r_offset (deref p (rm_record c)) ≠ r_offset (deref p (rm_record c'))).
    { intros He. rewrite He, Hci' in Hci. injection Hci as Heq. apply Hc. rewrite <- Heq.
      apply list_elem_of_fmap. eauto. }
    case_match; cbn; by rewrite lookup_delete_ne. }
  destruct (Hr Hq) as (? & ? & ?). split_and!; [done|by eapply same_range_trans|]. cbn. congruence.
Qed.

(** ** The records [oldest] chooses *)

Definition candidate (p : pool) (c : removal) : Prop :=
  pl_byOffset p !! r_offset (deref p (rm_record c)) = Some (rm_record c) ∧
  rm_lastUse c = r_lastUse (deref p (rm_record c)) ∧ r_removing (deref p (rm_record c)) = false.

Lemma iterate_byOffset ord p i :
  pool_wf p → i ∈ iterate ord (pl_byOffset p) ↔ pl_byOffset p !! r_offset (deref p i) = Some i.
Proof.
  intros Hp. rewrite (iterate_perm ord), list_elem_of_fmap. split.
  - intros ([o j] & -> & Hj%elem_of_map_to_list). cbn in *. by rewrite (wf_deref_offset p o j).
  - intros Hi. exists (r_offset (deref p i), i). split; [done|]. by apply elem_of_map_to_list.
Qed.

Lemma iterate_NoDup ord p : pool_wf p → NoDup (iterate ord (pl_byOffset p)).
Proof.
  intros Hp. rewrite (iterate_perm ord). apply NoDup_fmap_2_strong; [|apply NoDup_map_to_list].
  intros [o i] [o' j] Hi%elem_of_map_to_list Hj%elem_of_map_to_list. cbn in *. intros ->.
  by rewrite (wf_offset_unique p o o' j).
Qed.

Lemma filter_NoDup_map {A B} (f : A → B) g l : NoDup (map f l) → NoDup (map f (List.filter g l)).
Proof.
  induction l as [|x l IH]; cbn; [done|]. intros [Hx Hl]%NoDup_cons. destruct (g x); cbn; [|auto].
  apply NoDup_cons. split; [|auto]. intros (y & Heq & Hy)%list_elem_of_fmap. apply Hx.
  apply list_elem_of_fmap. exists y. split; [done|]. rewrite list_elem_of_In, filter_In in Hy.
  apply list_elem_of_In, Hy.
Qed.

Lemma oldest_candidates ord cnt protect tick p :
  pool_wf p → NoDup (map rm_record (oldest ord cnt protect tick p)) ∧
  ∀ c, c ∈ oldest ord cnt protect tick p → candidate p c.
Proof.
  intros Hp. unfold oldest.
  set (listed := map (λ i, MkRemoval i (r_lastUse (deref p i))) (iterate ord (pl_byOffset p))).
  assert (Hl : NoDup (map rm_record listed)).
  { unfold listed. rewrite map_map. cbn. rewrite map_id. by apply iterate_NoDup. }
  assert (Hc : ∀ c, c ∈ listed → r_removing (deref p (rm_record c)) = false → candidate p c).
  { intros c (i & -> & Hi)%list_elem_of_fmap Hr. split_and!; [by apply (iterate_byOffset ord)|done|done]. }
  set (removable := List.filter _ listed). set (chosen := if _ && _ then _ else _).
  assert (Hch : NoDup (map rm_record chosen) ∧ ∀ c, c ∈ chosen → candidate p c).
  { split.
    - unfold chosen. case_match; unfold removable; by repeat apply filter_NoDup_map.
    - intros c. unfold chosen, removable. case_match; rewrite list_elem_of_In, !filter_In; intros [[Hin Hr] _];
        (apply Hc; [by apply list_elem_of_In|]); by destruct (r_removing _). }
  pose proof (merge_sort_Permutation older chosen) as Hperm. destruct Hch as [Hnd Hin]. split.
  - apply (sublist_NoDup _ (map rm_record (merge_sort older chosen))); [|apply fmap_sublist, sublist_take].
    by rewrite (Permutation_map rm_record Hperm).
  - intros c Hx. apply Hin. rewrite <- Hperm. eapply elem_of_sublist; [exact Hx|apply sublist_take].
Qed.

(** ** The invariant of the store *)

Definition pool_ok (isIPv6 : bool) (p : pool) : Prop :=
  pool_wf p ∧ 0 <= pl_advanced p < 2 ^ 64 ∧ Addr_Is4 (pl_base p) = negb isIPv6.

Definition store_wf (s : Store) : Prop := ∀ isIPv6 p, s_pool isIPv6 s = Some p → pool_ok isIPv6 p.

Lemma evolves_ok v6 p q : evolves p q → pool_ok v6 p → pool_ok v6 q.
Proof.
  intros He (Hp & Ha & H4). destruct (He Hp) as (Hq & (_ & Hb & _) & Haq).
  split_and!; [done|lia|lia|congruence].
Qed.

Lemma s_pool_on v6 v6' f s :
  s_pool v6 (on_pool v6' f s) = (if Bool.eqb v6 v6' then f <$> s_pool v6 s else s_pool v6 s).
Proof. by destruct v6, v6'. Qed.

Lemma on_pool_wf v6 f s :
  (∀ p, s_pool v6 s = Some p → pool_ok v6 p → pool_ok v6 (f p)) → store_wf s → store_wf (on_pool v6 f s).
Proof.
  intros Hf Hs v6' p. rewrite s_pool_on. destruct (Bool.eqb_spec v6' v6) as [->|]; [|apply Hs].
  intros (q & Hq & ->)%fmap_Some. apply Hf; [done|by apply Hs].
Qed.

Lemma on_pool_evolves v6 f s : (∀ p, evolves p (f p)) → store_wf s → store_wf (on_pool v6 f s).
Proof. intros Hf. apply on_pool_wf. intros p _. by apply evolves_ok. Qed.

Lemma touch_wf now v6 i s : store_wf s → store_wf (touch now v6 i s).
Proof.
  intros Hs. unfold touch, stamp. apply on_pool_evolves; [|exact Hs]. intros p. by apply evolves_assign.
Qed.

(** A free offset, and the pool that moved on to it. *)
Lemma allocate_wf now generation v6 domain s :
  domain ≠ ""%string → store_wf s → store_wf (allocate now generation v6 domain s).1.
Proof.
  intros Hd Hs. unfold allocate. destruct (s_pool v6 s) as [p|] eqn:Hp; [|done].
  destruct (Hs _ _ Hp) as (Hwf & Ha & H4).
  destruct (pl_byName p !! domain); [by apply touch_wf|].
  repeat (case_match; [done|]).
  destruct (next_free _ _ _ p) as [p' found] eqn:E.
  destruct (next_free_spec _ _ _ _ _ _ Hwf Ha E) as (k & Hk & -> & _ & _ & Hfound).
  assert (Hm : pool_ok v6 (moved (s_storage s) k p)).
  { split_and!; [by apply moved_wf| | |by unfold moved; destruct (s_storage s)];
      unfold moved; destruct (s_storage s); cbn; apply (wrap_range 64); lia. }
  destruct found as [o| |]; [|by apply on_pool_wf|done].
  destruct Hfound as (Hk1 & -> & Hfree). cbn. apply on_pool_wf; [|exact Hs]. intros q _ _.
  destruct Hm as (Hmw & Hma & Hm4). split; [|split; by unfold add_record; case_match].
  apply add_record_wf; [done| | |done].
  - pose proof (ahead_in_ring _ (wf_range _ Hwf) (pl_next p) (k - 1) (wf_next _ Hwf) ltac:(lia)).
    unfold in_ring in *. by unfold moved; destruct (s_storage s).
  - by unfold moved; destruct (s_storage s).
Qed.

Lemma Lookup_wf now a s : store_wf s → store_wf (Lookup now a s).1.
Proof. intros Hs. unfold Lookup. repeat case_match; try done. by apply touch_wf. Qed.

Lemma sweep_apply_wf found s : store_wf s → store_wf (sweep_apply found s).
Proof.
  unfold sweep_apply. revert s. induction found as [|c found IH]; intros s Hs; [done|]. cbn.
  apply IH. apply on_pool_evolves; [|done]. intros p. destruct (s_storage s); [evolve_field|].
  apply evolves_release_unused.
Qed.

Lemma save_prepare_wf ord now generation request s :
  store_wf s → store_wf (save_prepare ord now generation request s).1.
Proof.
  intros Hs. unfold save_prepare. repeat (case_match; [done|]).
  set (s1 := if _ =? _ then s else _).
  assert (Hs1 : store_wf s1).
  { unfold s1. case_match; [done|]. by repeat (apply on_pool_evolves; [apply evolves_resave|]). }
  clearbody s1. case_match; [done|]. set (s2 := sset_pool6 _ _).
  assert (Hs2 : store_wf s2).
  { intros v6 p Hp. assert (∃ room q, s_pool v6 s1 = Some q ∧ p = (collect ord now (rq_clean request) room q).1)
      as (room & q & Hq & ->).
    { destruct v6; cbn in Hp; apply fmap_Some in Hp as (x & (q & Hq & ->)%fmap_Some & ->); eauto. }
    eapply evolves_ok; [apply evolves_collect|by apply Hs1]. }
  by case_match.
Qed.

Lemma save_finish_wf w err s : store_wf s → store_wf (save_finish w err s).
Proof.
  intros Hs. unfold save_finish. destruct err, (w_batch6 w), (w_batch4 w);
    repeat (apply on_pool_evolves; [intros; (apply evolves_rollback || apply evolves_commit)|]); done.
Qed.

Lemma reset_memory_wf s : store_wf s → store_wf (reset_memory s).
Proof. intros Hs. unfold reset_memory. by repeat (apply on_pool_evolves; [apply evolves_clear|]). Qed.

Lemma makeRoom_wf m v6 s d : store_wf s → store_wf (makeRoom m v6 s d).1.
Proof.
  intros Hs. unfold makeRoom, save. destruct (s_storage s).
  - pose proof (save_prepare_wf (m_order m) (m_now m) (d_generation d) (MkSaveRequest false false (Some v6)) s Hs).
    destruct (save_prepare _ _ _ _ s) as [s' [err|w]]; cbn in *; [done|by apply save_finish_wf].
  - cbn. apply on_pool_wf; [|done]. intros p Hp Hok. case_match; [|done].
    eapply evolves_ok; [|done]. destruct Hok as (Hwf & _).
    destruct (oldest_candidates (m_order m) (room p) 0 (m_now m) p Hwf) as [Hnd Hin].
    apply evolves_release_all; [done|]. intros c Hc. by apply Hin.
Qed.

(** ** Loading the table of a cache file *)

Section load.
Context `{Extern}.
(** Lower case leaves no name empty. *)
Hypothesis Hlower : ∀ name, name ≠ ""%string → strings_ToLower name ≠ ""%string.

(** The filed records have domains. *)
Definition named (p : pool) : Prop := ∀ o i, pl_byOffset p !! o = Some i → r_domain (deref p i) ≠ ""%string.

(** A pool into which the table is read: no record has its name yet. *)
Definition loading (isIPv6 : bool) (p : pool) : Prop := pool_ok isIPv6 p ∧ pl_byName p = ∅ ∧ named p.
Definition store_loading (s : Store) : Prop := ∀ isIPv6 p, s_pool isIPv6 s = Some p → loading isIPv6 p.

Definition file_record (r : record) (p : pool) : pool :=
  pset_byOffset (<[r_offset r := pl_fresh p]> (pl_byOffset p)) (new_record r p).

Lemma file_record_loading v6 r p : loading v6 p → in_ring p (r_offset r) → r_domain r ≠ ""%string → loading v6 (file_record r p).
Proof.
  intros ((Hp & Ha & H4) & Hn & Hd) Hin Hr. pose proof Hp as [Hrw Hnx Hb Hfr Ho Hnm].
  assert (Hne : ∀ i, is_Some (pl_records p !! i) → i ≠ pl_fresh p) by (intros i Hi ->; specialize (Hfr _ Hi); lia).
  split; [split; [|done]|split; [done|]].
  - split; try done; [by apply (same_range_wf p)|..]; cbn.
    + intros i Hi. destruct (decide (i = pl_fresh p)) as [->|Hi']; [lia|]. rewrite lookup_insert_ne in Hi by done. specialize (Hfr i Hi). lia.
    + intros o i. destruct (decide (r_offset r = o)) as [<-|Hd'].
      * rewrite lookup_insert_eq. intros [= <-]. split; [done|]. exists r. by rewrite lookup_insert_eq.
      * rewrite lookup_insert_ne by done. intros Hi. destruct (Ho _ _ Hi) as (? & r' & Hr' & ?).
        split; [done|]. exists r'. by rewrite lookup_insert_ne by (apply not_eq_sym, Hne; eauto).
    + intros d i. rewrite Hn. by rewrite lookup_empty.
  - intros o i. unfold deref. cbn. destruct (decide (r_offset r = o)) as [<-|Hd'].
    + rewrite lookup_insert_eq. intros [= <-]. by rewrite lookup_insert_eq.
    + rewrite lookup_insert_ne by done. intros Hi. destruct (Ho _ _ Hi) as (_ & r' & Hr' & _).
      rewrite lookup_insert_ne by (apply not_eq_sym, Hne; eauto). exact (Hd o i Hi).
Qed.

(** Which records are accepted depends on the ranges only. *)
Definition same_ranges (s s' : Store) : Prop := ∀ isIPv6, option_Forall2 same_range (s_pool isIPv6 s) (s_pool isIPv6 s').

Lemma same_ranges_poolOf s s' a : same_ranges s s' → poolOf a s = poolOf a s'.
Proof.
  intros Hs. unfold poolOf. pose proof (Hs false) as H4. pose proof (Hs true) as H6. cbn in H4, H6.
  destruct H4 as [p q (-> & _)|], H6 as [p' q' (-> & _)|]; done.
Qed.

Lemma same_ranges_accepts s s' a domain : same_ranges s s' → load_accepts s a domain = load_accepts s' a domain.
Proof.
  intros Hs. unfold load_accepts. rewrite (same_ranges_poolOf s s') by done. destruct (poolOf a s') as [v6|]; [|done].
  destruct (Hs v6) as [p q Hpq|]; [|done]. destruct (same_range_fun p q Hpq) as (_ & -> & _). by destruct Hpq as (_ & _ & -> & _).
Qed.

Lemma same_ranges_on v6 f s : (∀ p, same_range p (f p)) → same_ranges s (on_pool v6 f s).
Proof.
  intros Hf v. rewrite s_pool_on. destruct (Bool.eqb v v6); destruct (s_pool v s); cbn; constructor; [done|apply same_range_refl].
Qed.

Lemma same_ranges_trans s1 s2 s3 : same_ranges s1 s2 → same_ranges s2 s3 → same_ranges s1 s3.
Proof.
  intros H1 H2 v. specialize (H1 v). specialize (H2 v). destruct H1 as [p q Hpq|]; inversion H2; constructor.
  by eapply same_range_trans.
Qed.

Lemma load_record_loading s e : store_loading s → load_accepts s e.1 e.2 = true → store_loading (load_record s e) ∧ same_ranges s (load_record s e).
Proof using Hlower.
  intros Hs. unfold load_accepts, load_record. destruct (poolOf e.1 s) as [v6|]; [|done].
  intros [Hne Hin]%andb_true_iff. destruct (s_pool v6 s) as [p|] eqn:Hp; [|done]. destruct (offset p e.1) as [o|] eqn:Ho; [|done].
  split; [|by apply same_ranges_on]. intros v q. rewrite s_pool_on. destruct (Bool.eqb_spec v v6) as [->|]; [|apply Hs].
  rewrite Hp. cbn. intros [= <-]. rewrite Ho. cbn.
  apply (file_record_loading v6 (MkRecord (strings_ToLower e.2) o 0 false false)); [by apply Hs| |cbn; apply Hlower; by destruct e.2].
  destruct (Hs _ _ Hp) as ((Hwf & _) & _). pose proof (offset_range _ (wf_range _ Hwf) _ _ Ho). unfold in_ring. cbn. lia.
Qed.

Lemma load_records_loading l s : store_loading s → Forall (λ e, load_accepts s e.1 e.2 = true) l → store_loading (fold_left load_record l s).
Proof using Hlower.
  revert s. induction l as [|e l IH]; intros s Hs Hl; [done|]. apply Forall_cons in Hl as [He Hl]. cbn.
  destruct (load_record_loading s e Hs He) as [Hs' Hr]. apply IH; [done|]. eapply Forall_impl; [exact Hl|].
  intros x Hx. cbn in *. by rewrite <- (same_ranges_accepts s).
Qed.

(** [restore]: the records get their names. *)
Lemma restore_record_evolves tick p i : pool_wf p → named p → pl_byOffset p !! r_offset (deref p i) = Some i →
  pool_wf (restore_record tick p i) ∧ same_range p (restore_record tick p i) ∧ pl_advanced (restore_record tick p i) = pl_advanced p ∧
  pl_byOffset (restore_record tick p i) = pl_byOffset p ∧
  (∀ j, r_domain (deref (restore_record tick p i) j) = r_domain (deref p j) ∧ r_offset (deref (restore_record tick p i) j) = r_offset (deref p j)).
Proof.
  intros Hp Hd Hi. unfold restore_record. set (p' := assign _ i p).
  assert (Hk : keeps (rset_lastUse (Z.lor (Z.shiftl tick 32) (u32 (usable p - 1 - age p (deref p i)))))) by done.
  assert (Hp' : pool_wf p') by (by apply assign_wf).
  assert (Hj : ∀ j, r_domain (deref p' j) = r_domain (deref p j) ∧ r_offset (deref p' j) = r_offset (deref p j)) by (intros j; by apply deref_assign_keeps).
  destruct (match pl_byName p' !! _ with Some _ => _ | None => _ end); [|by split_and!].
  split_and!; try done. pose proof Hp' as [Hr Hn Hb Hf Ho Hnm]. split; try done; [by apply (same_range_wf p')|]. cbn. intros d j.
  destruct (decide (r_domain (deref p i) = d)) as [<-|Hne]; [|rewrite lookup_insert_ne by done; apply Hnm].
  rewrite lookup_insert_eq. intros [= <-]. split; [exact (Hd _ _ Hi)|]. destruct (Ho _ _ Hi) as (_ & r & Hr' & Hro).
  exists r. split; [done|]. pose proof (deref_Some p' i r Hr') as E. destruct (Hj i) as [E1 E2]. rewrite E in E1, E2. split; [done|].
  rewrite Hro. exact Hi.
Qed.

Lemma restore_records_evolves tick l p : pool_wf p → named p → (∀ i, i ∈ l → pl_byOffset p !! r_offset (deref p i) = Some i) →
  let q := fold_left (restore_record tick) l p in
  pool_wf q ∧ same_range p q ∧ pl_advanced q = pl_advanced p.
Proof.
  revert p. induction l as [|i l IH]; intros p Hp Hd Hl; [split_and!; [done|apply same_range_refl|done]|]. cbn.
  destruct (restore_record_evolves tick p i Hp Hd (Hl i (list_elem_of_here _ _))) as (Hq & Hr & Ha & Ho & Hj).
  destruct (IH (restore_record tick p i) Hq) as (H1 & H2 & H3).
  - intros o j. rewrite Ho. destruct (Hj j) as [-> _]. apply Hd.
  - intros j Hin. rewrite Ho. destruct (Hj j) as [_ ->]. apply Hl. by right.
  - split_and!; [done|by eapply same_range_trans|congruence].
Qed.

Lemma restore_evolves ord current tick p : pool_wf p → named p →
  pool_wf (restore ord current tick p).1 ∧ same_range p (restore ord current tick p).1 ∧ pl_advanced (restore ord current tick p).1 = pl_advanced p ∧
  (∀ last, (restore ord current tick p).2 = Some last → 0 <= last < pl_end p).
Proof.
  intros Hp Hd. unfold restore. set (next := match current ≫= offset p with Some _ => _ | None => _ end).
  assert (Hlast : ∀ last, current ≫= offset p = Some last → 0 <= last < pl_end p).
  { intros last. destruct current as [a|]; cbn; [|done]. apply (offset_range _ (wf_range _ Hp)). }
  assert (Hnext : in_ring p next).
  { unfold next. destruct (current ≫= offset p) as [last|] eqn:E; [by apply (after_in_ring _ (wf_range _ Hp)), Hlast|].
    pose proof (rw_end _ (wf_range _ Hp)). pose proof (rw_first _ (wf_range _ Hp)).
    destruct (has_items _); [|unfold in_ring; lia]. apply (after_in_ring _ (wf_range _ Hp)).
    assert (∀ l, (∀ o, o ∈ l → 0 <= o < pl_end p) → 0 <= foldr Z.max 0 l < pl_end p) as Hmax.
    { induction l as [|o l IH]; intros Hl; cbn; [lia|]. pose proof (Hl o (list_elem_of_here _ _)). specialize (IH (λ x Hx, Hl x (list_elem_of_further _ _ _ Hx))). lia. }
    apply Hmax. intros o (e & -> & He)%list_elem_of_fmap. destruct e as [o i]. apply elem_of_map_to_list in He. destruct (wf_offset _ Hp _ _ He) as [[? ?] _]. cbn. lia. }
  assert (Hp' : pool_wf (pset_next next p)) by (apply (wf_change p); try done; apply Hp).
  destruct (restore_records_evolves tick (iterate ord (pl_byOffset (pset_next next p))) (pset_next next p) Hp') as (H1 & H2 & H3).
  - exact Hd.
  - intros i Hi. by apply (iterate_byOffset ord).
  - split_and!; [done|by eapply (same_range_trans _ (pset_next next p))|done|done].
Qed.

Lemma hold_evolves last lastUse p : 0 <= last < pl_end p → evolves p (hold last lastUse p).
Proof.
  intros Hlast Hp. unfold hold. destruct (Z.ltb_spec last (pl_first p)) as [|Hfirst]; [by apply evolves_refl|].
  assert (Hin : Forall (in_ring p) (map (λ back, ahead p last (usable p - Z.of_nat back)) (seq 0 (Z.to_nat (pl_step p))))).
  { apply Forall_map, Forall_forall. intros back Hb%elem_of_seq. apply (ahead_in_ring _ (wf_range _ Hp)); [unfold in_ring; lia|].
    destruct (rw_step _ (wf_range _ Hp)) as [[? ?] _]. lia. }
  revert Hin. generalize (map (λ back, ahead p last (usable p - Z.of_nat back)) (seq 0 (Z.to_nat (pl_step p)))). intros l Hl. clear Hlast.
  assert (Hf : ∀ q, pool_wf q → same_range p q → pl_advanced q = pl_advanced p →
    pool_wf (fold_left (hold_offset lastUse) l q) ∧ same_range p (fold_left (hold_offset lastUse) l q) ∧
    pl_advanced (fold_left (hold_offset lastUse) l q) = pl_advanced p).
  { induction Hl as [|o l Ho Hl IH]; intros q H1 H2 H3; [done|]. cbn.
    assert (in_ring q o) by (unfold in_ring in *; destruct H2 as (_ & _ & <- & <- & _); done).
    apply IH; [by apply hold_offset_wf|unfold hold_offset; by destruct (pl_byOffset q !! o)|unfold hold_offset; by destruct (pl_byOffset q !! o)]. }
  apply Hf; [done|apply same_range_refl|done].
Qed.

Lemma restore_pool_wf ord metadata clean v6 s : store_wf s → (∀ p, s_pool v6 s = Some p → named p) → store_wf (restore_pool ord metadata clean v6 s).
Proof.
  intros Hs Hd. unfold restore_pool. apply on_pool_wf; [|done]. intros p Hp (Hwf & Ha & H4). set (current := match metadata with Some _ => _ | None => _ end).
  destruct (restore_evolves ord current (s_startTick s - 1) p Hwf (Hd _ Hp)) as (H1 & H2 & H3 & Hlast).
  destruct (restore ord current (s_startTick s - 1) p) as [q last]. cbn in *.
  assert (Hq : pool_ok v6 q) by (destruct H2 as (_ & Hb & _); split_and!; [done|lia|lia|congruence]).
  destruct last as [last|]; [|done]. destruct (_ && _); [|done]. eapply evolves_ok; [|done]. apply hold_evolves.
  destruct H2 as (_ & _ & _ & <- & _). by apply Hlast.
Qed.

Lemma load_wf m s d : store_loading s → store_wf (load m s d).1.
Proof using Hlower.
  intros Hs. unfold load. assert (Ht : store_wf (load_table (m_order m) s d).1).
  { unfold load_table. set (s1 := sset_generation _ _). unfold FakeIPLoadTable. cbn [fst].
    assert (Hs1 : store_loading s1) by (intros v p Hp; apply Hs; by destruct v).
    assert (Hacc : Forall (λ e, load_accepts s1 e.1 e.2 = true) (map_to_list (filter (λ e, load_accepts s1 e.1 e.2 = true) (d_address d)))).
    { apply Forall_forall. intros [a name] Hin%elem_of_map_to_list. by apply map_lookup_filter_Some in Hin as [_ ?]. }
    pose proof (load_records_loading _ s1 Hs1 Hacc) as Hl. set (s2 := fold_left load_record _ s1) in *.
    assert (Hwf : store_wf s2) by (intros v p Hp; by apply Hl).
    apply restore_pool_wf; [apply restore_pool_wf; [done|]|]; intros p Hp; [by eapply (Hl false)|].
    unfold restore_pool in Hp. rewrite s_pool_on in Hp. cbn in Hp. by eapply (Hl true). }
  destruct (load_table (m_order m) s d) as [s' d']. cbn in Ht. unfold save.
  pose proof (save_prepare_wf (m_order m) (m_now m) (d_generation d') (MkSaveRequest false false None) s' Ht) as Hw.
  destruct (save_prepare _ _ _ _ s') as [s'' [err|w]]; cbn in *; [done|by apply save_finish_wf].
Qed.
End load.
