(* ===== verification/FakeIPTheorems.v ===== *)
(** * The FakeIP store: what queries and connections get

    The invariant over every sequence of critical sections, the address of a domain
    and the domain of an address, the choice of the records that make room, and how
    long addresses are held back. *)
From stdpp Require Import sorting base gmap strings countable list.
From S2P Require Import Prelude Netip Metadata Concrete FakeIP FakeIPPool FakeIPStore.

(** ** Steps *)

(** One critical section of the code, with everything it can meet. *)
Inductive store_step : Store → Store → Prop :=
| step_allocate now generation isIPv6 domain s : domain ≠ ""%string →
    store_step s (allocate now generation isIPv6 domain s).1
| step_lookup now a s : store_step s (Lookup now a s).1
| step_sweep found s : store_step s (sweep_apply found s)
| step_prepare ord now generation request s :
    store_step s (save_prepare ord now generation request s).1
| step_finish w err s : store_step s (save_finish w err s)
| step_room m isIPv6 s d : store_step s (makeRoom m isIPv6 s d).1
| step_reset s : store_step s (reset_memory s)
| step_close s : store_step s (sset_closed true s).

Lemma store_step_wf s s' : store_step s s' → store_wf s → store_wf s'.
Proof.
  intros Hstep Hs. destruct Hstep.
  - by apply allocate_wf.
  - by apply Lookup_wf.
  - by apply sweep_apply_wf.
  - by apply save_prepare_wf.
  - by apply save_finish_wf.
  - by apply makeRoom_wf.
  - by apply reset_memory_wf.
  - exact Hs.
Qed.

Lemma store_steps_wf s s' : rtc store_step s s' → store_wf s → store_wf s'.
Proof. induction 1 as [|x y z Hxy Hyz IH]; [done|]. intros Hx. apply IH. by eapply store_step_wf. Qed.

(** A configuration: each range is of its family and has an address to give out. *)
Definition ranges_ok (inet4Range inet6Range : Prefix) : Prop :=
  (Prefix_IsValid inet4Range = true → range_valid inet4Range ∧ Addr_Is4 (p_ip inet4Range) = true ∧
     usable (newPool inet4Range) ≠ 0) ∧
  (Prefix_IsValid inet6Range = true → range_valid inet6Range ∧ Addr_Is4 (p_ip inet6Range) = false ∧
     usable (newPool inet6Range) ≠ 0).

Lemma newPool_ok v6 prefix :
  range_valid prefix → Addr_Is4 (p_ip prefix) = negb v6 → usable (newPool prefix) ≠ 0 →
  pool_ok v6 (newPool prefix).
Proof.
  intros Hv H4 Hu. pose proof (newPool_range prefix Hv Hu) as Hr. split_and!; try done.
  - split; try done.
    + unfold in_ring. pose proof (rw_end _ Hr). cbn [pl_next pl_first newPool]. unfold firstOffset. lia.
    + destruct (rw_step _ Hr). cbn [pl_budget newPool]. lia.
    + intros i [r Hi]. done.
  - destruct (Prefix_Masked_spec prefix Hv) as [_ Hip]. rewrite <- H4. cbn [pl_base newPool].
    destruct (p_ip prefix); [done|by rewrite Hip|by rewrite Hip].
Qed.

Lemma NewStore_wf inet4Range inet6Range : ranges_ok inet4Range inet6Range → store_wf (NewStore inet4Range inet6Range).
Proof.
  intros [H4 H6] v6 p. destruct v6; cbn.
  - destruct (Prefix_IsValid inet6Range); [|done]. intros [= <-]. destruct (H6 eq_refl) as (? & ? & ?). by apply newPool_ok.
  - destruct (Prefix_IsValid inet4Range); [|done]. intros [= <-]. destruct (H4 eq_refl) as (? & ? & ?). by apply newPool_ok.
Qed.

(** ** The address of a domain *)

(** The domain has a record, at this address. *)
Definition resolves (isIPv6 : bool) (domain : string) (a : Addr) (s : Store) : Prop :=
  ∃ p i, s_pool isIPv6 s = Some p ∧ pl_byName p !! domain = Some i ∧ a = address p (r_offset (deref p i)).

Lemma touch_resolves now v6 domain a i s p :
  s_pool v6 s = Some p → pl_byName p !! domain = Some i → a = address p (r_offset (deref p i)) →
  resolves v6 domain a (touch now v6 i s).
Proof.
  intros Hp Hi ->. unfold touch, stamp. eexists _, i.
  rewrite s_pool_on, Bool.eqb_reflx.
  replace (s_pool v6 (sset_uses _ s)) with (s_pool v6 s) by (by destruct v6). rewrite Hp. cbn.
  split_and!; [done|done|].
  destruct (deref_assign_keeps (rset_lastUse (Z.lor (Z.shiftl now 32) (u32 (s_uses s + 1)))) i p i) as [_ ->]; done.
Qed.

Lemma allocate_resolves now generation v6 domain s a :
  store_wf s → domain ≠ ""%string →
  (allocate now generation v6 domain s).2 = MkAllocation a needNothing None →
  resolves v6 domain a (allocate now generation v6 domain s).1.
Proof.
  intros Hs Hd. unfold allocate. destruct (s_pool v6 s) as [p|] eqn:Hp; [|done].
  destruct (Hs _ _ Hp) as (Hwf & Ha & H4).
  destruct (pl_byName p !! domain) as [i|] eqn:Hi; [intros [= <-]; by eapply touch_resolves|].
  repeat (case_match; [done|]). destruct (next_free _ _ _ p) as [p' found] eqn:E.
  destruct (next_free_spec _ _ _ _ _ _ Hwf Ha E) as (k & Hk & -> & _).
  destruct found as [o| |]; [|done|done]. cbn. intros [= <-]. eexists _, (pl_fresh p).
  rewrite s_pool_on, Bool.eqb_reflx.
  replace (s_pool v6 (sset_uses _ s)) with (s_pool v6 s) by (by destruct v6). rewrite Hp.
  split; [done|]. unfold add_record, moved. destruct (s_storage s); cbn; rewrite lookup_insert_eq; (split; [done|]);
    unfold deref; cbn; by rewrite lookup_insert_eq.
Qed.

(** An address of a pool is looked up in that pool. *)
Lemma poolOf_address v6 s p o :
  store_wf s → s_pool v6 s = Some p → 0 <= o < pl_end p → poolOf (address p o) s = Some v6.
Proof.
  intros Hs Hp Ho. destruct (Hs _ _ Hp) as (Hwf & _ & H4).
  pose proof (address_contained _ (wf_range _ Hwf) _ Ho) as Hin.
  destruct (address_value _ (wf_range _ Hwf) _ Ho) as (_ & Hlen & _).
  unfold poolOf. destruct v6; cbn in Hp; rewrite Hp, Hin; [|done].
  assert (match s_pool4 s with Some p0 => Prefix_Contains (pl_prefix p0) (address p o) | None => false end = false) as ->; [|done].
  destruct (s_pool4 s) as [q|] eqn:Hq; [|done]. destruct (Hs false q Hq) as (Hqwf & _ & Hq4).
  unfold Prefix_Contains. rewrite (rw_prefix _ (wf_range _ Hqwf)), Hlen. case_match; [done|].
  destruct (pl_base p), (pl_base q); try done.
Qed.

Lemma Lookup_resolves now v6 domain a s :
  store_wf s → resolves v6 domain a s → (Lookup now a s).2 = Some domain.
Proof.
  intros Hs (p & i & Hp & Hi & ->). destruct (Hs _ _ Hp) as (Hwf & _ & _).
  destruct (wf_name _ Hwf _ _ Hi) as (Hd & _).
  destruct (wf_deref_name _ _ _ Hwf Hi) as [Hdom Hoff]. destruct (wf_offset _ Hwf _ _ Hoff) as ([? ?] & _).
  assert (Ho : 0 <= r_offset (deref p i) < pl_end p) by (pose proof (rw_first _ (wf_range _ Hwf)); lia).
  unfold Lookup. rewrite (poolOf_address v6 s p) by done. rewrite Hp.
  rewrite (offset_address _ (wf_range _ Hwf)) by done. cbn. rewrite Hoff. unfold held. rewrite Hdom.
  by destruct domain.
Qed.

Lemma Create_loop_resolves fuel moments v6 domain s d s' d' a :
  store_wf s → domain ≠ ""%string →
  Create_loop fuel moments v6 domain s d = Some (s', d', (a, None)) →
  store_wf s' ∧ resolves v6 domain a s'.
Proof.
  intros Hs Hd. revert s d Hs. induction fuel as [|fuel IH]; intros s d Hs; cbn [Create_loop]; [done|].
  pose proof (allocate_wf (m_now (moments fuel)) (d_generation d) v6 domain s Hd Hs) as Hw.
  pose proof (allocate_resolves (m_now (moments fuel)) (d_generation d) v6 domain s a Hs Hd) as Hr.
  destruct (allocate _ _ v6 domain s) as [s1 [a1 need err]]. cbn [fst snd al_need al_address al_err] in *.
  destruct need.
  - intros [= <- <- -> ->]. auto.
  - pose proof (save_prepare_wf (m_order (moments fuel)) (m_now (moments fuel)) (d_generation d)
      (MkSaveRequest false true None) s1 Hw) as Hp. unfold save.
    destruct (save_prepare _ _ _ _ s1) as [s2 [e|w]]; apply IH; [done|by apply save_finish_wf].
  - pose proof (makeRoom_wf (moments fuel) v6 s1 d Hw) as Hm.
    destruct (makeRoom (moments fuel) v6 s1 d) as [s2 d2]. by apply IH.
Qed.

Section Create.
Context `{Extern}.

Lemma Create_resolves fuel moments v6 domain s d s' d' a :
  store_wf s → strings_ToLower domain ≠ ""%string →
  Create fuel moments v6 domain s d = Some (s', d', (a, None)) →
  store_wf s' ∧ resolves v6 (strings_ToLower domain) a s'.
Proof.
  intros Hs Hd. unfold Create. destruct (s_pool v6 s) as [p|] eqn:Hp; [|done].
  destruct (pl_byName p !! strings_ToLower domain) as [i|] eqn:Hi; [|by apply Create_loop_resolves].
  intros [= <- <- <-]. split; [by apply touch_wf|]. by eapply touch_resolves.
Qed.

(** C2 The address [Create] gives to a domain leads back to it: a connection to the
    address is looked up as the domain in lower case, until the record is removed every
    query for any spelling of the domain gets the same address, and the address is one
    of the range of its family. *)
Theorem Create_Lookup fuel moments isIPv6 domain s d s' d' a :
  store_wf s → strings_ToLower domain ≠ ""%string →
  Create fuel moments isIPv6 domain s d = Some (s', d', (a, None)) →
  (∀ now, (Lookup now a s').2 = Some (strings_ToLower domain)) ∧
  (∀ domain' fuel' moments' d'', strings_ToLower domain' = strings_ToLower domain →
     ∃ s'', Create fuel' moments' isIPv6 domain' s' d'' = Some (s'', d'', (a, None))) ∧
  poolOf a s' = Some isIPv6.
Proof.
  intros Hs Hd Hc. destruct (Create_resolves _ _ _ _ _ _ _ _ _ Hs Hd Hc) as [Hs' Hr].
  split_and!.
  - intros now. by eapply Lookup_resolves.
  - intros domain' fuel' moments' d'' He. destruct Hr as (p & i & Hp & Hi & ->).
    unfold Create. rewrite Hp, He, Hi. eauto.
  - destruct Hr as (p & i & Hp & Hi & ->). destruct (Hs' _ _ Hp) as (Hwf & _ & _).
    destruct (wf_deref_name _ _ _ Hwf Hi) as [_ Hoff]. destruct (wf_offset _ Hwf _ _ Hoff) as ([? ?] & _).
    apply poolOf_address; try done. pose proof (rw_first _ (wf_range _ Hwf)). lia.
Qed.

(** A store that has started: without a cache file, or with the table of one. *)
Inductive started (inet4Range inet6Range : Prefix) : Store → Prop :=
| started_memory : started inet4Range inet6Range (NewStore inet4Range inet6Range)
| started_loaded m d s d' : Start m (NewStore inet4Range inet6Range) d = Ok (s, d') → started inet4Range inet6Range s.

Lemma Start_load m s d s' d' : Start m s d = Ok (s', d') → s' = (load m s d).1.
Proof. unfold Start. destruct (existsb _ _); [done|]. intros [= ->]. done. Qed.

Lemma started_wf inet4Range inet6Range s :
  ranges_ok inet4Range inet6Range → (∀ name, name ≠ ""%string → strings_ToLower name ≠ ""%string) →
  started inet4Range inet6Range s → store_wf s.
Proof.
  intros Hok Hlower [|m d s' d' HS]; [by apply NewStore_wf|]. pose proof (NewStore_wf _ _ Hok) as Hwf. rewrite (Start_load _ _ _ _ _ HS).
  apply load_wf; [done|]. intros v6 p Hp. split; [by apply Hwf|].
  assert (∃ range, p = newPool range) as [range ->].
  { destruct v6; cbn in Hp; destruct (Prefix_IsValid _); simplify_eq; eauto. }
  split; [done|]. intros o i. cbn. by rewrite lookup_empty.
Qed.

(** C5 In every state a sequence of steps leads to from a store that has started, without a
    cache file or with the table of any cache file, an address belongs to at most one domain of
    one family and is looked up as that domain: no interleaving of queries, connections,
    sweeps, saves (also failing ones), recreated files, resets and stops gives an address to
    two domains. Lower case is taken to leave no name empty. *)
Theorem addresses_distinct inet4Range inet6Range s0 s v6 v6' domain domain' a :
  ranges_ok inet4Range inet6Range → (∀ name, name ≠ ""%string → strings_ToLower name ≠ ""%string) →
  started inet4Range inet6Range s0 → rtc store_step s0 s →
  resolves v6 domain a s → resolves v6' domain' a s →
  v6 = v6' ∧ domain = domain' ∧ ∀ now, (Lookup now a s).2 = Some domain.
Proof.
  intros Hok Hlower Hstart Hsteps Hr Hr'.
  pose proof (store_steps_wf _ _ Hsteps (started_wf _ _ _ Hok Hlower Hstart)) as Hs.
  pose proof (Lookup_resolves 0 _ _ _ _ Hs Hr) as E1. pose proof (Lookup_resolves 0 _ _ _ _ Hs Hr') as E2.
  split; [|split; [congruence|intros now; exact (Lookup_resolves now _ _ _ _ Hs Hr)]]. destruct Hr as (p & i & Hp & Hi & ->), Hr' as (q & j & Hq & Hj & He).
  destruct (Hs _ _ Hp) as (Hwf & _ & Hp4), (Hs _ _ Hq) as (Hqwf & _ & Hq4).
  destruct (wf_deref_name _ _ _ Hwf Hi) as [_ Hoi], (wf_deref_name _ _ _ Hqwf Hj) as [_ Hoj].
  destruct (wf_offset _ Hwf _ _ Hoi) as ([? ?] & _), (wf_offset _ Hqwf _ _ Hoj) as ([? ?] & _).
  pose proof (rw_first _ (wf_range _ Hwf)). pose proof (rw_first _ (wf_range _ Hqwf)).
  pose proof (poolOf_address v6 s p (r_offset (deref p i)) Hs Hp ltac:(lia)) as E3.
  pose proof (poolOf_address v6' s q (r_offset (deref q j)) Hs Hq ltac:(lia)) as E4.
  rewrite He in E3. congruence.
Qed.

End Create.

(** ** The records that make room *)

(** The record of a domain that may go to make room: not used within [protect] ticks. *)
Definition removable (protect tick : Z) (p : pool) (i : nat) : Prop :=
  pl_byOffset p !! r_offset (deref p i) = Some i ∧ r_removing (deref p i) = false ∧
  held (deref p i) = false ∧ protect <= since tick (r_lastUse (deref p i)).

#[export] Instance older_trans : Transitive older.
Proof. intros a b c. unfold older. lia. Qed.
#[export] Instance older_total : Total older.
Proof. intros a b. unfold older. lia. Qed.

(** The sorted list [oldest] takes its first records from, when it protects some. *)
Lemma oldest_sorted ord cnt protect tick p :
  pool_wf p → 0 < protect →
  ∃ l, oldest ord cnt protect tick p = take (Z.to_nat cnt) l ∧ StronglySorted older l ∧
    (∀ c, c ∈ l ↔ removable protect tick p (rm_record c) ∧ rm_lastUse c = r_lastUse (deref p (rm_record c))).
Proof.
  intros Hp Hpr. unfold oldest. assert ((protect =? 0) = false) as -> by lia. rewrite andb_false_r.
  eexists. split; [done|]. split.
  - apply StronglySorted_merge_sort; apply _.
  - intros c. rewrite (merge_sort_Permutation older), list_elem_of_In, !filter_In, <- list_elem_of_In.
    rewrite list_elem_of_fmap. unfold removable. split.
    + intros [[(i & -> & Hi) Hr] [Hh Hs]%andb_true_iff]. cbn in *. apply (iterate_byOffset ord) in Hi; [|done].
      split_and!; try done; [by destruct (r_removing _)|by destruct (held _)|lia].
    + intros [(Hi & Hr & Hh & Hs) Hl]. rewrite Hr, Hh, Hl. split_and!; try done; [|apply andb_true_iff; split; [done|lia]].
      exists (rm_record c). split; [|by apply (iterate_byOffset ord)]. destruct c. cbn in *. by rewrite Hl.
Qed.

(** The records [oldest] gives up are the least recently used: every chosen record
    belongs to a domain and was not used within the protected time, and a record that
    could have been chosen and was not is one used later than all the chosen ones. *)
Theorem oldest_least_recently_used ord cnt protect tick p c :
  pool_wf p → 0 < protect → c ∈ oldest ord cnt protect tick p →
  removable protect tick p (rm_record c) ∧
  ∀ i, removable protect tick p i → i ∉ map rm_record (oldest ord cnt protect tick p) →
    r_lastUse (deref p (rm_record c)) <= r_lastUse (deref p i).
Proof.
  intros Hp Hpr. destruct (oldest_sorted ord cnt protect tick p Hp Hpr) as (l & -> & Hsorted & Hl). intros Hc.
  assert (Hcl : c ∈ l) by (eapply elem_of_sublist; [exact Hc|apply sublist_take]).
  apply Hl in Hcl as [Hrem Hlast]. split; [done|]. intros i Hi Hnot.
  assert (Hil : MkRemoval i (r_lastUse (deref p i)) ∈ l) by (apply Hl; by split).
  rewrite <- (take_drop (Z.to_nat cnt) l) in Hil, Hsorted. apply elem_of_app in Hil as [Hil|Hil].
  { exfalso. apply Hnot, list_elem_of_fmap. exists (MkRemoval i (r_lastUse (deref p i))). by split. }
  rewrite <- Hlast. exact (StronglySorted_app_1_elem_of older _ _ _ _ Hsorted Hc Hil).
Qed.

(** The stamp [load] gives to the addresses it holds back. *)
Definition held_stamp (s : Store) : Z :=
  u64 (Z.shiftl (u32 (s_startTick s - 1 - (s_idleTicks s - s_protectTicks s))) 32).

Lemma sweep_pool_spec ord tick idle protect p c :
  pool_wf p → 0 < protect <= idle → c ∈ sweep_pool ord tick idle protect p →
  protect <= since tick (rm_lastUse c) ∧
  (held (deref p (rm_record c)) = true → idle <= since tick (rm_lastUse c)).
Proof.
  intros Hp Hpr. unfold sweep_pool. case_match.
  - match goal with |- context [oldest ord ?n protect tick p] =>
      destruct (oldest_sorted ord n protect tick p Hp ltac:(lia)) as (l & -> & _ & Hl) end.
    intros Hc. assert (Hcl : c ∈ l) by (eapply elem_of_sublist; [exact Hc|apply sublist_take]).
    apply Hl in Hcl as [(_ & _ & Hh & Hs) Hlast]. rewrite Hlast, Hh. done.
  - rewrite list_elem_of_In, filter_In. intros [_ [_ Hs]%andb_true_iff]. lia.
Qed.

(** A sweep only gives up what was unused long enough: no record used within
    [protectTime], no matter how many records there are, and an address held back after a
    stop without a save not before [protectTime] has passed since the start. *)
Theorem sweep_protects inet4Range inet6Range ord tick p c :
  let s := NewStore inet4Range inet6Range in
  pool_wf p → c ∈ sweep_pool ord tick (s_idleTicks s) (s_protectTicks s) p →
  s_protectTicks s <= since tick (rm_lastUse c) ∧
  (held (deref p (rm_record c)) = true → rm_lastUse c = held_stamp s →
   s_startTick s - 1 + s_protectTicks s <= tick).
Proof.
  intros s Hp Hc. subst s. cbn [s_idleTicks s_protectTicks s_startTick NewStore] in *.
  apply sweep_pool_spec in Hc as [Hs Hh]; [|done|unfold idleTicks, protectTicks; lia].
  split; [done|]. intros Hheld Hstamp. specialize (Hh Hheld). rewrite Hstamp in Hh.
  change (held_stamp (NewStore inet4Range inet6Range)) with 154623117623296 in Hh.
  unfold since in Hh. change (useTick 154623117623296) with 36001 in Hh. unfold idleTicks, protectTicks in *.
  destruct (Z.ltb_spec 36001 tick); lia.
Qed.

(** ** Concrete stores *)

Definition c_moment : moment := MkMoment 864010 anyOrder None.
Definition c_range : Prefix := MkPrefix (Addr4 3323068416) 28.
Definition c_store : Store := NewStore c_range PrefixZero.
Definition c_file : CacheFile := MkCacheFile ∅ None None 0.

Lemma c_ranges_ok : ranges_ok c_range PrefixZero.
Proof.
  split; [|done]. intros _. split_and!; [cbn; lia|done|vm_compute; discriminate].
Qed.

(** The store after queries for these names. *)
Definition c_after (domains : list string) : Store * CacheFile :=
  fold_left (λ st domain,
    match Create 40 (λ _, c_moment) false domain st.1 st.2 with
    | Some (s, d, _) => (s, d)
    | None => st
    end) domains (c_store, c_file).

Lemma Create_Lookup_witness :
  ∃ s d a, Create 5 (λ _, c_moment) false "Example.ORG" c_store c_file = Some (s, d, (a, None)) ∧
    (Lookup 864020 a s).2 = Some "example.org"%string.
Proof.
  assert (Hok : match Create 5 (λ _, c_moment) false "Example.ORG" c_store c_file with
                | Some (_, _, (_, None)) => true | _ => false end = true) by (vm_compute; reflexivity).
  destruct (Create 5 (λ _, c_moment) false "Example.ORG" c_store c_file) as [[[s d] [a [e|]]]|] eqn:E;
    [discriminate Hok| |discriminate Hok].
  exists s, d, a. split; [reflexivity|].
  apply (Create_Lookup 5 (λ _, c_moment) false "Example.ORG" c_store c_file s d a);
    [apply NewStore_wf, c_ranges_ok|vm_compute; discriminate|exact E].
Defined.

Definition resolves_check (isIPv6 : bool) (domain : string) (a : Addr) (s : Store) : bool :=
  match s_pool isIPv6 s with
  | None => false
  | Some p => match pl_byName p !! domain with
              | None => false
              | Some i => bool_decide (a = address p (r_offset (deref p i)))
              end
  end.

Lemma resolves_of_check v6 domain a s : resolves_check v6 domain a s = true → resolves v6 domain a s.
Proof.
  unfold resolves_check, resolves. destruct (s_pool v6 s) as [p|] eqn:Hp; [|done].
  destruct (pl_byName p !! domain) as [i|] eqn:Hi; [|done]. intros Ha%bool_decide_eq_true. eauto 10.
Qed.

(** A file with two records, written by a store that was not stopped cleanly. *)
Definition c_table : CacheFile :=
  MkCacheFile {[ Addr4 3323068418 := "a"%string; Addr4 3323068420 := "Old"%string ]} None
    (Some (MkFakeIPMetadata c_range PrefixZero (Some (Addr4 3323068421)) None)) 3.

Lemma c_ToLower name : name ≠ ""%string → strings_ToLower name ≠ ""%string.
Proof.
  intros Hne. unfold strings_ToLower. destruct name as [|c name]; [by destruct Hne|].
  destruct (is_ascii (String c name)); [|exact Hne]. unfold ascii_ToLower. cbn [string_map]. discriminate.
Qed.

Lemma addresses_distinct_witness :
  ∃ s0 s d' a a', Start c_moment c_store c_table = Ok (s0, d') ∧ s_storage s0 = true ∧ rtc store_step s0 s ∧
    resolves false "a" a s ∧ resolves false "b" a' s ∧ a ≠ a' ∧ (Lookup 864030 a s).2 = Some "a"%string.
Proof.
  assert (Hok : match Start c_moment c_store c_table with Ok _ => true | _ => false end = true) by (vm_compute; reflexivity).
  destruct (Start c_moment c_store c_table) as [[s0 d']| |] eqn:E; [|discriminate Hok|discriminate Hok].
  assert (E0 : s0 = (load c_moment c_store c_table).1).
  { exact (Start_load _ _ _ _ _ E). }
  pose (s1 := (allocate 864011 3 false "b" s0).1). pose (w := save_prepare anyOrder 864012 3 (MkSaveRequest false false None) s1).
  assert (Hsteps : rtc store_step s0 w.1).
  { eapply rtc_l; [apply (step_allocate 864011 3 false "b"); discriminate|]. eapply rtc_l; [apply step_prepare|apply rtc_refl]. }
  exists s0, w.1, d', (Addr4 3323068418), (Addr4 3323068422). split; [reflexivity|].
  assert (Ha : resolves false "a" (Addr4 3323068418) w.1) by (apply resolves_of_check; unfold w, s1; rewrite E0; vm_compute; reflexivity).
  assert (Hb : resolves false "b" (Addr4 3323068422) w.1) by (apply resolves_of_check; unfold w, s1; rewrite E0; vm_compute; reflexivity).
  split; [rewrite E0; vm_compute; reflexivity|]. split; [exact Hsteps|]. split; [exact Ha|]. split; [exact Hb|]. split; [discriminate|].
  apply (addresses_distinct c_range PrefixZero s0 w.1 false false "a" "a" (Addr4 3323068418) c_ranges_ok c_ToLower (started_loaded _ _ _ _ _ _ E) Hsteps Ha Ha).
Defined.

Lemma oldest_least_recently_used_witness :
  ∃ p c, c ∈ oldest anyOrder 1 1 864100 p ∧ removable 1 864100 p (rm_record c).
Proof.
  pose (s1 := (allocate 864010 0 false "a" c_store).1). pose (s2 := (allocate 864011 0 false "b" s1).1).
  assert (Hwf : store_wf s2)
    by (apply allocate_wf; [discriminate|]; apply allocate_wf; [discriminate|]; apply NewStore_wf, c_ranges_ok).
  assert (Hok : match s_pool false s2 with
                | Some p => has_items (oldest anyOrder 1 1 864100 p) | None => false end = true)
    by (vm_compute; reflexivity).
  destruct (s_pool false s2) as [p|] eqn:Hp; [|discriminate Hok]. destruct (Hwf false p Hp) as [Hpwf _].
  destruct (oldest anyOrder 1 1 864100 p) as [|c l] eqn:E; [discriminate Hok|].
  assert (Hc : c ∈ oldest anyOrder 1 1 864100 p) by (rewrite E; left).
  exists p, c. split; [exact Hc|]. apply (oldest_least_recently_used anyOrder 1 1 864100 p c); [exact Hpwf|lia|exact Hc].
Defined.

(** A pool that holds an address back, as [load] makes it. *)
Definition c_holding : pool := hold_offset (held_stamp c_store) (newPool c_range) 5.

Lemma sweep_protects_witness :
  ∃ c, c ∈ sweep_pool anyOrder 900001 (s_idleTicks c_store) (s_protectTicks c_store) c_holding ∧
    s_startTick c_store - 1 + s_protectTicks c_store <= 900001.
Proof.
  assert (Hwf : pool_wf c_holding).
  { destruct c_ranges_ok as [H4 _]. destruct (H4 eq_refl) as (? & ? & ?).
    destruct (newPool_ok false c_range) as [Hwf _]; [done|done|done|].
    apply hold_offset_wf; [|done]. split; vm_compute; [discriminate|reflexivity]. }
  assert (Hok : match sweep_pool anyOrder 900001 (s_idleTicks c_store) (s_protectTicks c_store) c_holding with
                | c :: _ => held (deref c_holding (rm_record c)) && (rm_lastUse c =? held_stamp c_store)
                | [] => false end = true) by (vm_compute; reflexivity).
  destruct (sweep_pool _ _ _ _ c_holding) as [|c l] eqn:E; [discriminate Hok|].
  apply andb_true_iff in Hok as [Hh Hs]. apply Z.eqb_eq in Hs. exists c. split; [left|].
  apply (sweep_protects c_range PrefixZero anyOrder 900001 c_holding c); [exact Hwf| |exact Hh|exact Hs].
  fold c_store. rewrite E. left.
Defined.

(** The root name is filed under the empty domain, which marks addresses held back: its
    record leaves the index of offsets, not the index of names, and a later query for the
    root gets the address another domain has by then. *)
Example root_name_shares_address :
  let query st name :=
    match Exchange (λ s, strings_HasPrefix (String.rev s) ".") 40 (λ _, MkMoment 1800000 anyOrder None)
            (MkTransport true false) name TypeA st.1 st.2 with
    | Some (s, d, r) => (s, d, r)
    | None => (st.1, st.2, Err (ENamed ""))
    end in
  let st0 := c_after [""%string] in
  let s1 := sweep_apply (sweep_find anyOrder 1800000 st0.1) st0.1 in
  let st1 := fold_left (λ st name, (query st name).1)
    ["a."; "b."; "c."; "d."; "e."; "f."; "g."; "h."; "i."; "j."; "k."; "l."; "m."]%string (s1, st0.2) in
  (query st1 ".").2 = (query st1 "m.").2 ∧ (query st1 ".").2 = Ok (ResponseAddress (Addr4 3323068418)).
Proof. vm_compute. split; reflexivity. Qed.
