(* ===== verification/FakeIPTotal.v ===== *)
(** * Queries end: [Create] gives an address or an error

    The loop of [Create] goes round when the range is full or the saved reserve is
    used up. Making room removes a record each time, also when the file cannot be
    written; a new reserve lets the position move on over records in use, and there are
    finitely many of those. *)
From stdpp Require Import sorting base gmap strings countable list.
From S2P Require Import Prelude Netip Metadata Concrete FakeIP FakeIPPool FakeIPStore FakeIPTheorems.

(** ** What a save changes in a pool *)

(** Only flags and lists of changes differ. *)
Record same_index (p q : pool) : Prop := {
  si_byOffset : pl_byOffset q = pl_byOffset p;
  si_next : pl_next q = pl_next p;
  si_max : pl_max q = pl_max p;
  si_record : ∀ i, r_offset (deref q i) = r_offset (deref p i) ∧ r_lastUse (deref q i) = r_lastUse (deref p i);
}.

(** Records may also have gone. *)
Definition shrinks (p q : pool) : Prop :=
  pl_byOffset q ⊆ pl_byOffset p ∧ pl_next q = pl_next p ∧ pl_max q = pl_max p.

(** No save is under way: no record is being removed. *)
Definition quiet (p : pool) : Prop := ∀ i, r_removing (deref p i) = false.

Lemma same_index_refl p : same_index p p.
Proof. by split. Qed.
Lemma same_index_trans p q r : same_index p q → same_index q r → same_index p r.
Proof.
  intros [? ? ? H1] [? ? ? H2]. split; try congruence. intros i. destruct (H1 i), (H2 i). split; congruence.
Qed.
Lemma shrinks_refl p : shrinks p p.
Proof. by split_and!. Qed.
Lemma shrinks_trans p q r : shrinks p q → shrinks q r → shrinks p r.
Proof. intros (? & ? & ?) (? & ? & ?). split_and!; [by etrans|congruence|congruence]. Qed.
Lemma same_index_shrinks p q : same_index p q → shrinks p q.
Proof. intros [E ? ? _]. unfold shrinks. by rewrite E. Qed.

Lemma deref_assign_flag (f : record → record) i p j :
  (∀ r, r_offset (f r) = r_offset r ∧ r_lastUse (f r) = r_lastUse r) →
  r_offset (deref (assign f i p) j) = r_offset (deref p j) ∧
  r_lastUse (deref (assign f i p) j) = r_lastUse (deref p j).
Proof.
  intros Hf. unfold deref. rewrite assign_lookup. destruct (decide (i = j)); [|done].
  destruct (pl_records p !! j); cbn; [apply Hf|done].
Qed.

Lemma same_index_dirty v i p : same_index p (assign (rset_dirty v) i p).
Proof. split; try done. intros j. by apply deref_assign_flag. Qed.
Lemma same_index_removing v i p : same_index p (assign (rset_removing v) i p).
Proof. split; try done. intros j. by apply deref_assign_flag. Qed.

Lemma same_index_fold {A} (f : pool → A → pool) l p :
  (∀ q x, same_index q (f q x)) → same_index p (fold_left f l p).
Proof.
  intros Hf. revert p. induction l as [|x l IH]; intros p; [apply same_index_refl|].
  eapply same_index_trans; [apply Hf|apply IH].
Qed.

Lemma shrinks_fold {A} (f : pool → A → pool) l p :
  (∀ q x, shrinks q (f q x)) → shrinks p (fold_left f l p).
Proof.
  intros Hf. revert p. induction l as [|x l IH]; intros p; [apply shrinks_refl|].
  eapply shrinks_trans; [apply Hf|apply IH].
Qed.

Lemma shrinks_release i p : shrinks p (release i p).
Proof. unfold release, remove. case_match; split_and!; try done; apply delete_subseteq. Qed.

Lemma shrinks_finish_removal p c : shrinks p (finish_removal p c).
Proof.
  unfold finish_removal. set (q := assign _ _ p).
  assert (Hq : shrinks p q) by apply same_index_shrinks, same_index_removing.
  repeat case_match; eapply shrinks_trans; try exact Hq; try apply shrinks_refl; try apply shrinks_release.
Qed.

Lemma same_index_resave ord p : same_index p (resave ord p).
Proof.
  unfold resave. set (p1 := pset_forgotten _ _). set (ids := List.filter _ _). set (p2 := fold_left _ ids p1).
  assert (H1 : same_index p p1) by (by split). assert (H2 : same_index p1 p2) by (apply same_index_fold; intros; apply same_index_dirty).
  assert (H3 : same_index p2 (pset_dirty ids p2)) by (by split).
  eapply same_index_trans; [|exact H3]. by eapply same_index_trans.
Qed.

(** ** The records a save chooses to remove *)

(** The state of the loop over [p.expired], from the pool [p]. *)
Record chosen (p q : pool) (removals : list removal) : Prop := {
  ch_index : same_index p q;
  ch_valid : ∀ c, c ∈ removals → pl_byOffset p !! r_offset (deref p (rm_record c)) = Some (rm_record c) ∧
    r_lastUse (deref p (rm_record c)) = rm_lastUse c;
  ch_removing : ∀ i, r_removing (deref q i) = true → i ∈ map rm_record removals;
}.

Lemma choose_step clean p q removals c :
  chosen p q removals →
  let '(q', removals') := choose clean (q, removals) c in
  chosen p q' removals' ∧ removals `prefix_of` removals' ∧
  (clean = false → candidate p c → removals' ≠ []).
Proof.
  intros [Hi Hv Hr]. unfold choose. destruct (si_record _ _ Hi (rm_record c)) as [E1 E2].
  destruct (clean || r_removing (deref q (rm_record c)) || _ || _) eqn:E.
  - split_and!; [done|done|]. intros -> (Hc1 & Hc2 & Hc3) ->.
    rewrite E1, E2, (si_byOffset _ _ Hi), Hc1, Hc2, Z.eqb_refl in E.
    rewrite bool_decide_eq_true_2 in E by done. cbn in E. rewrite !orb_false_r in E. apply Hr in E. by apply elem_of_nil in E.
  - apply orb_false_iff in E as [[[_ Hrm]%orb_false_iff Hb]%orb_false_iff Hl].
    split_and!; [|by eexists|by destruct removals]. split.
    + eapply same_index_trans; [exact Hi|apply same_index_removing].
    + intros c' [Hc'| ->%list_elem_of_singleton]%elem_of_app; [by apply Hv|].
      rewrite <- E1, <- E2, <- (si_byOffset _ _ Hi). split; [|lia].
      apply negb_false_iff, bool_decide_eq_true in Hb. done.
    + intros i. rewrite map_app, elem_of_app. unfold deref at 1. rewrite assign_lookup.
      destruct (decide (rm_record c = i)) as [Heq|]; [intros _; right; by apply list_elem_of_singleton|]. intros Hri. left. by apply Hr.
Qed.

Lemma choose_spec clean l p q removals :
  chosen p q removals →
  let '(q', removals') := fold_left (choose clean) l (q, removals) in
  chosen p q' removals' ∧
  (clean = false → removals ≠ [] ∨ (∃ c, c ∈ l ∧ candidate p c) → removals' ≠ []).
Proof.
  revert q removals. induction l as [|c l IH]; intros q removals Hch; cbn [fold_left].
  { split; [done|]. intros _ [?|(c & Hc & _)]; [done|by apply elem_of_nil in Hc]. }
  pose proof (choose_step clean p q removals c Hch) as Hs.
  destruct (choose clean (q, removals) c) as [q1 removals1]. destruct Hs as (Hch1 & [k Hk] & Hne).
  specialize (IH q1 removals1 Hch1). destruct (fold_left _ l _) as [q2 removals2]. destruct IH as [IH1 IH2].
  split; [done|]. intros Hcl Hor. apply IH2; [done|].
  destruct Hor as [Hr|(c' & [->|Hc']%elem_of_cons & Hcand)].
  - left. intros ->. destruct removals; [done|by destruct k].
  - left. by apply Hne.
  - right. eauto.
Qed.

Lemma choose_frame clean l p acc :
  let q := (fold_left (choose clean) l (p, acc)).1 in
  pl_step q = pl_step p ∧ pl_advanced q = pl_advanced p ∧ pl_budget q = pl_budget p.
Proof.
  revert p acc. induction l as [|c l IH]; intros p acc; [done|]. cbn [fold_left choose].
  case_match; [apply IH|]. apply (IH (assign (rset_removing true) (rm_record c) p)).
Qed.

Lemma quiet_chosen p : quiet p → chosen p p [].
Proof.
  intros Hq. split; [apply same_index_refl|by intros c ?%elem_of_nil|]. intros i Hi. by rewrite Hq in Hi.
Qed.

(** What [collect] leaves, with the records it chose. *)
Lemma collect_spec ord now clean isRoom p :
  quiet p →
  let '(q, b) := collect ord now clean isRoom p in
  chosen p q (b_removals b) ∧
  (b_deletes b = [] → b_removals b = []) ∧
  (clean = false → isRoom = true → full p = true →
    (∃ c, c ∈ oldest ord (room p) 0 now p ∧ candidate p c) → b_removals b ≠ []) ∧
  (clean = false → pl_budget p = 0 → ∃ last, b_reserve b = Some (pl_advanced p, last)) ∧
  pl_step q = pl_step p ∧ pl_advanced q = pl_advanced p ∧ pl_budget q = pl_budget p.
Proof.
  intros Hq. unfold collect. set (p1 := if isRoom && full p then _ else p).
  assert (H1 : quiet p1 ∧ same_index p p1 ∧ pl_step p1 = pl_step p ∧ pl_advanced p1 = pl_advanced p ∧
    pl_budget p1 = pl_budget p) by (unfold p1; case_match; split_and!; by try split).
  destruct H1 as (Hq1 & Hi1 & Es & Ea & Eb).
  pose proof (choose_spec clean (pl_expired p1) p1 p1 [] (quiet_chosen p1 Hq1)) as Hch.
  destruct (fold_left _ _ _) as [p2 removals] eqn:E2. destruct Hch as [[Hi2 Hv2 Hr2] Hne].
  pose proof (choose_frame clean (pl_expired p1) p1 []) as Hev. rewrite E2 in Hev. cbn [fst] in Hev.
  destruct Hev as (Es2 & Ea2 & Eb2). cbn [b_removals b_deletes b_reserve]. split_and!.
  - split; [|intros c Hc|intros i Hi; by apply Hr2].
    + eapply same_index_trans; [exact Hi1|]. eapply same_index_trans; [exact Hi2|]. by split.
    + destruct (si_record _ _ Hi1 (rm_record c)) as [<- <-]. rewrite <- (si_byOffset _ _ Hi1). by apply Hv2.
  - by destruct removals.
  - intros Hcl Hroom Hfull (c & Hc & Hcand). apply Hne; [done|]. right. exists c.
    unfold p1. rewrite Hroom, Hfull. cbn [andb]. split; [|exact Hcand].
    cbn [pl_expired pset_expired]. apply elem_of_app. by right.
  - intros -> Hz. cbn [negb andb]. cbn [pl_reserved pl_budget pl_advanced pset_dirty pset_expired].
    rewrite Eb2, Eb, Hz, Z.eqb_refl, orb_true_r. cbn [orb]. rewrite Ea2, Ea. eauto.
  - cbn. congruence.
  - cbn. congruence.
  - cbn. congruence.
Qed.

(** ** After the write *)

Lemma size_shrinks p q : shrinks p q → (size (pl_byOffset q) ≤ size (pl_byOffset p))%nat.
Proof. intros (Hs & _ & _). rewrite <- !size_dom. by apply subseteq_size, subseteq_dom. Qed.

Lemma size_release i p :
  pl_byOffset p !! r_offset (deref p i) = Some i →
  (size (pl_byOffset (release i p)) < size (pl_byOffset p))%nat.
Proof.
  intros Hi. assert (Hr : pl_byOffset (release i p) = delete (r_offset (deref p i)) (pl_byOffset p))
    by (unfold release, remove; by case_match).
  rewrite Hr, map_size_delete_Some by eauto.
  assert (size (pl_byOffset p) ≠ 0%nat) by (apply map_size_non_empty_iff; intros He; by rewrite He in Hi). lia.
Qed.

(** A fold whose first round removes a record. *)
Lemma size_fold (f : pool → removal → pool) c l p :
  (∀ q x, shrinks q (f q x)) → (size (pl_byOffset (f p c)) < size (pl_byOffset p))%nat →
  (size (pl_byOffset (fold_left f (c :: l) p)) < size (pl_byOffset p))%nat.
Proof. intros Hf Hc. cbn. pose proof (size_shrinks _ _ (shrinks_fold f l (f p c) Hf)). lia. Qed.

Lemma deref_release i p j : deref (release i p) j = deref p j.
Proof. unfold release, remove. by case_match. Qed.

(** Clearing the flag of every record that has it. *)
Lemma quiet_fold (f : pool → removal → pool) l p :
  (∀ q c i, r_removing (deref (f q c) i) = true → i ≠ rm_record c ∧ r_removing (deref q i) = true) →
  (∀ i, r_removing (deref p i) = true → i ∈ map rm_record l) → quiet (fold_left f l p).
Proof.
  intros Hf. revert p. induction l as [|c l IH]; intros p Hl; cbn.
  - intros i. destruct (r_removing (deref p i)) eqn:E; [|done]. apply Hl in E. by apply elem_of_nil in E.
  - apply IH. intros i Hi. destruct (Hf _ _ _ Hi) as [Hne Hi']. apply Hl in Hi'. cbn in Hi'.
    apply elem_of_cons in Hi' as [?|?]; done.
Qed.

Lemma removing_unset p c i :
  r_removing (deref (assign (rset_removing false) (rm_record c) p) i) = true →
  i ≠ rm_record c ∧ r_removing (deref p i) = true.
Proof.
  unfold deref. rewrite assign_lookup. destruct (decide (rm_record c = i)) as [->|]; [|done].
  by destruct (pl_records p !! i).
Qed.

Lemma removing_dirty v j p i :
  r_removing (deref (assign (rset_dirty v) j p) i) = r_removing (deref p i).
Proof. unfold deref. rewrite assign_lookup. destruct (decide (j = i)); [|done]. by destruct (pl_records p !! i). Qed.

Lemma finish_removal_removing p c i :
  r_removing (deref (finish_removal p c) i) = true → i ≠ rm_record c ∧ r_removing (deref p i) = true.
Proof.
  intros Hi. apply removing_unset. revert Hi. unfold finish_removal.
  repeat case_match; try done.
  - unfold deref at 1. cbn [pl_records pset_dirty]. intros Hi. by rewrite <- (removing_dirty true (rm_record c)).
  - by rewrite deref_release.
Qed.

(** A removal that is still valid takes its record away. *)
Lemma size_finish_removal p c :
  pl_byOffset p !! r_offset (deref p (rm_record c)) = Some (rm_record c) →
  r_lastUse (deref p (rm_record c)) = rm_lastUse c →
  (size (pl_byOffset (finish_removal p c)) < size (pl_byOffset p))%nat.
Proof.
  intros Ho Hl. unfold finish_removal. set (q := assign (rset_removing false) (rm_record c) p).
  destruct (si_record _ _ (same_index_removing false (rm_record c) p) (rm_record c)) as [E1 E2].
  assert (Hq : pl_byOffset q !! r_offset (deref q (rm_record c)) = Some (rm_record c)) by (unfold q; by rewrite E1).
  assert (Hq2 : r_lastUse (deref q (rm_record c)) = rm_lastUse c) by (unfold q; by rewrite E2).
  rewrite bool_decide_eq_true_2 by done. rewrite Hq2, Z.eqb_refl. cbn [negb].
  apply (size_release _ q Hq).
Qed.

(** Marking the records of a list as written. *)
Lemma mark_written l p :
  let q := fold_left (λ p i, assign (rset_dirty false) i p) l p in
  same_index p q ∧ (∀ i, r_removing (deref q i) = r_removing (deref p i)) ∧
  pl_advanced q = pl_advanced p ∧ pl_step q = pl_step p.
Proof.
  revert p. induction l as [|i l IH]; intros p; cbn; [split_and!; (apply same_index_refl || done)|].
  destruct (IH (assign (rset_dirty false) i p)) as (Hi & Hr & Ha & Hs). split_and!; try done.
  - eapply same_index_trans; [apply same_index_dirty|exact Hi].
  - intros j. by rewrite Hr, removing_dirty.
Qed.

Lemma finish_removals_frame l q :
  pl_advanced (fold_left finish_removal l q) = pl_advanced q ∧
  pl_step (fold_left finish_removal l q) = pl_step q.
Proof.
  revert q. induction l as [|c l IH]; intros q; [done|]. cbn. destruct (IH (finish_removal q c)) as [-> ->].
  unfold finish_removal, release, remove. by repeat case_match.
Qed.

Section Finish.
Context (p0 p : pool) (b : batch).
Hypothesis Hch : chosen p0 p (b_removals b).

(** The records chosen are still there as they were chosen. *)
Lemma chosen_valid q c :
  same_index p q → c ∈ b_removals b →
  pl_byOffset q !! r_offset (deref q (rm_record c)) = Some (rm_record c) ∧
  r_lastUse (deref q (rm_record c)) = rm_lastUse c.
Proof.
  intros Hi Hc. pose proof (same_index_trans _ _ _ (ch_index _ _ _ Hch) Hi) as [Eb _ _ Er].
  destruct (Er (rm_record c)) as [-> ->]. rewrite Eb. by apply (ch_valid _ _ _ Hch).
Qed.

(** A loop over the records chosen that removes the ones still valid. *)
Lemma chosen_shrink (f : pool → removal → pool) q :
  same_index p q → (∀ q x, shrinks q (f q x)) →
  (∀ q c, pl_byOffset q !! r_offset (deref q (rm_record c)) = Some (rm_record c) →
     r_lastUse (deref q (rm_record c)) = rm_lastUse c →
     (size (pl_byOffset (f q c)) < size (pl_byOffset q))%nat) →
  b_removals b ≠ [] → (size (pl_byOffset (fold_left f (b_removals b) q)) < size (pl_byOffset p))%nat.
Proof.
  intros Hi Hf Hv Hne. rewrite <- (si_byOffset _ _ Hi).
  assert (∃ c l, b_removals b = c :: l) as (c & l & El) by (destruct (b_removals b); [done|eauto]).
  destruct (chosen_valid q c Hi) as [? ?]; [rewrite El; left|]. rewrite El. apply size_fold; [done|by apply Hv].
Qed.

Lemma commit_spec :
  0 < pl_step p →
  quiet (commit b p) ∧ shrinks p (commit b p) ∧
  (b_removals b ≠ [] → (size (pl_byOffset (commit b p)) < size (pl_byOffset p))%nat) ∧
  (∀ last, b_reserve b = Some (pl_advanced p, last) → pl_budget (commit b p) = pl_step p).
Proof.
  intros Hstep. unfold commit. destruct (mark_written (b_written b) p) as (Hi & Hr & Ha & Hs).
  set (p1 := pset_forgotten [] _). set (p2 := fold_left finish_removal _ p1).
  assert (Hi1 : same_index p p1) by (destruct Hi; by split).
  assert (Hq2 : quiet p2).
  { apply quiet_fold; [apply finish_removal_removing|]. intros i. intros Hri.
    apply (ch_removing _ _ _ Hch). by rewrite <- Hr. }
  assert (Hsh : shrinks p p2)
    by (eapply shrinks_trans; [by apply same_index_shrinks|apply shrinks_fold, shrinks_finish_removal]).
  assert (Hsz : b_removals b ≠ [] → (size (pl_byOffset p2) < size (pl_byOffset p))%nat)
    by (apply chosen_shrink; [done|apply shrinks_finish_removal|apply size_finish_removal]).
  destruct (finish_removals_frame (b_removals b) p1) as [Ea Es]. fold p2 in Ea, Es.
  destruct (b_reserve b) as [[adv last]|] eqn:E; split_and!; try done.
  intros last' [= -> ->]. cbn [pl_budget pset_budget].
  replace (pl_advanced p2) with (pl_advanced p) by (rewrite Ea; done).
  replace (pl_step p2) with (pl_step p) by (rewrite Es; done). rewrite Z.sub_diag.
  change (wrap 64 0) with 0. lia.
Qed.

Lemma rollback_spec isRoom :
  quiet (rollback isRoom b p) ∧ shrinks p (rollback isRoom b p) ∧
  (isRoom = true → full p = true → b_removals b ≠ [] →
   (size (pl_byOffset (rollback isRoom b p)) < size (pl_byOffset p))%nat).
Proof.
  unfold rollback. set (p1 := pset_dirty _ p). set (p2 := fold_left _ (b_removals b) p1).
  assert (Hq2 : quiet p2) by (apply quiet_fold; [apply removing_unset|apply (ch_removing _ _ _ Hch)]).
  assert (Hi2 : same_index p p2).
  { eapply (same_index_trans _ p1); [by split|]. apply same_index_fold. intros. apply same_index_removing. }
  assert (Hfull : full p2 = full p) by (unfold full, count; by rewrite (si_byOffset _ _ Hi2), (si_max _ _ Hi2)).
  rewrite Hfull. destruct (isRoom && full p) eqn:E.
  2: { split_and!; [done|by apply same_index_shrinks|]. intros -> Hf. by rewrite Hf in E. }
  set (f := λ (p : pool) (c : removal), _).
  assert (Hf : ∀ q c, shrinks q (f q c) ∧ (∀ i, deref (f q c) i = deref q i) ∧
    (pl_byOffset q !! r_offset (deref q (rm_record c)) = Some (rm_record c) →
     r_lastUse (deref q (rm_record c)) = rm_lastUse c →
     (size (pl_byOffset (f q c)) < size (pl_byOffset q))%nat)).
  { intros q c. unfold f. pose proof (shrinks_release (rm_record c) q) as Hsr.
    pose proof (deref_release (rm_record c) q) as Hdr. pose proof (size_release (rm_record c) q) as Hsz.
    destruct (bool_decide _ && _) eqn:Eb; [destruct (r_dirty _); split_and!; auto|].
    split_and!; [apply shrinks_refl|done|]. intros H1 H2.
    by rewrite bool_decide_eq_true_2, H2, Z.eqb_refl in Eb. }
  split_and!.
  - assert (Hd : ∀ l q, quiet q → quiet (fold_left f l q)); [|by apply Hd].
    induction l as [|c l IH]; intros q Hq; [done|]. apply IH. intros i. destruct (Hf q c) as (_ & Hd & _).
    by rewrite Hd.
  - eapply shrinks_trans; [by apply same_index_shrinks|]. apply shrinks_fold. intros q c. apply Hf.
  - intros _ _. apply chosen_shrink; [done| |]; intros q c; apply Hf.
Qed.
End Finish.

(** ** A whole save *)

Definition w_batch (isIPv6 : bool) (w : write) : option batch := if isIPv6 then w_batch6 w else w_batch4 w.

(** What a save does to the pool of a family after the write. *)
Definition finish_pool (isIPv6 : bool) (w : write) (err : option error) (p : pool) : pool :=
  match w_batch isIPv6 w with
  | None => p
  | Some b =>
      match err with
      | Some _ => rollback (bool_decide (rq_room (w_request w) = Some isIPv6)) b p
      | None => commit b p
      end
  end.

Lemma s_pool_finish v6 w err s : s_pool v6 (save_finish w err s) = finish_pool v6 w err <$> s_pool v6 s.
Proof.
  unfold save_finish, finish_pool, w_batch.
  destruct v6, err, (w_batch4 w), (w_batch6 w); cbn;
    first [done | destruct (s_pool4 s); done | destruct (s_pool6 s); done].
Qed.

(** The pool a save collects its changes from. *)
Definition synced (ord : MapOrder) (generation : Z) (s : Store) : Store :=
  if generation =? s_generation s then s
  else on_pool true (resave ord) (on_pool false (resave ord) (sset_generation generation s)).

Lemma s_pool_synced ord generation v6 s :
  s_pool v6 (synced ord generation s) =
  (if generation =? s_generation s then s_pool v6 s else resave ord <$> s_pool v6 s).
Proof. unfold synced. case_match; [done|]. by destruct v6. Qed.

Lemma synced_fields ord generation s :
  s_generation (synced ord generation s) = generation ∧ s_closed (synced ord generation s) = s_closed s ∧
  s_storage (synced ord generation s) = s_storage s ∧ s_storageFailed (synced ord generation s) = s_storageFailed s.
Proof. unfold synced. destruct (Z.eqb_spec generation (s_generation s)); done. Qed.

(** Every way [save_prepare] can go on a store that is open and has a file. *)
Lemma save_prepare_cases ord now generation request s s' out :
  s_storage s = true → s_closed s && negb (rq_clean request) = false →
  save_prepare ord now generation request s = (s', out) →
  let s1 := synced ord generation s in
  let collected v6 := collect ord now (rq_clean request) (bool_decide (rq_room request = Some v6)) in
  (s' = s1 ∧ out = Ended None ∧
     (rq_reserve request || bool_decide (rq_room request ≠ None)) && negb (request_needed request s1) = true) ∨
  ((∀ v6, s_pool v6 s' = fst ∘ collected v6 <$> s_pool v6 s1) ∧
   s_generation s' = generation ∧ s_closed s' = s_closed s ∧ s_storage s' = true ∧
   s_storageFailed s' = s_storageFailed s ∧
   ((out = Ended None ∧ ∀ v6 p, s_pool v6 s1 = Some p →
       b_puts (collected v6 p).2 = [] ∧ b_deletes (collected v6 p).2 = [] ∧ b_reserve (collected v6 p).2 = None) ∨
    ∃ w, out = Writing w ∧ w_request w = request ∧
      ∀ v6, w_batch v6 w = snd ∘ collected v6 <$> s_pool v6 s1)).
Proof.
  intros Hst Hcl. unfold save_prepare. rewrite Hst, Hcl. cbn [negb]. fold (synced ord generation s).
  destruct (synced_fields ord generation s) as (Eg & Ec & Es & Ef). set (s1 := synced ord generation s) in *.
  destruct (_ && negb (request_needed request s1)) eqn:En; [intros [= <- <-]; by left|].
  set (w := MkWrite _ _ _ _). intros Hout. right.
  assert (Hw : ∀ v6, w_batch v6 w = snd ∘ collect ord now (rq_clean request) (bool_decide (rq_room request = Some v6)) <$> s_pool v6 s1)
    by (intros []; unfold w; cbn; by rewrite option_fmap_compose).
  assert (Hs' : s' = sset_pool6 (fst <$> (collect ord now (rq_clean request) (bool_decide (rq_room request = Some true)) <$> s_pool6 s1))
                      (sset_pool4 (fst <$> (collect ord now (rq_clean request) (bool_decide (rq_room request = Some false)) <$> s_pool4 s1)) s1))
    by (case_match; by injection Hout).
  subst s'. split_and!; try done.
  - intros []; cbn; by rewrite option_fmap_compose.
  - cbn. by rewrite Es.
  - destruct (_ && _ && _) eqn:E; injection Hout as <-; [left|right; by exists w]. split; [done|].
    apply andb_true_iff in E as [[E1 E2]%andb_true_iff E3].
    assert (Hb : ∀ v6 b, w_batch v6 w = Some b → b ∈ batches w).
    { intros [] b; unfold w_batch, batches; intros ->; rewrite elem_of_app; [right|left]; by apply list_elem_of_singleton. }
    intros v6 p Hp. specialize (Hw v6). rewrite Hp in Hw. cbn in Hw. apply Hb in Hw.
    apply negb_true_iff in E1, E2, E3. apply has_items_false in E1, E2.
    apply orb_false_iff in E3 as [_ E3].
    assert (Hnil : ∀ {A} (f : batch → list A) b, b ∈ batches w → concat (map f (batches w)) = [] → f b = []).
    { clear. intros A f b. induction (batches w) as [|x l IH]; [by intros ?%elem_of_nil|].
      intros [->|Hb]%elem_of_cons; cbn; intros [? ?]%app_nil; auto. }
    split_and!; [by eapply Hnil|by eapply Hnil|].
    destruct (b_reserve _) eqn:Er; [|done]. exfalso.
    assert (existsb (λ b, bool_decide (b_reserve b ≠ None)) (batches w) = true); [|congruence].
    apply existsb_exists. eexists. split; [by apply list_elem_of_In|]. by rewrite Er.
Qed.

(** A store between two operations. *)
Definition calm (s : Store) : Prop :=
  store_wf s ∧ (∀ v6 p, s_pool v6 s = Some p → quiet p) ∧ s_closed s = false.

Lemma resave_quiet ord p : quiet p → quiet (resave ord p) ∧ pl_budget (resave ord p) = 0.
Proof.
  intros Hq. unfold resave. set (ids := List.filter _ _). set (p1 := pset_forgotten _ _).
  assert (Hl : ∀ l q, quiet q → pl_budget q = 0 →
    quiet (fold_left (λ p i, assign (rset_dirty true) i p) l q) ∧
    pl_budget (fold_left (λ p i, assign (rset_dirty true) i p) l q) = 0).
  { induction l as [|i l IH]; intros q H1 H2; [done|]. apply IH; [|done]. intros j. by rewrite removing_dirty. }
  destruct (Hl ids p1) as [H1 H2]; [done|done|]. split; [exact H1|exact H2].
Qed.

(** The pool of a family before the changes are collected. *)
Lemma synced_pool ord generation v6 s p :
  s_pool v6 s = Some p → pool_wf p → quiet p →
  ∃ p1, s_pool v6 (synced ord generation s) = Some p1 ∧ quiet p1 ∧ same_index p p1 ∧ evolves p p1 ∧
    (pl_budget p = 0 ∨ generation ≠ s_generation s → pl_budget p1 = 0).
Proof.
  intros Hp Hwf Hq. rewrite s_pool_synced, Hp. destruct (Z.eqb_spec generation (s_generation s)).
  - exists p. split_and!; [done|done|apply same_index_refl|apply evolves_refl|]. by intros [?|?].
  - destruct (resave_quiet ord p Hq) as [? ?].
    exists (resave ord p). split_and!; [done|done|apply same_index_resave|apply evolves_resave|done].
Qed.

(** When a range is full there is a record to remove. *)
Lemma oldest_nonempty ord now p :
  pool_wf p → quiet p → full p = true → ∃ c, c ∈ oldest ord (room p) 0 now p ∧ candidate p c.
Proof.
  intros Hwf Hq Hf.
  enough (oldest ord (room p) 0 now p ≠ []) as Hne.
  { destruct (oldest ord (room p) 0 now p) as [|c l] eqn:E; [done|]. exists c. split; [left|].
    apply (oldest_candidates ord (room p) 0 now p Hwf). rewrite E. left. }
  assert (Hcnt : iterate ord (pl_byOffset p) ≠ []).
  { intros E. pose proof (iterate_perm ord (pl_byOffset p)) as Hperm. rewrite E in Hperm.
    apply Permutation_nil_l, eq_sym, fmap_nil_inv, map_to_list_empty_iff in Hperm.
    unfold full, count in Hf. rewrite Hperm, map_size_empty in Hf. change (u32 (Z.of_nat 0)) with 0 in Hf.
    pose proof (rw_max _ (wf_range _ Hwf)). lia. }
  unfold oldest. set (listed := map _ _). set (removable := List.filter _ listed).
  assert (Hr : removable = listed).
  { unfold removable. clear -Hq. induction listed as [|c l IH]; [done|]. cbn. rewrite Hq. cbn. by f_equal. }
  rewrite Hr. set (cand := List.filter _ listed). set (heldBack := List.filter _ listed).
  assert (Hch : (if negb (has_items cand) && (0 =? 0) then heldBack else cand) ≠ []).
  { destruct (has_items cand) eqn:E; cbn [negb andb]; [by destruct cand|].
    apply has_items_false in E. unfold listed in *. destruct (iterate ord (pl_byOffset p)) as [|i l]; [done|].
    unfold heldBack, cand in *. cbn in *. destruct (held (deref p i)); [done|]. cbn in E.
    assert ((0 <=? since now (r_lastUse (deref p i))) = true) as Hs
      by (unfold since; destruct (Z.ltb_spec (useTick (r_lastUse (deref p i))) now); lia).
    by rewrite Hs in E. }
  match goal with |- context [merge_sort older ?x] => set (l := x) in * end.
  pose proof (merge_sort_Permutation older l) as Hperm. intros E. apply Hch.
  assert (1 <= room p) by (unfold room; lia).
  destruct (merge_sort older l) as [|c l'] eqn:Em; [by apply Permutation_nil_l in Hperm|].
  destruct (Z.to_nat (room p)) eqn:Ez; [lia|done].
Qed.

(** A pool over a save that writes. *)
Lemma saved_pool ord now isRoom p b q (err : option error) :
  pool_wf p → quiet p → collect ord now false isRoom p = (q, b) →
  let q' := match err with Some _ => rollback isRoom b q | None => commit b q end in
  quiet q' ∧ shrinks p q' ∧ same_range p q' ∧
  (isRoom = true → full p = true → (size (pl_byOffset q') < size (pl_byOffset p))%nat) ∧
  (err = None → pl_budget p = 0 → 0 < pl_budget q').
Proof.
  intros Hwf Hq Hc. pose proof (collect_spec ord now false isRoom p Hq) as Hs.
  pose proof (evolves_collect ord now false isRoom p Hwf) as (Hqwf & Hsr & _). rewrite Hc in *. cbn [fst] in *.
  destruct Hs as (Hch & _ & Hroom & Hres & Es & Ea & Eb). pose proof (ch_index _ _ _ Hch) as Hi.
  assert (Hfull : full q = full p) by (unfold full, count; by rewrite (si_byOffset _ _ Hi), (si_max _ _ Hi)).
  pose proof (same_index_shrinks _ _ Hi) as Hsh. rewrite <- (si_byOffset _ _ Hi).
  destruct (rw_step _ (wf_range _ Hqwf)) as [Hstep _]. cbn zeta.
  assert (Hrem : isRoom = true → full p = true → b_removals b ≠ [])
    by (intros; apply Hroom; try done; by apply oldest_nonempty).
  destruct err as [e|].
  - destruct (rollback_spec p q b Hch isRoom) as (? & ? & Hsz).
    destruct (evolves_rollback isRoom b q Hqwf) as (_ & Hsr' & _).
    split_and!; [done|by eapply shrinks_trans|by eapply same_range_trans| |done].
    intros Hr Hf. apply Hsz; [done|congruence|by apply Hrem].
  - destruct (commit_spec p q b Hch ltac:(lia)) as (? & ? & Hsz & Hb).
    destruct (evolves_commit b q Hqwf) as (_ & Hsr' & _).
    split_and!; [done|by eapply shrinks_trans|by eapply same_range_trans| |].
    + intros Hr Hf. apply Hsz. by apply Hrem.
    + intros _ Hz. destruct (Hres eq_refl Hz) as [last Hl]. rewrite <- Ea in Hl. rewrite (Hb last Hl). lia.
Qed.

(** A pool over a save that has nothing to write. *)
Lemma unsaved_pool ord now isRoom p b q :
  pool_wf p → quiet p → collect ord now false isRoom p = (q, b) → b_deletes b = [] → b_reserve b = None →
  quiet q ∧ shrinks p q ∧ same_range p q ∧ ¬ (isRoom = true ∧ full p = true) ∧ pl_budget p ≠ 0.
Proof.
  intros Hwf Hq Hc Hd Hr. pose proof (collect_spec ord now false isRoom p Hq) as Hs.
  pose proof (evolves_collect ord now false isRoom p Hwf) as (Hqwf & Hsr & _). rewrite Hc in *. cbn [fst] in *.
  destruct Hs as (Hch & Hdel & Hroom & Hres & _). specialize (Hdel Hd). rewrite Hdel in *. split_and!.
  - intros i. destruct (r_removing (deref q i)) eqn:E; [|done]. apply (ch_removing _ _ _ Hch) in E. by apply elem_of_nil in E.
  - apply same_index_shrinks, (ch_index _ _ _ Hch).
  - done.
  - intros [Hr' Hf]. apply (Hroom eq_refl Hr' Hf); [|done]. by apply oldest_nonempty.
  - intros Hz. destruct (Hres eq_refl Hz) as [? Hl]. congruence.
Qed.

(** A query that cannot go on is one the save sees to. *)
Lemma request_needed_pool request v6 s p :
  s_pool v6 s = Some p → (rq_room request = Some v6 ∧ full p = true) ∨ pl_budget p = 0 →
  request_needed request s = true.
Proof.
  intros Hp Hor. unfold request_needed. apply orb_true_iff. destruct Hor as [[-> Hf]|Hz]; [left; by rewrite Hp|right].
  apply existsb_exists. exists p. split; [|rewrite Hz; apply orb_true_r].
  apply list_elem_of_In. unfold pools. rewrite elem_of_app.
  destruct v6; cbn in Hp; rewrite Hp; [right|left]; by apply list_elem_of_singleton.
Qed.

(** What a save makes of the pool [p] of a family. *)
Definition pool_after (request : saveRequest) (stalled : bool) (failed : bool) (v6 : bool) (p q : pool) : Prop :=
  quiet q ∧ shrinks p q ∧ same_range p q ∧
  (rq_room request = Some v6 → full p = true → (size (pl_byOffset q) < size (pl_byOffset p))%nat) ∧
  (rq_reserve request = true → pl_budget p = 0 ∨ stalled = true → failed = true ∨ 0 < pl_budget q).

Lemma pool_after_index request stalled failed v6 p p1 q :
  same_index p p1 → same_range p p1 → (pl_budget p = 0 ∨ stalled = true → pl_budget p1 = 0) →
  quiet q → shrinks p1 q → same_range p1 q →
  (rq_room request = Some v6 → full p1 = true → (size (pl_byOffset q) < size (pl_byOffset p1))%nat) →
  (rq_reserve request = true → pl_budget p1 = 0 → failed = true ∨ 0 < pl_budget q) →
  pool_after request stalled failed v6 p q.
Proof.
  intros Hi Hsr Hb Hq Hsh Hsr' Hroom Hres. split_and!.
  - done.
  - eapply shrinks_trans; [by apply same_index_shrinks|done].
  - by eapply same_range_trans.
  - rewrite <- (si_byOffset _ _ Hi). intros Hr Hf. apply Hroom; [done|].
    rewrite <- Hf. unfold full, count. by rewrite (si_byOffset _ _ Hi), (si_max _ _ Hi).
  - intros Hr Hz. apply Hres; auto.
Qed.

(** What a save makes of the store. *)
Record saved_store (request : saveRequest) (generation : Z) (s s' : Store) : Prop := {
  ss_wf : store_wf s';
  ss_closed : s_closed s' = s_closed s;
  ss_storage : s_storage s' = true;
  ss_generation : s_generation s' = generation;
  ss_none : ∀ v6, s_pool v6 s = None → s_pool v6 s' = None;
  ss_pool : ∀ v6 p, s_pool v6 s = Some p → ∃ q, s_pool v6 s' = Some q ∧
    pool_after request (negb (generation =? s_generation s)) (s_storageFailed s') v6 p q;
}.

Lemma saved_store_calm request generation s s' : calm s → saved_store request generation s s' → calm s'.
Proof.
  intros (_ & _ & Hcl) Hs. split_and!; [apply Hs| |by rewrite (ss_closed _ _ _ _ Hs)].
  intros v6 q Hq. destruct (s_pool v6 s) as [p|] eqn:Hp.
  - destruct (ss_pool _ _ _ _ Hs v6 p Hp) as (q' & Hq' & Hquiet & _). congruence.
  - by rewrite (ss_none _ _ _ _ Hs) in Hq.
Qed.

Section Save.
Context (m : moment) (request : saveRequest) (generation : Z) (s : Store).
Hypothesis (Hcalm : calm s) (Hst : s_storage s = true) (Hclean : rq_clean request = false).

Let s1 := synced (m_order m) generation s.
Let stalled := negb (generation =? s_generation s).

Lemma s1_pool v6 p : s_pool v6 s = Some p → ∃ p1, s_pool v6 s1 = Some p1 ∧ pool_wf p1 ∧ quiet p1 ∧ same_index p p1 ∧
  same_range p p1 ∧ (pl_budget p = 0 ∨ stalled = true → pl_budget p1 = 0).
Proof.
  intros Hp. destruct Hcalm as (Hwf & Hq & _). destruct (Hwf v6 p Hp) as [Hpwf _].
  destruct (synced_pool (m_order m) generation v6 s p Hp Hpwf (Hq v6 p Hp)) as (p1 & ? & ? & ? & He & Hb).
  destruct (He Hpwf) as (? & ? & _). exists p1. split_and!; try done.
  intros [?|?]; apply Hb; [by left|right]. unfold stalled in *. lia.
Qed.

Lemma s1_none v6 : s_pool v6 s = None → s_pool v6 s1 = None.
Proof. intros Hn. unfold s1. rewrite s_pool_synced, Hn. by case_match. Qed.

Lemma save_unneeded :
  store_wf s1 → (rq_reserve request || bool_decide (rq_room request ≠ None)) && negb (request_needed request s1) = true →
  saved_store request generation s s1.
Proof.
  intros Hwf [_ Hn%negb_true_iff]%andb_true_iff. destruct (synced_fields (m_order m) generation s) as (Eg & Ec & Es & Ef).
  split; try done; [by etrans; [exact Es|]|apply s1_none|]. intros v6 p Hp.
  destruct (s1_pool v6 p Hp) as (p1 & Hp1 & _ & Hq & Hi & Hsr & Hb). exists p1. split; [done|].
  assert (Hno : ¬ ((rq_room request = Some v6 ∧ full p1 = true) ∨ pl_budget p1 = 0))
    by (intros Hor; by rewrite (request_needed_pool request v6 s1 p1 Hp1 Hor) in Hn).
  apply (pool_after_index _ _ _ _ _ p1);
    first [done|apply shrinks_refl|apply same_range_refl|tauto].
Qed.

(** The store once the changes of every pool are collected, and written or not. *)
Lemma save_collected s2 (f : bool → pool → batch → pool) :
  store_wf s2 → s_closed s2 = s_closed s → s_storage s2 = true → s_generation s2 = generation →
  (∀ v6, s_pool v6 s2 = (λ p, let '(q, b) := collect (m_order m) (m_now m) false
                                (bool_decide (rq_room request = Some v6)) p in f v6 q b) <$> s_pool v6 s1) →
  (∀ v6 p q b, s_pool v6 s1 = Some p → pool_wf p → quiet p →
     collect (m_order m) (m_now m) false (bool_decide (rq_room request = Some v6)) p = (q, b) →
     quiet (f v6 q b) ∧ shrinks p (f v6 q b) ∧ same_range p (f v6 q b) ∧
     (rq_room request = Some v6 → full p = true → (size (pl_byOffset (f v6 q b)) < size (pl_byOffset p))%nat) ∧
     (pl_budget p = 0 → s_storageFailed s2 = true ∨ 0 < pl_budget (f v6 q b))) →
  saved_store request generation s s2.
Proof.
  intros Hwf Hc Hs Hg Hpools Hf. split; try done.
  - intros v6 Hn. by rewrite Hpools, s1_none.
  - intros v6 p Hp. destruct (s1_pool v6 p Hp) as (p1 & Hp1 & Hwf1 & Hq & Hi & Hsr & Hb).
    rewrite Hpools, Hp1. cbn. destruct (collect _ _ _ _ p1) as [q b] eqn:Ec.
    destruct (Hf v6 p1 q b Hp1 Hwf1 Hq Ec) as (? & ? & ? & ? & ?). eexists. split; [done|].
    by apply (pool_after_index _ _ _ _ _ p1).
Qed.

Lemma save_spec d s' d' err :
  d_generation d = generation → save m request s d = (s', d', err) →
  saved_store request generation s s' ∧ d_generation d' = generation.
Proof.
  intros Hd Hsave. unfold save in Hsave. rewrite Hd in Hsave. pose proof Hcalm as (Hwf & _ & Hcl).
  pose proof (save_prepare_wf (m_order m) (m_now m) generation request s Hwf) as Hwf2.
  destruct (save_prepare _ _ _ _ s) as [s2 out] eqn:Hprep. cbn [fst] in Hwf2.
  apply save_prepare_cases in Hprep; [|done|by rewrite Hcl]. fold s1 in Hprep. rewrite Hclean in Hprep.
  destruct Hprep as [(-> & -> & Hn)|(Hp2 & Hg2 & Hc2 & Hs2 & Hf2 & [[-> Hnone]|(w & -> & Hw & Hb)])].
  - injection Hsave as <- <- _. split; [by apply save_unneeded|done].
  - injection Hsave as <- <- _. split; [|done]. apply (save_collected _ (λ _ q _, q)); try done.
    intros v6 p q b Hp Hpwf Hq Hc. destruct (Hnone v6 p Hp) as (_ & Hdel & Hres). rewrite Hc in Hdel, Hres.
    destruct (unsaved_pool _ _ _ _ _ _ Hpwf Hq Hc Hdel Hres) as (? & ? & ? & Hno & ?). split_and!; try done.
    intros Hr Hfu. exfalso. apply Hno. by rewrite bool_decide_eq_true_2.
  - injection Hsave as <- <- <-. split; [|by destruct (m_err m)].
    apply (save_collected _ (λ v6 q b, match m_err m with
             | Some _ => rollback (bool_decide (rq_room request = Some v6)) b q | None => commit b q end)).
    + by apply save_finish_wf.
    + rewrite <- Hc2. unfold save_finish. destruct (m_err m), (w_batch4 w), (w_batch6 w); done.
    + rewrite <- Hs2. unfold save_finish. destruct (m_err m), (w_batch4 w), (w_batch6 w); done.
    + rewrite <- Hg2. unfold save_finish. destruct (m_err m), (w_batch4 w), (w_batch6 w); done.
    + intros v6. rewrite s_pool_finish, Hp2. unfold finish_pool. rewrite (Hb v6), Hw.
      destruct (s_pool v6 s1) as [p1|]; cbn; [|done]. by destruct (collect _ _ _ _ _).
    + intros v6 p q b Hp Hpwf Hq Hc. destruct (saved_pool _ _ _ _ _ _ (m_err m) Hpwf Hq Hc) as (? & ? & ? & Hr & Hb').
      split_and!; try done.
      * intros Hr' Hfu. apply Hr; [by rewrite bool_decide_eq_true_2|done].
      * intros Hz. destruct (m_err m) eqn:Ee; [left|right; by apply Hb'].
        unfold save_finish. by destruct (w_batch4 w), (w_batch6 w).
Qed.
End Save.

(** ** The rounds of [Create] *)

(** One of the next [n] offsets is free. *)
Definition free_within (n : nat) (p : pool) : Prop :=
  ∃ j, (j ≤ n)%nat ∧ pl_byOffset p !! ahead p (pl_next p) (Z.of_nat j) = None.

Lemma shrinks_free n p q : shrinks p q → same_range p q → free_within n p → free_within n q.
Proof.
  intros (Hs & Hn & _) Hr (j & Hj & Hf). destruct (same_range_fun _ _ Hr) as (_ & _ & Ha & _).
  exists j. split; [done|]. rewrite Hn, <- Ha. by eapply lookup_weaken_None.
Qed.

Lemma shrinks_full p q : shrinks p q → count p < 2 ^ 32 → full p = false → full q = false.
Proof.
  intros Hs Hc. pose proof (size_shrinks _ _ Hs). destruct Hs as (_ & _ & Hm). unfold full, count in *. rewrite Hm.
  rewrite !wrap_small by lia. lia.
Qed.

Lemma count_small p : pool_wf p → count p < 2 ^ 32.
Proof.
  intros Hp. pose proof (rw_end _ (wf_range _ Hp)).
  assert (Hsub : dom (pl_byOffset p) ⊆ (list_to_set (seqZ 0 (pl_end p)) : gset Z)).
  { intros o [i Hi]%elem_of_dom. destruct (wf_offset _ Hp _ _ Hi) as ([? ?] & _).
    rewrite (rw_first _ (wf_range _ Hp)) in *. apply elem_of_list_to_set, elem_of_seqZ. lia. }
  apply subseteq_size in Hsub. rewrite size_dom, size_list_to_set in Hsub by apply NoDup_seqZ.
  rewrite length_seqZ in Hsub. unfold count. lia.
Qed.

(** The loop ended with an address. *)
Definition answers (r : option (Store * CacheFile * (Addr * option error))) : Prop :=
  ∃ s d a, r = Some (s, d, (a, None)).

Section Rounds.
Context (moments : nat → moment) (isIPv6 : bool) (domain : string) (Hdomain : domain ≠ ""%string).

(** The next round of a query can take an offset: it need not wait for a save. *)
Definition moving (s : Store) (d : CacheFile) (p : pool) : Prop :=
  s_storage s = true → s_generation s = d_generation d ∧ (s_storageFailed s = true ∨ 0 < pl_budget p).

Lemma needs_reserve_save fuel s d p n :
  calm s → s_pool isIPv6 s = Some p → full p = false → free_within n p → s_storage s = true →
  pl_budget p = 0 ∨ s_generation s ≠ d_generation d →
  (∀ s' d' q, calm s' → s_pool isIPv6 s' = Some q → full q = false → free_within n q → moving s' d' q →
     answers (Create_loop fuel moments isIPv6 domain s' d')) →
  answers (let '(s, d, _) := save (moments fuel) (MkSaveRequest false true None) s d in
           Create_loop fuel moments isIPv6 domain s d).
Proof.
  intros Hcalm Hp Hfull Hfree Hst Hor Hnext.
  destruct (save (moments fuel) _ s d) as [[s' d'] err] eqn:Hsave.
  destruct (save_spec _ (MkSaveRequest false true None) (d_generation d) s Hcalm Hst eq_refl d s' d' err eq_refl Hsave)
    as [Hs Hd].
  destruct (ss_pool _ _ _ _ Hs isIPv6 p Hp) as (q & Hq & _ & Hsh & Hsr & _ & Hres).
  pose proof Hcalm as (Hwf & _). destruct (Hwf isIPv6 p Hp) as [Hpwf _].
  apply (Hnext s' d' q).
  - by eapply saved_store_calm.
  - done.
  - eapply shrinks_full; [done|by apply count_small|done].
  - by eapply shrinks_free.
  - intros _. split; [rewrite (ss_generation _ _ _ _ Hs); by symmetry|].
    apply Hres; [done|]. destruct Hor; [by left|right]. apply negb_true_iff, Z.eqb_neq. congruence.
Qed.

(** A query in a range with room: every round moves on over records in use. *)
Lemma moving_total n : ∀ fuel s d p,
  (n < fuel)%nat → calm s → s_pool isIPv6 s = Some p → full p = false → free_within n p → moving s d p →
  answers (Create_loop fuel moments isIPv6 domain s d).
Proof.
  induction (lt_wf n) as [n _ IH]. intros [|fuel] s d p Hfuel Hcalm Hp Hfull Hfree Hmov; [lia|].
  cbn [Create_loop]. pose proof Hcalm as (Hwf & Hquiet & Hcl). destruct (Hwf isIPv6 p Hp) as (Hpwf & Ha & H4).
  pose proof (allocate_wf (m_now (moments fuel)) (d_generation d) isIPv6 domain s Hdomain Hwf) as Hwf'.
  unfold allocate in *. rewrite Hp in *. destruct (pl_byName p !! domain); [by eexists _, _, _|].
  rewrite Hcl, Hfull in *.
  destruct (s_storage s && negb (d_generation d =? s_generation s)) eqn:Eg.
  { apply andb_true_iff in Eg as [Hst Eg]. destruct (Hmov Hst) as [E _]. rewrite E, Z.eqb_refl in Eg. done. }
  destruct (next_free _ _ _ p) as [p' found] eqn:E.
  destruct (next_free_spec _ _ _ _ _ _ Hpwf Ha E) as (k & Hk & -> & _ & Hocc & Hfound).
  destruct found as [o| |]; [by eexists _, _, _| |].
  2: { exfalso. assert (Hlt : count p < usable p).
       { pose proof (rw_max _ (wf_range _ Hpwf)). pose proof (count_small p Hpwf). unfold full in Hfull.
         rewrite wrap_small in Hfull by (unfold count in *; lia). lia. }
       apply (next_free_enough (s_storage s) (s_storageFailed s) p Hpwf Ha Hlt). by rewrite E. }
  destruct Hfound as (Hst & Hfail & Hkb & Hlast). destruct (Hmov Hst) as [_ [Hf|Hb]]; [congruence|].
  cbn [al_need]. set (q := moved (s_storage s) k p) in *. set (s' := on_pool isIPv6 (λ _, q) s) in *.
  assert (Hq : s_pool isIPv6 s' = Some q) by (unfold s'; by rewrite s_pool_on, Bool.eqb_reflx, Hp).
  destruct Hfree as (j & Hj & Hfree).
  assert (Hjk : k <= Z.of_nat j).
  { destruct (Z.le_gt_cases k (Z.of_nat j)); [done|]. exfalso. destruct (decide (Z.of_nat j = k - 1)) as [Ej|].
    - rewrite Ej in Hfree. apply Hlast; [lia|done].
    - apply (Hocc (Z.of_nat j)); [lia|done]. }
  eapply (needs_reserve_save fuel s' d q (n - Z.to_nat k)).
  - split_and!; [done| |by unfold s'; destruct isIPv6].
    intros v6 r. unfold s'. rewrite s_pool_on. destruct (Bool.eqb_spec v6 isIPv6) as [->|]; [|apply Hquiet].
    rewrite Hp. intros [= <-]. intros i. rewrite <- (Hquiet _ _ Hp i). unfold q, moved. by destruct (s_storage s).
  - done.
  - rewrite <- Hfull. unfold q, moved. by destruct (s_storage s).
  - exists (j - Z.to_nat k)%nat. split; [lia|]. rewrite <- Hfree.
    destruct (same_range_fun _ _ (moved_same_range (s_storage s) k p)) as (_ & _ & Hah & _). unfold q. rewrite <- Hah.
    replace (pl_next (moved (s_storage s) k p)) with (ahead p (pl_next p) k) by (unfold moved; by destruct (s_storage s)).
    replace (pl_byOffset (moved (s_storage s) k p)) with (pl_byOffset p) by (unfold moved; by destruct (s_storage s)).
    rewrite ahead_ahead by (apply Hpwf || lia). f_equal. f_equal. lia.
  - unfold s'. rewrite <- Hst. by destruct isIPv6.
  - left. unfold q, moved. rewrite Hst. cbn [pl_budget pset_budget pset_advanced pset_next]. lia.
  - intros s'' d' q' ? ? ? ? ?. apply (IH (n - Z.to_nat k)%nat ltac:(lia) fuel s'' d' q'); try done. lia.
Qed.

(** The same when the reserve is used up or the file was recreated. *)
Lemma waiting_total n fuel s d p :
  (S n < fuel)%nat → calm s → s_pool isIPv6 s = Some p → full p = false → free_within n p →
  answers (Create_loop fuel moments isIPv6 domain s d).
Proof.
  intros Hfuel Hcalm Hp Hfull Hfree.
  assert (Hor : moving s d p ∨ (s_storage s = true ∧ (s_generation s ≠ d_generation d ∨
            s_generation s = d_generation d ∧ s_storageFailed s = false ∧ pl_budget p = 0))).
  { unfold moving. destruct (s_storage s); [|by left]. destruct (decide (s_generation s = d_generation d)); [|naive_solver].
    destruct (s_storageFailed s); [by left; eauto|]. destruct (decide (0 < pl_budget p)); [by left; eauto|].
    pose proof Hcalm as (Hwf & _). destruct (Hwf isIPv6 p Hp) as [Hpwf _]. pose proof (wf_budget _ Hpwf).
    right. split; [done|]. right. split_and!; [done|done|lia]. }
  destruct Hor as [Hmov|[Hst Hor]]; [apply (moving_total n fuel s d p); try done; lia|].
  destruct fuel as [|fuel]; [lia|]. cbn [Create_loop]. pose proof Hcalm as (Hwf & _ & Hcl). unfold allocate. rewrite Hp.
  destruct (pl_byName p !! domain); [by eexists _, _, _|]. rewrite Hcl, Hfull, Hst. cbn [andb].
  assert (Hnext : ∀ s' d' q, calm s' → s_pool isIPv6 s' = Some q → full q = false → free_within n q → moving s' d' q →
     answers (Create_loop fuel moments isIPv6 domain s' d')) by (intros; eapply moving_total; try done; lia).
  destruct Hor as [Hg|(Hg & Hfail & Hb)].
  - assert ((d_generation d =? s_generation s) = false) as -> by lia. cbn [negb al_need].
    apply (needs_reserve_save fuel s d p n); try done. by right.
  - rewrite Hg, Z.eqb_refl. cbn [negb next_free]. rewrite Hfail, Hb. cbn [andb Z.eqb negb al_need].
    assert (Hs' : on_pool isIPv6 (λ _, p) s = s).
    { destruct s, isIPv6; unfold on_pool, sset_pool4, sset_pool6; cbn in *; by rewrite Hp. }
    rewrite Hs'. apply (needs_reserve_save fuel s d p n); try done. by left.
Qed.

(** Making room, with and without a file. *)
Lemma makeRoom_spec m s d p s' d' :
  calm s → s_pool isIPv6 s = Some p → full p = true → makeRoom m isIPv6 s d = (s', d') →
  calm s' ∧ ∃ q, s_pool isIPv6 s' = Some q ∧ same_range p q ∧
    (size (pl_byOffset q) < size (pl_byOffset p))%nat.
Proof.
  intros Hcalm Hp Hfull Hroom. pose proof Hcalm as (Hwf & Hquiet & Hcl). destruct (Hwf isIPv6 p Hp) as [Hpwf _].
  pose proof (makeRoom_wf m isIPv6 s d Hwf) as Hwf'. rewrite Hroom in Hwf'. cbn [fst] in Hwf'.
  unfold makeRoom in Hroom. destruct (s_storage s) eqn:Hst.
  - destruct (save m _ s d) as [[s1 d1] err] eqn:Hsave. injection Hroom as -> ->.
    destruct (save_spec m (MkSaveRequest false false (Some isIPv6)) (d_generation d) s Hcalm Hst eq_refl
                d s' d' err eq_refl Hsave) as [Hs _].
    split; [by eapply saved_store_calm|]. destruct (ss_pool _ _ _ _ Hs isIPv6 p Hp) as (q & Hq & _ & _ & Hsr & Hsz & _).
    exists q. split_and!; [done|done|by apply Hsz].
  - injection Hroom as <- <-. destruct (oldest_nonempty (m_order m) (m_now m) p Hpwf (Hquiet _ _ Hp) Hfull) as (c & Hc & _).
    destruct (oldest_candidates (m_order m) (room p) 0 (m_now m) p Hpwf) as [Hnd Hin].
    destruct (oldest (m_order m) (room p) 0 (m_now m) p) as [|c0 l] eqn:El; [by apply elem_of_nil in Hc|].
    set (f := λ (p : pool) (c : removal), release (rm_record c) p).
    assert (Hd : ∀ k q i, deref (fold_left f k q) i = deref q i)
      by (induction k as [|x k IH]; intros q i; [done|]; cbn; rewrite IH; apply deref_release).
    split.
    + split_and!; [done| |by destruct isIPv6]. intros v6 q. rewrite s_pool_on.
      destruct (Bool.eqb_spec v6 isIPv6) as [->|]; [|apply Hquiet].
      rewrite Hp. cbn [fmap option_fmap option_map]. rewrite Hfull, El. intros [= <-] i.
      rewrite Hd. unfold f. rewrite deref_release. by apply (Hquiet _ _ Hp).
    + rewrite s_pool_on, Bool.eqb_reflx, Hp. cbn [fmap option_fmap option_map]. rewrite Hfull, El. eexists. split; [done|]. split.
      * apply (evolves_release_all (c0 :: l) p); [done| |done]. intros x Hx. by apply Hin.
      * apply size_fold; [intros; apply shrinks_release|]. apply size_release. apply Hin. left.
Qed.

Lemma Create_loop_total n : ∀ fuel s d p,
  (2 * n + 2 < fuel)%nat → calm s → s_pool isIPv6 s = Some p → (size (pl_byOffset p) ≤ n)%nat →
  answers (Create_loop fuel moments isIPv6 domain s d).
Proof.
  induction n as [n IH] using lt_wf_ind. intros fuel s d p Hfuel Hcalm Hp Hn.
  pose proof Hcalm as (Hwf & _ & Hcl). destruct (Hwf isIPv6 p Hp) as [Hpwf _].
  destruct (full p) eqn:Hfull.
  - destruct fuel as [|fuel]; [lia|]. cbn [Create_loop]. unfold allocate. rewrite Hp.
    destruct (pl_byName p !! domain); [by eexists _, _, _|]. rewrite Hcl, Hfull. cbn [al_need].
    destruct (makeRoom _ isIPv6 s d) as [s' d'] eqn:Hroom.
    destruct (makeRoom_spec _ _ _ _ _ _ Hcalm Hp Hfull Hroom) as (Hcalm' & q & Hq & _ & Hsz).
    apply (IH (size (pl_byOffset q)) ltac:(lia) fuel s' d' q); try done. lia.
  - apply (waiting_total n fuel s d p); try done; [lia|].
    assert (Hlt : count p < usable p).
    { pose proof (rw_max _ (wf_range _ Hpwf)). pose proof (count_small p Hpwf). unfold full in Hfull.
      rewrite wrap_small in Hfull by (unfold count in *; lia). lia. }
    destruct (free_offset p Hpwf Hlt) as (j & Hj & Hf). exists j. split; [lia|done].
Qed.
End Rounds.

Section Create.
Context `{Extern}.

(** C3 A query for a name always ends, and with an address: on an open store with a
    range of the family, whatever the records, the clock, the order of maps and the writes
    that fail, [Create] needs at most two rounds per record and three more. *)
Theorem Create_answers fuel moments isIPv6 domain s d p :
  calm s → s_pool isIPv6 s = Some p → strings_ToLower domain ≠ ""%string →
  (2 * size (pl_byOffset p) + 2 < fuel)%nat →
  ∃ s' d' a, Create fuel moments isIPv6 domain s d = Some (s', d', (a, None)).
Proof.
  intros Hcalm Hp Hd Hfuel. unfold Create. rewrite Hp.
  destruct (pl_byName p !! strings_ToLower domain); [by eexists _, _, _|].
  by apply (Create_loop_total _ _ _ Hd (size (pl_byOffset p)) fuel s d p).
Qed.
End Create.

Lemma Create_answers_witness :
  ∃ s d a, Create 3 (λ _, c_moment) false "Example.ORG" c_store c_file = Some (s, d, (a, None)).
Proof.
  apply (Create_answers 3 (λ _, c_moment) false "Example.ORG" c_store c_file (newPool c_range)).
  - split_and!; [apply NewStore_wf, c_ranges_ok| |reflexivity]. intros [] p; [discriminate|].
    intros [= <-] i. reflexivity.
  - reflexivity.
  - vm_compute. discriminate.
  - vm_compute. lia.
Defined.
