(* ===== verification/OutboundManager.v ===== *)
(** * The outbounds of the program: adapter/outbound/manager.go, adapter/lifecycle.go

    The manager has the outbounds in their order and by tag, and for every tag the
    outbounds that depend on it. Outbounds are started and closed through a [Scope].
    An outbound is a reference: the code compares references, here [ob_id]. What
    starting and closing an outbound answers is an argument, [Lifecycles]; the events
    are kept in the scope. Endpoints are behind the interface [EndpointManager]. *)
From stdpp Require Import base list gmap strings.
From S2P Require Import Prelude.

(** ** Stages and components *)

Inductive StartStage : Type :=
| StartStateInitialize
| StartStateStart
| StartStatePostStart
| StartStateStarted.

#[export] Instance StartStage_eq_dec : EqDecision StartStage.
Proof. solve_decision. Defined.

Definition stage_index (s : StartStage) : nat :=
  match s with
  | StartStateInitialize => 0
  | StartStateStart => 1
  | StartStatePostStart => 2
  | StartStateStarted => 3
  end.

Definition ListStartStages : list StartStage :=
  [StartStateInitialize; StartStateStart; StartStatePostStart; StartStateStarted].

Definition StartStage_String (s : StartStage) : string :=
  match s with
  | StartStateInitialize => "initialize"
  | StartStateStart => "start"
  | StartStatePostStart => "post-start"
  | StartStateStarted => "finish-start"
  end.

(** What the manager sees of an [adapter.Outbound]. *)
Record Outbound : Type := MkOutbound {
  ob_id : positive;
  ob_Type : string;
  ob_Tag : string;
  ob_Dependencies : list string;
  ob_isLifecycle : bool;
  ob_isEndpoint : bool;
}.

#[export] Instance Outbound_eq_dec : EqDecision Outbound.
Proof. solve_decision. Defined.

(** [it == other] of two interface values *)
Definition same (o o' : Outbound) : bool := (ob_id o =? ob_id o')%positive.

Definition outbound_name (o : Outbound) : string :=
  ("outbound/" +:+ ob_Type o +:+ "[" +:+ ob_Tag o +:+ "]")%string.

(** What the components answer: an error of [Start] at a stage, of closing, of
    [StartEndpoint]. *)
Record Lifecycles : Type := MkLifecycles {
  lc_Start : Outbound → StartStage → option error;
  lc_Close : Outbound → option error;
  lc_StartEndpoint : Outbound → option error;
}.

Inductive event : Type :=
| Started (o : Outbound) (stage : StartStage)
| StartedEndpoint (o : Outbound)
| Closed (o : Outbound).

#[export] Instance event_eq_dec : EqDecision event.
Proof. solve_decision. Defined.

(** ** Scope *)

(** [sc_children] has the started components in the order of their cleanups. *)
Record Scope : Type := MkScope {
  sc_done : bool;
  sc_children : list Outbound;
  sc_events : list event;
}.

Definition NewScope : Scope := MkScope false [] [].

Definition scope_event (e : event) (s : Scope) : Scope :=
  MkScope (sc_done s) (sc_children s) (sc_events s ++ [e]).

Definition has_child (o : Outbound) (s : Scope) : bool := existsb (same o) (sc_children s).

Definition Scope_Start (lc : Lifecycles) (name : string) (o : Outbound) (stage : StartStage)
    (s : Scope) : Scope * option error :=
  if sc_done s then (s, Some (ENamed "context.Canceled"))
  else
    let s := if has_child o s then s
             else MkScope (sc_done s) (sc_children s ++ [o]) (sc_events s) in
    let s := scope_event (Started o stage) s in
    match lc_Start lc o stage with
    | Some e => (s, Some (ECause e (StartStage_String stage +:+ " " +:+ name)%string))
    | None => (s, None)
    end.

Definition Scope_Remove (lc : Lifecycles) (o : Outbound) (s : Scope) : Scope * option error :=
  if has_child o s then
    let s := MkScope (sc_done s) (filter (λ c, same o c = false) (sc_children s)) (sc_events s) in
    (scope_event (Closed o) s,
     (λ e, ECause e ("close " +:+ outbound_name o)%string) <$> lc_Close lc o)
  else (s, None).

(** [E.IsClosed] and [E.IsCanceled] errors are left out of what [Close] returns. *)
Definition Scope_Close (lc : Lifecycles) (ignored : error → bool) (s : Scope)
    : Scope * option error :=
  fold_left (λ '(s, err) o,
      (scope_event (Closed o) s,
       match lc_Close lc o with
       | Some e =>
           let e := ECause e ("close " +:+ outbound_name o)%string in
           if ignored e then err else E_Errors err (Some e)
       | None => err
       end))
    (reverse (sc_children s)) (MkScope true [] (sc_events s), None).

(** ** Manager *)

(** The interface [adapter.EndpointManager], as far as it is used. *)
Record EndpointManager : Type := MkEndpointManager {
  ep_Endpoints : list Outbound;
  ep_Get : string → option Outbound;
}.

Record Manager : Type := MkManager {
  m_defaultTag : string;
  m_scope : option Scope;
  m_stage : StartStage;
  m_outbounds : list Outbound;
  m_outboundByTag : gmap string Outbound;
  m_dependByTag : gmap string (list string);
  m_defaultOutbound : option Outbound;
}.

Definition NewManager (defaultTag : string) : Manager :=
  MkManager defaultTag None StartStateInitialize [] ∅ ∅ None.

Definition mset_scope (s : Scope) (m : Manager) : Manager :=
  MkManager (m_defaultTag m) (Some s) (m_stage m) (m_outbounds m) (m_outboundByTag m)
    (m_dependByTag m) (m_defaultOutbound m).

(** [m.dependByTag[tag]], nil when it is absent *)
Definition dependBy (m : gmap string (list string)) (tag : string) : list string :=
  default [] (m !! tag).

Definition Manager_Outbound (ep : EndpointManager) (m : Manager) (tag : string) : option Outbound :=
  match m_outboundByTag m !! tag with
  | Some o => Some o
  | None => ep_Get ep tag
  end.

(** [tag] no longer depends on [dependency]; an empty list is deleted. *)
Definition drop_dependent (tag dependency : string) (depends : gmap string (list string))
    : gmap string (list string) :=
  match filter (λ it, it ≠ tag) (dependBy depends dependency) with
  | [] => delete dependency depends
  | l => <[dependency := l]> depends
  end.

Definition removeDependencies (o : Outbound) (depends : gmap string (list string))
    : gmap string (list string) :=
  fold_left (λ depends dependency, drop_dependent (ob_Tag o) dependency depends)
    (ob_Dependencies o) depends.

(** [for _, dependency := range o.Dependencies() { ... append(..., tag) }] *)
Definition addDependencies (o : Outbound) (tag : string) (depends : gmap string (list string))
    : gmap string (list string) :=
  fold_left (λ depends dependency,
      <[dependency := dependBy depends dependency ++ [tag]]> depends)
    (ob_Dependencies o) depends.

Definition without (o : Outbound) (l : list Outbound) : list Outbound :=
  filter (λ it, same it o = false) l.

Definition Manager_Remove (lc : Lifecycles) (tag : string) (m : Manager) : Manager * option error :=
  match m_outboundByTag m !! tag with
  | None => (m, Some (ENamed "os.ErrInvalid"))
  | Some o =>
      match dependBy (m_dependByTag m) tag with
      | [] =>
          let outbounds := without o (m_outbounds m) in
          let m' := MkManager (m_defaultTag m) (m_scope m) (m_stage m) outbounds
            (delete tag (m_outboundByTag m)) (removeDependencies o (m_dependByTag m))
            (match m_defaultOutbound m with
             | Some d => if same d o then head outbounds else Some d
             | None => None
             end) in
          match m_scope m with
          | Some s =>
              if ob_isLifecycle o
              then let '(s, err) := Scope_Remove lc o s in (mset_scope s m', err)
              else (m', None)
          | None => (m', None)
          end
      | l => (m, Some (ENew ("outbound[" +:+ tag +:+ "] is depended by "
                             +:+ strings_Join l ", ")%string))
      end
  end.

(** The stages of [for _, startStage := range ListStartStages[:stage+1]]: the first
    error stops them. *)
Fixpoint start_stages (lc : Lifecycles) (o : Outbound) (stages : list StartStage) (s : Scope)
    : Scope * option error :=
  match stages with
  | [] => (s, None)
  | stage :: stages =>
      match Scope_Start lc (outbound_name o) o stage s with
      | (s, Some e) => (s, Some e)
      | (s, None) => start_stages lc o stages s
      end
  end.

(** The critical section of [Create] that publishes the outbound. *)
Definition Create_publish (tag : string) (o : Outbound) (m : Manager) : Manager :=
  let exists_ := m_outboundByTag m !! tag in
  MkManager (m_defaultTag m) (m_scope m) (m_stage m)
    (match exists_ with Some e => without e (m_outbounds m) | None => m_outbounds m end ++ [o])
    (<[tag := o]> (m_outboundByTag m))
    (addDependencies o tag
       (match exists_ with
        | Some e => removeDependencies e (m_dependByTag m)
        | None => m_dependByTag m
        end))
    (if bool_decide (tag = m_defaultTag m)
        || (negb (nonempty (m_defaultTag m)) && bool_decide (m_defaultOutbound m = None))
        || match exists_, m_defaultOutbound m with
           | Some e, Some d => same d e
           | _, _ => false
           end
     then Some o else m_defaultOutbound m).

(** [created] is what [m.registry.CreateOutbound] answers. *)
Definition Manager_Create (lc : Lifecycles) (created : result Outbound) (tag : string)
    (m : Manager) : Manager * result unit :=
  if negb (nonempty tag) then (m, Err (ENamed "os.ErrInvalid"))
  else match created with
  | Err e => (m, Err e)
  | Panic s => (m, Panic s)
  | Ok o =>
      let '(m, err) :=
        match m_scope m with
        | Some s =>
            if ob_isLifecycle o then
              match start_stages lc o (take (S (stage_index (m_stage m))) ListStartStages) s with
              | (s, Some e) =>
                  let '(s, err) := Scope_Remove lc o s in
                  (mset_scope s m, E_Errors (Some e) err)
              | (s, None) => (mset_scope s m, None)
              end
            else (m, None)
        | None => (m, None)
        end in
      match err with
      | Some e => (m, Err e)
      | None =>
          let m' := Create_publish tag o m in
          match m_outboundByTag m !! tag, m_scope m with
          | Some e, Some s =>
              if ob_isLifecycle e then
                match Scope_Remove lc e s with
                | (s, Some err) =>
                    (mset_scope s m', Err (ECause err ("close " +:+ outbound_name e)%string))
                | (s, None) => (mset_scope s m', Ok tt)
                end
              else (m', Ok tt)
          | _, _ => (m', Ok tt)
          end
      end
  end.

(** ** Replacing a batch of outbounds *)

(** The order in which [range] visits a map with string keys. *)
Record MapRange : Type := MkMapRange {
  visit : ∀ {A}, gmap string A → list (string * A);
  visit_perm : ∀ {A} (m : gmap string A), visit m ≡ₚ map_to_list m;
}.

Definition someRange : MapRange := MkMapRange (λ A m, map_to_list m) (λ A m, reflexivity _).

(** The first loop of [SwapBatch]: every expected outbound is still there. *)
Fixpoint swap_expected (byTag : gmap string Outbound) (expected : list (string * Outbound))
    : option error :=
  match expected with
  | [] => None
  | (tag, e) :: expected =>
      match byTag !! tag with
      | Some current =>
          if same current e then swap_expected byTag expected
          else Some (ENew ("outbound changed before batch swap: " +:+ tag)%string)
      | None => Some (ENew ("outbound changed before batch swap: " +:+ tag)%string)
      end
  end.

Fixpoint swap_candidates (byTag : gmap string Outbound) (removeSet : gmap string Outbound)
    (seen : gmap string Outbound) (candidates : list Outbound)
    : error + gmap string Outbound :=
  match candidates with
  | [] => inr seen
  | c :: candidates =>
      let tag := ob_Tag c in
      if negb (nonempty tag) || bool_decide (is_Some (seen !! tag)) then
        inl (ENew ("invalid duplicate outbound candidate: " +:+ tag)%string)
      else if bool_decide (is_Some (byTag !! tag)) && bool_decide (removeSet !! tag = None) then
        inl (ENew ("outbound already exists: " +:+ tag)%string)
      else swap_candidates byTag removeSet (<[tag := c]> seen) candidates
  end.

(** The removed outbounds are depended on by removed outbounds only. *)
Fixpoint swap_dependents (depends : gmap string (list string)) (removeSet : gmap string Outbound)
    (tags : list string) : option error :=
  match tags with
  | [] => None
  | tag :: tags =>
      match filter (λ dependent, removeSet !! dependent = None) (dependBy depends tag) with
      | dependent :: _ =>
          Some (ENew ("outbound[" +:+ tag +:+ "] is depended by " +:+ dependent)%string)
      | [] => swap_dependents depends removeSet tags
      end
  end.

(** A dependency of a candidate is a candidate, stays or is an endpoint. *)
Definition swap_resolves (ep : option EndpointManager) (byTag removeSet byCandidate : gmap string Outbound)
    (dependency : string) : bool :=
  bool_decide (is_Some (byCandidate !! dependency))
  || (bool_decide (is_Some (byTag !! dependency)) && bool_decide (removeSet !! dependency = None))
  || match ep with
     | Some ep => bool_decide (is_Some (ep_Get ep dependency))
     | None => false
     end.

Definition swap_unresolved (ep : option EndpointManager)
    (byTag removeSet byCandidate : gmap string Outbound) (candidates : list Outbound)
    : option error :=
  match filter (λ d, swap_resolves ep byTag removeSet byCandidate d = false)
          (candidates ≫= ob_Dependencies) with
  | d :: _ => Some (ENew ("outbound dependency not found: " +:+ d)%string)
  | [] => None
  end.

(** A removed outbound gives its position to the candidate of its tag. *)
Fixpoint swap_positions (removeSet remaining : gmap string Outbound) (outbounds : list Outbound)
    : list Outbound * gmap string Outbound :=
  match outbounds with
  | [] => ([], remaining)
  | current :: outbounds =>
      if bool_decide (removeSet !! ob_Tag current = None) then
        let '(l, remaining) := swap_positions removeSet remaining outbounds in
        (current :: l, remaining)
      else match remaining !! ob_Tag current with
      | Some candidate =>
          let '(l, remaining) :=
            swap_positions removeSet (delete (ob_Tag current) remaining) outbounds in
          (candidate :: l, remaining)
      | None => swap_positions removeSet remaining outbounds
      end
  end.

(** [dependByTag] without the removed outbounds. *)
Definition swap_remove (removed : list (string * Outbound)) (depends : gmap string (list string))
    : gmap string (list string) :=
  fold_left (λ depends '(tag, o),
      fold_left (λ depends dependency, drop_dependent tag dependency depends)
        (ob_Dependencies o) depends) removed depends.

Definition swap_publish (order : MapRange) (removeSet byCandidate : gmap string Outbound)
    (candidates : list Outbound) (m : Manager) : Manager :=
  let '(kept, remaining) := swap_positions removeSet byCandidate (m_outbounds m) in
  let outbounds :=
    kept ++ filter (λ c, is_Some (remaining !! ob_Tag c)) candidates in
  let default_ :=
    match m_defaultOutbound m with
    | Some d =>
        if bool_decide (removeSet !! ob_Tag d = None) then Some d else byCandidate !! ob_Tag d
    | None => None
    end in
  let default_ :=
    match byCandidate !! m_defaultTag m with
    | Some c => Some c
    | None => default_
    end in
  MkManager (m_defaultTag m) (m_scope m) (m_stage m) outbounds
    (fold_left (λ byTag c, <[ob_Tag c := c]> byTag) candidates
       (fold_left (λ byTag '(tag, _), delete tag byTag) (visit order removeSet) (m_outboundByTag m)))
    (fold_left (λ depends c, addDependencies c (ob_Tag c) depends) candidates
       (swap_remove (visit order removeSet) (m_dependByTag m)))
    (match default_ with Some d => Some d | None => head outbounds end).

(** [expectedOld] has the outbounds that leave, which the code collects as
    [removeSet] and returns. *)
Definition SwapBatch (order : MapRange) (ep : option EndpointManager)
    (expectedOld : gmap string Outbound) (candidates : list Outbound) (m : Manager)
    : Manager * (error + gmap string Outbound) :=
  match swap_expected (m_outboundByTag m) (visit order expectedOld) with
  | Some e => (m, inl e)
  | None =>
  match swap_candidates (m_outboundByTag m) expectedOld ∅ candidates with
  | inl e => (m, inl e)
  | inr byCandidate =>
  match swap_dependents (m_dependByTag m) expectedOld (visit order expectedOld).*1 with
  | Some e => (m, inl e)
  | None =>
  match swap_unresolved ep (m_outboundByTag m) expectedOld byCandidate candidates with
  | Some e => (m, inl e)
  | None =>
      let removed := map_imap (λ tag _, m_outboundByTag m !! tag) expectedOld in
      (swap_publish order removed byCandidate candidates m, inr removed)
  end end end end.

(** ** Starting the outbounds in the order of their dependencies *)

(** What a round of [startOutbounds] has: the started tags, whether one was started,
    the scope. *)
Record round : Type := MkRound {
  rd_started : gset string;
  rd_canContinue : bool;
  rd_scope : Scope;
}.

(** The body of the loop labelled [startOne]. *)
Definition startOne (lc : Lifecycles) (o : Outbound) (r : round) : round * option error :=
  let tag := ob_Tag o in
  if bool_decide (tag ∈ rd_started r) then (r, None)
  else if existsb (λ dependency, negb (bool_decide (dependency ∈ rd_started r))) (ob_Dependencies o)
  then (r, None)
  else
    let started := {[tag]} ∪ rd_started r in
    if ob_isEndpoint o then
      (MkRound started true (scope_event (StartedEndpoint o) (rd_scope r)), lc_StartEndpoint lc o)
    else if negb (ob_isLifecycle o) then (MkRound started true (rd_scope r), None)
    else
      let '(s, err) := Scope_Start lc (outbound_name o) o StartStateStart (rd_scope r) in
      (MkRound started true s, err).

Fixpoint start_round (lc : Lifecycles) (outbounds : list Outbound) (r : round)
    : round * option error :=
  match outbounds with
  | [] => (r, None)
  | o :: outbounds =>
      match startOne lc o r with
      | (r, Some e) => (r, Some e)
      | (r, None) => start_round lc outbounds r
      end
  end.

(** [common.Find]: the zero value when there is none *)
Definition find_string (f : string → bool) (l : list string) : string :=
  default ""%string (List.find f l).

Fixpoint lintOutbound (fuel : nat) (outbounds : list Outbound) (started : gset string)
    (oTree : list string) (oCurrent : Outbound) : option error :=
  match fuel with
  | O => None
  | S fuel =>
      let problem := find_string (λ it, negb (bool_decide (it ∈ started))) (ob_Dependencies oCurrent) in
      if bool_decide (problem ∈ oTree) then
        Some (ENew ("circular outbound dependency: " +:+ strings_Join oTree " -> "
                    +:+ " -> " +:+ problem)%string)
      else match List.find (λ it, bool_decide (ob_Tag it = problem)) outbounds with
      | None => Some (ENew ("dependency[" +:+ problem +:+ "] not found for outbound["
                            +:+ ob_Tag oCurrent +:+ "]")%string)
      | Some o => lintOutbound fuel outbounds started (oTree ++ [problem]) o
      end
  end.

(** [None] when the fuel is used up. *)
Fixpoint startOutbounds (fuel : nat) (lc : Lifecycles) (outbounds : list Outbound)
    (started : gset string) (s : Scope) : option (Scope * result unit) :=
  match fuel with
  | O => None
  | S fuel' =>
      match start_round lc outbounds (MkRound started false s) with
      | (r, Some e) => Some (rd_scope r, Err e)
      | (r, None) =>
          if bool_decide (size (rd_started r) = length outbounds) then Some (rd_scope r, Ok tt)
          else if rd_canContinue r then
            startOutbounds fuel' lc outbounds (rd_started r) (rd_scope r)
          else match List.find (λ it, negb (bool_decide (ob_Tag it ∈ rd_started r))) outbounds with
          | None => Some (rd_scope r, Panic "invalid memory address or nil pointer dereference")
          | Some current =>
              match lintOutbound fuel outbounds (rd_started r) [ob_Tag current] current with
              | Some e => Some (rd_scope r, Err e)
              | None => None
              end
          end
      end
  end.

(** The loop over the outbounds of the other stages. *)
Fixpoint start_each (lc : Lifecycles) (stage : StartStage) (outbounds : list Outbound) (s : Scope)
    : Scope * option error :=
  match outbounds with
  | [] => (s, None)
  | o :: outbounds =>
      if negb (ob_isLifecycle o) then start_each lc stage outbounds s
      else match Scope_Start lc (outbound_name o) o stage s with
      | (s, Some e) => (s, Some e)
      | (s, None) => start_each lc stage outbounds s
      end
  end.

Definition mset_default (d : option Outbound) (m : Manager) : Manager :=
  MkManager (m_defaultTag m) (m_scope m) (m_stage m) (m_outbounds m) (m_outboundByTag m)
    (m_dependByTag m) d.

(** The default outbound at the stage initialize; [fallback] is what
    [defaultOutboundFallback] answers. *)
Definition start_default (ep : EndpointManager) (fallback : result Outbound) (m : Manager)
    : Manager * result unit :=
  match (if nonempty (m_defaultTag m) && bool_decide (m_defaultOutbound m = None) then
           match ep_Get ep (m_defaultTag m) with
           | None => inl (ENew ("default outbound not found: " +:+ m_defaultTag m)%string)
           | Some e => inr (mset_default (Some e) m)
           end
         else inr m) with
  | inl e => (m, Err e)
  | inr m =>
      match m_defaultOutbound m with
      | Some _ => (m, Ok tt)
      | None =>
          match fallback with
          | Err e => (m, Err (ECause e "create direct outbound for fallback"))
          | Panic s => (m, Panic s)
          | Ok o =>
              (MkManager (m_defaultTag m) (m_scope m) (m_stage m) (m_outbounds m ++ [o])
                 (<[ob_Tag o := o]> (m_outboundByTag m)) (m_dependByTag m) (Some o), Ok tt)
          end
      end
  end.

Definition Manager_Start (fuel : nat) (lc : Lifecycles) (ep : EndpointManager)
    (fallback : result Outbound) (stage : StartStage) (scope : Scope) (m : Manager)
    : option (Manager * result unit) :=
  let m := MkManager (m_defaultTag m) (Some scope) stage (m_outbounds m) (m_outboundByTag m)
             (m_dependByTag m) (m_defaultOutbound m) in
  let '(m, r) := match stage with
                 | StartStateInitialize => start_default ep fallback m
                 | _ => (m, Ok tt)
                 end in
  match r with
  | Ok _ =>
      match stage with
      | StartStateStart =>
          '(s, r) ← startOutbounds fuel lc (m_outbounds m ++ ep_Endpoints ep) ∅ scope;
          Some (mset_scope s m, r)
      | _ =>
          let '(s, err) := start_each lc stage (m_outbounds m) scope in
          Some (mset_scope s m, match err with Some e => Err e | None => Ok tt end)
      end
  | r => Some (m, r)
  end.
