(* ===== verification/OutboundStart.v ===== *)
(** * Starting the outbounds: the order, the errors, the end

    [startOutbounds] starts an outbound when its dependencies are started, round after
    round. Here: it starts every outbound after its dependencies and once; it succeeds
    exactly when no outbound is in or behind a circle or a missing tag; it always ends. *)
From stdpp Require Import base list gmap strings.
From S2P Require Import Prelude OutboundManager.
Local Open Scope nat_scope.

(** The events of starting an outbound at the stage start. *)
Definition start_event (o : Outbound) : list event :=
  if ob_isEndpoint o then [StartedEndpoint o]
  else if ob_isLifecycle o then [Started o StartStateStart] else [].

(** Every outbound comes after its dependencies. *)
Definition ordered (l : list Outbound) : Prop :=
  ∀ l1 o l2, l = l1 ++ o :: l2 → ∀ d, d ∈ ob_Dependencies o → d ∈ ob_Tag <$> l1.

(** The tags that can be started at all: the dependencies are there and can be. *)
Inductive startable (outbounds : list Outbound) : string → Prop :=
| startable_intro o :
    o ∈ outbounds → (∀ d, d ∈ ob_Dependencies o → startable outbounds d) →
    startable outbounds (ob_Tag o).

(** The components answer nil. *)
Definition starts_fine (lc : Lifecycles) : Prop :=
  (∀ o, lc_Start lc o StartStateStart = None) ∧ (∀ o, lc_StartEndpoint lc o = None).

Lemma ordered_snoc l o :
  ordered l → (∀ d, d ∈ ob_Dependencies o → d ∈ ob_Tag <$> l) → ordered (l ++ [o]).
Proof.
  intros Hl Ho l1 o' l2 E d Hd.
  destruct l2 as [|x l2 _] using rev_ind.
  - apply app_inj_tail in E as [-> ->]. by apply Ho.
  - rewrite app_comm_cons, app_assoc in E. apply app_inj_tail in E as [-> _]. by eapply Hl.
Qed.

Lemma ordered_startable outbounds l :
  ordered l → l ⊆ outbounds → ∀ t, t ∈ ob_Tag <$> l → startable outbounds t.
Proof.
  induction l as [|o l IH] using rev_ind; intros Hl Hin t Ht; [by apply elem_of_nil in Ht|].
  assert (Hl' : ordered l).
  { intros l1 o' l2 -> d Hd. eapply (Hl l1 o' (l2 ++ [o])); [by rewrite <- app_assoc|done]. }
  assert (IH' := IH Hl' ltac:(set_solver)).
  rewrite fmap_app, elem_of_app in Ht. destruct Ht as [Ht|Ht]; [by apply IH'|].
  apply list_elem_of_singleton in Ht as ->. constructor; [set_solver|].
  intros d Hd. apply IH'. by eapply (Hl l o []).
Qed.

Section start.
Context (lc : Lifecycles) (outbounds : list Outbound) (evs0 : list event).
Context (Htags : NoDup (ob_Tag <$> outbounds)).

(** What the rounds keep: [order] has the outbounds started so far. *)
Record round_ok (r : round) (order : list Outbound) : Prop := {
  ro_started : ∀ t, t ∈ rd_started r ↔ t ∈ ob_Tag <$> order;
  ro_in : order ⊆ outbounds;
  ro_nodup : NoDup (ob_Tag <$> order);
  ro_ordered : ordered order;
  ro_events : sc_events (rd_scope r) = evs0 ++ (order ≫= start_event);
  ro_done : sc_done (rd_scope r) = false;
}.

(** An outbound that a round leaves alone. *)
Definition settled (started : gset string) (o : Outbound) : Prop :=
  ob_Tag o ∈ started ∨ ∃ d, d ∈ ob_Dependencies o ∧ d ∉ started.

Lemma Scope_Start_spec name o stage s s' err :
  sc_done s = false → Scope_Start lc name o stage s = (s', err) →
  sc_done s' = false ∧ sc_events s' = sc_events s ++ [Started o stage] ∧
  (lc_Start lc o stage = None → err = None).
Proof.
  intros Hd. unfold Scope_Start. rewrite Hd.
  destruct (has_child o s), (lc_Start lc o stage); intros [= <- <-]; naive_solver.
Qed.

Lemma startOne_spec r order o r' err :
  round_ok r order → o ∈ outbounds → startOne lc o r = (r', err) →
  (r' = r ∧ err = None ∧ settled (rd_started r) o) ∨
  (round_ok r' (order ++ [o]) ∧ rd_canContinue r' = true ∧ (starts_fine lc → err = None)).
Proof.
  intros [H1 H2 H3 H4 H5 H6] Ho. unfold startOne, settled.
  case_bool_decide as Ht; [intros [= <- <-]; auto|].
  destruct (existsb _ _) eqn:E.
  { intros [= <- <-]. left. split; [done|]. split; [done|]. right.
    apply existsb_exists in E as (d & Hd & E). exists d. split; [by apply list_elem_of_In|].
    apply negb_true_iff, bool_decide_eq_false in E. done. }
  assert (Hdeps : ∀ d, d ∈ ob_Dependencies o → d ∈ ob_Tag <$> order).
  { intros d Hd. apply H1. destruct (decide (d ∈ rd_started r)) as [|N]; [done|].
    exfalso. apply not_true_iff_false in E. apply E, existsb_exists. exists d.
    split; [by apply list_elem_of_In|]. by rewrite bool_decide_false. }
  assert (Hok : ∀ s', sc_done s' = false → sc_events s' = sc_events (rd_scope r) ++ start_event o →
            round_ok (MkRound ({[ob_Tag o]} ∪ rd_started r) true s') (order ++ [o])).
  { intros s' Hd He. split; cbn.
    - intros t. rewrite elem_of_union, elem_of_singleton, H1, fmap_app, elem_of_app. set_solver.
    - set_solver.
    - rewrite fmap_app. apply NoDup_app. split; [done|]. split; [|apply NoDup_singleton].
      intros t Hto Hts. apply list_elem_of_singleton in Hts as ->. apply Ht. by apply H1.
    - by apply ordered_snoc.
    - rewrite He, H5, bind_app, <- app_assoc. cbn. by rewrite app_nil_r.
    - done. }
  destruct (ob_isEndpoint o) eqn:Ee.
  { intros [= <- <-]. right. split; [|split; [done|intros [_ Hf]; by apply Hf]].
    apply Hok; [done|]. unfold start_event. by rewrite Ee. }
  destruct (ob_isLifecycle o) eqn:El; cbn.
  - destruct (Scope_Start _ _ _ _ _) as [s' e] eqn:Es. intros [= <- <-]. right.
    apply Scope_Start_spec in Es as (Hd & He & Hn); [|done].
    split; [|split; [done|intros [Hf _]; auto]].
    apply Hok; [done|]. rewrite He. unfold start_event. by rewrite Ee, El.
  - intros [= <- <-]. right. split; [|done]. apply Hok; [done|].
    unfold start_event. by rewrite Ee, El, app_nil_r.
Qed.

Lemma start_round_spec l r order r' err :
  round_ok r order → l ⊆ outbounds → start_round lc l r = (r', err) →
  (∃ k, round_ok r' (order ++ k) ∧ (k ≠ [] → rd_canContinue r' = true) ∧
    (k = [] → r' = r ∧ (err = None → ∀ o, o ∈ l → settled (rd_started r) o))) ∧
  (starts_fine lc → err = None).
Proof.
  revert r order. induction l as [|o l IH]; intros r order Hr Hl; cbn.
  { intros [= <- <-]. split; [|done]. exists []. rewrite app_nil_r.
    split; [done|]. split; [done|]. intros _. split; [done|]. intros _ o Ho. by apply elem_of_nil in Ho. }
  destruct (startOne lc o r) as [r1 e1] eqn:E1.
  apply startOne_spec with (order := order) in E1; [|done|set_solver].
  destruct E1 as [(-> & -> & Hs)|(Hr1 & Hc & Hf)].
  - intros E. apply (IH _ _ Hr) in E as [(k & Hk & Hk1 & Hk2) Hf]; [|set_solver].
    split; [|done]. exists k. split; [done|]. split; [done|]. intros ->.
    destruct (Hk2 eq_refl) as [-> Hk3]. split; [done|]. intros He o' Ho'.
    apply elem_of_cons in Ho' as [->|Ho']; [done|]. by apply Hk3.
  - destruct e1 as [e1|].
    + intros [= <- <-]. split; [|intros F; by specialize (Hf F)].
      exists [o]. split; [done|]. split; done.
    + intros E. apply (IH _ _ Hr1) in E as [(k & Hk & Hk1 & Hk2) Hf']; [|set_solver].
      split; [|done]. exists (o :: k). rewrite <- app_assoc in Hk. split; [done|]. split; [|done].
      intros _. destruct k; [destruct (Hk2 eq_refl) as [-> _]; done|]. by apply Hk1.
Qed.

Lemma round_size r order : round_ok r order → size (rd_started r) = length order.
Proof.
  intros Hr. assert (rd_started r = list_to_set (ob_Tag <$> order)) as ->.
  { apply set_eq. intros t. rewrite elem_of_list_to_set. apply Hr. }
  rewrite size_list_to_set by apply Hr. apply length_fmap.
Qed.

Lemma round_sub r order : round_ok r order → order ⊆+ outbounds.
Proof.
  intros Hr. apply NoDup_submseteq; [eapply NoDup_fmap_1, Hr|apply Hr].
Qed.

Lemma round_all r order : round_ok r order → length order = length outbounds → order ≡ₚ outbounds.
Proof.
  intros Hr Hl. apply submseteq_length_Permutation; [by eapply round_sub|lia].
Qed.

Lemma settled_startable started t :
  (∀ o, o ∈ outbounds → settled started o) → startable outbounds t → t ∈ started.
Proof.
  intros Hs. induction 1 as [o Ho _ IH].
  destruct (Hs o Ho) as [|(d & Hd & Hn)]; [done|]. by destruct Hn; apply IH.
Qed.

Lemma find_string_Some f l x : x ∈ l → f x = true → f (find_string f l) = true.
Proof.
  intros Hx Hf. unfold find_string. destruct (List.find f l) as [y|] eqn:E; cbn.
  - by apply List.find_some in E as [_ ?].
  - apply list_elem_of_In in Hx. by rewrite (List.find_none _ _ E x Hx) in Hf.
Qed.

(** Every step of [lintOutbound] finds another tag that is not started. *)
Lemma lintOutbound_ends fuel started order oTree o :
  (∀ o, o ∈ outbounds → settled started o) →
  (∀ t, t ∈ started ↔ t ∈ order) → o ∈ outbounds → ob_Tag o ∉ started →
  NoDup (order ++ oTree) → order ++ oTree ⊆ ob_Tag <$> outbounds →
  length outbounds < fuel + length (order ++ oTree) →
  is_Some (lintOutbound fuel outbounds started oTree o).
Proof.
  intros Hs Hord. revert oTree o. induction fuel as [|fuel IH]; intros oTree o Ho Hn Hd Hin Hf.
  { apply NoDup_submseteq, submseteq_length in Hin; [|done]. rewrite length_fmap in Hin. lia. }
  cbn. destruct (Hs o Ho) as [|(d & Hdep & Hdn)]; [done|].
  assert (Hp := find_string_Some (λ it, negb (bool_decide (it ∈ started))) _ d Hdep
                  ltac:(cbn; by rewrite bool_decide_false)).
  set (p := find_string _ _) in *. cbn in Hp. apply negb_true_iff, bool_decide_eq_false in Hp.
  case_bool_decide as Hc; [by eexists|].
  destruct (List.find _ outbounds) as [o'|] eqn:E; [|by eexists].
  apply List.find_some in E as [Ho' E]. apply bool_decide_eq_true in E. apply list_elem_of_In in Ho'.
  apply IH; [done|by rewrite E| | |rewrite app_assoc, length_app; cbn; lia]; rewrite app_assoc.
  - apply NoDup_app. split; [done|]. split; [|apply NoDup_singleton].
    intros x [Hx|Hx]%elem_of_app Hxp; apply list_elem_of_singleton in Hxp as ->; [|done].
    by apply Hp, Hord.
  - intros x Hx. apply elem_of_app in Hx as [Hx|Hx]; [by apply Hin|].
    apply list_elem_of_singleton in Hx as ->. rewrite <- E. by apply list_elem_of_fmap_2.
Qed.

(** What a run of the loop ends with. *)
Definition start_result (s' : Scope) (res : result unit) : Prop :=
  (∃ order,
     sc_events s' = evs0 ++ (order ≫= start_event) ∧ order ⊆+ outbounds ∧ ordered order ∧
     (res = Ok tt → order ≡ₚ outbounds)) ∧
  (∀ message, res ≠ Panic message) ∧
  (starts_fine lc → res = Ok tt ↔ ∀ o, o ∈ outbounds → startable outbounds (ob_Tag o)).

Lemma round_result r order res :
  round_ok r order → (∀ message, res ≠ Panic message) →
  (res = Ok tt → order ≡ₚ outbounds) →
  (starts_fine lc → (∀ o, o ∈ outbounds → startable outbounds (ob_Tag o)) → res = Ok tt) →
  start_result (rd_scope r) res.
Proof.
  intros Hr Hp Ho Hf. split.
  { exists order. split; [apply Hr|]. split; [by eapply round_sub|]. split; [apply Hr|done]. }
  split; [done|]. intros F. split; [|by apply Hf]. intros E o Hin.
  eapply ordered_startable; [apply Hr|apply Hr|]. apply Ho in E.
  apply list_elem_of_fmap_2. by rewrite E.
Qed.

Lemma startOutbounds_loop fuel r order :
  round_ok r order → length outbounds + 2 <= fuel + length order →
  ∃ s' res, startOutbounds fuel lc outbounds (rd_started r) (rd_scope r) = Some (s', res) ∧
    start_result s' res.
Proof.
  revert r order. induction fuel as [|fuel IH]; intros r order Hr Hf.
  { assert (Hl := submseteq_length _ _ (round_sub r order Hr)). lia. }
  cbn [startOutbounds].
  destruct (start_round _ _ _) as [r' err] eqn:E.
  assert (Hr0 : round_ok (MkRound (rd_started r) false (rd_scope r)) order) by (destruct Hr; by split).
  apply (start_round_spec _ _ order) in E as [(k & Hk & Hk1 & Hk2) Hfine]; [|done..].
  destruct err as [e|].
  { eexists _, _. split; [done|]. eapply round_result; [done..|]. intros F. by specialize (Hfine F). }
  case_bool_decide as Hsz.
  { eexists _, _. split; [done|]. eapply round_result; [done..| |done].
    intros _. eapply round_all; [done|]. by rewrite <- Hsz, (round_size _ _ Hk). }
  destruct (rd_canContinue r') eqn:Hc.
  { apply IH with (order := order ++ k); [done|]. rewrite length_app.
    destruct k; [|cbn; lia]. destruct (Hk2 eq_refl) as [-> _]. done. }
  destruct k as [|x k]; [|by specialize (Hk1 ltac:(discriminate))].
  destruct (Hk2 eq_refl) as [-> Hst]. specialize (Hst eq_refl). rewrite app_nil_r in Hk.
  assert (Hall : ¬ ∀ o, o ∈ outbounds → ob_Tag o ∈ rd_started r).
  { intros Hall. apply Hsz. rewrite (round_size _ _ Hr0). apply Nat.le_antisymm.
    - by apply submseteq_length, (round_sub _ _ Hr0).
    - rewrite <- (length_fmap ob_Tag order), <- (length_fmap ob_Tag outbounds).
      apply submseteq_length, NoDup_submseteq; [done|].
      intros t (o & -> & Ho)%list_elem_of_fmap. by apply Hr0, Hall. }
  cbn [rd_started rd_scope]. destruct (List.find _ outbounds) as [o|] eqn:Ef.
  2:{ destruct Hall. intros o Ho. apply list_elem_of_In in Ho.
      specialize (List.find_none _ _ Ef o Ho) as Hx. cbn in Hx.
      by apply negb_false_iff, bool_decide_eq_true in Hx. }
  apply List.find_some in Ef as [Ho Hn]. apply list_elem_of_In in Ho.
  apply negb_true_iff, bool_decide_eq_false in Hn.
  destruct (lintOutbound_ends (S fuel) (rd_started r) (ob_Tag <$> order) [ob_Tag o] o) as [e He];
    [done|apply Hr|done|done| | |rewrite length_app, length_fmap; cbn; lia|].
  { apply NoDup_app. split; [apply Hr|]. split; [|apply NoDup_singleton].
    intros t Ht Hto. apply list_elem_of_singleton in Hto as ->. by apply Hn, Hr. }
  { intros t [(o' & -> & Ho')%list_elem_of_fmap|Ht]%elem_of_app.
    - by apply list_elem_of_fmap_2, (ro_in _ _ Hr0).
    - apply list_elem_of_singleton in Ht as ->. by apply list_elem_of_fmap_2. }
  rewrite He. eexists _, _. split; [done|]. eapply (round_result _ _ _ Hr0); [done..|].
  intros _ Hs. destruct Hall. intros o' Ho'. by eapply settled_startable; [|apply Hs].
Qed.
End start.

(** C29 Starting the outbounds ends, without a panic; every outbound that is started
    comes after its dependencies and is started once; on success every outbound was
    started; and when no component answers an error, it succeeds exactly when every
    outbound can be started at all: its dependencies are there, without a circle. *)
Theorem startOutbounds_order fuel lc outbounds s :
  NoDup (ob_Tag <$> outbounds) → sc_done s = false → length outbounds + 2 <= fuel →
  ∃ s' res order,
    startOutbounds fuel lc outbounds ∅ s = Some (s', res) ∧
    sc_events s' = sc_events s ++ (order ≫= start_event) ∧
    order ⊆+ outbounds ∧ ordered order ∧ (res = Ok tt → order ≡ₚ outbounds) ∧
    (∀ message, res ≠ Panic message) ∧
    (starts_fine lc → res = Ok tt ↔ ∀ o, o ∈ outbounds → startable outbounds (ob_Tag o)).
Proof.
  intros Htags Hd Hf.
  destruct (startOutbounds_loop lc outbounds (sc_events s) Htags fuel (MkRound ∅ false s) [])
    as (s' & res & E & (order & H1 & H2 & H3 & H4) & H5 & H6).
  - split; cbn; [set_solver|set_solver|constructor| |by rewrite app_nil_r|done].
    intros l1 o l2 El. by destruct l1.
  - cbn. lia.
  - exists s', res, order. cbn in E. done.
Qed.

(** A chain of two outbounds given in the wrong order, and components that start. *)
Definition chain_base : Outbound := MkOutbound 1 "vless" "base" [] true false.
Definition chain_top : Outbound := MkOutbound 2 "vless" "top" ["base"%string] true false.
Definition start_quiet : Lifecycles := MkLifecycles (λ _ _, None) (λ _, None) (λ _, None).

Lemma startOutbounds_order_witness :
  startOutbounds 4 start_quiet [chain_top; chain_base] ∅ NewScope =
    Some (MkScope false [chain_base; chain_top]
            [Started chain_base StartStateStart; Started chain_top StartStateStart], Ok tt) ∧
  ∃ s' res order,
    startOutbounds 4 start_quiet [chain_top; chain_base] ∅ NewScope = Some (s', res) ∧
    sc_events s' = sc_events NewScope ++ (order ≫= start_event) ∧
    order ⊆+ [chain_top; chain_base] ∧ ordered order ∧
    (res = Ok tt → order ≡ₚ [chain_top; chain_base]) ∧ (∀ message, res ≠ Panic message) ∧
    (starts_fine start_quiet → res = Ok tt ↔
       ∀ o, o ∈ [chain_top; chain_base] → startable [chain_top; chain_base] (ob_Tag o)).
Proof.
  split; [vm_compute; reflexivity|].
  apply (startOutbounds_order 4 start_quiet [chain_top; chain_base] NewScope).
  - apply (bool_decide_unpack _). vm_compute. exact I.
  - reflexivity.
  - cbn. lia.
Defined.
