(* ===== verification/OutboundFacts.v ===== *)
(** * The manager of outbounds: what every operation keeps

    The indexes of the manager agree with its list, the index of dependents is the
    inverse of the dependencies, and no outbound loses a dependency. *)
From stdpp Require Import base list gmap strings.
From S2P Require Import Prelude OutboundManager.

(** No list of the index is empty. *)
Definition no_empty (D : gmap string (list string)) : Prop := ∀ d, D !! d ≠ Some [].

Record mgr_wf (ep : EndpointManager) (m : Manager) : Prop := {
  w_tags : NoDup (ob_Tag <$> m_outbounds m);
  w_ids : NoDup (ob_id <$> m_outbounds m);
  w_byTag : ∀ tag o, m_outboundByTag m !! tag = Some o ↔ o ∈ m_outbounds m ∧ ob_Tag o = tag;
  w_depends : ∀ tag d, tag ∈ dependBy (m_dependByTag m) d ↔
    ∃ o, o ∈ m_outbounds m ∧ ob_Tag o = tag ∧ d ∈ ob_Dependencies o;
  w_nonempty : no_empty (m_dependByTag m);
  w_default : ∀ d, m_defaultOutbound m = Some d →
    d ∈ m_outbounds m ∨ ep_Get ep (m_defaultTag m) = Some d;
  w_some_default : m_defaultTag m = ""%string → m_defaultOutbound m = None → m_outbounds m = [];
}.

(** Every dependency of an outbound is an outbound or an endpoint. *)
Definition resolved (ep : EndpointManager) (m : Manager) : Prop :=
  ∀ o d, o ∈ m_outbounds m → d ∈ ob_Dependencies o → is_Some (Manager_Outbound ep m d).

(** A change of the manager that takes no dependency away: what is in it afterwards finds a
    dependency, if it was not there before or found it then. *)
Definition keeps_deps (ep : EndpointManager) (m m' : Manager) : Prop :=
  ∀ o d, o ∈ m_outbounds m' → d ∈ ob_Dependencies o →
    (o ∈ m_outbounds m → is_Some (Manager_Outbound ep m d)) → is_Some (Manager_Outbound ep m' d).

(** ** The index of dependents *)

Lemma drop_dependent_spec tag dep D t d :
  t ∈ dependBy (drop_dependent tag dep D) d ↔ t ∈ dependBy D d ∧ ¬ (t = tag ∧ d = dep).
Proof.
  unfold drop_dependent. set (l := filter _ _).
  assert (Hl : ∀ t, t ∈ l ↔ t ∈ dependBy D dep ∧ t ≠ tag).
  { intros u. unfold l. rewrite list_elem_of_filter. tauto. }
  destruct (decide (d = dep)) as [->|Hd].
  - transitivity (t ∈ l); [|rewrite Hl; naive_solver].
    unfold dependBy. destruct l; [by rewrite lookup_delete_eq|by rewrite lookup_insert_eq].
  - unfold dependBy. destruct l; [rewrite lookup_delete_ne by done|rewrite lookup_insert_ne by done];
      naive_solver.
Qed.

Lemma drop_dependent_no_empty tag dep D : no_empty D → no_empty (drop_dependent tag dep D).
Proof.
  intros HD d. unfold drop_dependent. destruct (filter _ _) eqn:E.
  - rewrite lookup_delete_Some. intros [_ H]. by eapply HD.
  - rewrite lookup_insert_Some. intros [[_ ?]|[_ H]]; [done|by eapply HD].
Qed.

Lemma drop_all_spec tag deps D t d :
  t ∈ dependBy (fold_left (λ D dep, drop_dependent tag dep D) deps D) d ↔
  t ∈ dependBy D d ∧ ¬ (t = tag ∧ d ∈ deps).
Proof.
  revert D. induction deps as [|dep deps IH]; intros D; cbn; [set_solver|].
  rewrite IH, drop_dependent_spec. set_solver.
Qed.

Lemma drop_all_no_empty tag deps D :
  no_empty D → no_empty (fold_left (λ D dep, drop_dependent tag dep D) deps D).
Proof.
  revert D. induction deps as [|dep deps IH]; intros D HD; cbn; [done|].
  by apply IH, drop_dependent_no_empty.
Qed.

Lemma addDependencies_spec o tag D t d :
  t ∈ dependBy (addDependencies o tag D) d ↔
  t ∈ dependBy D d ∨ (t = tag ∧ d ∈ ob_Dependencies o).
Proof.
  unfold addDependencies. generalize (ob_Dependencies o). intros deps.
  revert D. induction deps as [|dep deps IH]; intros D; cbn; [set_solver|].
  rewrite IH. unfold dependBy. destruct (decide (d = dep)) as [->|Hd].
  - rewrite lookup_insert_eq. cbn. set_solver.
  - rewrite lookup_insert_ne by done. set_solver.
Qed.

Lemma addDependencies_no_empty o tag D : no_empty D → no_empty (addDependencies o tag D).
Proof.
  unfold addDependencies. generalize (ob_Dependencies o). intros deps.
  revert D. induction deps as [|dep deps IH]; intros D HD; cbn; [done|].
  apply IH. intros d. rewrite lookup_insert_Some. intros [[_ H]|[_ H]]; [|by eapply HD].
  by apply app_eq_nil in H as [_ ?].
Qed.

(** ** Lists of outbounds *)

Lemma same_true o o' : same o o' = true ↔ ob_id o = ob_id o'.
Proof. apply Pos.eqb_eq. Qed.

Lemma fmap_NoDup_inj {A B} (f : A → B) l x y :
  NoDup (f <$> l) → x ∈ l → y ∈ l → f x = f y → x = y.
Proof.
  intros Hl [i Hi]%list_elem_of_lookup [j Hj]%list_elem_of_lookup E.
  assert (i = j) as ->; [|by rewrite Hi in Hj; injection Hj].
  eapply NoDup_lookup; [done| |]; rewrite list_lookup_fmap; [by rewrite Hi|by rewrite Hj, E].
Qed.

Lemma without_spec l o o' :
  NoDup (ob_id <$> l) → o ∈ l → o' ∈ without o l ↔ o' ∈ l ∧ o' ≠ o.
Proof.
  intros Hl Ho. unfold without. rewrite list_elem_of_filter, <- not_true_iff_false, same_true.
  split; intros [H1 H2]; split; try done; [congruence|].
  intros E. apply H2. by eapply (fmap_NoDup_inj ob_id).
Qed.

Lemma without_NoDup {B} (f : Outbound → B) l o : NoDup (f <$> l) → NoDup (f <$> without o l).
Proof. intros H. eapply sublist_NoDup; [done|apply fmap_sublist, sublist_filter]. Qed.

(** The state after an operation that changes the list and the indexes alike. *)
Lemma wf_byTag_lookup ep m tag : mgr_wf ep m →
  m_outboundByTag m !! tag = None ↔ tag ∉ ob_Tag <$> m_outbounds m.
Proof.
  intros Hm. split.
  - intros Hn (o & -> & Ho)%list_elem_of_fmap.
    assert (H := proj2 (w_byTag _ _ Hm (ob_Tag o) o)). rewrite H in Hn; done.
  - intros Hn. destruct (m_outboundByTag m !! tag) as [o|] eqn:E; [|done].
    apply (w_byTag _ _ Hm) in E as [Ho <-]. destruct Hn. by apply list_elem_of_fmap_2.
Qed.

Lemma Manager_Outbound_some ep m d :
  is_Some (Manager_Outbound ep m d) ↔ is_Some (m_outboundByTag m !! d) ∨ is_Some (ep_Get ep d).
Proof.
  unfold Manager_Outbound. destruct (m_outboundByTag m !! d); split; [by left|done|by right|].
  intros [[? ?]|?]; done.
Qed.

(** ** Remove *)

Definition removed_state (tag : string) (o : Outbound) (m : Manager) : Manager :=
  MkManager (m_defaultTag m) (m_scope m) (m_stage m) (without o (m_outbounds m))
    (delete tag (m_outboundByTag m)) (removeDependencies o (m_dependByTag m))
    (match m_defaultOutbound m with
     | Some d => if same d o then head (without o (m_outbounds m)) else Some d
     | None => None
     end).

Lemma Manager_Remove_inv lc tag m m' err :
  Manager_Remove lc tag m = (m', err) →
  m' = m ∨ ∃ o s, m_outboundByTag m !! tag = Some o ∧ dependBy (m_dependByTag m) tag = [] ∧
    (m' = removed_state tag o m ∨ m' = mset_scope s (removed_state tag o m)).
Proof.
  unfold Manager_Remove, removed_state. destruct (m_outboundByTag m !! tag) as [o|]; [|naive_solver].
  destruct (dependBy _ tag); [|naive_solver].
  destruct (m_scope m) as [s|]; [destruct (ob_isLifecycle o)|]; intros E; right; exists o.
  - destruct (Scope_Remove lc o s) as [s' e]. exists s'. naive_solver.
  - exists s. naive_solver.
  - exists NewScope. naive_solver.
Qed.

Lemma mset_scope_wf ep s m : mgr_wf ep m → mgr_wf ep (mset_scope s m).
Proof. intros []. by split. Qed.

Lemma removed_wf ep tag o m :
  mgr_wf ep m → m_outboundByTag m !! tag = Some o → mgr_wf ep (removed_state tag o m).
Proof.
  intros Hm E. assert (Ho := E). apply (w_byTag _ _ Hm) in Ho as [Ho Ht].
  assert (Hw := λ o', without_spec _ o o' (w_ids _ _ Hm) Ho).
  assert (Htag : ∀ o', o' ∈ m_outbounds m → ob_Tag o' = tag → o' = o).
  { intros o' Ho' Ht'. eapply (fmap_NoDup_inj ob_Tag); [apply Hm|done..|congruence]. }
  split; cbn.
  - apply without_NoDup, Hm.
  - apply without_NoDup, Hm.
  - intros t o'. rewrite lookup_delete_Some, (w_byTag _ _ Hm), Hw. naive_solver.
  - intros t d. unfold removeDependencies. rewrite drop_all_spec, (w_depends _ _ Hm). split.
    + intros [(o' & Ho' & <- & Hd) Hn]. exists o'. rewrite Hw. naive_solver.
    + intros (o' & [Ho' Hne]%Hw & <- & Hd). naive_solver.
  - apply drop_all_no_empty, (w_nonempty _ _ Hm).
  - intros d. destruct (m_defaultOutbound m) as [d0|] eqn:Ed; [|done].
    destruct (same d0 o) eqn:Es.
    + intros Hh. left. destruct (without o (m_outbounds m)); [done|]. injection Hh as ->. by left.
    + intros [= <-]. destruct (w_default _ _ Hm d0 Ed) as [Hd|Hd]; [|by right].
      left. apply Hw. split; [done|]. intros ->. by rewrite (proj2 (same_true o o)) in Es.
  - intros Hdt. destruct (m_defaultOutbound m) as [d0|] eqn:Ed.
    + destruct (same d0 o); [|done]. by destruct (without o (m_outbounds m)).
    + intros _. unfold without. by rewrite (w_some_default _ _ Hm Hdt Ed).
Qed.

Lemma removed_keeps ep tag o m :
  mgr_wf ep m → m_outboundByTag m !! tag = Some o → dependBy (m_dependByTag m) tag = [] →
  keeps_deps ep m (removed_state tag o m).
Proof.
  intros Hm E Hn o' d Ho' Hd Hr. cbn in Ho'. apply list_elem_of_filter in Ho' as [_ Ho'].
  specialize (Hr Ho'). rewrite Manager_Outbound_some in *. cbn.
  destruct (decide (d = tag)) as [->|Hne]; [|by rewrite lookup_delete_ne].
  assert (Hx : ob_Tag o' ∈ dependBy (m_dependByTag m) tag) by (apply (w_depends _ _ Hm); eauto).
  rewrite Hn in Hx. by apply elem_of_nil in Hx.
Qed.

(** ** Create *)

Definition fresh_in (o : Outbound) (m : Manager) : Prop := ob_id o ∉ ob_id <$> m_outbounds m.

(** What [Create_publish] leaves of the list and of the index of dependents when the
    tag is replaced. *)
Definition kept (tag : string) (m : Manager) : list Outbound :=
  match m_outboundByTag m !! tag with
  | Some e => without e (m_outbounds m)
  | None => m_outbounds m
  end.
Definition dependents_kept (tag : string) (m : Manager) : gmap string (list string) :=
  match m_outboundByTag m !! tag with
  | Some e => removeDependencies e (m_dependByTag m)
  | None => m_dependByTag m
  end.

Section publish.
Context (ep : EndpointManager) (m : Manager) (Hm : mgr_wf ep m).

Lemma byTag_unique tag o o' :
  m_outboundByTag m !! tag = Some o → o' ∈ m_outbounds m → ob_Tag o' = tag → o' = o.
Proof.
  intros [Ho Ht]%(w_byTag _ _ Hm) Ho' Ht'. eapply (fmap_NoDup_inj ob_Tag); [apply Hm|done..|congruence].
Qed.

Lemma kept_spec tag o : o ∈ kept tag m ↔ o ∈ m_outbounds m ∧ ob_Tag o ≠ tag.
Proof.
  unfold kept. destruct (m_outboundByTag m !! tag) as [e|] eqn:E.
  - assert (He := E). apply (w_byTag _ _ Hm) in He as [He Het].
    rewrite (without_spec _ _ _ (w_ids _ _ Hm) He). split; intros [H1 H2]; split; try done.
    + intros Hx. apply H2. by eapply byTag_unique.
    + congruence.
  - rewrite (wf_byTag_lookup _ _ _ Hm) in E. split; [|naive_solver]. intros Ho. split; [done|].
    intros <-. apply E. by apply list_elem_of_fmap_2.
Qed.

Lemma kept_sublist tag : kept tag m `sublist_of` m_outbounds m.
Proof. unfold kept. destruct (m_outboundByTag m !! tag); [apply sublist_filter|done]. Qed.

Lemma dependents_kept_spec tag t d :
  t ∈ dependBy (dependents_kept tag m) d ↔ t ∈ dependBy (m_dependByTag m) d ∧ t ≠ tag.
Proof.
  unfold dependents_kept. destruct (m_outboundByTag m !! tag) as [e|] eqn:E.
  - assert (He := E). apply (w_byTag _ _ Hm) in He as [He Het]. unfold removeDependencies.
    rewrite drop_all_spec, Het. split; intros [H1 H2]; split; try done; [|naive_solver].
    intros ->. apply H2. split; [done|]. apply (w_depends _ _ Hm) in H1 as (e' & He' & Ht' & Hd).
    by rewrite <- (byTag_unique _ _ _ E He' Ht').
  - split; [|naive_solver]. intros H1. split; [done|]. intros ->.
    apply (w_depends _ _ Hm) in H1 as (e & He & Het & _).
    rewrite (wf_byTag_lookup _ _ _ Hm) in E. apply E. rewrite <- Het. by apply list_elem_of_fmap_2.
Qed.

Lemma dependents_kept_no_empty tag : no_empty (dependents_kept tag m).
Proof.
  unfold dependents_kept. destruct (m_outboundByTag m !! tag); [apply drop_all_no_empty|]; apply (w_nonempty _ _ Hm).
Qed.

(** The three new indexes of a list with one outbound more. *)
Lemma snoc_NoDup {B} (f : Outbound → B) tag o :
  NoDup (f <$> m_outbounds m) → (∀ o', o' ∈ kept tag m → f o' ≠ f o) →
  NoDup (f <$> kept tag m ++ [o]).
Proof.
  intros Hn Hf. rewrite fmap_app. apply NoDup_app.
  split; [eapply sublist_NoDup; [done|apply fmap_sublist, kept_sublist]|].
  split; [|apply NoDup_singleton]. intros t (o' & -> & Ho')%list_elem_of_fmap.
  intros Hx%list_elem_of_singleton. by apply (Hf o').
Qed.

Lemma published_wf tag o :
  ob_Tag o = tag → fresh_in o m → mgr_wf ep (Create_publish tag o m).
Proof.
  intros Ht Hf. unfold Create_publish. fold (kept tag m) (dependents_kept tag m).
  match goal with |- mgr_wf _ (MkManager _ _ _ _ _ _ ?d) => set (default_ := d) end.
  split; cbn [m_outbounds m_outboundByTag m_dependByTag m_defaultOutbound m_defaultTag].
  - apply snoc_NoDup; [apply Hm|]. intros o' [_ Hne]%kept_spec. congruence.
  - apply snoc_NoDup; [apply Hm|]. intros o' [Ho' _]%kept_spec E. apply Hf. rewrite <- E.
    by apply list_elem_of_fmap_2.
  - intros t o'. rewrite lookup_insert_Some, elem_of_app, list_elem_of_singleton, kept_spec,
      (w_byTag _ _ Hm). naive_solver.
  - intros t d. rewrite addDependencies_spec, dependents_kept_spec, (w_depends _ _ Hm).
    split.
    + intros [[(o' & Ho' & <- & Hd) Hn]|[-> Hd]]; [exists o'|exists o];
        rewrite elem_of_app, list_elem_of_singleton, kept_spec; auto.
    + intros (o' & [[Ho' Hn]%kept_spec| ->%list_elem_of_singleton]%elem_of_app & <- & Hd); eauto 6.
  - apply addDependencies_no_empty, dependents_kept_no_empty.
  - intros d. unfold default_. destruct (_ || _) eqn:Eb.
    + intros [= <-]. left. set_solver.
    + intros Hd. destruct (w_default _ _ Hm d Hd) as [Hin|]; [|by right].
      left. apply elem_of_app. left. apply kept_spec. split; [done|]. intros Hx.
      assert (E : m_outboundByTag m !! tag = Some d) by (by apply (w_byTag _ _ Hm)).
      rewrite E, Hd, (proj2 (same_true d d)), orb_true_r in Eb; done.
  - intros Hdt Hd. unfold default_ in Hd. rewrite Hdt in Hd.
    destruct (m_defaultOutbound m) eqn:Ed; [by repeat case_match|].
    rewrite (bool_decide_true (None = None)) in Hd by done. cbn in Hd. by rewrite orb_true_r in Hd.
Qed.

Lemma published_found tag o o' d :
  o' ∈ m_outbounds (Create_publish tag o m) → (o' ∈ m_outbounds m ∨ o' = o → is_Some (Manager_Outbound ep m d)) →
  is_Some (Manager_Outbound ep (Create_publish tag o m) d).
Proof.
  intros Ho' Hr. cbn in Ho'. fold (kept tag m) in Ho'.
  assert (Hx : is_Some (Manager_Outbound ep m d)).
  { apply elem_of_app in Ho' as [[Ho' _]%kept_spec|Ho'%list_elem_of_singleton]; subst; auto. }
  rewrite Manager_Outbound_some in *. cbn. destruct (decide (d = tag)) as [->|Hne].
  - left. by rewrite lookup_insert_eq.
  - by rewrite lookup_insert_ne.
Qed.
End publish.

Lemma Manager_Create_inv lc created tag m m' r :
  Manager_Create lc created tag m = (m', r) →
  ∃ m0, (m0 = m ∨ ∃ s, m0 = mset_scope s m) ∧
    (m' = m0 ∨ ∃ o s, created = Ok o ∧
      (m' = Create_publish tag o m0 ∨ m' = mset_scope s (Create_publish tag o m0))).
Proof.
  unfold Manager_Create. destruct (negb _); [naive_solver|].
  destruct created as [o|e|e]; [|naive_solver..].
  set (p := match m_scope m with Some s => _ | None => _ end).
  assert (Hp : p.1 = m ∨ ∃ s, p.1 = mset_scope s m).
  { unfold p. destruct (m_scope m) as [s|]; [|by left]. destruct (ob_isLifecycle o); [|by left].
    destruct (start_stages _ _ _ _) as [s1 [e|]]; [|right; by eexists].
    destruct (Scope_Remove lc o s1). right. by eexists. }
  destruct p as [m0 [e|]]; cbn in Hp; intros E; exists m0; (split; [done|]).
  - injection E as <- <-. by left.
  - right. exists o. destruct (m_outboundByTag m0 !! tag) as [e|], (m_scope m0) as [s|];
      [destruct (ob_isLifecycle e);
         [destruct (Scope_Remove lc e s) as [s' [e'|]]; exists s'|exists s]|exists NewScope..];
      naive_solver.
Qed.
