(* ===== verification/OutboundSwap.v ===== *)
(** * Replacing a batch of outbounds: SwapBatch

    [SwapBatch] takes outbounds out and puts others in at once. Here: what its checks
    establish, what the lists and indexes are afterwards, and over every sequence of
    operations of the manager: the indexes stay consistent and no outbound loses a
    dependency. *)
From stdpp Require Import base list gmap strings.
From S2P Require Import Prelude OutboundManager OutboundFacts.

(** ** The checks *)

Lemma swap_expected_None byTag expected :
  swap_expected byTag expected = None →
  ∀ tag e, (tag, e) ∈ expected → ∃ current, byTag !! tag = Some current ∧ same current e = true.
Proof.
  induction expected as [|[tag e] expected IH]; cbn; intros H t e' He; [by apply elem_of_nil in He|].
  destruct (byTag !! tag) as [current|] eqn:E; [|done]. destruct (same current e) eqn:Es; [|done].
  apply elem_of_cons in He as [[= -> ->]|He]; eauto.
Qed.

Lemma swap_candidates_inr byTag R seen cs M :
  swap_candidates byTag R seen cs = inr M →
  NoDup (ob_Tag <$> cs) ∧
  (∀ c, c ∈ cs → seen !! ob_Tag c = None ∧ (is_Some (byTag !! ob_Tag c) → R !! ob_Tag c ≠ None)) ∧
  (∀ t c, M !! t = Some c ↔ seen !! t = Some c ∨ (c ∈ cs ∧ ob_Tag c = t)).
Proof.
  revert seen. induction cs as [|c cs IH]; intros seen; cbn [swap_candidates].
  { intros [= <-]. split; [constructor|]. split; intros; set_solver. }
  destruct (negb _ || _) eqn:E1; [done|]. destruct (_ && _) eqn:E2; [done|].
  apply orb_false_iff in E1 as [_ E1]. apply bool_decide_eq_false in E1.
  apply eq_None_not_Some in E1. intros (H1 & H2 & H3)%IH.
  assert (Hc : is_Some (byTag !! ob_Tag c) → R !! ob_Tag c ≠ None).
  { intros Hs Hn. by rewrite !bool_decide_true in E2. }
  split; [|split].
  - cbn. constructor; [|done]. intros (c' & E & Hc')%list_elem_of_fmap.
    apply H2 in Hc' as [Hn _]. by rewrite <- E, lookup_insert_eq in Hn.
  - intros c' [ -> |Hc']%elem_of_cons; [done|]. destruct (H2 c' Hc') as [Hn Hs]. split; [|done].
    by apply lookup_insert_None in Hn as [? _].
  - intros t c'. rewrite H3, lookup_insert_Some, elem_of_cons. split.
    + naive_solver.
    + intros [Hs|[[ -> |Hc'] <-]]; [|tauto|tauto].
      left. right. split; [|done]. intros <-. by rewrite E1 in Hs.
Qed.

Lemma swap_dependents_None D R tags :
  swap_dependents D R tags = None → ∀ tag t, tag ∈ tags → t ∈ dependBy D tag → R !! t ≠ None.
Proof.
  induction tags as [|tag tags IH]; cbn; intros H t u Ht; [by apply elem_of_nil in Ht|].
  destruct (filter _ _) eqn:E; [|done]. apply elem_of_cons in Ht as [ -> |Ht]; [|by eauto].
  intros Hu Hn. apply (elem_of_nil u). rewrite <- E. by apply list_elem_of_filter.
Qed.

Lemma swap_unresolved_None ep byTag R M cs :
  swap_unresolved (Some ep) byTag R M cs = None → ∀ c d, c ∈ cs → d ∈ ob_Dependencies c →
  is_Some (M !! d) ∨ (is_Some (byTag !! d) ∧ R !! d = None) ∨ is_Some (ep_Get ep d).
Proof.
  unfold swap_unresolved. destruct (filter _ _) eqn:E; [|done]. intros _ c d Hc Hd.
  destruct (swap_resolves (Some ep) byTag R M d) eqn:Er.
  - unfold swap_resolves in Er. rewrite !orb_true_iff, andb_true_iff, !bool_decide_eq_true in Er. tauto.
  - destruct (not_elem_of_nil d). rewrite <- E. apply list_elem_of_filter. split; [done|].
    apply list_elem_of_bind. eauto.
Qed.

(** ** The positions *)

Lemma swap_positions_spec R rem l l' rem' :
  NoDup (ob_Tag <$> l) → (∀ t c, rem !! t = Some c → ob_Tag c = t) →
  swap_positions R rem l = (l', rem') →
  (∀ o, o ∈ l' ↔ (o ∈ l ∧ R !! ob_Tag o = None) ∨
     (∃ o0, o0 ∈ l ∧ R !! ob_Tag o0 ≠ None ∧ rem !! ob_Tag o0 = Some o)) ∧
  (∀ t, rem' !! t = if bool_decide (t ∈ ob_Tag <$> l ∧ R !! t ≠ None) then None else rem !! t) ∧
  (ob_Tag <$> l') `sublist_of` (ob_Tag <$> l).
Proof.
  revert rem l' rem'. induction l as [|x l IH]; intros rem l' rem' Hn Hk; cbn [swap_positions].
  { intros [= <- <-]. split; [set_solver|]. split; [|done]. intros t.
    rewrite bool_decide_false; [done|set_solver]. }
  cbn in Hn. apply NoDup_cons in Hn as [Hx Hn].
  assert (Hxl : ∀ o, o ∈ l → ob_Tag o ≠ ob_Tag x).
  { intros o Ho E. apply Hx. rewrite <- E. by apply list_elem_of_fmap_2. }
  case_bool_decide as HR.
  - destruct (swap_positions R rem l) as [k rem1] eqn:E. intros [= <- <-].
    apply IH in E as (H1 & H2 & H3); [|done..]. split; [|split].
    + intros o. rewrite elem_of_cons, H1. set_solver.
    + intros t. rewrite H2. do 2 case_bool_decide; set_solver.
    + cbn. by constructor.
  - destruct (rem !! ob_Tag x) as [c|] eqn:Er.
    + destruct (swap_positions R (delete (ob_Tag x) rem) l) as [k rem1] eqn:E. intros [= <- <-].
      apply IH in E as (H1 & H2 & H3); [|done|intros t c' [_ Hc]%lookup_delete_Some; by apply Hk].
      split; [|split].
      * intros o. rewrite elem_of_cons, H1. setoid_rewrite lookup_delete_Some. set_solver.
      * intros t. rewrite H2. do 2 case_bool_decide; [done|set_solver| |].
        -- apply lookup_delete_None. set_solver.
        -- apply lookup_delete_ne. set_solver.
      * cbn. rewrite (Hk _ _ Er). by constructor.
    + intros E. apply IH in E as (H1 & H2 & H3); [|done..]. split; [|split].
      * intros o. rewrite H1. set_solver.
      * intros t. rewrite H2. do 2 case_bool_decide; [done|set_solver| |done].
        destruct (decide (t = ob_Tag x)) as [ -> |]; [done|set_solver].
      * cbn. by constructor.
Qed.

(** ** The indexes *)

Lemma fold_delete_lookup (l : list (string * Outbound)) (M : gmap string Outbound) t :
  fold_left (λ byTag '(tag, _), delete tag byTag) l M !! t =
  if bool_decide (t ∈ l.*1) then None else M !! t.
Proof.
  revert M. induction l as [|[u o] l IH]; intros M; cbn; [done|].
  rewrite IH. do 2 case_bool_decide; [done|set_solver| |].
  - apply lookup_delete_None. set_solver.
  - apply lookup_delete_ne. set_solver.
Qed.

Lemma fold_insert_lookup cs (M : gmap string Outbound) t o :
  NoDup (ob_Tag <$> cs) →
  fold_left (λ byTag c, <[ob_Tag c := c]> byTag) cs M !! t = Some o ↔
  (o ∈ cs ∧ ob_Tag o = t) ∨ (t ∉ ob_Tag <$> cs ∧ M !! t = Some o).
Proof.
  revert M. induction cs as [|c cs IH]; intros M Hn; cbn; [set_solver|].
  apply NoDup_cons in Hn as [Hc Hn]. rewrite IH by done. rewrite lookup_insert_Some.
  assert (Ho : ∀ o, o ∈ cs → ob_Tag o ∈ ob_Tag <$> cs) by (intros; by apply list_elem_of_fmap_2).
  rewrite !elem_of_cons. naive_solver.
Qed.

Lemma swap_remove_spec l D t d :
  t ∈ dependBy (swap_remove l D) d ↔
  t ∈ dependBy D d ∧ ¬ ∃ o, (t, o) ∈ l ∧ d ∈ ob_Dependencies o.
Proof.
  unfold swap_remove. revert D. induction l as [|[u o] l IH]; intros D; cbn; [set_solver|].
  rewrite IH, drop_all_spec. setoid_rewrite elem_of_cons. naive_solver.
Qed.

Lemma swap_remove_no_empty l D : no_empty D → no_empty (swap_remove l D).
Proof.
  unfold swap_remove. revert D. induction l as [|[u o] l IH]; intros D HD; cbn; [done|].
  by apply IH, drop_all_no_empty.
Qed.

Lemma swap_add_spec cs D t d :
  t ∈ dependBy (fold_left (λ D c, addDependencies c (ob_Tag c) D) cs D) d ↔
  t ∈ dependBy D d ∨ ∃ c, c ∈ cs ∧ ob_Tag c = t ∧ d ∈ ob_Dependencies c.
Proof.
  revert D. induction cs as [|c cs IH]; intros D; cbn; [set_solver|].
  rewrite IH, addDependencies_spec. setoid_rewrite elem_of_cons. naive_solver.
Qed.

Lemma swap_add_no_empty cs D :
  no_empty D → no_empty (fold_left (λ D c, addDependencies c (ob_Tag c) D) cs D).
Proof.
  revert D. induction cs as [|c cs IH]; intros D HD; cbn; [done|].
  by apply IH, addDependencies_no_empty.
Qed.

Section publish.
Context (order : MapRange) (ep : EndpointManager) (m : Manager) (Hm : mgr_wf ep m).
Context (R M : gmap string Outbound) (cs : list Outbound).
Context (HR : ∀ t o, R !! t = Some o → m_outboundByTag m !! t = Some o).
Context (HM : ∀ t c, M !! t = Some c ↔ c ∈ cs ∧ ob_Tag c = t).
Context (Htags : NoDup (ob_Tag <$> cs)).
Context (Hids : NoDup (ob_id <$> m_outbounds m ++ cs)).
Context (Hnew : ∀ c, c ∈ cs → is_Some (m_outboundByTag m !! ob_Tag c) → R !! ob_Tag c ≠ None).

Lemma visit_elem t o : (t, o) ∈ visit order R ↔ R !! t = Some o.
Proof. rewrite visit_perm. apply elem_of_map_to_list. Qed.

Lemma visit_keys t : t ∈ (visit order R).*1 ↔ R !! t ≠ None.
Proof.
  rewrite list_elem_of_fmap. split.
  - intros ([u o] & -> & Hx%visit_elem). cbn. by rewrite Hx.
  - intros Hn. destruct (R !! t) as [o|] eqn:E; [|done]. exists (t, o). split; [done|]. by apply visit_elem.
Qed.

Let m' := swap_publish order R M cs m.

Lemma swap_outbounds_spec :
  (∀ o, o ∈ m_outbounds m' ↔ (o ∈ m_outbounds m ∧ R !! ob_Tag o = None) ∨ o ∈ cs) ∧
  NoDup (ob_Tag <$> m_outbounds m').
Proof.
  unfold m', swap_publish. destruct (swap_positions R M (m_outbounds m)) as [l rem] eqn:E. cbn.
  apply swap_positions_spec in E as (H1 & H2 & H3); [|apply Hm|intros t c Hc; by apply HM in Hc as [_ ?]].
  assert (Hrem : ∀ c, c ∈ cs → is_Some (rem !! ob_Tag c) ↔ R !! ob_Tag c = None).
  { intros c Hc. rewrite H2. assert (Ec : M !! ob_Tag c = Some c) by (by apply HM). rewrite Ec.
    case_bool_decide as Hb; [split; [intros [? ?]; done|tauto]|]. split; [|done]. intros _.
    destruct (R !! ob_Tag c) as [o|] eqn:Eo; [|done]. destruct Hb. split; [|done].
    apply HR, (w_byTag _ _ Hm) in Eo as [Ho <-]. by apply list_elem_of_fmap_2. }
  split.
  - intros o. rewrite elem_of_app, list_elem_of_filter, H1. split.
    + intros [[?|(o0 & Ho0 & HR0 & [Hc _]%HM)]|[_ Hc]]; auto.
    + intros [?|Hc]; [by auto|]. destruct (R !! ob_Tag o) as [o0|] eqn:Eo.
      * left. right. exists o0. assert (E0 := Eo). apply HR, (w_byTag _ _ Hm) in E0 as [Ho0 E0].
        rewrite E0, Eo. split; [done|]. split; [done|]. by apply HM.
      * right. split; [by apply Hrem|done].
  - rewrite fmap_app. apply NoDup_app. split; [eapply sublist_NoDup; [apply Hm|done]|]. split.
    + intros t Ht (c & -> & [Hs Hc]%list_elem_of_filter)%list_elem_of_fmap.
      apply Hrem in Hs; [|done]. eapply sublist_subseteq in Ht; [|done].
      apply (Hnew c Hc); [|done]. apply list_elem_of_fmap in Ht as (o & Et & Ho).
      exists o. apply (w_byTag _ _ Hm). by rewrite Et.
    + eapply sublist_NoDup; [done|]. apply fmap_sublist, sublist_filter.
Qed.

Lemma swap_byTag_spec t o :
  m_outboundByTag m' !! t = Some o ↔
  (o ∈ cs ∧ ob_Tag o = t) ∨ (t ∉ ob_Tag <$> cs ∧ R !! t = None ∧ m_outboundByTag m !! t = Some o).
Proof.
  unfold m', swap_publish. destruct (swap_positions R M (m_outbounds m)) as [l rem]. cbn.
  rewrite fold_insert_lookup by done. rewrite fold_delete_lookup.
  case_bool_decide as Hv; rewrite visit_keys in Hv; [naive_solver|].
  destruct (R !! t); naive_solver.
Qed.

Lemma swap_depends_spec t d :
  t ∈ dependBy (m_dependByTag m') d ↔ ∃ o, o ∈ m_outbounds m' ∧ ob_Tag o = t ∧ d ∈ ob_Dependencies o.
Proof.
  transitivity ((∃ o, ((o ∈ m_outbounds m ∧ R !! ob_Tag o = None) ∨ o ∈ cs) ∧ ob_Tag o = t ∧
    d ∈ ob_Dependencies o)).
  2:{ by setoid_rewrite (proj1 swap_outbounds_spec). }
  unfold m', swap_publish. destruct (swap_positions R M (m_outbounds m)) as [l rem]. cbn.
  rewrite swap_add_spec, swap_remove_spec, (w_depends _ _ Hm). setoid_rewrite visit_elem. split.
  - intros [[(o & Ho & <- & Hd) Hn]|(c & Hc & <- & Hd)]; [exists o|exists c]; [|by auto].
    split; [|done]. left. split; [done|]. destruct (R !! ob_Tag o) as [o'|] eqn:E; [|done].
    destruct Hn. exists o'. split; [done|]. assert (E' := E). apply HR in E'.
    by rewrite <- (byTag_unique ep m Hm _ _ o E').
  - intros (o & [[Ho Hn]|Hc] & <- & Hd); [left|right; eauto].
    split; [eauto|]. intros (o' & E & _). by rewrite E in Hn.
Qed.

Lemma swapped_wf : mgr_wf ep m'.
Proof.
  destruct swap_outbounds_spec as [Hin Hnd].
  split.
  - done.
  - apply NoDup_fmap_2_strong; [|by eapply NoDup_fmap_1].
    intros o o' Ho Ho' E. apply (fmap_NoDup_inj ob_id (m_outbounds m ++ cs)); [done| | |done];
      apply elem_of_app; [apply Hin in Ho|apply Hin in Ho']; tauto.
  - intros t o. rewrite swap_byTag_spec, Hin, (w_byTag _ _ Hm). split.
    + intros [?|(_ & HRt & Ho & <-)]; tauto.
    + intros [[[Ho HRo]|Hc] <-]; [|by left]. right. split; [|done].
      intros (c & Et & Hc)%list_elem_of_fmap. apply (Hnew c Hc); [|by rewrite <- Et].
      exists o. by apply (w_byTag _ _ Hm).
  - apply swap_depends_spec.
  - unfold m', swap_publish. destruct (swap_positions R M (m_outbounds m)) as [l rem]. cbn.
    apply swap_add_no_empty, swap_remove_no_empty, Hm.
  - intros d. revert Hin. unfold m', swap_publish.
    destruct (swap_positions R M (m_outbounds m)) as [l rem]. cbn. intros Hin Hd.
    assert (Hcs : ∀ t c, M !! t = Some c → c ∈ l ++ filter (λ c, is_Some (rem !! ob_Tag c)) cs).
    { intros t c [Hc _]%HM. apply Hin. by right. }
    destruct (M !! m_defaultTag m) as [c|] eqn:Ec; [injection Hd as <-; left; eauto|].
    destruct (m_defaultOutbound m) as [d0|] eqn:E0.
    + case_bool_decide as HR0.
      * injection Hd as <-. destruct (w_default _ _ Hm d0 E0); [left; apply Hin; tauto|by right].
      * destruct (M !! ob_Tag d0) eqn:E1; [injection Hd as <-; left; eauto|].
        left. by apply head_Some_elem_of.
    + left. by apply head_Some_elem_of.
  - intros _. unfold m', swap_publish. destruct (swap_positions R M (m_outbounds m)) as [l rem]. cbn.
    intros Hd. repeat case_match; simplify_eq; by destruct (l ++ _).
Qed.
End publish.

(** ** SwapBatch as a whole *)

(** What a successful [SwapBatch] went by. *)
Record swapped (ep : EndpointManager) (old : gmap string Outbound) (cs : list Outbound)
    (m : Manager) (R M : gmap string Outbound) : Prop := {
  sw_removed : ∀ t o, R !! t = Some o ↔ is_Some (old !! t) ∧ m_outboundByTag m !! t = Some o;
  sw_candidate : ∀ t c, M !! t = Some c ↔ c ∈ cs ∧ ob_Tag c = t;
  sw_tags : NoDup (ob_Tag <$> cs);
  sw_new : ∀ c, c ∈ cs → is_Some (m_outboundByTag m !! ob_Tag c) → R !! ob_Tag c ≠ None;
  sw_dependents : ∀ tag t, R !! tag ≠ None → t ∈ dependBy (m_dependByTag m) tag → R !! t ≠ None;
  sw_resolved : ∀ c d, c ∈ cs → d ∈ ob_Dependencies c →
    is_Some (M !! d) ∨ (is_Some (m_outboundByTag m !! d) ∧ R !! d = None) ∨ is_Some (ep_Get ep d);
}.

Lemma SwapBatch_inv order ep old cs m m' r :
  SwapBatch order (Some ep) old cs m = (m', r) →
  (m' = m ∧ ∃ e, r = inl e) ∨
  ∃ R M, r = inr R ∧ m' = swap_publish order R M cs m ∧ swapped ep old cs m R M.
Proof.
  unfold SwapBatch.
  destruct (swap_expected _ _) eqn:E1; [intros [= <- <-]; eauto|].
  destruct (swap_candidates _ _ _ _) as [|M] eqn:E2; [intros [= <- <-]; eauto|].
  destruct (swap_dependents _ _ _) eqn:E3; [intros [= <- <-]; eauto|].
  destruct (swap_unresolved _ _ _ _ _) eqn:E4; [intros [= <- <-]; eauto|].
  intros [= <- <-]. right. eexists _, M. split; [done|]. split; [done|].
  set (R := map_imap _ _).
  assert (HR : ∀ t o, R !! t = Some o ↔ is_Some (old !! t) ∧ m_outboundByTag m !! t = Some o).
  { intros t o. unfold R. rewrite map_lookup_imap. destruct (old !! t); cbn; naive_solver. }
  assert (Hold : ∀ t, old !! t ≠ None ↔ R !! t ≠ None).
  { intros t. split; intros Hn.
    - destruct (old !! t) as [e|] eqn:Eo; [|done].
      destruct (swap_expected_None _ _ E1 t e) as (c & Hc & _); [by apply visit_elem|].
      rewrite (proj2 (HR t c)); naive_solver.
    - destruct (R !! t) as [o|] eqn:Eo; [|done]. apply HR in Eo as [[? ->] _]. done. }
  assert (HoldN : ∀ t, old !! t = None ↔ R !! t = None).
  { intros t. specialize (Hold t). destruct (old !! t), (R !! t); naive_solver. }
  apply swap_candidates_inr in E2 as (H1 & H2 & H3).
  split; [done| |done| | |].
  - intros t c. rewrite H3, lookup_empty. naive_solver.
  - intros c Hc Hs. apply Hold. by apply H2.
  - intros tag t Ht Hd. apply Hold. eapply swap_dependents_None; [done| |done].
    apply visit_keys. by apply Hold.
  - intros c d Hc Hd. rewrite <- HoldN. by eapply swap_unresolved_None.
Qed.

Lemma swapped_keeps order ep old cs m R M :
  mgr_wf ep m → swapped ep old cs m R M →
  NoDup (ob_id <$> m_outbounds m ++ cs) → keeps_deps ep m (swap_publish order R M cs m).
Proof.
  intros Hm [H1 H2 H3 H4 H5 H6] Hids o d Ho Hd Hr.
  assert (HR : ∀ t o, R !! t = Some o → m_outboundByTag m !! t = Some o) by (intros; by apply H1).
  apply (swap_outbounds_spec order ep m Hm R M cs HR H2 H3 H4) in Ho.
  rewrite Manager_Outbound_some.
  assert (Hby := λ t o, swap_byTag_spec order m R M cs H2 H3 t o).
  assert (Hcand : ∀ t, is_Some (M !! t) → is_Some (m_outboundByTag (swap_publish order R M cs m) !! t)).
  { intros t [c Hc]. exists c. apply Hby. left. by apply H2. }
  assert (Hstay : ∀ t, is_Some (m_outboundByTag m !! t) → R !! t = None →
            is_Some (m_outboundByTag (swap_publish order R M cs m) !! t)).
  { intros t [o' Ho'] Hn. destruct (M !! t) as [c|] eqn:Ec; [by apply Hcand; eexists|].
    exists o'. apply Hby. right. split; [|done].
    intros (c & -> & Hc)%list_elem_of_fmap. by rewrite (proj2 (H2 (ob_Tag c) c)) in Ec. }
  destruct Ho as [[Ho Hn]|Hc].
  - specialize (Hr Ho). rewrite Manager_Outbound_some in Hr.
    destruct Hr as [Hr|Hr]; [left|by right]. apply Hstay; [done|].
    destruct (R !! d) eqn:Ed; [|done]. exfalso. apply (H5 d (ob_Tag o)); [by rewrite Ed| |done].
    apply (w_depends _ _ Hm). eauto.
  - destruct (H6 o d Hc Hd) as [?|[[? ?]|?]]; auto.
Qed.

(** ** Every sequence of operations *)

(** An operation of the manager; [ok m o] holds of the outbounds that are created. The
    registry gives a new outbound of the tag it is asked for; the fallback outbound,
    direct, depends on nothing. *)
Inductive mgr_step (ep : EndpointManager) (ok : Manager → Outbound → Prop)
    : Manager → Manager → Prop :=
| step_Create lc created tag m m' r :
    (∀ o, created = Ok o → ob_Tag o = tag ∧ fresh_in o m ∧ ok m o) →
    Manager_Create lc created tag m = (m', r) → mgr_step ep ok m m'
| step_Remove lc tag m m' err :
    Manager_Remove lc tag m = (m', err) → mgr_step ep ok m m'
| step_SwapBatch order old candidates m m' r :
    NoDup (ob_id <$> m_outbounds m ++ candidates) →
    SwapBatch order (Some ep) old candidates m = (m', r) → mgr_step ep ok m m'
| step_Start fuel lc fallback stage scope m m' r :
    (∀ o, fallback = Ok o → ob_Dependencies o = []) →
    Manager_Start fuel lc ep fallback stage scope m = Some (m', r) → mgr_step ep ok m m'.

Definition mgr_reachable (ep : EndpointManager) (ok : Manager → Outbound → Prop)
    (defaultTag : string) : Manager → Prop :=
  rtc (mgr_step ep ok) (NewManager defaultTag).

Lemma start_default_spec ep fallback m m' r :
  mgr_wf ep m → (∀ o, fallback = Ok o → ob_Dependencies o = []) →
  start_default ep fallback m = (m', r) →
  mgr_wf ep m' ∧ keeps_deps ep m m'.
Proof.
  intros Hm Hf. unfold start_default.
  destruct (nonempty (m_defaultTag m)) eqn:Ed, (m_defaultOutbound m) as [d|] eqn:Eo; cbn;
    rewrite ?bool_decide_true by done; rewrite ?Eo; try (intros [= <- <-]; split; [done|]; intros ????; auto).
  { destruct (ep_Get ep (m_defaultTag m)) as [e|] eqn:Ee; [|intros [= <- <-]; split; [done|]; intros ????; auto].
    cbn. intros [= <- <-]. split; [|intros ????; auto]. destruct Hm. split; cbn; try done. intros d [= <-]. by right. }
  destruct fallback as [o|e|e]; [|intros [= <- <-]; split; [done|]; intros ????; auto..]. intros [= <- <-].
  assert (El : m_outbounds m = []).
  { apply (w_some_default _ _ Hm); [|done]. by destruct (m_defaultTag m). }
  assert (Hby : ∀ t, m_outboundByTag m !! t = None).
  { intros t. apply (wf_byTag_lookup _ _ _ Hm). rewrite El. apply not_elem_of_nil. }
  rewrite El. split.
  - split; cbn.
    + apply NoDup_singleton.
    + apply NoDup_singleton.
    + intros t o'. rewrite lookup_insert_Some, list_elem_of_singleton, Hby. naive_solver.
    + intros t d. rewrite (w_depends _ _ Hm), El.
      split; [intros (? & []%elem_of_nil & _)|].
      intros (o' & ->%list_elem_of_singleton & _ & Hd). by rewrite Hf in Hd; [apply elem_of_nil in Hd|].
    + apply Hm.
    + intros d [= <-]. left. by left.
    + done.
  - intros o' d. cbn. intros ->%list_elem_of_singleton Hd. rewrite Hf in Hd; [|done].
    by apply elem_of_nil in Hd.
Qed.

Lemma Manager_Start_spec fuel lc ep fallback stage scope m m' r :
  mgr_wf ep m → (∀ o, fallback = Ok o → ob_Dependencies o = []) →
  Manager_Start fuel lc ep fallback stage scope m = Some (m', r) →
  mgr_wf ep m' ∧ keeps_deps ep m m'.
Proof.
  intros Hm Hf. unfold Manager_Start. set (m0 := MkManager _ _ _ _ _ _ _).
  assert (Hm0 : mgr_wf ep m0) by (destruct Hm; by split).
  destruct (match stage with StartStateInitialize => _ | _ => _ end) as [m1 r1] eqn:E1.
  assert (H1 : mgr_wf ep m1 ∧ keeps_deps ep m m1).
  { destruct stage; try (injection E1 as <- <-; split; [done|]; intros ????; auto).
    apply start_default_spec in E1 as [? Hk]; [|done..]. by split. }
  destruct H1 as [H1 H2].
  destruct r1; [|by intros [= <- <-]..].
  destruct stage; [destruct (start_each _ _ _ _) as [s e]|
    destruct (startOutbounds _ _ _ _ _) as [[s e]|]; [|done]|
    destruct (start_each _ _ _ _) as [s e]..]; intros [= <- <-];
    (split; [by apply mset_scope_wf|exact H2]).
Qed.

Lemma mgr_step_wf ep ok m m' :
  mgr_step ep ok m m' → mgr_wf ep m → mgr_wf ep m'.
Proof.
  intros [lc created tag m1 m2 r Hc E|lc tag m1 m2 err E|order old cs m1 m2 r Hids E
    |fuel lc fallback stage scope m1 m2 r Hf E] Hm.
  - apply Manager_Create_inv in E as (m0 & Hm0 & E).
    assert (H0 : mgr_wf ep m0) by (destruct Hm0 as [ -> |[s ->]]; [done|by apply mset_scope_wf]).
    destruct E as [ -> |(o & s & -> & E)]; [done|]. destruct (Hc o eq_refl) as (Ht & Hfr & _).
    assert (Hp : mgr_wf ep (Create_publish tag o m0)).
    { apply published_wf; [done..|]. by destruct Hm0 as [ -> |[s' ->]]. }
    destruct E as [ -> | -> ]; [done|by apply mset_scope_wf].
  - apply Manager_Remove_inv in E as [ -> |(o & s & Ho & _ & E)]; [done|].
    destruct E as [ -> | -> ]; [|apply mset_scope_wf]; by apply removed_wf.
  - apply SwapBatch_inv in E as [[ -> _]|(R & M & -> & -> & [])]; [done|].
    apply swapped_wf; try done. naive_solver.
  - by eapply Manager_Start_spec in E as [? _].
Qed.

(** The outbounds that are created have their dependencies. *)
Definition checked (ep : EndpointManager) (m : Manager) (o : Outbound) : Prop :=
  ∀ d, d ∈ ob_Dependencies o → is_Some (Manager_Outbound ep m d).

(** No operation takes a dependency away; an outbound that is created comes as it is. *)
Lemma mgr_step_found ep ok m m' o d :
  mgr_step ep ok m m' → mgr_wf ep m → o ∈ m_outbounds m' → d ∈ ob_Dependencies o →
  (o ∈ m_outbounds m ∨ ok m o → is_Some (Manager_Outbound ep m d)) → is_Some (Manager_Outbound ep m' d).
Proof.
  intros [lc created tag m1 m2 r Hc E|lc tag m1 m2 err E|order old cs m1 m2 r Hids E
    |fuel lc fallback stage scope m1 m2 r Hf E] Hm Ho Hd Hr.
  - apply Manager_Create_inv in E as (m0 & Hm0 & E).
    assert (Hr0 : o ∈ m_outbounds m0 ∨ ok m1 o → is_Some (Manager_Outbound ep m0 d)) by (by destruct Hm0 as [ -> |[s ->]]).
    destruct E as [ -> |(o' & s & -> & E)]; [auto|]. destruct (Hc o' eq_refl) as (_ & _ & Hck).
    assert (H0 : mgr_wf ep m0) by (destruct Hm0 as [ -> |[s' ->]]; [done|by apply mset_scope_wf]).
    destruct E as [ -> | -> ]; apply (published_found ep m0 H0 tag o' o d); auto; intros [?| -> ]; auto.
  - apply Manager_Remove_inv in E as [ -> |(o' & s & Ho' & Hn & E)]; [auto|].
    assert (H := removed_keeps _ _ _ _ Hm Ho' Hn o d). destruct E as [ -> | -> ]; apply H; auto.
  - apply SwapBatch_inv in E as [[ -> _]|(R & M & -> & -> & Hs)]; [auto|].
    apply (swapped_keeps order ep old cs m1 R M Hm Hs Hids o d); auto.
  - eapply Manager_Start_spec in E as [_ H]; [|done..]. apply (H o d); auto.
Qed.

Lemma mgr_step_resolved ep m m' :
  mgr_step ep (checked ep) m m' → mgr_wf ep m → resolved ep m → resolved ep m'.
Proof. intros Hs Hm Hr o d Ho Hd. eapply mgr_step_found; [done..|]. intros [?|Hc]; [by eapply Hr|by apply Hc]. Qed.

Lemma NewManager_wf ep defaultTag : mgr_wf ep (NewManager defaultTag).
Proof.
  split; cbn; [apply NoDup_nil_2..| | | |done|done].
  - intros t o. rewrite lookup_empty. set_solver.
  - intros t d. unfold dependBy. rewrite lookup_empty. set_solver.
  - intros d. by rewrite lookup_empty.
Qed.

Lemma mgr_steps_wf ep ok m m' : rtc (mgr_step ep ok) m m' → mgr_wf ep m → mgr_wf ep m'.
Proof. induction 1 as [|m1 m2 m3 Hs _ IH]; [done|]. intros Hm. apply IH. by eapply mgr_step_wf. Qed.

Lemma mgr_reachable_wf ep ok defaultTag m : mgr_reachable ep ok defaultTag m → mgr_wf ep m.
Proof.
  intros Hr. eapply mgr_steps_wf; [done|apply NewManager_wf].
Qed.

(** In every state the manager reaches, the list and the index by tag hold the same
    outbounds, tags are unique, the index of dependents lists exactly the outbounds that
    name a tag as a dependency, and the default outbound is one of the list or the
    endpoint of the default tag. *)
Theorem manager_indexes ep ok defaultTag m :
  mgr_reachable ep ok defaultTag m →
  NoDup (ob_Tag <$> m_outbounds m) ∧
  (∀ tag o, m_outboundByTag m !! tag = Some o ↔ o ∈ m_outbounds m ∧ ob_Tag o = tag) ∧
  (∀ tag d, tag ∈ dependBy (m_dependByTag m) d ↔
     ∃ o, m_outboundByTag m !! tag = Some o ∧ d ∈ ob_Dependencies o) ∧
  (∀ d, m_defaultOutbound m = Some d →
     d ∈ m_outbounds m ∨ ep_Get ep (m_defaultTag m) = Some d).
Proof.
  intros Hm%mgr_reachable_wf. split; [apply Hm|]. split; [apply Hm|]. split; [|apply Hm].
  intros tag d. rewrite (w_depends _ _ Hm). setoid_rewrite (w_byTag _ _ Hm). naive_solver.
Qed.

(** C27 No sequence of creating, removing, replacing and starting outbounds takes a dependency
    away from an outbound, whatever fails on the way. In every state the manager reaches,
    whichever outbounds were created and in whatever order, a dependency that an outbound
    finds is found for as long as the outbound is there; and once every outbound finds its
    dependencies, as when a start has succeeded, every sequence of operations that creates
    outbounds only when their dependencies are there keeps it so. Replacing checks that by
    itself. *)
Theorem dependencies_kept ep ok defaultTag m :
  mgr_reachable ep ok defaultTag m →
  (∀ o d m', o ∈ m_outbounds m → d ∈ ob_Dependencies o → is_Some (Manager_Outbound ep m d) →
     rtc (λ a b, mgr_step ep ok a b ∧ o ∈ m_outbounds b) m m' → is_Some (Manager_Outbound ep m' d)) ∧
  ((∀ o d, o ∈ m_outbounds m → d ∈ ob_Dependencies o → is_Some (Manager_Outbound ep m d)) →
   ∀ m', rtc (mgr_step ep (checked ep)) m m' →
   ∀ o d, o ∈ m_outbounds m' → d ∈ ob_Dependencies o → is_Some (Manager_Outbound ep m' d)).
Proof.
  intros Hm%mgr_reachable_wf. split.
  - intros o d m' Ho Hd Hf Hr. revert Hm Ho Hf. induction Hr as [|m1 m2 m3 [Hs Ho2] _ IH]; [done|]. intros Hm Ho Hf.
    apply IH; [by eapply mgr_step_wf|done|]. by eapply mgr_step_found.
  - intros Hres m' Hr. change (resolved ep m'). assert (H : resolved ep m) by exact Hres. clear Hres.
    revert Hm H. induction Hr as [|m1 m2 m3 Hs _ IH]; [done|]. intros Hm H.
    apply IH; [by eapply mgr_step_wf|by eapply mgr_step_resolved].
Qed.

(** A successful [SwapBatch] takes out exactly what was expected and puts in exactly
    the candidates: every other tag resolves as before. *)
Theorem SwapBatch_replaces order ep defaultTag ok m old candidates m' removed :
  mgr_reachable ep ok defaultTag m → NoDup (ob_id <$> m_outbounds m ++ candidates) →
  SwapBatch order (Some ep) old candidates m = (m', inr removed) →
  (∀ tag, removed !! tag = if decide (is_Some (old !! tag)) then m_outboundByTag m !! tag else None) ∧
  (∀ c, c ∈ candidates → m_outboundByTag m' !! ob_Tag c = Some c) ∧
  (∀ tag, tag ∉ ob_Tag <$> candidates → is_Some (old !! tag) → m_outboundByTag m' !! tag = None) ∧
  (∀ tag, tag ∉ ob_Tag <$> candidates → old !! tag = None →
     m_outboundByTag m' !! tag = m_outboundByTag m !! tag).
Proof.
  intros Hm Hids E. apply mgr_reachable_wf in Hm.
  apply SwapBatch_inv in E as [[_ [e [=]]]|(R & M & [= ->] & -> & [H1 H2 H3 H4 H5 H6])].
  assert (Hby := swap_byTag_spec order m R M candidates H2 H3).
  split; [|split; [|split]].
  - intros tag. apply option_eq. intros o. rewrite H1. case_decide; naive_solver.
  - intros c Hc. apply Hby. by left.
  - intros tag Ht Ho. apply eq_None_not_Some. intros [o [[Hc <-]|(_ & Hn & Hx)]%Hby].
    + apply Ht. by apply list_elem_of_fmap_2.
    + by rewrite (proj2 (H1 tag o)) in Hn.
  - intros tag Ht Ho. apply option_eq. intros o. rewrite Hby. split.
    + intros [[Hc <-]|(_ & _ & Hx)]; [|done]. destruct Ht. by apply list_elem_of_fmap_2.
    + intros Hx. right. split; [done|]. split; [|done].
      destruct (R !! tag) as [o'|] eqn:Er; [|done]. apply H1 in Er as [[? Er] _]. by rewrite Er in Ho.
Qed.

(** A manager with a chain of two outbounds, and the swap that replaces both. *)
Definition no_endpoints : EndpointManager := MkEndpointManager [] (λ _, None).
Definition still : Lifecycles := MkLifecycles (λ _ _, None) (λ _, None) (λ _, None).
Definition ob_base : Outbound := MkOutbound 1 "vless" "base" [] true false.
Definition ob_top : Outbound := MkOutbound 2 "vless" "top" ["base"%string] true false.
Definition ob_base' : Outbound := MkOutbound 3 "vless" "base" [] true false.
Definition ob_other : Outbound := MkOutbound 4 "vless" "other" ["base"%string] true false.
Definition m_one : Manager := (Manager_Create still (Ok ob_base) "base" (NewManager "")).1.
Definition m_two : Manager := (Manager_Create still (Ok ob_top) "top" m_one).1.
Definition expected_two : gmap string Outbound := {["base"%string := ob_base; "top"%string := ob_top]}.
Definition m_swapped : Manager :=
  (SwapBatch someRange (Some no_endpoints) expected_two [ob_base'; ob_other] m_two).1.

Lemma m_swapped_reachable :
  mgr_reachable no_endpoints (checked no_endpoints) "" m_two ∧
  mgr_reachable no_endpoints (checked no_endpoints) "" m_swapped.
Proof.
  assert (H : mgr_reachable no_endpoints (checked no_endpoints) "" m_two).
  { eapply rtc_l; [|apply rtc_once].
    - apply (step_Create _ _ still (Ok ob_base) "base" _ m_one (Ok tt)); [|vm_compute; reflexivity].
      intros o [= <-]. split; [done|]. split; [apply not_elem_of_nil|]. intros d []%elem_of_nil.
    - apply (step_Create _ _ still (Ok ob_top) "top" _ m_two (Ok tt)); [|vm_compute; reflexivity].
      intros o [= <-]. split; [done|]. split; [by apply (bool_decide_unpack _); vm_compute|].
      intros d ->%list_elem_of_singleton. exists ob_base. vm_compute. reflexivity. }
  split; [done|]. eapply rtc_r; [done|].
  apply (step_SwapBatch _ _ someRange expected_two [ob_base'; ob_other] _ _
           (SwapBatch someRange (Some no_endpoints) expected_two [ob_base'; ob_other] m_two).2).
  - by apply (bool_decide_unpack _); vm_compute.
  - apply surjective_pairing.
Qed.

Lemma manager_indexes_witness :
  m_outbounds m_swapped = [ob_base'; ob_other] ∧
  dependBy (m_dependByTag m_swapped) "base" = ["other"%string] ∧
  NoDup (ob_Tag <$> m_outbounds m_swapped).
Proof.
  split; [vm_compute; reflexivity|]. split; [vm_compute; reflexivity|].
  apply (manager_indexes no_endpoints (checked no_endpoints) "" m_swapped),
    (proj2 m_swapped_reachable).
Defined.

(** A group that is created before its member: the member cannot be removed afterwards, and
    a replacement keeps the dependency. *)
Definition m_forward : Manager := (Manager_Create still (Ok ob_top) "top" (NewManager "")).1.
Definition m_both : Manager := (Manager_Create still (Ok ob_base) "base" m_forward).1.

Lemma m_both_reachable : mgr_reachable no_endpoints (λ _ _, True) "" m_both.
Proof.
  eapply rtc_l; [|apply rtc_once].
  - apply (step_Create _ _ still (Ok ob_top) "top" _ m_forward (Ok tt)); [|vm_compute; reflexivity].
    intros o [= <-]. split; [done|]. split; [apply not_elem_of_nil|done].
  - apply (step_Create _ _ still (Ok ob_base) "base" _ m_both (Ok tt)); [|vm_compute; reflexivity].
    intros o [= <-]. split; [done|]. split; [by apply (bool_decide_unpack _); vm_compute|done].
Qed.

Lemma dependencies_kept_witness :
  Manager_Outbound no_endpoints m_forward "base" = None ∧
  (Manager_Remove still "base" m_both).2 = Some (ENew "outbound[base] is depended by top") ∧
  is_Some (Manager_Outbound no_endpoints (Manager_Remove still "base" m_both).1 "base").
Proof.
  split; [vm_compute; reflexivity|]. split; [vm_compute; reflexivity|].
  apply (proj1 (dependencies_kept no_endpoints (λ _ _, True) "" m_both m_both_reachable) ob_top "base").
  - by apply (bool_decide_unpack _); vm_compute.
  - by left.
  - exists ob_base. vm_compute. reflexivity.
  - apply rtc_once. split; [|by apply (bool_decide_unpack _); vm_compute].
    apply (step_Remove _ _ still "base" _ _ (Manager_Remove still "base" m_both).2). apply surjective_pairing.
Defined.

Lemma SwapBatch_replaces_witness :
  m_outboundByTag m_swapped !! "top"%string = None ∧
  m_outboundByTag m_swapped !! "base"%string = Some ob_base'.
Proof.
  destruct (SwapBatch_replaces someRange no_endpoints "" (checked no_endpoints) m_two expected_two
              [ob_base'; ob_other] m_swapped expected_two) as (_ & H2 & H3 & _).
  - apply m_swapped_reachable.
  - by apply (bool_decide_unpack _); vm_compute.
  - vm_compute. reflexivity.
  - split; [apply H3|apply (H2 ob_base')].
    + by apply (bool_decide_unpack _); vm_compute.
    + exists ob_top. vm_compute. reflexivity.
    + by left.
Defined.
