(* ===== verification/ProviderGraph.v ===== *)
(** * The outbounds of a provider: adapter/provider/graph.go, adapter/provider/adapter.go

    A provider imports a list of outbound options that refer to each other by tag. It
    drops chains that cannot work, gives every outbound a tag of its own, sorts them by
    their dependencies, finds what an update affects, and swaps the affected outbounds
    of the manager.

    Options are pointers, and the code copies them before it rewrites their references.
    Here they are in a heap: options refer to a transport, a transport to the download
    options of XHTTP. The fields the code does not look at are one opaque string each. *)
From stdpp Require Import base list gmap strings pretty sorting.
From S2P Require Import Prelude OutboundManager.
Local Open Scope nat_scope.

(** ** Options in the heap *)

Inductive OptionsKind : Type :=
| VLESSOutboundOptions
| VMessOutboundOptions
| TrojanOutboundOptions
| OtherOutboundOptions.

#[export] Instance OptionsKind_eq_dec : EqDecision OptionsKind.
Proof. solve_decision. Defined.

(** [option.DialerOptions]: the detour and the other fields *)
Record DialerOptions : Type := MkDialerOptions { do_Detour : string; do_rest : string }.

(** A struct of outbound options; [oo_dialer] is present when it is a
    [DialerOptionsWrapper]. *)
Record OutboundOptions : Type := MkOutboundOptions {
  oo_kind : OptionsKind;
  oo_dialer : option DialerOptions;
  oo_Transport : option nat;
  oo_rest : string;
}.

(** [option.V2RayTransportOptions] *)
Record TransportOptions : Type := MkTransportOptions {
  to_Type : string;
  to_Download : option nat;
  to_rest : string;
}.

(** [XHTTPOptions.Download] *)
Record DownloadOptions : Type := MkDownloadOptions { dl_Detour : string; dl_rest : string }.

Record heap : Type := MkHeap {
  h_options : gmap nat OutboundOptions;
  h_transports : gmap nat TransportOptions;
  h_downloads : gmap nat DownloadOptions;
  h_next : nat; (** the next pointer *)
}.

Definition set_options (p : nat) (v : OutboundOptions) (h : heap) : heap :=
  MkHeap (<[p := v]> (h_options h)) (h_transports h) (h_downloads h) (h_next h).
Definition set_transport (p : nat) (v : TransportOptions) (h : heap) : heap :=
  MkHeap (h_options h) (<[p := v]> (h_transports h)) (h_downloads h) (h_next h).
Definition set_download (p : nat) (v : DownloadOptions) (h : heap) : heap :=
  MkHeap (h_options h) (h_transports h) (<[p := v]> (h_downloads h)) (h_next h).
Definition next_pointer (h : heap) : heap :=
  MkHeap (h_options h) (h_transports h) (h_downloads h) (S (h_next h)).

(** [option.Outbound]; [so_Options] is absent when the options are no pointer or nil. *)
Record SourceOutbound : Type := MkSourceOutbound {
  so_Type : string;
  so_Tag : string;
  so_Options : option nat;
}.

(** The types with a V2Ray transport. *)
Definition has_transport (k : OptionsKind) : bool :=
  match k with OtherOutboundOptions => false | _ => true end.

Definition cloneV2RayTransport (transport : option nat) (h : heap) : option nat * heap :=
  match transport with
  | None => (None, h)
  | Some p =>
      match h_transports h !! p with
      | None => (None, h)
      | Some t =>
          let '(download, h) :=
            match to_Download t with
            | None => (None, h)
            | Some d =>
                match h_downloads h !! d with
                | None => (None, h)
                | Some v => (Some (h_next h), next_pointer (set_download (h_next h) v h))
                end
            end in
          (Some (h_next h),
           next_pointer (set_transport (h_next h) (MkTransportOptions (to_Type t) download (to_rest t)) h))
      end
  end.

Definition cloneOptions (options : option nat) (h : heap) : option nat * heap :=
  match options with
  | None => (None, h)
  | Some p =>
      match h_options h !! p with
      | None => (None, h)
      | Some o =>
          let '(transport, h) :=
            if has_transport (oo_kind o) then cloneV2RayTransport (oo_Transport o) h
            else (oo_Transport o, h) in
          (Some (h_next h),
           next_pointer (set_options (h_next h)
             (MkOutboundOptions (oo_kind o) (oo_dialer o) transport (oo_rest o)) h))
      end
  end.

Fixpoint cloneOutbounds (outbounds : list SourceOutbound) (h : heap) : list SourceOutbound * heap :=
  match outbounds with
  | [] => ([], h)
  | o :: outbounds =>
      let '(p, h) := cloneOptions (so_Options o) h in
      let '(l, h) := cloneOutbounds outbounds h in
      (MkSourceOutbound (so_Type o) (so_Tag o) p :: l, h)
  end.

(** [addDependency]: the qualified tag, and the dependencies with it. *)
Definition addDependency (tags : gmap string string) (tag : string) (dependencies : list string)
    : string * list string :=
  match tags !! tag with
  | Some qualified =>
      if negb (nonempty tag) then (tag, dependencies)
      else if mem qualified dependencies then (qualified, dependencies)
      else (qualified, dependencies ++ [qualified])
  | None => (tag, dependencies)
  end.

Definition rewriteXHTTPDownloadDetour (transport : option nat) (tags : gmap string string)
    (dependencies : list string) (h : heap) : list string * heap :=
  match transport ≫= (λ p, h_transports h !! p) with
  | Some t =>
      if bool_decide (to_Type t = "xhttp"%string) then
        match to_Download t with
        | Some d =>
            match h_downloads h !! d with
            | Some v =>
                let '(detour, dependencies) := addDependency tags (dl_Detour v) dependencies in
                (dependencies, set_download d (MkDownloadOptions detour (dl_rest v)) h)
            | None => (dependencies, h)
            end
        | None => (dependencies, h)
        end
      else (dependencies, h)
  | None => (dependencies, h)
  end.

Definition rewriteOutboundReferences (options : option nat) (tags : gmap string string) (h : heap)
    : list string * heap :=
  match options ≫= (λ p, (λ o, (p, o)) <$> h_options h !! p) with
  | None => ([], h)
  | Some (p, o) =>
      let '(dependencies, h) :=
        match oo_dialer o with
        | Some d =>
            let '(detour, dependencies) := addDependency tags (do_Detour d) [] in
            (dependencies,
             set_options p (MkOutboundOptions (oo_kind o) (Some (MkDialerOptions detour (do_rest d)))
                              (oo_Transport o) (oo_rest o)) h)
        | None => ([], h)
        end in
      if has_transport (oo_kind o) then rewriteXHTTPDownloadDetour (oo_Transport o) tags dependencies h
      else (dependencies, h)
  end.

Definition applyDefaultDetour (options : option nat) (detour : string) (h : heap) : heap :=
  if negb (nonempty detour) then h
  else match options ≫= (λ p, (λ o, (p, o)) <$> h_options h !! p) with
  | None => h
  | Some (p, o) =>
      match oo_dialer o with
      | None => h
      | Some d =>
          if nonempty (do_Detour d) then h
          else set_options p (MkOutboundOptions (oo_kind o) (Some (MkDialerOptions detour (do_rest d)))
                                (oo_Transport o) (oo_rest o)) h
      end
  end.

(** ** Chains that cannot work *)

(** The first index of every tag. *)
Fixpoint index_byTag (i : nat) (outbounds : list SourceOutbound) : gmap string nat :=
  match outbounds with
  | [] => ∅
  | o :: outbounds =>
      let m := index_byTag (S i) outbounds in
      if nonempty (so_Tag o) then <[so_Tag o := i]> m else m
  end.

(** [knownTags]: every tag of the list and every invalid tag, mapped to itself *)
Definition known_tags (outbounds : list SourceOutbound) (invalidTags : gset string)
    : gmap string string :=
  fold_left (λ m o, if nonempty (so_Tag o) then <[so_Tag o := so_Tag o]> m else m) outbounds
    (set_to_map (λ t, (t, t)) invalidTags).

(** The references of every outbound, with [tags] as the rewriting. *)
Fixpoint collect_references (tags : gmap string string) (outbounds : list SourceOutbound) (h : heap)
    : list (list string) * heap :=
  match outbounds with
  | [] => ([], h)
  | o :: outbounds =>
      let '(d, h) := rewriteOutboundReferences (so_Options o) tags h in
      let '(l, h) := collect_references tags outbounds h in
      (d :: l, h)
  end.

Inductive validity : Type := visiting | valid | invalidState.

#[export] Instance validity_eq_dec : EqDecision validity.
Proof. solve_decision. Defined.

Section valid.
Context (invalidTags : gset string) (byTag : gmap string nat) (dependencies : list (list string)).

(** The loop over the dependencies of an outbound; [rec] is [isValid]. *)
Definition valid_loop (rec : nat → gmap nat validity → option (bool * gmap nat validity))
    (index : nat) : list string → gmap nat validity → option (bool * gmap nat validity) :=
  fix loop ds states :=
    match ds with
    | [] => Some (true, <[index := valid]> states)
    | d :: ds =>
        if bool_decide (d ∈ invalidTags) then Some (false, <[index := invalidState]> states)
        else match byTag !! d with
        | None => loop ds states
        | Some j =>
            match rec j states with
            | Some (true, states) => loop ds states
            | Some (false, states) => Some (false, <[index := invalidState]> states)
            | None => None
            end
        end
    end.

(** [isValid] walks the references depth first; the second component is the states.
    [None] when the fuel is used up. *)
Fixpoint isValid (fuel : nat) (index : nat) (states : gmap nat validity)
    : option (bool * gmap nat validity) :=
  match fuel with
  | O => None
  | S fuel =>
      match states !! index with
      | Some visiting | Some invalidState => Some (false, states)
      | Some valid => Some (true, states)
      | None =>
          valid_loop (isValid fuel) index (default [] (dependencies !! index))
            (<[index := visiting]> states)
      end
  end.

Fixpoint filter_loop (fuel : nat) (index : nat) (outbounds : list SourceOutbound)
    (states : gmap nat validity) : option (list SourceOutbound * list SourceOutbound) :=
  match outbounds with
  | [] => Some ([], [])
  | o :: outbounds =>
      '(b, states) ← isValid fuel index states;
      '(result, skipped) ← filter_loop fuel (S index) outbounds states;
      Some (if b : bool then (o :: result, skipped) else (result, o :: skipped))
  end.
End valid.

Definition FilterInvalidOutboundsWithSkipped (fuel : nat) (outbounds : list SourceOutbound)
    (invalidTags : gset string) (h : heap)
    : option (list SourceOutbound * list SourceOutbound) * heap :=
  let '(dependencies, h) := collect_references (known_tags outbounds invalidTags) outbounds h in
  (filter_loop invalidTags (index_byTag 0 outbounds) dependencies fuel 0 outbounds ∅, h).

(** One more than there are outbounds is enough. *)
Definition FilterInvalidOutbounds (outbounds : list SourceOutbound) (invalidTags : gset string)
    (h : heap) : list SourceOutbound * heap :=
  let '(r, h) := FilterInvalidOutboundsWithSkipped (S (length outbounds)) outbounds invalidTags h in
  (match r with Some (l, _) => l | None => [] end, h).

(** ** Outbounds with the tags they run under, sorted by their dependencies *)

Record preparedOutbound : Type := MkPrepared {
  po_source : SourceOutbound;
  po_runtime : SourceOutbound;
  po_tag : string;
  po_dependencies : list string;
  po_position : nat;
}.

(** The zero value *)
Definition no_prepared : preparedOutbound :=
  MkPrepared (MkSourceOutbound "" "" None) (MkSourceOutbound "" "" None) "" [] 0.

Section sort.
Context (byTag : gmap string preparedOutbound).

(** The states of the closure [visit]: [false] for 1, on the way; [true] for 2, done. *)
Definition visit_state : Type := gmap string bool * list preparedOutbound.

(** The loop over the dependencies of an outbound; [rec] is [visit]. *)
Definition visit_loop (rec : string → visit_state → option (result visit_state)) (tag : string)
    (outbound : preparedOutbound) : list string → visit_state → option (result visit_state) :=
  fix loop ds st :=
    match ds with
    | [] => Some (Ok (<[tag := true]> st.1, st.2 ++ [outbound]))
    | d :: ds =>
        match byTag !! d with
        | None => loop ds st
        | Some _ =>
            match rec d st with
            | None => None
            | Some (Ok st) => loop ds st
            | Some r => Some r
            end
        end
    end.

Fixpoint visitOutbound (fuel : nat) (tag : string) (st : visit_state)
    : option (result visit_state) :=
  match fuel with
  | O => None
  | S fuel =>
      match st.1 !! tag with
      | Some false => Some (Err (ENew ("circular provider outbound dependency at " +:+ tag)%string))
      | Some true => Some (Ok st)
      | None =>
          let outbound := default no_prepared (byTag !! tag) in
          visit_loop (visitOutbound fuel) tag outbound (po_dependencies outbound)
            (<[tag := false]> st.1, st.2)
      end
  end.

Fixpoint sort_loop (fuel : nat) (outbounds : list preparedOutbound) (st : visit_state)
    : option (result (list preparedOutbound)) :=
  match outbounds with
  | [] => Some (Ok st.2)
  | o :: outbounds =>
      match visitOutbound fuel (po_tag o) st with
      | None => None
      | Some (Ok st) => sort_loop fuel outbounds st
      | Some (Err e) => Some (Err e)
      | Some (Panic s) => Some (Panic s)
      end
  end.
End sort.

(** A later outbound of a tag replaces an earlier one. *)
Definition prepared_byTag (outbounds : list preparedOutbound) : gmap string preparedOutbound :=
  fold_left (λ m o, <[po_tag o := o]> m) outbounds ∅.

Definition sortOutbounds (fuel : nat) (outbounds : list preparedOutbound)
    : option (result (list preparedOutbound)) :=
  sort_loop (prepared_byTag outbounds) fuel outbounds (∅, []).

(** [tags]: the tag under which an outbound of the provider runs *)
Definition runtime_tags (providerTag : string) (outbounds : list SourceOutbound)
    : gmap string string :=
  fold_left (λ m o, if nonempty (so_Tag o) then
      <[so_Tag o := (providerTag +:+ "/" +:+ so_Tag o)%string]> m else m) outbounds ∅.

Fixpoint prepare_loop (providerTag : string) (tags : gmap string string) (outboundDetour : string)
    (index : nat) (outbounds : list SourceOutbound) (h : heap) : list preparedOutbound * heap :=
  match outbounds with
  | [] => ([], h)
  | source :: outbounds =>
      let tag := default ""%string (tags !! so_Tag source) in
      let tag := if nonempty tag then tag
                 else (providerTag +:+ "/Node #" +:+ pretty (S index))%string in
      let '(options, h) := cloneOptions (so_Options source) h in
      let h := applyDefaultDetour options outboundDetour h in
      let '(dependencies, h) := rewriteOutboundReferences options tags h in
      let '(l, h) := prepare_loop providerTag tags outboundDetour (S index) outbounds h in
      (MkPrepared source (MkSourceOutbound (so_Type source) tag options) tag dependencies index :: l, h)
  end.

Definition prepareOutbounds (fuel : nat) (providerTag : string) (outbounds : list SourceOutbound)
    (outboundDetour : string) (h : heap) : option (result (list preparedOutbound)) * heap :=
  let '(prepared, h) :=
    prepare_loop providerTag (runtime_tags providerTag outbounds) outboundDetour 0 outbounds h in
  (sortOutbounds fuel prepared, h).

Definition position_le (a b : preparedOutbound) : Prop := po_position a <= po_position b.

#[export] Instance position_le_dec : RelDecision position_le.
Proof. intros a b. unfold position_le. apply _. Defined.

(** [sort.SliceStable] by position *)
Definition sourceOrder (outbounds : list preparedOutbound) : list preparedOutbound :=
  merge_sort position_le outbounds.

(** ** What an update affects *)

(** What [reflect.DeepEqual] compares: the values behind the pointers. *)
Definition deep_transport (h : heap) (transport : option nat)
    : option (string * option DownloadOptions * string) :=
  t ← transport ≫= (λ p, h_transports h !! p);
  Some (to_Type t, to_Download t ≫= (λ d, h_downloads h !! d), to_rest t).

Definition deep_options (h : heap) (options : option nat)
    : option (OptionsKind * option DialerOptions * option (string * option DownloadOptions * string)
              * string) :=
  o ← options ≫= (λ p, h_options h !! p);
  Some (oo_kind o, oo_dialer o, deep_transport h (oo_Transport o), oo_rest o).

#[export] Instance DialerOptions_eq_dec : EqDecision DialerOptions.
Proof. solve_decision. Defined.
#[export] Instance DownloadOptions_eq_dec : EqDecision DownloadOptions.
Proof. solve_decision. Defined.

Definition DeepEqual (h : heap) (a b : SourceOutbound) : bool :=
  bool_decide (so_Type a = so_Type b) && bool_decide (so_Tag a = so_Tag b)
  && bool_decide (deep_options h (so_Options a) = deep_options h (so_Options b)).

(** The tags that are gone, new or changed. *)
Definition changed_tags (h : heap) (oldByTag newByTag : gmap string preparedOutbound) : gset string :=
  dom (filter (λ p,
         match newByTag !! p.1 with
         | None => true
         | Some n => negb (DeepEqual h (po_source p.2) (po_source n))
         end = true) oldByTag)
  ∪ (dom newByTag ∖ dom oldByTag).

Definition affect_one (st : gset string * bool) (o : preparedOutbound) : gset string * bool :=
  if bool_decide (po_tag o ∈ st.1) then st
  else if existsb (λ d, bool_decide (d ∈ st.1)) (po_dependencies o) then ({[po_tag o]} ∪ st.1, true)
  else st.

(** [for changed := true; changed; { ... }] *)
Fixpoint affect_loop (fuel : nat) (graph : list preparedOutbound) (affected : gset string)
    : option (gset string) :=
  match fuel with
  | O => None
  | S fuel =>
      let '(affected, changed) := fold_left affect_one graph (affected, false) in
      if changed : bool then affect_loop fuel graph affected else Some affected
  end.

Definition affectedOutbounds (h : heap) (oldOutbounds newOutbounds : list preparedOutbound)
    : option (gset string) :=
  affect_loop (S (length (oldOutbounds ++ newOutbounds))) (oldOutbounds ++ newOutbounds)
    (changed_tags h (prepared_byTag oldOutbounds) (prepared_byTag newOutbounds)).

(** ** Replacing outbounds of the manager *)

(** What [registry.CreateOutbound] answers; it makes a new outbound each time. *)
Definition Registry : Type := Manager → preparedOutbound → error + Outbound.

Definition error_of (r : result unit) : option error :=
  match r with Ok _ => None | Err e => Some e | Panic s => Some (ENamed s) end.

Section replace.
Context (lc : Lifecycles) (ep : EndpointManager) (registry : Registry) (order : MapRange).

Definition createOutbound (o : preparedOutbound) (m : Manager) : Manager * option error :=
  let '(m, r) :=
    Manager_Create lc (match registry m o with inl e => Err e | inr ob => Ok ob end) (po_tag o) m in
  (m, error_of r).

(** The first dependency that is invalid or cannot be resolved; empty when there is none. *)
Definition missingDependency (o : preparedOutbound) (invalid : gset string)
    (lookup : string → option Outbound) : string :=
  default ""%string (List.find (λ d, bool_decide (d ∈ invalid) || bool_decide (lookup d = None))
                       (po_dependencies o)).

Fixpoint restoreOutbounds (oldOutbounds : list preparedOutbound) (removed : gset string)
    (restoreErr : option error) (m : Manager) : Manager * option error :=
  match oldOutbounds with
  | [] => (m, restoreErr)
  | o :: oldOutbounds =>
      if bool_decide (po_tag o ∈ removed) then
        let '(m, err) := createOutbound o m in
        restoreOutbounds oldOutbounds removed
          (match err with
           | Some e => E_Errors restoreErr
                         (Some (ECause e ("restore provider outbound " +:+ po_tag o)%string))
           | None => restoreErr
           end) m
      else restoreOutbounds oldOutbounds removed restoreErr m
  end.

(** The created outbounds are removed, the last first. *)
Fixpoint remove_created (created : list preparedOutbound) (rollbackErr : option error) (m : Manager)
    : Manager * option error :=
  match created with
  | [] => (m, rollbackErr)
  | o :: created =>
      let '(m, err) := Manager_Remove lc (po_tag o) m in
      remove_created created
        (match err with
         | Some e => E_Errors rollbackErr
                       (Some (ECause e ("remove new provider outbound " +:+ po_tag o)%string))
         | None => rollbackErr
         end) m
  end.

Definition rollbackOutbounds (created oldOutbounds : list preparedOutbound) (removed : gset string)
    (m : Manager) : Manager * option error :=
  let '(m, rollbackErr) := remove_created (reverse created) None m in
  let '(m, restoreErr) := restoreOutbounds oldOutbounds removed None m in
  (m, E_Errors rollbackErr restoreErr).

(** The affected outbounds are removed, the last first; a failure restores them. *)
Fixpoint remove_affected (affected : gset string) (reversed : list preparedOutbound)
    (removed : gset string) (m : Manager) : Manager * gset string * option error :=
  match reversed with
  | [] => (m, removed, None)
  | o :: reversed =>
      if bool_decide (po_tag o ∈ affected) then
        match Manager_Remove lc (po_tag o) m with
        | (m, Some e) => (m, removed, Some (ECause e ("remove provider outbound " +:+ po_tag o)%string))
        | (m, None) => remove_affected affected reversed ({[po_tag o]} ∪ removed) m
        end
      else remove_affected affected reversed removed m
  end.

(** The outbounds that are new or affected are created in their order. *)
Fixpoint create_affected (affected : gset string) (oldByTag : gmap string preparedOutbound)
    (newOutbounds : list preparedOutbound) (invalid : gset string) (created : list preparedOutbound)
    (m : Manager) : Manager * gset string * list preparedOutbound :=
  match newOutbounds with
  | [] => (m, invalid, created)
  | o :: newOutbounds =>
      if bool_decide (is_Some (oldByTag !! po_tag o)) && negb (bool_decide (po_tag o ∈ affected)) then
        create_affected affected oldByTag newOutbounds invalid created m
      else if nonempty (missingDependency o invalid (Manager_Outbound ep m)) then
        create_affected affected oldByTag newOutbounds ({[po_tag o]} ∪ invalid) created m
      else match createOutbound o m with
      | (m, Some _) => create_affected affected oldByTag newOutbounds ({[po_tag o]} ∪ invalid) created m
      | (m, None) => create_affected affected oldByTag newOutbounds invalid (created ++ [o]) m
      end
  end.

Definition replaceUnstartedOutbounds (affected : gset string)
    (oldOutbounds newOutbounds : list preparedOutbound) (m : Manager)
    : Manager * (error + list preparedOutbound) :=
  match remove_affected affected (reverse oldOutbounds) ∅ m with
  | (m, removed, Some e) =>
      let '(m, restoreErr) := restoreOutbounds oldOutbounds removed None m in
      (m, inl (default e (E_Errors (Some e) restoreErr)))
  | (m, removed, None) =>
      let '(m, invalid, created) :=
        create_affected affected (prepared_byTag oldOutbounds) newOutbounds ∅ [] m in
      let applied := filter (λ o, po_tag o ∉ invalid) newOutbounds in
      if has_items newOutbounds && negb (has_items applied) then
        let e := ENew "no usable provider outbounds" in
        let '(m, err) := rollbackOutbounds created oldOutbounds removed m in
        (m, inl (default e (E_Errors (Some e) err)))
      else (m, inr applied)
  end.

(** *** While the manager is started *)

(** What the building of candidates keeps: [bd_staged] is what [stagedOutboundManager]
    looks up first. *)
Record building : Type := MkBuilding {
  bd_candidates : list Outbound;
  bd_staged : gmap string Outbound;
  bd_prepared : gmap string preparedOutbound;
  bd_invalid : gset string;
}.

Definition staged_Outbound (m : Manager) (b : building) (tag : string) : option Outbound :=
  match bd_staged b !! tag with
  | Some o => Some o
  | None => Manager_Outbound ep m tag
  end.

Definition mark_invalid (tag : string) (b : building) : building :=
  MkBuilding (bd_candidates b) (bd_staged b) (bd_prepared b) ({[tag]} ∪ bd_invalid b).

Definition build_candidate (m : Manager) (b : building) (o : preparedOutbound) : building :=
  if nonempty (missingDependency o (bd_invalid b) (staged_Outbound m b)) then mark_invalid (po_tag o) b
  else match registry m o with
  | inl _ => mark_invalid (po_tag o) b
  | inr candidate =>
      MkBuilding (bd_candidates b ++ [candidate]) (<[po_tag o := candidate]> (bd_staged b))
        (<[po_tag o := o]> (bd_prepared b)) (bd_invalid b)
  end.

(** A candidate at a stage: it is skipped when it or a dependency is invalid. *)
Definition start_candidate (prepared : gmap string preparedOutbound) (stage : StartStage)
    (st : Scope * gset string) (candidate : Outbound) : Scope * gset string :=
  let '(s, invalid) := st in
  let tag := ob_Tag candidate in
  if bool_decide (tag ∈ invalid) then (s, invalid)
  else if existsb (λ d, bool_decide (d ∈ invalid))
            (po_dependencies (default no_prepared (prepared !! tag)))
  then (s, {[tag]} ∪ invalid)
  else if negb (ob_isLifecycle candidate) then (s, invalid)
  else match Scope_Start lc (outbound_name candidate) candidate stage s with
  | (s, Some _) => (s, {[tag]} ∪ invalid)
  | (s, None) => (s, invalid)
  end.

Definition start_candidates (prepared : gmap string preparedOutbound) (candidates : list Outbound)
    (managerStage : StartStage) (st : Scope * gset string) : Scope * gset string :=
  fold_left (λ st stage, fold_left (start_candidate prepared stage) candidates st)
    (filter (λ stage, stage_index stage <= stage_index managerStage) ListStartStages) st.

Definition removeOutbound (o : Outbound) (s : Scope) : Scope * option error :=
  if negb (ob_isLifecycle o) then (s, None) else Scope_Remove lc o s.

Definition removeOutboundsReverse (outbounds : list Outbound) (s : Scope) : Scope :=
  fold_left (λ s o, (removeOutbound o s).1) (reverse outbounds) s.

(** The outbounds the affected tags have now. *)
Fixpoint expected_old (affected : gset string) (oldOutbounds : list preparedOutbound) (m : Manager)
    : error + gmap string Outbound :=
  match oldOutbounds with
  | [] => inr ∅
  | o :: oldOutbounds =>
      if bool_decide (po_tag o ∈ affected) then
        match Manager_Outbound ep m (po_tag o) with
        | None => inl (ENew ("provider outbound not found: " +:+ po_tag o)%string)
        | Some current =>
            match expected_old affected oldOutbounds m with
            | inl e => inl e
            | inr r => inr (<[po_tag o := current]> r)
            end
        end
      else expected_old affected oldOutbounds m
  end.

(** Swapping the candidates that are fine in, [s] being the scope they were started in. *)
Definition swap_started (expectedOld : gmap string Outbound)
    (oldOutbounds newOutbounds : list preparedOutbound) (candidates : list Outbound)
    (invalid : gset string) (s : Scope) (m : Manager)
    : Manager * (error + (list Outbound * list preparedOutbound)) :=
  let validCandidates := filter (λ c, ob_Tag c ∉ invalid) candidates in
  let s := removeOutboundsReverse (filter (λ c, ob_Tag c ∈ invalid) candidates) s in
  let applied := filter (λ o, po_tag o ∉ invalid) newOutbounds in
  if has_items newOutbounds && negb (has_items applied) then
    (mset_scope (removeOutboundsReverse validCandidates s) m,
     inl (ENew "no usable provider outbounds"))
  else match SwapBatch order (Some ep) expectedOld validCandidates (mset_scope s m) with
  | (m, inl e) => (mset_scope (removeOutboundsReverse validCandidates s) m, inl e)
  | (m, inr oldByTag) =>
      (m, inr (omap (λ o, oldByTag !! po_tag o) (reverse oldOutbounds), applied))
  end.

Definition replaceStartedOutbounds (affected : gset string)
    (oldOutbounds newOutbounds : list preparedOutbound) (s : Scope) (m : Manager)
    : Manager * (error + (list Outbound * list preparedOutbound)) :=
  match expected_old affected oldOutbounds m with
  | inl e => (m, inl e)
  | inr expectedOld =>
      let candidatesToBuild := filter (λ o, po_tag o ∈ affected) newOutbounds in
      if bool_decide (expectedOld = ∅) && negb (has_items candidatesToBuild) then
        (m, inr ([], newOutbounds))
      else
        let b := fold_left (build_candidate m) candidatesToBuild (MkBuilding [] ∅ ∅ ∅) in
        let '(s, invalid) :=
          start_candidates (bd_prepared b) (bd_candidates b) (m_stage m) (s, bd_invalid b) in
        swap_started expectedOld oldOutbounds newOutbounds (bd_candidates b) invalid s m
  end.

(** [WithStage]: the path depends on whether the manager has a scope. *)
Definition replaceOutbounds (affected : gset string)
    (oldOutbounds newOutbounds : list preparedOutbound) (m : Manager)
    : Manager * (error + (list Outbound * list preparedOutbound)) :=
  match m_scope m with
  | Some s => replaceStartedOutbounds affected oldOutbounds newOutbounds s m
  | None =>
      match replaceUnstartedOutbounds affected oldOutbounds newOutbounds m with
      | (m, inl e) => (m, inl e)
      | (m, inr applied) => (m, inr ([], applied))
      end
  end.
End replace.

(** ** The adapter of a provider *)

(** The published state; [a_notified] counts the calls of [UpdateGroups], which tells
    the groups to look at the outbounds again. *)
Record Adapter : Type := MkAdapter {
  a_providerTag : string;
  a_detour : string; (** [defaultDetour()] *)
  a_outbounds : list Outbound;
  a_outboundsByTag : gmap string Outbound;
  a_outboundSources : gmap string SourceOutbound;
  a_outboundOpts : list SourceOutbound;
  a_outboundCloseOrder : list string;
  a_notified : nat;
}.

Definition UpdateGroups (a : Adapter) : Adapter :=
  MkAdapter (a_providerTag a) (a_detour a) (a_outbounds a) (a_outboundsByTag a)
    (a_outboundSources a) (a_outboundOpts a) (a_outboundCloseOrder a) (S (a_notified a)).

(** The outbounds of the manager for the prepared ones, or the tag that has none. *)
Fixpoint publish_lookup (lookup : string → option Outbound) (prepared : list preparedOutbound)
    : error + list Outbound :=
  match prepared with
  | [] => inr []
  | o :: prepared =>
      match lookup (po_tag o) with
      | None => inl (ENew ("provider outbound not found after update: " +:+ po_tag o)%string)
      | Some ob =>
          match publish_lookup lookup prepared with
          | inl e => inl e
          | inr l => inr (ob :: l)
          end
      end
  end.

Definition publishOutbounds (lookup : string → option Outbound) (prepared : list preparedOutbound)
    (a : Adapter) : Adapter * option error :=
  let sorted := sourceOrder prepared in
  match publish_lookup lookup sorted with
  | inl e => (a, Some e)
  | inr outbounds =>
      (MkAdapter (a_providerTag a) (a_detour a) outbounds
         (fold_left (λ m p, <[po_tag p.1 := p.2]> m) (zip sorted outbounds) ∅)
         (fold_left (λ m o, <[po_tag o := po_source o]> m) sorted ∅)
         (po_source <$> sorted) (po_tag <$> prepared) (a_notified a), None)
  end.

Section update.
Context (lc : Lifecycles) (ep : EndpointManager) (registry : Registry) (order : MapRange).

(** The replaced outbounds are closed after the groups were told. *)
Definition close_replaced (replaced : list Outbound) (m : Manager) : Manager :=
  match m_scope m with
  | Some s => mset_scope (fold_left (λ s o, (removeOutbound lc o s).1) replaced s) m
  | None => m
  end.

(** [UpdateOutbounds]. The two walks have one round of fuel more than outbounds. *)
Definition UpdateOutbounds (newOpts : list SourceOutbound) (a : Adapter) (m : Manager) (h : heap)
    : Adapter * Manager * heap * option error :=
  let '(sourceOpts, h) := FilterInvalidOutbounds newOpts ∅ h in
  let '(oldOpts, h) := cloneOutbounds (a_outboundOpts a) h in
  if negb (has_items sourceOpts) && (has_items newOpts || has_items (a_outbounds a)) then
    (a, m, h, Some (ENew "no usable provider outbounds"))
  else
  let '(newOpts, h) := cloneOutbounds sourceOpts h in
  let '(oldR, h) := prepareOutbounds (S (length oldOpts)) (a_providerTag a) oldOpts (a_detour a) h in
  match oldR with
  | Some (Ok oldOutbounds) =>
      let '(newR, h) := prepareOutbounds (S (length newOpts)) (a_providerTag a) newOpts (a_detour a) h in
      match newR with
      | Some (Ok newOutbounds) =>
          let affected := default ∅ (affectedOutbounds h oldOutbounds newOutbounds) in
          match replaceOutbounds lc ep registry order affected oldOutbounds newOutbounds m with
          | (m, inl e) =>
              let '(a, restoreErr) := publishOutbounds (Manager_Outbound ep m) oldOutbounds a in
              (UpdateGroups a, m, h, E_Errors (Some e) restoreErr)
          | (m, inr (replaced, applied)) =>
              match publishOutbounds (Manager_Outbound ep m) applied a with
              | (a, Some e) => (a, m, h, Some e)
              | (a, None) => (UpdateGroups a, close_replaced replaced m, h, None)
              end
          end
      | Some (Err e) => (a, m, h, Some e)
      | Some (Panic s) => (a, m, h, Some (ENamed s))
      | None => (a, m, h, Some (ENamed "out of fuel"))
      end
  | Some (Err e) => (a, m, h, Some e)
  | Some (Panic s) => (a, m, h, Some (ENamed s))
  | None => (a, m, h, Some (ENamed "out of fuel"))
  end.

(** [Close]: the outbounds are removed in the reverse of their creation. *)
Definition Adapter_Close (a : Adapter) (m : Manager) : Adapter * Manager * option error :=
  let '(m, err) :=
    fold_left (λ '(m, err) tag,
        let '(m, err2) := Manager_Remove lc tag m in
        (m, E_Errors err ((λ e, ECause e ("close outbound [" +:+ tag +:+ "]")%string) <$> err2)))
      (reverse (a_outboundCloseOrder a)) (m, None) in
  (MkAdapter (a_providerTag a) (a_detour a) [] ∅ ∅ [] [] (a_notified a), m, err).
End update.

(** ** Tags: no two outbounds of a provider share one *)

Definition numbered (base : string) (index : nat) : string :=
  (base +:+ " #" +:+ pretty index)%string.

(** [for index := 2; used[tag]; index++]; [None] when the fuel is used up *)
Fixpoint free_tag (fuel : nat) (used : gset string) (base tag : string) (index : nat)
    : option string :=
  match fuel with
  | O => None
  | S fuel =>
      if bool_decide (tag ∈ used) then free_tag fuel used base (numbered base index) (S index)
      else Some tag
  end.

Section tags.
(** [rename] is the removal of emojis and the tag rules of the override, which are
    regular expressions. *)
Context (rename : string → string).

Definition normalized_tag (i : nat) (used : gset string) (opt : SourceOutbound) : string :=
  let tag := rename (so_Tag opt) in
  let tag := if nonempty tag then tag else ("Node #" +:+ pretty (S i))%string in
  default tag (free_tag (S (size used)) used tag tag 2).

Fixpoint normalize_loop (i : nat) (opts : list SourceOutbound) (used : gset string)
    (tags : gmap string string) : list SourceOutbound * gmap string string :=
  match opts with
  | [] => ([], tags)
  | opt :: opts =>
      let tag := normalized_tag i used opt in
      let tags :=
        if nonempty (so_Tag opt) && bool_decide (tags !! so_Tag opt = None)
        then <[so_Tag opt := tag]> tags else tags in
      let '(l, tags) := normalize_loop (S i) opts ({[tag]} ∪ used) tags in
      (MkSourceOutbound (so_Type opt) tag (so_Options opt) :: l, tags)
  end.

Definition normalizeOutboundTags (opts : list SourceOutbound) (h : heap)
    : list SourceOutbound * heap :=
  let '(opts, tags) := normalize_loop 0 opts ∅ ∅ in
  (opts, fold_left (λ h o, (rewriteOutboundReferences (so_Options o) tags h).2) opts h).
End tags.
