(* ===== verification/ProviderFacts.v ===== *)
(** * The walks over the outbounds of a provider

    [FilterInvalidOutbounds] keeps exactly the outbounds from which no walk over the
    references meets an invalid tag or a circle; [sortOutbounds] puts every outbound
    after its dependencies and fails exactly on a circle; [affectedOutbounds] is the
    least set with the changed outbounds and what depends on them;
    [normalizeOutboundTags] makes the tags distinct. *)
From Stdlib Require Import Relations.
From stdpp Require Import base list gmap strings pretty sorting relations.
From S2P Require Import Prelude OutboundManager ProviderGraph.
Local Open Scope nat_scope.

(** ** Rewriting with every tag mapped to itself changes nothing *)

Definition identity_tags (tags : gmap string string) : Prop := ∀ t q, tags !! t = Some q → q = t.

Lemma addDependency_identity tags tag ds :
  identity_tags tags → (addDependency tags tag ds).1 = tag.
Proof.
  intros Ht. unfold addDependency. destruct (tags !! tag) as [q|] eqn:E; [|done].
  apply Ht in E as ->. by repeat case_match.
Qed.

Lemma set_options_id p v h : h_options h !! p = Some v → set_options p v h = h.
Proof. intros E. unfold set_options. rewrite insert_id by done. by destruct h. Qed.

Lemma set_download_id p v h : h_downloads h !! p = Some v → set_download p v h = h.
Proof. intros E. unfold set_download. rewrite insert_id by done. by destruct h. Qed.

Lemma rewrite_download_identity transport tags ds h :
  identity_tags tags → (rewriteXHTTPDownloadDetour transport tags ds h).2 = h.
Proof.
  intros Ht. unfold rewriteXHTTPDownloadDetour. repeat case_match; try done. cbn.
  apply set_download_id.
  match goal with E : addDependency ?t ?d ?ds = (?s, _) |- _ =>
    assert (Hs := addDependency_identity t d ds Ht); rewrite E in Hs; cbn in Hs; subst end.
  match goal with E : h_downloads _ !! _ = Some ?v |- _ => rewrite E; by destruct v end.
Qed.

Lemma rewrite_identity options tags h :
  identity_tags tags → (rewriteOutboundReferences options tags h).2 = h.
Proof.
  intros Ht. unfold rewriteOutboundReferences.
  destruct options as [p|]; [|done]. cbn. destruct (h_options h !! p) as [o|] eqn:E; [|done]. cbn.
  destruct (oo_dialer o) as [d|] eqn:Ed.
  - destruct (addDependency tags (do_Detour d) []) as [s ds] eqn:Ea.
    assert (Hs := addDependency_identity tags (do_Detour d) [] Ht). rewrite Ea in Hs. cbn in Hs. subst s.
    rewrite set_options_id; [|rewrite E; destruct o, d; cbn in *; congruence].
    destruct (has_transport _); [by apply rewrite_download_identity|done].
  - destruct (has_transport _); [by apply rewrite_download_identity|done].
Qed.

Lemma collect_references_identity tags outbounds h :
  identity_tags tags → (collect_references tags outbounds h).2 = h.
Proof.
  intros Ht. induction outbounds as [|o outbounds IH]; [done|]. cbn.
  assert (H := rewrite_identity (so_Options o) tags h Ht).
  destruct (rewriteOutboundReferences _ _ _) as [d h']. cbn in H. subst h'.
  destruct (collect_references _ _ _) as [l h']. cbn in *. done.
Qed.

Lemma known_tags_identity outbounds invalidTags : identity_tags (known_tags outbounds invalidTags).
Proof.
  unfold known_tags. set (m := set_to_map _ _).
  assert (Hm : identity_tags m).
  { intros t q E. unfold m in E. rewrite lookup_set_to_map in E by done. naive_solver. }
  revert Hm. generalize m. clear m. induction outbounds as [|o outbounds IH]; intros m Hm; cbn; [done|].
  apply IH. destruct (nonempty _); [|done]. intros t q [[<- <-]|[_ E]]%lookup_insert_Some; [done|].
  by apply Hm.
Qed.

(** ** Which chains work *)

Section valid.
Context (invalidTags : gset string) (byTag : gmap string nat) (deps : list (list string)).

Definition deps_of (i : nat) : list string := default [] (deps !! i).

(** The reference: no walk over the references meets an invalid tag, and every walk
    ends, so that there is no circle. *)
Inductive sound : nat → Prop :=
| sound_intro i :
    (∀ d, d ∈ deps_of i → d ∉ invalidTags) →
    (∀ d j, d ∈ deps_of i → byTag !! d = Some j → sound j) → sound i.

Definition refers (i j : nat) : Prop := ∃ d, d ∈ deps_of i ∧ byTag !! d = Some j.

Lemma sound_no_circle i : sound i → ¬ tc refers i i.
Proof.
  induction 1 as [i _ _ IH]. intros Hc.
  inversion Hc as [? ? (d & Hd & Hj)|? j ? (d & Hd & Hj) Hji]; subst.
  - by apply (IH d i).
  - apply (IH d j); [done..|]. eapply tc_r; [done|]. by exists d.
Qed.

Context (n : nat) (Hn : ∀ d j, byTag !! d = Some j → j < n).

(** The states tell the truth; [gray] are the indices on the way. *)
Record states_ok (gray : gset nat) (st : gmap nat validity) : Prop := {
  so_valid : ∀ i, st !! i = Some valid → sound i;
  so_invalid : ∀ i, st !! i = Some invalidState → ¬ sound i;
  so_gray : ∀ i, i ∈ gray ↔ st !! i = Some visiting;
}.

Lemma states_ok_finish gray st i v :
  states_ok ({[i]} ∪ gray) st → i ∉ gray →
  (v = valid ∧ sound i ∨ v = invalidState ∧ ¬ sound i) → states_ok gray (<[i := v]> st).
Proof.
  intros [H1 H2 H3] Hi Hv. split.
  - intros j [[-> ->]|[_ ?]]%lookup_insert_Some; [naive_solver|by apply H1].
  - intros j [[-> ->]|[_ ?]]%lookup_insert_Some; [naive_solver|by apply H2].
  - intros j. rewrite lookup_insert_Some. specialize (H3 j).
    rewrite elem_of_union, elem_of_singleton in H3. split.
    + intros Hj. right. split; [by intros <-|]. tauto.
    + intros [[-> ->]|[? ?]]; [naive_solver|]. naive_solver.
Qed.

(** What a call of [isValid] does. *)
Definition decides (rec : nat → gmap nat validity → option (bool * gmap nat validity))
    (gray : gset nat) : Prop :=
  ∀ i st, states_ok gray st → i < n → (∀ g, g ∈ gray → tc refers g i) →
    ∃ b st', rec i st = Some (b, st') ∧ (b = true ↔ sound i) ∧ states_ok gray st'.

Lemma valid_loop_decides rec gray i ds st done :
  decides rec ({[i]} ∪ gray) → i ∉ gray → (∀ g, g ∈ gray → tc refers g i) →
  deps_of i = done ++ ds → states_ok ({[i]} ∪ gray) st →
  (∀ d, d ∈ done → d ∉ invalidTags ∧ ∀ j, byTag !! d = Some j → sound j) →
  ∃ b st', valid_loop invalidTags byTag rec i ds st = Some (b, st') ∧ (b = true ↔ sound i) ∧
    states_ok gray st'.
Proof.
  intros Hrec Hi Hg. revert st done. induction ds as [|d ds IH]; intros st done Hd Hst Hdone; cbn.
  - rewrite app_nil_r in Hd.
    assert (Hs : sound i) by (constructor; rewrite Hd; intros; [by apply Hdone|by eapply Hdone]).
    eexists _, _. split; [done|]. split; [done|]. apply states_ok_finish; auto.
  - assert (Hdi : d ∈ deps_of i) by (rewrite Hd; set_solver).
    assert (Hbad : ¬ sound i → ∃ b st', Some (false, <[i := invalidState]> st) = Some (b, st') ∧
              (b = true ↔ sound i) ∧ states_ok gray st').
    { intros Hs. eexists _, _. split; [done|]. split; [naive_solver|]. apply states_ok_finish; auto. }
    assert (Hnext : deps_of i = (done ++ [d]) ++ ds) by (by rewrite <- app_assoc).
    case_bool_decide as Hinv; [apply Hbad; inversion 1; naive_solver|].
    destruct (byTag !! d) as [j|] eqn:Ej.
    + destruct (Hrec j st) as (b & st' & -> & Hb & Hst'); [done|by eapply Hn| |].
      { intros g [->%elem_of_singleton|Hgg]%elem_of_union; [apply tc_once|eapply tc_r; [by apply Hg|]];
          by exists d. }
      destruct b.
      * apply (IH st' (done ++ [d])); [done..|]. intros d' [Hd'| ->%list_elem_of_singleton]%elem_of_app.
        -- by apply Hdone.
        -- split; [done|]. intros j' Ej'. naive_solver.
      * eexists _, _. split; [done|]. assert (Hs : ¬ sound i).
        { inversion 1 as [? _ Hj]; subst. assert (sound j) by eauto. naive_solver. }
        split; [naive_solver|]. apply states_ok_finish; auto.
    + apply (IH st (done ++ [d])); [done..|]. intros d' [Hd'| ->%list_elem_of_singleton]%elem_of_app.
      * by apply Hdone.
      * split; [done|]. by rewrite Ej.
Qed.

Lemma isValid_decides fuel gray :
  gray ⊆ set_seq 0 n → n < fuel + size gray →
  decides (isValid invalidTags byTag deps fuel) gray.
Proof.
  revert gray. induction fuel as [|fuel IH]; intros gray Hgn Hf i st Hst Hi Hg.
  { apply subseteq_size in Hgn. rewrite size_set_seq in Hgn. lia. }
  cbn [isValid]. destruct (st !! i) as [[]|] eqn:E.
  - eexists _, _. split; [done|]. split; [|done]. split; [done|]. intros Hs.
    destruct (sound_no_circle i Hs). apply Hg, (so_gray _ _ Hst), E.
  - eexists _, _. split; [done|]. split; [|done]. split; [|done]. intros _. by apply (so_valid _ _ Hst).
  - eexists _, _. split; [done|]. split; [|done]. split; [done|]. intros Hs.
    by destruct (so_invalid _ _ Hst i E).
  - assert (Hig : i ∉ gray) by (rewrite (so_gray _ _ Hst), E; done).
    apply (valid_loop_decides _ gray i _ _ []).
    + apply IH; [|rewrite size_union, size_singleton by set_solver; lia].
      intros j [->%elem_of_singleton|Hj]%elem_of_union; [|by apply Hgn].
      apply elem_of_set_seq. lia.
    + done.
    + done.
    + done.
    + split.
      * intros j [[_ ?]|[_ ?]]%lookup_insert_Some; [done|by apply (so_valid _ _ Hst)].
      * intros j [[_ ?]|[_ ?]]%lookup_insert_Some; [done|by apply (so_invalid _ _ Hst)].
      * intros j. rewrite lookup_insert_Some, elem_of_union, elem_of_singleton, (so_gray _ _ Hst).
        destruct (decide (i = j)) as [->|]; naive_solver.
    + intros d []%elem_of_nil.
Qed.
End valid.

(** The outbounds with the verdict [b]. *)
Definition with_verdict (b : bool) (verdicts : list bool) (l : list SourceOutbound)
    : list SourceOutbound :=
  (filter (λ p, p.1 = b) (zip verdicts l)).*2.

Lemma filter_loop_spec invalidTags byTag deps n fuel l index st :
  (∀ d j, byTag !! d = Some j → j < n) → n < fuel → index + length l = n →
  states_ok invalidTags byTag deps ∅ st →
  ∃ verdicts, length verdicts = length l ∧
    (∀ i b, verdicts !! i = Some b → (b = true ↔ sound invalidTags byTag deps (index + i))) ∧
    filter_loop invalidTags byTag deps fuel index l st =
      Some (with_verdict true verdicts l, with_verdict false verdicts l).
Proof.
  intros Hn Hf. revert index st. induction l as [|o l IH]; intros index st Hl Hst; cbn.
  { exists []. split; [done|]. split; [done|]. done. }
  destruct (isValid_decides invalidTags byTag deps n Hn fuel ∅) with (i := index) (st := st)
    as (b & st' & -> & Hb & Hst'); [set_solver|rewrite size_empty; lia|done|cbn in Hl; lia|set_solver|].
  destruct (IH (S index) st') as (vs & Hlen & Hvs & E); [cbn in Hl; lia|done|].
  cbn. rewrite E. cbn. exists (b :: vs). split; [cbn; by rewrite Hlen|]. split.
  - intros [|i] b' Hi; cbn in Hi; [injection Hi as <-; by rewrite Nat.add_0_r|].
    rewrite Nat.add_succ_r. by apply Hvs.
  - unfold with_verdict. cbn. by destruct b.
Qed.

Lemma index_byTag_lt k l d j : index_byTag k l !! d = Some j → j < k + length l.
Proof.
  revert k. induction l as [|o l IH]; intros k; cbn; [by rewrite lookup_empty|].
  destruct (nonempty _).
  - intros [[_ ?]|[_ H]]%lookup_insert_Some; [lia|]. apply IH in H. lia.
  - intros H%IH. lia.
Qed.

(** C30 An imported outbound is kept exactly when no walk over the references from it
    meets an invalid tag or a circle; the walk itself ends and leaves the options as
    they were. *)
Theorem FilterInvalidOutbounds_keeps outbounds invalidTags h :
  ∃ verdicts, length verdicts = length outbounds ∧
    (∀ i b, verdicts !! i = Some b → (b = true ↔
       sound invalidTags (index_byTag 0 outbounds)
         (collect_references (known_tags outbounds invalidTags) outbounds h).1 i)) ∧
    FilterInvalidOutboundsWithSkipped (S (length outbounds)) outbounds invalidTags h =
      (Some (with_verdict true verdicts outbounds, with_verdict false verdicts outbounds), h).
Proof.
  unfold FilterInvalidOutboundsWithSkipped.
  assert (Hh := collect_references_identity _ outbounds h (known_tags_identity outbounds invalidTags)).
  destruct (collect_references _ _ _) as [deps h']. cbn in Hh. subst h'. cbn.
  destruct (filter_loop_spec invalidTags (index_byTag 0 outbounds) deps (length outbounds)
              (S (length outbounds)) outbounds 0 ∅) as (vs & Hlen & Hvs & ->); [|lia|done| |eauto].
  - intros d j Hj. by apply index_byTag_lt in Hj.
  - split; intros i; rewrite lookup_empty; set_solver.
Qed.

(** ** Sorting by dependencies *)

Section sort.
Context (byTag : gmap string preparedOutbound).
Context (Hby : ∀ t o, byTag !! t = Some o → po_tag o = t).

(** [t] depends on [d], an outbound of the same provider. *)
Definition depends (t d : string) : Prop :=
  ∃ o, byTag !! t = Some o ∧ d ∈ po_dependencies o ∧ is_Some (byTag !! d).

(** Every outbound comes after the ones of the provider it depends on. *)
Definition sorted (l : list preparedOutbound) : Prop :=
  ∀ l1 o l2, l = l1 ++ o :: l2 → ∀ d, d ∈ po_dependencies o → is_Some (byTag !! d) →
    d ∈ po_tag <$> l1.

Lemma sorted_snoc l o :
  sorted l → (∀ d, d ∈ po_dependencies o → is_Some (byTag !! d) → d ∈ po_tag <$> l) →
  sorted (l ++ [o]).
Proof.
  intros Hl Ho l1 o' l2 E d Hd.
  destruct l2 as [|x l2 _] using rev_ind.
  - apply app_inj_tail in E as [-> ->]. by apply Ho.
  - rewrite app_comm_cons, app_assoc in E. apply app_inj_tail in E as [-> _]. by eapply Hl.
Qed.

Lemma sorted_prefix l k : sorted (l ++ k) → sorted l.
Proof. intros H l1 o l2 -> d Hd. eapply (H l1 o (l2 ++ k)); [by rewrite <- app_assoc|done]. Qed.

Lemma sorted_no_circle l t :
  sorted l → (∀ o, o ∈ l → byTag !! po_tag o = Some o) → t ∈ po_tag <$> l → ¬ tc depends t t.
Proof.
  intros Hl Hin Ht. assert (Ha : Acc (λ d t, depends t d) t).
  { revert t Ht. induction l as [|o l IH] using rev_ind; intros t Ht; [by apply elem_of_nil in Ht|].
    assert (IH' := IH (sorted_prefix _ _ Hl) ltac:(set_solver)).
    rewrite fmap_app, elem_of_app in Ht. destruct Ht as [Ht|Ht]; [by apply IH'|].
    apply list_elem_of_singleton in Ht as ->. constructor. intros d (o' & Ho' & Hd & Hs).
    apply IH'. rewrite Hin in Ho' by set_solver. injection Ho' as <-. by eapply (Hl l o []). }
  clear Ht. induction Ha as [t _ IH]. intros Hc. inversion Hc as [? ? Hd|? d ? Hd Hdt]; subst.
  - by apply (IH t).
  - apply (IH d); [done|]. eapply tc_r; done.
Qed.

(** What the walk keeps; [gray] are the tags on the way. *)
Record visit_ok (gray : gset string) (st : visit_state) : Prop := {
  vo_gray : ∀ t, st.1 !! t = Some false ↔ t ∈ gray;
  vo_done : ∀ t, st.1 !! t = Some true ↔ t ∈ po_tag <$> st.2;
  vo_nodup : NoDup (po_tag <$> st.2);
  vo_in : ∀ o, o ∈ st.2 → byTag !! po_tag o = Some o;
  vo_sorted : sorted st.2;
}.

(** What a call of [visit] does: the tag is done, or there is a circle. *)
Definition visits (gray : gset string) (st : visit_state) (t : string)
    (r : option (result visit_state)) : Prop :=
  (∃ st', r = Some (Ok st') ∧ visit_ok gray st' ∧ t ∈ po_tag <$> st'.2 ∧ st.2 `prefix_of` st'.2) ∨
  (∃ e c, r = Some (Err e) ∧ tc depends c c).

Lemma visit_ok_push gray st t :
  visit_ok gray st → st.1 !! t = None → visit_ok ({[t]} ∪ gray) (<[t := false]> st.1, st.2).
Proof.
  intros [H1 H2 H3 H4 H5] Hn. split; cbn; [| |done..].
  - intros u. rewrite lookup_insert_Some, H1, elem_of_union, elem_of_singleton.
    destruct (decide (t = u)) as [->|]; naive_solver.
  - intros u. rewrite lookup_insert_Some, <- H2. split; [naive_solver|].
    intros Hu. right. split; [|done]. intros ->. by rewrite Hn in Hu.
Qed.

Lemma visit_ok_finish gray st t o :
  visit_ok ({[t]} ∪ gray) st → t ∉ gray → byTag !! t = Some o →
  (∀ d, d ∈ po_dependencies o → is_Some (byTag !! d) → d ∈ po_tag <$> st.2) →
  visit_ok gray (<[t := true]> st.1, st.2 ++ [o]).
Proof.
  intros [H1 H2 H3 H4 H5] Ht Ho Hd.
  assert (Htt := Hby _ _ Ho).
  assert (Hnt : st.1 !! t = Some false) by (apply H1; set_solver).
  split; cbn.
  - intros u. rewrite lookup_insert_Some. specialize (H1 u).
    rewrite elem_of_union, elem_of_singleton in H1. destruct (decide (t = u)) as [->|]; naive_solver.
  - intros u. rewrite lookup_insert_Some, fmap_app, elem_of_app, H2. cbn.
    rewrite list_elem_of_singleton, Htt. destruct (decide (t = u)) as [->|]; naive_solver.
  - rewrite fmap_app. apply NoDup_app. split; [done|]. split; [|apply NoDup_singleton].
    intros u Hu ->%list_elem_of_singleton. rewrite Htt in Hu. apply H2 in Hu. by rewrite Hnt in Hu.
  - intros o' [Ho'| ->%list_elem_of_singleton]%elem_of_app; [by apply H4|]. by rewrite Htt.
  - by apply sorted_snoc.
Qed.

Lemma visit_loop_visits rec gray t o ds st done :
  (∀ d st, visit_ok ({[t]} ∪ gray) st → is_Some (byTag !! d) →
     (∀ g, g ∈ {[t]} ∪ gray → tc depends g d) → visits ({[t]} ∪ gray) st d (rec d st)) →
  t ∉ gray → byTag !! t = Some o → (∀ g, g ∈ gray → tc depends g t) →
  po_dependencies o = done ++ ds → visit_ok ({[t]} ∪ gray) st →
  (∀ d, d ∈ done → is_Some (byTag !! d) → d ∈ po_tag <$> st.2) →
  visits gray st t (visit_loop byTag rec t o ds st).
Proof.
  intros Hrec Ht Ho Hg. revert st done. induction ds as [|d ds IH]; intros st done Hd Hst Hdone; cbn.
  - rewrite app_nil_r in Hd. left. eexists. split; [reflexivity|].
    split; [apply visit_ok_finish; [done..|by rewrite Hd]|]. cbn.
    split; [|by eexists]. rewrite fmap_app, elem_of_app. right. cbn. rewrite (Hby _ _ Ho). by left.
  - assert (Hnext : po_dependencies o = (done ++ [d]) ++ ds) by (by rewrite <- app_assoc).
    destruct (byTag !! d) as [od|] eqn:Ed.
    + assert (Hdep : depends t d) by (exists o; rewrite Ed, Hd; set_solver).
      destruct (Hrec d st) as [(st' & -> & Hst' & Hdt & Hp)|(e & c & -> & Hc)];
        [done|by eexists| | |right; by eexists _, _].
      { intros g [->%elem_of_singleton|Hgg]%elem_of_union; [by apply tc_once|].
        eapply tc_r; [by apply Hg|done]. }
      destruct (IH st' (done ++ [d])) as [(st'' & -> & H1 & H2 & H3)|?]; [done|done| | |by right].
      * intros d' [Hd'| ->%list_elem_of_singleton]%elem_of_app Hs; [|done].
        destruct Hp as [k ->]. rewrite fmap_app, elem_of_app. left. by apply Hdone.
      * left. exists st''. split; [done|]. split; [done|]. split; [done|]. by etrans.
    + apply (IH st (done ++ [d])); [done..|].
      intros d' [Hd'| ->%list_elem_of_singleton]%elem_of_app Hs; [by apply Hdone|].
      rewrite Ed in Hs. by destruct Hs.
Qed.

Lemma visitOutbound_visits fuel gray t st :
  gray ⊆ dom byTag → size (dom byTag) < fuel + size gray →
  visit_ok gray st → is_Some (byTag !! t) → (∀ g, g ∈ gray → tc depends g t) →
  visits gray st t (visitOutbound byTag fuel t st).
Proof.
  revert gray t st. induction fuel as [|fuel IH]; intros gray t st Hgd Hf Hst [o Ho] Hg.
  { apply subseteq_size in Hgd. lia. }
  cbn [visitOutbound]. destruct (st.1 !! t) as [[]|] eqn:E.
  - left. exists st. split; [done|]. split; [done|]. split; [by apply (vo_done _ _ Hst)|done].
  - right. eexists _, t. split; [done|]. by apply Hg, (vo_gray _ _ Hst).
  - rewrite Ho. cbn [default].
    assert (Htg : t ∉ gray) by (rewrite <- (vo_gray _ _ Hst), E; done).
    assert (H := visit_loop_visits (visitOutbound byTag fuel) gray t o (po_dependencies o)
                   (<[t := false]> st.1, st.2) []).
    apply H; [|done..|by apply visit_ok_push|intros d []%elem_of_nil].
    intros d st' Hst' Hd Hgd'. apply IH; [|rewrite size_union, size_singleton by set_solver; lia|done..].
    intros u [->%elem_of_singleton|Hu]%elem_of_union; [by apply elem_of_dom_2 in Ho|by apply Hgd].
Qed.
End sort.

Lemma prepared_byTag_spec l t o :
  NoDup (po_tag <$> l) → prepared_byTag l !! t = Some o ↔ o ∈ l ∧ po_tag o = t.
Proof.
  intros Hl. unfold prepared_byTag.
  assert (H : ∀ m : gmap string preparedOutbound, fold_left (λ m o, <[po_tag o := o]> m) l m !! t = Some o ↔
    (o ∈ l ∧ po_tag o = t) ∨ (t ∉ po_tag <$> l ∧ m !! t = Some o)).
  { induction l as [|x l IH]; intros m; cbn; [set_solver|].
    apply NoDup_cons in Hl as [Hx Hl]. rewrite IH by done. rewrite lookup_insert_Some, !elem_of_cons.
    assert (Ho : ∀ o, o ∈ l → po_tag o ∈ po_tag <$> l) by (intros; by apply list_elem_of_fmap_2).
    naive_solver. }
  rewrite H, lookup_empty. naive_solver.
Qed.

Lemma prepared_byTag_size l : NoDup (po_tag <$> l) → size (dom (prepared_byTag l)) = length l.
Proof.
  intros Hl. rewrite <- (length_fmap po_tag l), <- (size_list_to_set (C := gset string)) by done.
  f_equal. apply set_eq. intros t. rewrite elem_of_dom, elem_of_list_to_set, list_elem_of_fmap.
  split; [intros [o Ho]|intros (o & -> & Ho); exists o];
    rewrite prepared_byTag_spec in * by done; naive_solver.
Qed.

Lemma sort_loop_spec l fuel k st :
  NoDup (po_tag <$> l) → length l < fuel → k ⊆ l →
  visit_ok (prepared_byTag l) ∅ st →
  (∃ st', sort_loop (prepared_byTag l) fuel k st = Some (Ok st'.2) ∧
     visit_ok (prepared_byTag l) ∅ st' ∧ st.2 `prefix_of` st'.2 ∧
     ∀ o, o ∈ k → po_tag o ∈ po_tag <$> st'.2) ∨
  (∃ e c, sort_loop (prepared_byTag l) fuel k st = Some (Err e) ∧ tc (depends (prepared_byTag l)) c c).
Proof.
  intros Hl Hf. revert st. induction k as [|o k IH]; intros st Hk Hst; cbn.
  { left. exists st. split; [done|]. split; [done|]. split; [done|]. intros o []%elem_of_nil. }
  destruct (visitOutbound_visits (prepared_byTag l)) with (fuel := fuel) (gray := (∅ : gset string))
    (t := po_tag o) (st := st) as [(st' & -> & Hst' & Ht & Hp)|(e & c & -> & Hc)].
  - intros t o' Ho'. by apply prepared_byTag_spec in Ho' as [_ ?].
  - set_solver.
  - rewrite prepared_byTag_size by done. lia.
  - done.
  - exists o. apply prepared_byTag_spec; [done|]. split; [apply Hk; by left|done].
  - set_solver.
  - destruct (IH st') as [(st'' & -> & H1 & H2 & H3)|?]; [set_solver|done| |by right].
    left. exists st''. split; [done|]. split; [done|]. split; [by etrans|].
    intros o' [->|Ho']%elem_of_cons; [|by apply H3].
    destruct H2 as [x ->]. rewrite fmap_app, elem_of_app. by left.
  - right. by exists e, c.
Qed.

(** [sortOutbounds] ends; it returns every outbound of the provider once and after
    the ones it depends on, or reports a circle; it reports one exactly when there is
    one. *)
Theorem sortOutbounds_sorts outbounds :
  NoDup (po_tag <$> outbounds) →
  (∃ r, sortOutbounds (S (length outbounds)) outbounds = Some (Ok r) ∧ r ≡ₚ outbounds ∧
     sorted (prepared_byTag outbounds) r ∧ ∀ t, ¬ tc (depends (prepared_byTag outbounds)) t t) ∨
  (∃ e t, sortOutbounds (S (length outbounds)) outbounds = Some (Err e) ∧
     tc (depends (prepared_byTag outbounds)) t t).
Proof.
  intros Hl. unfold sortOutbounds.
  destruct (sort_loop_spec outbounds (S (length outbounds)) outbounds (∅, [])) as [(st & -> & Hst & _ & Hin)|?];
    [done|lia|done| | |by right].
  { split; cbn; try set_solver; [apply NoDup_nil_2|]. intros l1 o l2 E. by destruct l1. }
  left. exists st.2. split; [done|].
  assert (Hsub : st.2 ⊆+ outbounds).
  { apply NoDup_submseteq; [eapply NoDup_fmap_1, Hst|]. intros o Ho.
    apply (vo_in _ _ _ Hst) in Ho. by apply prepared_byTag_spec in Ho as [? _]. }
  assert (Hperm : st.2 ≡ₚ outbounds).
  { apply submseteq_length_Permutation; [done|].
    rewrite <- (length_fmap po_tag outbounds), <- (length_fmap po_tag st.2).
    apply submseteq_length, NoDup_submseteq; [done|].
    intros t (o & -> & Ho)%list_elem_of_fmap. by apply Hin. }
  split; [done|]. split; [apply Hst|]. intros t Hc.
  assert (Ht : t ∈ po_tag <$> st.2).
  { inversion Hc as [? ? (o & Ho & _)|? ? ? (o & Ho & _) _]; subst;
      apply prepared_byTag_spec in Ho as [Ho <-]; [|done| |done]; by apply Hin. }
  revert Hc. apply (sorted_no_circle _ (λ t o Ho, proj2 (proj1 (prepared_byTag_spec _ t o Hl) Ho)) _ _ (vo_sorted _ _ _ Hst) (vo_in _ _ _ Hst) Ht).
Qed.

(** A chain of two outbounds in the wrong order, and a circle of two. *)
Definition prepared_of (tag : string) (dependencies : list string) (i : nat) : preparedOutbound :=
  MkPrepared (MkSourceOutbound "vless" tag None) (MkSourceOutbound "vless" tag None) tag dependencies i.

Lemma sortOutbounds_sorts_witness :
  sortOutbounds 3 [prepared_of "p/a" ["p/b"%string] 0; prepared_of "p/b" [] 1] =
    Some (Ok [prepared_of "p/b" [] 1; prepared_of "p/a" ["p/b"%string] 0]) ∧
  ∃ t, tc (depends (prepared_byTag [prepared_of "p/a" ["p/b"%string] 0; prepared_of "p/b" ["p/a"%string] 1])) t t.
Proof.
  split; [vm_compute; reflexivity|].
  destruct (sortOutbounds_sorts [prepared_of "p/a" ["p/b"%string] 0; prepared_of "p/b" ["p/a"%string] 1])
    as [(r & Hr & _)|(e & t & _ & Ht)].
  - by apply (bool_decide_unpack _); vm_compute.
  - vm_compute in Hr. discriminate Hr.
  - by exists t.
Defined.

(** ** What an update affects *)

(** The reference: the changed tags and what depends on them, in either graph. *)
Inductive touched (graph : list preparedOutbound) (changed : gset string) : string → Prop :=
| touched_changed t : t ∈ changed → touched graph changed t
| touched_depends o d :
    o ∈ graph → d ∈ po_dependencies o → touched graph changed d → touched graph changed (po_tag o).

Section affect.
Context (graph : list preparedOutbound) (changed : gset string).

Definition between (A : gset string) : Prop :=
  changed ⊆ A ∧ ∀ t, t ∈ A → touched graph changed t.

Lemma affect_one_spec A c o :
  between A → o ∈ graph →
  let st := affect_one (A, c) o in
  between st.1 ∧ A ⊆ st.1 ∧
  (st.2 = false → c = false ∧ st.1 = A ∧
     ∀ d, d ∈ po_dependencies o → d ∈ A → po_tag o ∈ A) ∧
  (st.2 = true → c = true ∨ ∃ o, o ∈ graph ∧ po_tag o ∈ st.1 ∧ po_tag o ∉ A).
Proof.
  intros [H1 H2] Ho. unfold affect_one. cbn. case_bool_decide as Ht; cbn.
  { split; [done|]. split; [done|]. split; [done|]. auto. }
  destruct (existsb _ _) eqn:E; cbn.
  - apply existsb_exists in E as (d & Hd & E). apply bool_decide_eq_true in E.
    apply list_elem_of_In in Hd. split; [split|].
    + set_solver.
    + intros t [->%elem_of_singleton|Hx]%elem_of_union; [|by apply H2].
      eapply touched_depends; [done..|]. by apply H2.
    + split; [set_solver|]. split; [done|]. intros _. right. exists o. set_solver.
  - split; [done|]. split; [done|]. split; [|auto]. intros ->. split; [done|]. split; [done|].
    intros d Hd HdA. apply not_true_iff_false in E. destruct E. apply existsb_exists. exists d.
    split; [by apply list_elem_of_In|]. by rewrite bool_decide_true.
Qed.

Lemma affect_pass_spec l A c :
  between A → l ⊆ graph →
  let st := fold_left affect_one l (A, c) in
  between st.1 ∧ A ⊆ st.1 ∧
  (st.2 = false → c = false ∧ st.1 = A ∧
     ∀ o d, o ∈ l → d ∈ po_dependencies o → d ∈ A → po_tag o ∈ A) ∧
  (st.2 = true → c = true ∨ ∃ o, o ∈ graph ∧ po_tag o ∈ st.1 ∧ po_tag o ∉ A).
Proof.
  revert A c. induction l as [|o l IH]; intros A c HA Hl; cbn.
  { split; [done|]. split; [done|]. split; [|auto]. intros ->. split; [done|]. split; [done|].
    intros o d []%elem_of_nil. }
  assert (H := affect_one_spec A c o HA ltac:(set_solver)).
  destruct (affect_one (A, c) o) as [A1 c1]. cbn in H. destruct H as (H1 & H2 & H3 & H4).
  assert (H := IH A1 c1 H1 ltac:(set_solver)). destruct (fold_left affect_one l (A1, c1)) as [A2 c2].
  cbn in *. destruct H as (K1 & K2 & K3 & K4). split; [done|]. split; [set_solver|]. split.
  - intros E. destruct (K3 E) as (E1 & -> & Kc). destruct (H3 E1) as (-> & -> & Hc).
    split; [done|]. split; [done|]. intros o' d [->|Ho']%elem_of_cons; [by apply Hc|by apply Kc].
  - intros E. destruct (K4 E) as [E1|(o' & Ho' & Hi & Hn)].
    + destruct (H4 E1) as [?|(o' & Ho' & Hi & Hn)]; [by left|]. right. exists o'. set_solver.
    + right. exists o'. set_solver.
Qed.

Lemma affect_loop_spec fuel A :
  between A → size (list_to_set (po_tag <$> graph) ∖ A) < fuel →
  ∃ A', affect_loop fuel graph A = Some A' ∧ ∀ t, t ∈ A' ↔ touched graph changed t.
Proof.
  revert A. induction fuel as [|fuel IH]; intros A HA Hf; [lia|]. cbn.
  assert (H := affect_pass_spec graph A false HA ltac:(done)).
  destruct (fold_left affect_one graph (A, false)) as [A1 c1]. cbn in H.
  destruct H as (H1 & H2 & H3 & H4). destruct c1.
  - apply IH; [done|]. destruct (H4 eq_refl) as [|(o & Ho & Hi & Hn)]; [done|].
    apply Nat.lt_le_trans with (size (list_to_set (po_tag <$> graph) ∖ A)); [|lia].
    apply subset_size. split; [set_solver|]. intros Hs.
    assert (Hx : po_tag o ∈ list_to_set (C := gset string) (po_tag <$> graph) ∖ A).
    { apply elem_of_difference. split; [|done]. apply elem_of_list_to_set. by apply list_elem_of_fmap_2. }
    apply Hs in Hx. set_solver.
  - destruct (H3 eq_refl) as (_ & -> & Hc). exists A. split; [done|]. intros t. split; [apply HA|].
    induction 1 as [t Ht|o d Ho Hd _ IHd]; [by apply HA|]. by eapply Hc.
Qed.
End affect.

Lemma size_list_to_set_le (l : list string) : size (list_to_set (C := gset string) l) <= length l.
Proof.
  induction l as [|x l IH]; cbn; [by rewrite size_empty|].
  assert (H := size_union_alt {[x]} (list_to_set (C := gset string) l)).
  rewrite H, size_singleton. apply le_n_S. etrans; [|done]. apply subseteq_size. set_solver.
Qed.

(** The set of affected outbounds is computed in finitely many passes and is the
    least one: an outbound is replaced exactly when it is new, gone or changed, or
    depends, before or after the update, on one that is replaced. *)
Theorem affectedOutbounds_least h old new :
  ∃ affected, affectedOutbounds h old new = Some affected ∧
    ∀ t, t ∈ affected ↔
      touched (old ++ new) (changed_tags h (prepared_byTag old) (prepared_byTag new)) t.
Proof.
  apply affect_loop_spec.
  - split; [done|]. intros t Ht. by constructor.
  - apply Nat.le_lt_trans with (size (list_to_set (C := gset string) (po_tag <$> old ++ new))).
    + apply subseteq_size. set_solver.
    + rewrite <- (length_fmap po_tag (old ++ new)). apply Nat.lt_succ_r, size_list_to_set_le.
Qed.
