(* ===== verification/ProviderTags.v ===== *)
(** * The tags of the outbounds of a provider

    [normalizeOutboundTags] makes the tags of an import distinct; the tags they run under
    are then distinct too, which the sorting relies on. Copies keep the published
    options as they were. *)
From Stdlib Require Import Relations.
From stdpp Require Import base list gmap strings pretty sorting relations.
From S2P Require Import Prelude OutboundManager OutboundSwap ProviderGraph ProviderFacts.
Local Open Scope nat_scope.

Lemma append_nonempty a b : nonempty a = true → nonempty (a +:+ b) = true.
Proof. by destruct a. Qed.

Lemma numbered_inj base : Inj (=) (=) (numbered base).
Proof. intros i j H. unfold numbered in H. simplify_eq. done. Qed.

(** The first free one of the numbered names: the search ends, since every name it
    passes is in use. *)
Lemma free_tag_spec fuel used base tag index tried :
  tried ⊆ used → size used < fuel + size tried →
  (∀ i, index <= i → numbered base i ∉ tried) → tag ∉ tried →
  (∀ i, index <= i → numbered base i ≠ tag) →
  ∃ t, free_tag fuel used base tag index = Some t ∧ t ∉ used ∧
    (t = tag ∨ ∃ i, t = numbered base i).
Proof.
  revert tag index tried. induction fuel as [|fuel IH]; intros tag index tried Hs Hf Hn Ht Hne.
  { apply subseteq_size in Hs. lia. }
  cbn. case_bool_decide as Hu; [|eauto].
  destruct (IH (numbered base index) (S index) ({[tag]} ∪ tried)) as (t & Et & Htu & Hor).
  - set_solver.
  - rewrite size_union, size_singleton by set_solver. lia.
  - intros i Hi. apply not_elem_of_union. split; [|apply Hn; lia].
    intros Hx%elem_of_singleton. by apply (Hne i ltac:(lia)).
  - apply not_elem_of_union. split; [|by apply Hn].
    intros Hx%elem_of_singleton. by apply (Hne index ltac:(lia)).
  - intros i Hi Hx%(numbered_inj base). lia.
  - exists t. split; [done|]. split; [done|]. destruct Hor; eauto.
Qed.

(** A name that no number follows cannot be of the numbered names of itself. *)
Lemma numbered_ne base i : numbered base i ≠ base.
Proof.
  unfold numbered. generalize (pretty i). intros s H.
  induction base as [|c base IH]; [discriminate H|]. apply IH. by injection H.
Qed.

#[local] Arguments normalized_tag : simpl never.

Section tags.
Context (rename : string → string).

Lemma normalized_tag_spec i used opt :
  let t := normalized_tag rename i used opt in t ∉ used ∧ nonempty t = true.
Proof.
  unfold normalized_tag. cbn zeta. set (tag := if nonempty _ then _ else _).
  assert (Hne : nonempty tag = true) by (unfold tag; by destruct (nonempty (rename (so_Tag opt))) eqn:E).
  destruct (free_tag_spec (S (size used)) used tag tag 2 ∅) as (t & Et & Ht & Hor).
  - set_solver.
  - rewrite size_empty. lia.
  - set_solver.
  - set_solver.
  - intros j _. apply numbered_ne.
  - rewrite Et. cbn [default]. split; [done|].
    destruct Hor as [->|[j ->]]; [done|]. by apply append_nonempty.
Qed.

Lemma normalize_loop_spec i opts used tags :
  let r := normalize_loop rename i opts used tags in
  NoDup (so_Tag <$> r.1) ∧ (∀ t, t ∈ so_Tag <$> r.1 → t ∉ used ∧ nonempty t = true) ∧
  so_Options <$> r.1 = so_Options <$> opts ∧ so_Type <$> r.1 = so_Type <$> opts.
Proof.
  revert i used tags. induction opts as [|o opts IH]; intros i used tags; cbn.
  { split; [apply NoDup_nil_2|]. split; [intros t []%elem_of_nil|done]. }
  destruct (normalized_tag_spec i used o) as [H1 H2].
  set (t := normalized_tag rename i used o) in *.
  match goal with |- context [normalize_loop _ (S i) opts _ ?tg] =>
    destruct (IH (S i) ({[t]} ∪ used) tg) as (K1 & K2 & K3 & K4);
    destruct (normalize_loop rename (S i) opts ({[t]} ∪ used) tg) as [l tg'] end.
  cbn in *. split; [|split; [|split; by f_equal]].
  - apply NoDup_cons. split; [|done]. intros [Hx _]%K2. set_solver.
  - intros u [->|Hu]%elem_of_cons; [done|]. destruct (K2 u Hu). set_solver.
Qed.

(** The map of renamed tags: a source tag stands for the first outbound that had it. *)
Lemma normalize_loop_tags i opts used tags t :
  let r := normalize_loop rename i opts used tags in
  r.2 !! t = match tags !! t with
             | Some q => Some q
             | None => if nonempty t then
                 (λ p, so_Tag p.2) <$> List.find (λ p, bool_decide (so_Tag p.1 = t)) (zip opts r.1)
               else None
             end.
Proof.
  revert i used tags. induction opts as [|o opts IH]; intros i used tags; cbn.
  { by destruct (tags !! t), (nonempty t). }
  set (nt := normalized_tag rename i used o).
  match goal with |- context [normalize_loop _ (S i) opts _ ?tg] =>
    assert (K := IH (S i) ({[nt]} ∪ used) tg);
    destruct (normalize_loop rename (S i) opts ({[nt]} ∪ used) tg) as [l tg'] end.
  cbn in *. rewrite K. destruct (decide (so_Tag o = t)) as [<-|Hne].
  - rewrite (bool_decide_true (so_Tag o = so_Tag o)) by done. cbn.
    destruct (nonempty (so_Tag o)) eqn:En, (tags !! so_Tag o) eqn:Et; cbn;
      rewrite ?(bool_decide_true (None = None)) by done; rewrite ?(bool_decide_false (Some _ = None)) by done;
      rewrite ?lookup_insert_eq, ?Et, ?En; done.
  - rewrite (bool_decide_false (so_Tag o = t)) by done.
    destruct (_ && _); [by rewrite lookup_insert_ne|done].
Qed.

(** After an import was normalized no two outbounds share a tag and none is empty;
    the list is otherwise the same; and references are rewritten by a map that takes a
    tag to the new tag of the first outbound that had it. *)
Theorem normalizeOutboundTags_distinct opts h :
  let r := normalizeOutboundTags rename opts h in
  NoDup (so_Tag <$> r.1) ∧ (∀ o, o ∈ r.1 → nonempty (so_Tag o) = true) ∧
  so_Options <$> r.1 = so_Options <$> opts ∧ so_Type <$> r.1 = so_Type <$> opts ∧
  ∃ tags : gmap string string,
    (∀ t, tags !! t = if nonempty t then
       (λ p, so_Tag p.2) <$> List.find (λ p, bool_decide (so_Tag p.1 = t)) (zip opts r.1) else None) ∧
    r.2 = fold_left (λ h o, (rewriteOutboundReferences (so_Options o) tags h).2) r.1 h.
Proof.
  unfold normalizeOutboundTags.
  destruct (normalize_loop_spec 0 opts ∅ ∅) as (H1 & H2 & H3 & H4).
  assert (H5 := normalize_loop_tags 0 opts ∅ ∅).
  destruct (normalize_loop rename 0 opts ∅ ∅) as [l tags]. cbn in *.
  split; [done|]. split; [intros o Ho; apply H2; by apply list_elem_of_fmap_2|].
  split; [done|]. split; [done|]. exists tags. split; [|done]. intros t. by rewrite H5, lookup_empty.
Qed.
End tags.

(** ** Copies: what was there before an update stays as it was *)

(** Nothing is stored at the pointers still to be given out, and a stored pointer was
    given out. *)
Record heap_wf (h : heap) : Prop := {
  hw_options : ∀ p v, h_options h !! p = Some v → p < h_next h;
  hw_transports : ∀ p v, h_transports h !! p = Some v → p < h_next h;
  hw_downloads : ∀ p v, h_downloads h !! p = Some v → p < h_next h;
}.

(** The cells below [b] are the same. *)
Definition agree_below (b : nat) (h h' : heap) : Prop :=
  ∀ p, p < b → h_options h' !! p = h_options h !! p ∧
    h_transports h' !! p = h_transports h !! p ∧ h_downloads h' !! p = h_downloads h !! p.

(** Everything that rewriting the references of [options] writes to is at [b] or above. *)
Definition owned (b : nat) (options : option nat) (h : heap) : Prop :=
  ∀ p, options = Some p → b <= p ∧
    ∀ v q, h_options h !! p = Some v → has_transport (oo_kind v) = true → oo_Transport v = Some q →
    b <= q ∧ ∀ t r, h_transports h !! q = Some t → to_Download t = Some r → b <= r.

Lemma agree_refl b h : agree_below b h h.
Proof. done. Qed.

Lemma agree_trans b b' h1 h2 h3 :
  b <= b' → agree_below b h1 h2 → agree_below b' h2 h3 → agree_below b h1 h3.
Proof.
  intros Hb H1 H2 p Hp. destruct (H2 p ltac:(lia)) as (-> & -> & ->). by apply H1.
Qed.

Lemma agree_set_options b p v h : b <= p → agree_below b h (set_options p v h).
Proof. intros Hp q Hq. cbn. by rewrite lookup_insert_ne by lia. Qed.
Lemma agree_set_transport b p v h : b <= p → agree_below b h (set_transport p v h).
Proof. intros Hp q Hq. cbn. by rewrite lookup_insert_ne by lia. Qed.
Lemma agree_set_download b p v h : b <= p → agree_below b h (set_download p v h).
Proof. intros Hp q Hq. cbn. by rewrite lookup_insert_ne by lia. Qed.


Lemma alloc_download_wf v h : heap_wf h → heap_wf (next_pointer (set_download (h_next h) v h)).
Proof.
  intros [H1 H2 H3]. split; intros p w; cbn; rewrite ?lookup_insert_Some; intros H;
    [apply H1 in H|apply H2 in H|destruct H as [[<- _]|[_ H]]; [|apply H3 in H]]; lia.
Qed.
Lemma alloc_transport_wf v h : heap_wf h → heap_wf (next_pointer (set_transport (h_next h) v h)).
Proof.
  intros [H1 H2 H3]. split; intros p w; cbn; rewrite ?lookup_insert_Some; intros H;
    [apply H1 in H|destruct H as [[<- _]|[_ H]]; [|apply H2 in H]|apply H3 in H]; lia.
Qed.
Lemma alloc_options_wf v h : heap_wf h → heap_wf (next_pointer (set_options (h_next h) v h)).
Proof.
  intros [H1 H2 H3]. split; intros p w; cbn; rewrite ?lookup_insert_Some; intros H;
    [destruct H as [[<- _]|[_ H]]; [|apply H1 in H]|apply H2 in H|apply H3 in H]; lia.
Qed.

(** A copy: the old cells stay, the new ones are owned by it. *)
Lemma cloneV2RayTransport_spec transport h p h' :
  heap_wf h → cloneV2RayTransport transport h = (p, h') →
  heap_wf h' ∧ h_next h <= h_next h' ∧ agree_below (h_next h) h h' ∧
  ∀ q, p = Some q → h_next h <= q ∧
    ∀ t r, h_transports h' !! q = Some t → to_Download t = Some r → h_next h <= r.
Proof.
  intros Hh. unfold cloneV2RayTransport.
  destruct transport as [tp|]; [|by intros [= <- <-]].
  destruct (h_transports h !! tp) as [t|]; [|by intros [= <- <-]].
  destruct (to_Download t ≫= λ d, h_downloads h !! d) as [v|] eqn:Ed.
  - destruct (to_Download t) as [d|]; [|done]. cbn in Ed. rewrite Ed. intros [= <- <-].
    split; [by apply alloc_transport_wf, alloc_download_wf|]. cbn. split; [lia|]. split.
    + intros q Hq. cbn. by rewrite !lookup_insert_ne by lia.
    + intros q [= <-]. split; [lia|]. rewrite lookup_insert_eq. intros t' r [= <-] [= <-]. lia.
  - assert (E : (match to_Download t with
       | Some d => match h_downloads h !! d with
         | Some v => (Some (h_next h), next_pointer (set_download (h_next h) v h))
         | None => (None, h) end
       | None => (None, h) end) = (None, h)).
    { destruct (to_Download t); [cbn in Ed; by rewrite Ed|done]. }
    rewrite E. intros [= <- <-]. split; [by apply alloc_transport_wf|]. cbn. split; [lia|]. split.
    + intros q Hq. cbn. by rewrite lookup_insert_ne by lia.
    + intros q [= <-]. split; [lia|]. rewrite lookup_insert_eq. by intros t' r [= <-].
Qed.

Lemma cloneOptions_spec options h p h' :
  heap_wf h → cloneOptions options h = (p, h') →
  heap_wf h' ∧ h_next h <= h_next h' ∧ agree_below (h_next h) h h' ∧ owned (h_next h) p h'.
Proof.
  intros Hh. unfold cloneOptions, owned.
  destruct options as [op|]; [|intros [= <- <-]; split; [done|]; split; [done|]; by split].
  destruct (h_options h !! op) as [o|]; [|intros [= <- <-]; split; [done|]; split; [done|]; by split].
  destruct (has_transport (oo_kind o)) eqn:Ek.
  - destruct (cloneV2RayTransport (oo_Transport o) h) as [tp h1] eqn:Et. intros [= <- <-].
    apply cloneV2RayTransport_spec in Et as (H1 & H2 & H3 & H4); [|done].
    split; [by apply alloc_options_wf|]. cbn. split; [lia|]. split.
    + eapply agree_trans; [done..|]. intros q Hq. cbn. by rewrite lookup_insert_ne by lia.
    + intros q [= <-]. split; [lia|]. rewrite lookup_insert_eq. intros v r [= <-] _ Hr. by apply H4.
  - intros [= <- <-]. split; [by apply alloc_options_wf|]. cbn. split; [lia|]. split.
    + intros q Hq. cbn. by rewrite lookup_insert_ne by lia.
    + intros q [= <-]. split; [lia|]. rewrite lookup_insert_eq. intros v r [= <-]. cbn. by rewrite Ek.
Qed.

Lemma set_options_wf p v h : heap_wf h → is_Some (h_options h !! p) → heap_wf (set_options p v h).
Proof.
  intros [H1 H2 H3] [o Ho]. split; [|done..]. intros q w. cbn. rewrite lookup_insert_Some. intros [[<- _]|[_ H]]; eauto.
Qed.
Lemma set_download_wf p v h : heap_wf h → is_Some (h_downloads h !! p) → heap_wf (set_download p v h).
Proof.
  intros [H1 H2 H3] [o Ho]. split; [done..|]. intros q w. cbn. rewrite lookup_insert_Some. intros [[<- _]|[_ H]]; eauto.
Qed.

(** Writing to what is owned. *)
Lemma rewrite_download_owned b transport tags ds h h' ds' :
  heap_wf h →
  (∀ q t r, transport = Some q → h_transports h !! q = Some t → to_Download t = Some r → b <= r) →
  rewriteXHTTPDownloadDetour transport tags ds h = (ds', h') →
  heap_wf h' ∧ h_next h' = h_next h ∧ agree_below b h h'.
Proof.
  intros Hh Hb. unfold rewriteXHTTPDownloadDetour.
  destruct transport as [q|]; [|by intros [= <- <-]]. cbn.
  destruct (h_transports h !! q) as [t|] eqn:Et; [|by intros [= <- <-]].
  case_bool_decide; [|by intros [= <- <-]].
  destruct (to_Download t) as [r|] eqn:Er; [|by intros [= <- <-]].
  destruct (h_downloads h !! r) as [v|] eqn:Ev; [|by intros [= <- <-]].
  destruct (addDependency _ _ _). intros [= <- <-].
  split; [by apply set_download_wf|]. split; [done|]. apply agree_set_download. by eapply Hb.
Qed.

Lemma rewrite_owned b options tags h h' ds :
  heap_wf h → owned b options h → rewriteOutboundReferences options tags h = (ds, h') →
  heap_wf h' ∧ h_next h' = h_next h ∧ agree_below b h h'.
Proof.
  intros Hh Ho. unfold rewriteOutboundReferences.
  destruct options as [p|]; [|by intros [= <- <-]]. cbn.
  destruct (h_options h !! p) as [o|] eqn:Ep; [|by intros [= <- <-]]. cbn.
  destruct (Ho p eq_refl) as [Hp Hq].
  set (h1 := match oo_dialer o with Some _ => _ | None => ([], h) end).
  assert (H1 : heap_wf h1.2 ∧ h_next h1.2 = h_next h ∧ agree_below b h h1.2 ∧
            h_transports h1.2 = h_transports h).
  { unfold h1. destruct (oo_dialer o); [|done]. destruct (addDependency _ _ _). cbn.
    split; [by apply set_options_wf|]. split; [done|]. split; [by apply agree_set_options|done]. }
  destruct h1 as [ds1 h1]. cbn in H1. destruct H1 as (K1 & K2 & K3 & K4).
  destruct (has_transport (oo_kind o)) eqn:Ek; [|by intros [= <- <-]].
  intros E. eapply (rewrite_download_owned b) in E as (L1 & L2 & L3); [|done|].
  - split; [done|]. split; [lia|]. by eapply (agree_trans b b).
  - intros q t r Eq. rewrite K4. intros Et Er. destruct (Hq o q Ep Ek Eq) as [_ Hr]. by eapply Hr.
Qed.

Lemma applyDefaultDetour_owned b options detour h :
  heap_wf h → owned b options h →
  let h' := applyDefaultDetour options detour h in
  heap_wf h' ∧ h_next h' = h_next h ∧ agree_below b h h' ∧ owned b options h'.
Proof.
  intros Hh Ho. unfold applyDefaultDetour. destruct (negb (nonempty detour)); [done|].
  destruct options as [p|]; [|done]. cbn. destruct (h_options h !! p) as [o|] eqn:Ep; [|done]. cbn.
  destruct (oo_dialer o) as [d|]; [|done]. destruct (nonempty (do_Detour d)); [done|].
  destruct (Ho p eq_refl) as [Hp Hq].
  split; [by apply set_options_wf|]. split; [done|]. split; [by apply agree_set_options|].
  intros q [= <-]. split; [done|]. cbn. rewrite lookup_insert_eq. intros v r [= <-]. cbn. by apply Hq.
Qed.

Lemma cloneOutbounds_spec l h l' h' :
  heap_wf h → cloneOutbounds l h = (l', h') →
  heap_wf h' ∧ h_next h <= h_next h' ∧ agree_below (h_next h) h h'.
Proof.
  revert h l' h'. induction l as [|o l IH]; intros h l' h' Hh; cbn; [by intros [= <- <-]|].
  destruct (cloneOptions (so_Options o) h) as [p h1] eqn:E1.
  destruct (cloneOutbounds l h1) as [k h2] eqn:E2. intros [= <- <-].
  apply cloneOptions_spec in E1 as (H1 & H2 & H3 & _); [|done].
  apply IH in E2 as (K1 & K2 & K3); [|done]. split; [done|]. split; [lia|]. by eapply agree_trans.
Qed.

Lemma prepare_loop_spec providerTag tags detour i l h l' h' :
  heap_wf h → prepare_loop providerTag tags detour i l h = (l', h') →
  heap_wf h' ∧ h_next h <= h_next h' ∧ agree_below (h_next h) h h'.
Proof.
  revert i h l' h'. induction l as [|o l IH]; intros i h l' h' Hh; cbn; [by intros [= <- <-]|].
  destruct (cloneOptions (so_Options o) h) as [p h1] eqn:E1.
  apply cloneOptions_spec in E1 as (H1 & H2 & H3 & H4); [|done].
  destruct (applyDefaultDetour_owned _ p detour h1 H1 H4) as (K1 & K2 & K3 & K4).
  destruct (rewriteOutboundReferences p tags _) as [ds h2] eqn:E2.
  apply (rewrite_owned (h_next h)) in E2 as (L1 & L2 & L3); [|done..].
  destruct (prepare_loop providerTag tags detour (S i) l h2) as [k h3] eqn:E3. intros [= <- <-].
  apply IH in E3 as (M1 & M2 & M3); [|done]. split; [done|]. split; [lia|].
  eapply (agree_trans _ (h_next h)); [done| |eapply (agree_trans _ (h_next h2)); [lia|exact L3|done]].
  by eapply (agree_trans _ (h_next h)).
Qed.

Lemma prepareOutbounds_spec fuel providerTag l detour h r h' :
  heap_wf h → prepareOutbounds fuel providerTag l detour h = (r, h') →
  heap_wf h' ∧ h_next h <= h_next h' ∧ agree_below (h_next h) h h'.
Proof.
  intros Hh. unfold prepareOutbounds. destruct (prepare_loop _ _ _ _ _ _) as [k h1] eqn:E.
  intros [= <- <-]. by eapply prepare_loop_spec.
Qed.

Lemma FilterInvalidOutbounds_heap l invalidTags h : (FilterInvalidOutbounds l invalidTags h).2 = h.
Proof.
  unfold FilterInvalidOutbounds, FilterInvalidOutboundsWithSkipped.
  assert (Hh := collect_references_identity _ l h (known_tags_identity l invalidTags)).
  by destruct (collect_references _ _ _).
Qed.

(** An update rewrites references in copies only: whatever it ends with, the options
    that existed before it, those it was given and those published before, are as they
    were. *)
Theorem UpdateOutbounds_keeps_options lc ep registry order newOpts a m h a' m' h' err :
  heap_wf h → UpdateOutbounds lc ep registry order newOpts a m h = (a', m', h', err) →
  agree_below (h_next h) h h'.
Proof.
  intros Hh. unfold UpdateOutbounds.
  assert (H0 := FilterInvalidOutbounds_heap newOpts ∅ h).
  destruct (FilterInvalidOutbounds newOpts ∅ h) as [src h0]. cbn in H0. subst h0.
  destruct (cloneOutbounds (a_outboundOpts a) h) as [oldOpts h1] eqn:E1.
  apply cloneOutbounds_spec in E1 as (K1 & K2 & K3); [|done].
  destruct (_ && _); [by intros [= <- <- <- <-]|].
  destruct (cloneOutbounds src h1) as [new h2] eqn:E2.
  apply cloneOutbounds_spec in E2 as (L1 & L2 & L3); [|done].
  destruct (prepareOutbounds _ _ oldOpts _ h2) as [oldR h3] eqn:E3.
  apply prepareOutbounds_spec in E3 as (M1 & M2 & M3); [|done].
  assert (H3 : agree_below (h_next h) h h3).
  { eapply agree_trans; [|done|eapply agree_trans; [|done|done]]; lia. }
  destruct oldR as [[old|e|e]|]; [|by intros [= <- <- <- <-]..].
  destruct (prepareOutbounds _ _ new _ h3) as [newR h4] eqn:E4.
  apply prepareOutbounds_spec in E4 as (N1 & N2 & N3); [|done].
  assert (H4 : agree_below (h_next h) h h4) by (eapply agree_trans; [|done|done]; lia).
  destruct newR as [[new'|e|e]|]; [|by intros [= <- <- <- <-]..].
  destruct (replaceOutbounds _ _ _ _ _ _ _ _) as [m1 [e|[replaced applied]]].
  - destruct (publishOutbounds _ _ _). by intros [= <- <- <- <-].
  - destruct (publishOutbounds _ _ _) as [a1 [e|]]; by intros [= <- <- <- <-].
Qed.

(** Two outbounds: the first dials through the second and downloads through it too. *)
Definition x_heap : heap :=
  MkHeap
    {[0 := MkOutboundOptions VLESSOutboundOptions (Some (MkDialerOptions "b" "")) (Some 1) "uuid";
      3 := MkOutboundOptions OtherOutboundOptions (Some (MkDialerOptions "" "")) None ""]}
    {[1 := MkTransportOptions "xhttp" (Some 2) ""]} {[2 := MkDownloadOptions "b" ""]} 4.
Definition x_opts : list SourceOutbound :=
  [MkSourceOutbound "vless" "a" (Some 0); MkSourceOutbound "socks" "b" (Some 3)].
Definition x_adapter : Adapter := MkAdapter "p" "" [] ∅ ∅ [] [] 0.
Definition x_registry : Registry := λ _ o,
  inr (MkOutbound (Pos.of_succ_nat (po_position o)) (so_Type (po_runtime o)) (po_tag o)
         (po_dependencies o) false false).

Lemma x_heap_wf : heap_wf x_heap.
Proof.
  split; intros p v H; cbn in *; try (apply lookup_insert_Some in H as [[<- _]|[_ H]]; [lia|]);
    apply lookup_singleton_Some in H as [<- _]; lia.
Qed.

Lemma UpdateOutbounds_keeps_options_witness :
  ∃ a' m' h',
    UpdateOutbounds still no_endpoints x_registry someRange x_opts x_adapter (NewManager "") x_heap =
      (a', m', h', None) ∧
    ob_Tag <$> a_outbounds a' = ["p/a"%string; "p/b"%string] ∧
    ob_Tag <$> m_outbounds m' = ["p/b"%string; "p/a"%string] ∧
    agree_below 4 x_heap h'.
Proof.
  eexists _, _, _. split; [vm_compute; reflexivity|].
  split; [vm_compute; reflexivity|]. split; [vm_compute; reflexivity|].
  eapply (UpdateOutbounds_keeps_options still no_endpoints x_registry someRange x_opts x_adapter
           (NewManager "") x_heap _ _ _ None).
  - apply x_heap_wf.
  - vm_compute. reflexivity.
Defined.
