(* ===== verification/ProviderReplace.v ===== *)
(** * Replacing the outbounds of a started manager

    [replaceStartedOutbounds] starts candidates beside the running outbounds and swaps
    them in. Here: whatever fails, nothing that was started is left running unpublished,
    and what ran before keeps running. *)
From stdpp Require Import base list gmap strings.
From S2P Require Import Prelude OutboundManager OutboundFacts OutboundSwap ProviderGraph.

(** ** The children of a scope *)

(** [c] is one of the outbounds [l] that a removal closes. *)
Definition closed_by (l : list Outbound) (c : Outbound) : Prop :=
  ∃ o, o ∈ l ∧ ob_isLifecycle o = true ∧ ob_id o = ob_id c.

Lemma removeOutbound_children lc o s c :
  c ∈ sc_children (removeOutbound lc o s).1 ↔ c ∈ sc_children s ∧ ¬ closed_by [o] c.
Proof.
  assert (Hc : closed_by [o] c ↔ ob_isLifecycle o = true ∧ same o c = true).
  { unfold closed_by. setoid_rewrite list_elem_of_singleton. rewrite same_true. naive_solver. }
  rewrite Hc. unfold removeOutbound, Scope_Remove.
  destruct (ob_isLifecycle o); cbn; [|naive_solver].
  destruct (has_child o s) eqn:E; cbn.
  - rewrite list_elem_of_filter. destruct (same o c); naive_solver.
  - split; [|naive_solver]. intros Hin. split; [done|]. intros [_ Hs].
    unfold has_child in E. apply not_true_iff_false in E. apply E, existsb_exists.
    exists c. split; [by apply list_elem_of_In|done].
Qed.

Lemma removeOutboundsReverse_children lc l s c :
  c ∈ sc_children (removeOutboundsReverse lc l s) ↔ c ∈ sc_children s ∧ ¬ closed_by l c.
Proof.
  unfold removeOutboundsReverse.
  assert (H : ∀ k s, c ∈ sc_children (fold_left (λ s o, (removeOutbound lc o s).1) k s) ↔
    c ∈ sc_children s ∧ ¬ closed_by k c).
  { induction k as [|o k IH]; intros s1; cbn.
    - unfold closed_by. split; [|tauto]. intros Hc. split; [done|]. intros (o & []%elem_of_nil & _).
    - rewrite IH, removeOutbound_children. unfold closed_by. setoid_rewrite elem_of_cons.
      setoid_rewrite elem_of_nil. naive_solver. }
  rewrite H. unfold closed_by. by setoid_rewrite elem_of_reverse.
Qed.

(** ** Starting the candidates *)

Lemma Scope_Start_children lc name o stage s s' err c :
  Scope_Start lc name o stage s = (s', err) →
  (c ∈ sc_children s → c ∈ sc_children s') ∧
  (c ∈ sc_children s' → c ∈ sc_children s ∨ c = o) ∧
  (err = None → ∃ c', c' ∈ sc_children s' ∧ ob_id c' = ob_id o).
Proof.
  unfold Scope_Start. destruct (sc_done s); [naive_solver|].
  set (s1 := if has_child o s then s else _).
  assert (H1 : (c ∈ sc_children s → c ∈ sc_children s1) ∧
    (c ∈ sc_children s1 → c ∈ sc_children s ∨ c = o) ∧
    ∃ c', c' ∈ sc_children s1 ∧ ob_id c' = ob_id o).
  { unfold s1. destruct (has_child o s) eqn:E.
    - split; [done|]. split; [by left|]. apply existsb_exists in E as (c' & Hc & Hs).
      exists c'. split; [by apply list_elem_of_In|]. apply same_true in Hs. done.
    - cbn. setoid_rewrite elem_of_app. setoid_rewrite list_elem_of_singleton. naive_solver. }
  destruct (lc_Start lc o stage); intros [= <- <-]; naive_solver.
Qed.

Section start.
Context (lc : Lifecycles) (prepared : gmap string preparedOutbound) (candidates : list Outbound).
Context (s0 : Scope).

(** What the starting keeps: the children of before, and candidates beside them. *)
Definition beside (st : Scope * gset string) : Prop :=
  (∀ c, c ∈ sc_children s0 → c ∈ sc_children st.1) ∧
  (∀ c, c ∈ sc_children st.1 → c ∈ sc_children s0 ∨ (c ∈ candidates ∧ ob_isLifecycle c = true)).

(** [c] runs, or is marked invalid. *)
Definition runs (st : Scope * gset string) (c : Outbound) : Prop :=
  ob_isLifecycle c = true → ob_Tag c ∉ st.2 → ∃ c', c' ∈ sc_children st.1 ∧ ob_id c' = ob_id c.

Lemma start_candidate_spec stage st c :
  c ∈ candidates → beside st →
  let st' := start_candidate lc prepared stage st c in
  beside st' ∧ runs st' c ∧ st.2 ⊆ st'.2 ∧ (∀ x, x ∈ sc_children st.1 → x ∈ sc_children st'.1).
Proof.
  destruct st as [s invalid]. intros Hc Hb. unfold start_candidate, runs. cbn.
  case_bool_decide as Ht; [cbn; naive_solver|].
  destruct (existsb _ _); [cbn; set_solver|].
  destruct (ob_isLifecycle c) eqn:El; cbn; [|naive_solver].
  destruct (Scope_Start lc (outbound_name c) c stage s) as [s' err] eqn:E.
  assert (HS := λ x, Scope_Start_children _ _ _ _ _ _ _ x E).
  assert (Hb' : ∀ I, beside (s', I)).
  { intros I. destruct Hb as [H1 H2]. split; cbn in *; [intros x Hx; by apply HS, H1|].
    intros x Hx. destruct (proj1 (proj2 (HS x)) Hx) as [Hx'| ->]; [by apply H2|by right]. }
  destruct err as [e|]; cbn.
  - split; [apply Hb'|]. split; [set_solver|]. split; [set_solver|]. intros x. apply HS.
  - split; [apply Hb'|]. split; [intros _ _; by apply (HS c)|]. split; [done|]. intros x. apply HS.
Qed.

Lemma start_stage_spec stage l st :
  l ⊆ candidates → beside st →
  let st' := fold_left (start_candidate lc prepared stage) l st in
  beside st' ∧ (∀ c, c ∈ l ∨ runs st c → runs st' c) ∧ st.2 ⊆ st'.2 ∧
  (∀ x, x ∈ sc_children st.1 → x ∈ sc_children st'.1).
Proof.
  revert st. induction l as [|c l IH]; intros st Hl Hb; cbn.
  { split; [done|]. split; [|done]. intros c [[]%elem_of_nil|?]; done. }
  destruct (start_candidate_spec stage st c) as (H1 & H2 & H3 & H4); [set_solver|done|].
  destruct (IH (start_candidate lc prepared stage st c)) as (K1 & K2 & K3 & K4); [set_solver|done|].
  assert (Hmono : ∀ x, runs st x → runs (start_candidate lc prepared stage st c) x).
  { intros x Hx Hlx Htx. destruct Hx as (x' & Hx' & E); [done|set_solver|]. eauto. }
  split; [done|]. split; [|split; [set_solver|auto]].
  intros x [[->|Hx]%elem_of_cons|Hx]; apply K2; auto.
Qed.

Lemma start_candidates_spec stage invalid :
  let st' := start_candidates lc prepared candidates stage (s0, invalid) in
  beside st' ∧ (∀ c, c ∈ candidates → runs st' c).
Proof.
  unfold start_candidates.
  assert (E : ∃ l, filter (λ st, (stage_index st <= stage_index stage)%nat) ListStartStages =
                   StartStateInitialize :: l) by (destruct stage; eexists; reflexivity).
  destruct E as [l ->]. cbn.
  assert (Hb0 : beside (s0, invalid)) by (split; cbn; naive_solver).
  destruct (start_stage_spec StartStateInitialize candidates (s0, invalid)) as (H1 & H2 & _ & _);
    [done..|].
  set (st := fold_left _ candidates (s0, invalid)) in *.
  assert (Hr : ∀ c, c ∈ candidates → runs st c) by auto. clearbody st. clear H2.
  revert st H1 Hr. induction l as [|stg l IH]; intros st H1 Hr; cbn; [done|].
  destruct (start_stage_spec stg candidates st) as (K1 & K2 & _ & _); [done..|]. apply IH; auto.
Qed.
End start.

(** ** Building the candidates *)

Section build.
Context (ep : EndpointManager) (registry : Registry) (m : Manager) (new : list preparedOutbound).

(** The registry makes a new outbound of the tag it is asked for. *)
Record registry_ok (s : Scope) : Prop := {
  rg_tag : ∀ o c, o ∈ new → registry m o = inr c → ob_Tag c = po_tag o;
  rg_fresh : ∀ o c, o ∈ new → registry m o = inr c →
    ob_id c ∉ ob_id <$> m_outbounds m ∧ ob_id c ∉ ob_id <$> sc_children s;
  rg_inj : ∀ o o' c c', o ∈ new → o' ∈ new → registry m o = inr c → registry m o' = inr c' →
    ob_id c = ob_id c' → o = o';
}.

(** The candidates built from [l]. *)
Definition built (l : list preparedOutbound) (b : building) : Prop :=
  (∀ c, c ∈ bd_candidates b → ∃ o, o ∈ l ∧ registry m o = inr c) ∧
  (∀ o, o ∈ l → po_tag o ∉ bd_invalid b → ∃ c, registry m o = inr c ∧ c ∈ bd_candidates b) ∧
  NoDup (ob_id <$> bd_candidates b).

Lemma build_candidate_spec s l o b :
  registry_ok s → l ++ [o] ⊆ new → o ∉ l → built l b →
  built (l ++ [o]) (build_candidate ep registry m b o).
Proof.
  intros Hreg Hnew Hol (H1 & H2 & H3). unfold build_candidate.
  assert (Hinv : built (l ++ [o]) (mark_invalid (po_tag o) b)).
  { split; [|split]; cbn; [|intros o' Ho' Ht; apply H2; set_solver|done].
    intros c Hc. destruct (H1 c Hc) as (o' & Ho' & E). exists o'. set_solver. }
  destruct (nonempty _); [done|]. destruct (registry m o) as [e|c] eqn:E; [done|].
  split; [|split]; cbn.
  - intros c' [Hc'| ->%list_elem_of_singleton]%elem_of_app.
    + destruct (H1 c' Hc') as (o' & Ho' & E'). exists o'. set_solver.
    + exists o. set_solver.
  - intros o' [Ho'| ->%list_elem_of_singleton]%elem_of_app Ht.
    + destruct (H2 o' Ho' Ht) as (c' & E' & Hc'). exists c'. set_solver.
    + exists c. set_solver.
  - rewrite fmap_app. apply NoDup_app. split; [done|]. split; [|apply NoDup_singleton].
    intros i (c' & -> & Hc')%list_elem_of_fmap Hi%list_elem_of_singleton.
    destruct (H1 c' Hc') as (o' & Ho' & E'). apply Hol.
    by rewrite <- (rg_inj _ Hreg o' o c' c) by (done || set_solver).
Qed.

Lemma build_spec s l :
  registry_ok s → l ⊆ new → NoDup l →
  built l (fold_left (build_candidate ep registry m) l (MkBuilding [] ∅ ∅ ∅)).
Proof.
  intros Hreg. induction l as [|o l IH] using rev_ind; intros Hl Hn; cbn.
  { split; [intros c []%elem_of_nil|]. split; [intros o []%elem_of_nil|apply NoDup_nil_2]. }
  apply NoDup_app in Hn as (Hn & Ho & _). rewrite fold_left_app. cbn.
  apply (build_candidate_spec s); [done..|set_solver|]. apply IH; [set_solver|done].
Qed.
End build.

Lemma start_candidates_invalid lc prepared candidates stage s invalid :
  invalid ⊆ (start_candidates lc prepared candidates stage (s, invalid)).2.
Proof.
  unfold start_candidates.
  assert (H1 : ∀ stage l st, st.2 ⊆ (fold_left (start_candidate lc prepared stage) l st).2).
  { intros stg l. induction l as [|c l IH]; intros st; cbn; [done|]. etrans; [|apply IH].
    destruct st as [s1 i1]. unfold start_candidate. repeat case_match; cbn; set_solver. }
  generalize (filter (λ st, (stage_index st <= stage_index stage)%nat) ListStartStages).
  intros stages. change invalid with ((s, invalid).2) at 1. generalize (s, invalid).
  induction stages as [|stg stages IH]; intros st; cbn; [done|]. etrans; [|apply IH]. apply H1.
Qed.

(** ** The replacement as a whole *)

Section replace.
Context (lc : Lifecycles) (ep : EndpointManager) (registry : Registry) (order : MapRange).
Context (m : Manager) (s : Scope) (old new : list preparedOutbound).
Context (Hm : mgr_wf ep m) (Hreg : registry_ok registry m new s) (Hnew : NoDup (po_tag <$> new)).

(** What [replaceStartedOutbounds] ends with: after an error the scope and the lists are
    those of before; otherwise what runs ran before or is published, and every affected
    outbound that was applied is published and runs. *)
Definition replaced_safely (affected : gset string) (m' : Manager) (s' : Scope)
    (r : error + (list Outbound * list preparedOutbound)) : Prop :=
  match r with
  | inl _ =>
      (∀ c, c ∈ sc_children s' ↔ c ∈ sc_children s) ∧
      m_outbounds m' = m_outbounds m ∧ m_outboundByTag m' = m_outboundByTag m
  | inr (_, applied) =>
      (∀ c, c ∈ sc_children s → c ∈ sc_children s') ∧
      (∀ c, c ∈ sc_children s' → c ∈ sc_children s ∨ c ∈ m_outbounds m') ∧
      (∀ o, o ∈ applied → po_tag o ∈ affected →
         ∃ c, registry m o = inr c ∧ m_outboundByTag m' !! po_tag o = Some c ∧
           (ob_isLifecycle c = true → c ∈ sc_children s'))
  end.

Section swap.
Context (affected invalid : gset string) (b : building) (s1 : Scope).
Context (HB : built registry m (filter (λ o, po_tag o ∈ affected) new) b).
Context (HS : beside (bd_candidates b) s (s1, invalid)).
Context (Hruns : ∀ c, c ∈ bd_candidates b → runs (s1, invalid) c).
Context (Hinv : bd_invalid b ⊆ invalid).

Let validC := filter (λ c, ob_Tag c ∉ invalid) (bd_candidates b).
Let invalidC := filter (λ c, ob_Tag c ∈ invalid) (bd_candidates b).
Let s2 := removeOutboundsReverse lc invalidC s1.

Lemma candidate_fresh c :
  c ∈ bd_candidates b →
  ob_id c ∉ ob_id <$> m_outbounds m ∧ ob_id c ∉ ob_id <$> sc_children s.
Proof.
  intros Hc. destruct HB as (B1 & _ & _). destruct (B1 c Hc) as (o & [_ Ho]%list_elem_of_filter & E).
  by eapply (rg_fresh _ _ _ _ Hreg).
Qed.

Lemma old_not_closed l x : l ⊆ bd_candidates b → x ∈ sc_children s → ¬ closed_by l x.
Proof.
  intros Hl Hx (o & Ho & _ & E). destruct (candidate_fresh o (Hl o Ho)) as [_ Hf]. apply Hf.
  rewrite E. by apply list_elem_of_fmap_2.
Qed.

Lemma running_children c :
  (c ∈ sc_children s → c ∈ sc_children s2) ∧
  (c ∈ sc_children s2 → c ∈ sc_children s ∨ (c ∈ validC ∧ ob_isLifecycle c = true)).
Proof.
  destruct HS as [S1 S2]. cbn in S1, S2. unfold s2. rewrite removeOutboundsReverse_children. split.
  - intros Hc. split; [by apply S1|]. apply old_not_closed; [|done]. apply list_subseteq_filter.
  - intros [Hc Hn]. destruct (S2 c Hc) as [?|[Hcb Hl]]; [by left|right].
    split; [|done]. apply list_elem_of_filter. split; [|done]. intros Hi. apply Hn. exists c.
    split; [by apply list_elem_of_filter|done].
Qed.

Lemma undone_children c :
  c ∈ sc_children (removeOutboundsReverse lc validC s2) ↔ c ∈ sc_children s.
Proof.
  rewrite removeOutboundsReverse_children. split.
  - intros [Hc Hn]. apply running_children in Hc as [?|[Hv Hl]]; [done|]. destruct Hn. by exists c.
  - intros Hc. split; [by apply running_children|]. apply old_not_closed; [|done].
    apply list_subseteq_filter.
Qed.

Lemma valid_ids : NoDup (ob_id <$> m_outbounds m ++ validC).
Proof.
  rewrite fmap_app. apply NoDup_app. split; [apply Hm|]. split.
  - intros i Hi (c & -> & [_ Hc]%list_elem_of_filter)%list_elem_of_fmap. by apply candidate_fresh in Hc as [? _].
  - destruct HB as (_ & _ & B3). eapply sublist_NoDup; [exact B3|]. apply fmap_sublist, sublist_filter.
Qed.

Lemma valid_runs c : c ∈ validC → ob_isLifecycle c = true → c ∈ sc_children s2.
Proof.
  intros [Ht Hc]%list_elem_of_filter Hl. destruct HB as (_ & _ & B3).
  assert (Hid : ∀ c', c' ∈ bd_candidates b → ob_id c' = ob_id c → c' = c).
  { intros c' Hc' E. by eapply (fmap_NoDup_inj ob_id (bd_candidates b)). }
  destruct (Hruns c Hc Hl Ht) as (c' & Hc' & E). cbn in Hc'. destruct HS as [_ S2].
  destruct (S2 c' Hc') as [Hx|[Hx _]].
  - destruct (candidate_fresh c Hc) as [_ Hf]. destruct Hf. rewrite <- E. by apply list_elem_of_fmap_2.
  - rewrite (Hid c' Hx E) in Hc'. apply removeOutboundsReverse_children. split; [done|].
    intros (o & [Hi Ho]%list_elem_of_filter & _ & E'). by rewrite (Hid o Ho E') in Hi.
Qed.

Lemma swap_started_safe expectedOld m' r :
  swap_started lc ep order expectedOld old new (bd_candidates b) invalid s1 m = (m', r) →
  ∃ s', m_scope m' = Some s' ∧ replaced_safely affected m' s' r.
Proof.
  unfold swap_started. fold validC invalidC s2. destruct (_ && _).
  { intros [= <- <-]. eexists. split; [done|]. split; [apply undone_children|done]. }
  destruct (SwapBatch order (Some ep) expectedOld validC (mset_scope s2 m)) as [m1 r1] eqn:E.
  apply SwapBatch_inv in E as [[-> [e ->]]|(R & M & -> & -> & [W1 W2 W3 W4 _ _])]; intros [= <- <-].
  { eexists. split; [done|]. split; [apply undone_children|done]. }
  exists s2. split; [unfold swap_publish; by destruct (swap_positions _ _ _)|].
  assert (Hin := proj1 (swap_outbounds_spec order ep (mset_scope s2 m) (mset_scope_wf _ _ _ Hm) R M validC
    ltac:(intros; by apply W1) W2 W3 W4)).
  split; [intros c; apply running_children|].
  split; [intros c [?|[Hv _]]%running_children; [by left|right; apply Hin; by right]|].
  intros o [Hni Ho]%list_elem_of_filter Haff. destruct HB as (_ & B2 & _).
  destruct (B2 o) as (c & Er & Hc); [by apply list_elem_of_filter|set_solver|].
  assert (Ht := rg_tag _ _ _ _ Hreg o c Ho Er).
  assert (Hv : c ∈ validC) by (apply list_elem_of_filter; by rewrite Ht).
  exists c. split; [done|]. split; [|by apply valid_runs].
  apply (swap_byTag_spec order (mset_scope s2 m) R M validC W2 W3). by left.
Qed.
End swap.

(** C28 Replacing the outbounds of a provider while the program runs: after an error
    nothing more and nothing less is running than before, and the manager has the same
    outbounds; on success everything that ran still runs, the replaced outbounds too, which
    the caller is given to close, everything that runs beside
    it is published, and every affected outbound that was applied is the one published
    under its tag and runs. *)
Theorem replaceStartedOutbounds_safe affected m' r :
  replaceStartedOutbounds lc ep registry order affected old new s m = (m', r) →
  m_scope m = Some s → ∃ s', m_scope m' = Some s' ∧ replaced_safely affected m' s' r.
Proof.
  unfold replaceStartedOutbounds. intros E Hs.
  destruct (expected_old ep affected old m) as [e|expectedOld]; [injection E as <- <-; by exists s|].
  destruct (bool_decide (expectedOld = ∅) && _) eqn:Eb.
  { injection E as <- <-. exists s. split; [done|]. split; [done|]. split; [by left|].
    intros o Ho Ha. apply andb_true_iff in Eb as [_ Eb]. apply negb_true_iff, has_items_false in Eb.
    destruct (not_elem_of_nil o). rewrite <- Eb. by apply list_elem_of_filter. }
  set (toBuild := filter (λ o, po_tag o ∈ affected) new) in *.
  assert (HB : built registry m toBuild
            (fold_left (build_candidate ep registry m) toBuild (MkBuilding [] ∅ ∅ ∅))).
  { apply (build_spec ep registry m new s); [done|apply list_subseteq_filter|].
    eapply sublist_NoDup; [by eapply NoDup_fmap_1|apply sublist_filter]. }
  set (b := fold_left _ toBuild _) in *.
  destruct (start_candidates_spec lc (bd_prepared b) (bd_candidates b) s (m_stage m) (bd_invalid b))
    as [H1 H2].
  assert (H3 := start_candidates_invalid lc (bd_prepared b) (bd_candidates b) (m_stage m) s (bd_invalid b)).
  destruct (start_candidates _ _ _ _ _) as [s1 invalid]. by eapply swap_started_safe.
Qed.
End replace.

(** A running manager with the direct outbound, and an import of three outbounds whose
    second cannot be created: the third, which depends on it, is skipped too. *)
Definition w_direct : Outbound := MkOutbound 1 "direct" "direct" [] false false.
Definition w_start : option (Manager * result unit) :=
  Manager_Start 9 still no_endpoints (Ok w_direct) StartStateInitialize NewScope (NewManager "").
Definition w_manager : Manager := match w_start with Some (m, _) => m | None => NewManager "" end.
Definition w_prepared (tag : string) (ds : list string) (i : nat) : preparedOutbound :=
  MkPrepared (MkSourceOutbound "vless" tag None) (MkSourceOutbound "vless" tag None) tag ds i.
Definition w_new : list preparedOutbound :=
  [w_prepared "p/a" [] 0; w_prepared "p/b" [] 1; w_prepared "p/c" ["p/b"%string] 2].
Definition w_registry : Registry := λ _ o,
  match po_position o with
  | 1%nat => inl (ENew "unsupported")
  | i => inr (MkOutbound (Pos.of_succ_nat (i + 5)) "vless" (po_tag o) [] true false)
  end.
Definition w_affected : gset string := {["p/a"%string; "p/b"%string; "p/c"%string]}.

Lemma w_registry_ok : registry_ok w_registry w_manager w_new NewScope.
Proof.
  assert (Hcases : ∀ o c, o ∈ w_new → w_registry w_manager o = inr c →
    (po_position o = 0%nat ∧ o = w_prepared "p/a" [] 0 ∧ ob_id c = 6%positive ∧ ob_Tag c = po_tag o) ∨
    (po_position o = 2%nat ∧ o = w_prepared "p/c" ["p/b"%string] 2 ∧ ob_id c = 8%positive ∧ ob_Tag c = po_tag o)).
  { intros o c Ho. unfold w_new in Ho. rewrite !elem_of_cons, elem_of_nil in Ho.
    destruct Ho as [->|[->|[->|[]]]]; cbn; intros [= <-]; auto. }
  split.
  - intros o c Ho E. destruct (Hcases o c Ho E); naive_solver.
  - intros o c Ho E. split; [|by apply not_elem_of_nil].
    assert (Hi : ob_id c = 6%positive ∨ ob_id c = 8%positive) by (destruct (Hcases o c Ho E); naive_solver).
    destruct Hi as [->| ->]; by apply (bool_decide_unpack _); vm_compute.
  - intros o o' c c' Ho Ho' E E' Hid.
    destruct (Hcases o c Ho E) as [(_ & -> & Hc & _)|(_ & -> & Hc & _)],
      (Hcases o' c' Ho' E') as [(_ & -> & Hc' & _)|(_ & -> & Hc' & _)]; congruence.
Qed.

Lemma w_manager_wf : mgr_wf no_endpoints w_manager.
Proof.
  apply (mgr_reachable_wf _ (λ _ _, True) ""). apply rtc_once.
  eapply (step_Start _ _ 9 still (Ok w_direct) StartStateInitialize NewScope _ _ (Ok tt)).
  - by intros o [= <-].
  - vm_compute. reflexivity.
Qed.

Lemma replaceStartedOutbounds_safe_witness :
  ∃ m' r, replaceStartedOutbounds still no_endpoints w_registry someRange w_affected [] w_new NewScope
      w_manager = (m', r) ∧ ob_Tag <$> m_outbounds m' = ["direct"%string; "p/a"%string] ∧
    ∃ s', m_scope m' = Some s' ∧ replaced_safely w_registry w_manager NewScope w_affected m' s' r.
Proof.
  eexists _, _. split; [reflexivity|]. split; [vm_compute; reflexivity|].
  apply (replaceStartedOutbounds_safe still no_endpoints w_registry someRange w_manager NewScope [] w_new
           w_manager_wf w_registry_ok).
  - by apply (bool_decide_unpack _); vm_compute.
  - reflexivity.
  - vm_compute. reflexivity.
Defined.
