(* ===== verification/DnsRouter.v ===== *)
(** * The DNS router: queries by rules, dns/router.go

    What a query goes through before a transport: the options of a query, the choice of
    a transport by the rules in legacy mode, where a rule with address limits may refuse
    a response and the next rule is tried, and the lookup of addresses. The DNS client is
    an interface, [DNSClient]; logging and the counters of a power report are left
    out. *)
From stdpp Require Import base list gmap strings pretty.
From S2P Require Import Prelude Netip Metadata RuleItems RuleAction RuleMatch.

(** ** Options of a query: adapter/dns.go *)

(** A transport is known by its tag. *)
Record DNSTransport : Type := MkTransport { dt_Tag : string; dt_Type : string }.

#[export] Instance DNSTransport_eq_dec : EqDecision DNSTransport.
Proof. solve_decision. Defined.

Record DNSTransportManager : Type := MkTransportManager {
  tm_Transport : string → option DNSTransport;
  tm_Default : DNSTransport;
}.

Definition DNSTypeFakeIP : string := "fakeip".
Definition is_fakeip (t : DNSTransport) : bool := bool_decide (dt_Type t = DNSTypeFakeIP).

Definition DomainStrategyAsIS : Z := 0.
Definition DomainStrategyPreferIPv6 : Z := 2.
Definition DomainStrategyIPv4Only : Z := 3.
Definition DomainStrategyIPv6Only : Z := 4.

Record DNSQueryOptions : Type := MkQueryOptions {
  qo_Transport : option DNSTransport;
  qo_Strategy : Z;
  qo_LookupStrategy : Z;
  qo_DisableCache : bool;
  qo_DisableOptimisticCache : bool;
  qo_RewriteTTL : option Z;
  qo_Timeout : Z;
  qo_ClientSubnet : Prefix;
  qo_RemoveClientSubnet : bool;
}.

#[export] Instance DNSQueryOptions_eq_dec : EqDecision DNSQueryOptions.
Proof. solve_decision. Defined.

Definition qset_Strategy (v : Z) (o : DNSQueryOptions) : DNSQueryOptions :=
  MkQueryOptions (qo_Transport o) v (qo_LookupStrategy o) (qo_DisableCache o)
    (qo_DisableOptimisticCache o) (qo_RewriteTTL o) (qo_Timeout o) (qo_ClientSubnet o)
    (qo_RemoveClientSubnet o).
Definition qset_cache (cache optimistic : bool) (o : DNSQueryOptions) : DNSQueryOptions :=
  MkQueryOptions (qo_Transport o) (qo_Strategy o) (qo_LookupStrategy o) cache optimistic
    (qo_RewriteTTL o) (qo_Timeout o) (qo_ClientSubnet o) (qo_RemoveClientSubnet o).
Definition qset_answer (ttl : option Z) (timeout : Z) (o : DNSQueryOptions) : DNSQueryOptions :=
  MkQueryOptions (qo_Transport o) (qo_Strategy o) (qo_LookupStrategy o) (qo_DisableCache o)
    (qo_DisableOptimisticCache o) ttl timeout (qo_ClientSubnet o) (qo_RemoveClientSubnet o).
Definition qset_subnet (subnet : Prefix) (remove : bool) (o : DNSQueryOptions) : DNSQueryOptions :=
  MkQueryOptions (qo_Transport o) (qo_Strategy o) (qo_LookupStrategy o) (qo_DisableCache o)
    (qo_DisableOptimisticCache o) (qo_RewriteTTL o) (qo_Timeout o) subnet remove.

(** What every kind of action applies: the rewritten TTL, the timeout, the client
    subnet. *)
Definition apply_answer_options (r : RuleActionDNSRouteOptions) (o : DNSQueryOptions) : DNSQueryOptions :=
  let o := qset_answer (match RewriteTTL r with Some ttl => Some ttl | None => qo_RewriteTTL o end)
             (if 0 <? Timeout r then Timeout r else qo_Timeout o) o in
  let o := if Prefix_IsValid (ClientSubnet r) then qset_subnet (ClientSubnet r) false o else o in
  if RemoveClientSubnet r then qset_subnet PrefixZero true o else o.

(** The options of an action in legacy mode, which has no optimistic cache. *)
Definition apply_legacy_options (r : RuleActionDNSRouteOptions) (o : DNSQueryOptions) : DNSQueryOptions :=
  let o := if Strategy r =? DomainStrategyAsIS then o else qset_Strategy (Strategy r) o in
  let o := if DisableCache r then qset_cache true (qo_DisableOptimisticCache o) o else o in
  apply_answer_options r o.

(** [applyDNSRouteOptions], which skips the strategy. *)
Definition applyDNSRouteOptions (r : RuleActionDNSRouteOptions) (o : DNSQueryOptions) : DNSQueryOptions :=
  apply_answer_options r
    (qset_cache (DisableCache r || qo_DisableCache o)
       (DisableOptimisticCache r || qo_DisableOptimisticCache o) o).

(** ** Rules *)

(** [Action] *)
Definition DNSRule_Action `{Extern} (rule : HeadlessRule) : option RuleAction :=
  match rule with
  | DefaultRule r | DefaultHeadlessRule r | DefaultDNSRule r _ _ _ => action r
  | LogicalRule r | LogicalHeadlessRule r | LogicalDNSRule r _ _ _ => l_action r
  end.

(** The responses a rule may look at, and whether addresses come from a response. *)
Definition set_responses (md : InboundContext) (response : option Msg) (named : gmap string Msg)
    (fromResponse : bool) : InboundContext :=
  MkInboundContext (md_Inbound md) (md_IPVersion md) (md_Network md) (md_Source md)
    (md_Destination md) (md_User md) (md_Outbound md) (md_Protocol md) (md_Domain md)
    (md_Client md) (md_DestinationAddresses md) response named fromResponse
    (md_ProcessInfo md) (md_SourceMACAddress md) (md_SourceHostname md) (md_QueryType md)
    (md_QueryClientSubnet md) (md_QueryDNSSEC md) (md_PreMatch md) (md_cache md).

(** [metadata.ResetRuleCache()] *)
Definition reset_cache (md : InboundContext) : InboundContext := set_cache md (ResetRuleCache (md_cache md)).

(** ** Matching in legacy mode *)

Section router.
Context `{Extern} (env : Env) (tm : DNSTransportManager) (defaultDomainStrategy : Z).

(** What [matchDNS] returns: the metadata and the options it changed, the transport, the
    rule with its index. *)
Record matched : Type := MkMatched {
  mt_metadata : InboundContext;
  mt_options : DNSQueryOptions;
  mt_transport : option DNSTransport;
  mt_rule : option (HeadlessRule * nat);
}.

Section match_loop.
Context (allowFakeIP isAddressQuery : bool).

(** The loop of [matchDNS]; [i] is [currentRuleIndex]. *)
Fixpoint matchDNS_loop (rules : list HeadlessRule) (i : nat) (md : InboundContext) (o : DNSQueryOptions)
    : matched :=
  match rules with
  | [] => MkMatched md o (Some (tm_Default tm)) None
  | rule :: rules =>
      if WithAddressLimit rule && negb isAddressQuery then matchDNS_loop rules (S i) md o
      else
        let md := reset_cache md in
        let md := set_responses md (md_DNSResponse md) (md_NamedDNSResponses md) false in
        let '(m, md) := LegacyPreMatch env rule md in
        if negb m then matchDNS_loop rules (S i) md o
        else match DNSRule_Action rule with
        | Some (RuleActionDNSRoute server _ options) =>
            match tm_Transport tm server with
            | None => matchDNS_loop rules (S i) md o
            | Some transport =>
                if is_fakeip transport && negb allowFakeIP then matchDNS_loop rules (S i) md o
                else
                  let o := if is_fakeip transport then qset_cache true (qo_DisableOptimisticCache o) o else o in
                  MkMatched md (apply_legacy_options options o) (Some transport) (Some (rule, i))
            end
        | Some (RuleActionOfDNSRouteOptions options) =>
            matchDNS_loop rules (S i) md (apply_legacy_options options o)
        | Some (RuleActionReject _ _) | Some (RuleActionPredefined _ _ _ _) =>
            MkMatched md o None (Some (rule, i))
        | _ => matchDNS_loop rules (S i) md o
        end
  end.

(** [start] is the rule to start with: [ruleIndex + 1], 0 at first. *)
Definition matchDNS (rules : list HeadlessRule) (start : nat) (md : InboundContext) (o : DNSQueryOptions) : matched :=
  matchDNS_loop (drop start rules) start md o.
End match_loop.

Definition finalizeExchangeOptions (o : DNSQueryOptions) : DNSQueryOptions :=
  if qo_Strategy o =? DomainStrategyAsIS then qset_Strategy defaultDomainStrategy o else o.

(** Whether a message asks for addresses: A is 1, AAAA is 28, HTTPS is 65. *)
Definition isAddressQuery (message : Msg) : bool :=
  existsb (λ q, mem (q_Qtype q) [1; 28; 65]) (msg_Question message).

(** The check of a response; [md] is the metadata at the time it is made. *)
Definition addressLimitResponseCheck (rule : option (HeadlessRule * nat)) (md : InboundContext)
    : option (Msg → bool) :=
  match rule with
  | Some (rule, _) => if WithAddressLimit rule then Some (λ response, MatchAddressLimit env rule md (Some response)) else None
  | None => None
  end.

Definition RcodeRefused : Z := 5.

Definition dnsRefusedResponse (message : Msg) : result Msg :=
  match msg_Question message with
  | [] => Panic "index out of range"
  | q :: _ => Ok (MkMsg (MkMsgHdr (hdr_Id (msg_Hdr message)) true false false false RcodeRefused) [q] [] [] [])
  end.
End router.

(** ** The client *)

(** [FixedResponseStatus] *)
Definition FixedResponseStatus (message : Msg) (rcode : Z) : Msg :=
  MkMsg (MkMsgHdr (hdr_Id (msg_Hdr message)) true true true true rcode) (msg_Question message) [] [] [].

(** A query for addresses of a family that the strategy leaves out is answered without a
    server: A is 1, AAAA is 28. *)
Definition strategy_rejects (message : Msg) (o : DNSQueryOptions) : bool :=
  match msg_Question message with
  | q :: _ => (q_Qtype q =? 1) && (qo_Strategy o =? DomainStrategyIPv6Only)
              || (q_Qtype q =? 28) && (qo_Strategy o =? DomainStrategyIPv4Only)
  | [] => false
  end.

(** A response made from another one: its code is the same and it has no other
    addresses. *)
Definition derived `{Extern} (r0 r : Msg) : Prop :=
  msg_Rcode r = msg_Rcode r0 ∧ incl (DNSResponseAddresses (Some r)) (DNSResponseAddresses (Some r0)).

(** What the router relies on of a DNS client: a response to a question that comes
    without an error was made from one that satisfies the check it was asked with,
    unless the strategy answered the question. [W] is the state of the client and of the
    servers. *)
Class DNSClient `{Extern} (W : Type) : Type := {
  client_Exchange : W → DNSTransport → Msg → DNSQueryOptions → option (Msg → bool) → W * (option Msg * option error);
  client_Lookup : W → DNSTransport → string → DNSQueryOptions → option (Msg → bool) → W * (list Addr * option error);
  client_checked : ∀ w t m o check w' response,
    msg_Question m ≠ [] →
    client_Exchange w t m o (Some check) = (w', (response, None)) →
    ∃ r, response = Some r ∧
      ((∃ r0, check r0 = true ∧ derived r0 r) ∨ strategy_rejects m o = true ∧ r = FixedResponseStatus m 0);
}.

(** [ErrResponseRejected]; the cached one extends it. *)
Definition ErrResponseRejected : error := ENamed "dns.ErrResponseRejected".
Definition ErrResponseRejectedCached : error := EExtend ErrResponseRejected "cached".
Definition is_rejected (err : option error) : bool :=
  match err with Some e => errors_Is e "dns.ErrResponseRejected" | None => false end.

(** [R.ErrDrop] *)
Definition ErrDropped : error := ENamed "R.ErrDrop".

(** ** Exchanging in legacy mode *)

(** Response, transport and error, or a panic. *)
Definition exchanged : Type := result (option Msg * option DNSTransport * option error).

Section legacy.
Context `{Extern} (env : Env) (tm : DNSTransportManager) (defaultDomainStrategy : Z).
Context {W : Type} `{!DNSClient W}.

(** What a rule answers itself: [None] when it asks a transport. A method of [reject]
    other than the two answers nothing. *)
Definition legacy_answer (rule : option (HeadlessRule * nat)) (message : Msg) : option exchanged :=
  match rule with
  | Some (rule, _) =>
      match DNSRule_Action rule with
      | Some (RuleActionReject method _) =>
          if bool_decide (method = "default"%string)
          then Some (m ← dnsRefusedResponse message; Ok (Some m, None, None))
          else if bool_decide (method = "drop"%string) then Some (Ok (None, None, Some ErrDropped))
          else None
      | Some (RuleActionPredefined rcode answer ns extra) =>
          Some (m ← Predefined_Response rcode answer ns extra message; Ok (Some m, None, None))
      | _ => None
      end
  | None => None
  end.

(** The loop of [exchangeLegacy]; [None] when the fuel is used up. The list has the rules
    whose response was rejected. *)
Fixpoint exchangeLegacy (fuel : nat) (rules : list HeadlessRule) (start : nat) (md : InboundContext)
    (message : Msg) (options : DNSQueryOptions) (w : W) : option (W * list nat * exchanged) :=
  match fuel with
  | O => None
  | S fuel =>
      let mt := matchDNS env tm true (isAddressQuery message) rules start md options in
      match legacy_answer (mt_rule mt) message with
      | Some r => Some (w, [], r)
      | None =>
          match mt_transport mt with
          | None => Some (w, [], Panic "invalid memory address or nil pointer dereference")
          | Some transport =>
              let check := addressLimitResponseCheck env (mt_rule mt) (mt_metadata mt) in
              let '(w, (response, err)) :=
                client_Exchange w transport message
                  (finalizeExchangeOptions defaultDomainStrategy (mt_options mt)) check in
              if is_rejected err && negb (has_items (msg_Question message)) then Some (w, [], Panic "index out of range")
              else match check, mt_rule mt with
              | Some _, Some (_, i) =>
                  if is_rejected err then
                    '(w, l, r) ← exchangeLegacy fuel rules (S i) (mt_metadata mt) message options w;
                    Some (w, i :: l, r)
                  else Some (w, [], Ok (response, Some transport, err))
              | _, _ => Some (w, [], Ok (response, Some transport, err))
              end
          end
      end
  end.

(** The addresses of the answers of a [predefined] rule. *)
Definition predefined_addresses (answer : list (option RR)) : list Addr :=
  concat (map (λ r, match r with
                    | Some r => match rr_Data r with
                                | RData_A ip | RData_AAAA ip => [AddrFromIP ip]
                                | _ => []
                                end
                    | None => []
                    end) answer).

(** [RcodeError] by the code. *)
Definition RcodeError (rcode : Z) : error := ENamed ("dns.RcodeError " +:+ pretty rcode)%string.

(** [printResult]: the error that [Lookup] returns. *)
Definition print_result (domain : string) (addresses : list Addr) (err : option error) : option error :=
  match (match err with
         | None => if has_items addresses then None else Some (ENew "empty result")
         | Some e => Some e
         end) with
  | Some e => Some (ECause e ("lookup " +:+ domain)%string)
  | None => None
  end.

(** The loop of [Lookup] in legacy mode, up to its end; [rejectError] is what [action.Error] returns. *)
Fixpoint lookupLegacy (fuel : nat) (rejectError : RuleAction → option error) (rules : list HeadlessRule)
    (start : nat) (md : InboundContext) (domain : string) (options : DNSQueryOptions) (w : W)
    : option (W * result (list Addr * option error)) :=
  match fuel with
  | O => None
  | S fuel =>
      let mt := matchDNS env tm false true rules start md options in
      let ask :=
        match mt_transport mt with
        | None => Some (w, Panic "invalid memory address or nil pointer dereference")
        | Some transport =>
            let check := addressLimitResponseCheck env (mt_rule mt) (mt_metadata mt) in
            let '(w, (addresses, err)) :=
              client_Lookup w transport domain
                (finalizeExchangeOptions defaultDomainStrategy (mt_options mt)) check in
            match check, err, mt_rule mt with
            | Some _, Some _, Some (_, i) =>
                lookupLegacy fuel rejectError rules (S i) (mt_metadata mt) domain options w
            | _, _, _ => Some (w, Ok (addresses, print_result domain addresses err))
            end
        end in
      match mt_rule mt with
      | Some (rule, _) =>
          match DNSRule_Action rule with
          | Some (RuleActionReject method noDrop) =>
              Some (w, Ok ([], Some (match rejectError (RuleActionReject method noDrop) with
                                     | Some e => ECause e "rejected"
                                     | None => ENamed "R.RejectedError"
                                     end)))
          | Some (RuleActionPredefined rcode answer _ _) =>
              let '(addresses, err) := if rcode =? 0 then (predefined_addresses answer, None)
                                       else ([], Some (RcodeError rcode)) in
              Some (w, Ok (addresses, print_result domain addresses err))
          | _ => ask
          end
      | None => ask
      end
  end.
End legacy.
