(* ===== verification/DnsLegacy.v ===== *)
(** * The DNS router in legacy mode: what a query gets

    The rules are tried in their order; a rule whose response is refused by its own
    address limit is left for the rules after it. *)
From Stdlib Require Import Sorted.
From stdpp Require Import base list gmap strings.
From S2P Require Import Prelude Netip Metadata RuleItems RuleAction RuleMatch Concrete DnsRouter.

Section legacy_facts.
Context `{Extern} (env : Env) (tm : DNSTransportManager).

(** What [matchDNS] found: the rule at its index, with the action that ends the loop. *)
Definition found (rules : list HeadlessRule) (start : nat) (mt : matched) : Prop :=
  match mt_rule mt with
  | None => mt_transport mt = Some (tm_Default tm)
  | Some (rule, i) => (start <= i)%nat ∧ rules !! i = Some rule ∧
      match mt_transport mt with
      | Some transport => ∃ server speculative o,
          DNSRule_Action rule = Some (RuleActionDNSRoute server speculative o) ∧
          tm_Transport tm server = Some transport
      | None => (∃ method noDrop, DNSRule_Action rule = Some (RuleActionReject method noDrop)) ∨
          (∃ rcode answer ns extra, DNSRule_Action rule = Some (RuleActionPredefined rcode answer ns extra))
      end
  end.

Lemma found_later rules start start' mt : (start <= start')%nat → found rules start' mt → found rules start mt.
Proof. unfold found. intros Hle. destruct (mt_rule mt) as [[rule i]|]; [|done]. intuition lia. Qed.

Lemma matchDNS_loop_found allowFakeIP addressQuery rules rest i md o :
  drop i rules = rest → found rules i (matchDNS_loop env tm allowFakeIP addressQuery rest i md o).
Proof.
  revert i md o. induction rest as [|rule rest IH]; intros i md o E; cbn; [done|].
  assert (Ei : rules !! i = Some rule) by (rewrite <- (Nat.add_0_r i), <- lookup_drop, E; done).
  assert (E' : drop (S i) rules = rest) by (rewrite <- Nat.add_1_r, <- drop_drop, E; done).
  assert (IH' : ∀ md o, found rules i (matchDNS_loop env tm allowFakeIP addressQuery rest (S i) md o)).
  { intros md' o'. apply (found_later _ _ (S i)); [lia|by apply IH]. }
  destruct (_ && _); [done|]. destruct (LegacyPreMatch _ _ _) as [[] md']; cbn; [|done].
  destruct (DNSRule_Action rule) as [[]|] eqn:Ea; try done.
  - destruct (tm_Transport tm Server) as [t|] eqn:Et; [|done]. destruct (_ && _); [done|].
    unfold found. cbn. split; [done|]. split; [done|]. eauto.
  - unfold found. cbn. split; [done|]. split; [done|]. eauto.
  - unfold found. cbn. split; [done|]. split; [done|]. right. eauto.
Qed.

Lemma matchDNS_found allowFakeIP addressQuery rules start md o :
  found rules start (matchDNS env tm allowFakeIP addressQuery rules start md o).
Proof. by apply matchDNS_loop_found. Qed.

Context (defaultDomainStrategy : Z) {W : Type} `{!DNSClient W}.

(** Who gave a response that came without an error: the default transport, or a rule
    after those that refused theirs, which accepts it if it limits addresses. *)
Definition accepted (rules : list HeadlessRule) (message : Msg) (start : nat) (refused : list nat)
    (response : option Msg) (transport : DNSTransport) : Prop :=
  transport = tm_Default tm ∨
  ∃ i rule server speculative o, (start <= i)%nat ∧ rules !! i = Some rule ∧
    Forall (λ j, (j < i)%nat) refused ∧
    DNSRule_Action rule = Some (RuleActionDNSRoute server speculative o) ∧
    tm_Transport tm server = Some transport ∧
    (WithAddressLimit rule = true → ∃ r, response = Some r ∧
       ((∃ r0 md, MatchAddressLimit env rule md (Some r0) = true ∧ derived r0 r) ∨
        r = FixedResponseStatus message 0)).

(** A rule that panics: a [reject] of another method, or a record that is nil. *)
Definition harmless (rule : HeadlessRule) : Prop :=
  match DNSRule_Action rule with
  | Some (RuleActionReject method _) => method = "default"%string ∨ method = "drop"%string
  | Some (RuleActionPredefined _ answer ns extra) => Forall is_Some answer ∧ Forall is_Some ns ∧ Forall is_Some extra
  | _ => True
  end.

Definition legacy_outcome (rules : list HeadlessRule) (message : Msg) (start : nat)
    (refused : list nat) (r : exchanged) : Prop :=
  StronglySorted lt refused ∧
  Forall (λ i, (start <= i)%nat ∧ ∃ rule, rules !! i = Some rule ∧ WithAddressLimit rule = true) refused ∧
  match r with
  | Ok (response, Some transport, None) => accepted rules message start refused response transport
  | Ok _ => True
  | Err _ => False
  | Panic _ => ¬ Forall harmless rules
  end.

Lemma rewriteRecords_ok l q : Forall is_Some l → ∃ l', rewriteRecords l q = Ok l'.
Proof.
  unfold rewriteRecords. intros Hl.
  assert (Hi : ∀ i, ∃ l', mapM_idx (λ _ r, match r with
    | Some it => Ok (rewriteRecord q it) | None => Panic "nil pointer dereference" end) i l = Ok l').
  { induction Hl as [|r l [it ->] Hl IH]; intros i; cbn; [by eexists|].
    destruct (IH (S i)) as [l' E]. rewrite E. by eexists. }
  apply Hi.
Qed.

(** What a rule answers itself is no error, and panics only for a rule that is not
    harmless. *)
Lemma legacy_answer_ok rule i message r :
  msg_Question message ≠ [] → legacy_answer (Some (rule, i)) message = Some r →
  (∃ response err, r = Ok (response, None, err)) ∨ ¬ harmless rule ∧ ∃ m, r = Panic m.
Proof.
  intros Hq. unfold legacy_answer, harmless. destruct (DNSRule_Action rule) as [[]|]; try done.
  - case_bool_decide; [|case_bool_decide; [intros [= <-]; left; eauto|done]].
    intros [= <-]. unfold dnsRefusedResponse. destruct (msg_Question message); [done|]. left. eauto.
  - intros [= <-]. unfold Predefined_Response. destruct (msg_Question message) as [|q qs]; [done|].
    assert (Hp : ∀ l, ¬ Forall is_Some l ∨ ∃ l', rewriteRecords l q = Ok l').
    { intros l. destruct (decide (Forall is_Some l)); [right; by apply rewriteRecords_ok|by left]. }
    assert (He : ∀ l, (∃ l', rewriteRecords l q = Ok l') ∨ ∃ m, rewriteRecords l q = Panic m).
    { intros l. unfold rewriteRecords. generalize 0%nat. induction l as [|[it|] l IH]; intros k; cbn; [by eauto| |by eauto].
      destruct (IH (S k)) as [[l' ->]|[m ->]]; eauto. }
    destruct (He Answer) as [[a Ea]|[m Ea]]; rewrite Ea; cbn; [|right; split; [|by eauto]].
    2:{ intros (Ha & _ & _). apply (rewriteRecords_ok _ q) in Ha as [? Ha]. congruence. }
    destruct (He Ns) as [[b Eb]|[m Eb]]; rewrite Eb; cbn; [|right; split; [|by eauto]].
    2:{ intros (_ & Ha & _). apply (rewriteRecords_ok _ q) in Ha as [? Ha]. congruence. }
    destruct (He Extra) as [[c Ec]|[m Ec]]; rewrite Ec; cbn; [|right; split; [|by eauto]].
    2:{ intros (_ & _ & Ha). apply (rewriteRecords_ok _ q) in Ha as [? Ha]. congruence. }
    left. eauto.
Qed.

(** The transport is missing only behind a [reject] or [predefined] rule; where such a
    rule answers nothing, it is not harmless. *)
Lemma no_transport_not_harmless rules start message mt :
  found rules start mt → mt_transport mt = None → legacy_answer (mt_rule mt) message = None →
  ¬ Forall harmless rules.
Proof.
  unfold found, legacy_answer. intros Hf Ht Ha. rewrite Ht in Hf.
  destruct (mt_rule mt) as [[rule i]|]; [|done]. destruct Hf as (_ & Hi & Hf). intros Hall.
  rewrite Forall_lookup in Hall. specialize (Hall i rule Hi). unfold harmless in Hall.
  destruct Hf as [(method & noDrop & E)|(? & ? & ? & ? & E)]; rewrite E in *; [|done].
  destruct Hall as [->| ->]; by vm_compute in Ha.
Qed.

(** A rule behind those that were refused, with what its check says of the response. *)
Lemma accepted_found rules message start mt w w' o response transport :
  msg_Question message ≠ [] → found rules start mt → mt_transport mt = Some transport →
  client_Exchange w transport message o (addressLimitResponseCheck env (mt_rule mt) (mt_metadata mt)) =
    (w', (response, None)) →
  accepted rules message start [] response transport.
Proof.
  intros Hq Hf Ht Hx. unfold found in Hf. rewrite Ht in Hf.
  destruct (mt_rule mt) as [[rule i]|] eqn:Er; [|left; congruence].
  destruct Hf as (Hs & Hi & server & speculative & ro & Ea & Et).
  right. exists i, rule, server, speculative, ro. split_and!; try done.
  unfold addressLimitResponseCheck in Hx. intros Hl. rewrite Hl in Hx.
  destruct (client_checked _ _ _ _ _ _ _ Hq Hx) as (r & -> & [(r0 & Hc & Hd)|[_ ->]]);
    (eexists; split; [done|]); [left; eauto|by right].
Qed.

(** The rule whose check refused a response. *)
Lemma refused_found rules start mt rule i check md :
  found rules start mt → mt_rule mt = Some (rule, i) → addressLimitResponseCheck env (mt_rule mt) md = Some check →
  (start <= i)%nat ∧ rules !! i = Some rule ∧ WithAddressLimit rule = true.
Proof.
  unfold found, addressLimitResponseCheck. intros Hf Hr. rewrite Hr in *. destruct Hf as (? & ? & _).
  by destruct (WithAddressLimit rule).
Qed.

Lemma legacy_outcome_cons rules message start i rule l r :
  (start <= i)%nat → rules !! i = Some rule → WithAddressLimit rule = true →
  legacy_outcome rules message (S i) l r → legacy_outcome rules message start (i :: l) r.
Proof.
  intros Hs Hi Hl (H1 & H2 & H3). unfold legacy_outcome. split_and!.
  - constructor; [done|]. eapply Forall_impl; [exact H2|]. cbn. intros j [? _]. lia.
  - constructor; [eauto|]. eapply Forall_impl; [exact H2|]. cbn. intros j [? ?]. split; [lia|done].
  - destruct r as [[[response [t|]] [e|]]|e|m]; try done.
    destruct H3 as [H3|(k & rule' & server & sp & o & Hk & Hr & Hf & Hx)]; [by left|].
    right. exists k, rule', server, sp, o. split; [lia|]. split; [done|]. split; [|done].
    constructor; [lia|done].
Qed.

Lemma legacy_outcome_end rules message start r :
  match r with
  | Ok (response, Some transport, None) => accepted rules message start [] response transport
  | Ok _ => True
  | Err _ => False
  | Panic _ => ¬ Forall harmless rules
  end → legacy_outcome rules message start [] r.
Proof. intros. split_and!; [constructor|constructor|done]. Qed.

(** By induction on the rules that are left. *)
Lemma exchangeLegacy_outcome rules message options fuel start md w :
  msg_Question message ≠ [] → (length rules - start < fuel)%nat →
  ∃ w' l r, exchangeLegacy env tm defaultDomainStrategy fuel rules start md message options w = Some (w', l, r) ∧
    legacy_outcome rules message start l r.
Proof.
  intros Hq. revert start md w. induction fuel as [|fuel IH]; intros start md w Hf; [lia|].
  cbn [exchangeLegacy]. pose proof (matchDNS_found true (isAddressQuery message) rules start md options) as Hm.
  set (mt := matchDNS _ _ _ _ _ _ _ _) in *.
  destruct (legacy_answer (mt_rule mt) message) as [r|] eqn:Ea.
  { exists w, [], r. split; [done|]. apply legacy_outcome_end.
    destruct (mt_rule mt) as [[rule i]|] eqn:Er; [|done].
    destruct (legacy_answer_ok _ _ _ _ Hq Ea) as [(response & err & ->)|[Hn [m ->]]]; [by destruct err|].
    intros Hall. unfold found in Hm. rewrite Er in Hm. destruct Hm as (_ & Hi & _).
    rewrite Forall_lookup in Hall. by apply Hn, (Hall i). }
  destruct (mt_transport mt) as [transport|] eqn:Et.
  2:{ eexists _, _, _. split; [done|]. apply legacy_outcome_end. by eapply no_transport_not_harmless. }
  destruct (client_Exchange _ _ _ _ _) as [w' [response err]] eqn:Ex.
  replace (has_items (msg_Question message)) with true by (by destruct (msg_Question message)).
  rewrite andb_false_r.
  assert (He : legacy_outcome rules message start [] (Ok (response, Some transport, err))).
  { apply legacy_outcome_end. destruct err; [done|]. by eapply accepted_found. }
  destruct (addressLimitResponseCheck _ _ _) as [check|] eqn:Ec; [|by eexists _, _, _].
  destruct (mt_rule mt) as [[rule i]|] eqn:Er; [|done].
  destruct (is_rejected err); [|by eexists _, _, _].
  rewrite <- Er in Ec. destruct (refused_found _ _ _ _ _ _ _ Hm Er Ec) as (Hs & Hi & Hl).
  destruct (IH (S i) (mt_metadata mt) w') as (w'' & l & r & E & Ho).
  { apply lookup_lt_Some in Hi. lia. }
  rewrite E. cbn. eexists _, _, _. split; [done|]. by eapply legacy_outcome_cons.
Qed.

End legacy_facts.

(** ** The theorem *)

(** C10 In legacy mode every query with a question ends, after at most one exchange per
    rule and one more: there is a result with as many steps as there are rules and one.
    The rules whose responses were refused are rules with an address limit, each tried
    once and in order. A response that a transport gave without an error comes from the
    default server, or from the server of a rule after all those that were refused; if
    that rule has an address limit, its own check accepted the response it was made from,
    unless the strategy answered the query with no addresses. The exchange panics only when some
    rule rejects with another method than default and drop, or has a nil record. *)
Theorem exchangeLegacy_total `{Extern} (env : Env) (tm : DNSTransportManager) (defaultDomainStrategy : Z)
    {W : Type} `{!DNSClient W} rules md message options w :
  msg_Question message ≠ [] →
  ∃ w' refused r,
    exchangeLegacy env tm defaultDomainStrategy (S (length rules)) rules 0 md message options w = Some (w', refused, r) ∧
    legacy_outcome env tm rules message 0 refused r.
Proof. intros Hq. apply exchangeLegacy_outcome; [done|lia]. Qed.

(** A client that asks servers by their tags and keeps the tags it asked, with the timeouts. *)
Definition c_exchange (servers : string → Msg) (w : list (string * Z)) (t : DNSTransport) (m : Msg)
    (o : DNSQueryOptions) (check : option (Msg → bool)) : list (string * Z) * (option Msg * option error) :=
  if strategy_rejects m o then (w, (Some (FixedResponseStatus m 0), None))
  else
    let response := servers (dt_Tag t) in
    (w ++ [(dt_Tag t, qo_Timeout o)],
     match check with
     | Some check => if check response then (Some response, None) else (None, Some ErrResponseRejected)
     | None => (Some response, None)
     end).

Definition c_lookup `{Extern} (servers : string → Msg) (w : list (string * Z)) (t : DNSTransport) (domain : string)
    (o : DNSQueryOptions) (check : option (Msg → bool)) : list (string * Z) * (list Addr * option error) :=
  let response := servers (dt_Tag t) in
  (w ++ [(dt_Tag t, qo_Timeout o)],
   if match check with Some check => check response | None => true end
   then (DNSResponseAddresses (Some response), None) else ([], Some ErrResponseRejected)).

Lemma c_exchange_checked servers w t m o check w' response :
  c_exchange servers w t m o (Some check) = (w', (response, None)) →
  ∃ r, response = Some r ∧
    ((∃ r0, check r0 = true ∧ derived r0 r) ∨ strategy_rejects m o = true ∧ r = FixedResponseStatus m 0).
Proof.
  unfold c_exchange. destruct (strategy_rejects m o); [intros [= <- <-]; eauto|].
  destruct (check _) eqn:Ec; intros [= <- <-]. eexists. split; [done|]. left. eexists. split; [done|]. split; [done|apply incl_refl].
Qed.

Definition c_client (servers : string → Msg) : DNSClient (list (string * Z)) := {|
  client_Exchange := c_exchange servers;
  client_Lookup := c_lookup servers;
  client_checked w t m o check w' response _ := c_exchange_checked servers w t m o check w' response;
|}.

Definition c_transport (tag : string) : DNSTransport := MkTransport tag "udp".
Definition c_tm : DNSTransportManager := MkTransportManager (λ tag, Some (c_transport tag)) (c_transport "final").
Definition c_route (server : string) : RuleAction :=
  RuleActionDNSRoute server false (MkRuleActionDNSRouteOptions 0 0 false false None PrefixZero false).

(** A rule for 10.0.0.0/8, a rule for every name. *)
Definition c_limited (server : string) : HeadlessRule :=
  let item := IPCIDRItem [MkIPRange (Addr4 167772160) (Addr4 184549375)] false "" in
  DefaultDNSRule (MkDefault [] [] [] [] [item] [] [PlainItem item] None false (Some (c_route server))) false "" false.
Definition c_every (action : RuleAction) : HeadlessRule :=
  let item := QueryTypeItem [1] in
  DefaultDNSRule (MkDefault [item] [] [] [] [] [] [PlainItem item] None false (Some action)) false "" false.
Definition c_any (server : string) : HeadlessRule := c_every (c_route server).
Definition c_query : Msg := MkMsg (MkMsgHdr 1 false false true false 0) [MkQuestion "example.org." 1 1] [] [] [].
Definition c_options : DNSQueryOptions := MkQueryOptions None 0 0 false false None 0 PrefixZero false.

(** The response of the first server, 1.2.3.4, is refused by its rule. *)
Lemma exchangeLegacy_total_witness :
  let client := c_client (λ _, c_response [16909060]) in
  exchangeLegacy c_env c_tm 0 3 [c_limited "a"; c_any "b"] 0 (c_request "example.org") c_query c_options [] =
    Some ([("a", 0); ("b", 0)]%string, [0%nat], Ok (Some (c_response [16909060]), Some (c_transport "b"), None)) ∧
  ∃ w' refused r,
    exchangeLegacy c_env c_tm 0 3 [c_limited "a"; c_any "b"] 0 (c_request "example.org") c_query c_options [] =
      Some (w', refused, r) ∧
    legacy_outcome c_env c_tm [c_limited "a"; c_any "b"] c_query 0 refused r.
Proof.
  split; [vm_compute; reflexivity|].
  exact (@exchangeLegacy_total concrete c_env c_tm 0 (list (string * Z)) (c_client (λ _, c_response [16909060]))
           [c_limited "a"; c_any "b"] (c_request "example.org") c_query c_options []
           ltac:(discriminate)).
Defined.

(** ** Two defects *)

(** A [reject] of method reply, which the options accept for DNS rules, leaves no
    transport: the client is called with nil. *)
Example reject_reply_panics :
  let client := c_client (λ _, c_response [16909060]) in
  exchangeLegacy c_env c_tm 0 2 [c_every (RuleActionReject "reply" false)] 0 (c_request "example.org") c_query c_options [] =
    Some ([], [], Panic "invalid memory address or nil pointer dereference").
Proof. vm_compute. reflexivity. Qed.

(** The options of a [route-options] rule are lost after a rule behind it refused its
    response: the first server is asked with the timeout, the second without it. *)
Example route_options_lost :
  let client := c_client (λ _, c_response [16909060]) in
  let timeout := c_every (RuleActionOfDNSRouteOptions
                   (MkRuleActionDNSRouteOptions 0 7 false false None PrefixZero false)) in
  exchangeLegacy c_env c_tm 0 4 [timeout; c_limited "a"; c_any "b"] 0 (c_request "example.org") c_query c_options [] =
    Some ([("a", 7); ("b", 0)]%string, [1%nat], Ok (Some (c_response [16909060]), Some (c_transport "b"), None)).
Proof. vm_compute. reflexivity. Qed.
