(* ===== verification/DnsWalk.v ===== *)
(** * The DNS router: the walk over the rules, dns/router.go

    A query walks the rules. [evaluate] rules start exchanges that run beside the walk
    and whose responses later rules look at, so the walk may be suspended, until an
    exchange ends or until the racing rules before it are decided. The exchanges are
    concurrent: when each of them ends is a parameter, [Schedule], on a clock. The walk
    looks at its exchanges at odd instants and settles them just before, at even ones,
    so an exchange that ends at an odd instant ends between the two. Cancelling
    exchanges nobody waits for, logging and the power report are left out. *)
From stdpp Require Import base list gmap strings.
From S2P Require Import Prelude Netip Metadata RuleItems RuleAction RuleMatch RuleBuild DnsRouter.

(** ** Data *)

(** [dnsEvaluatedFuture]; [fu_done] is the instant its exchange ends, if it does, and
    [fu_response] and [fu_err] what it then has. *)
Record dnsEvaluatedFuture : Type := MkFuture {
  fu_tag : string;
  fu_transport : DNSTransport;
  fu_response : option Msg;
  fu_err : option error;
  fu_done : option nat;
  fu_settled : bool;
}.

(** [resolved] and [view] at an instant *)
Definition fu_resolved (now : nat) (f : dnsEvaluatedFuture) : bool :=
  match fu_done f with Some t => (t <=? now)%nat | None => false end.
Definition fu_answer (f : dnsEvaluatedFuture) : option Msg :=
  match fu_err f with None => fu_response f | Some _ => None end.
Definition fu_view (now : nat) (f : dnsEvaluatedFuture) : option Msg :=
  if fu_resolved now f then fu_answer f else None.

(** [exchangeWithRulesResult] *)
Record exchangeWithRulesResult : Type := MkExchangeResult {
  er_response : option Msg;
  er_transport : option DNSTransport;
  er_rejectAction : option (string * bool);
  er_err : option error;
}.

(** Futures are known by their index in [futures], as pointers. *)
Inductive dnsPendingExchange : Type :=
| PendingExchange (transport : DNSTransport) (options : DNSQueryOptions)
| PendingFuture (future : nat).

Inductive dnsWalkSuspension : Type :=
| SuspendAwait (future : nat)
| SuspendDrain
| SuspendPending (pending : dnsPendingExchange).

Section walk.
Context `{Extern} (env : Env) (tm : DNSTransportManager) (defaultDomainStrategy : Z).

Record dnsArmedRule : Type := MkArmed {
  ar_rule : HeadlessRule;
  ar_futures : list nat;
  ar_anonymousFuture : option nat;
  ar_bindsAnonymous : bool;
  ar_options : DNSQueryOptions;
}.

(** [dnsRuleWalkState], with the metadata of the query, the clock and the instant of the
    last receive from [wake]. [terminalFuture] comes with [terminalIndex]. *)
Record dnsRuleWalkState : Type := MkWalk {
  ruleIndex : nat;
  effectiveOptions : DNSQueryOptions;
  anonymousFuture : option nat;
  namedFutures : gmap string nat;
  namedResponses : gmap string Msg;
  namedTransports : gmap string DNSTransport;
  futures : list dnsEvaluatedFuture;
  armedRules : list dnsArmedRule;
  terminalFuture : option (nat * nat);
  wk_metadata : InboundContext;
  wk_now : nat;
  wk_woken : nat;
}.

(** Assignments *)
Definition wset_ruleIndex (v : nat) (s : dnsRuleWalkState) : dnsRuleWalkState :=
  MkWalk v (effectiveOptions s) (anonymousFuture s) (namedFutures s) (namedResponses s) (namedTransports s)
    (futures s) (armedRules s) (terminalFuture s) (wk_metadata s) (wk_now s) (wk_woken s).
Definition wset_effectiveOptions (v : DNSQueryOptions) (s : dnsRuleWalkState) : dnsRuleWalkState :=
  MkWalk (ruleIndex s) v (anonymousFuture s) (namedFutures s) (namedResponses s) (namedTransports s)
    (futures s) (armedRules s) (terminalFuture s) (wk_metadata s) (wk_now s) (wk_woken s).
Definition wset_evaluated (anonymous : option nat) (named : gmap string nat) (s : dnsRuleWalkState) : dnsRuleWalkState :=
  MkWalk (ruleIndex s) (effectiveOptions s) anonymous named (namedResponses s) (namedTransports s)
    (futures s) (armedRules s) (terminalFuture s) (wk_metadata s) (wk_now s) (wk_woken s).
Definition wset_settled (fs : list dnsEvaluatedFuture) (responses : gmap string Msg)
    (transports : gmap string DNSTransport) (s : dnsRuleWalkState) : dnsRuleWalkState :=
  MkWalk (ruleIndex s) (effectiveOptions s) (anonymousFuture s) (namedFutures s) responses transports
    fs (armedRules s) (terminalFuture s) (wk_metadata s) (wk_now s) (wk_woken s).
Definition wset_futures (v : list dnsEvaluatedFuture) (s : dnsRuleWalkState) : dnsRuleWalkState :=
  wset_settled v (namedResponses s) (namedTransports s) s.
Definition wset_armedRules (v : list dnsArmedRule) (s : dnsRuleWalkState) : dnsRuleWalkState :=
  MkWalk (ruleIndex s) (effectiveOptions s) (anonymousFuture s) (namedFutures s) (namedResponses s) (namedTransports s)
    (futures s) v (terminalFuture s) (wk_metadata s) (wk_now s) (wk_woken s).
Definition wset_terminalFuture (v : option (nat * nat)) (s : dnsRuleWalkState) : dnsRuleWalkState :=
  MkWalk (ruleIndex s) (effectiveOptions s) (anonymousFuture s) (namedFutures s) (namedResponses s) (namedTransports s)
    (futures s) (armedRules s) v (wk_metadata s) (wk_now s) (wk_woken s).
Definition wset_metadata (v : InboundContext) (s : dnsRuleWalkState) : dnsRuleWalkState :=
  MkWalk (ruleIndex s) (effectiveOptions s) (anonymousFuture s) (namedFutures s) (namedResponses s) (namedTransports s)
    (futures s) (armedRules s) (terminalFuture s) v (wk_now s) (wk_woken s).
Definition wset_clock (now woken : nat) (s : dnsRuleWalkState) : dnsRuleWalkState :=
  MkWalk (ruleIndex s) (effectiveOptions s) (anonymousFuture s) (namedFutures s) (namedResponses s) (namedTransports s)
    (futures s) (armedRules s) (terminalFuture s) (wk_metadata s) now woken.

(** Time passes: to the next odd instant. *)
Definition tick (s : dnsRuleWalkState) : dnsRuleWalkState := wset_clock (S (S (wk_now s))) (wk_woken s) s.

(** When the exchanges end, by the order they are started in, what they then give, and
    when the context of the query ends; [ctxFirst] decides between two ready channels. *)
Record Schedule : Type := MkSchedule {
  sch_due : nat → option nat;
  sch_ask : nat → DNSTransport → DNSQueryOptions → option Msg * option error;
  sch_ctxDone : option nat;
  sch_ctxErr : error;
  sch_ctxFirst : nat → bool;
}.
Context (sch : Schedule) (message : Msg) (allowFakeIP : bool) (rules : list HeadlessRule).

(** ** Futures *)

Definition resolved (s : dnsRuleWalkState) (k : nat) : bool :=
  match futures s !! k with Some f => fu_resolved (wk_now s) f | None => false end.
Definition view (s : dnsRuleWalkState) (k : nat) : option Msg :=
  f ← futures s !! k; fu_view (wk_now s) f.

Definition anonymousResponse (s : dnsRuleWalkState) : option Msg := k ← anonymousFuture s; view s k.

Definition launchDNSEvaluate (tag : string) (transport : DNSTransport) (options : DNSQueryOptions)
    (s : dnsRuleWalkState) : nat * dnsRuleWalkState :=
  let k := length (futures s) in
  let '(response, err) := sch_ask sch k transport (finalizeExchangeOptions defaultDomainStrategy options) in
  let future := MkFuture tag transport response err
                  (t ← sch_due sch k; Some (t `max` S (wk_now s))%nat) false in
  (k, wset_futures (futures s ++ [future]) s).

(** One step of the loop of [settleDNSFutures], at the instant [now]. A nil response in
    the map is no response. *)
Definition settle_one (now : nat) (f : dnsEvaluatedFuture) (responses : gmap string Msg)
    (transports : gmap string DNSTransport)
    : dnsEvaluatedFuture * gmap string Msg * gmap string DNSTransport :=
  if fu_settled f || negb (fu_resolved now f) then (f, responses, transports)
  else
    let f' := MkFuture (fu_tag f) (fu_transport f) (fu_response f) (fu_err f) (fu_done f) true in
    if nonempty (fu_tag f) then
      (f', partial_alter (λ _, fu_view now f) (fu_tag f) responses, <[fu_tag f := fu_transport f]> transports)
    else (f', responses, transports).

Fixpoint settle_loop (now : nat) (fs : list dnsEvaluatedFuture) (responses : gmap string Msg)
    (transports : gmap string DNSTransport)
    : list dnsEvaluatedFuture * gmap string Msg * gmap string DNSTransport :=
  match fs with
  | [] => ([], responses, transports)
  | f :: fs =>
      let '(f, responses, transports) := settle_one now f responses transports in
      let '(fs, responses, transports) := settle_loop now fs responses transports in
      (f :: fs, responses, transports)
  end.

(** [settleDNSFutures], just before the instant at which the walk looks. *)
Definition settleDNSFutures (s : dnsRuleWalkState) : dnsRuleWalkState :=
  let '(fs, responses, transports) :=
    settle_loop (Nat.pred (wk_now s)) (futures s) (namedResponses s) (namedTransports s) in
  wset_settled fs responses transports s.

(** ** Actions *)

Inductive dnsRouteStatus : Type :=
| dnsRouteStatusMissing
| dnsRouteStatusSkipped
| dnsRouteStatusResolved (transport : DNSTransport) (options : DNSQueryOptions).

Definition resolveDNSRoute (server : string) (routeOptions : RuleActionDNSRouteOptions) (o : DNSQueryOptions)
    : dnsRouteStatus :=
  match tm_Transport tm server with
  | None => dnsRouteStatusMissing
  | Some transport =>
      if is_fakeip transport && negb allowFakeIP then dnsRouteStatusSkipped
      else
        let o := applyDNSRouteOptions routeOptions o in
        dnsRouteStatusResolved transport
          (if is_fakeip transport then qset_cache true (qo_DisableOptimisticCache o) o else o)
  end.

Definition dnsRespondMissingResponseMessage : string :=
  "respond action requires an evaluated response from a preceding evaluate action".

Definition respond (response : option Msg) (transport : option DNSTransport) : exchangeWithRulesResult :=
  match response with
  | None => MkExchangeResult None None None (Some (ENew dnsRespondMissingResponseMessage))
  | Some m => MkExchangeResult (Some m) transport None None
  end.

(** What [reject] and [predefined] answer; another method of [reject] answers nothing. *)
Definition own_answer (a : RuleAction) : option (result exchangeWithRulesResult) :=
  match a with
  | RuleActionReject method noDrop =>
      if bool_decide (method = "default"%string)
      then Some (m ← dnsRefusedResponse message; Ok (MkExchangeResult (Some m) None (Some (method, noDrop)) None))
      else if bool_decide (method = "drop"%string)
      then Some (Ok (MkExchangeResult None None (Some (method, noDrop)) (Some ErrDropped)))
      else None
  | RuleActionPredefined rcode answer ns extra =>
      Some (m ← Predefined_Response rcode answer ns extra message; Ok (MkExchangeResult (Some m) None None None))
  | _ => None
  end.

(** The [MatchResponseTag] and [Race] methods *)
Definition MatchResponseTag (rule : HeadlessRule) : string :=
  match rule with DefaultDNSRule _ _ tag _ => tag | _ => "" end.
Definition Race (rule : HeadlessRule) : bool :=
  match rule with DefaultDNSRule _ _ _ race | LogicalDNSRule _ _ _ race => race | _ => false end.
Definition hasBindings (rule : HeadlessRule) : bool :=
  has_items (MatchResponseTags rule) || MatchResponseAnonymous rule.

(** Matching with the responses there are. *)
Definition match_with (rule : HeadlessRule) (response : option Msg) (s : dnsRuleWalkState)
    : bool * dnsRuleWalkState :=
  let md := set_responses (reset_cache (wk_metadata s)) response (namedResponses s) false in
  let '(m, md) := HeadlessRule_Match env rule md in (m, wset_metadata md s).

(** ** Racing rules *)

Inductive decided : Type :=
| Answered (r : result exchangeWithRulesResult)
| Exchanging (pending : dnsPendingExchange).

(** A racing rule that matched; [None] when it decides nothing. *)
Definition armed_action (armed : dnsArmedRule) (s : dnsRuleWalkState) : option decided :=
  match DNSRule_Action (ar_rule armed) with
  | Some RuleActionRespond =>
      let tag := MatchResponseTag (ar_rule armed) in
      Some (Answered (Ok
        (if nonempty tag then respond (namedResponses s !! tag) (namedTransports s !! tag)
         else match ar_anonymousFuture armed, anonymousFuture s with
              | Some k, _ => respond (view s k) (fu_transport <$> futures s !! k)
              | None, Some k => respond (view s k) (fu_transport <$> futures s !! k)
              | None, None => respond None None
              end)))
  | Some (RuleActionDNSRoute server _ routeOptions) =>
      match resolveDNSRoute server routeOptions (ar_options armed) with
      | dnsRouteStatusResolved transport o => Some (Exchanging (PendingExchange transport o))
      | _ => None
      end
  | Some a => Answered <$> own_answer a
  | None => None
  end.

(** The loop of [sweepArmedDNSRules]: [kept] are the rules before it that are not ready. *)
Fixpoint sweep_loop (kept armed : list dnsArmedRule) (s : dnsRuleWalkState) : option decided * dnsRuleWalkState :=
  match armed with
  | [] => (None, wset_armedRules kept s)
  | a :: armed =>
      if negb (forallb (resolved s) (ar_futures a)) then sweep_loop (kept ++ [a]) armed s
      else
        let response := if ar_bindsAnonymous a then k ← ar_anonymousFuture a; view s k
                        else anonymousResponse s in
        let '(m, s) := match_with (ar_rule a) response s in
        if negb m then sweep_loop kept armed s
        else match armed_action a s with
             | Some d => (Some d, wset_armedRules (kept ++ armed) s)
             | None => sweep_loop kept armed s
             end
  end.

Definition sweepArmedDNSRules (s : dnsRuleWalkState) : option decided * dnsRuleWalkState :=
  sweep_loop [] (armedRules s) s.

(** ** The walk *)

Inductive walked : Type :=
| WalkNext
| WalkReturn (r : result exchangeWithRulesResult)
| WalkSuspend (suspension : dnsWalkSuspension).

(** What the walk does when nothing races before it. *)
Definition unless_armed (s : dnsRuleWalkState) (w : walked) : walked :=
  if has_items (armedRules s) then WalkSuspend SuspendDrain else w.

Definition walk_evaluate (server tag : string) (speculative : bool) (options : RuleActionDNSRouteOptions)
    (s : dnsRuleWalkState) : walked * dnsRuleWalkState :=
  match tm_Transport tm server with
  | None => (WalkNext, if nonempty tag then s else wset_evaluated None (namedFutures s) s)
  | Some transport =>
      if negb speculative && has_items (armedRules s) then (WalkSuspend SuspendDrain, s)
      else
        let '(k, s) := launchDNSEvaluate tag transport (applyDNSRouteOptions options (effectiveOptions s)) s in
        (WalkNext, if nonempty tag then wset_evaluated (anonymousFuture s) (<[tag := k]> (namedFutures s)) s
                   else wset_evaluated (Some k) (namedFutures s) s)
  end.

Definition walk_respond (rule : HeadlessRule) (s : dnsRuleWalkState) : walked :=
  unless_armed s
    (let tag := MatchResponseTag rule in
     if nonempty tag then WalkReturn (Ok (respond (namedResponses s !! tag) (namedTransports s !! tag)))
     else match anonymousFuture s with
          | Some k =>
              if negb (hasBindings rule) && negb (resolved s k) then WalkSuspend (SuspendAwait k)
              else WalkReturn (Ok (respond (view s k) (fu_transport <$> futures s !! k)))
          | None => WalkReturn (Ok (respond None None))
          end).

Definition walk_route (server : string) (speculative : bool) (routeOptions : RuleActionDNSRouteOptions)
    (s : dnsRuleWalkState) : walked * dnsRuleWalkState :=
  match resolveDNSRoute server routeOptions (effectiveOptions s) with
  | dnsRouteStatusMissing | dnsRouteStatusSkipped => (WalkNext, s)
  | dnsRouteStatusResolved transport o =>
      if has_items (armedRules s) then
        (WalkSuspend SuspendDrain,
         match terminalFuture s with
         | None => if speculative then
                     let '(k, s) := launchDNSEvaluate "" transport o s in
                     wset_terminalFuture (Some (k, ruleIndex s)) s
                   else s
         | Some _ => s
         end)
      else
        (WalkSuspend (SuspendPending
           match terminalFuture s with
           | Some (k, index) => if (index =? ruleIndex s)%nat then PendingFuture k else PendingExchange transport o
           | None => PendingExchange transport o
           end), s)
  end.

(** A rule whose responses are there, or which needs none. *)
Definition walk_match (rule : HeadlessRule) (s : dnsRuleWalkState) : walked * dnsRuleWalkState :=
  let '(m, s) := match_with rule (anonymousResponse s) s in
  if negb m then (WalkNext, s)
  else match DNSRule_Action rule with
  | Some (RuleActionOfDNSRouteOptions options) =>
      (WalkNext, wset_effectiveOptions (applyDNSRouteOptions options (effectiveOptions s)) s)
  | Some (RuleActionEvaluate server tag speculative options) => walk_evaluate server tag speculative options s
  | Some RuleActionRespond => (walk_respond rule s, s)
  | Some (RuleActionDNSRoute server speculative routeOptions) => walk_route server speculative routeOptions s
  | Some a =>
      (match a with
       | RuleActionReject _ _ | RuleActionPredefined _ _ _ _ =>
           unless_armed s (match own_answer a with Some r => WalkReturn r | None => WalkNext end)
       | _ => WalkNext
       end, s)
  | None => (WalkNext, s)
  end.

(** The futures a rule needs that have not ended, those of its tags first. *)
Definition bound_futures (rule : HeadlessRule) (s : dnsRuleWalkState) : list nat :=
  filter (λ k, resolved s k = false)
    (omap (λ tag, namedFutures s !! tag) (MatchResponseTags rule) ++
     (if MatchResponseAnonymous rule then option_list (anonymousFuture s) else [])).

Definition walk_race (rule : HeadlessRule) (s : dnsRuleWalkState) : walked * dnsRuleWalkState :=
  let pending := bound_futures rule s in
  let anonymous := MatchResponseAnonymous rule in
  let armed := MkArmed rule pending (if anonymous then anonymousFuture s else None) anonymous (effectiveOptions s) in
  let s := wset_armedRules (armedRules s ++ [armed]) s in
  if has_items pending then (WalkNext, s)
  else match sweepArmedDNSRules s with
       | (Some (Answered r), s) => (WalkReturn r, s)
       | (Some (Exchanging p), s) => (WalkSuspend (SuspendPending p), wset_armedRules [] s)
       | (None, s) => (WalkNext, s)
       end.

(** One iteration of [walkDNSRules]. *)
Definition walk_rule (rule : HeadlessRule) (s : dnsRuleWalkState) : walked * dnsRuleWalkState :=
  let s := tick s in
  if hasBindings rule then
    let s := settleDNSFutures s in
    if Race rule then walk_race rule s
    else match bound_futures rule s with
         | k :: _ => (WalkSuspend (SuspendAwait k), s)
         | [] => walk_match rule s
         end
  else walk_match rule s.

(** The loop of [walkDNSRules]: [rest] are the rules from [ruleIndex] on. *)
Fixpoint walk_loop (rest : list HeadlessRule) (s : dnsRuleWalkState) : walked * dnsRuleWalkState :=
  match rest with
  | [] =>
      (unless_armed s (WalkSuspend (SuspendPending (PendingExchange (tm_Default tm) (effectiveOptions s)))), s)
  | rule :: rest =>
      match walk_rule rule s with
      | (WalkNext, s) => walk_loop rest (wset_ruleIndex (S (ruleIndex s)) s)
      | ended => ended
      end
  end.

Definition walkDNSRules (s : dnsRuleWalkState) : walked * dnsRuleWalkState :=
  walk_loop (drop (ruleIndex s) rules) s.

(** ** Suspension *)

(** How a query ends: with a result, waiting for ever for an exchange that does not end,
    or with its fuel used up. *)
Inductive ended : Type :=
| Ended (r : result exchangeWithRulesResult)
| Blocked
| OutOfFuel.

Definition ctx_ended : ended := Ended (Ok (MkExchangeResult None None None (Some (sch_ctxErr sch)))).

(** Two channels: the first is ready at [t], the context ends at [sch_ctxDone]. *)
Definition select_ctx (now : nat) (t : option nat) (k : nat → ended) : ended :=
  match t, sch_ctxDone sch with
  | None, None => Blocked
  | Some t, None => k t
  | None, Some _ => ctx_ended
  | Some t, Some d =>
      let t' := (t `max` now)%nat in
      let d' := (d `max` now)%nat in
      if (t' <? d')%nat || (t' =? d')%nat && negb (sch_ctxFirst sch now) then k t else ctx_ended
  end.

Definition finishPendingExchange (s : dnsRuleWalkState) (p : dnsPendingExchange) : ended :=
  match p with
  | PendingFuture k =>
      match futures s !! k with
      | None => Blocked
      | Some f => select_ctx (wk_now s) (fu_done f)
                    (λ _, Ended (Ok (MkExchangeResult (fu_answer f) (Some (fu_transport f)) None (fu_err f))))
      end
  | PendingExchange transport o =>
      let '(response, err) :=
        sch_ask sch (length (futures s)) transport (finalizeExchangeOptions defaultDomainStrategy o) in
      Ended (Ok (MkExchangeResult response (Some transport) None err))
  end.

(** The first instant of a list after another one. *)
Fixpoint min_after (w : nat) (l : list nat) : option nat :=
  match l with
  | [] => None
  | t :: l =>
      if (w <? t)%nat then Some (match min_after w l with Some u => (t `min` u)%nat | None => t end)
      else min_after w l
  end.

(** The first future that ended after the last receive: [wake] has room for one token. *)
Definition next_wake (s : dnsRuleWalkState) : option nat := min_after (wk_woken s) (omap fu_done (futures s)).

(** The first odd instant that is not before [t] *)
Definition odd_from (t : nat) : nat := if Nat.odd t then t else S t.

Definition woken_at (t : nat) (s : dnsRuleWalkState) : dnsRuleWalkState :=
  if (t <=? wk_now s)%nat then wset_clock (wk_now s) (wk_now s) s else wset_clock (odd_from t) t s.

Definition must_wait (s : dnsRuleWalkState) (suspension : dnsWalkSuspension) : bool :=
  match suspension with
  | SuspendAwait k => negb (resolved s k)
  | SuspendDrain => has_items (armedRules s)
  | SuspendPending _ => false
  end.

Fixpoint resumeExchangeWithRules (fuel : nat) (s : dnsRuleWalkState) (suspension : dnsWalkSuspension) : ended :=
  match fuel with
  | O => OutOfFuel
  | S fuel =>
      let s := settleDNSFutures (tick s) in
      match sweepArmedDNSRules s with
      | (Some (Answered r), _) => Ended r
      | (Some (Exchanging p), s) => finishPendingExchange s p
      | (None, s) =>
          match suspension with
          | SuspendPending p => finishPendingExchange s p
          | _ =>
              if must_wait s suspension then
                select_ctx (wk_now s) (next_wake s) (λ t, resumeExchangeWithRules fuel (woken_at t s) suspension)
              else match walkDNSRules s with
                   | (WalkReturn r, _) => Ended r
                   | (WalkSuspend suspension, s) => resumeExchangeWithRules fuel s suspension
                   | (WalkNext, _) => Blocked
                   end
          end
      end
  end.

Definition walk_start (md : InboundContext) (options : DNSQueryOptions) : dnsRuleWalkState :=
  MkWalk 0 options None ∅ ∅ ∅ [] [] None md 1 0.

Definition exchangeWithRules (fuel : nat) (md : InboundContext) (options : DNSQueryOptions) : ended :=
  match walkDNSRules (walk_start md options) with
  | (WalkReturn r, _) => Ended r
  | (WalkSuspend suspension, s) => resumeExchangeWithRules fuel s suspension
  | (WalkNext, _) => Blocked
  end.

(** [exchangeWithRulesAsync]: what the callback is given. *)
Definition exchangeWithRulesAsync (fuel : nat) (md : InboundContext) (options : DNSQueryOptions) : ended :=
  match walkDNSRules (walk_start md options) with
  | (WalkReturn r, _) => Ended r
  | (WalkSuspend (SuspendPending (PendingExchange transport o)), s) =>
      finishPendingExchange s (PendingExchange transport o)
  | (WalkSuspend suspension, s) => resumeExchangeWithRules fuel s suspension
  | (WalkNext, _) => Blocked
  end.
End walk.
