(* ===== verification/DnsSpec.v ===== *)
(** * The DNS router: what the walk over the rules means

    First, which evaluated responses a rule looks at: [reads] holds when they are among
    the ones the walk waits for, and then the verdict depends on no other. Second, the
    specification: the walk as if every exchange ended at once, one rule after the
    other, with no futures and no clock. *)
From stdpp Require Import base list gmap strings.
From S2P Require Import Prelude Netip Metadata RuleItems RuleAction RuleMatch RuleSpec RuleRefine RuleBuild DnsRouter DnsWalk.

(** ** The responses a rule reads *)

Section reads.
Context `{Extern}.

Definition response_item (item : RuleItem) : bool :=
  match item with DNSResponseRCodeItem _ | DNSResponseRecordItem _ _ _ => true | _ => false end.

(** All the items of a rule but its rule-set item. *)
Definition rule_items {R} (r : abstractDefaultRule R) : list RuleItem :=
  items r ++ sourceAddressItems r ++ sourcePortItems r ++ destinationAddressItems r ++
  destinationIPCIDRItems r ++ destinationPortItems r.

Section nested.
Variable reads : bool → HeadlessRule → bool.
Definition default_reads (anonymous : bool) (r : abstractDefaultRule HeadlessRule) : bool :=
  (anonymous || forallb (λ item, negb (response_item item)) (rule_items r)) &&
  match ruleSetItem r with
  | Some item => forallb (λ s, forallb (reads anonymous) (rs_rules s)) (setList item)
  | None => true
  end.
End nested.

(** Every response the rule reads is one of [tags], or the anonymous one if
    [anonymous]. A rule with [match_response] reads the response it names, in which its
    items then look. *)
Fixpoint reads (tags : list string) (anonymous : bool) (rule : HeadlessRule) : bool :=
  match rule with
  | DefaultRule r | DefaultHeadlessRule r => default_reads (reads tags) anonymous r
  | DefaultDNSRule r matchResponse tag _ =>
      if matchResponse then (if nonempty tag then mem tag tags else anonymous) && default_reads (reads tags) true r
      else default_reads (reads tags) anonymous r
  | LogicalRule r | LogicalHeadlessRule r | LogicalDNSRule r _ _ _ => forallb (reads tags anonymous) (l_rules r)
  end.

(** Two requests that differ in responses only, and in none that may be read; the rule
    cache does not matter. *)
Definition agree (tags : list string) (anonymous : bool) (req req' : InboundContext) : Prop :=
  req' = set_cache (set_responses req (md_DNSResponse req') (md_NamedDNSResponses req')
                     (md_DestinationAddressMatchFromResponse req)) (md_cache req') ∧
  (∀ tag, tag ∈ tags → md_NamedDNSResponses req' !! tag = md_NamedDNSResponses req !! tag) ∧
  if anonymous then md_DNSResponse req' = md_DNSResponse req
  else md_DestinationAddressMatchFromResponse req = false.

Variable env : Env.

Lemma item_holds_agree sc tags anonymous req req' item :
  agree tags anonymous req req' → anonymous || negb (response_item item) = true →
  item_holds env sc req' item = item_holds env sc req item.
Proof.
  intros (E & _ & Ha) Hi. rewrite E.
  destruct anonymous; cbn in Hi.
  - rewrite Ha. by destruct item.
  - destruct item; try done; unfold item_holds; cbn;
      unfold IPCIDRItem_Match, IPIsPrivateItem_Match, IPAcceptAnyItem_Match; cbn; by rewrite Ha.
Qed.

Lemma rule_item_agree sc tags anonymous req req' r item :
  agree tags anonymous req req' → default_reads (reads tags) anonymous r = true → In item (rule_items r) →
  item_holds env sc req' item = item_holds env sc req item.
Proof.
  intros Ha Hr Hin. apply (item_holds_agree _ tags anonymous); [done|].
  unfold default_reads in Hr. apply andb_true_iff in Hr as [Hr _]. apply orb_true_iff in Hr as [->|Hr]; [done|].
  rewrite forallb_forall in Hr. rewrite Hr by auto. apply orb_true_r.
Qed.

Lemma group_conds_agree sc tags anonymous req req' r g :
  agree tags anonymous req req' → default_reads (reads tags) anonymous r = true →
  group_conds env false sc req' r g = group_conds env false sc req r g.
Proof.
  intros Ha Hr. apply map_ext_in. intros item Hin. apply (rule_item_agree _ tags anonymous _ _ r); [done|done|].
  revert Hin. unfold rule_items, group_items.
  destruct g; destruct (sc_source sc); cbn; rewrite ?in_app_iff; cbn; tauto.
Qed.

Lemma items_agree sc tags anonymous req req' r :
  agree tags anonymous req req' → default_reads (reads tags) anonymous r = true →
  forallb (item_holds env sc req') (items r) = forallb (item_holds env sc req) (items r).
Proof.
  intros Ha Hr. apply forallb_ext_in. intros item Hin. apply (rule_item_agree _ tags anonymous _ _ r); [done|done|].
  unfold rule_items. rewrite in_app_iff. auto.
Qed.

Lemma groups_hold_ext a b : (∀ g, a g = b g) → groups_hold a = groups_hold b.
Proof. intros E. unfold groups_hold. cbn. by rewrite !E. Qed.

(** The verdict of a rule on two requests that agree. *)
Definition same_verdict (tags : list string) (rule : HeadlessRule) : Prop :=
  ∀ anonymous sc req req', reads tags anonymous rule = true → agree tags anonymous req req' →
    holds env sc rule req' = holds env sc rule req.

Lemma set_holds_agree tags anonymous outer outer' sc req req' s :
  Forall (same_verdict tags) (rs_rules s) → forallb (reads tags anonymous) (rs_rules s) = true →
  agree tags anonymous req req' → (∀ g, outer' g = outer g) →
  set_holds env (holds env) outer' sc req' s = set_holds env (holds env) outer sc req s.
Proof.
  intros IH Hr Ha Ho. unfold set_holds. destruct (mergeableRuleIn (rs_rules s)) as [b|] eqn:Em.
  - apply mergeableRuleIn_Some in Em as (Es & _ & _). rewrite Es in Hr. cbn in Hr. rewrite andb_true_r in Hr.
    rewrite (items_agree _ tags anonymous req) by done. f_equal. apply groups_hold_ext. intros g.
    unfold merge_conds. by rewrite Ho, (group_conds_agree _ tags anonymous req).
  - rewrite (groups_hold_ext _ _ Ho). f_equal. apply existsb_ext_in. intros rule Hin.
    rewrite forallb_forall in Hr. rewrite List.Forall_forall in IH. by apply (IH rule Hin anonymous); [apply Hr|].
Qed.

Lemma default_holds_agree tags anonymous sc req req' r :
  Forall (same_verdict tags) (ruleSet_rules r) → default_reads (reads tags) anonymous r = true →
  agree tags anonymous req req' →
  default_holds env (holds env) sc r req' = default_holds env (holds env) sc r req.
Proof.
  intros IH Hr Ha. unfold default_holds, body_holds. f_equal. f_equal.
  rewrite (items_agree _ tags anonymous req) by done. f_equal.
  pose proof Hr as Hs. unfold default_reads in Hs. apply andb_true_iff in Hs as [_ Hs].
  unfold ruleSet_rules in IH. destruct (ruleSetItem r) as [item|].
  - apply existsb_ext_in. intros s Hin. apply (set_holds_agree tags anonymous); [| |done|].
    + rewrite List.Forall_forall in *. intros rule Hrule. apply IH.
      apply in_concat. exists (rs_rules s). split; [by apply List.in_map|done].
    + rewrite forallb_forall in Hs. by apply Hs.
    + intros g. by apply (group_conds_agree _ tags anonymous).
  - apply groups_hold_ext. intros g. by apply (group_conds_agree _ tags anonymous).
Qed.

Lemma with_response_agree tags anonymous req req' m :
  agree tags anonymous req req' → agree tags true (with_response req m) (with_response req' m).
Proof. intros (E & Hn & _). split_and!; [by rewrite E|done|done]. Qed.

(** The verdict of a rule depends only on the responses it may read. *)
Lemma holds_agree tags rule : same_verdict tags rule.
Proof.
  induction rule as [rule IH] using HeadlessRule_nested_ind.
  intros anonymous sc req req' Hr Ha. destruct rule as [r|r|r mr tag race|r|r|r ? ? ?]; cbn [reads holds subrules] in *;
    try (by eapply default_holds_agree).
  2,3,4: unfold logical_holds; f_equal; rewrite List.Forall_forall in IH; rewrite forallb_forall in Hr;
    destruct (l_mode r); [apply forallb_ext_in|apply existsb_ext_in]; intros x Hin;
    by apply (IH x Hin anonymous); [apply Hr|].
  unfold dns_holds. destruct mr; [|by eapply default_holds_agree].
  apply andb_true_iff in Hr as [Ht Hr].
  assert (Er : (if nonempty tag then md_NamedDNSResponses req' !! tag else md_DNSResponse req') =
               (if nonempty tag then md_NamedDNSResponses req !! tag else md_DNSResponse req)).
  { destruct Ha as (_ & Hn & Ha). destruct (nonempty tag); [|by destruct anonymous].
    apply Hn. by apply bool_decide_eq_true in Ht. }
  rewrite Er. clear Ht Er. destruct (if nonempty tag then _ else _) as [m|]; [|done].
  eapply default_holds_agree; [done|done|]. by eapply with_response_agree.
Qed.
End reads.

(** ** The specification *)

(** What an [evaluate] rule stores: the response, if the exchange succeeded, and the
    transport it came from. *)
Abbreviation evaluated := (option Msg * DNSTransport)%type.

Section spec.
Context `{Extern} (env : Env) (tm : DNSTransportManager) (defaultDomainStrategy : Z).
Context (sch : Schedule) (message : Msg) (allowFakeIP : bool) (md : InboundContext).

(** The [n]-th exchange of the query. *)
Definition seq_ask (n : nat) (transport : DNSTransport) (o : DNSQueryOptions) : option Msg * option error :=
  sch_ask sch n transport (finalizeExchangeOptions defaultDomainStrategy o).
Definition seq_evaluate (n : nat) (transport : DNSTransport) (o : DNSQueryOptions) : evaluated :=
  (match seq_ask n transport o with (response, None) => response | _ => None end, transport).
Definition seq_finish (n : nat) (transport : DNSTransport) (o : DNSQueryOptions) : result exchangeWithRulesResult :=
  let '(response, err) := seq_ask n transport o in Ok (MkExchangeResult response (Some transport) None err).

Definition seq_respond (e : option evaluated) : result exchangeWithRulesResult :=
  Ok (respond (e ≫= fst) (snd <$> e)).

Definition seq_request (anonymous : option evaluated) (named : gmap string evaluated) : InboundContext :=
  set_responses md (anonymous ≫= fst) (omap fst named) false.

(** The walk in order: [n] exchanges were made, [o] are the options so far, [anonymous]
    and [named] what the [evaluate] rules stored. *)
Fixpoint seq_walk (rules : list HeadlessRule) (n : nat) (o : DNSQueryOptions)
    (anonymous : option evaluated) (named : gmap string evaluated) : result exchangeWithRulesResult :=
  match rules with
  | [] => seq_finish n (tm_Default tm) o
  | rule :: rules =>
      if negb (holds env top_scope rule (seq_request anonymous named)) then seq_walk rules n o anonymous named
      else match DNSRule_Action rule with
      | Some (RuleActionOfDNSRouteOptions options) =>
          seq_walk rules n (applyDNSRouteOptions options o) anonymous named
      | Some (RuleActionEvaluate server tag _ options) =>
          match tm_Transport tm server with
          | None => seq_walk rules n o (if nonempty tag then anonymous else None) named
          | Some transport =>
              let e := seq_evaluate n transport (applyDNSRouteOptions options o) in
              if nonempty tag then seq_walk rules (S n) o anonymous (<[tag := e]> named)
              else seq_walk rules (S n) o (Some e) named
          end
      | Some RuleActionRespond =>
          seq_respond (if nonempty (MatchResponseTag rule) then named !! MatchResponseTag rule else anonymous)
      | Some (RuleActionDNSRoute server _ options) =>
          match resolveDNSRoute tm allowFakeIP server options o with
          | dnsRouteStatusResolved transport o => seq_finish n transport o
          | _ => seq_walk rules n o anonymous named
          end
      | Some a => match own_answer message a with Some r => r | None => seq_walk rules n o anonymous named end
      | None => seq_walk rules n o anonymous named
      end
  end.
End spec.
