(* ===== verification/DnsTerm.v ===== *)
(** * The DNS router: the walk over the rules ends

    When every exchange ends, a query is answered: the walk is suspended only for a
    future that is still to end, or for racing rules that wait for such futures. *)
From stdpp Require Import base list gmap strings.
From S2P Require Import Prelude Netip Metadata RuleItems RuleAction RuleMatch Concrete RuleBuild DnsRouter DnsLegacy DnsWalk.

(** ** Futures by the instants at which they end *)

Section dues.
Context `{Extern}.

Definition dues (s : dnsRuleWalkState) : list (option nat) := map fu_done (futures s).

Definition ended_by (now : nat) (d : option nat) : bool :=
  match d with Some t => (t <=? now)%nat | None => false end.

Lemma resolved_dues s k : resolved s k = match dues s !! k with Some d => ended_by (wk_now s) d | None => false end.
Proof. unfold resolved, dues. rewrite list_lookup_fmap. by destruct (futures s !! k). Qed.

Lemma length_dues s : length (dues s) = length (futures s).
Proof. apply length_map. Qed.

(** How many futures end after an instant. *)
Definition later (now : nat) (l : list (option nat)) : nat := length (filter (λ d, ended_by now d = false) l).

Lemma later_mono now now' l : (now <= now')%nat → (later now' l <= later now l)%nat.
Proof.
  intros Hle. unfold later. induction l as [|d l IH]; [done|].
  rewrite !filter_cons. destruct (decide (ended_by now' d = false)) as [Hd|Hd].
  - rewrite decide_True; [cbn; lia|]. destruct d as [t|]; [|done]. cbn in *. apply Nat.leb_gt in Hd.
    apply Nat.leb_gt. lia.
  - case_decide; cbn; lia.
Qed.

Lemma later_drop now now' l k d :
  (now <= now')%nat → l !! k = Some d → ended_by now d = false → ended_by now' d = true →
  (later now' l < later now l)%nat.
Proof.
  intros Hle. revert k. unfold later. induction l as [|d' l IH]; intros [|k] Hk Hd Hd'; try done; cbn in Hk.
  - injection Hk as ->. rewrite !filter_cons, decide_False, decide_True by (done || congruence).
    pose proof (later_mono now now' l Hle). unfold later in *. cbn. lia.
  - specialize (IH k Hk Hd Hd'). rewrite !filter_cons.
    destruct (decide (ended_by now' d' = false)) as [E|E]; [|case_decide; cbn; lia].
    rewrite decide_True; [cbn; lia|]. destruct d' as [t|]; [|done]. cbn in *. apply Nat.leb_gt in E.
    apply Nat.leb_gt. lia.
Qed.

Lemma later_app now l d : (later now (l ++ [d]) <= S (later now l))%nat.
Proof. unfold later. rewrite filter_app, length_app, filter_cons. case_decide; cbn; lia. Qed.

(** ** Well-formed states *)

Record wf (s : dnsRuleWalkState) : Prop := MkWf {
  wf_dues : Forall is_Some (dues s);
  wf_clock : (wk_woken s <= wk_now s)%nat;
  wf_anonymous k : anonymousFuture s = Some k → (k < length (futures s))%nat;
  wf_named tag k : namedFutures s !! tag = Some k → (k < length (futures s))%nat;
  wf_armed : Forall (λ a, Forall (λ k, (k < length (futures s))%nat) (ar_futures a)) (armedRules s);
  wf_terminal k i : terminalFuture s = Some (k, i) → (k < length (futures s))%nat;
}.

(** What is left to do. *)
Context (rules : list HeadlessRule).
Definition work (s : dnsRuleWalkState) : nat :=
  later (wk_woken s) (dues s) + later (wk_now s) (dues s) + length (armedRules s) +
  match terminalFuture s with None => 2 | Some _ => 0 end.
Definition potential (s : dnsRuleWalkState) : nat := work s + 4 * length (drop (ruleIndex s) rules).

(** Steps that leave the futures alone, but for their being settled, and the racing
    rules; the clock may go on. *)
Record quiet (s s' : dnsRuleWalkState) : Prop := MkQuiet {
  q_dues : dues s' = dues s;
  q_index : ruleIndex s' = ruleIndex s;
  q_anonymous : anonymousFuture s' = anonymousFuture s;
  q_named : namedFutures s' = namedFutures s;
  q_armed : armedRules s' = armedRules s;
  q_terminal : terminalFuture s' = terminalFuture s;
  q_woken : wk_woken s' = wk_woken s;
  q_now : (wk_now s <= wk_now s')%nat;
}.

Lemma quiet_refl s : quiet s s.
Proof. by constructor. Qed.
Lemma quiet_trans s s' s'' : quiet s s' → quiet s' s'' → quiet s s''.
Proof. intros [] []. constructor; try congruence. lia. Qed.

Lemma quiet_length s s' : quiet s s' → length (futures s') = length (futures s).
Proof. intros [E _ _ _ _ _ _ _]. by rewrite <- !length_dues, E. Qed.

Lemma quiet_wf s s' : quiet s s' → wf s → wf s'.
Proof.
  intros Hq Hw. pose proof (quiet_length _ _ Hq) as El. destruct Hq, Hw. constructor; rewrite ?El; try congruence.
  - lia.
  - intros k. rewrite q_anonymous0. apply wf_anonymous0.
  - intros tag k. rewrite q_named0. apply wf_named0.
  - intros k i. rewrite q_terminal0. apply wf_terminal0.
Qed.

Lemma quiet_work s s' : quiet s s' → (work s' <= work s)%nat.
Proof.
  intros []. unfold work. rewrite q_dues0, q_armed0, q_terminal0, q_woken0.
  pose proof (later_mono _ _ (dues s) q_now0). lia.
Qed.

Lemma quiet_potential s s' : quiet s s' → (potential s' <= potential s)%nat.
Proof. intros Hq. pose proof (quiet_work _ _ Hq). destruct Hq. unfold potential. rewrite q_index0. lia. Qed.

Lemma tick_quiet s : quiet s (tick s).
Proof. constructor; try done. cbn. lia. Qed.

Lemma settle_loop_done now fs R T : map fu_done (settle_loop now fs R T).1.1 = map fu_done fs.
Proof.
  revert R T. induction fs as [|f fs IH]; intros R T; [done|]. cbn.
  destruct (settle_one now f R T) as [[f' R'] T'] eqn:E. specialize (IH R' T').
  destruct (settle_loop now fs R' T') as [[fs' R''] T'']. cbn in *. rewrite IH. f_equal.
  unfold settle_one in E. repeat case_match; by simplify_eq.
Qed.

Lemma settle_quiet s : quiet s (settleDNSFutures s).
Proof.
  unfold settleDNSFutures. pose proof (settle_loop_done (Nat.pred (wk_now s)) (futures s) (namedResponses s) (namedTransports s)) as Hd.
  destruct (settle_loop _ _ _ _) as [[fs R] T]. by constructor.
Qed.

Lemma match_with_quiet env rule response s : quiet s (match_with env rule response s).2.
Proof. unfold match_with. destruct (HeadlessRule_Match _ _ _) as [m md]. by constructor. Qed.

Lemma resolved_mono s s' k : quiet s s' → resolved s k = true → resolved s' k = true.
Proof.
  intros []. rewrite !resolved_dues, q_dues0. destruct (dues s !! k) as [[t|]|]; [|done|done].
  cbn. rewrite !Nat.leb_le. lia.
Qed.
End dues.

(** ** One rule *)

Section steps.
Context `{Extern} (env : Env) (tm : DNSTransportManager) (defaultDomainStrategy : Z) (sch : Schedule).
Context (message : Msg) (allowFakeIP : bool) (rules : list HeadlessRule).
Hypothesis all_end : ∀ k, is_Some (sch_due sch k).

Definition pending_ok (p : dnsPendingExchange) (s : dnsRuleWalkState) : Prop :=
  match p with PendingFuture k => (k < length (futures s))%nat | PendingExchange _ _ => True end.

(** What a walk that ended leaves: what it waits for is still to come. *)
Definition sound_end (w : walked) (s : dnsRuleWalkState) : Prop :=
  match w with
  | WalkSuspend (SuspendAwait k) => resolved s k = false ∧ (k < length (futures s))%nat
  | WalkSuspend SuspendDrain => armedRules s ≠ []
  | WalkSuspend (SuspendPending p) => armedRules s = [] ∧ pending_ok p s
  | _ => True
  end.

Definition waits (w : walked) : bool :=
  match w with WalkSuspend (SuspendAwait _) | WalkSuspend SuspendDrain => true | _ => false end.

Record step_ok (s : dnsRuleWalkState) (w : walked) (s' : dnsRuleWalkState) : Prop := MkStep {
  st_wf : wf s';
  st_index : ruleIndex s' = ruleIndex s;
  st_work : (work s' <= work s + if waits w then 0 else 3)%nat;
  st_end : sound_end w s';
}.

Lemma step_quiet s s' w s'' : quiet s s' → step_ok s' w s'' → step_ok s w s''.
Proof.
  intros Hq []. pose proof (quiet_work _ _ Hq). destruct Hq. constructor; [done|congruence| |done].
  destruct w; lia.
Qed.

Lemma quiet_step s w s' : wf s → quiet s s' → sound_end w s' → step_ok s w s'.
Proof.
  intros Hw Hq He. constructor; [by eapply quiet_wf|apply Hq| |done]. pose proof (quiet_work _ _ Hq). lia.
Qed.

Lemma unless_armed_end s w : (armedRules s = [] → sound_end w s) → sound_end (unless_armed s w) s.
Proof. unfold unless_armed. destruct (armedRules s) eqn:E; cbn; [|by rewrite E]. by intros Hw; apply Hw. Qed.

(** Starting an exchange. *)
Lemma launch_ok tag transport o s k s' :
  wf s → launchDNSEvaluate defaultDomainStrategy sch tag transport o s = (k, s') →
  wf s' ∧ ruleIndex s' = ruleIndex s ∧ armedRules s' = armedRules s ∧ terminalFuture s' = terminalFuture s ∧
  anonymousFuture s' = anonymousFuture s ∧ namedFutures s' = namedFutures s ∧
  k = length (futures s) ∧ length (futures s') = S (length (futures s)) ∧ (work s' <= S (S (work s)))%nat.
Proof.
  intros [Hd Hc Ha Hn Har Ht]. unfold launchDNSEvaluate. destruct (sch_ask _ _ _ _) as [response err].
  destruct (all_end (length (futures s))) as [t Et]. rewrite Et. cbn [mbind option_bind]. intros [= <- <-].
  set (d := Some (t `max` S (wk_now s))%nat).
  assert (Ed : dues (wset_futures (futures s ++ [MkFuture tag transport response err d false]) s) = dues s ++ [d])
    by (unfold dues; cbn; by rewrite map_app).
  assert (El : length (futures s ++ [MkFuture tag transport response err d false]) = S (length (futures s)))
    by (rewrite length_app; cbn; lia).
  split_and!; try done.
  - constructor; rewrite ?Ed; cbn; rewrite ?El; try done.
    + apply Forall_app; split; [done|]. constructor; [by eexists|done].
    + intros k Hk. apply Ha in Hk. lia.
    + intros tag' k Hk. apply Hn in Hk. lia.
    + eapply Forall_impl; [exact Har|]. cbn. intros a Hl. eapply Forall_impl; [exact Hl|]. cbn. lia.
    + intros k i Hk. apply Ht in Hk. lia.
  - unfold work. rewrite Ed. cbn. pose proof (later_app (wk_woken s) (dues s) d).
    pose proof (later_app (wk_now s) (dues s) d). lia.
Qed.

Lemma evaluated_ok s anonymous named :
  wf s → (∀ k, anonymous = Some k → (k < length (futures s))%nat) →
  (∀ tag k, named !! tag = Some k → (k < length (futures s))%nat) →
  wf (wset_evaluated anonymous named s) ∧ work (wset_evaluated anonymous named s) = work s.
Proof. intros [] Ha Hn. by split. Qed.

Lemma walk_evaluate_ok server tag speculative options s w s' :
  wf s → walk_evaluate tm defaultDomainStrategy sch server tag speculative options s = (w, s') → step_ok s w s'.
Proof.
  intros Hw. unfold walk_evaluate. destruct (tm_Transport tm server) as [transport|].
  2:{ intros [= <- <-]. destruct (nonempty tag); [by apply quiet_step; [|apply quiet_refl|]|].
      destruct (evaluated_ok s None (namedFutures s) Hw) as [Hw' E]; [done|apply Hw|].
      constructor; [done|done| |done]. rewrite E. cbn [waits]. lia. }
  destruct (negb speculative && has_items (armedRules s)) eqn:Ea.
  { intros [= <- <-]. apply quiet_step; [done|apply quiet_refl|]. cbn. intros En. rewrite En, andb_false_r in Ea. done. }
  destruct (launchDNSEvaluate _ _ _ _ _ _) as [k s1] eqn:El.
  apply launch_ok in El as (Hw1 & Hi & Har & Ht & Han & Hna & -> & Hl & Hk); [|done].
  intros [= <- <-]. destruct (nonempty tag).
  - destruct (evaluated_ok s1 (anonymousFuture s1) (<[tag := length (futures s)]> (namedFutures s1)) Hw1) as [Hw2 E].
    + apply Hw1.
    + intros tag' k. rewrite lookup_insert_Some. intros [[_ <-]|[_ Hk']]; [lia|]. by eapply (wf_named s1).
    + constructor; [done|done| |done]. rewrite E. cbn [waits]. lia.
  - destruct (evaluated_ok s1 (Some (length (futures s))) (namedFutures s1) Hw1) as [Hw2 E].
    + intros k [= <-]. lia.
    + apply Hw1.
    + constructor; [done|done| |done]. rewrite E. cbn [waits]. lia.
Qed.

Lemma walk_respond_end rule s : wf s → sound_end (walk_respond rule s) s.
Proof.
  intros Hw. unfold walk_respond. apply unless_armed_end. intros _. destruct (nonempty _); [done|].
  destruct (anonymousFuture s) as [k|] eqn:Ek; [|done].
  destruct (hasBindings rule); cbn; [done|]. destruct (resolved s k) eqn:Er; [done|]. cbn.
  split; [done|]. by eapply wf_anonymous.
Qed.

Lemma walk_route_ok server speculative options s w s' :
  wf s → walk_route tm defaultDomainStrategy sch allowFakeIP server speculative options s = (w, s') → step_ok s w s'.
Proof.
  intros Hw. unfold walk_route.
  assert (Hid : ∀ w, sound_end w s → step_ok s w s) by (intros; apply quiet_step; [done|apply quiet_refl|done]).
  destruct (resolveDNSRoute _ _ _ _ _) as [| |transport o]; [intros [= <- <-]; by apply Hid..|].
  destruct (armedRules s) as [|a l] eqn:Ear; cbn.
  - intros [= <- <-]. apply Hid. cbn. split; [done|]. destruct (terminalFuture s) as [[k i]|] eqn:Et; [|done].
    destruct (i =? _)%nat; [|done]. by eapply wf_terminal.
  - intros [= <- <-]. destruct (terminalFuture s) as [[k i]|] eqn:Et; [apply Hid; cbn; by rewrite Ear|].
    destruct speculative; [|apply Hid; cbn; by rewrite Ear].
    destruct (launchDNSEvaluate _ _ _ _ _ _) as [k s1] eqn:El.
    apply launch_ok in El as (Hw1 & Hi & Har & Ht & Han & Hna & -> & Hl & Hk); [|done].
    constructor; [|done| |].
    + destruct Hw1. constructor; try done. cbn. intros k i [= <- <-]. lia.
    + unfold work in *. rewrite Ht, Et in Hk.
      change (dues (wset_terminalFuture _ s1)) with (dues s1). cbn. rewrite Et. lia.
    + cbn. by rewrite Har, Ear.
Qed.

Lemma walk_match_ok rule s w s' :
  wf s → walk_match env tm defaultDomainStrategy sch message allowFakeIP rule s = (w, s') → step_ok s w s'.
Proof.
  intros Hw. unfold walk_match. pose proof (match_with_quiet env rule (anonymousResponse s) s) as Hq.
  destruct (match_with _ _ _ _) as [m s1]. cbn in Hq. intros E. apply (step_quiet _ s1); [done|].
  apply (quiet_wf _ s1) in Hw; [|done]. clear Hq s.
  assert (Hid : ∀ w, sound_end w s1 → step_ok s1 w s1) by (intros; apply quiet_step; [done|apply quiet_refl|done]).
  destruct m; cbn in E; [|injection E as <- <-; by apply Hid].
  destruct (DNSRule_Action rule) as [[]|]; try (injection E as <- <-; by apply Hid).
  - by eapply walk_route_ok.
  - by eapply walk_evaluate_ok.
  - injection E as <- <-. by apply Hid, walk_respond_end.
  - injection E as <- <-. apply quiet_step; [done| |done]. by constructor.
  - injection E as <- <-. apply Hid, unless_armed_end. by repeat case_match.
  - injection E as <- <-. by apply Hid, unless_armed_end.
Qed.
Lemma armed_action_pending a s p :
  armed_action tm message allowFakeIP a s = Some (Exchanging p) → ∃ transport o, p = PendingExchange transport o.
Proof.
  unfold armed_action. assert (Hown : ∀ x, Answered <$> x = Some (Exchanging p) → False) by (by intros [?|]).
  destruct (DNSRule_Action _) as [[]|]; try (by intros E%Hown); try done.
  destruct (resolveDNSRoute _ _ _ _ _); [done|done|]. intros [= <-]. eauto.
Qed.

(** Racing rules: those that are ready are taken out, the others stay. *)
Lemma sweep_loop_ok kept armed s d s' :
  Forall (λ a, forallb (resolved s) (ar_futures a) = false) kept →
  sweep_loop env tm message allowFakeIP kept armed s = (d, s') →
  quiet (wset_armedRules (armedRules s') s) s' ∧ wk_now s' = wk_now s ∧ armedRules s' ⊆+ kept ++ armed ∧
  (d = None → Forall (λ a, forallb (resolved s) (ar_futures a) = false) (armedRules s')) ∧
  (∀ p, d = Some (Exchanging p) → ∃ transport o, p = PendingExchange transport o).
Proof.
  revert kept s d s'. induction armed as [|a armed IH]; intros kept s d s' Hk; cbn.
  - intros [= <- <-]. rewrite app_nil_r. cbn. split_and!; done.
  - destruct (forallb (resolved s) (ar_futures a)) eqn:Er; cbn.
    2:{ intros E. apply IH in E as (? & ? & ? & ?); [|by apply Forall_app_2; auto]. by rewrite <- app_assoc in *. }
    set (response := if ar_bindsAnonymous a then _ else _).
    pose proof (match_with_quiet env (ar_rule a) response s) as Hq.
    assert (Hn : wk_now (match_with env (ar_rule a) response s).2 = wk_now s)
      by (unfold match_with; by destruct (HeadlessRule_Match _ _ _)).
    destruct (match_with _ _ _ _) as [m s1]. cbn in Hq, Hn.
    assert (Hr : ∀ k, resolved s1 k = resolved s k)
      by (intros k; rewrite !resolved_dues, Hn; destruct Hq as [-> _ _ _ _ _ _ _]; done).
    assert (Hf : ∀ l, Forall (λ a, forallb (resolved s1) (ar_futures a) = false) l ↔
                      Forall (λ a, forallb (resolved s) (ar_futures a) = false) l).
    { intros l. rewrite !List.Forall_forall. split; intros Hl x Hx; rewrite <- (Hl x Hx); by apply forallb_ext_in. }
    assert (Hrest : sweep_loop env tm message allowFakeIP kept armed s1 = (d, s') →
      quiet (wset_armedRules (armedRules s') s) s' ∧ wk_now s' = wk_now s ∧ armedRules s' ⊆+ kept ++ a :: armed ∧
      (d = None → Forall (λ a, forallb (resolved s) (ar_futures a) = false) (armedRules s')) ∧
      (∀ p, d = Some (Exchanging p) → ∃ transport o, p = PendingExchange transport o)).
    { intros E. apply IH in E as (Hq' & ? & Hsub & Hfin & ?); [|by apply Hf]. split_and!; [|congruence| | |done].
      - eapply quiet_trans; [|exact Hq']. destruct Hq. by constructor.
      - etrans; [exact Hsub|]. apply submseteq_skips_l, submseteq_cons. done.
      - intros Ed. by apply Hf, Hfin. }
    destruct m; [|exact Hrest]. cbn. destruct (armed_action _ _ _ _ _) as [d'|] eqn:Ea; [|exact Hrest].
    intros [= <- <-]. split_and!; [|done| |done|].
    + destruct Hq. by constructor.
    + cbn. by apply submseteq_skips_l, submseteq_cons.
    + intros p [= ->]. by eapply armed_action_pending.
Qed.

Lemma armed_sub_wf s l : wf s → l ⊆+ armedRules s → wf (wset_armedRules l s) ∧ (work (wset_armedRules l s) <= work s)%nat.
Proof.
  intros [] Hl. split.
  - constructor; try done. cbn. rewrite List.Forall_forall in *. intros a Ha. apply wf_armed0.
    rewrite <- list_elem_of_In in *. by eapply elem_of_submseteq.
  - unfold work. change (dues (wset_armedRules l s)) with (dues s). cbn. apply submseteq_length in Hl. lia.
Qed.

Lemma sweep_ok s d s' :
  wf s → sweepArmedDNSRules env tm message allowFakeIP s = (d, s') →
  wf s' ∧ (work s' <= work s)%nat ∧ quiet (wset_armedRules (armedRules s') s) s' ∧ wk_now s' = wk_now s ∧
  armedRules s' ⊆+ armedRules s ∧
  (d = None → Forall (λ a, forallb (resolved s') (ar_futures a) = false) (armedRules s')) ∧
  (∀ p, d = Some (Exchanging p) → ∃ transport o, p = PendingExchange transport o).
Proof.
  intros Hw E. apply sweep_loop_ok in E as (Hq & Hn & Hs & Hf & Hp); [|done]. cbn in Hs.
  destruct (armed_sub_wf s _ Hw Hs) as [Hw' Hk]. pose proof (quiet_work _ _ Hq).
  assert (Ed : dues s' = dues s) by apply Hq.
  split_and!; try done; [by eapply quiet_wf|lia|].
  intros Hd. eapply Forall_impl; [by apply Hf|]. cbn. intros a <-. apply forallb_ext_in. intros k _.
  by rewrite !resolved_dues, Ed, Hn.
Qed.

(** The futures a rule waits for are there and have not ended. *)
Lemma bound_futures_ok rule s k :
  wf s → k ∈ bound_futures rule s → resolved s k = false ∧ (k < length (futures s))%nat.
Proof.
  intros Hw. unfold bound_futures. rewrite list_elem_of_filter, elem_of_app, list_elem_of_omap.
  intros [Hr [(tag & _ & Hk)|Hk]]; (split; [done|]); [by eapply wf_named|].
  destruct (MatchResponseAnonymous rule); [|by apply elem_of_nil in Hk].
  destruct (anonymousFuture s) as [k1|] eqn:Ea; cbn in Hk; [|by apply elem_of_nil in Hk].
  apply list_elem_of_singleton in Hk as ->. by eapply wf_anonymous.
Qed.

Lemma walk_race_ok rule s w s' :
  wf s → walk_race env tm message allowFakeIP rule s = (w, s') → step_ok s w s'.
Proof.
  intros Hw. unfold walk_race. set (armed := MkArmed _ _ _ _ _). set (s1 := wset_armedRules _ s).
  assert (Hw1 : wf s1).
  { assert (Hb : Forall (λ k, (k < length (futures s))%nat) (bound_futures rule s))
      by (rewrite Forall_forall; intros k Hk; by apply (bound_futures_ok rule)).
    destruct Hw. constructor; try done. cbn. by apply Forall_app_2; [|constructor]. }
  assert (Hk1 : (work s1 <= work s + 1)%nat).
  { unfold work, s1. change (dues (wset_armedRules _ s)) with (dues s).
    cbn [armedRules wset_armedRules terminalFuture wk_woken wk_now]. rewrite length_app. cbn [length]. lia. }
  destruct (has_items _); [intros [= <- <-]; constructor; [done|done|cbn [waits]; lia|done]|].
  destruct (sweepArmedDNSRules _ _ _ _ s1) as [d s2] eqn:E.
  apply sweep_ok in E as (Hw2 & Hk2 & [_ Hi2 _ _ _ _ _ _] & _ & _ & _ & Hp); [|done].
  destruct d as [[r|p]|]; intros [= <- <-];
    [constructor; cbn [waits]; lia || done| |constructor; cbn [waits]; lia || done].
  destruct (Hp p eq_refl) as (transport & o & ->).
  destruct (armed_sub_wf s2 [] Hw2 (submseteq_nil_l _)) as [Hw3 Hk3].
  constructor; cbn [waits]; [done|done|lia|done].
Qed.

Lemma walk_rule_ok rule s w s' :
  wf s → walk_rule env tm defaultDomainStrategy sch message allowFakeIP rule s = (w, s') → step_ok s w s'.
Proof.
  intros Hw. unfold walk_rule. intros E. apply (step_quiet _ _ _ _ (tick_quiet s)).
  apply (quiet_wf _ _ (tick_quiet s)) in Hw. set (s1 := tick s) in *.
  destruct (hasBindings rule); [|by eapply walk_match_ok].
  apply (step_quiet _ _ _ _ (settle_quiet s1)). apply (quiet_wf _ _ (settle_quiet s1)) in Hw.
  set (s2 := settleDNSFutures s1) in *. destruct (Race rule); [by eapply walk_race_ok|].
  destruct (bound_futures rule s2) as [|k l] eqn:Eb; [by eapply walk_match_ok|].
  injection E as <- <-. apply quiet_step; [done|apply quiet_refl|].
  apply (bound_futures_ok rule); [done|]. rewrite Eb. by left.
Qed.

(** The walk ends in one of its ends, and the work left to do does not grow. *)
Lemma walk_loop_ok rest s w s' :
  wf s → drop (ruleIndex s) rules = rest →
  walk_loop env tm defaultDomainStrategy sch message allowFakeIP rest s = (w, s') →
  wf s' ∧ w ≠ WalkNext ∧ sound_end w s' ∧ (waits w = true → (potential rules s' <= potential rules s)%nat).
Proof.
  revert s. induction rest as [|rule rest IH]; intros s Hw Hd; cbn.
  - intros [= <- <-]. split_and!; [done| |by apply unless_armed_end|done].
    unfold unless_armed. by destruct (has_items _).
  - destruct (walk_rule _ _ _ _ _ _ _ _) as [w1 s1] eqn:E1.
    apply walk_rule_ok in E1 as [Hw1 Hi1 Hk1 He1]; [|done].
    assert (Hdone : waits w1 = true → (potential rules s1 <= potential rules s)%nat).
    { intros Hwt. rewrite Hwt in Hk1. unfold potential. rewrite Hi1. lia. }
    destruct w1; [|intros [= <- <-]; split_and!; auto; done..].
    intros E. set (s2 := wset_ruleIndex _ _) in E.
    assert (Hd2 : drop (ruleIndex s2) rules = rest)
      by (cbn; rewrite Hi1, <- Nat.add_1_r, <- drop_drop, Hd; done).
    destruct (IH s2) as (Hw3 & Hn & He & Hp); [by destruct Hw1|done|done|]. split_and!; try done.
    intros Hwt. specialize (Hp Hwt). etrans; [exact Hp|]. unfold potential. rewrite Hd2, Hd. cbn in Hk1.
    change (work s2) with (work s1). cbn. lia.
Qed.

(** ** Suspension *)

Lemma select_ctx_Some now t k : select_ctx sch now (Some t) k = k t ∨ select_ctx sch now (Some t) k = ctx_ended sch.
Proof. unfold select_ctx. destruct (sch_ctxDone sch); [|by left]. destruct (_ || _); auto. Qed.

Lemma finish_ends s p :
  wf s → pending_ok p s →
  ∃ r, finishPendingExchange defaultDomainStrategy sch s p = Ended r.
Proof.
  intros Hw Hp. destruct p as [transport o|k]; cbn.
  - destruct (sch_ask _ _ _ _). by eexists.
  - destruct (lookup_lt_is_Some_2 _ _ Hp) as [f Ef]. rewrite Ef.
    pose proof (wf_dues s Hw) as Hd. unfold dues in Hd. rewrite Forall_map, Forall_lookup in Hd.
    destruct (Hd k f Ef) as [t Et]. cbn in Et. rewrite Et.
    destruct (select_ctx_Some (wk_now s) t
      (λ _, Ended (Ok (MkExchangeResult (fu_answer f) (Some (fu_transport f)) None (fu_err f))))) as [E|E];
      rewrite E; by eexists.
Qed.

Lemma min_after_spec w l :
  match min_after w l with Some t => (w < t)%nat ∧ t ∈ l | None => ∀ t, t ∈ l → (t <= w)%nat end.
Proof.
  induction l as [|t l IH]; cbn [min_after]; [intros t Ht; by apply elem_of_nil in Ht|].
  destruct (Nat.ltb_spec w t) as [Hlt|Hge].
  - destruct (min_after w l) as [u|]; [|split; [done|by left]].
    destruct (Nat.min_spec t u) as [[_ ->]|[_ ->]]; [split; [done|by left]|]. split; [apply IH|right; apply IH].
  - destruct (min_after w l) as [u|]; [split; [apply IH|right; apply IH]|].
    intros u. rewrite elem_of_cons. intros [->|Hu]; auto.
Qed.

Lemma elem_of_dues s t : t ∈ omap fu_done (futures s) ↔ Some t ∈ dues s.
Proof.
  unfold dues. rewrite list_elem_of_omap, list_elem_of_fmap. split; intros (f & ? & ?); by exists f.
Qed.

(** A future that has not ended will wake the walk. *)
Lemma next_wake_Some s k :
  wf s → resolved s k = false → (k < length (futures s))%nat →
  ∃ t, next_wake s = Some t ∧ (wk_woken s < t)%nat ∧ Some t ∈ dues s.
Proof.
  intros Hw Hr Hk. rewrite <- length_dues in Hk. destruct (lookup_lt_is_Some_2 _ _ Hk) as [d Ed].
  rewrite resolved_dues, Ed in Hr. pose proof (wf_dues s Hw) as Hd. rewrite Forall_lookup in Hd.
  destruct (Hd k d Ed) as [t ->]. cbn in Hr. apply Nat.leb_gt in Hr. apply list_elem_of_lookup_2, elem_of_dues in Ed.
  unfold next_wake. pose proof (min_after_spec (wk_woken s) (omap fu_done (futures s))) as Hm.
  destruct (min_after _ _) as [u|].
  - destruct Hm as [Hu Hin]. exists u. by rewrite elem_of_dues in Hin.
  - apply Hm in Ed. pose proof (wf_clock s Hw). lia.
Qed.

(** The bonus of a suspension whose future ended. *)
Definition bonus (s : dnsRuleWalkState) (suspension : dnsWalkSuspension) : nat :=
  match suspension with SuspendAwait k => if resolved s k then 1 else 0 | _ => 0 end.

Lemma potential_clock s now woken :
  potential rules (wset_clock now woken s) =
  (later woken (dues s) + later now (dues s) + length (armedRules s) +
   match terminalFuture s with None => 2 | Some _ => 0 end + 4 * length (drop (ruleIndex s) rules))%nat.
Proof. done. Qed.

Lemma woken_at_clock t s :
  (wk_woken s < t)%nat → (wk_woken s <= wk_now s)%nat →
  ∃ now woken, woken_at t s = wset_clock now woken s ∧ (t <= woken ∧ woken <= now ∧ wk_now s <= now)%nat.
Proof.
  intros Ht Hc. unfold woken_at, odd_from. destruct (Nat.leb_spec t (wk_now s)); eexists _, _; (split; [done|]); [lia|].
  destruct (Nat.odd t); lia.
Qed.

(** Waking up uses up one instant at which a future ended. *)
Lemma woken_at_ok t s suspension :
  wf s → (wk_woken s < t)%nat → Some t ∈ dues s → must_wait s suspension = true →
  wf (woken_at t s) ∧
  (potential rules (woken_at t s) + bonus (woken_at t s) suspension < potential rules s + bonus s suspension)%nat.
Proof.
  intros Hw Ht Hin Hm. destruct (woken_at_clock t s Ht (wf_clock s Hw)) as (now & woken & -> & H1 & H2 & H3).
  split; [destruct Hw; by constructor|].
  rewrite potential_clock. unfold potential, work.
  apply list_elem_of_lookup_1 in Hin as [i Hi].
  assert (Hw1 : (later woken (dues s) < later (wk_woken s) (dues s))%nat).
  { apply (later_drop _ _ _ i (Some t)); [lia|done|apply Nat.leb_gt; lia|apply Nat.leb_le; lia]. }
  assert (Hw2 : (later now (dues s) + bonus (wset_clock now woken s) suspension <=
                 later (wk_now s) (dues s) + bonus s suspension)%nat); [|lia].
  pose proof (later_mono _ _ (dues s) H3). unfold bonus. destruct suspension as [k| |]; [|lia..]. cbn in Hm.
  destruct (resolved s k) eqn:E1; [done|]. destruct (resolved (wset_clock _ _ _) k) eqn:E2; [|lia].
  rewrite resolved_dues in E1, E2. change (dues (wset_clock _ _ s)) with (dues s) in E2.
  destruct (dues s !! k) as [d|] eqn:Ed; [|done].
  pose proof (later_drop (wk_now s) now (dues s) k d H3 Ed E1 E2). lia.
Qed.

Lemma must_wait_future s suspension :
  wf s → must_wait s suspension = true →
  match suspension with SuspendAwait k => (k < length (futures s))%nat | _ => True end →
  Forall (λ a, forallb (resolved s) (ar_futures a) = false) (armedRules s) →
  ∃ k, resolved s k = false ∧ (k < length (futures s))%nat.
Proof.
  intros Hw Hm Hk Hf. destruct suspension as [k| |]; cbn in Hm; [|destruct (armedRules s) as [|a l] eqn:Ea|done]; [|done|].
  - exists k. by apply negb_true_iff in Hm.
  - apply Forall_cons in Hf as [Hf _]. apply not_true_iff_false in Hf.
    pose proof (wf_armed s Hw) as Ha. rewrite Ea in Ha. apply Forall_cons in Ha as [Ha _].
    destruct (decide (Forall (λ k, resolved s k = true) (ar_futures a))) as [Hall|Hn].
    { destruct Hf. apply forallb_forall. by rewrite <- List.Forall_forall. }
    apply not_Forall_Exists in Hn; [|intros k; apply _]. apply Exists_exists in Hn as (k & Hin & Hr).
    exists k. split; [by apply not_true_iff_false in Hr|]. by rewrite Forall_forall in Ha; apply Ha.
Qed.

(** The state in which a suspension may be resumed. *)
Definition resumable (s : dnsRuleWalkState) (suspension : dnsWalkSuspension) : Prop :=
  match suspension with
  | SuspendAwait k => (k < length (futures s))%nat
  | SuspendDrain => armedRules s ≠ []
  | SuspendPending p => armedRules s = [] ∧ pending_ok p s
  end.

(** Before a suspension goes on: it is over only when there is less to do. *)
Lemma resumed_less s s1 suspension :
  quiet s s1 → resumable s suspension → ∀ s2, quiet (wset_armedRules (armedRules s2) s1) s2 →
  wk_now s2 = wk_now s1 → armedRules s2 ⊆+ armedRules s1 →
  (potential rules s2 + bonus s2 suspension <= potential rules s + bonus s suspension)%nat ∧
  (must_wait s2 suspension = false → match suspension with SuspendPending _ => False | _ => True end →
   (potential rules s2 < potential rules s + bonus s suspension)%nat).
Proof.
  intros [Hd Hi _ _ Ha Ht Hwo Hno] Hr s2 [Ed Ei _ _ _ Et Ewo _] En Hsub.
  change (dues (wset_armedRules _ s1)) with (dues s1) in Ed. cbn in Ei, Et, Ewo.
  rewrite Hd in Ed. rewrite Hi in Ei. rewrite Ht in Et. rewrite Hwo in Ewo. rewrite Ha in Hsub.
  unfold potential, work. rewrite Ed, En, Ewo, Et, Ei.
  apply submseteq_length in Hsub. pose proof (later_mono _ _ (dues s) Hno) as Hl.
  destruct suspension as [k| |p]; cbn [bonus must_wait resumable] in *.
  - rewrite (resolved_dues s), (resolved_dues s2), Ed, En. destruct (dues s !! k) as [d|] eqn:Edk.
    2:{ rewrite <- length_dues in Hr. apply lookup_lt_is_Some_2 in Hr as [d Hr]. congruence. }
    destruct (ended_by (wk_now s) d) eqn:E1.
    + assert (E2 : ended_by (wk_now s1) d = true).
      { destruct d as [t|]; [|done]. apply Nat.leb_le in E1. apply Nat.leb_le. lia. }
      rewrite E2. split; [lia|]. intros _ _. lia.
    + destruct (ended_by (wk_now s1) d) eqn:E2; [|split; [lia|done]].
      pose proof (later_drop _ _ _ _ _ Hno Edk E1 E2). split; [lia|]. intros _ _. lia.
  - split; [lia|]. intros Hm _. destruct (armedRules s2); [|done]. destruct (armedRules s); [done|]. cbn. lia.
  - split; [lia|done].
Qed.

Abbreviation resume := (resumeExchangeWithRules env tm defaultDomainStrategy sch message allowFakeIP rules).

(** One round of [resumeExchangeWithRules]: it ends, waits or walks on. *)
Lemma resume_round fuel s suspension :
  wf s → resumable s suspension →
  (∃ r, resume (S fuel) s suspension = Ended r) ∨
  ∃ s2, wf s2 ∧ (match suspension with SuspendPending _ => False | _ => True end) ∧
    (must_wait s2 suspension = true → resumable s2 suspension) ∧
    (potential rules s2 + bonus s2 suspension <= potential rules s + bonus s suspension)%nat ∧
    (must_wait s2 suspension = false → (potential rules s2 < potential rules s + bonus s suspension)%nat) ∧
    Forall (λ a, forallb (resolved s2) (ar_futures a) = false) (armedRules s2) ∧
    resume (S fuel) s suspension =
      if must_wait s2 suspension
      then select_ctx sch (wk_now s2) (next_wake s2) (λ t, resume fuel (woken_at t s2) suspension)
      else match walkDNSRules env tm defaultDomainStrategy sch message allowFakeIP rules s2 with
           | (WalkReturn r, _) => Ended r
           | (WalkSuspend suspension, s) => resume fuel s suspension
           | (WalkNext, _) => Blocked
           end.
Proof.
  intros Hw Hr. cbn [resumeExchangeWithRules]. set (s1 := settleDNSFutures (tick s)).
  assert (Hq : quiet s s1) by (eapply quiet_trans; [apply tick_quiet|apply settle_quiet]).
  destruct (sweepArmedDNSRules _ _ _ _ s1) as [d s2] eqn:Es.
  apply sweep_ok in Es as (Hw2 & _ & Hq2 & Hn2 & Hsub & Hready & Hp); [|by eapply quiet_wf].
  destruct d as [[r|p]|]; [left; by eexists| |].
  { left. destruct (Hp p eq_refl) as (transport & o & ->). by apply finish_ends. }
  destruct (resumed_less s s1 suspension Hq Hr s2 Hq2 Hn2 Hsub) as [Hle Hlt].
  assert (El : length (futures s2) = length (futures s)).
  { rewrite (quiet_length _ _ Hq2). apply (quiet_length _ _ Hq). }
  destruct suspension as [k| |p].
  3:{ left. apply finish_ends; [done|]. destruct p as [|k]; [done|]. cbn in *. lia. }
  all: right; exists s2; (split_and!; [done|done| |done|by auto|by apply Hready|done]).
  - intros _. cbn in *. lia.
  - cbn [must_wait]. by destruct (armedRules s2) eqn:Ea; cbn; [|rewrite Ea].
Qed.

Lemma resume_ends fuel s suspension :
  wf s → resumable s suspension → (potential rules s + bonus s suspension < fuel)%nat →
  ∃ r, resume fuel s suspension = Ended r.
Proof.
  revert s suspension. induction fuel as [|fuel IH]; intros s suspension Hw Hr Hf; [lia|].
  destruct (resume_round fuel s suspension Hw Hr) as [Hend|(s2 & Hw2 & Hnp & Hr2 & Hle & Hlt & Ha & ->)]; [done|].
  destruct (must_wait s2 suspension) eqn:Em.
  - specialize (Hr2 eq_refl).
    destruct (must_wait_future s2 suspension Hw2 Em) as (k & Hk & Hlen); [by destruct suspension|done|].
    destruct (next_wake_Some s2 k Hw2 Hk Hlen) as (t & -> & Ht & Hin).
    destruct (select_ctx_Some (wk_now s2) t (λ t, resume fuel (woken_at t s2) suspension)) as [E|E]; rewrite E; [|by eexists].
    destruct (woken_at_ok t s2 suspension Hw2 Ht Hin Em) as [Hw3 Hp3].
    apply IH; [done| |lia]. unfold woken_at. by destruct suspension, (t <=? _)%nat.
  - specialize (Hlt eq_refl). destruct (walkDNSRules _ _ _ _ _ _ _ s2) as [w s3] eqn:Ew.
    apply walk_loop_ok in Ew as (Hw3 & Hnext & Hend & Hpot); [|done|done].
    destruct w as [|r|susp]; [done|by eexists|].
    assert (Hr3 : resumable s3 susp) by (destruct susp; [apply Hend|done|done]).
    destruct susp as [k| |p].
    + specialize (Hpot eq_refl). apply IH; [done|done|]. cbn. destruct Hend as [-> _]. lia.
    + specialize (Hpot eq_refl). apply IH; [done|done|]. cbn. lia.
    + destruct fuel as [|fuel]; [lia|].
      destruct (resume_round fuel s3 (SuspendPending p) Hw3 Hr3) as [?|(? & _ & [] & _)]. done.
Qed.

Lemma walk_start_wf md o : wf (walk_start md o).
Proof. by constructor; cbn; [constructor|lia| | |constructor|]. Qed.

(** The walk from the start. *)
Lemma first_walk_ok md o w s :
  walkDNSRules env tm defaultDomainStrategy sch message allowFakeIP rules (walk_start md o) = (w, s) →
  wf s ∧ w ≠ WalkNext ∧ sound_end w s ∧ (waits w = true → (potential rules s <= 4 * length rules + 2)%nat).
Proof.
  intros E. apply walk_loop_ok in E as (Hw & Hn & He & Hp); [|apply walk_start_wf|done]. split_and!; try done.
  intros Hwt. specialize (Hp Hwt). change (potential rules (walk_start md o)) with (2 + 4 * length rules)%nat in Hp. lia.
Qed.

Lemma resume_pending fuel s p :
  armedRules s = [] → resume (S fuel) s (SuspendPending p) = finishPendingExchange defaultDomainStrategy sch
    (wset_armedRules [] (settleDNSFutures (tick s))) p.
Proof.
  intros Ha. cbn [resumeExchangeWithRules]. unfold sweepArmedDNSRules.
  pose proof (quiet_trans _ _ _ (tick_quiet s) (settle_quiet (tick s))) as [_ _ _ _ E _ _ _]. rewrite E, Ha. done.
Qed.

Lemma finish_exchange_quiet s s' transport o :
  quiet s s' → finishPendingExchange defaultDomainStrategy sch s' (PendingExchange transport o) =
               finishPendingExchange defaultDomainStrategy sch s (PendingExchange transport o).
Proof. intros Hq. cbn. by rewrite (quiet_length _ _ Hq). Qed.

End steps.

Lemma exchange_ends `{Extern} env tm defaultDomainStrategy sch message allowFakeIP rules md options :
  (∀ k, is_Some (sch_due sch k)) →
  ∃ r, exchangeWithRules env tm defaultDomainStrategy sch message allowFakeIP rules (4 * length rules + 3) md options =
    Ended r.
Proof.
  intros Hall. unfold exchangeWithRules. destruct (walkDNSRules _ _ _ _ _ _ _ _) as [w s] eqn:E.
  apply first_walk_ok in E as (Hw & Hn & He & Hp); [|done]. destruct w as [|r|susp]; [done|by eexists|].
  destruct susp as [k| |p].
  - apply resume_ends; [done|done|apply He|]. specialize (Hp eq_refl). cbn [bonus]. destruct He as [-> _]. lia.
  - apply resume_ends; [done|done|done|]. specialize (Hp eq_refl). cbn [bonus]. lia.
  - replace (4 * length rules + 3)%nat with (S (4 * length rules + 2)) by lia. destruct He as [Ha Hpo].
    rewrite resume_pending by done.
    pose proof (quiet_trans _ _ _ (tick_quiet s) (settle_quiet (tick s))) as Hq.
    pose proof (quiet_wf _ _ Hq Hw) as Hw'. pose proof (quiet_length _ _ Hq) as El.
    apply finish_ends; [by destruct Hw'; constructor|]. destruct p; [done|]. cbn in *. lia.
Qed.

(** ** Theorems *)

(** C9 Every query is answered: if the exchanges end, each at some instant of its own,
    then whatever the rules are (with evaluated responses, racing rules, speculative
    exchanges), whatever the order in which the exchanges end and whether or not the
    context of the query ends, the walk gives a result; it is resumed at most four times
    per rule and three times more. *)
Theorem exchangeWithRules_ends `{Extern} env tm defaultDomainStrategy sch message allowFakeIP rules md options :
  (∀ k, is_Some (sch_due sch k)) →
  ∃ r, exchangeWithRules env tm defaultDomainStrategy sch message allowFakeIP rules (4 * length rules + 3) md options =
    Ended r.
Proof. apply exchange_ends. Qed.

(** The asynchronous form of a query, which asks the last server without a goroutine of its
    own, gives its callback the result that the synchronous form returns. *)
Lemma walk_async_same `{Extern} env tm defaultDomainStrategy sch message allowFakeIP rules fuel md options :
  (∀ k, is_Some (sch_due sch k)) →
  exchangeWithRulesAsync env tm defaultDomainStrategy sch message allowFakeIP rules (S fuel) md options =
  exchangeWithRules env tm defaultDomainStrategy sch message allowFakeIP rules (S fuel) md options.
Proof.
  intros Hall. unfold exchangeWithRulesAsync, exchangeWithRules.
  destruct (walkDNSRules _ _ _ _ _ _ _ _) as [w s] eqn:E.
  apply first_walk_ok in E as (Hw & Hn & He & Hp); [|done]. destruct w as [|r|[k| |[transport o|k]]]; try done.
  destruct He as [Ha _]. rewrite resume_pending by done.
  rewrite <- (finish_exchange_quiet _ _ s (settleDNSFutures (tick s))); [done|].
  eapply quiet_trans; [apply tick_quiet|apply settle_quiet].
Qed.

(** Two servers are evaluated, the answer of the second one comes first; a racing rule
    responds with the response named a, the rules behind it route. *)
Definition c_evaluate (server tag : string) : HeadlessRule :=
  c_every (RuleActionEvaluate server tag true (MkRuleActionDNSRouteOptions 0 0 false false None PrefixZero false)).
Definition c_bound (tag : string) (race : bool) (rcode : Z) (action : RuleAction) : HeadlessRule :=
  let item := DNSResponseRCodeItem rcode in
  DefaultDNSRule (MkDefault [item] [] [] [] [] [] [PlainItem item] None false (Some action)) true tag race.
Definition c_rules : list HeadlessRule :=
  [c_evaluate "x" "a"; c_evaluate "y" "b"; c_bound "a" true 3 RuleActionRespond; c_bound "b" false 0 RuleActionRespond].
Definition c_schedule : Schedule :=
  MkSchedule (λ k, Some (if (k =? 0)%nat then 40 else 20)%nat)
    (λ _ t _, (Some (c_response [if bool_decide (dt_Tag t = "x"%string) then 1 else 2]), None)) None (ENamed "ctx") (λ _, false).

Lemma exchangeWithRules_ends_witness :
  exchangeWithRules c_env c_tm 0 c_schedule c_query true c_rules 19 (c_request "example.org") c_options =
    Ended (Ok (MkExchangeResult (Some (c_response [2])) (Some (c_transport "y")) None None)) ∧
  ∃ r, exchangeWithRules c_env c_tm 0 c_schedule c_query true c_rules 19 (c_request "example.org") c_options = Ended r.
Proof.
  split; [vm_compute; reflexivity|].
  exact (exchangeWithRules_ends c_env c_tm 0 c_schedule c_query true c_rules (c_request "example.org") c_options
           (λ k, ex_intro _ _ eq_refl)).
Defined.
