(* ===== verification/DnsRefine.v ===== *)
(** * The DNS router: the concurrent walk refines the sequential one

    For rules that do not race, the walk with its futures answers what the walk of
    DnsSpec.v answers, in which every exchange ends at once: the order in which the
    exchanges end does not matter. The condition on the schedule is that no exchange
    ends between the two places where the code looks at it; the end of the file shows
    that without it a response is lost. *)
From stdpp Require Import base list gmap strings.
From S2P Require Import Prelude Netip Metadata RuleItems RuleAction RuleMatch RuleSpec RuleGroups RuleRefine Concrete RuleTheorems RuleBuild DnsRouter DnsLegacy DnsWalk DnsSpec DnsTerm.

(** ** Orderly rules *)

Section orderly.
Context `{Extern}.

(** A rule that does not race and reads only the responses it waits for; if it responds
    with the anonymous response and waits for some, it waits for this one. *)
Definition orderly (rule : HeadlessRule) : bool :=
  no_domain_only rule && negb (Race rule) &&
  reads (MatchResponseTags rule) (MatchResponseAnonymous rule) rule &&
  match DNSRule_Action rule with
  | Some RuleActionRespond =>
      nonempty (MatchResponseTag rule) || negb (hasBindings rule) || MatchResponseAnonymous rule
  | _ => true
  end.

(** The names of the responses the rules store. *)
Definition evaluate_tags (rules : list HeadlessRule) : list string :=
  omap (λ rule, match DNSRule_Action rule with
                | Some (RuleActionEvaluate _ tag _ _) => if nonempty tag then Some tag else None
                | _ => None
                end) rules.

(** Every exchange ends, at an even instant, and the query is not given up. *)
Definition prompt (sch : Schedule) : Prop :=
  (∀ k, ∃ t, sch_due sch k = Some t ∧ Nat.even t = true) ∧ sch_ctxDone sch = None.

(** ** Settling *)

Definition settled_future (now : nat) (f : dnsEvaluatedFuture) : dnsEvaluatedFuture :=
  MkFuture (fu_tag f) (fu_transport f) (fu_response f) (fu_err f) (fu_done f) (fu_settled f || fu_resolved now f).

Definition fresh (now : nat) (f : dnsEvaluatedFuture) : bool :=
  negb (fu_settled f) && fu_resolved now f && nonempty (fu_tag f).

Lemma settle_one_spec now f R T :
  settle_one now f R T =
  (settled_future now f,
   if fresh now f then partial_alter (λ _, fu_answer f) (fu_tag f) R else R,
   if fresh now f then <[fu_tag f := fu_transport f]> T else T).
Proof.
  unfold settle_one, settled_future, fresh, fu_view. destruct f as [tag t r e d st]; cbn.
  destruct st; cbn; [done|]. by destruct (fu_resolved _ _); cbn; [destruct (nonempty tag)|].
Qed.

(** A tag that no fresh future has keeps its response; the only one that has it gives
    its own. *)
Lemma settle_loop_spec now fs R T fs' R' T' :
  settle_loop now fs R T = (fs', R', T') →
  fs' = map (settled_future now) fs ∧
  (∀ tag, (∀ f, f ∈ fs → fresh now f = true → fu_tag f ≠ tag) → R' !! tag = R !! tag ∧ T' !! tag = T !! tag) ∧
  (∀ k f, fs !! k = Some f → fresh now f = true →
     (∀ k' f', fs !! k' = Some f' → nonempty (fu_tag f') = true → fu_tag f' = fu_tag f → k' = k) →
     R' !! fu_tag f = fu_answer f ∧ T' !! fu_tag f = Some (fu_transport f)).
Proof.
  revert R T fs' R' T'. induction fs as [|f0 fs IH]; intros R T fs' R' T'; cbn [settle_loop]; [by intros [= <- <- <-]|].
  rewrite settle_one_spec. set (R1 := if fresh now f0 then _ else R). set (T1 := if fresh now f0 then _ else T).
  destruct (settle_loop now fs R1 T1) as [[fs2 R2] T2] eqn:E. intros [= <- <- <-].
  destruct (IH _ _ _ _ _ E) as (-> & Hkeep & Hnew). split; [done|]. split.
  - intros tag Htag. destruct (Hkeep tag) as [-> ->]; [intros f Hf; apply Htag; by right|].
    unfold R1, T1. destruct (fresh now f0) eqn:Ef; [|done].
    assert (fu_tag f0 ≠ tag) by (apply Htag; [by left|done]).
    by rewrite lookup_partial_alter_ne, lookup_insert_ne.
  - intros [|k] f Hk Hf Huniq; cbn in Hk.
    + injection Hk as ->. destruct (Hkeep (fu_tag f)) as [-> ->].
      { intros f' Hf' Hfr Etag. apply list_elem_of_lookup_1 in Hf' as [k' Hk'].
        assert (Hne : nonempty (fu_tag f') = true) by (unfold fresh in Hfr; by apply andb_true_iff in Hfr as [_ ?]).
        by specialize (Huniq (S k') f' Hk' Hne Etag). }
      unfold R1, T1. rewrite Hf. by rewrite lookup_partial_alter_eq, lookup_insert_eq.
    + apply (Hnew k f Hk Hf). intros k' f' Hk' Hne Etag. by specialize (Huniq (S k') f' Hk' Hne Etag) as [= ->].
Qed.

Lemma odd_resolved now f t :
  Nat.odd now = true → fu_done f = Some t → Nat.even t = true →
  fu_resolved (Nat.pred now) f = fu_resolved now f.
Proof.
  intros Ho Ed He. unfold fu_resolved. rewrite Ed.
  destruct (Nat.leb_spec t (Nat.pred now)), (Nat.leb_spec t now); try done; [lia|].
  assert (t = now) as -> by lia. rewrite <- Nat.negb_odd, Ho in He. done.
Qed.
End orderly.

(** ** The simulation *)

Section simulation.
Context `{Extern} (env : Env) (tm : DNSTransportManager) (defaultDomainStrategy : Z) (sch : Schedule).
Context (message : Msg) (allowFakeIP : bool) (rules : list HeadlessRule) (md : InboundContext).
Hypothesis Hprompt : prompt sch.

Definition stored (f : dnsEvaluatedFuture) : evaluated := (fu_answer f, fu_transport f).

(** The state of the walk stands for what the [evaluate] rules stored; a named response
    is in the maps once its future is settled. *)
Record sim (s : dnsRuleWalkState) (o : DNSQueryOptions) (anonymous : option evaluated)
    (named : gmap string evaluated) : Prop := MkSim {
  sim_options : effectiveOptions s = o;
  sim_armed : armedRules s = [];
  sim_terminal : terminalFuture s = None;
  sim_odd : Nat.odd (wk_now s) = true;
  sim_even k f : futures s !! k = Some f → ∃ t, fu_done f = Some t ∧ Nat.even t = true;
  sim_anonymous : match anonymousFuture s with
                  | None => anonymous = None
                  | Some k => ∃ f, futures s !! k = Some f ∧ anonymous = Some (stored f)
                  end;
  sim_named tag : match namedFutures s !! tag with
                  | None => named !! tag = None ∧ namedResponses s !! tag = None ∧ namedTransports s !! tag = None
                  | Some k => ∃ f, futures s !! k = Some f ∧ fu_tag f = tag ∧ nonempty tag = true ∧
                      named !! tag = Some (stored f) ∧
                      namedResponses s !! tag = (if fu_settled f then fu_answer f else None) ∧
                      namedTransports s !! tag = if fu_settled f then Some (fu_transport f) else None
                  end;
  sim_tags k f : futures s !! k = Some f → nonempty (fu_tag f) = true → namedFutures s !! fu_tag f = Some k;
  sim_metadata : ∃ r n b c, wk_metadata s = set_cache (set_responses md r n b) c ∧
                  RuleSetDomainOnly c = false ∧ IgnoreDestinationIPCIDRMatch c = false;
}.

Lemma sim_tick s o anonymous named : sim s o anonymous named → sim (tick s) o anonymous named.
Proof. intros []. constructor; try done. Qed.

(** Two futures with the same tag are one. *)
Lemma sim_tags_inj s o anonymous named k f k' f' :
  sim s o anonymous named → futures s !! k = Some f → futures s !! k' = Some f' →
  nonempty (fu_tag f') = true → fu_tag f' = fu_tag f → k' = k.
Proof.
  intros Hs Hk Hk' Hne E. pose proof (sim_tags _ _ _ _ Hs _ _ Hk' Hne) as H1. rewrite E in H1, Hne.
  pose proof (sim_tags _ _ _ _ Hs _ _ Hk Hne) as H2. congruence.
Qed.

Lemma fresh_tagged now f : fresh now f = true → fu_resolved now f = true ∧ nonempty (fu_tag f) = true.
Proof. unfold fresh. intros Hf. apply andb_true_iff in Hf as [Hf ?]. by apply andb_true_iff in Hf as [_ ?]. Qed.

(** The named responses after settling. *)
Lemma settle_named s o anonymous named now fs R T tag :
  sim s o anonymous named →
  settle_loop now (futures s) (namedResponses s) (namedTransports s) = (fs, R, T) →
  match namedFutures s !! tag with
  | None => named !! tag = None ∧ R !! tag = None ∧ T !! tag = None
  | Some k => ∃ f, fs !! k = Some f ∧ fu_tag f = tag ∧ nonempty tag = true ∧ named !! tag = Some (stored f) ∧
      R !! tag = (if fu_settled f then fu_answer f else None) ∧
      T !! tag = if fu_settled f then Some (fu_transport f) else None
  end.
Proof.
  intros Hs E. apply settle_loop_spec in E as (-> & Hkeep & Hnew).
  pose proof (sim_named _ _ _ _ Hs tag) as Hn. destruct (namedFutures s !! tag) as [k|] eqn:Ek.
  - destruct Hn as (f & Ef & Et & Hne & Hnm & HR & HT). exists (settled_future now f).
    rewrite list_lookup_fmap, Ef. split; [done|]. split; [done|]. split; [done|]. split; [done|]. cbn.
    destruct (fresh now f) eqn:Hfr.
    + destruct (Hnew k f Ef Hfr) as [H1 H2]; [intros k' f' Hk' Hne' Et'; by eapply sim_tags_inj|].
      rewrite Et in H1, H2. rewrite H1, H2. apply fresh_tagged in Hfr as [-> _]. by rewrite orb_true_r.
    + destruct (Hkeep tag) as [-> ->].
      * intros f' Hf' Hfr' Et'. apply list_elem_of_lookup_1 in Hf' as [k' Hk']. pose proof (fresh_tagged _ _ Hfr') as [_ Hne'].
        assert (k' = k) as -> by (eapply (sim_tags_inj s _ _ _ k f k' f'); eauto; congruence). congruence.
      * rewrite HR, HT. unfold fresh in Hfr. rewrite Et, Hne, andb_true_r in Hfr.
        destruct (fu_settled f); [done|]. cbn in *. by rewrite Hfr.
  - destruct Hn as (Hnm & HR & HT). destruct (Hkeep tag) as [-> ->]; [|done].
    intros f' Hf' Hfr' Et'. apply list_elem_of_lookup_1 in Hf' as [k' Hk']. apply fresh_tagged in Hfr' as [_ Hne].
    pose proof (sim_tags _ _ _ _ Hs _ _ Hk' Hne). congruence.
Qed.

Lemma sim_settle s o anonymous named :
  sim s o anonymous named →
  sim (settleDNSFutures s) o anonymous named ∧
  (∀ k f, futures (settleDNSFutures s) !! k = Some f → fu_resolved (wk_now (settleDNSFutures s)) f = true → fu_settled f = true).
Proof.
  intros Hs. unfold settleDNSFutures.
  destruct (settle_loop _ _ _ _) as [[fs R] T] eqn:E. pose proof E as E'. apply settle_loop_spec in E' as (-> & _ & _).
  set (now := Nat.pred (wk_now s)) in *. split.
  2:{ cbn. intros k f'. rewrite list_lookup_fmap. destruct (futures s !! k) as [f|] eqn:Ek; [|done]. intros [= <-].
      change (fu_resolved (wk_now s) (settled_future now f)) with (fu_resolved (wk_now s) f). cbn. intros Hr.
      destruct (sim_even _ _ _ _ Hs _ _ Ek) as (t & Ed & He).
      unfold now. rewrite (odd_resolved _ _ t), Hr by (done || apply Hs). apply orb_true_r. }
  constructor; cbn; try apply Hs.
  - intros k f'. rewrite list_lookup_fmap. destruct (futures s !! k) as [f|] eqn:Ek; [|done]. intros [= <-].
    apply (sim_even _ _ _ _ Hs k f Ek).
  - pose proof (sim_anonymous _ _ _ _ Hs) as Ha. destruct (anonymousFuture s) as [k|]; [|done].
    destruct Ha as (f & Ef & ->). exists (settled_future now f). by rewrite list_lookup_fmap, Ef.
  - intros tag. by apply (settle_named s o anonymous named now).
  - intros k f'. rewrite list_lookup_fmap. destruct (futures s !! k) as [f|] eqn:Ek; [|done]. intros [= <-].
    apply (sim_tags _ _ _ _ Hs k f Ek).
Qed.
(** ** Matching *)

(** The responses a rule waits for are there. *)
Definition awaited (rule : HeadlessRule) (s : dnsRuleWalkState) (anonymous : option evaluated)
    (named : gmap string evaluated) : Prop :=
  (∀ tag, tag ∈ MatchResponseTags rule → namedResponses s !! tag = (named !! tag) ≫= fst ∧
     namedTransports s !! tag = snd <$> named !! tag) ∧
  (MatchResponseAnonymous rule = true → anonymousResponse s = anonymous ≫= fst).

Lemma sim_match rule s o anonymous named :
  sim s o anonymous named → awaited rule s anonymous named →
  no_domain_only rule = true → reads (MatchResponseTags rule) (MatchResponseAnonymous rule) rule = true →
  ∃ md', match_with env rule (anonymousResponse s) s =
           (holds env top_scope rule (seq_request md anonymous named), wset_metadata md' s) ∧
         sim (wset_metadata md' s) o anonymous named.
Proof.
  intros Hs [Hn Ha] Hfull Hreads. destruct (sim_metadata _ _ _ _ Hs) as (r & n & b & c & Emd & Hc1 & Hc2).
  unfold match_with, HeadlessRule_Match.
  set (req := set_responses (reset_cache (wk_metadata s)) (anonymousResponse s) (namedResponses s) false).
  assert (Ec : md_cache req = ResetRuleCache c) by (unfold req; by rewrite Emd).
  destruct (Match_exact env rule req (md_cache req) Hfull) as (E1 & E2 & _); [by rewrite Ec|].
  destruct (rule_Match env rule req (md_cache req)) as [m c'] eqn:Em. cbn [fst snd] in E1, E2.
  exists (set_cache req c'). split.
  - f_equal. rewrite E1, Ec. apply (holds_agree env _ _ _ top_scope _ _ Hreads).
    unfold req. rewrite Emd. split_and!; [done| |].
    + intros tag Htag. cbn. rewrite lookup_omap. by apply Hn.
    + cbn. destruct (MatchResponseAnonymous rule); [by apply Ha|done].
  - destruct Hs. constructor; try done. cbn. unfold req. rewrite Emd.
    eexists _, _, _, c'. split; [done|]. rewrite Ec in E2. by injection E2 as _ _ -> ->.
Qed.

(** Futures that have ended and are settled have their responses in place. *)
Lemma sim_awaited rule s o anonymous named :
  sim s o anonymous named →
  (∀ k f, futures s !! k = Some f → fu_resolved (wk_now s) f = true → fu_settled f = true) →
  bound_futures rule s = [] → awaited rule s anonymous named.
Proof.
  intros Hs Hset Hb.
  assert (Hres : ∀ k, k ∈ omap (λ tag, namedFutures s !! tag) (MatchResponseTags rule) ++
    (if MatchResponseAnonymous rule then option_list (anonymousFuture s) else []) → resolved s k = true).
  { intros k Hk. destruct (resolved s k) eqn:Er; [done|]. exfalso. apply (elem_of_nil k). rewrite <- Hb.
    by apply list_elem_of_filter. }
  split.
  - intros tag Htag. pose proof (sim_named _ _ _ _ Hs tag) as Hn.
    destruct (namedFutures s !! tag) as [k|] eqn:Ek; [|destruct Hn as (-> & -> & ->); done].
    destruct Hn as (f & Ef & _ & _ & -> & -> & ->).
    rewrite (Hset k f Ef); [done|]. specialize (Hres k). unfold resolved in Hres. rewrite Ef in Hres. apply Hres.
    apply elem_of_app. left. apply list_elem_of_omap. by exists tag.
  - intros Ha. rewrite Ha in Hres. pose proof (sim_anonymous _ _ _ _ Hs) as Hn. unfold anonymousResponse.
    destruct (anonymousFuture s) as [k|]; [|by rewrite Hn]. destruct Hn as (f & Ef & ->). cbn.
    specialize (Hres k). unfold resolved, view, fu_view in *. rewrite Ef in *. cbn. rewrite Hres; [done|].
    apply elem_of_app. right. by left.
Qed.

(** A rule that binds nothing waits for nothing. *)
Lemma unbound_awaited rule s anonymous named : hasBindings rule = false → awaited rule s anonymous named.
Proof.
  unfold hasBindings. intros [Ht Ha]%orb_false_iff. apply has_items_false in Ht. split; [|by rewrite Ha].
  rewrite Ht. intros tag Htag. by apply elem_of_nil in Htag.
Qed.

(** ** Evaluating *)

(** The part of [sim] on names, for other futures. *)
Definition names_ok (s : dnsRuleWalkState) (fs : list dnsEvaluatedFuture) (named : gmap string evaluated)
    (tag : string) (k : option nat) : Prop :=
  match k with
  | None => named !! tag = None ∧ namedResponses s !! tag = None ∧ namedTransports s !! tag = None
  | Some k => ∃ f, fs !! k = Some f ∧ fu_tag f = tag ∧ nonempty tag = true ∧
      named !! tag = Some (stored f) ∧
      namedResponses s !! tag = (if fu_settled f then fu_answer f else None) ∧
      namedTransports s !! tag = if fu_settled f then Some (fu_transport f) else None
  end.

Lemma names_ok_app s fs f named tag k : names_ok s fs named tag k → names_ok s (fs ++ [f]) named tag k.
Proof.
  destruct k as [k|]; [|done]. intros (g & Hg & Hr). exists g. split; [by apply lookup_app_l_Some|done].
Qed.

Lemma lookup_snoc_Some {A} (l : list A) x k y :
  (l ++ [x]) !! k = Some y → l !! k = Some y ∨ k = length l ∧ y = x.
Proof.
  rewrite lookup_app_Some, list_lookup_singleton_Some. intros [?|(? & ? & ->)]; [by left|right]. split; [lia|done].
Qed.

Lemma lookup_snoc {A} (l : list A) x : (l ++ [x]) !! length l = Some x.
Proof. by rewrite lookup_app_r, Nat.sub_diag. Qed.

(** A new future with its name, if it has one. *)
Lemma sim_new s o anonymous named f t :
  sim s o anonymous named → fu_done f = Some t → Nat.even t = true → fu_settled f = false →
  (nonempty (fu_tag f) = true → namedFutures s !! fu_tag f = None) →
  let s' := wset_futures (futures s ++ [f]) s in
  sim (if nonempty (fu_tag f) then wset_evaluated (anonymousFuture s') (<[fu_tag f := length (futures s)]> (namedFutures s')) s'
       else wset_evaluated (Some (length (futures s))) (namedFutures s') s')
    o (if nonempty (fu_tag f) then anonymous else Some (stored f))
    (if nonempty (fu_tag f) then <[fu_tag f := stored f]> named else named).
Proof.
  intros [Ho Har Hte Hodd Heven Hanon Hnamed Htags Hmd] Ed Het Hst Htag. cbn.
  assert (Heven' : ∀ k g, (futures s ++ [f]) !! k = Some g → ∃ t, fu_done g = Some t ∧ Nat.even t = true)
    by (intros k g [Hg|[-> ->]]%lookup_snoc_Some; eauto).
  destruct (nonempty (fu_tag f)) eqn:Et; constructor; cbn; try done.
  - destruct (anonymousFuture s) as [k|]; [|done]. destruct Hanon as (g & Hg & ->). exists g.
    split; [by apply lookup_app_l_Some|done].
  - intros tag. destruct (decide (fu_tag f = tag)) as [<-|Hne].
    + rewrite lookup_insert_eq. specialize (Hnamed (fu_tag f)). rewrite Htag in Hnamed by done.
      destruct Hnamed as (_ & HR & HT). exists f. rewrite lookup_snoc, lookup_insert_eq, Hst. done.
    + rewrite !lookup_insert_ne by done. apply (names_ok_app s (futures s) f named tag), Hnamed.
  - intros k g [Hg|[-> ->]]%lookup_snoc_Some Hne; [|by rewrite lookup_insert_eq].
    rewrite lookup_insert_ne; [by apply Htags|]. intros E. rewrite E in Htag.
    specialize (Htag eq_refl). rewrite Htags with (k := k) (f := g) in Htag; done.
  - exists f. by rewrite lookup_snoc.
  - intros tag. apply (names_ok_app s (futures s) f named tag (namedFutures s !! tag)), Hnamed.
  - intros k g [Hg|[-> ->]]%lookup_snoc_Some Hne; [by apply Htags|congruence].
Qed.

Lemma sim_launch s o anonymous named tag transport options k s' :
  sim s o anonymous named → (nonempty tag = true → namedFutures s !! tag = None) →
  launchDNSEvaluate defaultDomainStrategy sch tag transport options s = (k, s') →
  let e := seq_evaluate defaultDomainStrategy sch (length (futures s)) transport options in
  length (futures s') = S (length (futures s)) ∧ ruleIndex s' = ruleIndex s ∧ namedFutures s' = namedFutures s ∧
  sim (if nonempty tag then wset_evaluated (anonymousFuture s') (<[tag := k]> (namedFutures s')) s'
       else wset_evaluated (Some k) (namedFutures s') s')
    o (if nonempty tag then anonymous else Some e) (if nonempty tag then <[tag := e]> named else named).
Proof.
  intros Hs Htag. unfold launchDNSEvaluate, seq_evaluate, seq_ask.
  destruct (sch_ask _ _ _ _) as [response err]. destruct (proj1 Hprompt (length (futures s))) as (t & -> & Het). cbn.
  set (f := MkFuture _ _ _ _ _ _). intros [= <- <-]. cbn [futures wset_futures wset_settled].
  split_and!; [rewrite length_app; cbn; lia|done|done|].
  apply (sim_new s o anonymous named f (t `max` S (wk_now s))); try done.
  destruct (Nat.max_spec t (S (wk_now s))) as [[_ ->]|[_ ->]]; [rewrite Nat.even_succ; apply Hs|done].
Qed.

(** ** The walk *)

(** The rules that are left: orderly, with names of their own. *)
Definition still_ahead (rest : list HeadlessRule) (named : gmap string nat) : Prop :=
  Forall (λ rule, orderly rule = true) rest ∧ NoDup (evaluate_tags rest) ∧
  ∀ tag, tag ∈ evaluate_tags rest → named !! tag = None.

(** The walk is on its way to the result of the sequential one. *)
Definition tracks (target : result exchangeWithRulesResult) (rest : list HeadlessRule) (s : dnsRuleWalkState) : Prop :=
  ∃ o anonymous named, sim s o anonymous named ∧ still_ahead rest (namedFutures s) ∧
    seq_walk env tm defaultDomainStrategy sch message allowFakeIP md rest (length (futures s)) o anonymous named = target.

Definition leads (target : result exchangeWithRulesResult) (rule : HeadlessRule) (rest : list HeadlessRule)
    (w : walked) (s : dnsRuleWalkState) : Prop :=
  match w with
  | WalkNext => tracks target rest s
  | WalkReturn r => r = target
  | WalkSuspend (SuspendAwait _) => tracks target (rule :: rest) s
  | WalkSuspend SuspendDrain => False
  | WalkSuspend (SuspendPending p) =>
      armedRules s = [] ∧ ∃ transport o, p = PendingExchange transport o ∧
        finishPendingExchange defaultDomainStrategy sch s p = Ended target
  end.

Lemma ahead_cons rule rest named : still_ahead (rule :: rest) named → orderly rule = true ∧ still_ahead rest named.
Proof.
  intros (Hf & Hn & Ht). apply Forall_cons in Hf as [Ho Hf]. split; [done|]. unfold evaluate_tags in *. cbn in *.
  destruct (match DNSRule_Action rule with Some _ => _ | None => _ end); [|done].
  apply NoDup_cons in Hn as [_ Hn]. split_and!; [done|done|]. intros tag Htag. apply Ht. by right.
Qed.

Lemma ahead_evaluate rule rest named server tag speculative options k :
  DNSRule_Action rule = Some (RuleActionEvaluate server tag speculative options) → nonempty tag = true →
  still_ahead (rule :: rest) named → named !! tag = None ∧ still_ahead rest (<[tag := k]> named).
Proof.
  intros Ea Et Hah. pose proof (ahead_cons _ _ _ Hah) as (_ & Hf & Hnd & Ht').
  destruct Hah as (_ & Hn & Ht). unfold evaluate_tags in Hn, Ht. cbn in Hn, Ht. rewrite Ea, Et in Hn, Ht.
  apply NoDup_cons in Hn as [Hnot _]. split; [apply Ht; by left|]. split_and!; [done|done|].
  intros tag' Htag'. rewrite lookup_insert_ne; [by apply Ht'|]. intros <-. contradiction.
Qed.

Lemma finish_seq s transport o :
  finishPendingExchange defaultDomainStrategy sch s (PendingExchange transport o) =
  Ended (seq_finish defaultDomainStrategy sch (length (futures s)) transport o).
Proof. cbn. unfold seq_finish, seq_ask. by destruct (sch_ask _ _ _ _). Qed.

Section one_rule.
Variables (rule : HeadlessRule) (rest : list HeadlessRule).
Variables (s : dnsRuleWalkState) (o : DNSQueryOptions) (anonymous : option evaluated) (named : gmap string evaluated).
Hypothesis Hs : sim s o anonymous named.
Hypothesis Hahead : still_ahead (rule :: rest) (namedFutures s).

Abbreviation seq := (seq_walk env tm defaultDomainStrategy sch message allowFakeIP md).

Lemma next_leads : leads (seq rest (length (futures s)) o anonymous named) rule rest WalkNext s.
Proof. exists o, anonymous, named. split; [done|]. split; [by eapply ahead_cons|done]. Qed.

Lemma evaluate_leads server tag speculative options :
  DNSRule_Action rule = Some (RuleActionEvaluate server tag speculative options) →
  let '(w, s') := walk_evaluate tm defaultDomainStrategy sch server tag speculative options s in
  leads (match tm_Transport tm server with
         | None => seq rest (length (futures s)) o (if nonempty tag then anonymous else None) named
         | Some transport =>
             let e := seq_evaluate defaultDomainStrategy sch (length (futures s)) transport (applyDNSRouteOptions options o) in
             if nonempty tag then seq rest (S (length (futures s))) o anonymous (<[tag := e]> named)
             else seq rest (S (length (futures s))) o (Some e) named
         end) rule rest w s'.
Proof.
  intros Ea. unfold walk_evaluate. destruct (tm_Transport tm server) as [transport|].
  2:{ destruct (nonempty tag); [apply next_leads|]. eexists _, None, _. split; [|split; [by eapply ahead_cons|done]].
      destruct Hs. by constructor. }
  rewrite (sim_armed _ _ _ _ Hs), andb_false_r.
  destruct (launchDNSEvaluate _ _ _ _ _ _) as [k s'] eqn:El. rewrite (sim_options _ _ _ _ Hs) in El.
  apply (sim_launch _ _ _ _ _ _ _ _ _ Hs) in El as (Hl & _ & Hn & Hs').
  2:{ intros Hne. by eapply ahead_evaluate. }
  cbn zeta. destruct (nonempty tag) eqn:Et; eexists _, _, _; (split; [exact Hs'|]); cbn; rewrite ?Hl; (split; [|done]).
  - rewrite Hn. eapply ahead_evaluate; eauto.
  - rewrite Hn. by eapply ahead_cons.
Qed.

Lemma route_leads server speculative options :
  let '(w, s') := walk_route tm defaultDomainStrategy sch allowFakeIP server speculative options s in
  leads (match resolveDNSRoute tm allowFakeIP server options o with
         | dnsRouteStatusResolved transport o => seq_finish defaultDomainStrategy sch (length (futures s)) transport o
         | _ => seq rest (length (futures s)) o anonymous named
         end) rule rest w s'.
Proof.
  unfold walk_route. rewrite (sim_options _ _ _ _ Hs).
  destruct (resolveDNSRoute _ _ _ _ _) as [| |transport o']; [apply next_leads..|].
  rewrite (sim_armed _ _ _ _ Hs), (sim_terminal _ _ _ _ Hs). cbn [has_items]. split; [apply Hs|].
  eexists _, _. split; [done|]. apply finish_seq.
Qed.

(** A rule that responds: its response is there, or the walk waits for it. *)
Lemma respond_leads :
  DNSRule_Action rule = Some RuleActionRespond → awaited rule s anonymous named →
  (hasBindings rule = true → bound_futures rule s = []) →
  holds env top_scope rule (seq_request md anonymous named) = true →
  leads (seq (rule :: rest) (length (futures s)) o anonymous named) rule rest (walk_respond rule s) s.
Proof.
  intros Ea [Hnm Han] Hb Hh. pose proof (ahead_cons _ _ _ Hahead) as [Hord _].
  assert (Eseq : seq (rule :: rest) (length (futures s)) o anonymous named =
    seq_respond (if nonempty (MatchResponseTag rule) then named !! MatchResponseTag rule else anonymous))
    by (cbn; by rewrite Hh, Ea).
  unfold walk_respond, unless_armed. rewrite (sim_armed _ _ _ _ Hs). cbn [has_items].
  destruct (nonempty (MatchResponseTag rule)) eqn:Et.
  { cbn [leads]. rewrite Eseq. destruct (Hnm (MatchResponseTag rule)) as [-> ->]; [|done].
    destruct rule; cbn in *; try done. rewrite Et. by left. }
  pose proof (sim_anonymous _ _ _ _ Hs) as Ha. destruct (anonymousFuture s) as [k|] eqn:Ek.
  2:{ cbn [leads]. by rewrite Eseq, Ha. }
  destruct Ha as (f & Ef & Eanon).
  destruct (negb (hasBindings rule) && negb (resolved s k)) eqn:Ew; cbn [leads].
  { exists o, anonymous, named. auto. }
  assert (Hres : resolved s k = true).
  { destruct (hasBindings rule) eqn:Ebind; [|by apply negb_false_iff in Ew]. specialize (Hb eq_refl).
    unfold orderly in Hord. rewrite Ea, Et, Ebind in Hord. apply andb_true_iff in Hord as [_ Hma]. cbn in Hma.
    destruct (resolved s k) eqn:Er; [done|]. exfalso. apply (elem_of_nil k). rewrite <- Hb. unfold bound_futures.
    rewrite Hma, Ek. apply list_elem_of_filter. split; [done|]. apply elem_of_app. right. by left. }
  rewrite Eseq, Eanon. unfold seq_respond, view, fu_view, resolved in *. rewrite Ef in *. cbn. by rewrite Hres.
Qed.
End one_rule.

Lemma match_leads rule rest s o anonymous named w s' :
  sim s o anonymous named → still_ahead (rule :: rest) (namedFutures s) → awaited rule s anonymous named →
  (hasBindings rule = true → bound_futures rule s = []) →
  walk_match env tm defaultDomainStrategy sch message allowFakeIP rule s = (w, s') →
  leads (seq_walk env tm defaultDomainStrategy sch message allowFakeIP md (rule :: rest) (length (futures s)) o anonymous named)
    rule rest w s'.
Proof.
  intros Hs Hah Haw Hb. pose proof (ahead_cons _ _ _ Hah) as [Hord _]. unfold orderly in Hord.
  apply andb_true_iff in Hord as [Hord _]. apply andb_true_iff in Hord as [Hord Hreads].
  apply andb_true_iff in Hord as [Hfull _].
  destruct (sim_match rule s o anonymous named Hs Haw Hfull Hreads) as (md' & Em & Hs1).
  unfold walk_match. rewrite Em. set (s1 := wset_metadata md' s) in *.
  change (futures s) with (futures s1). change (namedFutures s) with (namedFutures s1) in Hah.
  change (bound_futures rule s) with (bound_futures rule s1) in Hb.
  change (awaited rule s anonymous named) with (awaited rule s1 anonymous named) in Haw.
  destruct (holds env top_scope rule (seq_request md anonymous named)) eqn:Hh; cbn [negb];
    [|intros [= <- <-]; cbn [seq_walk]; rewrite Hh; by apply next_leads].
  destruct (DNSRule_Action rule) as [a|] eqn:Ea.
  2:{ intros [= <- <-]. cbn [seq_walk]. rewrite Hh, Ea. by apply next_leads. }
  destruct a; try (intros [= <- <-]; cbn [seq_walk]; rewrite Hh, Ea; cbn [negb]; by apply next_leads).
  - cbn [seq_walk]. rewrite Hh, Ea. cbn [negb]. intros E.
    pose proof (route_leads rule rest s1 o anonymous named Hs1 Hah Server Speculative options) as Hr. by rewrite E in Hr.
  - cbn [seq_walk]. rewrite Hh, Ea. cbn [negb]. intros E.
    pose proof (evaluate_leads rule rest s1 o anonymous named Hs1 Hah _ _ _ _ Ea) as Hr. by rewrite E in Hr.
  - intros [= <- <-]. by apply respond_leads.
  - intros [= <- <-]. cbn [seq_walk]. rewrite Hh, Ea. cbn [negb].
    exists (applyDNSRouteOptions options o), anonymous, named. split; [|split; [by eapply ahead_cons|done]].
    destruct Hs1. constructor; try done. cbn. f_equal. apply Hs.
  - intros [= <- <-]. cbn [seq_walk]. rewrite Hh, Ea. cbn [negb]. unfold unless_armed. rewrite (sim_armed _ _ _ _ Hs1).
    unfold own_answer. destruct (bool_decide (Method = "default"%string)); [done|].
    destruct (bool_decide (Method = "drop"%string)); [done|by apply next_leads].
  - intros [= <- <-]. cbn [seq_walk]. rewrite Hh, Ea. cbn [negb]. unfold unless_armed. rewrite (sim_armed _ _ _ _ Hs1). done.
Qed.

Lemma rule_leads target rule rest s w s' :
  tracks target (rule :: rest) s →
  walk_rule env tm defaultDomainStrategy sch message allowFakeIP rule s = (w, s') → leads target rule rest w s'.
Proof.
  intros (o & anonymous & named & Hs & Hah & <-). unfold walk_rule.
  apply sim_tick in Hs. change (namedFutures s) with (namedFutures (tick s)) in Hah.
  change (futures s) with (futures (tick s)). set (s1 := tick s) in *.
  destruct (hasBindings rule) eqn:Ebind.
  2:{ apply match_leads; [done|done|by apply unbound_awaited|congruence]. }
  pose proof (ahead_cons _ _ _ Hah) as [Hord _]. unfold orderly in Hord.
  destruct (sim_settle s1 o anonymous named Hs) as [Hs2 Hset]. pose proof (settle_quiet s1) as Hq.
  rewrite <- (quiet_length _ _ Hq). rewrite <- (q_named _ _ Hq) in Hah. set (s2 := settleDNSFutures s1) in *.
  destruct (Race rule); [by rewrite andb_false_r in Hord|]. clear Hord.
  destruct (bound_futures rule s2) as [|k l] eqn:Eb.
  - apply match_leads; [done|done|by eapply sim_awaited|done].
  - intros [= <- <-]. exists o, anonymous, named. auto.
Qed.

(** Where a walk from [ruleIndex] ends. *)
Definition ends_well (target : result exchangeWithRulesResult) (w : walked) (s : dnsRuleWalkState) : Prop :=
  match w with
  | WalkNext => False
  | WalkReturn r => r = target
  | WalkSuspend (SuspendAwait _) => tracks target (drop (ruleIndex s) rules) s
  | WalkSuspend SuspendDrain => False
  | WalkSuspend (SuspendPending p) =>
      armedRules s = [] ∧ ∃ transport o, p = PendingExchange transport o ∧
        finishPendingExchange defaultDomainStrategy sch s p = Ended target
  end.

Lemma tracks_index target rest s i : tracks target rest s → tracks target rest (wset_ruleIndex i s).
Proof. intros (o & an & nm & [] & Hah & E). exists o, an, nm. split; [by constructor|done]. Qed.

Lemma prompt_all_end k : is_Some (sch_due sch k).
Proof. destruct (proj1 Hprompt k) as (t & -> & _). by eexists. Qed.

Lemma loop_ends rest s target w s' :
  wf s → drop (ruleIndex s) rules = rest → tracks target rest s →
  walk_loop env tm defaultDomainStrategy sch message allowFakeIP rest s = (w, s') → ends_well target w s'.
Proof.
  revert s. induction rest as [|rule rest IH]; intros s Hw Hd Ht; cbn [walk_loop].
  - destruct Ht as (o & an & nm & Hs & _ & <-). unfold unless_armed. rewrite (sim_armed _ _ _ _ Hs), (sim_options _ _ _ _ Hs).
    intros [= <- <-]. split; [apply Hs|]. eexists _, _. split; [done|]. apply finish_seq.
  - destruct (walk_rule _ _ _ _ _ _ _ _) as [w1 s1] eqn:E1. pose proof (rule_leads _ _ _ _ _ _ Ht E1) as Hl.
    apply walk_rule_ok in E1 as [Hw1 Hi1 _ _]; [|exact prompt_all_end|done].
    destruct w1 as [|r|[k| |p]]; cbn [leads] in Hl; try (by intros [= <- <-]).
    + apply IH; [by destruct Hw1| |by apply tracks_index].
      cbn. by rewrite Hi1, <- Nat.add_1_r, <- drop_drop, Hd.
    + intros [= <- <-]. cbn [ends_well]. by rewrite Hi1, Hd.
Qed.

Lemma tracks_settle target rest s : tracks target rest s → tracks target rest (settleDNSFutures (tick s)).
Proof.
  intros (o & an & nm & Hs & Hah & E). pose proof (settle_quiet (tick s)) as Hq. exists o, an, nm.
  split; [by apply sim_settle, sim_tick|]. rewrite (q_named _ _ Hq), (quiet_length _ _ Hq). done.
Qed.

Lemma sweep_none s : armedRules s = [] → sweepArmedDNSRules env tm message allowFakeIP s = (None, wset_armedRules [] s).
Proof. intros E. unfold sweepArmedDNSRules. by rewrite E. Qed.

Lemma tracks_armed target rest s : tracks target rest s → tracks target rest (wset_armedRules [] s).
Proof. intros (o & an & nm & [] & Hah & E). exists o, an, nm. split; [by constructor|done]. Qed.

Lemma tracks_woken target rest s t : tracks target rest s → tracks target rest (woken_at t s).
Proof.
  intros (o & an & nm & [] & Hah & E). unfold woken_at. destruct (t <=? wk_now s)%nat; exists o, an, nm;
    (split; [constructor; try done|done]).
  cbn. unfold odd_from. destruct (Nat.odd t) eqn:Eo; [done|]. by rewrite Nat.odd_succ, <- Nat.negb_odd, Eo.
Qed.

Lemma wf_woken s t : wf s → next_wake s = Some t → wf (woken_at t s).
Proof.
  intros Hw Ht. unfold next_wake in Ht. pose proof (min_after_spec (wk_woken s) (omap fu_done (futures s))) as Hm.
  rewrite Ht in Hm. destruct (woken_at_clock t s (proj1 Hm) (wf_clock s Hw)) as (now & woken & -> & ? & ? & ?).
  destruct Hw. by constructor.
Qed.

Lemma resume_target fuel s suspension target r :
  wf s → ends_well target (WalkSuspend suspension) s →
  resumeExchangeWithRules env tm defaultDomainStrategy sch message allowFakeIP rules fuel s suspension = Ended r → r = target.
Proof.
  revert s suspension. induction fuel as [|fuel IH]; intros s suspension Hw He; [done|].
  assert (Ha : armedRules s = []) by (destruct suspension as [k| |p]; [destruct He as (? & ? & ? & Hs & _); apply Hs|done|apply He]).
  destruct suspension as [k| |p]; [|done|].
  2:{ rewrite resume_pending by done. destruct He as (_ & transport & o & -> & E). intros Er.
      rewrite <- (finish_exchange_quiet _ _ s (settleDNSFutures (tick s))) in E
        by (eapply quiet_trans; [apply tick_quiet|apply settle_quiet]).
      cbn in Er, E. congruence. }
  cbn [resumeExchangeWithRules]. cbn [ends_well] in He. apply tracks_settle in He.
  pose proof (quiet_trans _ _ _ (tick_quiet s) (settle_quiet (tick s))) as Hq. set (s1 := settleDNSFutures (tick s)) in *.
  rewrite sweep_none by (by rewrite (q_armed _ _ Hq)). apply tracks_armed in He.
  assert (Hw2 : wf (wset_armedRules [] s1)) by (apply (quiet_wf _ _ Hq) in Hw; destruct Hw; by constructor).
  rewrite <- (q_index _ _ Hq) in He. set (s2 := wset_armedRules [] s1) in *.
  change (ruleIndex s1) with (ruleIndex s2) in He.
  destruct (must_wait s2 (SuspendAwait k)).
  - unfold select_ctx. rewrite (proj2 Hprompt). destruct (next_wake s2) as [t|] eqn:Et; [|done].
    apply IH; [by apply wf_woken|]. cbn [ends_well].
    replace (ruleIndex (woken_at t s2)) with (ruleIndex s2) by (unfold woken_at; by destruct (_ <=? _)%nat).
    by apply tracks_woken.
  - destruct (walkDNSRules _ _ _ _ _ _ _ s2) as [w s3] eqn:Ew.
    pose proof (loop_ends _ _ _ _ _ Hw2 eq_refl He Ew) as Hend.
    destruct (walk_loop_ok env tm defaultDomainStrategy sch message allowFakeIP rules prompt_all_end
                _ _ _ _ Hw2 eq_refl Ew) as (Hw3 & _).
    destruct w as [|r'|susp]; [done|congruence|]. by apply IH.
Qed.

Lemma start_tracks o :
  Forall (λ rule, orderly rule = true) rules → NoDup (evaluate_tags rules) →
  RuleSetDomainOnly (md_cache md) = false → IgnoreDestinationIPCIDRMatch (md_cache md) = false →
  tracks (seq_walk env tm defaultDomainStrategy sch message allowFakeIP md rules 0 o None ∅) rules (walk_start md o).
Proof.
  intros Hf Hn Hc1 Hc2. exists o, None, ∅. split; [|split; [by split_and!|done]].
  constructor; cbn; try done.
  exists (md_DNSResponse md), (md_NamedDNSResponses md), (md_DestinationAddressMatchFromResponse md), (md_cache md).
  by destruct md.
Qed.

Lemma exchange_target fuel o r :
  Forall (λ rule, orderly rule = true) rules → NoDup (evaluate_tags rules) →
  RuleSetDomainOnly (md_cache md) = false → IgnoreDestinationIPCIDRMatch (md_cache md) = false →
  exchangeWithRules env tm defaultDomainStrategy sch message allowFakeIP rules fuel md o = Ended r →
  r = seq_walk env tm defaultDomainStrategy sch message allowFakeIP md rules 0 o None ∅.
Proof.
  intros Hf Hn Hc1 Hc2. unfold exchangeWithRules. destruct (walkDNSRules _ _ _ _ _ _ _ _) as [w s] eqn:Ew.
  pose proof (loop_ends rules _ _ _ _ (walk_start_wf md o) eq_refl (start_tracks o Hf Hn Hc1 Hc2) Ew) as He.
  destruct (first_walk_ok env tm defaultDomainStrategy sch message allowFakeIP rules prompt_all_end _ _ _ _ Ew) as (Hw & _).
  destruct w as [|r'|susp]; [done|congruence|]. by apply resume_target.
Qed.
End simulation.

(** ** The theorem *)

(** C6 The order in which exchanges end does not matter: for rules that do not race, that
    read only the responses they bind and whose [evaluate] rules have names of their own,
    the concurrent walk, in whatever order its exchanges end on a prompt schedule, answers
    exactly what the sequential walk answers, in which every exchange ends before the
    next rule is looked at: the rules in their order with the declarative meaning of a
    match, the first final action decides, a response comes with the transport that gave
    it. On a prompt schedule every exchange ends, at an even instant: none ends between the
    settling of the futures and the look at them, where [response_lost] shows that a
    response is lost. *)
Theorem exchangeWithRules_sequential `{Extern} env tm defaultDomainStrategy sch message allowFakeIP rules md options :
  prompt sch → Forall (λ rule, orderly rule = true) rules → NoDup (evaluate_tags rules) →
  RuleSetDomainOnly (md_cache md) = false → IgnoreDestinationIPCIDRMatch (md_cache md) = false →
  exchangeWithRules env tm defaultDomainStrategy sch message allowFakeIP rules (4 * length rules + 3) md options =
  Ended (seq_walk env tm defaultDomainStrategy sch message allowFakeIP md rules 0 options None ∅).
Proof.
  intros Hp Hf Hn Hc1 Hc2.
  destruct (exchange_ends env tm defaultDomainStrategy sch message allowFakeIP rules md options) as [r E];
    [by intros k; eapply prompt_all_end|].
  rewrite E. f_equal. by eapply exchange_target.
Qed.

(** Two servers, the second ends first; the rules look at both responses. *)
Definition c_ordered : list HeadlessRule :=
  [c_evaluate "x" "a"; c_evaluate "y" "b"; c_bound "b" false 3 RuleActionRespond; c_bound "a" false 0 RuleActionRespond].

Lemma c_schedule_prompt : prompt c_schedule.
Proof. split; [|done]. intros k. exists (if (k =? 0)%nat then 40 else 20)%nat. split; [done|]. by destruct k. Qed.

Lemma exchangeWithRules_sequential_witness :
  exchangeWithRules c_env c_tm 0 c_schedule c_query true c_ordered 19 (c_request "example.org") c_options =
    Ended (Ok (MkExchangeResult (Some (c_response [1])) (Some (c_transport "x")) None None)) ∧
  exchangeWithRules c_env c_tm 0 c_schedule c_query true c_ordered 19 (c_request "example.org") c_options =
  Ended (seq_walk c_env c_tm 0 c_schedule c_query true (c_request "example.org") c_ordered 0 c_options None ∅).
Proof.
  split; [vm_compute; reflexivity|].
  refine (exchangeWithRules_sequential c_env c_tm 0 c_schedule c_query true c_ordered (c_request "example.org") c_options
            c_schedule_prompt _ _ eq_refl eq_refl).
  - repeat constructor.
  - by apply (bool_decide_unpack _); vm_compute.
Defined.

(** ** A response that is lost *)

(** The exchange of the first rule ends after the futures are settled and before the
    second rule looks at them: the rule finds the future resolved, does not wait, and
    matches without the response. The answer comes from the last server. *)
Example response_lost :
  let rules := [c_evaluate "x" "a"; c_bound "a" false 0 RuleActionRespond] in
  let schedule t := MkSchedule (λ _, Some t) (sch_ask c_schedule) None (ENamed "ctx") (λ _, false) in
  exchangeWithRules c_env c_tm 0 (schedule 4%nat) c_query true rules 11 (c_request "example.org") c_options =
    Ended (Ok (MkExchangeResult (Some (c_response [1])) (Some (c_transport "x")) None None)) ∧
  exchangeWithRules c_env c_tm 0 (schedule 5%nat) c_query true rules 11 (c_request "example.org") c_options =
    Ended (Ok (MkExchangeResult (Some (c_response [2])) (Some (c_transport "final")) None None)) ∧
  exchangeWithRules c_env c_tm 0 (schedule 6%nat) c_query true rules 11 (c_request "example.org") c_options =
    Ended (Ok (MkExchangeResult (Some (c_response [1])) (Some (c_transport "x")) None None)).
Proof. split_and!; vm_compute; reflexivity. Qed.
