(* ===== verification/DnsValidate.v ===== *)
(** * The DNS router: which rules it accepts, dns/router.go

    The mode of the router (legacy or not) follows from the options of its rules and the
    metadata of the rule-sets they use; out of legacy mode the rules are checked for the
    responses they refer to; then the rules are built and started. An update of a
    rule-set is checked against the mode the router runs in. *)
From stdpp Require Import base list gmap strings pretty.
From S2P Require Import Prelude Netip Metadata RuleItems RuleAction RuleMatch RuleOptions RuleBuild DnsRouter.

Definition index_string (i : nat) : string := pretty (Z.of_nat i).

(** ** The mode *)

Definition defaultRuleNeedsLegacyDNSModeFromAddressFilter (rule : RawDefaultDNSRuleOptions) : bool :=
  if n_RuleSetIPCIDRAcceptEmpty rule then true
  else negb (MatchResponse_IsEnabled (n_MatchResponse rule)) &&
       (n_IPAcceptAny rule || listed (n_IPCIDR rule) || n_IPIsPrivate rule).

Definition hasResponseMatchFields (rule : RawDefaultDNSRuleOptions) : bool :=
  bool_decide (n_ResponseRcode rule ≠ None) || listed (n_ResponseAnswer rule) ||
  listed (n_ResponseNs rule) || listed (n_ResponseExtra rule).

Definition defaultRuleDisablesLegacyDNSMode (rule : RawDefaultDNSRuleOptions) (action : DNSRuleActionOptions) : bool :=
  MatchResponse_IsEnabled (n_MatchResponse rule) || hasResponseMatchFields rule ||
  bool_decide (da_Action action = "evaluate"%string) || bool_decide (da_Action action = "respond"%string) ||
  (0 <? n_IPVersion rule) || listed (n_QueryType rule).

Record dnsRuleModeFlags : Type := MkModeFlags {
  mf_disabled : bool;
  mf_needed : bool;
  mf_neededFromStrategy : bool;
}.
Definition dnsRuleModeFlagsZero : dnsRuleModeFlags := MkModeFlags false false false.

(** [merge] *)
Definition modeFlags_merge (f other : dnsRuleModeFlags) : dnsRuleModeFlags :=
  MkModeFlags (mf_disabled f || mf_disabled other) (mf_needed f || mf_needed other)
    (mf_neededFromStrategy f || mf_neededFromStrategy other).

(** An action that is empty is [route]. *)
Definition is_route (a : string) : bool := negb (nonempty a) || bool_decide (a = "route"%string).

Definition dnsRuleActionDisablesLegacyDNSMode (action : DNSRuleActionOptions) : bool :=
  if da_Race action then true
  else if is_route (da_Action action) then
    d_DisableOptimisticCache (dr_Abstract (da_RouteOptions action)) || dr_Speculative (da_RouteOptions action)
  else if bool_decide (da_Action action = "evaluate"%string) then
    d_DisableOptimisticCache (de_Abstract (da_EvaluateOptions action)) || de_Speculative (da_EvaluateOptions action)
  else if bool_decide (da_Action action = "route-options"%string) then
    d_DisableOptimisticCache (da_RouteOptionsOptions action)
  else false.

Definition dnsRuleActionHasStrategy (action : DNSRuleActionOptions) : bool :=
  if is_route (da_Action action) then
    negb (d_Strategy (dr_Abstract (da_RouteOptions action)) =? DomainStrategyAsIS)
  else if bool_decide (da_Action action = "evaluate"%string) then
    negb (d_Strategy (de_Abstract (da_EvaluateOptions action)) =? DomainStrategyAsIS)
  else if bool_decide (da_Action action = "route-options"%string) then
    negb (d_Strategy (da_RouteOptionsOptions action) =? DomainStrategyAsIS)
  else false.

(** The action a rule has by its type: the one of its default or of its logical options. *)
Definition rule_action (rule : DNSRuleOptions) : option DNSRuleActionOptions :=
  match rule with
  | MkDNSRuleOptions ty _ defaultAction _ _ _ logicalAction =>
      if is_default_type ty then Some defaultAction
      else if is_logical_type ty then Some logicalAction
      else None
  end.

Definition dnsRuleActionType (rule : DNSRuleOptions) : string :=
  match rule_action rule with
  | Some action => if nonempty (da_Action action) then da_Action action else "route"
  | None => ""
  end.
Definition is_evaluate_rule (rule : DNSRuleOptions) : bool :=
  bool_decide (dnsRuleActionType rule = "evaluate"%string).

Definition dnsRuleActionServer (rule : DNSRuleOptions) : string :=
  match rule_action rule with
  | Some action =>
      if is_evaluate_rule rule then de_Server (da_EvaluateOptions action) else dr_Server (da_RouteOptions action)
  | None => ""
  end.
Definition dnsRuleActionEvaluateTag (rule : DNSRuleOptions) : string :=
  match rule_action rule with Some action => de_Tag (da_EvaluateOptions action) | None => "" end.
Definition dnsRuleActionSpeculative (rule : DNSRuleOptions) : bool :=
  match rule_action rule with
  | Some action =>
      if is_evaluate_rule rule then de_Speculative (da_EvaluateOptions action)
      else dr_Speculative (da_RouteOptions action)
  | None => false
  end.
Definition dnsRuleRace (rule : DNSRuleOptions) : bool :=
  match rule_action rule with Some action => da_Race action | None => false end.

(** ** The metadata of the rule-sets *)

Section validate.
(** The rule-sets of the router, when there is one, and those that replace them. *)
Context (router : option (string → option RuleSetMetadata)) (overrides : gmap string RuleSetMetadata).

Definition lookupDNSRuleSetMetadata (tag : string) : result RuleSetMetadata :=
  match overrides !! tag with
  | Some metadata => Ok metadata
  | None =>
      match router with
      | None => Panic "invalid memory address or nil pointer dereference"
      | Some sets => match sets tag with
                     | Some metadata => Ok metadata
                     | None => Err (ENew ("rule-set not found: " +:+ tag)%string)
                     end
      end
  end.

(** The loop over the rule-sets of a rule. *)
Fixpoint ruleSet_flags (rule : RawDefaultDNSRuleOptions) (tags : list string) (flags : dnsRuleModeFlags)
    : result dnsRuleModeFlags :=
  match tags with
  | [] => Ok flags
  | tag :: tags =>
      metadata ← lookupDNSRuleSetMetadata tag;
      ruleSet_flags rule tags
        (MkModeFlags (mf_disabled flags || ContainsDNSQueryTypeRule metadata)
           (mf_needed flags || negb (n_RuleSetIPCIDRMatchSource rule) && negb (n_RuleSetDomainOnly rule) &&
                               ContainsIPCIDRRule metadata)
           (mf_neededFromStrategy flags))
  end.

Definition dnsRuleModeRequirementsInDefaultRule (rule : RawDefaultDNSRuleOptions) (action : DNSRuleActionOptions)
    : result dnsRuleModeFlags :=
  let strategy := dnsRuleActionHasStrategy action in
  let flags := MkModeFlags
    (defaultRuleDisablesLegacyDNSMode rule action || dnsRuleActionDisablesLegacyDNSMode action)
    (defaultRuleNeedsLegacyDNSModeFromAddressFilter rule || strategy) strategy in
  if negb (listed (n_RuleSet rule)) then Ok flags
  else match router with
       | None => Err (ENew "router service not found")
       | Some _ => ruleSet_flags rule (elems (n_RuleSet rule)) flags
       end.

(** The flags of sub-rules, merged into those of the rule around them. *)
Fixpoint merge_flags {A} (f : A → result dnsRuleModeFlags) (wrap : nat → result dnsRuleModeFlags → result dnsRuleModeFlags)
    (i : nat) (l : list A) (flags : dnsRuleModeFlags) : result dnsRuleModeFlags :=
  match l with
  | [] => Ok flags
  | x :: l => sub ← wrap i (f x); merge_flags f wrap (S i) l (modeFlags_merge flags sub)
  end.

Fixpoint dnsRuleModeRequirementsInRule (rule : DNSRuleOptions) : result dnsRuleModeFlags :=
  match rule with
  | MkDNSRuleOptions ty raw defaultAction _ rules _ logicalAction =>
      if is_default_type ty then dnsRuleModeRequirementsInDefaultRule raw defaultAction
      else if is_logical_type ty then
        let a := if nonempty (da_Action logicalAction) then da_Action logicalAction else "route"%string in
        let strategy := dnsRuleActionHasStrategy logicalAction in
        merge_flags dnsRuleModeRequirementsInRule sub_rule 0 rules
          (MkModeFlags (bool_decide (a = "evaluate"%string) || bool_decide (a = "respond"%string) ||
                        dnsRuleActionDisablesLegacyDNSMode logicalAction) strategy strategy)
      else Ok dnsRuleModeFlagsZero
  end.

Definition dns_rule {A} (prefix : string) (i : nat) (m : result A) : result A :=
  map_err (λ e, ECause e (prefix +:+ "dns rule[" +:+ index_string i +:+ "]")%string) m.

Definition dnsRuleModeRequirements (rules : list DNSRuleOptions) : result dnsRuleModeFlags :=
  merge_flags dnsRuleModeRequirementsInRule (dns_rule "") 0 rules dnsRuleModeFlagsZero.

Definition migration_link : string := ", checkout documentation for migration: https://sing-box.sagernet.org/migration/".
Definition OptionLegacyDNSRuleStrategy : error :=
  ENew ("Legacy `strategy` DNS rule action option is deprecated in sing-box 1.14.0 and will be removed in sing-box 1.16.0" +:+
        migration_link +:+ "#migrate-dns-rule-action-strategy-to-rule-items")%string.
Definition OptionLegacyDNSAddressFilter : error :=
  ENew ("Legacy Address Filter Fields in DNS rules is deprecated in sing-box 1.14.0 and will be removed in sing-box 1.16.0" +:+
        migration_link +:+ "#migrate-address-filter-fields-to-response-matching")%string.

Definition resolveLegacyDNSMode (rules : list DNSRuleOptions) : result (bool * dnsRuleModeFlags) :=
  flags ← dnsRuleModeRequirements rules;
  if mf_disabled flags && mf_neededFromStrategy flags then Err OptionLegacyDNSRuleStrategy
  else if mf_disabled flags then Ok (false, flags)
  else Ok (mf_needed flags, flags).

(** ** Responses: [validateLegacyDNSModeDisabledRules] *)

Record dnsRuleResponseUse : Type := MkResponseUse {
  ru_needsAnonymous : bool;
  ru_referencedTags : list string;
}.

(** The loop over the rule-sets of a rule without [match_response]. *)
Definition check_pure_ip (tags : list string) : result unit :=
  iter_idx (λ _ tag,
    metadata ← lookupDNSRuleSetMetadata tag;
    guard_err (ContainsIPCIDRRule metadata && negb (ContainsNonIPCIDRRule metadata)) OptionLegacyDNSAddressFilter) 0 tags.

Definition response_fields_error : error :=
  ENew "Response Match Fields (ip_cidr, ip_is_private, ip_accept_any, response_rcode, response_answer, response_ns, response_extra) require match_response to be enabled".

Definition validateLegacyDNSModeDisabledDefaultRule (rule : RawDefaultDNSRuleOptions) (action : DNSRuleActionOptions)
    : result dnsRuleResponseUse :=
  let enabled := MatchResponse_IsEnabled (n_MatchResponse rule) in
  let tag := MatchResponse_ResponseTag (n_MatchResponse rule) in
  if (hasResponseMatchFields rule || listed (n_IPCIDR rule) || n_IPIsPrivate rule || n_IPAcceptAny rule) && negb enabled
  then Err response_fields_error else
  _ ← (if negb enabled && negb (n_RuleSetDomainOnly rule) && listed (n_RuleSet rule)
       then check_pure_ip (elems (n_RuleSet rule)) else Ok tt);
  if n_RuleSetIPCIDRAcceptEmpty rule then Err accept_empty_removed else
  Ok (MkResponseUse
        (enabled && negb (nonempty tag) || bool_decide (da_Action action = "respond"%string) && negb (nonempty tag))
        (if enabled && nonempty tag then [tag] else [])).

Fixpoint merge_uses {A} (f : A → result dnsRuleResponseUse) (i : nat) (l : list A) (use : dnsRuleResponseUse)
    : result dnsRuleResponseUse :=
  match l with
  | [] => Ok use
  | x :: l =>
      sub ← sub_rule i (f x);
      merge_uses f (S i) l (MkResponseUse (ru_needsAnonymous use || ru_needsAnonymous sub)
                              (ru_referencedTags use ++ ru_referencedTags sub))
  end.

Definition logical_respond_error : error :=
  ENew "respond on a logical rule cannot bind a `match_response` tag from its sub rules; use a non-logical rule".

Fixpoint validateLegacyDNSModeDisabledRuleTree (rule : DNSRuleOptions) : result dnsRuleResponseUse :=
  match rule with
  | MkDNSRuleOptions ty raw defaultAction _ rules _ logicalAction =>
      if is_default_type ty then validateLegacyDNSModeDisabledDefaultRule raw defaultAction
      else if is_logical_type ty then
        use ← merge_uses validateLegacyDNSModeDisabledRuleTree 0 rules (MkResponseUse false []);
        if bool_decide (da_Action logicalAction = "respond"%string) then
          if has_items (ru_referencedTags use) then Err logical_respond_error
          else Ok (MkResponseUse true (ru_referencedTags use))
        else Ok use
      else Ok (MkResponseUse false [])
  end.

(** What [validateLegacyDNSModeDisabledRules] knows of the rules before the next one. *)
Record validation : Type := MkValidation {
  va_warnings : list string;
  va_seenAnonymousEvaluate : bool;
  va_seenRace : bool;
  va_definedTagOrder : list string;
  va_referencedTags : list string;
  va_lastAnonymousEvaluate : option nat;
  va_anonymousReadSinceLast : bool;
}.

Definition at_rule (i : nat) (message : string) : string := ("dns rule[" +:+ index_string i +:+ "]: " +:+ message)%string.

Definition anonymous_required (v : validation) (i : nat) : error :=
  ENew (at_rule i
    (if has_items (va_definedTagOrder v)
     then "response-based matching requires a preceding evaluate action without `tag`; use `match_response` with an evaluate tag to reference a tagged result"
     else "response-based matching requires a preceding evaluate action")).

(** One round of the loop. *)
Definition validate_rule (i : nat) (rule : DNSRuleOptions) (v : validation) : result validation :=
  use ← dns_rule "validate " i (validateLegacyDNSModeDisabledRuleTree rule);
  let warnings := va_warnings v ++
    (if dnsRuleActionSpeculative rule && negb (va_seenRace v)
     then [at_rule i "`speculative` has no effect without a preceding `race` rule"] else []) in
  let seenRace := va_seenRace v || dnsRuleRace rule in
  _ ← guard_err (ru_needsAnonymous use && negb (va_seenAnonymousEvaluate v)) (anonymous_required v i);
  let anonymousRead := va_anonymousReadSinceLast v || ru_needsAnonymous use in
  _ ← iter_idx (λ _ tag, guard_err (negb (mem tag (va_definedTagOrder v)))
                           (ENew (at_rule i ("undefined evaluate tag: " +:+ tag)%string))) 0 (ru_referencedTags use);
  let referenced := va_referencedTags v ++ ru_referencedTags use in
  if negb (is_evaluate_rule rule) then
    Ok (MkValidation warnings (va_seenAnonymousEvaluate v) seenRace (va_definedTagOrder v) referenced
          (va_lastAnonymousEvaluate v) anonymousRead)
  else
    let tag := dnsRuleActionEvaluateTag rule in
    if negb (nonempty tag) then
      let warnings := warnings ++
        match va_lastAnonymousEvaluate v with
        | Some last =>
            if anonymousRead then []
            else [at_rule last ("evaluated response is overwritten by dns rule[" +:+ index_string i +:+ "] before any use")%string]
        | None => []
        end in
      Ok (MkValidation warnings true seenRace (va_definedTagOrder v) referenced (Some i) false)
    else if mem tag (va_definedTagOrder v) then Err (ENew (at_rule i ("duplicate evaluate tag: " +:+ tag)%string))
    else
      Ok (MkValidation warnings (va_seenAnonymousEvaluate v) seenRace (va_definedTagOrder v ++ [tag]) referenced
            (va_lastAnonymousEvaluate v) anonymousRead).

Fixpoint validate_loop (i : nat) (rules : list DNSRuleOptions) (v : validation) : result validation :=
  match rules with
  | [] => Ok v
  | rule :: rules => v ← validate_rule i rule v; validate_loop (S i) rules v
  end.

Definition validationZero : validation := MkValidation [] false false [] [] None false.

Definition validateLegacyDNSModeDisabledRules (rules : list DNSRuleOptions) : result (list string) :=
  v ← validate_loop 0 rules validationZero;
  Ok (va_warnings v ++
      concat (map (λ tag, if mem tag (va_referencedTags v) then []
                          else [("evaluate tag is never referenced: " +:+ tag)%string]) (va_definedTagOrder v))).

End validate.

(** [validateEvaluateFakeIPRules] *)
Definition validateEvaluateFakeIPRules (rules : list DNSRuleOptions) (tm : option DNSTransportManager) : result unit :=
  match tm with
  | None => Ok tt
  | Some tm =>
      iter_idx (λ i rule,
        if negb (is_evaluate_rule rule) then Ok tt
        else
          let server := dnsRuleActionServer rule in
          if negb (nonempty server) then Ok tt
          else match tm_Transport tm server with
               | Some transport =>
                   guard_err (is_fakeip transport)
                     (ENew (at_rule i ("evaluate action cannot use fakeip server: " +:+ server)%string))
               | None => Ok tt
               end) 0 rules
  end.

(** ** Building: [Router.buildRules] *)

Section build.
Context `{Extern}.
Variable newMatcher : list string → list string → result Matcher.
(** The router with its rule-sets, and the manager of transports. *)
Context (sets : option (string → option RuleSet)) (tm : option DNSTransportManager).

Definition sets_metadata : option (string → option RuleSetMetadata) :=
  match sets with
  | Some lookup => Some (λ tag, match lookup tag with Some s => Some (rs_metadata s) | None => None end)
  | None => None
  end.

(** [abstractDefaultRule.Start]: the rule-set item takes the sets of its tags. What the
    [preferred_by] item does is not here. *)
Definition item_Start (item : RuleSetItem) : result RuleSetItem :=
  l ← mapM_idx (λ _ tag,
        match sets with
        | None => Panic "invalid memory address or nil pointer dereference"
        | Some lookup => match lookup tag with
                         | Some s => Ok s
                         | None => Err (ENew ("rule-set not found: " +:+ tag)%string)
                         end
        end) 0 (tagList item);
  Ok (MkRuleSetItem (tagList item) l (ipCidrMatchSource item) (ipCidrAcceptEmpty item) (domainOnly item)).

Definition default_Start (r : abstractDefaultRule HeadlessRule) : result (abstractDefaultRule HeadlessRule) :=
  match ruleSetItem r with
  | None => Ok r
  | Some item =>
      item ← item_Start item;
      Ok (MkDefault (items r) (sourceAddressItems r) (sourcePortItems r) (destinationAddressItems r)
            (destinationIPCIDRItems r) (destinationPortItems r) (allItems r) (Some item) (invert r) (action r))
  end.

(** [Start] of DNS rules, and of the rules below a logical one. *)
Fixpoint rule_Start (rule : HeadlessRule) : result HeadlessRule :=
  match rule with
  | DefaultRule r => r ← default_Start r; Ok (DefaultRule r)
  | DefaultHeadlessRule r => r ← default_Start r; Ok (DefaultHeadlessRule r)
  | DefaultDNSRule r enabled tag race => r ← default_Start r; Ok (DefaultDNSRule r enabled tag race)
  | LogicalRule r =>
      l ← mapM_idx (λ _ sub, rule_Start sub) 0 (l_rules r);
      Ok (LogicalRule (MkLogical l (l_mode r) (l_invert r) (l_action r)))
  | LogicalHeadlessRule r =>
      l ← mapM_idx (λ _ sub, rule_Start sub) 0 (l_rules r);
      Ok (LogicalHeadlessRule (MkLogical l (l_mode r) (l_invert r) (l_action r)))
  | LogicalDNSRule r tags anonymous race =>
      l ← mapM_idx (λ _ sub, rule_Start sub) 0 (l_rules r);
      Ok (LogicalDNSRule (MkLogical l (l_mode r) (l_invert r) (l_action r)) tags anonymous race)
  end.

(** [buildRules]: the rules, the mode, its flags and the warnings it logs. *)
Definition Router_buildRules (rawRules : list DNSRuleOptions) (startRules : bool)
    : result (list HeadlessRule * bool * dnsRuleModeFlags * list string) :=
  _ ← iter_idx (λ i rule, dns_rule "parse " i (validateNoNestedDNSRuleActions rule false)) 0 rawRules;
  '(legacyDNSMode, modeFlags) ← resolveLegacyDNSMode sets_metadata ∅ rawRules;
  warnings ← (if legacyDNSMode : bool then Ok [] else validateLegacyDNSModeDisabledRules sets_metadata ∅ rawRules);
  _ ← validateEvaluateFakeIPRules rawRules tm;
  newRules ← mapM_idx (λ i rule, dns_rule "parse " i (NewDNSRule newMatcher rule true legacyDNSMode)) 0 rawRules;
  newRules ← (if startRules
              then mapM_idx (λ i rule,
                     map_err (λ e, ECause e ("initialize DNS rule[" +:+ index_string i +:+ "]")%string)
                       (rule_Start rule)) 0 newRules
              else Ok newRules);
  Ok (newRules, legacyDNSMode, modeFlags, warnings).

(** ** The router: rules that run, and updates of rule-sets *)

Record Router : Type := MkRouter {
  rt_rawRules : list DNSRuleOptions;
  rt_rules : list HeadlessRule;
  rt_legacyDNSMode : bool;
  rt_started : bool;
  rt_closing : bool;
}.

(** [Initialize]: the rules are built once to check them. *)
Definition Router_Initialize (r : Router) (rules : list DNSRuleOptions) : result unit * Router :=
  let r' := MkRouter rules (rt_rules r) (rt_legacyDNSMode r) (rt_started r) (rt_closing r) in
  (_ ← Router_buildRules rules false; Ok tt, r').

(** [Start]; the deprecated features it reports are left out. *)
Definition Router_Start (r : Router) : result unit * Router :=
  match Router_buildRules (rt_rawRules r) true with
  | Ok (newRules, legacyDNSMode, _, _) =>
      if rt_closing r then (Ok tt, r)
      else (Ok tt, MkRouter (rt_rawRules r) newRules legacyDNSMode true false)
  | Err e => (Err e, r)
  | Panic m => (Panic m, r)
  end.

(** The function that [Start] adds to its scope. *)
Definition Router_Close (r : Router) : Router :=
  MkRouter (rt_rawRules r) [] (rt_legacyDNSMode r) (rt_started r) true.

(** [ValidateRuleSetMetadataUpdate] *)
Definition ValidateRuleSetMetadataUpdate (r : Router) (tag : string) (metadata : RuleSetMetadata) : result unit :=
  if negb (has_items (rt_rawRules r)) then Ok tt
  else match sets with
  | None => Err (ENew "router service not found")
  | Some _ =>
      let overrides := {[tag := metadata]} in
      let validate := _ ← validateLegacyDNSModeDisabledRules sets_metadata overrides (rt_rawRules r); Ok tt in
      if rt_closing r then Ok tt
      else
        '(candidate, flags) ← resolveLegacyDNSMode sets_metadata overrides (rt_rawRules r);
        if negb (rt_started r) then if negb candidate then validate else Ok tt
        else if rt_legacyDNSMode r then
          if negb candidate && mf_disabled flags then _ ← validate; Err OptionLegacyDNSAddressFilter
          else Ok tt
        else if candidate : bool then Err OptionLegacyDNSAddressFilter
        else validate
  end.
End build.
