(* ===== verification/DnsValidateFacts.v ===== *)
(** * The DNS router: what accepted rules are like

    Rules that [buildRules] accepts out of legacy mode bind only responses that rules
    before them store, store each name once, and read no response they do not wait for:
    they are orderly, as the theorem on the walk asks. *)
From stdpp Require Import base list gmap strings.
From S2P Require Import Prelude Netip Metadata RuleItems RuleAction RuleMatch RuleSpec RuleGroups RuleRefine Concrete RuleTheorems RuleOptions RuleBuild RuleBuildFacts DnsRouter DnsLegacy DnsWalk DnsSpec DnsTerm DnsRefine DnsValidate.

Section facts.
Context `{Extern}.
Variable newMatcher : list string → list string → result Matcher.
Variable networkManager : bool.

(** ** Reading fewer responses *)

Lemma default_reads_mono tags tags' (anonymous anonymous' : bool) (r : abstractDefaultRule HeadlessRule) :
  (anonymous = true → anonymous' = true) →
  (∀ rule, rule ∈ ruleSet_rules r → reads tags anonymous rule = true → reads tags' anonymous' rule = true) →
  default_reads (reads tags) anonymous r = true → default_reads (reads tags') anonymous' r = true.
Proof.
  intros Ha Hsub. unfold default_reads, ruleSet_rules in *. rewrite !andb_true_iff. intros [Hi Hr]. split.
  - apply orb_true_iff in Hi as [->|Hi]; [by rewrite Ha|]. rewrite Hi. apply orb_true_r.
  - destruct (ruleSetItem r) as [item|]; [|done]. rewrite forallb_forall in *. intros s Hs. specialize (Hr s Hs).
    rewrite forallb_forall in *. intros rule Hrule. apply Hsub; [|by apply Hr].
    apply list_elem_of_In, in_concat. exists (rs_rules s). split; [by apply List.in_map|done].
Qed.

Lemma reads_mono tags tags' rule : (∀ tag, tag ∈ tags → tag ∈ tags') →
  ∀ anonymous anonymous' : bool, (anonymous = true → anonymous' = true) →
  reads tags anonymous rule = true → reads tags' anonymous' rule = true.
Proof.
  intros Ht. induction rule as [rule IH] using HeadlessRule_nested_ind. rewrite Forall_forall in IH.
  intros anonymous anonymous' Ha.
  destruct rule as [r|r|r mr tag race|r|r|r ? ? ?]; cbn [reads subrules] in *;
    try (apply default_reads_mono; [done|intros sub Hsub; by apply IH]).
  2,3,4: rewrite !forallb_forall; intros Hr sub Hsub; apply (IH sub (proj2 (list_elem_of_In _ _) Hsub) anonymous); auto.
  destruct mr; [|apply default_reads_mono; [done|intros sub Hsub; by apply IH]].
  rewrite !andb_true_iff. intros [Hn Hr]. split.
  - destruct (nonempty tag); [|by apply Ha]. apply bool_decide_eq_true in Hn. apply bool_decide_eq_true. auto.
  - revert Hr. apply default_reads_mono; [done|intros sub Hsub; by apply IH].
Qed.

(** ** Rule-sets have no responses to read *)

Definition no_response_items (r : abstractDefaultRule HeadlessRule) : Prop :=
  Forall (λ item, response_item item = false) (rule_items r).

Lemma no_response_empty inv act : no_response_items (emptyRule inv act).
Proof. constructor. Qed.

Lemma no_response_add item r : response_item item = false → no_response_items r →
  no_response_items (addItem item r) ∧ no_response_items (addSourceAddress item r) ∧
  no_response_items (addSourcePort item r) ∧ no_response_items (addDestinationAddress item r) ∧
  no_response_items (addDestinationIPCIDR item r) ∧ no_response_items (addDestinationPort item r).
Proof.
  intros Hi. unfold no_response_items, rule_items; cbn. rewrite !Forall_app, Forall_singleton. tauto.
Qed.

(** The constructors of items that may fail. *)
Lemma fallible_no_response message item m :
  cause message m = Ok item →
  (∃ l, m = NewDomainRegexItem l) ∨ (∃ b l, m = NewIPCIDRItem b l) ∨ (∃ b l, m = NewPortRangeItem b l) ∨
  (∃ l, m = NewProcessPathRegexItem l) ∨ (∃ l, m = NewPackageNameRegexItem l) →
  response_item item = false.
Proof.
  unfold cause. intros E%map_err_Ok Hm.
  destruct Hm as [[l ->]|[(b & l & ->)|[(b & l & ->)|[[l ->]|[l ->]]]]];
    unfold NewDomainRegexItem, NewIPCIDRItem, NewPortRangeItem, NewProcessPathRegexItem, NewPackageNameRegexItem in E;
    go_inv; done.
Qed.

Lemma NewDomainItem_no_response d s item : NewDomainItem newMatcher d s = Ok item → response_item item = false.
Proof. unfold NewDomainItem. intros E. go_inv. done. Qed.

Ltac no_response_tac :=
  idtac; match goal with
  | HP : no_response_items ?r |- no_response_items (setRuleSetItem _ _) => exact HP
  | HP : no_response_items ?r |- _ =>
      apply (no_response_add _ _);
      [first [reflexivity | eapply NewDomainItem_no_response; eassumption
             | eapply fallible_no_response; [eassumption|eauto 10]]
      |exact HP]
  end.

Lemma NewDefaultHeadlessRule_no_response o r :
  NewDefaultHeadlessRule newMatcher networkManager o = Ok r → no_response_items r.
Proof.
  intros E. apply (steps_Ok _ _ _ E); [apply no_response_empty|]. solve_steps no_response_tac.
Qed.

Lemma NewDefaultDNSRule_no_response o act legacy r :
  hasResponseMatchFields o = false → NewDefaultDNSRule_items newMatcher o act legacy = Ok r → no_response_items r.
Proof.
  unfold hasResponseMatchFields. rewrite !orb_false_iff. intros [[[Hrc Ha] Hns] Hex] E.
  apply bool_decide_eq_false, dec_stable in Hrc.
  apply (steps_Ok _ _ _ E); [apply no_response_empty|]. unfold NewDefaultDNSRule_addressItems.
  rewrite Hrc, Ha, Hns, Hex. solve_steps no_response_tac.
Qed.

(** The rule-set item of a rule that is not started has no sets. *)
Definition no_sets (r : abstractDefaultRule HeadlessRule) : Prop :=
  match ruleSetItem r with Some item => setList item = [] | None => True end.

Lemma NewDefaultDNSRule_no_sets o act legacy r :
  NewDefaultDNSRule_items newMatcher o act legacy = Ok r → no_sets r.
Proof. intros E. apply (steps_Ok _ _ _ E); [done|]. solve_steps ltac:(first [exact HP|reflexivity]). Qed.

Lemma no_response_reads tags anonymous r :
  no_response_items r → match ruleSetItem r with
    | Some item => forallb (λ s, forallb (reads tags anonymous) (rs_rules s)) (setList item)
    | None => true end = true →
  default_reads (reads tags) anonymous r = true.
Proof.
  intros Hi Hs. unfold default_reads. rewrite Hs, andb_true_r. apply orb_true_iff. right.
  apply forallb_forall. intros item Hin. unfold no_response_items in Hi. rewrite List.Forall_forall in Hi. by rewrite Hi.
Qed.

Lemma NewHeadlessRule_reads o : ∀ rule tags anonymous,
  NewHeadlessRule newMatcher networkManager o = Ok rule → reads tags anonymous rule = true.
Proof.
  induction o as [ty d mode rules inv IH] using HeadlessRuleOptions_nested_ind. intros rule tags anonymous E.
  apply NewHeadlessRule_cases in E as [(_ & r & Hr & ->)|(_ & _ & subs & m & Hs & ->)]; cbn [reads l_rules].
  - apply no_response_reads; [by eapply NewDefaultHeadlessRule_no_response|].
    by rewrite (proj2 (NewDefaultHeadlessRule_head _ _ _ _ Hr)).
  - apply (Forall2_forallb_r _ _ _ _ Hs). intros x y Hx. rewrite Forall_forall in IH. by apply (IH x Hx).
Qed.

Lemma loaded_reads s tags anonymous :
  loaded newMatcher networkManager s → forallb (reads tags anonymous) (rs_rules s) = true.
Proof.
  intros (options & _ & E & _). apply buildRules_Forall2 in E.
  apply (Forall2_forallb_r _ _ _ _ E). intros x y _. apply NewHeadlessRule_reads.
Qed.

(** ** Starting a rule *)

Section start.
Variable sets : option (string → option RuleSet).
Hypothesis sets_loaded : ∀ lookup tag s, sets = Some lookup → lookup tag = Some s → loaded newMatcher networkManager s.

Lemma item_Start_loaded item item' :
  item_Start sets item = Ok item' → Forall (loaded newMatcher networkManager) (setList item').
Proof.
  unfold item_Start. intros E. go_inv. match goal with Hm : mapM_idx _ _ _ = Ok _ |- _ => apply mapM_idx_Forall2 in Hm as Hf end.
  cbn. clear -Hf sets_loaded. induction Hf as [|tag s tags l [j Hj] Hf IH]; constructor; [|done].
  destruct sets as [lookup|] eqn:Es; [|done]. destruct (lookup tag) as [s'|] eqn:El; [|done]. injection Hj as <-.
  by eapply sets_loaded.
Qed.

Lemma default_Start_reads r r' tags anonymous :
  default_Start sets r = Ok r' → default_reads (reads tags) anonymous r = true →
  default_reads (reads tags) anonymous r' = true ∧ action r' = action r.
Proof.
  unfold default_Start. destruct (ruleSetItem r) as [item|] eqn:Ei; [|by intros [= <-]].
  intros E. go_inv. intros Hr. split; [|done]. unfold default_reads in *. cbn.
  apply andb_true_iff in Hr as [Hr _]. unfold rule_items in *. cbn. rewrite Hr. cbn.
  match goal with Hi : item_Start sets item = Ok _ |- _ => apply item_Start_loaded in Hi end.
  apply forallb_forall. intros s Hs. rewrite List.Forall_forall in *. by apply loaded_reads; auto.
Qed.

Lemma mapM_Start_reads subs l tags anonymous :
  Forall (λ rule, ∀ rule' tags anonymous, rule_Start sets rule = Ok rule' → reads tags anonymous rule = true →
            reads tags anonymous rule' = true) subs →
  mapM_idx (λ _ sub, rule_Start sets sub) 0 subs = Ok l →
  forallb (reads tags anonymous) subs = true → forallb (reads tags anonymous) l = true.
Proof.
  intros IH E%mapM_idx_Forall2 Hr. rewrite Forall_forall in IH. rewrite forallb_forall in Hr.
  apply (Forall2_forallb_r _ _ _ _ E). intros x y Hx [_ Hy]. apply (IH x Hx y); [done|]. by apply Hr, list_elem_of_In.
Qed.

Lemma rule_Start_reads rule : ∀ rule' tags anonymous,
  rule_Start sets rule = Ok rule' → reads tags anonymous rule = true → reads tags anonymous rule' = true.
Proof.
  induction rule as [rule IH] using HeadlessRule_nested_ind. intros rule' tags anonymous E Hr.
  destruct rule as [r|r|r mr tag race|r|r|r ? ? ?]; cbn [rule_Start reads subrules] in *; go_inv; cbn [reads l_rules];
    try (by eapply default_Start_reads); try (by eapply mapM_Start_reads).
  destruct mr; [|by eapply default_Start_reads]. apply andb_true_iff in Hr as [Hn Hr]. rewrite Hn.
  by eapply default_Start_reads.
Qed.

(** What the walk asks of a rule does not change when it is started. *)
Lemma rule_Start_same rule rule' :
  rule_Start sets rule = Ok rule' →
  MatchResponseTags rule' = MatchResponseTags rule ∧ MatchResponseAnonymous rule' = MatchResponseAnonymous rule ∧
  MatchResponseTag rule' = MatchResponseTag rule ∧ DNSRule_Action rule' = DNSRule_Action rule.
Proof.
  intros E. assert (Hd : ∀ r r', default_Start sets r = Ok r' → action r' = action r).
  { unfold default_Start. intros r r'. destruct (ruleSetItem r); [|by intros [= <-]]. intros. by go_inv. }
  destruct rule; cbn [rule_Start] in E; go_inv; split_and!; try done; cbn; eauto.
Qed.
End start.

(** ** Validated rules *)

(** [match_response] as it is decoded: a tag that is not empty enables it. *)
Fixpoint decoded (o : DNSRuleOptions) : bool :=
  match o with
  | MkDNSRuleOptions _ raw _ _ rules _ _ =>
      (negb (nonempty (MatchResponse_ResponseTag (n_MatchResponse raw))) || MatchResponse_IsEnabled (n_MatchResponse raw)) &&
      forallb decoded rules
  end.

Lemma common_Uniq_elem seen l tag : tag ∈ common_Uniq seen l ↔ tag ∈ l ∧ tag ∉ seen.
Proof.
  revert seen. induction l as [|x l IH]; intros seen; cbn; [set_solver|].
  unfold mem. case_bool_decide; rewrite ?elem_of_cons, IH; destruct (decide (tag = x)); set_solver.
Qed.

(** A built rule, with all that its constructor takes from its options. *)
Lemma NewDNSRule_shape ty d a mode rules inv la check legacy rule :
  NewDNSRule newMatcher (MkDNSRuleOptions ty d a mode rules inv la) check legacy = Ok rule →
  (is_default_type ty = true ∧
   ∃ act r, NewDNSRuleAction a = Ok act ∧ NewDefaultDNSRule_items newMatcher d act legacy = Ok r ∧
     rule = DefaultDNSRule r (MatchResponse_IsEnabled (n_MatchResponse d))
              (MatchResponse_ResponseTag (n_MatchResponse d)) (da_Race a)) ∨
  (is_default_type ty = false ∧ is_logical_type ty = true ∧
   ∃ act subs m, NewDNSRuleAction la = Ok act ∧
     Forall2 (λ o sub, NewDNSRule newMatcher o false legacy = Ok sub) rules subs ∧
     rule = LogicalDNSRule (MkLogical subs m inv act) (common_Uniq [] (concat (map MatchResponseTags subs)))
              (existsb MatchResponseAnonymous subs) (da_Race la)).
Proof.
  cbn [NewDNSRule]. destruct (is_default_type ty) eqn:Ety.
  - destruct (negb _); [done|]. unfold NewDefaultDNSRule. intros Hm. left. split; [done|]. go_inv. by eexists _, _.
  - destruct (is_logical_type ty) eqn:El; [|done]. intros Hm. right. split_and!; [done|done|]. go_inv. eexists _, _, _.
    split_and!; [done| |done].
    match goal with Hs : mapM_idx _ _ _ = Ok _ |- _ => apply sub_rules_built in Hs; eapply Forall2_impl; [exact Hs|] end.
    by intros x y [_ Hy].
Qed.

Section tree.
Context (router : option (string → option RuleSetMetadata)) (overrides : gmap string RuleSetMetadata).
Abbreviation validateTree := (validateLegacyDNSModeDisabledRuleTree router overrides).

Lemma merge_uses_tags {A} (f : A → result dnsRuleResponseUse) l : ∀ i use use',
  merge_uses f i l use = Ok use' →
  ∃ subs, Forall2 (λ x sub, f x = Ok sub) l subs ∧
    ru_referencedTags use' = ru_referencedTags use ++ concat (map ru_referencedTags subs).
Proof.
  induction l as [|x l IH]; intros i use use' E; cbn [merge_uses] in E.
  - injection E as <-. exists []. split; [constructor|]. cbn. by rewrite app_nil_r.
  - destruct (sub_rule i (f x)) as [sub| |] eqn:Ef; [|done|done]. cbn in E. apply map_err_Ok in Ef.
    apply IH in E as (subs & Hf & ->). exists (sub :: subs). split; [by constructor|]. cbn. by rewrite app_assoc.
Qed.

(** A default rule binds the tag of its [match_response] and reads only what it binds. *)
Lemma validated_default_reads d a act legacy use r race :
  negb (nonempty (MatchResponse_ResponseTag (n_MatchResponse d))) || MatchResponse_IsEnabled (n_MatchResponse d) = true →
  validateLegacyDNSModeDisabledDefaultRule router overrides d a = Ok use →
  NewDefaultDNSRule_items newMatcher d act legacy = Ok r →
  let rule := DefaultDNSRule r (MatchResponse_IsEnabled (n_MatchResponse d))
                (MatchResponse_ResponseTag (n_MatchResponse d)) race in
  reads (MatchResponseTags rule) (MatchResponseAnonymous rule) rule = true ∧
  MatchResponseTags rule = ru_referencedTags use.
Proof.
  intros Htag Hv Hr. unfold validateLegacyDNSModeDisabledDefaultRule in Hv.
  pose proof (NewDefaultDNSRule_no_sets _ _ _ _ Hr) as Hns.
  assert (Hsets : ∀ tags anonymous, match ruleSetItem r with
    | Some item => forallb (λ s, forallb (reads tags anonymous) (rs_rules s)) (setList item)
    | None => true end = true) by (intros; unfold no_sets in Hns; destruct (ruleSetItem r); by rewrite ?Hns).
  pose proof (NewDefaultDNSRule_no_response d act legacy r) as Hnr.
  assert (Hu : ru_referencedTags use = if MatchResponse_IsEnabled (n_MatchResponse d) &&
      nonempty (MatchResponse_ResponseTag (n_MatchResponse d)) then [MatchResponse_ResponseTag (n_MatchResponse d)] else [])
    by (clear Htag; by go_inv).
  rewrite Hu. destruct (hasResponseMatchFields d).
  - destruct (MatchResponse_IsEnabled _); [|done].
    cbn [reads MatchResponseTags MatchResponseAnonymous andb].
    unfold default_reads. rewrite Hsets. destruct (nonempty _); cbn; [|done]. unfold mem.
    by rewrite bool_decide_eq_true_2 by (by left).
  - specialize (Hnr eq_refl Hr).
    pose proof (λ tags anonymous, no_response_reads tags anonymous r Hnr (Hsets tags anonymous)) as Hall.
    cbn [reads MatchResponseTags MatchResponseAnonymous]. rewrite !Hall.
    destruct (MatchResponse_IsEnabled _), (nonempty _); cbn; try done. unfold mem.
    by rewrite bool_decide_eq_true_2 by (by left).
Qed.

(** What the tree of a rule binds and reads. *)
Lemma validated_reads o : ∀ check legacy use rule,
  decoded o = true → validateTree o = Ok use → NewDNSRule newMatcher o check legacy = Ok rule →
  reads (MatchResponseTags rule) (MatchResponseAnonymous rule) rule = true ∧
  (∀ tag, tag ∈ MatchResponseTags rule ↔ tag ∈ ru_referencedTags use).
Proof.
  induction o as [ty d a mode rules inv la IH] using DNSRuleOptions_nested_ind.
  intros check legacy use rule Hdec Hv E. cbn [decoded] in Hdec. apply andb_true_iff in Hdec as [Htag Hdec].
  apply NewDNSRule_shape in E as [(Hd & act & r & _ & Hr & ->)|(Hd & Hl & act & subs & m & _ & Hs & ->)];
    cbn [validateLegacyDNSModeDisabledRuleTree] in Hv; rewrite Hd, ?Hl in Hv.
  { destruct (validated_default_reads _ _ _ _ _ _ (da_Race a) Htag Hv Hr) as [? E]. by rewrite <- E. }
  destruct (merge_uses _ _ _ _) as [use'| |] eqn:Em; [|done|done]. cbn in Hv.
  apply merge_uses_tags in Em as (uses & Hu & Et). cbn in Et.
  assert (Euse : ru_referencedTags use = concat (map ru_referencedTags uses)) by (rewrite <- Et; by go_inv).
  assert (Hsub : Forall2 (λ sub use, reads (MatchResponseTags sub) (MatchResponseAnonymous sub) sub = true ∧
                   ∀ tag, tag ∈ MatchResponseTags sub ↔ tag ∈ ru_referencedTags use) subs uses).
  { clear -IH Hs Hu Hdec. revert subs uses Hs Hu. induction IH as [|o rules Ho IH IHl]; intros subs uses Hs Hu.
    - inversion Hs; inversion Hu; constructor.
    - apply Forall2_cons_inv_l in Hs as (sub & subs' & Hsub & Hs & ->).
      apply Forall2_cons_inv_l in Hu as (use & uses' & Huse & Hu & ->).
      cbn in Hdec. apply andb_true_iff in Hdec as [Hd1 Hd2]. constructor; [by apply (Ho false legacy)|by apply IHl]. }
  cbn [MatchResponseTags MatchResponseAnonymous reads l_rules]. split.
  - apply forallb_forall. intros sub Hin. apply list_elem_of_In in Hin as Hin'.
    apply list_elem_of_lookup_1 in Hin' as [i Hi]. destruct (Forall2_lookup_l _ _ _ _ _ Hsub Hi) as (u & _ & Hr & _).
    revert Hr. apply reads_mono.
    + intros tag Htg. apply common_Uniq_elem. split; [|set_solver]. apply list_elem_of_In, in_concat.
      exists (MatchResponseTags sub). split; [by apply List.in_map|by apply list_elem_of_In].
    + intros Ha. apply existsb_exists. by exists sub.
  - intros tag. rewrite common_Uniq_elem, Euse. clear -Hsub.
    induction Hsub as [|sub u subs uses [_ Ht] Hsub IH]; cbn; [set_solver|]. rewrite !elem_of_app, <- Ht. set_solver.
Qed.

(** The name a rule stores its response under, by its options. *)
Definition option_tag (o : DNSRuleOptions) : option string :=
  if is_evaluate_rule o && nonempty (dnsRuleActionEvaluateTag o) then Some (dnsRuleActionEvaluateTag o) else None.

Lemma iter_guard_Ok {A} (P : A → bool) (e : A → error) l : ∀ i,
  iter_idx (λ _ x, guard_err (negb (P x)) (e x)) i l = Ok tt → Forall (λ x, P x = true) l.
Proof.
  induction l as [|x l IH]; intros i E; [constructor|]. cbn [iter_idx] in E. unfold guard_err in E at 1.
  destruct (P x) eqn:Ep; [|discriminate E]. constructor; [done|]. by apply (IH (S i)).
Qed.

(** One round: what is referred to is defined, what is defined is new. *)
Lemma validate_rule_spec i o v v' :
  validate_rule router overrides i o v = Ok v' →
  ∃ use, validateTree o = Ok use ∧ Forall (λ tag, tag ∈ va_definedTagOrder v) (ru_referencedTags use) ∧
    va_definedTagOrder v' = va_definedTagOrder v ++ option_list (option_tag o) ∧
    ∀ tag, option_tag o = Some tag → tag ∉ va_definedTagOrder v.
Proof.
  unfold validate_rule. destruct (dns_rule _ _ _) as [use| |] eqn:Eu; [|discriminate..]. apply map_err_Ok in Eu.
  cbn [mbind result_bind]. intros E. exists use. split; [exact Eu|]. clear Eu.
  destruct (guard_err _ _) as [[]| |]; [|discriminate E..]. cbn [mbind result_bind] in E.
  destruct (iter_idx _ _ _) as [[]| |] eqn:Ei; [|discriminate E..]. cbn [mbind result_bind] in E.
  apply (iter_guard_Ok (λ tag, mem tag (va_definedTagOrder v))) in Ei. split.
  { eapply Forall_impl; [exact Ei|]. cbn. intros tag Ht. by apply bool_decide_eq_true in Ht. }
  clear Ei. unfold option_tag. destruct (is_evaluate_rule o); cbn [negb andb] in *.
  2:{ injection E as <-. cbn [va_definedTagOrder option_list option_rect]. by rewrite app_nil_r. }
  destruct (nonempty (dnsRuleActionEvaluateTag o)); cbn [negb] in E.
  2:{ injection E as <-. cbn [va_definedTagOrder option_list option_rect]. by rewrite app_nil_r. }
  unfold mem in E. case_bool_decide as Hin; [discriminate E|]. injection E as <-. split; [done|]. by intros tag [= <-].
Qed.

Lemma validate_loop_spec rules : ∀ i v v',
  validate_loop router overrides i rules v = Ok v' → NoDup (va_definedTagOrder v) →
  NoDup (va_definedTagOrder v ++ omap option_tag rules) ∧
  ∀ k o, rules !! k = Some o → ∃ use, validateTree o = Ok use ∧
    ∀ tag, tag ∈ ru_referencedTags use → tag ∈ va_definedTagOrder v ++ omap option_tag (take k rules).
Proof.
  induction rules as [|o rules IH]; intros i v v' E Hn; cbn [validate_loop] in E.
  { cbn. rewrite app_nil_r. split; [done|]. by intros k o Hk. }
  destruct (validate_rule _ _ i o v) as [v1| |] eqn:Ev; [|discriminate E..]. cbn [mbind result_bind] in E.
  apply validate_rule_spec in Ev as (use & Eu & Hr & Ed & Hnew).
  assert (Happ : va_definedTagOrder v ++ omap option_tag (o :: rules) = va_definedTagOrder v1 ++ omap option_tag rules).
  { rewrite Ed, <- app_assoc. cbn. by destruct (option_tag o). }
  apply IH in E as [Hn1 Hk].
  2:{ rewrite Ed. apply NoDup_app. split_and!; [done| |].
      - intros x Hx Hx'. destruct (option_tag o) as [tag|]; cbn in Hx'; [|by apply elem_of_nil in Hx'].
        apply list_elem_of_singleton in Hx' as ->. by apply (Hnew tag).
      - destruct (option_tag o); cbn; [apply NoDup_singleton|constructor]. }
  rewrite Happ. split; [done|]. intros [|k] o' Ho; cbn in Ho.
  - injection Ho as <-. exists use. split; [done|]. rewrite Forall_forall in Hr. intros tag Ht.
    apply elem_of_app. left. by apply Hr.
  - destruct (Hk k o' Ho) as (use' & Eu' & Ht). exists use'. split; [done|]. intros tag Hin.
    apply Ht in Hin. rewrite Ed, <- app_assoc in Hin. cbn. by destruct (option_tag o).
Qed.
End tree.

(** ** From options to rules *)

Lemma NewDNSRuleAction_evaluate a act :
  NewDNSRuleAction a = Ok act →
  match act with Some (RuleActionEvaluate _ tag _ _) => Some tag | _ => None end =
    (if bool_decide (da_Action a = "evaluate"%string) then Some (de_Tag (da_EvaluateOptions a)) else None) ∧
  (act = Some RuleActionRespond → da_Action a = "respond"%string).
Proof.
  unfold NewDNSRuleAction. destruct (nonempty (da_Action a)) eqn:En; cbn [negb].
  - repeat case_bool_decide; intros E; go_inv; (split; [try done|done]); congruence.
  - intros [= <-]. split; [|done]. case_bool_decide as Ea; [|done]. by rewrite Ea in En.
Qed.

Lemma evaluate_type a :
  bool_decide ((if nonempty (da_Action a) then da_Action a else "route"%string) = "evaluate"%string) =
  bool_decide (da_Action a = "evaluate"%string).
Proof.
  destruct (nonempty (da_Action a)) eqn:En; [done|]. case_bool_decide; [done|]. case_bool_decide as Ea; [|done].
  by rewrite Ea in En.
Qed.

(** The name under which a built rule stores its response. *)
Definition stored_tag (rule : HeadlessRule) : option string :=
  match DNSRule_Action rule with
  | Some (RuleActionEvaluate _ tag _ _) => if nonempty tag then Some tag else None
  | _ => None
  end.

Lemma built_tag o check legacy rule : NewDNSRule newMatcher o check legacy = Ok rule → stored_tag rule = option_tag o.
Proof.
  destruct o as [ty d a mode rules inv la]. intros E. unfold option_tag, is_evaluate_rule, dnsRuleActionType, dnsRuleActionEvaluateTag.
  unfold rule_action.
  assert (Hact : ∀ a act, NewDNSRuleAction a = Ok act → DNSRule_Action rule = act →
    stored_tag rule = if bool_decide ((if nonempty (da_Action a) then da_Action a else "route"%string) = "evaluate"%string) &&
      nonempty (de_Tag (da_EvaluateOptions a)) then Some (de_Tag (da_EvaluateOptions a)) else None).
  { intros a0 act Ha Er. apply NewDNSRuleAction_evaluate in Ha as [Ha _]. rewrite evaluate_type. unfold stored_tag. rewrite Er.
    destruct act as [[]|]; case_bool_decide; try done. by injection Ha as ->. }
  apply NewDNSRule_shape in E as [(Hd & act & r & Ha & Hr & ->)|(Hd & Hl & act & subs & m & Ha & Hs & ->)]; rewrite Hd, ?Hl.
  - apply (Hact a act Ha). cbn. apply (NewDefaultDNSRule_head newMatcher _ _ _ _ Hr).
  - by apply (Hact la act Ha).
Qed.

(** A rule that is accepted and does not race is orderly. *)
Lemma validated_orderly router overrides sets o use check legacy rule rule' :
  (∀ lookup tag s, sets = Some lookup → lookup tag = Some s → loaded newMatcher networkManager s) →
  decoded o = true → validateLegacyDNSModeDisabledRuleTree router overrides o = Ok use →
  NewDNSRule newMatcher o check legacy = Ok rule → rule_Start sets rule = Ok rule' →
  Race rule' = false → no_domain_only rule' = true → orderly rule' = true.
Proof.
  intros Hsets Hdec Hv Hb Hst Hrace Hfull. destruct (validated_reads _ _ _ _ _ _ _ Hdec Hv Hb) as [Hreads Htags].
  destruct (rule_Start_same _ _ _ Hst) as (E1 & E2 & E3 & E4).
  unfold orderly, hasBindings. rewrite Hrace, Hfull, E1, E2, E3, E4.
  rewrite (rule_Start_reads sets Hsets _ _ _ _ Hst Hreads). cbn [negb andb].
  destruct (DNSRule_Action rule) as [[]|] eqn:Ea; try done.
  destruct o as [ty d a mode rules inv la].
  apply NewDNSRule_shape in Hb as [(Hd & act & r & Ha & Hr & ->)|(Hd & Hl & act & subs & m & Ha & Hs & ->)].
  - cbn. destruct (nonempty _); cbn; [done|]. by destruct (MatchResponse_IsEnabled _).
  - cbn [MatchResponseTag nonempty MatchResponseTags MatchResponseAnonymous orb] in *.
    cbn [DNSRule_Action l_action] in Ea. subst act. apply NewDNSRuleAction_evaluate in Ha as [_ Ha]. specialize (Ha eq_refl).
    cbn [validateLegacyDNSModeDisabledRuleTree] in Hv. rewrite Hd, Hl, Ha in Hv.
    destruct (merge_uses _ _ _ _) as [use'| |] eqn:Em; [|done|done]. cbn [mbind result_bind] in Hv.
    rewrite bool_decide_eq_true_2 in Hv by done.
    destruct (ru_referencedTags use') as [|tag l] eqn:Et; cbn [has_items] in Hv; [|done]. injection Hv as <-. cbn in Htags.
    destruct (common_Uniq [] _) as [|tag l]; [by destruct (existsb _ _)|]. exfalso. apply (elem_of_nil tag), Htags. by left.
Qed.
End facts.

(** ** Theorems *)

Section built.
Context `{Extern}.
Variable newMatcher : list string → list string → result Matcher.
Variable networkManager : bool.
Context (sets : option (string → option RuleSet)) (tm : option DNSTransportManager).

Lemma evaluate_tags_stored rules : evaluate_tags rules = omap stored_tag rules.
Proof. done. Qed.

(** The rules, one by one, with the options they come from. *)
Lemma built_rules raw rules flags warnings :
  Router_buildRules newMatcher sets tm raw true = Ok (rules, false, flags, warnings) →
  Forall2 (λ o rule, ∃ r, NewDNSRule newMatcher o true false = Ok r ∧ rule_Start sets r = Ok rule) raw rules ∧
  ∃ v, validate_loop (sets_metadata sets) ∅ 0 raw validationZero = Ok v.
Proof.
  unfold Router_buildRules. destruct (iter_idx _ 0 raw) as [[]| |]; [|discriminate..]. cbn [mbind result_bind].
  destruct (resolveLegacyDNSMode _ _ _) as [[legacy mf]| |]; [|discriminate..]. cbn [mbind result_bind].
  destruct (if legacy then _ else _) as [ws| |] eqn:Ew; [|discriminate..]. cbn [mbind result_bind].
  destruct (validateEvaluateFakeIPRules raw tm) as [[]| |]; [|discriminate..]. cbn [mbind result_bind].
  destruct (mapM_idx _ 0 raw) as [news| |] eqn:En; [|discriminate..]. cbn [mbind result_bind].
  destruct (mapM_idx _ 0 news) as [l| |] eqn:Es; [|discriminate..]. cbn [mbind result_bind].
  intros [= -> -> -> ->]. split.
  - apply mapM_idx_Forall2 in En, Es. clear -En Es. revert rules Es.
    induction En as [|o r raw news [j Hj] En IH]; intros rules Es; inversion Es as [|? rule ? ? [j' Hj']]; subst; constructor; auto.
    apply map_err_Ok in Hj, Hj'. eauto.
  - unfold validateLegacyDNSModeDisabledRules in Ew. destruct (validate_loop _ _ _ _ _) as [v| |]; [by exists v|discriminate..].
Qed.

Lemma built_stored raw rules :
  Forall2 (λ o rule, ∃ r, NewDNSRule newMatcher o true false = Ok r ∧ rule_Start sets r = Ok rule) raw rules →
  omap option_tag raw = omap stored_tag rules.
Proof.
  induction 1 as [|o rule raw rules (r & Hb & Hs) _ IH]; [done|]. cbn. rewrite IH.
  apply built_tag in Hb. destruct (rule_Start_same _ _ _ Hs) as (_ & _ & _ & Ea).
  assert (stored_tag rule = option_tag o) as -> by (rewrite <- Hb; unfold stored_tag; by rewrite Ea). done.
Qed.
End built.

(** C31 Rules that the router accepts and starts out of legacy mode, with rule-sets as
    they are loaded, are well formed for the walk: every name under which a rule stores
    its response is stored by one rule only; every response that a rule binds by its
    name is stored by a rule before it; and every rule that does not race and uses no
    rule-set for its domains only reads no response but those it waits for, and responds
    with none it did not wait for. *)
Theorem buildRules_well_formed `{Extern} newMatcher networkManager sets tm raw rules flags warnings :
  (∀ lookup tag s, sets = Some lookup → lookup tag = Some s → loaded newMatcher networkManager s) →
  forallb decoded raw = true →
  Router_buildRules newMatcher sets tm raw true = Ok (rules, false, flags, warnings) →
  NoDup (evaluate_tags rules) ∧
  (∀ i rule tag, rules !! i = Some rule → tag ∈ MatchResponseTags rule → tag ∈ evaluate_tags (take i rules)) ∧
  Forall (λ rule, Race rule = false → no_domain_only rule = true → orderly rule = true) rules.
Proof.
  intros Hsets Hdec Hb. apply built_rules in Hb as [Hall [v Hv]].
  apply validate_loop_spec in Hv as [Hn Hrefs]; [|constructor]. cbn in Hn. rewrite forallb_forall in Hdec.
  assert (Hone : ∀ i rule, rules !! i = Some rule → ∃ o use r, raw !! i = Some o ∧ decoded o = true ∧
    validateLegacyDNSModeDisabledRuleTree (sets_metadata sets) ∅ o = Ok use ∧
    NewDNSRule newMatcher o true false = Ok r ∧ rule_Start sets r = Ok rule ∧
    ∀ tag, tag ∈ ru_referencedTags use → tag ∈ omap option_tag (take i raw)).
  { intros i rule Hi. destruct (Forall2_lookup_r _ _ _ _ _ Hall Hi) as (o & Ho & r & Hr & Hs).
    destruct (Hrefs i o Ho) as (use & Hu & Ht). exists o, use, r. split_and!; try done.
    apply Hdec, list_elem_of_In. by eapply list_elem_of_lookup_2. }
  split_and!.
  - rewrite evaluate_tags_stored. by rewrite <- (built_stored newMatcher sets raw).
  - intros i rule tag Hi Htag. destruct (Hone i rule Hi) as (o & use & r & Ho & Hd & Hu & Hr & Hs & Ht).
    destruct (rule_Start_same _ _ _ Hs) as (E1 & _). rewrite E1 in Htag.
    destruct (validated_reads _ _ _ _ _ _ _ _ Hd Hu Hr) as [_ Hiff]. apply Hiff, Ht in Htag.
    rewrite evaluate_tags_stored, <- (built_stored newMatcher sets (take i raw)); [done|]. by apply Forall2_take.
  - apply Forall_lookup_2. intros i rule Hi. destruct (Hone i rule Hi) as (o & use & r & Ho & Hd & Hu & Hr & Hs & _).
    intros Hrace Hfull. by apply (validated_orderly newMatcher networkManager (sets_metadata sets) ∅ sets o use true false r).
Qed.

(** The options of two rules: one evaluates with a name, one responds with it. *)
Definition c_action (a : string) (evaluate : DNSEvaluateActionOptions) : DNSRuleActionOptions :=
  MkDNSRuleActionOptions a false (MkDNSRouteOptions "" false AbstractDNSOptionsZero) evaluate AbstractDNSOptionsZero
    (da_RejectOptions DNSRuleActionOptionsZero) (da_PredefinedOptions DNSRuleActionOptionsZero).
Definition c_raw (response : option DNSRuleMatchResponse) (rcode : option Z) (sets : Listable string) : RawDefaultDNSRuleOptions :=
  MkRawDefaultDNSRule None 0 (Some [1]) None false None None None None None None None None false None
    None None None None None None None None None None None "" None false false None None None
    None None None None None sets false false response None false false rcode None None None false
    None None None false false.
Definition c_options_list : list DNSRuleOptions :=
  [MkDNSRuleOptions "" (c_raw None None None) (c_action "evaluate" (MkDNSEvaluateOptions "x" "a" false AbstractDNSOptionsZero))
     "" [] false DNSRuleActionOptionsZero;
   MkDNSRuleOptions "" (c_raw (Some (MkMatchResponse true "a")) (Some 0) None)
     (c_action "respond" (MkDNSEvaluateOptions "" "" false AbstractDNSOptionsZero)) "" [] false DNSRuleActionOptionsZero].

Definition c_sets : option (string → option RuleSet) := Some (λ _, None).
Definition c_built : result (list HeadlessRule * bool * dnsRuleModeFlags * list string) :=
  Router_buildRules c_newMatcher c_sets None c_options_list true.

Lemma buildRules_well_formed_witness :
  match c_built with
  | Ok (rules, false, _, _) => evaluate_tags rules = ["a"%string] ∧ NoDup (evaluate_tags rules) ∧
      (∀ i rule tag, rules !! i = Some rule → tag ∈ MatchResponseTags rule → tag ∈ evaluate_tags (take i rules)) ∧
      Forall (λ rule, Race rule = false → no_domain_only rule = true → orderly rule = true) rules
  | _ => False
  end.
Proof.
  assert (Hok : match c_built with
                | Ok (rules, legacy, _, _) => negb legacy && bool_decide (evaluate_tags rules = ["a"%string])
                | _ => false end = true) by (vm_compute; reflexivity).
  destruct c_built as [[[[rules legacy] flags] warnings]| |] eqn:E; [|discriminate Hok..].
  destruct legacy; [discriminate Hok|]. cbn [negb andb] in Hok. apply bool_decide_eq_true in Hok. split; [exact Hok|].
  refine (buildRules_well_formed c_newMatcher false c_sets None c_options_list rules flags warnings _ _ E).
  - intros lookup tag s [= <-]. discriminate.
  - vm_compute. reflexivity.
Defined.
