(* ===== verification/DnsUpdate.v ===== *)
(** * The DNS router: updates of rule-sets

    While the router runs, a rule-set may be loaded again with other metadata. The
    update is accepted exactly when the rules, with the new metadata, can still run in
    the mode the router is in. *)
From stdpp Require Import base list gmap strings.
From S2P Require Import Prelude Netip Metadata RuleItems RuleAction RuleMatch Concrete RuleOptions RuleBuild RuleBuildFacts DnsRouter DnsValidate DnsValidateFacts.

(** ** The metadata is all that the checks look at *)

Section same.
Context (router router' : string → option RuleSetMetadata) (overrides overrides' : gmap string RuleSetMetadata).
Hypothesis same : ∀ tag, lookupDNSRuleSetMetadata (Some router) overrides tag =
                         lookupDNSRuleSetMetadata (Some router') overrides' tag.

Lemma ruleSet_flags_same rule tags flags :
  ruleSet_flags (Some router) overrides rule tags flags = ruleSet_flags (Some router') overrides' rule tags flags.
Proof.
  revert flags. induction tags as [|tag tags IH]; intros flags; cbn [ruleSet_flags]; [done|].
  rewrite same. destruct (lookupDNSRuleSetMetadata _ _ _); [apply IH|done..].
Qed.

Lemma merge_flags_same {A} (f f' : A → result dnsRuleModeFlags) wrap i l flags :
  Forall (λ x, f x = f' x) l → merge_flags f wrap i l flags = merge_flags f' wrap i l flags.
Proof.
  intros Hl. revert i flags. induction Hl as [|x l Hx Hl IH]; intros i flags; cbn [merge_flags]; [done|].
  rewrite Hx. destruct (wrap i (f' x)); [apply IH|done..].
Qed.

Lemma requirements_same o :
  dnsRuleModeRequirementsInRule (Some router) overrides o = dnsRuleModeRequirementsInRule (Some router') overrides' o.
Proof.
  induction o as [ty d a mode rules inv la IH] using DNSRuleOptions_nested_ind. cbn [dnsRuleModeRequirementsInRule].
  destruct (is_default_type ty); [|destruct (is_logical_type ty); [by apply merge_flags_same|done]].
  unfold dnsRuleModeRequirementsInDefaultRule. destruct (negb _); [done|]. apply ruleSet_flags_same.
Qed.

Lemma resolve_same rules :
  resolveLegacyDNSMode (Some router) overrides rules = resolveLegacyDNSMode (Some router') overrides' rules.
Proof.
  unfold resolveLegacyDNSMode, dnsRuleModeRequirements.
  rewrite (merge_flags_same _ (dnsRuleModeRequirementsInRule (Some router') overrides')); [done|].
  apply Forall_forall. intros o _. apply requirements_same.
Qed.

Lemma check_pure_ip_same tags : check_pure_ip (Some router) overrides tags = check_pure_ip (Some router') overrides' tags.
Proof.
  unfold check_pure_ip. generalize 0%nat. induction tags as [|tag tags IH]; intros i; cbn [iter_idx]; [done|].
  rewrite same. destruct (lookupDNSRuleSetMetadata _ _ _); [|done..]. cbn [mbind result_bind].
  destruct (guard_err _ _); [|done..]. apply IH.
Qed.

Lemma merge_uses_same {A} (f f' : A → result dnsRuleResponseUse) i l use :
  Forall (λ x, f x = f' x) l → merge_uses f i l use = merge_uses f' i l use.
Proof.
  intros Hl. revert i use. induction Hl as [|x l Hx Hl IH]; intros i use; cbn [merge_uses]; [done|].
  rewrite Hx. destruct (sub_rule i (f' x)); [apply IH|done..].
Qed.

Lemma tree_same o :
  validateLegacyDNSModeDisabledRuleTree (Some router) overrides o =
  validateLegacyDNSModeDisabledRuleTree (Some router') overrides' o.
Proof.
  induction o as [ty d a mode rules inv la IH] using DNSRuleOptions_nested_ind.
  cbn [validateLegacyDNSModeDisabledRuleTree].
  destruct (is_default_type ty); [|destruct (is_logical_type ty); [by rewrite (merge_uses_same _ _ _ _ _ IH)|done]].
  unfold validateLegacyDNSModeDisabledDefaultRule. by rewrite check_pure_ip_same.
Qed.

Lemma validate_same rules :
  validateLegacyDNSModeDisabledRules (Some router) overrides rules =
  validateLegacyDNSModeDisabledRules (Some router') overrides' rules.
Proof.
  unfold validateLegacyDNSModeDisabledRules. f_equal. generalize 0%nat, validationZero.
  induction rules as [|o rules IH]; intros i v; cbn [validate_loop]; [done|].
  assert (validate_rule (Some router) overrides i o v = validate_rule (Some router') overrides' i o v) as ->
    by (unfold validate_rule; by rewrite tree_same).
  destruct (validate_rule _ _ i o v) as [v1| |]; [apply IH|done..].
Qed.
End same.

(** ** The theorem *)

(** The rule-sets of the router with the new metadata in place. *)
Definition with_metadata `{Extern} (lookup : string → option RuleSet) (tag : string) (metadata : RuleSetMetadata)
    (t : string) : option RuleSetMetadata :=
  if decide (t = tag) then Some metadata else match lookup t with Some s => Some (rs_metadata s) | None => None end.

Lemma override_same `{Extern} (lookup : string → option RuleSet) tag metadata t :
  lookupDNSRuleSetMetadata (sets_metadata (Some lookup)) {[tag := metadata]} t =
  lookupDNSRuleSetMetadata (Some (with_metadata lookup tag metadata)) ∅ t.
Proof.
  unfold lookupDNSRuleSetMetadata, with_metadata. cbn. rewrite lookup_empty.
  destruct (decide (t = tag)) as [->|Hne]; [by rewrite lookup_singleton_eq|]. rewrite lookup_singleton_ne by done.
  by destruct (lookup t).
Qed.

Lemma resolve_mode router overrides rules mode flags :
  resolveLegacyDNSMode router overrides rules = Ok (mode, flags) → mode = negb (mf_disabled flags) && mf_needed flags.
Proof.
  unfold resolveLegacyDNSMode. intros E. go_inv; match goal with Hb : mf_disabled _ = _ |- _ => by rewrite Hb end.
Qed.

(** C32 An update of a rule-set is accepted by a running router exactly when the rules can
    run on with it in the mode the router is in: out of legacy mode, the rules with the
    new metadata do not ask for legacy mode and pass the checks of the rules again; in
    legacy mode, no rule asks for what legacy mode does not have. *)
Theorem ValidateRuleSetMetadataUpdate_mode `{Extern} lookup r tag metadata :
  rt_started r = true → rt_closing r = false →
  let router := Some (with_metadata lookup tag metadata) in
  ValidateRuleSetMetadataUpdate (Some lookup) r tag metadata = Ok tt ↔
  if rt_legacyDNSMode r
  then ∃ mode flags, resolveLegacyDNSMode router ∅ (rt_rawRules r) = Ok (mode, flags) ∧ mf_disabled flags = false
  else ∃ flags warnings, resolveLegacyDNSMode router ∅ (rt_rawRules r) = Ok (false, flags) ∧
         validateLegacyDNSModeDisabledRules router ∅ (rt_rawRules r) = Ok warnings.
Proof.
  intros Hs Hc. cbn zeta. unfold ValidateRuleSetMetadataUpdate. rewrite Hs, Hc. cbn [negb].
  destruct (rt_rawRules r) as [|o rules] eqn:Eraw; cbn [has_items negb].
  { destruct (rt_legacyDNSMode r); (split; [|done]); intros _; eexists _, _; done. }
  cbn [sets_metadata]. set (router' := λ t, match lookup t with Some s => Some (rs_metadata s) | None => None end).
  assert (Hsame : ∀ t, lookupDNSRuleSetMetadata (Some router') {[tag := metadata]} t =
    lookupDNSRuleSetMetadata (Some (with_metadata lookup tag metadata)) ∅ t) by (intros; apply override_same).
  rewrite (resolve_same _ _ _ _ Hsame), (validate_same _ _ _ _ Hsame).
  set (raw := o :: rules). set (router := Some (with_metadata lookup tag metadata)).
  destruct (resolveLegacyDNSMode router ∅ raw) as [[mode flags]| |] eqn:Er; cbn [mbind result_bind].
  2,3: destruct (rt_legacyDNSMode r); (split; [done|by intros (? & ? & ? & _)]).
  apply resolve_mode in Er. destruct (rt_legacyDNSMode r).
  - destruct (mf_disabled flags) eqn:Ed; cbn in Er; subst mode; cbn [negb andb].
    + destruct (validateLegacyDNSModeDisabledRules router ∅ raw); cbn; (split; [done|]); intros (? & ? & [= <- <-] & ?); congruence.
    + rewrite andb_false_r. split; [|done]. intros _. by eexists _, _.
  - destruct mode; [split; [done|by intros (? & ? & ? & _)]|].
    destruct (validateLegacyDNSModeDisabledRules router ∅ raw) as [ws| |]; cbn; (split; [|by intros (? & ? & _ & ?)]).
    + intros _. by eexists _, _.
    + done.
    + done.
Qed.

(** A router that runs with one rule on the rule-set geo, which has other items than
    addresses; then the set is loaded again. *)
Definition c_router : Router :=
  MkRouter [MkDNSRuleOptions "" (c_raw None None (Some ["geo"%string]))
              (c_action "route" (MkDNSEvaluateOptions "" "" false AbstractDNSOptionsZero)) "" [] false DNSRuleActionOptionsZero]
    [] false true false.
Definition c_metadata (addresses others : bool) : RuleSetMetadata := MkRuleSetMetadata false false addresses false others.
Definition c_lookup (tag : string) : option RuleSet := Some (MkRuleSet tag [] (c_metadata false true)).

Lemma ValidateRuleSetMetadataUpdate_mode_witness :
  ∃ flags warnings,
    resolveLegacyDNSMode (Some (with_metadata c_lookup "geo" (c_metadata true true))) ∅ (rt_rawRules c_router) = Ok (false, flags) ∧
    validateLegacyDNSModeDisabledRules (Some (with_metadata c_lookup "geo" (c_metadata true true))) ∅ (rt_rawRules c_router) =
      Ok warnings.
Proof.
  apply (proj1 (ValidateRuleSetMetadataUpdate_mode c_lookup c_router "geo" (c_metadata true true) eq_refl eq_refl)).
  vm_compute. reflexivity.
Defined.

(** Addresses only are refused. *)
Example update_refused :
  ValidateRuleSetMetadataUpdate (Some c_lookup) c_router "geo" (c_metadata true false) =
  Err (ECause OptionLegacyDNSAddressFilter "validate dns rule[0]").
Proof. vm_compute. reflexivity. Qed.
