(* ===== verification/DnsClient.v ===== *)
(** * The DNS client: dns/client.go, dns/extension_edns0_subnet.go, dns/client_log.go

    An exchange with a server goes through the cache of responses, the store of rejected
    responses and the check of the caller. The libraries the client calls (miekg/dns,
    freelru) are parameters; so are the servers, and what happens while an exchange waits
    for another one on the same key. Time is a number of nanoseconds. Logging is left
    out. *)
From Stdlib Require Import Strings.Byte.
From stdpp Require Import base list gmap strings pretty.
From S2P Require Import Prelude Netip Metadata RuleItems RuleAction RuleMatch DnsRouter.

(** What the sources call of miekg/dns. [SetEdns0] appends an OPT record. *)
Class Edns : Type := {
  Msg_IsEdns0 : Msg → option RR;
  OPT_Version : RR → Z;
  OPT_Do : RR → bool;
  OPT_UDPSize : RR → Z;
  edns0_record : Z → bool → RR;
  dns_IsFqdn : string → bool;
  dns_Fqdn : string → string;
  Msg_Pack : Msg → option (list byte);
  Msg_Unpack : list byte → option Msg;
}.

Definition msg_with (m : Msg) (id : Z) (answer ns extra : list RR) : Msg :=
  MkMsg (MkMsgHdr id (hdr_Response (msg_Hdr m)) (hdr_Authoritative (msg_Hdr m)) (hdr_RecursionDesired (msg_Hdr m))
           (hdr_RecursionAvailable (msg_Hdr m)) (hdr_Rcode (msg_Hdr m)))
    (msg_Question m) answer ns extra.
Definition msg_Id (m : Msg) : Z := hdr_Id (msg_Hdr m).
Definition msg_set_Id (m : Msg) (id : Z) : Msg := msg_with m id (msg_Answer m) (msg_Ns m) (msg_Extra m).
Definition msg_set_Extra (m : Msg) (extra : list RR) : Msg := msg_with m (msg_Id m) (msg_Answer m) (msg_Ns m) extra.

Definition rr_set_Ttl (r : RR) (ttl : Z) : RR := MkRR (rr_Name r) (rr_Class r) ttl (rr_Data r).
Definition rr_set_Data (r : RR) (d : RData) : RR := MkRR (rr_Name r) (rr_Class r) (rr_Ttl r) d.

(** Types of records: A 1, SOA 6, AAAA 28, OPT 41, HTTPS 65; of options: subnet 8,
    padding 12. *)
Definition rr_Rrtype (r : RR) : Z :=
  match rr_Data r with
  | RData_A _ => 1 | RData_SOA _ _ => 6 | RData_AAAA _ => 28 | RData_OPT _ => 41 | RData_HTTPS _ => 65
  | RData_Other t _ => t
  end.
Definition EDNS0_Option (e : EDNS0) : Z := match e with EDNS0_SUBNET _ _ _ => 8 | EDNS0_Other code _ => code end.
Definition TypeOPT : Z := 41.

(** ** Times to live *)

Fixpoint extractNegativeTTL (ns : list RR) : option Z :=
  match ns with
  | [] => None
  | record :: ns =>
      match rr_Data record with
      | RData_SOA minttl _ => Some (if rr_Ttl record <? minttl then rr_Ttl record else minttl)
      | _ => extractNegativeTTL ns
      end
  end.

Definition all_records (response : Msg) : list RR := msg_Answer response ++ msg_Ns response ++ msg_Extra response.

(** The loop of [computeTimeToLive]. *)
Fixpoint ttl_loop (records : list RR) (timeToLive : Z) : Z :=
  match records with
  | [] => timeToLive
  | record :: records =>
      if rr_Rrtype record =? TypeOPT then ttl_loop records timeToLive
      else ttl_loop records
             (if (timeToLive =? 0) || (0 <? rr_Ttl record) && (rr_Ttl record <? timeToLive) then rr_Ttl record
              else timeToLive)
  end.

Definition computeTimeToLive (response : Msg) : Z :=
  match (if has_items (msg_Answer response) then None else extractNegativeTTL (msg_Ns response)) with
  | Some soaTTL => soaTTL
  | None => ttl_loop (all_records response) 0
  end.

Definition normalize_record (timeToLive : Z) (record : RR) : RR :=
  if rr_Rrtype record =? TypeOPT then record else rr_set_Ttl record timeToLive.
Definition normalizeTTL (response : Msg) (timeToLive : Z) : Msg :=
  msg_with response (msg_Id response) (map (normalize_record timeToLive) (msg_Answer response))
    (map (normalize_record timeToLive) (msg_Ns response)) (map (normalize_record timeToLive) (msg_Extra response)).

(** The hints of the other family are taken out of HTTPS records. *)
Definition filter_hints (strategy : Z) (record : RR) : RR :=
  match rr_Data record with
  | RData_HTTPS value =>
      rr_set_Data record (RData_HTTPS (List.filter (λ v,
        match v with
        | SVCBIPv6Hint _ => negb (strategy =? DomainStrategyIPv4Only)
        | SVCBIPv4Hint _ => strategy =? DomainStrategyIPv4Only
        | SVCBOther => true
        end) value))
  | _ => record
  end.

Definition applyResponseOptions (question : Question) (response : Msg) (o : DNSQueryOptions) : Msg * Z :=
  let response :=
    if (q_Qtype question =? 65) &&
       ((qo_Strategy o =? DomainStrategyIPv4Only) || (qo_Strategy o =? DomainStrategyIPv6Only))
    then msg_with response (msg_Id response) (map (filter_hints (qo_Strategy o)) (msg_Answer response))
           (msg_Ns response) (msg_Extra response)
    else response in
  let timeToLive := match qo_RewriteTTL o with Some ttl => ttl | None => computeTimeToLive response end in
  (normalizeTTL response timeToLive, timeToLive).

(** ** The client subnet: extension_edns0_subnet.go *)

(** [netip.AddrFromSlice] *)
Definition AddrFromSlice (b : list byte) : option Addr :=
  if (length b =? 4)%nat then Some (Addr4 (be_combine b))
  else if (length b =? 16)%nat then Some (Addr6 (be_combine b) "")
  else None.

Definition opt_options (record : RR) : option (list EDNS0) :=
  match rr_Data record with RData_OPT option => Some option | _ => None end.

Fixpoint subnet_option (options : list EDNS0) : option (Z * list byte) :=
  match options with
  | [] => None
  | EDNS0_SUBNET _ netmask address :: _ => Some (netmask, address)
  | _ :: options => subnet_option options
  end.

Fixpoint subnet_of_records (extra : list RR) : Prefix :=
  match extra with
  | [] => PrefixZero
  | record :: extra =>
      match opt_options record with
      | None => subnet_of_records extra
      | Some options =>
          match subnet_option options with
          | None => subnet_of_records extra
          | Some (netmask, address) =>
              match AddrFromSlice address with
              | None => PrefixZero
              | Some a => PrefixFrom (Addr_Unmap a) netmask
              end
          end
      end
  end.
Definition clientSubnetFromMessage (message : Msg) : Prefix := subnet_of_records (msg_Extra message).

Definition without_option (code : Z) (record : RR) : RR :=
  match rr_Data record with
  | RData_OPT options => rr_set_Data record (RData_OPT (filter (λ e, EDNS0_Option e ≠ code) options))
  | _ => record
  end.

(** [removeClientSubnet]; a message without the option is the same afterwards. *)
Definition removeClientSubnet (message : Msg) : Msg :=
  msg_set_Extra message (map (without_option 8) (msg_Extra message)).
Definition stripDNSPadding (response : Msg) : Msg :=
  msg_set_Extra response (map (without_option 12) (msg_Extra response)).

(** The loop [findExists] of [setClientSubnet]: the OPT record it ends with, by its
    index, and whether its subnet option was found. A record that is not OPT makes the
    variable nil again. *)
Fixpoint find_opt (i : nat) (extra : list RR) (found : option nat) : option nat * bool :=
  match extra with
  | [] => (found, false)
  | record :: extra =>
      match opt_options record with
      | None => find_opt (S i) extra None
      | Some options => match subnet_option options with
                        | Some _ => (Some i, true)
                        | None => find_opt (S i) extra (Some i)
                        end
      end
  end.

Definition subnet_value (clientSubnet : Prefix) : EDNS0 :=
  EDNS0_SUBNET (if Addr_Is4 (Prefix_Addr clientSubnet) then 1 else 2) (Prefix_Bits clientSubnet `mod` 256)
    (Addr_AsSlice (Prefix_Addr clientSubnet)).

Fixpoint replace_subnet (v : EDNS0) (options : list EDNS0) : list EDNS0 :=
  match options with
  | [] => []
  | EDNS0_SUBNET _ _ _ :: options => v :: options
  | e :: options => e :: replace_subnet v options
  end.

Definition SetClientSubnet (message : Msg) (clientSubnet : Prefix) : Msg :=
  let v := subnet_value clientSubnet in
  match find_opt 0 (msg_Extra message) None with
  | (None, _) => msg_set_Extra message (msg_Extra message ++ [MkRR "." 0 0 (RData_OPT [v])])
  | (Some i, exists_) =>
      msg_set_Extra message
        (alter (λ record, match rr_Data record with
                          | RData_OPT options =>
                              rr_set_Data record (RData_OPT (if exists_ then replace_subnet v options else options ++ [v]))
                          | _ => record
                          end) i (msg_Extra message))
  end.

(** ** Keys *)

Record dnsCacheKey : Type := MkCacheKey {
  ck_Question : Question;
  ck_transportTag : string;
  ck_clientSubnet : Prefix;
  ck_environment : Z;
}.

#[export] Instance Question_eq_dec : EqDecision Question.
Proof. solve_decision. Defined.
#[export] Instance dnsCacheKey_eq_dec : EqDecision dnsCacheKey.
Proof. solve_decision. Defined.

(** [strconv.FormatUint] in base 36; 14 digits are enough for 64 bits. *)
Definition digit36 (d : Z) : string :=
  String (Ascii.ascii_of_nat (Z.to_nat (if d <? 10 then 48 + d else 87 + d))) EmptyString.
Fixpoint format36 (fuel : nat) (z : Z) (acc : string) : string :=
  match fuel with
  | O => acc
  | S fuel =>
      let acc := (digit36 (z `mod` 36) +:+ acc)%string in
      if z / 36 =? 0 then acc else format36 fuel (z / 36) acc
  end.

Definition ascii_string (code : nat) : string := String (Ascii.ascii_of_nat code) EmptyString.

Definition persistentName (k : dnsCacheKey) : string :=
  (ck_transportTag k +:+
   (if Prefix_IsValid (ck_clientSubnet k) then ascii_string 0 +:+ Prefix_String (ck_clientSubnet k) else "") +:+
   (if Z.eqb (ck_environment k) 0 then "" else ascii_string 1 +:+ format36 14 (ck_environment k) ""))%string.

(** FNV-1a with 64 bits *)
Definition fnv_byte (h : Z) (b : byte) : Z := (Z.lxor h (Z.of_N (Byte.to_N b)) * 1099511628211) `mod` 2 ^ 64.
Definition fnv_bytes (h : Z) (l : list byte) : Z := fold_left fnv_byte l h.
Definition fnv_offset : Z := 14695981039346656037.

(** [environmentHash]: [None] when the transport has no environment. *)
Definition environmentHash (environment : option (list string)) (networkEnvironment : Z) : Z :=
  match environment with
  | None => 0
  | Some [] => networkEnvironment
  | Some l =>
      fnv_bytes
        (fold_left (λ h entry, fnv_bytes h (String.list_byte_of_string entry ++ [x00])) l fnv_offset)
        (be_split 8 networkEnvironment)
  end.

(** ** The client *)

(** [freelru.Cache]: a value that is found was stored under its key and not replaced;
    values may be dropped at any time. *)
Class LRU (C : Type) : Type := {
  lru_Get : C → dnsCacheKey → option (Msg * Z);
  lru_Add : C → dnsCacheKey → Msg → Z → C;
  lru_Remove : C → dnsCacheKey → C;
  lru_empty : C;
  lru_Get_Add : ∀ c k m e k' v, lru_Get (lru_Add c k m e) k' = Some v → k' = k ∧ v = (m, e) ∨ k' ≠ k ∧ lru_Get c k' = Some v;
  lru_Get_Remove : ∀ c k k' v, lru_Get (lru_Remove c k) k' = Some v → lru_Get c k' = Some v;
  lru_Get_empty : ∀ k, lru_Get lru_empty k = None;
}.

Section client.
Context `{Extern} `{Edns} {C : Type} `{!LRU C}.

(** The fields of [Client] that do not change. *)
Record ClientConfig : Type := MkClientConfig {
  cc_timeout : Z;
  cc_disableCache : bool;
  cc_disableExpire : bool;
  cc_optimisticTimeout : Z;
  cc_clientSubnet : Prefix;
}.

(** What a server answers: a message, an error that is a code, another error. *)
Inductive answer : Type :=
| AnswerMsg (m : Msg)
| AnswerRcode (rcode : Z)
| AnswerErr (e : error).

(** The state: the cache in memory or the store on disk, the store of rejected
    responses, the keys that are being refreshed, the time, and how many exchanges with
    servers and how many calls there were. *)
Record World : Type := MkWorld {
  w_cache : option C;
  w_dnsCache : option (gmap (string * string * Z) (list byte * Z));
  w_rdrc : option (gset (string * string * Z));
  w_refresh : list dnsCacheKey;
  w_now : Z;
  w_asked : nat;
  w_calls : nat;
}.

Definition set_caches (c : option C) (d : option (gmap (string * string * Z) (list byte * Z))) (w : World) : World :=
  MkWorld c d (w_rdrc w) (w_refresh w) (w_now w) (w_asked w) (w_calls w).
Definition set_rdrc (r : option (gset (string * string * Z))) (w : World) : World :=
  MkWorld (w_cache w) (w_dnsCache w) r (w_refresh w) (w_now w) (w_asked w) (w_calls w).
Definition set_refresh (r : list dnsCacheKey) (w : World) : World :=
  MkWorld (w_cache w) (w_dnsCache w) (w_rdrc w) r (w_now w) (w_asked w) (w_calls w).
Definition set_time (now : Z) (asked calls : nat) (w : World) : World :=
  MkWorld (w_cache w) (w_dnsCache w) (w_rdrc w) (w_refresh w) now asked calls.

(** The context of a call: its error, the transports it is below of, and, when another
    exchange on the key is under way, how the wait for it ends: with the error of the
    context, or with what the others did meanwhile. *)
Record Call : Type := MkCall {
  call_ctxErr : option error;
  call_stack : list string;
  call_wait : option (option error * (World → World));
}.

(** The servers, by the number of exchanges before; how long an exchange takes; the
    environment of a transport; the calls. *)
Record Net : Type := MkNet {
  net_exchange : nat → DNSTransport → Msg → answer;
  net_elapsed : nat → Z;
  net_environment : nat → DNSTransport → option (list string);
  net_networkEnvironment : nat → Z;
  net_call : nat → Call;
}.
(** [group_Run] is [task.Group.Run] of sing on the errors of two tasks. *)
Context (cc : ClientConfig) (net : Net) (group_Run : option error → option error → option error).

(** [NewClient] with [Start] *)
Definition NewClient (timeout : Z) (disableCache disableExpire : bool) (optimisticTimeout : Z) (clientSubnet : Prefix)
    : ClientConfig :=
  MkClientConfig (if timeout =? 0 then 10 * 10 ^ 9 else timeout) disableCache disableExpire optimisticTimeout clientSubnet.

Definition client_environment (w : World) (transport : DNSTransport) : Z :=
  environmentHash (net_environment net (w_asked w) transport) (net_networkEnvironment net (w_asked w)).

Definition newCacheKey (w : World) (transport : DNSTransport) (question : Question) (message : Msg) (o : DNSQueryOptions)
    : dnsCacheKey :=
  let clientSubnet :=
    if qo_RemoveClientSubnet o then PrefixZero
    else if Prefix_IsValid (qo_ClientSubnet o) then qo_ClientSubnet o
    else if Prefix_IsValid (cc_clientSubnet cc) then cc_clientSubnet cc
    else clientSubnetFromMessage message in
  MkCacheKey question (dt_Tag transport) clientSubnet (client_environment w transport).

Definition finishCacheKey (w : World) (transport : DNSTransport) (key : dnsCacheKey) : option dnsCacheKey :=
  let environment := client_environment w transport in
  if (environment =? ck_environment key) || (ck_environment key =? 0)
  then Some (MkCacheKey (ck_Question key) (ck_transportTag key) (ck_clientSubnet key) environment)
  else None.

(** ** The cache *)

Definition time_Second : Z := 10 ^ 9.

(** What is left of a response that expires at [expireAt]: the response with its times
    to live, the time left in seconds and whether it is stale; [None] when it is over. *)
Definition live_response (now : Z) (response : Msg) (expireAt : Z) : option (Msg * Z * bool) :=
  if expireAt <? now then
    if (0 <? cc_optimisticTimeout cc) && (now <? expireAt + cc_optimisticTimeout cc)
    then Some (normalizeTTL response 1, 0, true) else None
  else
    let nowTTL := Z.max ((expireAt - now) / time_Second) 0 in
    Some (normalizeTTL response nowTTL, nowTTL, false).

Definition store_name (key : dnsCacheKey) : string * string * Z :=
  (persistentName key, q_Name (ck_Question key), q_Qtype (ck_Question key)).

Definition loadPersistentResponse (store : gmap (string * string * Z) (list byte * Z)) (now : Z) (key : dnsCacheKey)
    : option (Msg * Z * bool) :=
  match store !! store_name key with
  | None => None
  | Some (rawMessage, expireAt) =>
      match Msg_Unpack rawMessage with
      | None => None
      | Some response => if cc_disableExpire cc then Some (response, 0, false) else live_response now response expireAt
      end
  end.

(** [loadResponse]: a response in memory that is over is removed. *)
Definition loadResponse (w : World) (key : dnsCacheKey) : option (Msg * Z * bool) * World :=
  match w_dnsCache w with
  | Some store => (loadPersistentResponse store (w_now w) key, w)
  | None =>
      match w_cache w with
      | None => (None, w)
      | Some cache =>
          match lru_Get cache key with
          | None => (None, w)
          | Some (response, expireAt) =>
              if cc_disableExpire cc then (Some (response, 0, false), w)
              else match live_response (w_now w) response expireAt with
                   | Some r => (Some r, w)
                   | None => (None, set_caches (Some (lru_Remove cache key)) None w)
                   end
          end
      end
  end.

Definition storeCache (w : World) (key : dnsCacheKey) (message : Msg) (timeToLive : Z) : World :=
  if timeToLive =? 0 then w
  else
    let expireAt := w_now w + time_Second * timeToLive in
    match w_dnsCache w with
    | Some store =>
        match Msg_Pack message with
        | Some packed => set_caches (w_cache w) (Some (<[store_name key := (packed, expireAt)]> store)) w
        | None => w
        end
    | None =>
        match w_cache w with
        | None => w
        | Some cache => set_caches (Some (lru_Add cache key message expireAt)) None w
        end
    end.

(** [ClearCache] *)
Definition ClearCache (w : World) : World :=
  set_caches (match w_cache w with Some _ => Some lru_empty | None => None end)
    (match w_dnsCache w with Some _ => Some ∅ | None => None end) w.

(** ** Exchanging *)

Definition prepareExchangeMessage (message : Msg) (o : DNSQueryOptions) : Msg :=
  if qo_RemoveClientSubnet o then removeClientSubnet message
  else
    let clientSubnet := if Prefix_IsValid (qo_ClientSubnet o) then qo_ClientSubnet o else cc_clientSubnet cc in
    if Prefix_IsValid clientSubnet then SetClientSubnet message clientSubnet else message.

(** A request with one question and at most an OPT record with subnets. *)
Definition isSimpleRequest (message : Msg) : bool :=
  (length (msg_Question message) =? 1)%nat && negb (has_items (msg_Ns message)) &&
  match msg_Extra message with
  | [] => true
  | [record] =>
      match rr_Data record with
      | RData_OPT options =>
          (0 <? rr_Class record) && (rr_Ttl record =? 0) && forallb (λ e, EDNS0_Option e =? 8) options
      | _ => false
      end
  | _ => false
  end.

Record exchangeOperation : Type := MkOperation {
  op_message : Msg;
  op_question : Question;
  op_options : DNSQueryOptions;
  op_responseChecker : option (Msg → bool);
  op_disableCache : bool;
  op_cacheKey : dnsCacheKey;
}.

Inductive begun : Type :=
| exchangeReady (operation : exchangeOperation)
| exchangeDone (response : option Msg) (err : option error)
| exchangeWait.

(** The start of [backgroundRefreshDNS]: one refresh of a key at a time. *)
Definition startRefresh (key : dnsCacheKey) (w : World) : World :=
  if mem key (w_refresh w) then w else set_refresh (key :: w_refresh w) w.

(** A response of the cache, if there is one to use. *)
Definition use_cached (w : World) (key : dnsCacheKey) (message : Msg) (o : DNSQueryOptions)
    (responseChecker : option (Msg → bool)) : option (option Msg * option error) * World :=
  let '(loaded, w) := loadResponse w key in
  match loaded with
  | Some (response, _, isStale) =>
      if negb isStale || negb (qo_DisableOptimisticCache o) then
        let w := if isStale then startRefresh key w else w in
        let accepted := match responseChecker with Some check => check response | None => true end in
        (Some (if accepted then (Some (msg_set_Id response (msg_Id message)), None)
               else (None, Some ErrResponseRejectedCached)), w)
      else (None, w)
  | None => (None, w)
  end.

Definition rdrc_key (transport : DNSTransport) (question : Question) : string * string * Z :=
  (dt_Tag transport, q_Name question, q_Qtype question).

(** The end of [beginExchange]: the store of rejected responses. *)
Definition beginExchange_end (w : World) (transport : DNSTransport) (operation : exchangeOperation) : World * begun :=
  let rejected := match op_responseChecker operation, w_rdrc w with
                  | Some _, Some rdrc => negb (op_disableCache operation) &&
                                         bool_decide (rdrc_key transport (op_question operation) ∈ rdrc)
                  | _, _ => false
                  end in
  (w, if rejected then exchangeDone None (Some ErrResponseRejectedCached) else exchangeReady operation).

Definition loop_error (stack : list string) (tag : string) : error :=
  ENew ("DNS resolution loop detected: " +:+ String.concat " -> " (stack ++ [tag]))%string.

Definition beginExchange (call : Call) (w : World) (transport : DNSTransport) (message : Msg) (o : DNSQueryOptions)
    (responseChecker : option (Msg → bool)) (allowWait : bool) : World * begun :=
  match call_ctxErr call with
  | Some e => (w, exchangeDone None (Some e))
  | None =>
      if mem (dt_Tag transport) (call_stack call)
      then (w, exchangeDone None (Some (loop_error (call_stack call) (dt_Tag transport))))
      else match msg_Question message with
      | [] => (w, exchangeDone (Some (FixedResponseStatus message 1)) None)
      | question :: _ =>
          if strategy_rejects message o then (w, exchangeDone (Some (FixedResponseStatus message 0)) None)
          else
            let disableCache := negb (isSimpleRequest message) || cc_disableCache cc || qo_DisableCache o in
            let message := prepareExchangeMessage message o in
            let key := newCacheKey w transport question message o in
            let operation := MkOperation message question o responseChecker disableCache in
            if disableCache then beginExchange_end w transport (operation key)
            else
              let '(cached, w) := use_cached w key message o responseChecker in
              match cached with
              | Some (response, err) => (w, exchangeDone response err)
              | None =>
                  match call_wait call with
                  | None => beginExchange_end w transport (operation key)
                  | Some (waitErr, meanwhile) =>
                      if negb allowWait then (w, exchangeWait)
                      else match waitErr with
                      | Some e => (w, exchangeDone None (Some e))
                      | None =>
                          let w := meanwhile w in
                          let key := newCacheKey w transport question message o in
                          let '(cached, w) := use_cached w key message o responseChecker in
                          match cached with
                          | Some (response, err) => (w, exchangeDone response err)
                          | None => beginExchange_end w transport (operation key)
                          end
                      end
                  end
              end
      end
  end.

(** A code that the caches take: success 0, no such name 3. *)
Definition cacheable (response : Msg) : bool := (msg_Rcode response =? 0) || (msg_Rcode response =? 3).

(** The OPT record of a response to a request without one, or with an older version, is
    left out. *)
Definition fit_edns (request response : Msg) : Msg :=
  match Msg_IsEdns0 response with
  | None => response
  | Some responseOpt =>
      let older := match Msg_IsEdns0 request with
                   | None => true
                   | Some requestOpt => OPT_Version requestOpt <? OPT_Version responseOpt
                   end in
      if older then
        let kept := List.filter (λ r, negb (rr_Rrtype r =? TypeOPT)) (msg_Extra response) in
        msg_set_Extra response
          (match Msg_IsEdns0 request with
           | Some _ => kept ++ [edns0_record (OPT_UDPSize responseOpt) (OPT_Do responseOpt)]
           | None => kept
           end)
      else response
  end.

Definition finishExchange (w : World) (transport : DNSTransport) (operation : exchangeOperation) (response : Msg)
    : World * (option Msg * option error) :=
  let question := op_question operation in
  let disableCache := op_disableCache operation || negb (cacheable response) in
  let rejected := match op_responseChecker operation with
                  | Some check => negb (cacheable response) || negb (check response)
                  | None => false
                  end in
  if rejected then
    (if disableCache then w
     else set_rdrc (match w_rdrc w with Some s => Some ({[rdrc_key transport question]} ∪ s) | None => None end) w,
     (Some response, Some ErrResponseRejected))
  else
    let '(response, timeToLive) := applyResponseOptions question response (op_options operation) in
    let w := if disableCache then w
             else match finishCacheKey w transport (op_cacheKey operation) with
                  | Some key => storeCache w key response timeToLive
                  | None => w
                  end in
    (w, (Some (fit_edns (op_message operation) (msg_set_Id response (msg_Id (op_message operation)))), None)).

(** [failures.failed] marks the error of a server, with a logger; an error the caller
    gave up for, or one that is marked, stays. *)
Definition loggedFailure (e : error) : error := EExtend e "dns.loggedFailure".
Fixpoint IsLoggedFailure (e : error) : bool :=
  match e with
  | EExtend cause message => bool_decide (message = "dns.loggedFailure"%string) || IsLoggedFailure cause
  | ECause cause _ => IsLoggedFailure cause
  | EJoin first other => IsLoggedFailure first || IsLoggedFailure other
  | _ => false
  end.
Definition failed_error (e : error) : error :=
  if errors_Is e "context.Canceled" || IsLoggedFailure e then e else loggedFailure e.

(** [exchangeToTransport] *)
Definition exchangeToTransport (w : World) (transport : DNSTransport) (message : Msg) : World * (option Msg * option error) :=
  let n := w_asked w in
  (set_time (w_now w + net_elapsed net n) (S n) (w_calls w) w,
   match net_exchange net n transport message with
   | AnswerMsg m => (Some (stripDNSPadding m), None)
   | AnswerRcode rcode => (Some (FixedResponseStatus message rcode), None)
   | AnswerErr e => (None, Some (failed_error e))
   end).

Definition with_timeout (o : DNSQueryOptions) : DNSQueryOptions :=
  if qo_Timeout o =? 0 then qset_answer (qo_RewriteTTL o) (cc_timeout cc) o else o.

(** [Exchange] *)
Definition Client_Exchange (w : World) (transport : DNSTransport) (message : Msg) (o : DNSQueryOptions)
    (responseChecker : option (Msg → bool)) : World * (option Msg * option error) :=
  let call := net_call net (w_calls w) in
  let w := set_time (w_now w) (w_asked w) (S (w_calls w)) w in
  match beginExchange call w transport message (with_timeout o) responseChecker true with
  | (w, exchangeDone response err) => (w, (response, err))
  | (w, exchangeWait) => (w, (None, None))
  | (w, exchangeReady operation) =>
      match exchangeToTransport w transport (op_message operation) with
      | (w, (Some response, None)) => finishExchange w transport operation response
      | (w, (_, err)) => (w, (None, err))
      end
  end.

(** [ExchangeAsync]: what its callback is given. An exchange that would wait for another one
    is made again, in a goroutine. *)
Definition Client_ExchangeAsync (w : World) (transport : DNSTransport) (message : Msg) (o : DNSQueryOptions)
    (responseChecker : option (Msg → bool)) : World * (option Msg * option error) :=
  let o := with_timeout o in
  let call := net_call net (w_calls w) in
  let w := set_time (w_now w) (w_asked w) (S (w_calls w)) w in
  match beginExchange call w transport message o responseChecker false with
  | (w, exchangeDone response err) => (w, (response, err))
  | (w, exchangeWait) => Client_Exchange w transport message o responseChecker
  | (w, exchangeReady operation) =>
      match exchangeToTransport w transport (op_message operation) with
      | (w, (Some response, None)) => finishExchange w transport operation response
      | (w, (_, err)) => (w, (None, err))
      end
  end.

(** ** Looking up addresses *)

Definition domain_of_fqdn (fqdn : string) : string :=
  if dns_IsFqdn fqdn then String.substring 0 (String.length fqdn - 1) fqdn else fqdn.

Definition ErrNotCached : error := ENamed "dns.ErrNotCached".

Definition lookup_message (name : string) (qType : Z) : Msg :=
  MkMsg (MkMsgHdr 0 false false true false 0) [MkQuestion name qType 1] [] [] [].

(** The addresses of a response, or its code as an error. *)
Definition response_addresses (response : Msg) : list Addr * option error :=
  if msg_Rcode response =? 0 then (DNSResponseAddresses (Some response), None)
  else ([], Some (RcodeError (msg_Rcode response))).

(** [questionCache]; [None] is [ErrNotCached]. *)
Definition questionCache (w : World) (transport : DNSTransport) (question : Question) (message : Msg) (o : DNSQueryOptions)
    (responseChecker : option (Msg → bool)) : World * option (list Addr * option error) :=
  let key := newCacheKey w transport question message o in
  let '(loaded, w) := loadResponse w key in
  match loaded with
  | None => (w, None)
  | Some (response, _, isStale) =>
      if isStale && qo_DisableOptimisticCache o then (w, None)
      else
        let w := if isStale then startRefresh key w else w in
        let accepted := match responseChecker with Some check => check response | None => true end in
        (w, Some (if accepted then response_addresses response else ([], Some ErrResponseRejectedCached)))
  end.

Definition lookupToExchange (w : World) (transport : DNSTransport) (name : string) (qType : Z) (o : DNSQueryOptions)
    (responseChecker : option (Msg → bool)) : World * (list Addr * option error) :=
  let question := MkQuestion name qType 1 in
  let message := lookup_message name qType in
  let '(w, cached) := if cc_disableCache cc || qo_DisableCache o then (w, None)
                      else questionCache w transport question message o responseChecker in
  match cached with
  | Some r => (w, r)
  | None =>
      match Client_Exchange w transport message o responseChecker with
      | (w, (_, Some e)) => (w, ([], Some e))
      | (w, (Some response, None)) => (w, response_addresses response)
      | (w, (None, None)) => (w, ([], None))
      end
  end.

Definition sortAddresses (response4 response6 : list Addr) (strategy : Z) : list Addr :=
  if strategy =? DomainStrategyPreferIPv6 then response6 ++ response4 else response4 ++ response6.

(** [Lookup]; the two queries of a lookup run one after the other. *)
Definition Client_Lookup (w : World) (transport : DNSTransport) (domain : string) (o : DNSQueryOptions)
    (responseChecker : option (Msg → bool)) : World * (list Addr * option error) :=
  let dnsName := dns_Fqdn (domain_of_fqdn domain) in
  let fromLookup := negb (qo_LookupStrategy o =? DomainStrategyAsIS) in
  let strategy := if fromLookup then qo_LookupStrategy o else qo_Strategy o in
  let lookupOptions := if fromLookup then qset_Strategy strategy o else o in
  if strategy =? DomainStrategyIPv4Only then lookupToExchange w transport dnsName 1 lookupOptions responseChecker
  else if strategy =? DomainStrategyIPv6Only then lookupToExchange w transport dnsName 28 lookupOptions responseChecker
  else
    let '(w, (a4, e4)) := lookupToExchange w transport dnsName 1 lookupOptions responseChecker in
    let '(w, (a6, e6)) := lookupToExchange w transport dnsName 28 lookupOptions responseChecker in
    let response4 := match e4 with None => a4 | Some _ => [] end in
    let response6 := match e6 with None => a6 | Some _ => [] end in
    if negb (has_items response4) && negb (has_items response6) then (w, ([], group_Run e4 e6))
    else (w, (sortAddresses response4 response6 strategy, None)).

(** ** Refreshing in the background *)

(** The body of the goroutine of [backgroundRefreshDNS]. *)
Definition backgroundRefreshDNS (w : World) (transport : DNSTransport) (key : dnsCacheKey) (message : Msg)
    (o : DNSQueryOptions) (responseChecker : option (Msg → bool)) : World :=
  let '(w, answer) := exchangeToTransport w transport message in
  let w := set_refresh (List.filter (λ k, negb (bool_decide (k = key))) (w_refresh w)) w in
  match answer with
  | (Some response, None) =>
      match responseChecker with
      | Some check =>
          if negb (cacheable response) || negb (check response) then
            set_rdrc (match w_rdrc w with
                      | Some s => Some ({[rdrc_key transport (ck_Question key)]} ∪ s)
                      | None => None
                      end) w
          else match finishCacheKey w transport key with
               | Some storeKey =>
                   let '(response, timeToLive) := applyResponseOptions (ck_Question key) response o in
                   storeCache w storeKey response timeToLive
               | None => w
               end
      | None =>
          if negb (cacheable response) then w
          else match finishCacheKey w transport key with
               | Some storeKey =>
                   let '(response, timeToLive) := applyResponseOptions (ck_Question key) response o in
                   storeCache w storeKey response timeToLive
               | None => w
               end
      end
  | _ => w
  end.
End client.
