(* ===== verification/DnsClientFacts.v ===== *)
(** * The DNS client: what its callers rely on

    The client keeps the promise the router asks for ([DNSClient]); a response it
    returns, from the cache or from a server, is one that a server of the same tag gave
    to the same question; the times to live of responses. *)
From Stdlib Require Import Strings.Byte.
From stdpp Require Import base list gmap strings.
From S2P Require Import Prelude Netip Metadata RuleItems RuleAction RuleMatch SrsCodec DnsRouter DnsClient.

(** ** Derived responses *)

Section derived.
Context `{Extern} `{Edns}.

Definition same_answer (r0 r : Msg) : Prop :=
  msg_Rcode r = msg_Rcode r0 ∧ map rr_Data (msg_Answer r) = map rr_Data (msg_Answer r0).

Lemma record_addresses_data r r' : rr_Data r = rr_Data r' → record_addresses r = record_addresses r'.
Proof. unfold record_addresses. by intros ->. Qed.

Lemma same_answer_addresses r0 r :
  same_answer r0 r → DNSResponseAddresses (Some r) = DNSResponseAddresses (Some r0).
Proof.
  intros [Hc Ha]. cbn. rewrite Hc. destruct (_ =? 0); [|done]. f_equal.
  revert Ha. generalize (msg_Answer r0). induction (msg_Answer r) as [|x l IH]; intros [|y k] E; try done.
  injection E as E1 E2. cbn. by rewrite (record_addresses_data _ _ E1), (IH k E2).
Qed.

Lemma same_answer_derived r0 r : same_answer r0 r → derived r0 r.
Proof. intros Hs. split; [apply Hs|]. rewrite (same_answer_addresses _ _ Hs). apply incl_refl. Qed.

Lemma derived_refl r : derived r r.
Proof. split; [done|apply incl_refl]. Qed.
Lemma derived_trans r0 r1 r2 : derived r0 r1 → derived r1 r2 → derived r0 r2.
Proof. intros [E1 I1] [E2 I2]. split; [congruence|]. by eapply incl_tran. Qed.

Lemma normalizeTTL_same r ttl : same_answer r (normalizeTTL r ttl).
Proof.
  split; [done|]. cbn. rewrite map_map. apply map_ext. intros x. unfold normalize_record. by destruct (_ =? _).
Qed.
Lemma set_Id_same r id : same_answer r (msg_set_Id r id).
Proof. done. Qed.
Lemma set_Extra_same r extra : same_answer r (msg_set_Extra r extra).
Proof. done. Qed.
Lemma fit_edns_same request r : same_answer r (fit_edns request r).
Proof. unfold fit_edns. by repeat case_match. Qed.

Lemma filter_hints_incl strategy r : incl (record_addresses (filter_hints strategy r)) (record_addresses r).
Proof.
  unfold filter_hints, record_addresses. destruct (rr_Data r) eqn:E; cbn; rewrite ?E; try apply incl_refl.
  intros a. rewrite !in_concat. intros (l & Hl & Ha). apply in_map_iff in Hl as (v & <- & Hv).
  apply filter_In in Hv as [Hv _]. exists (hint_addresses v). split; [by apply List.in_map|done].
Qed.

Lemma filter_hints_derived strategy r :
  derived r (msg_with r (msg_Id r) (map (filter_hints strategy) (msg_Answer r)) (msg_Ns r) (msg_Extra r)).
Proof.
  split; [done|]. unfold DNSResponseAddresses, msg_Rcode, msg_with. cbn [msg_Hdr hdr_Rcode msg_Answer].
  destruct (_ =? 0); [|apply incl_refl]. rewrite map_map. intros a. rewrite !in_concat.
  intros (l & Hl & Ha). apply in_map_iff in Hl as (x & <- & Hx). exists (record_addresses x).
  split; [by apply List.in_map|]. by apply (filter_hints_incl strategy).
Qed.

Lemma applyResponseOptions_derived question r o : derived r (applyResponseOptions question r o).1.
Proof.
  unfold applyResponseOptions. destruct (_ && _); cbn [fst].
  - eapply derived_trans; [apply filter_hints_derived|]. apply same_answer_derived, normalizeTTL_same.
  - apply same_answer_derived, normalizeTTL_same.
Qed.
End derived.

(** ** What an exchange returns *)

Section exchange.
Context `{Extern} `{Edns} {C : Type} `{!LRU C}.
Context (cc : ClientConfig) (net : Net (C := C)).

Definition accepts (checker : option (Msg → bool)) (r : Msg) : Prop :=
  match checker with Some check => check r = true | None => True end.

(** A key of a request to a transport: its environment may be any. *)
Definition request_key (t : DNSTransport) (q : Question) (message : Msg) (o : DNSQueryOptions) (key : dnsCacheKey) : Prop :=
  ∃ w, key = newCacheKey cc net w t q message o.

(** A response of the cache that is used has passed the check. *)
Lemma use_cached_inv w key message o checker r err w' :
  use_cached cc w key message o checker = (Some (r, err), w') → err = None →
  ∃ r0 ttl stale, (loadResponse cc w key).1 = Some (r0, ttl, stale) ∧ r = Some (msg_set_Id r0 (msg_Id message)) ∧
    accepts checker r0.
Proof.
  unfold use_cached, accepts. intros E ->. destruct (loadResponse cc w key) as [[[[r0 ttl] stale]|] w1]; [|done].
  exists r0, ttl, stale. destruct (_ || _); [|done]. split; [done|].
  destruct checker as [check|]; [destruct (check r0) eqn:Ec|]; by simplify_eq.
Qed.

(** How the start of an exchange ends, for a property [S] of the states on the way and a
    property [cached] of the responses that are found there. *)
Section begin.
Context (S : World (C := C) → Prop) (cached : dnsCacheKey → Msg → Prop).
Context (load_S : ∀ w key, S w → S (loadResponse cc w key).2).
Context (refresh_S : ∀ w r, S w → S (set_refresh r w)).
Context (load_cached : ∀ w key r ttl stale, S w → (loadResponse cc w key).1 = Some (r, ttl, stale) → cached key r).
Context (t : DNSTransport) (m : Msg) (o : DNSQueryOptions) (checker : option (Msg → bool)).

Let message : Msg := prepareExchangeMessage cc m o.

Definition cache_hit (q : Question) (r : Msg) : Prop :=
  ∃ key r0, request_key t q message o key ∧ cached key r0 ∧ r = msg_set_Id r0 (msg_Id message) ∧ accepts checker r0.

Definition begun_ok (b : begun) : Prop :=
  match b with
  | exchangeWait => False
  | exchangeReady op =>
      op_responseChecker op = checker ∧ op_message op = message ∧ op_options op = o ∧
      head (msg_Question m) = Some (op_question op) ∧ request_key t (op_question op) message o (op_cacheKey op) ∧
      (op_disableCache op = false → isSimpleRequest m = true)
  | exchangeDone _ (Some _) => True
  | exchangeDone response None =>
      ∃ r, response = Some r ∧
        (msg_Question m = [] ∨ strategy_rejects m o = true ∧ r = FixedResponseStatus m 0 ∨
         ∃ q, head (msg_Question m) = Some q ∧ isSimpleRequest m = true ∧ cache_hit q r)
  end.

Lemma use_cached_S w key : S w → S (use_cached cc w key message o checker).2.
Proof using load_S refresh_S.
  intros Hw. unfold use_cached. pose proof (load_S w key Hw) as Hl.
  destruct (loadResponse cc w key) as [[[[r0 ttl] stale]|] w1]; [|done]. cbn [snd] in Hl.
  destruct (_ || _); [|done]. unfold startRefresh. repeat case_match; cbn [snd]; auto.
Qed.

Lemma use_cached_hit w q resp err w' :
  S w → use_cached cc w (newCacheKey cc net w t q message o) message o checker = (Some (resp, err), w') →
  head (msg_Question m) = Some q → isSimpleRequest m = true → begun_ok (exchangeDone resp err).
Proof using load_cached.
  intros Hw E Hq Hsimple. destruct err as [e|]; [done|].
  destruct (use_cached_inv _ _ _ _ _ _ _ _ E eq_refl) as (r0 & ttl & stale & Hl & -> & Ha).
  eexists; split; [done|]. right; right. exists q. split; [done|]. split; [done|].
  eexists _, r0. split; [by eexists|]. split; [|done]. by eapply load_cached.
Qed.

Lemma ready_ok w op :
  S w → begun_ok (exchangeReady op) → S (beginExchange_end w t op).1 ∧ begun_ok (beginExchange_end w t op).2.
Proof.
  intros Hw Hop. unfold beginExchange_end. split; [done|]. cbn [snd]. by destruct (match _ with Some _ => _ | None => _ end).
Qed.

Lemma beginExchange_ok call w :
  (∀ e meanwhile, call_wait call = Some (e, meanwhile) → ∀ w, S w → S (meanwhile w)) →
  S w → S (beginExchange cc net call w t m o checker true).1 ∧ begun_ok (beginExchange cc net call w t m o checker true).2.
Proof using load_S refresh_S load_cached.
  intros Hwait Hw. unfold beginExchange. destruct (call_ctxErr call); [done|]. destruct (mem _ _); [done|].
  destruct (msg_Question m) as [|q qs] eqn:Hq; [split; [done|]; eexists; by eauto|].
  assert (Hhead : head (msg_Question m) = Some q) by by rewrite Hq.
  destruct (strategy_rejects m o) eqn:Hs; [split; [done|]; eexists; by eauto|].
  fold message.
  assert (Hready : ∀ b w0, (b = false → isSimpleRequest m = true) →
            begun_ok (exchangeReady (MkOperation message q o checker b (newCacheKey cc net w0 t q message o)))).
  { intros b w0 Hb. cbn. repeat split; try done. by eexists. }
  destruct (isSimpleRequest m) eqn:Hsimple; cbn [negb orb]; [|by apply ready_ok, Hready].
  destruct (_ || _); [by apply ready_ok, Hready|].
  pose proof (use_cached_S w (newCacheKey cc net w t q message o) Hw) as Hw1.
  destruct (use_cached _ w _ _ _ _) as [[[resp err]|] w1] eqn:E1; cbn [snd] in Hw1.
  { split; [done|]. by eapply (use_cached_hit w q). }
  destruct (call_wait call) as [[[e|] meanwhile]|] eqn:Ec; [done| |by apply ready_ok, Hready].
  cbn [negb]. specialize (Hwait _ _ eq_refl w1 Hw1).
  pose proof (use_cached_S _ (newCacheKey cc net (meanwhile w1) t q message o) Hwait) as Hw2.
  destruct (use_cached _ (meanwhile w1) _ _ _ _) as [[[resp err]|] w2] eqn:E2; cbn [snd] in Hw2.
  { split; [done|]. by eapply (use_cached_hit (meanwhile w1) q). }
  by apply ready_ok, Hready.
Qed.

(** The response of a server as the client takes it. *)
Definition server_response (request : Msg) (a : answer) : option Msg :=
  match a with
  | AnswerMsg r => Some (stripDNSPadding r)
  | AnswerRcode rcode => Some (FixedResponseStatus request rcode)
  | AnswerErr _ => None
  end.

Definition answered (request : Msg) (r0 : Msg) : Prop :=
  ∃ n, server_response request (net_exchange net n t request) = Some r0.

Lemma finishExchange_response w op r0 w' response :
  finishExchange net w t op r0 = (w', (response, None)) →
  ∃ r, response = Some r ∧ derived r0 r ∧ accepts (op_responseChecker op) r0.
Proof.
  unfold finishExchange. destruct (match op_responseChecker op with Some _ => _ | None => _ end) eqn:Er; [done|].
  pose proof (applyResponseOptions_derived (op_question op) r0 (op_options op)) as Hd.
  destruct (applyResponseOptions _ r0 _) as [r1 ttl]. cbn [fst] in Hd. intros [= _ <-].
  eexists; split; [done|]. split.
  - eapply derived_trans; [apply Hd|]. apply same_answer_derived.
    apply (fit_edns_same _ (msg_set_Id r1 (msg_Id (op_message op)))).
  - unfold accepts. destruct (op_responseChecker op); [|done].
    apply orb_false_iff in Er as [_ Er]. by apply negb_false_iff in Er.
Qed.
End begin.

(** The exchanges of a client in states with [S]. *)
Section exchanges.
Context (S : World (C := C) → Prop) (cached : dnsCacheKey → Msg → Prop).
Context (load_S : ∀ w key, S w → S (loadResponse cc w key).2).
Context (refresh_S : ∀ w r, S w → S (set_refresh r w)).
Context (load_cached : ∀ w key r ttl stale, S w → (loadResponse cc w key).1 = Some (r, ttl, stale) → cached key r).
Context (time_S : ∀ w now asked calls, S w → S (set_time now asked calls w)).
Context (wait_S : ∀ n e meanwhile, call_wait (net_call net n) = Some (e, meanwhile) → ∀ w, S w → S (meanwhile w)).
Context (subnets_usable : DNSQueryOptions → Prop).
Context (finish_S : ∀ w t m o checker op r0,
  S w → subnets_usable o → begun_ok cached t m o checker (exchangeReady op) → answered t (op_message op) r0 →
  S (finishExchange net w t op r0).1).

Definition exchange_ok (t : DNSTransport) (m : Msg) (o : DNSQueryOptions) (checker : option (Msg → bool)) (r : Msg) : Prop :=
  msg_Question m = [] ∨ strategy_rejects m o = true ∧ r = FixedResponseStatus m 0 ∨
  (∃ q, head (msg_Question m) = Some q ∧ isSimpleRequest m = true ∧ cache_hit cached t m o checker q r) ∨
  (∃ r0, answered t (prepareExchangeMessage cc m o) r0 ∧ accepts checker r0 ∧ derived r0 r).

Lemma Exchange_ok w t m o checker :
  S w → subnets_usable (with_timeout cc o) →
  let '(w', (response, err)) := Client_Exchange cc net w t m o checker in
  S w' ∧ (err = None → ∃ r, response = Some r ∧ exchange_ok t m (with_timeout cc o) checker r).
Proof using load_S refresh_S load_cached time_S wait_S finish_S.
  intros Hw Huse. unfold Client_Exchange. set (w1 := set_time (w_now w) (w_asked w) _ w).
  assert (Hw1 : S w1) by by apply time_S.
  destruct (beginExchange_ok S cached load_S refresh_S load_cached t m (with_timeout cc o) checker
              (net_call net (w_calls w)) w1 (wait_S _) Hw1) as [Hw2 Hb].
  destruct (beginExchange _ _ _ _ _ _ _ _ _) as [w2 [op|response [e|]|]]; cbn [fst snd] in *; [|done| |done].
  - destruct Hb as (Hc & Hm & Ho & Hq & Hk & Hd). unfold exchangeToTransport.
    set (n := w_asked w2). set (w3 := set_time _ _ _ w2). assert (Hw3 : S w3) by by apply time_S.
    assert (Ha : ∀ r0, server_response (op_message op) (net_exchange net n t (op_message op)) = Some r0 →
                       answered t (op_message op) r0) by (intros r0 E; by exists n).
    assert (Hend : ∀ r0, answered t (op_message op) r0 →
      let '(w', (response, err)) := finishExchange net w3 t op r0 in
      S w' ∧ (err = None → ∃ r, response = Some r ∧ exchange_ok t m (with_timeout cc o) checker r)).
    { intros r0 Hr. pose proof (finish_S w3 t m (with_timeout cc o) checker op r0 Hw3 Huse) as Hf.
      specialize (Hf (conj Hc (conj Hm (conj Ho (conj Hq (conj Hk Hd))))) Hr).
      destruct (finishExchange _ _ _ _ _) as [w4 [response err]] eqn:E. cbn [fst] in Hf. split; [done|]. intros ->.
      destruct (finishExchange_response _ _ _ _ _ _ E) as (r & -> & Hr0 & Hacc). exists r. split; [done|].
      right; right; right. exists r0. rewrite <- Hc, <- Hm. done. }
    destruct (net_exchange net n t (op_message op)); [by apply Hend, Ha..|done].
  - split; [done|]. intros _. destruct Hb as (r & -> & Hb). exists r. split; [done|]. unfold exchange_ok. tauto.
Qed.
End exchanges.

(** Both forms of an exchange are the same when none is waited for. *)
Lemma ExchangeAsync_same w t m o checker :
  call_wait (net_call net (w_calls w)) = None →
  Client_ExchangeAsync cc net w t m o checker = Client_Exchange cc net w t m o checker.
Proof.
  intros Hwait. unfold Client_ExchangeAsync, Client_Exchange. set (w1 := set_time _ _ _ w).
  assert (Hb : beginExchange cc net (net_call net (w_calls w)) w1 t m (with_timeout cc o) checker false =
               beginExchange cc net (net_call net (w_calls w)) w1 t m (with_timeout cc o) checker true).
  { unfold beginExchange. rewrite Hwait. done. }
  rewrite Hb.
  destruct (beginExchange_ok (λ _, True) (λ _ _, True) (λ _ _ _, I) (λ _ _ _, I) (λ _ _ _ _ _ _ _, I) t m (with_timeout cc o)
              checker (net_call net (w_calls w)) w1 (λ _ _ _ _ _, I) I) as [_ Hok].
  by destruct (beginExchange _ _ _ _ _ _ _ _ true) as [w2 []].
Qed.
End exchange.

(** ** Client subnets

    A request that may be answered from the cache carries the subnet of its key. *)

Section subnets.
Context `{Extern} `{Edns}.

(** A prefix that an option can hold: IPv4, or IPv6 and not an IPv4 address in IPv6. *)
Definition subnet_ok (p : Prefix) : Prop :=
  match p_ip p with
  | AddrZero => False
  | Addr4 v => 0 <= v < 2 ^ 32 ∧ 0 <= p_bits p <= 32
  | Addr6 v z => 0 <= v < 2 ^ 128 ∧ z = ""%string ∧ Addr_Unmap (p_ip p) = p_ip p ∧ 0 <= p_bits p <= 128
  end.

Lemma AddrFromSlice_AsSlice p : subnet_ok p → AddrFromSlice (Addr_AsSlice (p_ip p)) = Some (p_ip p).
Proof.
  unfold subnet_ok, AddrFromSlice. destruct (p_ip p) as [|v|v z]; [done|intros [Hv _]|intros (Hv & -> & _)];
    cbn [Addr_AsSlice]; rewrite length_be_split; cbn [Nat.eqb]; by rewrite be_combine_split.
Qed.

Lemma PrefixFrom_valid a bits :
  Addr_IsValid a = true → Addr_withoutZone a = a → 0 <= bits <= Addr_BitLen a → PrefixFrom a bits = MkPrefix a bits.
Proof.
  intros Hv Hz Hb. unfold PrefixFrom. rewrite Hv, Hz, !Zle_imp_le_bool by lia. done.
Qed.

Lemma subnet_read_back p rest rr options :
  subnet_ok p → rr_Data rr = RData_OPT options →
  subnet_option options = Some (Prefix_Bits p `mod` 256, Addr_AsSlice (Prefix_Addr p)) →
  subnet_of_records (rr :: rest) = p.
Proof.
  intros Hp Hr Ho. cbn [subnet_of_records]. unfold opt_options. rewrite Hr, Ho. unfold Prefix_Addr, Prefix_Bits.
  rewrite AddrFromSlice_AsSlice by done. unfold subnet_ok in Hp. destruct p as [[|v|v z] bits]; cbn [p_ip p_bits] in *.
  - done.
  - destruct Hp as [_ Hb]. rewrite Z.mod_small by lia. by apply PrefixFrom_valid.
  - destruct Hp as (_ & -> & -> & Hb). rewrite Z.mod_small by lia. by apply PrefixFrom_valid.
Qed.

Lemma subnet_option_value p : subnet_option [subnet_value p] = Some (Prefix_Bits p `mod` 256, Addr_AsSlice (Prefix_Addr p)).
Proof. done. Qed.

Lemma subnet_option_append options p :
  subnet_option options = None →
  subnet_option (options ++ [subnet_value p]) = Some (Prefix_Bits p `mod` 256, Addr_AsSlice (Prefix_Addr p)).
Proof. by induction options as [|[] options IH]. Qed.

Lemma subnet_option_replace options p x :
  subnet_option options = Some x →
  subnet_option (replace_subnet (subnet_value p) options) = Some (Prefix_Bits p `mod` 256, Addr_AsSlice (Prefix_Addr p)).
Proof. by induction options as [|[] options IH]. Qed.

Lemma SetClientSubnet_reads m p :
  isSimpleRequest m = true → subnet_ok p → clientSubnetFromMessage (SetClientSubnet m p) = p.
Proof.
  unfold isSimpleRequest, clientSubnetFromMessage, SetClientSubnet. intros Hs Hp. apply andb_true_iff in Hs as [_ Hs].
  destruct (msg_Extra m) as [|rr [|rr' extra]]; [| |done].
  { by apply (subnet_read_back p [] _ [subnet_value p]). }
  destruct (rr_Data rr) as [| | | |options|] eqn:Hr; try done.
  cbn [find_opt]. unfold opt_options. rewrite Hr. destruct (subnet_option options) as [x|] eqn:Ho.
  - cbn [msg_set_Extra msg_with msg_Extra]. cbn [alter list_alter]. rewrite Hr.
    eapply subnet_read_back; [done|done|by eapply subnet_option_replace].
  - cbn [msg_set_Extra msg_with msg_Extra]. cbn [alter list_alter]. rewrite Hr.
    eapply subnet_read_back; [done|done|by eapply subnet_option_append].
Qed.

Lemma subnet_option_filter options : subnet_option (filter (λ e, EDNS0_Option e ≠ 8) options) = None.
Proof. induction options as [|[] options IH]; [done..|]. rewrite filter_cons. by case_decide. Qed.

Lemma removeClientSubnet_reads m : clientSubnetFromMessage (removeClientSubnet m) = PrefixZero.
Proof.
  unfold clientSubnetFromMessage, removeClientSubnet. cbn [msg_set_Extra msg_with msg_Extra].
  induction (msg_Extra m) as [|rr extra IH]; [done|]. cbn [map subnet_of_records].
  unfold opt_options, without_option at 1. destruct (rr_Data rr) eqn:Hr; rewrite ?Hr; try done.
  cbn [rr_set_Data rr_Data]. by rewrite subnet_option_filter.
Qed.

Lemma removeClientSubnet_Question m : msg_Question (removeClientSubnet m) = msg_Question m.
Proof. done. Qed.
Lemma SetClientSubnet_Question m p : msg_Question (SetClientSubnet m p) = msg_Question m.
Proof. unfold SetClientSubnet. by destruct (find_opt _ _ _) as [[]]. Qed.

Context {C : Type} (cc : ClientConfig) (net : Net (C := C)).

(** The subnets that are set can be sent. *)
Definition subnets_usable (o : DNSQueryOptions) : Prop :=
  (Prefix_IsValid (qo_ClientSubnet o) = true → subnet_ok (qo_ClientSubnet o)) ∧
  (Prefix_IsValid (cc_clientSubnet cc) = true → subnet_ok (cc_clientSubnet cc)).

Lemma prepareExchangeMessage_Question m o : msg_Question (prepareExchangeMessage cc m o) = msg_Question m.
Proof.
  unfold prepareExchangeMessage. destruct (qo_RemoveClientSubnet o); [done|].
  destruct (Prefix_IsValid _); [apply SetClientSubnet_Question|done].
Qed.

Lemma newCacheKey_subnet w t q m o :
  isSimpleRequest m = true → subnets_usable o →
  ck_clientSubnet (newCacheKey cc net w t q (prepareExchangeMessage cc m o) o) =
  clientSubnetFromMessage (prepareExchangeMessage cc m o).
Proof.
  intros Hs [Ho Hc]. unfold newCacheKey, prepareExchangeMessage. cbn [ck_clientSubnet].
  destruct (qo_RemoveClientSubnet o); [by rewrite removeClientSubnet_reads|].
  destruct (Prefix_IsValid (qo_ClientSubnet o)) eqn:E1; [rewrite E1, SetClientSubnet_reads by auto; done|].
  destruct (Prefix_IsValid (cc_clientSubnet cc)) eqn:E2; [by rewrite SetClientSubnet_reads by auto|done].
Qed.
End subnets.
