(* ===== verification/DnsCache.v ===== *)
(** * The DNS cache: where a response comes from

    Every response in the cache, and every response an exchange returns, was given by a
    server of the same tag to a request with the same question and the same client
    subnet. The client also keeps the promise the router relies on ([DNSClient]). *)
From Stdlib Require Import Strings.Byte.
From stdpp Require Import base list gmap strings.
From S2P Require Import Prelude Netip Metadata RuleItems RuleAction RuleMatch DnsRouter DnsClient DnsClientFacts.

Section origin.
Context `{Extern} `{Edns} {C : Type} `{!LRU C}.
Context (cc : ClientConfig) (net : Net (C := C)).

(** A server of the tag answered a request for the question that carried the subnet. *)
Definition served (tag : string) (q : Question) (subnet : Prefix) (r : Msg) : Prop :=
  ∃ t request r0, dt_Tag t = tag ∧ head (msg_Question request) = Some q ∧
    clientSubnetFromMessage request = subnet ∧ answered net t request r0 ∧ derived r0 r.

Definition served_key (key : dnsCacheKey) : Msg → Prop :=
  served (ck_transportTag key) (ck_Question key) (ck_clientSubnet key).

(** The invariant of the cache in memory. *)
Definition cache_ok (w : World (C := C)) : Prop :=
  w_dnsCache w = None ∧
  ∀ cache key m e, w_cache w = Some cache → lru_Get cache key = Some (m, e) → served_key key m.

Lemma served_derived tag q subnet r r' : served tag q subnet r → derived r r' → served tag q subnet r'.
Proof.
  intros (t & request & r0 & Ht & Hq & Hs & Ha & Hd) Hr. exists t, request, r0. repeat split; try done; by eapply derived_trans.
Qed.

Lemma live_response_derived now r e r' ttl stale :
  live_response cc now r e = Some (r', ttl, stale) → derived r r'.
Proof.
  unfold live_response. destruct (e <? now); [destruct (_ && _); [|done]|];
    intros [= <- _ _]; apply same_answer_derived, normalizeTTL_same.
Qed.

Lemma load_cached w key r ttl stale :
  cache_ok w → (loadResponse cc w key).1 = Some (r, ttl, stale) → served_key key r.
Proof.
  intros [Hd Hc]. unfold loadResponse. rewrite Hd. destruct (w_cache w) as [cache|] eqn:Ew; [|done].
  destruct (lru_Get cache key) as [[m e]|] eqn:Eg; [|done]. specialize (Hc _ _ _ _ eq_refl Eg).
  destruct (cc_disableExpire cc); [by intros [= <- _ _]|].
  destruct (live_response _ _ _ _) as [[[r' ttl'] stale']|] eqn:El; [|done]. intros [= -> -> ->].
  eapply served_derived; [done|]. by eapply live_response_derived.
Qed.

Lemma load_keeps w key : cache_ok w → cache_ok (loadResponse cc w key).2.
Proof.
  intros Hok. pose proof Hok as [Hd Hc]. unfold loadResponse. rewrite Hd.
  destruct (w_cache w) as [cache|] eqn:Ew; [|done]. destruct (lru_Get cache key) as [[m e]|]; [|done].
  destruct (cc_disableExpire cc); [done|]. destruct (live_response _ _ _ _); [done|].
  split; [done|]. cbn [snd w_cache set_caches]. intros ? key' m' e' [= <-] Eg. apply lru_Get_Remove in Eg. by eapply Hc.
Qed.

Lemma store_keeps w key m ttl : cache_ok w → served_key key m → cache_ok (storeCache w key m ttl).
Proof.
  intros Hok Hm. pose proof Hok as [Hd Hc]. unfold storeCache. destruct (ttl =? 0); [done|]. rewrite Hd.
  destruct (w_cache w) as [cache|] eqn:Ew; [|done]. split; [done|]. cbn [w_cache set_caches].
  intros ? key' m' e' [= <-] Eg. apply lru_Get_Add in Eg as [[-> [= -> ->]]|[_ Eg]]; [done|by eapply Hc].
Qed.

Lemma time_keeps w now asked calls : cache_ok w → cache_ok (set_time now asked calls w).
Proof. by intros [Hd Hc]. Qed.
Lemma refresh_keeps w r : cache_ok w → cache_ok (set_refresh r w).
Proof. by intros [Hd Hc]. Qed.
Lemma rdrc_keeps w r : cache_ok w → cache_ok (set_rdrc r w).
Proof. by intros [Hd Hc]. Qed.

(** What a server answered may be stored under the key of the request. *)
Lemma finish_key w w0 t q m o key' r0 r :
  isSimpleRequest m = true → subnets_usable cc o → head (msg_Question m) = Some q →
  answered net t (prepareExchangeMessage cc m o) r0 → derived r0 r →
  finishCacheKey net w t (newCacheKey cc net w0 t q (prepareExchangeMessage cc m o) o) = Some key' → served_key key' r.
Proof.
  intros Hs Ho Hq Ha Hd. unfold finishCacheKey. destruct (_ || _); [|done]. intros [= <-].
  exists t, (prepareExchangeMessage cc m o), r0. rewrite prepareExchangeMessage_Question.
  pose proof (newCacheKey_subnet cc net w0 t q m o Hs Ho). done.
Qed.

Lemma finish_keeps w t m o checker op r0 :
  cache_ok w → subnets_usable cc o → begun_ok cc net served_key t m o checker (exchangeReady op) →
  answered net t (op_message op) r0 → cache_ok (finishExchange net w t op r0).1.
Proof.
  intros Hw Ho (Hc & Hm & Hop & Hq & [w0 Hk] & Hs) Ha. unfold finishExchange.
  pose proof (applyResponseOptions_derived (op_question op) r0 (op_options op)) as Hd.
  destruct (applyResponseOptions _ _ _) as [r1 ttl]. cbn [fst] in Hd.
  destruct (match op_responseChecker op with Some _ => _ | None => _ end); cbn [fst].
  { destruct (_ || _); [done|]. by apply rdrc_keeps. }
  destruct (op_disableCache op); cbn [orb]; [done|]. destruct (negb _); [done|].
  destruct (finishCacheKey _ _ _ _) as [key'|] eqn:E; [|done]. apply store_keeps; [done|].
  rewrite Hm in Ha. rewrite Hk in E. eapply finish_key; [by apply Hs|done..].
Qed.

Context (wait_keeps : ∀ n e meanwhile, call_wait (net_call net n) = Some (e, meanwhile) →
                      ∀ w, cache_ok w → cache_ok (meanwhile w)).

Lemma usable_timeout o : subnets_usable cc o → subnets_usable cc (with_timeout cc o).
Proof. unfold with_timeout. by destruct (_ =? 0). Qed.

Lemma exchange_origin w t m o checker :
  cache_ok w → subnets_usable cc o →
  let '(w', (response, err)) := Client_Exchange cc net w t m o checker in
  cache_ok w' ∧ (err = None → ∃ r, response = Some r ∧ exchange_ok cc net served_key t m (with_timeout cc o) checker r).
Proof using wait_keeps.
  intros Hw Ho. apply (Exchange_ok cc net cache_ok served_key load_keeps refresh_keeps load_cached time_keeps
    wait_keeps (subnets_usable cc) finish_keeps); [done|by apply usable_timeout].
Qed.

(** ** The states of a client *)

Context (group_Run : option error → option error → option error).

(** The operations of the client, in any order; a refresh is one of a request that could
    be answered from the cache. *)
Inductive client_step : World (C := C) → World (C := C) → Prop :=
| step_Exchange w t m o checker : subnets_usable cc o → client_step w (Client_Exchange cc net w t m o checker).1
| step_Lookup w t domain o checker : subnets_usable cc o → client_step w (Client_Lookup cc net group_Run w t domain o checker).1
| step_refresh w w0 t q m o checker :
    isSimpleRequest m = true → subnets_usable cc o → head (msg_Question m) = Some q →
    client_step w (backgroundRefreshDNS net w t (newCacheKey cc net w0 t q (prepareExchangeMessage cc m o) o)
                     (prepareExchangeMessage cc m o) o checker)
| step_ClearCache w : client_step w (ClearCache w)
| step_time w later : 0 <= later → client_step w (set_time (w_now w + later) (w_asked w) (w_calls w) w).

Lemma Exchange_keeps w t m o checker : cache_ok w → subnets_usable cc o → cache_ok (Client_Exchange cc net w t m o checker).1.
Proof using wait_keeps.
  intros Hw Ho. pose proof (exchange_origin w t m o checker Hw Ho) as He.
  destruct (Client_Exchange _ _ _ _ _ _ _) as [w' [response err]]. apply He.
Qed.

Lemma questionCache_keeps w t q m o checker : cache_ok w → cache_ok (questionCache cc net w t q m o checker).1.
Proof.
  intros Hw. unfold questionCache. pose proof (load_keeps w (newCacheKey cc net w t q m o) Hw) as Hl.
  destruct (loadResponse _ _ _) as [[[[r ttl] stale]|] w1]; [|done]. cbn [snd] in Hl.
  destruct (_ && _); [done|]. cbn [fst]. destruct stale; [|done]. unfold startRefresh.
  destruct (mem _ _); [done|]. by apply refresh_keeps.
Qed.

Lemma lookupToExchange_keeps w t name qType o checker :
  cache_ok w → subnets_usable cc o → cache_ok (lookupToExchange cc net w t name qType o checker).1.
Proof using wait_keeps.
  intros Hw Ho. unfold lookupToExchange. set (q := MkQuestion name qType 1). set (m := lookup_message name qType).
  pose proof (questionCache_keeps w t q m o checker Hw) as Hq.
  destruct (_ || _).
  2: destruct (questionCache _ _ _ _ _ _ _ _) as [w1 [r|]]; [done|]; cbn [fst] in Hq.
  1: pose proof (Exchange_keeps w t m o checker Hw Ho) as He.
  2: pose proof (Exchange_keeps w1 t m o checker Hq Ho) as He.
  all: by destruct (Client_Exchange _ _ _ _ _ _ _) as [w2 [[r|] [e|]]].
Qed.

Lemma Lookup_keeps w t domain o checker :
  cache_ok w → subnets_usable cc o → cache_ok (Client_Lookup cc net group_Run w t domain o checker).1.
Proof using wait_keeps.
  intros Hw Ho. unfold Client_Lookup. set (lo := if negb _ then qset_Strategy _ _ else _).
  assert (Hlo : subnets_usable cc lo) by (unfold lo; by destruct (negb _)).
  clearbody lo. set (strategy := if negb _ then _ else _). clearbody strategy.
  destruct (_ =? _); [by apply lookupToExchange_keeps|]. destruct (_ =? _); [by apply lookupToExchange_keeps|].
  pose proof (λ d, lookupToExchange_keeps w t d 1 lo checker Hw Hlo) as H4.
  specialize (H4 (dns_Fqdn (domain_of_fqdn domain))).
  destruct (lookupToExchange _ _ w _ _ _ _ _) as [w4 [a4 e4]]. cbn [fst] in H4.
  pose proof (lookupToExchange_keeps w4 t (dns_Fqdn (domain_of_fqdn domain)) 28 lo checker H4 Hlo) as H6.
  destruct (lookupToExchange _ _ w4 _ _ _ _ _) as [w6 [a6 e6]]. by destruct (_ && _).
Qed.

Lemma refresh_step_keeps w w0 t q m o checker :
  isSimpleRequest m = true → subnets_usable cc o → head (msg_Question m) = Some q → cache_ok w →
  cache_ok (backgroundRefreshDNS net w t (newCacheKey cc net w0 t q (prepareExchangeMessage cc m o) o)
              (prepareExchangeMessage cc m o) o checker).
Proof.
  intros Hs Ho Hq Hw. unfold backgroundRefreshDNS, exchangeToTransport.
  set (n := w_asked w). set (key := newCacheKey _ _ _ _ _ _ _). set (w1 := set_refresh _ _).
  assert (Hw1 : cache_ok w1) by by apply refresh_keeps, time_keeps.
  assert (Hstore : ∀ r0, server_response (prepareExchangeMessage cc m o)
                           (net_exchange net n t (prepareExchangeMessage cc m o)) = Some r0 →
    cache_ok (match finishCacheKey net w1 t key with
              | Some storeKey => let '(r, ttl) := applyResponseOptions (ck_Question key) r0 o in storeCache w1 storeKey r ttl
              | None => w1 end)).
  { intros r0 Hr. destruct (finishCacheKey _ _ _ _) as [storeKey|] eqn:E; [|done].
    pose proof (applyResponseOptions_derived (ck_Question key) r0 o) as Hd.
    destruct (applyResponseOptions _ _ _) as [r ttl]. apply store_keeps; [done|].
    eapply finish_key; [done..| |apply Hd|apply E]. by exists n. }
  unfold server_response in Hstore. destruct (net_exchange _ _ _ _); [specialize (Hstore _ eq_refl)..|done].
  all: destruct checker; destruct (negb (cacheable _)); cbn [orb]; try done; try by apply rdrc_keeps.
  all: destruct (negb _); [by apply rdrc_keeps|done].
Qed.

Lemma clear_keeps w : cache_ok w → cache_ok (ClearCache w).
Proof.
  intros [Hd Hc]. unfold ClearCache. split; [by cbn; rewrite Hd|]. cbn [w_cache set_caches].
  intros cache key m e. destruct (w_cache w); [|done]. intros [= <-]. by rewrite lru_Get_empty.
Qed.

Lemma client_step_keeps w w' : client_step w w' → cache_ok w → cache_ok w'.
Proof using wait_keeps.
  destruct 1; intros Hw; eauto using Exchange_keeps, Lookup_keeps, refresh_step_keeps, clear_keeps, time_keeps.
Qed.

Lemma reachable_ok w0 w : w_dnsCache w0 = None → w_cache w0 = None ∨ w_cache w0 = Some lru_empty →
  rtc client_step w0 w → cache_ok w.
Proof using wait_keeps.
  intros Hd Hc Hr. assert (cache_ok w0) as Hw0.
  { split; [done|]. intros cache key m e E. destruct Hc as [Hc|Hc]; rewrite Hc in E; [done|].
    injection E as <-. by rewrite lru_Get_empty. }
  clear Hd Hc. revert Hw0. induction Hr; eauto using client_step_keeps.
Qed.

Lemma cache_hit_served t m o checker q r :
  isSimpleRequest m = true → subnets_usable cc o → cache_hit cc net served_key t m o checker q r →
  served (dt_Tag t) q (clientSubnetFromMessage (prepareExchangeMessage cc m o)) r ∧
  ∃ r0, accepts checker r0 ∧ derived r0 r.
Proof.
  intros Hs Ho (key & r0 & [w1 ->] & Hk & -> & Ha). unfold served_key in Hk.
  rewrite newCacheKey_subnet in Hk by done. assert (Hd : derived r0 (msg_set_Id r0 (msg_Id (prepareExchangeMessage cc m o)))).
  { apply same_answer_derived, set_Id_same. }
  split; [by eapply served_derived|]. by exists r0.
Qed.

Lemma with_timeout_prepare m o : prepareExchangeMessage cc m (with_timeout cc o) = prepareExchangeMessage cc m o.
Proof. unfold with_timeout. by destruct (_ =? 0). Qed.
Lemma with_timeout_rejects m o : strategy_rejects m (with_timeout cc o) = strategy_rejects m o.
Proof. unfold with_timeout. by destruct (_ =? 0). Qed.

Lemma exchange_served w t m o checker q questions w' response :
  cache_ok w → subnets_usable cc o → msg_Question m = q :: questions →
  Client_Exchange cc net w t m o checker = (w', (response, None)) →
  ∃ r, response = Some r ∧
    (strategy_rejects m o = true ∧ r = FixedResponseStatus m 0 ∨
     served (dt_Tag t) q (clientSubnetFromMessage (prepareExchangeMessage cc m o)) r ∧
     ∃ r0, accepts checker r0 ∧ derived r0 r).
Proof using wait_keeps.
  intros Hw Ho Hq E. pose proof (exchange_origin w t m o checker Hw Ho) as Hx. rewrite E in Hx.
  destruct Hx as [_ Hx]. destruct (Hx eq_refl) as (r & -> & Hok). exists r. split; [done|].
  destruct Hok as [Hn|[Hn|[(q' & Hh & Hsimple & Hhit)|(r0 & Ha & Hacc & Hder)]]].
  - by rewrite Hn in Hq.
  - left. by rewrite with_timeout_rejects in Hn.
  - right. rewrite Hq in Hh. injection Hh as <-. rewrite <- with_timeout_prepare.
    by apply (cache_hit_served _ _ _ checker); [|apply usable_timeout|].
  - right. split; [|by exists r0]. rewrite with_timeout_prepare in Ha. exists t, (prepareExchangeMessage cc m o), r0.
    rewrite prepareExchangeMessage_Question, Hq. done.
Qed.
End origin.

(** ** The interface of the router *)

Section interface.
Context `{Extern} `{Edns} {C : Type} `{!LRU C}.
Context (cc : ClientConfig) (net : Net (C := C)) (group_Run : option error → option error → option error).

Lemma Exchange_checked w t m o check w' response :
  msg_Question m ≠ [] → Client_Exchange cc net w t m o (Some check) = (w', (response, None)) →
  ∃ r, response = Some r ∧
    ((∃ r0, check r0 = true ∧ derived r0 r) ∨ strategy_rejects m o = true ∧ r = FixedResponseStatus m 0).
Proof.
  intros Hq E.
  pose proof (Exchange_ok cc net (λ _, True) (λ _ _, True) (λ _ _ _, I) (λ _ _ _, I) (λ _ _ _ _ _ _ _, I)
    (λ _ _ _ _ _, I) (λ _ _ _ _ _ _, I) (λ _, True) (λ _ _ _ _ _ _ _ _ _ _ _, I) w t m o (Some check) I I) as Hx.
  rewrite E in Hx. destruct Hx as [_ Hx]. destruct (Hx eq_refl) as (r & -> & Hr). exists r. split; [done|].
  destruct Hr as [Hr|[[Hs Hr]|[(q & _ & _ & Hr)|(r0 & _ & Ha & Hd)]]]; [done| | |].
  - right. by rewrite with_timeout_rejects in Hs.
  - destruct Hr as (key & r0 & _ & _ & -> & Ha). left. exists r0. split; [done|]. apply same_answer_derived, set_Id_same.
  - left. by exists r0.
Qed.

(** The client is one the router can use. *)
#[export] Instance Client : DNSClient (World (C := C)) := {|
  client_Exchange := Client_Exchange cc net;
  client_Lookup := Client_Lookup cc net group_Run;
  client_checked := Exchange_checked;
|}.
End interface.

(** ** The theorem *)

(** C7 The cache never mixes answers up. Take a client whose cache in memory was empty
    at first, after any sequence of exchanges, lookups, refreshes in the background,
    clearings and pauses. An exchange with a question that ends without an error, from
    the cache or from a server, fresh or stale, returns a response made from one that a
    server with the tag of the transport gave to a request whose first question is the
    one asked and which carried the client subnet the request is sent with; unless the
    strategy answers the question, and no matter what other exchanges did while it
    waited. If there is a check, the response was made from one that passed it. *)
Theorem Exchange_origin `{Extern} `{Edns} {C : Type} `{!LRU C} (cc : ClientConfig) (net : Net (C := C))
    (group_Run : option error → option error → option error) w0 w t m o checker q questions w' response :
  (∀ n e meanwhile, call_wait (net_call net n) = Some (e, meanwhile) →
     ∀ w, cache_ok net w → cache_ok net (meanwhile w)) →
  w_dnsCache w0 = None → w_cache w0 = None ∨ w_cache w0 = Some lru_empty →
  rtc (client_step cc net group_Run) w0 w →
  subnets_usable cc o → msg_Question m = q :: questions → strategy_rejects m o = false →
  Client_Exchange cc net w t m o checker = (w', (response, None)) →
  ∃ r, response = Some r ∧
    served net (dt_Tag t) q (clientSubnetFromMessage (prepareExchangeMessage cc m o)) r ∧
    ∃ r0, accepts checker r0 ∧ derived r0 r.
Proof.
  intros Hwait Hd Hc Hr Ho Hq Hs E.
  pose proof (reachable_ok cc net Hwait group_Run w0 w Hd Hc Hr) as Hw.
  destruct (exchange_served cc net Hwait w t m o checker q questions w' response Hw Ho Hq E) as (r & -> & [[Hn _]|Hr']).
  - by rewrite Hs in Hn.
  - by exists r.
Qed.
