(* ===== verification/DnsTtl.v ===== *)
(** * The DNS client: times to live

    The time to live of a response is the least positive one of its records, or the one
    of the negative answer; a response from the cache never outlives it. *)
From Stdlib Require Import Strings.Byte.
From stdpp Require Import base list gmap strings.
From S2P Require Import Prelude Netip Metadata RuleItems RuleAction RuleMatch DnsRouter DnsClient DnsClientFacts.

Definition is_OPT (r : RR) : bool := rr_Rrtype r =? TypeOPT.

(** Times to live are 32-bit numbers. *)
Definition ttl_wf (r : Msg) : Prop := Forall (λ x, 0 <= rr_Ttl x) (all_records r).

(** The least of a set of positive numbers; 0 of none. *)
Definition least_positive (l : list Z) (t : Z) : Prop :=
  t = 0 ∧ Forall (λ x, x <= 0) l ∨ 0 < t ∧ t ∈ l ∧ Forall (λ x, x <= 0 ∨ t <= x) l.

Lemma least_positive_cons l t x :
  least_positive l t → 0 <= x → least_positive (x :: l) (if (t =? 0) || (0 <? x) && (x <? t) then x else t).
Proof.
  intros [[-> Hl]|(Ht & Hin & Hl)] Hx.
  - cbn. destruct (decide (x = 0)) as [->|]; [left; split; [done|]; constructor; [lia|done]|].
    right. split; [lia|]. split; [set_solver|]. constructor; [lia|].
    eapply Forall_impl; [exact Hl|]. cbn. lia.
  - destruct (t =? 0) eqn:E0; [lia|]. cbn [orb]. right.
    destruct (0 <? x) eqn:E1; [destruct (x <? t) eqn:E2|]; cbn [andb].
    + split; [lia|]. split; [set_solver|]. constructor; [lia|]. eapply Forall_impl; [exact Hl|]. cbn. lia.
    + split; [lia|]. split; [set_solver|]. constructor; [lia|done].
    + split; [lia|]. split; [set_solver|]. constructor; [lia|done].
Qed.

Definition ttls (records : list RR) : list Z := map rr_Ttl (List.filter (λ r, negb (is_OPT r)) records).

Lemma least_positive_perm l l' t : (∀ x, x ∈ l ↔ x ∈ l') → least_positive l t → least_positive l' t.
Proof.
  intros Hp [[-> Hl]|(Ht & Hin & Hl)]; [left|right]; rewrite Forall_forall in Hl; (split; [done|]).
  - rewrite Forall_forall. intros x Hx. by apply Hl, Hp.
  - split; [by apply Hp|]. rewrite Forall_forall. intros x Hx. by apply Hl, Hp.
Qed.

Lemma ttl_loop_least records done_ t :
  Forall (λ x, 0 <= rr_Ttl x) records → least_positive done_ t → least_positive (done_ ++ ttls records) (ttl_loop records t).
Proof.
  intros Hr. revert done_ t. induction Hr as [|x records Hx Hr IH]; intros done_ t Ht.
  { by rewrite app_nil_r. }
  cbn [ttl_loop]. unfold ttls. cbn [List.filter]. unfold is_OPT. destruct (rr_Rrtype x =? TypeOPT); cbn [negb].
  - by apply IH.
  - cbn [map]. eapply least_positive_perm; [|apply (IH (rr_Ttl x :: done_)), least_positive_cons; [exact Ht|exact Hx]].
    intros y. cbn. rewrite !elem_of_cons, !elem_of_app, !elem_of_cons. tauto.
Qed.

(** A negative answer: no answers and an SOA record, whose time to live and minimum
    bound it. *)
Definition negative (r : Msg) : option Z :=
  if has_items (msg_Answer r) then None else extractNegativeTTL (msg_Ns r).

Lemma computeTimeToLive_least r :
  ttl_wf r → match negative r with
             | Some t => computeTimeToLive r = t
             | None => least_positive (ttls (all_records r)) (computeTimeToLive r)
             end.
Proof.
  intros Hr. unfold computeTimeToLive, negative. destruct (if has_items _ then _ else _); [done|].
  apply (ttl_loop_least _ [] 0); [done|]. left. by split.
Qed.

Lemma extractNegativeTTL_min ns t :
  extractNegativeTTL ns = Some t →
  ∃ r minttl raw, r ∈ ns ∧ rr_Data r = RData_SOA minttl raw ∧ t = Z.min (rr_Ttl r) minttl.
Proof.
  induction ns as [|r ns IH]; [done|]. cbn [extractNegativeTTL]. destruct (rr_Data r) eqn:Er.
  4:{ intros [= <-]. exists r, minttl, raw. split; [set_solver|]. split; [done|]. destruct (_ <? _) eqn:E; lia. }
  all: intros E; destruct (IH E) as (r' & mt & raw' & Hin & ? & ?); exists r', mt, raw'; (split; [set_solver|done]).
Qed.

Section cached.
Context `{Extern} `{Edns} {C : Type} `{!LRU C} (cc : ClientConfig).

Lemma filter_hints_Ttl strategy x : rr_Rrtype (filter_hints strategy x) = rr_Rrtype x ∧ rr_Ttl (filter_hints strategy x) = rr_Ttl x.
Proof. unfold filter_hints, rr_Rrtype. by destruct (rr_Data x) eqn:E; cbn; rewrite ?E. Qed.

Lemma ttl_loop_hints strategy l k t : ttl_loop (map (filter_hints strategy) l ++ k) t = ttl_loop (l ++ k) t.
Proof.
  revert t. induction l as [|x l IH]; intros t; [done|]. cbn [map app ttl_loop].
  destruct (filter_hints_Ttl strategy x) as [-> ->]. by destruct (_ =? TypeOPT).
Qed.

(** Leaving hints out does not change the time to live. *)
Lemma applyResponseOptions_ttl question r o :
  qo_RewriteTTL o = None → (applyResponseOptions question r o).2 = computeTimeToLive r.
Proof.
  intros Ho. unfold applyResponseOptions. rewrite Ho. destruct (_ && _); [|done]. cbn [snd].
  unfold computeTimeToLive, all_records. cbn [msg_with msg_Answer msg_Ns msg_Extra].
  rewrite ttl_loop_hints. by destruct (msg_Answer r).
Qed.

Lemma normalizeTTL_Ttl r t x : x ∈ all_records (normalizeTTL r t) → is_OPT x = false → rr_Ttl x = t.
Proof.
  unfold normalizeTTL, all_records. cbn [msg_with msg_Answer msg_Ns msg_Extra]. rewrite <- !map_app.
  intros (y & -> & _)%list_elem_of_fmap. unfold normalize_record, is_OPT.
  destruct (rr_Rrtype y =? TypeOPT) eqn:E; [congruence|done].
Qed.

(** What a response of the cache in memory tells of the entry. *)
Definition lives (elapsed ttl left : Z) (stale : bool) (r : Msg) : Prop :=
  if stale
  then ttl * time_Second < elapsed < ttl * time_Second + cc_optimisticTimeout cc ∧
       ∀ x, x ∈ all_records r → is_OPT x = false → rr_Ttl x = 1
  else 0 <= left ∧ elapsed + left * time_Second <= ttl * time_Second ∧
       ∀ x, x ∈ all_records r → is_OPT x = false → rr_Ttl x = left.

Lemma live_response_lives start elapsed ttl m r left stale :
  live_response cc (start + elapsed) m (start + time_Second * ttl) = Some (r, left, stale) → lives elapsed ttl left stale r.
Proof.
  unfold live_response, lives. destruct (_ <? _) eqn:E.
  - destruct (_ && _) eqn:E2; [|done]. intros [= <- <- <-]. apply andb_true_iff in E2 as [E2 E3].
    split; [lia|]. intros x. by apply normalizeTTL_Ttl.
  - intros [= <- <- <-]. assert (Hs : 0 < time_Second) by done.
    pose proof (Z.div_pos (start + time_Second * ttl - (start + elapsed)) time_Second ltac:(lia) Hs).
    pose proof (Z.mul_div_le (start + time_Second * ttl - (start + elapsed)) time_Second Hs).
    rewrite Z.max_l by lia. split; [lia|]. split; [lia|]. intros x. by apply normalizeTTL_Ttl.
Qed.

Lemma store_load w key m ttl cache elapsed asked calls r left stale w' :
  w_dnsCache w = None → w_cache w = Some cache → cc_disableExpire cc = false → ttl ≠ 0 →
  loadResponse cc (set_time (w_now w + elapsed) asked calls (storeCache w key m ttl)) key = (Some (r, left, stale), w') →
  lives elapsed ttl left stale r.
Proof.
  intros Hd Hc He Ht. unfold storeCache, loadResponse. apply Z.eqb_neq in Ht. rewrite Ht, Hd, Hc.
  cbn [set_caches set_time w_dnsCache w_cache w_now]. rewrite He.
  destruct (lru_Get _ _) as [[m' e']|] eqn:Eg; [|done].
  apply lru_Get_Add in Eg as [[_ [= -> ->]]|[Hne _]]; [|done].
  destruct (live_response _ _ _ _) as [[[r' left'] stale']|] eqn:El; [|done]. intros [= -> -> -> _].
  by eapply live_response_lives.
Qed.
End cached.

(** ** The theorem *)

(** C11 Nothing outlives its time in the cache. A response that is stored without a
    rewritten time to live has the least positive time to live of its records other than
    OPT, or, when it has no answers and an SOA record, the lesser of the time to live and
    the minimum of that record; when this is 0 it is not stored. When it is found in
    memory later, as a fresh response, the time that passed and the time to live that
    all its records are given add up to no more than that; as a stale one, it is over for less
    than the optimistic timeout, and its records live for one second. *)
Theorem cached_never_outlives `{Extern} `{Edns} {C : Type} `{!LRU C} (cc : ClientConfig)
    (w : World (C := C)) key question o r0 r1 ttl cache :
  w_dnsCache w = None → w_cache w = Some cache → cc_disableExpire cc = false → qo_RewriteTTL o = None → ttl_wf r0 →
  applyResponseOptions question r0 o = (r1, ttl) →
  match negative r0 with
  | Some t => ttl = t ∧ ∃ soa minttl raw, soa ∈ msg_Ns r0 ∧ rr_Data soa = RData_SOA minttl raw ∧ t = Z.min (rr_Ttl soa) minttl
  | None => least_positive (ttls (all_records r0)) ttl
  end ∧
  (ttl = 0 → storeCache w key r1 ttl = w) ∧
  ∀ elapsed asked calls r left stale w',
    ttl ≠ 0 →
    loadResponse cc (set_time (w_now w + elapsed) asked calls (storeCache w key r1 ttl)) key = (Some (r, left, stale), w') →
    lives cc elapsed ttl left stale r.
Proof.
  intros Hd Hc He Ho Hr E. pose proof (applyResponseOptions_ttl question r0 o Ho) as Ht. rewrite E in Ht. cbn [snd] in Ht.
  split; [|split].
  - pose proof (computeTimeToLive_least r0 Hr) as Hl. rewrite <- Ht in Hl.
    destruct (negative r0) as [t|] eqn:En; [|done]. split; [done|]. apply extractNegativeTTL_min.
    unfold negative in En. by destruct (has_items _).
  - intros ->. done.
  - intros. by eapply store_load.
Qed.
