(* ===== verification/DnsConcrete.v ===== *)
(** * The DNS client on concrete servers

    Instances of what the client is a parameter of, the theorems of the client on them,
    and three behaviours that look unintended. *)
From Stdlib Require Import Strings.Byte.
From stdpp Require Import base list gmap strings.
From S2P Require Import Prelude Netip Metadata RuleItems RuleAction RuleMatch Concrete DnsRouter DnsLegacy DnsClient DnsClientFacts DnsCache DnsTtl.

(** OPT records as they are on the wire: the class has the size, the time to live the
    version and the DO bit. Messages are not packed. *)
#[export] Instance c_edns : Edns := {|
  Msg_IsEdns0 m := List.find (λ r, rr_Rrtype r =? TypeOPT) (rev (msg_Extra m));
  OPT_Version r := Z.land (Z.shiftr (rr_Ttl r) 16) 255;
  OPT_Do r := Z.testbit (rr_Ttl r) 15;
  OPT_UDPSize r := rr_Class r;
  edns0_record size do_ := MkRR "." size (if do_ then 2 ^ 15 else 0) (RData_OPT []);
  dns_IsFqdn s := bool_decide (String.substring (String.length s - 1) 1 s = "."%string);
  dns_Fqdn s := (s +:+ ".")%string;
  Msg_Pack _ := None;
  Msg_Unpack _ := None;
|}.

Definition cell : Type := dnsCacheKey * (Msg * Z).

Fixpoint cells_get (c : list cell) (k : dnsCacheKey) : option (Msg * Z) :=
  match c with
  | [] => None
  | (k', v) :: c => if decide (k = k') then Some v else cells_get c k
  end.
Definition cells_remove (c : list cell) (k : dnsCacheKey) : list cell := List.filter (λ x, negb (bool_decide (x.1 = k))) c.

Lemma cells_get_remove c k k' v : cells_get (cells_remove c k) k' = Some v → cells_get c k' = Some v.
Proof.
  induction c as [|[k0 v0] c IH]; [done|]. cbn [cells_remove List.filter cells_get fst].
  destruct (bool_decide (k0 = k)) eqn:E; cbn [negb].
  - apply bool_decide_eq_true in E as ->. intros Hg. destruct (decide (k' = k)) as [->|]; [|auto].
    exfalso. clear IH. induction c as [|[k1 v1] c IH]; [done|]. cbn [cells_remove List.filter fst] in Hg.
    destruct (bool_decide (k1 = k)) eqn:E; cbn [negb] in Hg; [auto|]. apply bool_decide_eq_false in E.
    cbn [cells_get] in Hg. rewrite decide_False in Hg by done. auto.
  - cbn [cells_get]. by destruct (decide (k' = k0)); auto.
Qed.

Definition cells_add (c : list cell) (k : dnsCacheKey) (m : Msg) (e : Z) : list cell := (k, (m, e)) :: c.

Lemma cells_get_add c k m e k' v :
  cells_get (cells_add c k m e) k' = Some v → k' = k ∧ v = (m, e) ∨ k' ≠ k ∧ cells_get c k' = Some v.
Proof. cbn. destruct (decide (k' = k)) as [->|]; [intros [= <-]; auto|auto]. Qed.

#[export] Instance c_lru : LRU (list cell) := {|
  lru_Get := cells_get;
  lru_Add := cells_add;
  lru_Remove := cells_remove;
  lru_empty := [];
  lru_Get_Add := cells_get_add;
  lru_Get_Remove := cells_get_remove;
  lru_Get_empty _ := eq_refl;
|}.

(** A server that answers every request with the same message, a second later. *)
Definition c_net (response : Msg) : Net (C := list cell) :=
  MkNet (λ _ _ _, AnswerMsg response) (λ _, time_Second) (λ _ _, None) (λ _, 0) (λ _, MkCall None [] None).
Definition c_config : ClientConfig := NewClient 0 false false 0 PrefixZero.
Definition c_world : World (C := list cell) := MkWorld (Some []) None None [] 0 0 0.

Definition c_reply : Msg :=
  MkMsg (MkMsgHdr 9 true false true true 0) [MkQuestion "example.org." 1 1]
    [MkRR "example.org." 1 300 (RData_A [x01; x02; x03; x04]); MkRR "example.org." 1 60 (RData_A [x05; x06; x07; x08])] [] [].

Definition c_asked : World (C := list cell) :=
  (Client_Exchange c_config (c_net c_reply) c_world (c_transport "a") c_query c_options None).1.
Definition c_again := Client_Exchange c_config (c_net c_reply) c_asked (c_transport "a") c_query c_options None.

(** The second exchange asks no server. *)
Lemma Exchange_origin_witness :
  w_asked c_asked = 1%nat ∧ w_asked c_again.1 = 1%nat ∧
  ∃ r, c_again.2.1 = Some r ∧
    served (c_net c_reply) "a" (MkQuestion "example.org." 1 1)
      (clientSubnetFromMessage (prepareExchangeMessage c_config c_query c_options)) r ∧
    ∃ r0, accepts None r0 ∧ derived r0 r.
Proof.
  split; [vm_compute; reflexivity|]. split; [vm_compute; reflexivity|].
  refine (Exchange_origin c_config (c_net c_reply) (λ _ _, None) c_world c_asked (c_transport "a") c_query c_options
            None (MkQuestion "example.org." 1 1) [] c_again.1 c_again.2.1 _ eq_refl (or_intror eq_refl) _ _ eq_refl eq_refl _).
  - discriminate.
  - apply rtc_once, step_Exchange. split; discriminate.
  - split; discriminate.
  - vm_compute. reflexivity.
Defined.

Definition c_key : dnsCacheKey := MkCacheKey (MkQuestion "example.org." 1 1) "a" PrefixZero 0.

(** Ten and a half seconds later, 49 of the 60 seconds are left. *)
Lemma cached_never_outlives_witness :
  let stored := storeCache c_world c_key (normalizeTTL c_reply 60) 60 in
  let loaded := loadResponse c_config (set_time 10500000000 0 0 stored) c_key in
  loaded.1 = Some (normalizeTTL c_reply 49, 49, false) ∧
  lives c_config 10500000000 60 49 false (normalizeTTL c_reply 49).
Proof.
  split; [vm_compute; reflexivity|].
  refine (proj2 (proj2 (cached_never_outlives c_config c_world c_key (MkQuestion "example.org." 1 1) c_options c_reply
    (normalizeTTL c_reply 60) 60 [] eq_refl eq_refl eq_refl eq_refl _ _))
    10500000000 0%nat 0%nat (normalizeTTL c_reply 49) 49 false
    (set_time 10500000000 0 0 (storeCache c_world c_key (normalizeTTL c_reply 60) 60)) _ _).
  - unfold ttl_wf, all_records. cbn [c_reply msg_Answer msg_Ns msg_Extra app]. repeat constructor; cbn; lia.
  - vm_compute. reflexivity.
  - discriminate.
  - vm_compute. reflexivity.
Defined.

(** ** Behaviours that look unintended *)

(** A request whose OPT record is followed by another record gets a second OPT record
    with the subnet. *)
Example second_OPT_record :
  let opt := MkRR "." 1232 0 (RData_OPT []) in
  let tsig := MkRR "key." 255 0 (RData_Other 250 []) in
  let request := msg_set_Extra c_query [opt; tsig] in
  map rr_Rrtype (msg_Extra (SetClientSubnet request (MkPrefix (Addr4 16909056) 24))) = [41; 250; 41].
Proof. vm_compute. reflexivity. Qed.

(** The key of the cache has no strategy, but the hints of HTTPS answers are left out by
    the strategy before the answer is stored: after a query with ipv4_only, a query with
    ipv6_only is answered with the IPv4 hints and without the IPv6 ones. *)
Example hints_of_the_other_family :
  let v4 := SVCBIPv4Hint [[x01; x02; x03; x04]] in
  let v6 := SVCBIPv6Hint [[x00]] in
  let q := MkQuestion "example.org." 65 1 in
  let query := MkMsg (MkMsgHdr 1 false false true false 0) [q] [] [] [] in
  let record hints := MkRR "example.org." 1 300 (RData_HTTPS hints) in
  let net := c_net (MkMsg (MkMsgHdr 1 true false true true 0) [q] [record [v4; v6]] [] []) in
  let '(w, _) := Client_Exchange c_config net c_world (c_transport "a") query (qset_Strategy DomainStrategyIPv4Only c_options) None in
  let '(_, (response, _)) :=
    Client_Exchange c_config net w (c_transport "a") query (qset_Strategy DomainStrategyIPv6Only c_options) None in
  match response with Some r => map rr_Data (msg_Answer r) | None => [] end = [RData_HTTPS [v4]].
Proof. vm_compute. reflexivity. Qed.
