(* ===== verification/DnsCompose.v ===== *)
(** * The router with the client

    Legacy exchanges of the router over the client of dns/client.go: where the response
    that a query gets comes from. *)
From Stdlib Require Import Strings.Byte.
From stdpp Require Import base list gmap strings.
From S2P Require Import Prelude Netip Metadata RuleItems RuleAction RuleMatch Concrete DnsRouter DnsLegacy DnsClient DnsClientFacts DnsCache DnsConcrete.

Section options.
Context `{Extern} `{Edns} (env : Env) (tm : DNSTransportManager) (cc : ClientConfig).

Definition action_usable (a : option RuleAction) : Prop :=
  match a with
  | Some (RuleActionDNSRoute _ _ r) | Some (RuleActionOfDNSRouteOptions r) =>
      Prefix_IsValid (ClientSubnet r) = true → subnet_ok (ClientSubnet r)
  | _ => True
  end.

(** The subnets that rules set can be sent. *)
Definition rules_usable (rules : list HeadlessRule) : Prop := Forall (λ rule, action_usable (DNSRule_Action rule)) rules.

Lemma apply_legacy_options_usable r o :
  (Prefix_IsValid (ClientSubnet r) = true → subnet_ok (ClientSubnet r)) → subnets_usable cc o → subnets_usable cc (apply_legacy_options r o).
Proof.
  intros Hr [Ho Hc]. split; [|done]. unfold apply_legacy_options, apply_answer_options.
  set (o1 := if _ =? _ then o else _). assert (Ho1 : qo_ClientSubnet o1 = qo_ClientSubnet o) by (unfold o1; by destruct (_ =? _)).
  set (o2 := if DisableCache r then _ else o1).
  assert (Ho2 : qo_ClientSubnet o2 = qo_ClientSubnet o) by (unfold o2; by destruct (DisableCache r)).
  destruct (RemoveClientSubnet r); [done|]. destruct (Prefix_IsValid (ClientSubnet r)) eqn:E; [by cbn; auto|].
  cbn [qset_answer qo_ClientSubnet]. by rewrite Ho2.
Qed.

Lemma qset_cache_usable a b o : subnets_usable cc o → subnets_usable cc (qset_cache a b o).
Proof. done. Qed.

Lemma matchDNS_loop_usable allowFakeIP isAddress rules i md o :
  rules_usable rules → subnets_usable cc o → subnets_usable cc (mt_options (matchDNS_loop env tm allowFakeIP isAddress rules i md o)).
Proof.
  intros Hr. revert i md o. induction Hr as [|rule rules Ha Hr IH]; intros i md o Ho; [done|].
  cbn [matchDNS_loop]. destruct (_ && _); [by apply IH|]. destruct (LegacyPreMatch _ _ _) as [m md'].
  destruct m; cbn [negb]; [|by apply IH].
  destruct (DNSRule_Action rule) as [[]|]; cbn [action_usable] in Ha; cbn [mt_options]; (exact Ho || (by apply IH) || idtac).
  - destruct (tm_Transport _ _) as [t|]; [|by apply IH]. destruct (_ && _); [by apply IH|].
    cbn [mt_options]. apply apply_legacy_options_usable; [done|]. by destruct (is_fakeip t).
  - by apply IH, apply_legacy_options_usable.
Qed.
End options.

Section composed.
Context `{Extern} `{Edns} {C : Type} `{!LRU C} (env : Env) (tm : DNSTransportManager) (defaultDomainStrategy : Z).
Context (cc : ClientConfig) (net : Net (C := C)) (group_Run : option error → option error → option error).
Context (wait_keeps : ∀ n e meanwhile, call_wait (net_call net n) = Some (e, meanwhile) →
                      ∀ w, cache_ok net w → cache_ok net (meanwhile w)).
Local Existing Instance Client.

(** What the theorem says of a result. *)
Definition legacy_served (message : Msg) (q : Question) (r : exchanged) : Prop :=
  match r with
  | Ok (response, Some t, None) =>
      ∃ r, response = Some r ∧ (r = FixedResponseStatus message 0 ∨ ∃ subnet, served net (dt_Tag t) q subnet r)
  | _ => True
  end.

Lemma exchangeLegacy_served fuel rules start md message options q questions w w' l r :
  rules_usable rules → subnets_usable cc options → msg_Question message = q :: questions → cache_ok net w →
  exchangeLegacy (DNSClient0 := Client cc net group_Run) env tm defaultDomainStrategy fuel rules start md message options w = Some (w', l, r) →
  cache_ok net w' ∧ legacy_served message q r.
Proof using wait_keeps.
  intros Hr Ho Hq. revert start md w w' l r. induction fuel as [|fuel IH]; intros start md w w' l r Hw; [done|].
  cbn [exchangeLegacy]. set (mt := matchDNS _ _ _ _ _ _ _ _).
  assert (Hmt : subnets_usable cc (finalizeExchangeOptions defaultDomainStrategy (mt_options mt))).
  { assert (subnets_usable cc (mt_options mt)) as Hu by by apply matchDNS_loop_usable; [apply Forall_drop|].
    unfold finalizeExchangeOptions. by destruct (_ =? _). }
  destruct (legacy_answer _ _) as [a|] eqn:Ea.
  { intros [= <- <- <-]. split; [done|]. clear -Ea. unfold legacy_answer in Ea.
    destruct (mt_rule mt) as [[rule i]|]; [|done].
    destruct (DNSRule_Action rule) as [[]|]; try done.
    - destruct (bool_decide _); [injection Ea as <-; by destruct (dnsRefusedResponse _)|].
      destruct (bool_decide _); [by injection Ea as <-|done].
    - injection Ea as <-. by destruct (Predefined_Response _ _ _ _ _). }
  destruct (mt_transport mt) as [t|]; [|by intros [= <- <- <-]].
  set (check := addressLimitResponseCheck _ _ _). cbn [client_Exchange Client].
  pose proof (Exchange_keeps cc net wait_keeps w t message _ check Hw Hmt) as Hw1.
  pose proof (λ w' response, exchange_served cc net wait_keeps w t message _ check q questions w' response Hw Hmt Hq) as Hs.
  destruct (Client_Exchange _ _ _ _ _ _ _) as [w1 [response err]]. cbn [fst] in Hw1.
  rewrite Hq. cbn [has_items negb]. rewrite andb_false_r.
  assert (Hend : legacy_served message q (Ok (response, Some t, err))).
  { destruct err; [done|]. destruct (Hs _ _ eq_refl) as (x & -> & [[_ ->]|[Hx _]]); eexists; eauto. }
  destruct check as [check|]; [|by intros [= <- <- <-]].
  destruct (mt_rule mt) as [[rule i]|]; [|by intros [= <- <- <-]].
  destruct (is_rejected err); [|by intros [= <- <- <-]].
  destruct (exchangeLegacy _ _ _ _ _ _ _ _ _ _) as [[[w2 l2] r2]|] eqn:E; [|done]. intros [= <- <- <-].
  by eapply IH.
Qed.
End composed.

(** ** The theorem *)

(** C8 The router over the client: a query with a question that the router exchanges in
    legacy mode ends, and when it ends with a response from a transport and no error,
    then the response was made from one that a server with the tag of the very transport
    that is returned gave to a request for the same question, however many rules refused
    other responses before and whatever was in the cache, unless the strategy answered
    the question with no addresses. The client may have gone through any sequence of its
    operations before; the cache is still right afterwards. *)
Theorem legacy_query_served `{Extern} `{Edns} {C : Type} `{!LRU C} (env : Env) (tm : DNSTransportManager)
    (defaultDomainStrategy : Z) (cc : ClientConfig) (net : Net (C := C))
    (group_Run : option error → option error → option error) rules md message options q questions w0 w :
  (∀ n e meanwhile, call_wait (net_call net n) = Some (e, meanwhile) →
     ∀ w, cache_ok net w → cache_ok net (meanwhile w)) →
  w_dnsCache w0 = None → w_cache w0 = None ∨ w_cache w0 = Some lru_empty →
  rtc (client_step cc net group_Run) w0 w →
  rules_usable rules → subnets_usable cc options → msg_Question message = q :: questions →
  ∃ w' refused r,
    exchangeLegacy (DNSClient0 := Client cc net group_Run) env tm defaultDomainStrategy (S (length rules)) rules 0
      md message options w = Some (w', refused, r) ∧
    cache_ok net w' ∧ legacy_served net message q r.
Proof.
  intros Hwait Hd Hc Hr Hrules Ho Hq. pose proof (reachable_ok cc net Hwait group_Run w0 w Hd Hc Hr) as Hw.
  destruct (exchangeLegacy_outcome (DNSClient0 := Client cc net group_Run) env tm defaultDomainStrategy rules message
              options (S (length rules)) 0 md w) as (w' & l & r & E & _); [by rewrite Hq|lia|].
  exists w', l, r. split; [done|]. by eapply exchangeLegacy_served.
Qed.

(** The first rule refuses 1.2.3.4, the second takes it: the cache of the transport "b"
    is filled. *)
Lemma legacy_query_served_witness :
  let net := c_net c_reply in
  let run := exchangeLegacy (DNSClient0 := Client c_config net (λ _ _, None)) c_env c_tm 0 3 [c_limited "a"; c_any "b"] 0
               (c_request "example.org") c_query c_options c_world in
  option_map (λ x, (x.1.2, w_asked x.1.1)) run = Some ([0%nat], 2%nat) ∧
  ∃ w' refused r, run = Some (w', refused, r) ∧ cache_ok net w' ∧
    legacy_served net c_query (MkQuestion "example.org." 1 1) r.
Proof.
  split; [vm_compute; reflexivity|].
  refine (legacy_query_served c_env c_tm 0 c_config (c_net c_reply) (λ _ _, None) [c_limited "a"; c_any "b"]
            (c_request "example.org") c_query c_options (MkQuestion "example.org." 1 1) [] c_world c_world
            _ eq_refl (or_intror eq_refl) (rtc_refl _ _) _ _ eq_refl).
  - discriminate.
  - repeat constructor; cbn; discriminate.
  - split; discriminate.
Defined.
