(* ===== verification/DnsExchange.v ===== *)
(** * The DNS router: queries and lookups, dns/router.go

    What comes before and after the choice of a server: the checks of a query and its
    metadata, the three ways a query is exchanged, the addresses of a lookup, and the
    names that addresses came from. The walk over the rules runs beside other queries:
    [sch] says how the exchanges of a walk end in a state of the client and [walked] how
    they leave it. [Exchange] and [ExchangeAsync] are two functions here as they are there:
    the second one asks the client by [client_ExchangeAsync] and gives its callback what
    [finishExchangeAsync] makes of the answer. *)
From Stdlib Require Import Strings.Byte.
From stdpp Require Import base list gmap strings.
From S2P Require Import Prelude Netip Metadata RuleItems RuleAction RuleMatch DnsRouter DnsWalk DnsValidate DnsClient.

(** [freelru.Cache] of addresses: a name that is found is the last one that was added to
    its address. *)
Class AddrCache (D : Type) : Type := {
  rm_Get : D → Addr → option string;
  rm_Add : D → Addr → string → Z → D;
  rm_empty : D;
  rm_Get_Add : ∀ m a name life a' name', rm_Get (rm_Add m a name life) a' = Some name' →
    a' = a ∧ name' = name ∨ a' ≠ a ∧ rm_Get m a' = Some name';
  rm_Get_empty : ∀ a, rm_Get rm_empty a = None;
}.

(** [DNSClientOptions] as [NewRouter] uses them. *)
Record DNSClientOptions : Type := MkClientOptions {
  oc_Timeout : Z;
  oc_DisableCache : bool;
  oc_DisableExpire : bool;
  oc_Optimistic : option (bool * Z);
  oc_ClientSubnet : option Prefix;
}.

(** The client that [NewRouter] makes. *)
Definition NewRouter_client (o : DNSClientOptions) : result ClientConfig :=
  let '(enabled, timeout) := default (false, 0) (oc_Optimistic o) in
  if enabled && oc_DisableCache o then Err (ENew "`optimistic` is conflict with `disable_cache`")
  else if enabled && oc_DisableExpire o then Err (ENew "`optimistic` is conflict with `disable_expire`")
  else
    Ok (NewClient (oc_Timeout o) (oc_DisableCache o) (oc_DisableExpire o)
          (if enabled then if timeout =? 0 then 3 * 24 * 3600 * time_Second else timeout else 0)
          (default PrefixZero (oc_ClientSubnet o))).

Section exchange.
Context `{Extern} `{Edns} (env : Env) (tm : DNSTransportManager) (defaultDomainStrategy : Z).
Context {W D : Type} `{!DNSClient W} `{!AddrCache D}.
Context (sch : W → Msg → Schedule) (walked : W → W).
Context (client_ExchangeAsync : W → DNSTransport → Msg → DNSQueryOptions → option (Msg → bool) → W * (option Msg * option error)).
Context (rejectError : RuleAction → option error) (group_Run : option error → option error → option error).

(** ** Before the exchange *)

Definition isResolverDiscoveryQuery (question : Question) : bool :=
  (q_Qtype question =? 64) && (5 <? Z.of_nat (String.length (q_Name question))) &&
  strings_EqualFold (String.substring 0 5 (q_Name question)) "_dns.".

Definition zero_Destination : Socksaddr := MkSocksaddr AddrZero 0 "".

(** The metadata of a query: no destination, its domain and its type. *)
Definition query_metadata (md : InboundContext) (ipVersion queryType : Z) (domain : string) (subnet : Prefix)
    (dnssec : bool) : InboundContext :=
  MkInboundContext (md_Inbound md) ipVersion (md_Network md) (md_Source md) zero_Destination (md_User md)
    (md_Outbound md) (md_Protocol md) domain (md_Client md) (md_DestinationAddresses md) None ∅ false
    (md_ProcessInfo md) (md_SourceMACAddress md) (md_SourceHostname md) queryType subnet dnssec (md_PreMatch md)
    (md_cache md).

Definition version_of (queryType other : Z) : Z := if queryType =? 1 then 4 else if queryType =? 28 then 6 else other.

Inductive dnsExchangeContext : Type :=
| EarlyResponse (response : option Msg) (err : option error)
| Prepared (rules : list HeadlessRule) (legacyDNSMode : bool) (metadata : InboundContext).

Definition closed_error : error := ENew "dns router closed".

Definition prepareExchange (r : Router) (md : InboundContext) (message : Msg) : dnsExchangeContext :=
  let hdr := msg_Hdr message in
  match msg_Question message with
  | [question] =>
      if isResolverDiscoveryQuery question
      then EarlyResponse (Some (MkMsg (MkMsgHdr (hdr_Id hdr) true false (hdr_RecursionDesired hdr) true 0) [question] [] [] [])) None
      else if rt_closing r then EarlyResponse None (Some closed_error)
      else Prepared (rt_rules r) (rt_legacyDNSMode r)
             (query_metadata md (version_of (q_Qtype question) (md_IPVersion md)) (q_Qtype question)
                (domain_of_fqdn (q_Name question)) (clientSubnetFromMessage message)
                (match Msg_IsEdns0 message with Some opt => OPT_Do opt | None => false end))
  | questions => EarlyResponse (Some (MkMsg (MkMsgHdr (hdr_Id hdr) true false false false 1) questions [] [] [])) None
  end.

(** ** Names of addresses *)

(** The address and the name of a record that is kept. *)
Definition mapping_of (record : RR) : option (Addr * string * Z) :=
  match rr_Data record with
  | RData_A ip | RData_AAAA ip => Some (AddrFromIP ip, domain_of_fqdn (rr_Name record), rr_Ttl record * time_Second)
  | _ => None
  end.

Definition recordReverseMapping (mapping : option D) (message : Msg) (response : option Msg)
    (transport : option DNSTransport) : option D :=
  match mapping, response with
  | Some m, Some response =>
      if has_items (msg_Question message) && has_items (msg_Answer response) &&
         match transport with Some t => negb (is_fakeip t) | None => true end
      then Some (fold_left (λ m record, match mapping_of record with
                                        | Some (a, name, life) => rm_Add m a name life
                                        | None => m
                                        end) (msg_Answer response) m)
      else Some m
  | m, _ => m
  end.

Definition LookupReverseMapping (mapping : option D) (ip : Addr) : option string :=
  match mapping with Some m => rm_Get m ip | None => None end.

(** The part of [ClearCache] that is the router's own. *)
Definition clear_mapping (mapping : option D) : option D :=
  match mapping with Some _ => Some rm_empty | None => None end.

(** ** Queries *)

(** What a query ends with; [None] when it waits for ever. *)
Definition queryReply : Type := option (result (option Msg * option error)).

(** Enough fuel for a walk, and for the loop of legacy mode. *)
Definition walk_fuel (rules : list HeadlessRule) : nat := (4 * length rules + 3)%nat.

(** What [Exchange] has when it comes to its end. *)
Definition exchangeOutcome : Type := option (result (option Msg * option DNSTransport * option error)).

(** [Exchange] *)
Definition Router_Exchange (r : Router) (md : InboundContext) (message : Msg) (o : DNSQueryOptions) (w : W)
    (mapping : option D) : W * option D * queryReply :=
  match prepareExchange r md message with
  | EarlyResponse response err => (w, mapping, Some (Ok (response, err)))
  | Prepared rules legacyDNSMode md =>
      let '(w, outcome) :=
        match qo_Transport o with
        | Some transport =>
            let '(w, (response, err)) := client_Exchange w transport message (finalizeExchangeOptions defaultDomainStrategy o) None in
            (w, Some (Ok (response, Some transport, err)))
        | None =>
            if negb legacyDNSMode then
              (walked w, match exchangeWithRules env tm defaultDomainStrategy (sch w message) message true rules
                                 (walk_fuel rules) md o with
                         | Ended exchangeResult => Some (x ← exchangeResult; Ok (er_response x, er_transport x, er_err x))
                         | Blocked | OutOfFuel => None
                         end)
            else match exchangeLegacy env tm defaultDomainStrategy (S (length rules)) rules 0 md message o w with
                 | Some (w, _, exchanged) => (w, Some exchanged)
                 | None => (w, None)
                 end
        end in
      match outcome with
      | None => (w, mapping, None)
      | Some (Err e) => (w, mapping, Some (Err e))
      | Some (Panic m) => (w, mapping, Some (Panic m))
      | Some (Ok (_, _, Some err)) => (w, mapping, Some (Ok (None, Some err)))
      | Some (Ok (response, transport, None)) =>
          (w, recordReverseMapping mapping message response transport, Some (Ok (response, None)))
      end
  end.

(** [finishExchangeAsync]: what the callback is given. *)
Definition finishExchangeAsync (mapping : option D) (message : Msg) (transport : option DNSTransport)
    (response : option Msg) (err : option error) : option D * queryReply :=
  match err with
  | Some e => (mapping, Some (Ok (None, Some e)))
  | None => (recordReverseMapping mapping message response transport, Some (Ok (response, None)))
  end.

(** [ExchangeAsync]: the callback is given its reply when the client, the walk or the
    goroutine of legacy mode calls it. *)
Definition Router_ExchangeAsync (r : Router) (md : InboundContext) (message : Msg) (o : DNSQueryOptions) (w : W)
    (mapping : option D) : W * option D * queryReply :=
  match prepareExchange r md message with
  | EarlyResponse response err => (w, mapping, Some (Ok (response, err)))
  | Prepared rules legacyDNSMode md =>
      match qo_Transport o with
      | Some transport =>
          let '(w, (response, exchangeErr)) :=
            client_ExchangeAsync w transport message (finalizeExchangeOptions defaultDomainStrategy o) None in
          let '(mapping, reply) := finishExchangeAsync mapping message (Some transport) response exchangeErr in
          (w, mapping, reply)
      | None =>
          if negb legacyDNSMode then
            match exchangeWithRulesAsync env tm defaultDomainStrategy (sch w message) message true rules
                    (walk_fuel rules) md o with
            | Ended (Ok result) =>
                let '(mapping, reply) :=
                  finishExchangeAsync mapping message (er_transport result) (er_response result) (er_err result) in
                (walked w, mapping, reply)
            | Ended (Err e) => (walked w, mapping, Some (Err e))
            | Ended (Panic m) => (walked w, mapping, Some (Panic m))
            | Blocked | OutOfFuel => (walked w, mapping, None)
            end
          else
            match exchangeLegacy env tm defaultDomainStrategy (S (length rules)) rules 0 md message o w with
            | Some (w, _, Ok (response, transport, exchangeErr)) =>
                let '(mapping, reply) := finishExchangeAsync mapping message transport response exchangeErr in
                (w, mapping, reply)
            | Some (w, _, Err e) => (w, mapping, Some (Err e))
            | Some (w, _, Panic m) => (w, mapping, Some (Panic m))
            | None => (w, mapping, None)
            end
      end
  end.

(** ** Lookups *)

Definition resolveLookupStrategy (o : DNSQueryOptions) : Z :=
  if negb (qo_LookupStrategy o =? DomainStrategyAsIS) then qo_LookupStrategy o
  else if negb (qo_Strategy o =? DomainStrategyAsIS) then qo_Strategy o
  else defaultDomainStrategy.

Definition withLookupQueryMetadata (md : InboundContext) (qType : Z) : InboundContext :=
  MkInboundContext (md_Inbound md) (version_of qType 0) (md_Network md) (md_Source md) (md_Destination md) (md_User md)
    (md_Outbound md) (md_Protocol md) (md_Domain md) (md_Client md) (md_DestinationAddresses md) (md_DNSResponse md)
    (md_NamedDNSResponses md) (md_DestinationAddressMatchFromResponse md) (md_ProcessInfo md) (md_SourceMACAddress md)
    (md_SourceHostname md) qType PrefixZero false (md_PreMatch md) (md_cache md).

Definition filterAddressesByQueryType (addresses : list Addr) (qType : Z) : list Addr :=
  if qType =? 1 then List.filter Addr_Is4 addresses
  else if qType =? 28 then List.filter Addr_Is6 addresses
  else addresses.

Definition lookup_request (domain : string) (qType : Z) : Msg := lookup_message (dns_Fqdn domain) qType.

(** The addresses of a lookup or its error; [None] when it waits for ever. *)
Definition looked_up : Type := option (result (list Addr * option error)).

Definition lookupWithRulesType (w : W) (rules : list HeadlessRule) (md : InboundContext) (domain : string) (qType : Z)
    (o : DNSQueryOptions) : looked_up :=
  let request := lookup_request domain qType in
  match exchangeWithRules env tm defaultDomainStrategy (sch w request) request false rules (walk_fuel rules)
          (withLookupQueryMetadata md qType) o with
  | Ended (Ok x) =>
      Some (match er_rejectAction x, er_err x, er_response x with
            | Some (method, noDrop), _, _ => Ok ([], rejectError (RuleActionReject method noDrop))
            | None, Some e, _ => Ok ([], Some e)
            | None, None, None => Panic "invalid memory address or nil pointer dereference"
            | None, None, Some response =>
                if msg_Rcode response =? 0
                then Ok (filterAddressesByQueryType (DNSResponseAddresses (Some response)) qType, None)
                else Ok ([], Some (RcodeError (msg_Rcode response)))
            end)
  | Ended (Err e) => Some (Err e)
  | Ended (Panic m) => Some (Panic m)
  | Blocked | OutOfFuel => None
  end.

Definition lookupWithRules (w : W) (rules : list HeadlessRule) (md : InboundContext) (domain : string) (o : DNSQueryOptions)
    : looked_up :=
  let strategy := resolveLookupStrategy o in
  let lookupOptions := if negb (strategy =? DomainStrategyAsIS) then qset_Strategy strategy o else o in
  if strategy =? DomainStrategyIPv4Only then lookupWithRulesType w rules md domain 1 lookupOptions
  else if strategy =? DomainStrategyIPv6Only then lookupWithRulesType w rules md domain 28 lookupOptions
  else
    match lookupWithRulesType w rules md domain 1 lookupOptions, lookupWithRulesType w rules md domain 28 lookupOptions with
    | Some r4, Some r6 =>
        Some ('(response4, err4) ← r4;
              '(response6, err6) ← r6;
              Ok (if negb (has_items response4) && negb (has_items response6) then ([], group_Run err4 err6)
                  else (sortAddresses response4 response6 strategy, None)))
    | _, _ => None
    end.

(** [Lookup] *)
Definition Router_Lookup (r : Router) (md : InboundContext) (domain : string) (o : DNSQueryOptions) (w : W) : W * looked_up :=
  if rt_closing r then (w, Some (Ok ([], Some closed_error)))
  else
    let md := query_metadata md (md_IPVersion md) (md_QueryType md) (domain_of_fqdn domain) (md_QueryClientSubnet md)
                (md_QueryDNSSEC md) in
    let print (x : list Addr * option error) := (x.1, print_result domain x.1 x.2) in
    match qo_Transport o with
    | Some transport =>
        let '(w, x) := client_Lookup w transport domain (finalizeExchangeOptions defaultDomainStrategy o) None in
        (w, Some (Ok (print x)))
    | None =>
        if negb (rt_legacyDNSMode r) then
          (walked w, match lookupWithRules w (rt_rules r) md domain o with
                     | Some x => Some (x ← x; Ok (print x))
                     | None => None
                     end)
        else match lookupLegacy env tm defaultDomainStrategy (S (length (rt_rules r))) rejectError (rt_rules r) 0 md domain o w with
             | Some (w, x) => (w, Some x)
             | None => (w, None)
             end
    end.
End exchange.
