(* ===== verification/DnsExchangeFacts.v ===== *)
(** * The DNS router: what queries and lookups return

    A query ends, and its two forms agree; the addresses of a lookup are of the families
    that were asked for, in the order of the strategy, and come from responses to the
    questions; the name of an address is one that an answer had. *)
From Stdlib Require Import Strings.Byte.
From stdpp Require Import base list gmap strings.
From S2P Require Import Prelude Netip Metadata RuleItems RuleAction RuleMatch Concrete RuleBuild DnsRouter DnsLegacy DnsWalk DnsTerm DnsValidate DnsClient DnsClientFacts DnsCache DnsConcrete DnsExchange.

Section facts.
Context `{Extern} `{Edns} (env : Env) (tm : DNSTransportManager) (defaultDomainStrategy : Z).
Context {W D : Type} `{!DNSClient W} `{!AddrCache D}.
Context (sch : W → Msg → Schedule) (walked : W → W).
Context (client_ExchangeAsync : W → DNSTransport → Msg → DNSQueryOptions → option (Msg → bool) → W * (option Msg * option error)).
Context (rejectError : RuleAction → option error) (group_Run : option error → option error → option error).

(** ** Lookups *)

(** An address of a response with no error to a question of the type, of the family of
    the type. *)
Definition address_for (w : W) (rules : list HeadlessRule) (md : InboundContext) (domain : string) (o : DNSQueryOptions)
    (qType : Z) (a : Addr) : Prop :=
  (if qType =? 1 then Addr_Is4 a else Addr_Is6 a) = true ∧
  ∃ response transport,
    exchangeWithRules env tm defaultDomainStrategy (sch w (lookup_request domain qType)) (lookup_request domain qType)
      false rules (walk_fuel rules) (withLookupQueryMetadata md qType) o =
      Ended (Ok (MkExchangeResult (Some response) transport None None)) ∧
    msg_Rcode response = 0 ∧ In a (DNSResponseAddresses (Some response)).

Lemma filterAddresses_In a l qType :
  qType = 1 ∨ qType = 28 → In a (filterAddressesByQueryType l qType) →
  (if qType =? 1 then Addr_Is4 a else Addr_Is6 a) = true ∧ In a l.
Proof. unfold filterAddressesByQueryType. intros [-> | ->]; cbn [Z.eqb Pos.eqb]; rewrite filter_In; tauto. Qed.

Lemma lookupWithRulesType_addresses w rules md domain qType o l err :
  qType = 1 ∨ qType = 28 →
  lookupWithRulesType env tm defaultDomainStrategy sch rejectError w rules md domain qType o = Some (Ok (l, err)) →
  Forall (address_for w rules md domain o qType) l.
Proof.
  intros Hq. unfold lookupWithRulesType, address_for.
  destruct (exchangeWithRules _ _ _ _ _ _ _ _ _ _) as [[[resp t [[m nd]|] [e|]]| |]| |]; cbn [er_rejectAction er_err er_response];
    try done; try (intros [= <- _]; constructor).
  destruct resp as [response|]; [|done]. destruct (msg_Rcode response =? 0) eqn:Ec; intros [= <- _]; [|constructor].
  apply Forall_forall. intros a Ha%list_elem_of_In. apply filterAddresses_In in Ha as [Hf Ha]; [|done].
  split; [done|]. exists response, t. split; [done|]. split; [by apply Z.eqb_eq|done].
Qed.

(** The two halves of a list of addresses. *)
Definition by_family (strategy : Z) (P4 P6 : Addr → Prop) (l : list Addr) : Prop :=
  ∃ l4 l6, Forall P4 l4 ∧ Forall P6 l6 ∧ l = if strategy =? DomainStrategyPreferIPv6 then l6 ++ l4 else l4 ++ l6.

Lemma lookupWithRules_by_family w rules md domain o l err :
  lookupWithRules env tm defaultDomainStrategy sch rejectError group_Run w rules md domain o = Some (Ok (l, err)) →
  let strategy := resolveLookupStrategy defaultDomainStrategy o in
  let lookupOptions := if negb (strategy =? DomainStrategyAsIS) then qset_Strategy strategy o else o in
  by_family strategy
    (λ a, strategy ≠ DomainStrategyIPv6Only ∧ address_for w rules md domain lookupOptions 1 a)
    (λ a, strategy ≠ DomainStrategyIPv4Only ∧ address_for w rules md domain lookupOptions 28 a) l.
Proof.
  unfold lookupWithRules, by_family. set (strategy := resolveLookupStrategy _ o). cbv zeta.
  set (lo := if negb (strategy =? _) then _ else o). clearbody lo strategy. intros E.
  destruct (strategy =? DomainStrategyIPv4Only) eqn:E4.
  { apply Z.eqb_eq in E4. exists l, []. split; [|split; [constructor|rewrite E4; apply symmetry, app_nil_r]].
    apply lookupWithRulesType_addresses in E; [|by left]. eapply Forall_impl; [exact E|]. cbn. by rewrite E4. }
  destruct (strategy =? DomainStrategyIPv6Only) eqn:E6.
  { apply Z.eqb_eq in E6. exists [], l. split; [constructor|]. split; [|by rewrite E6].
    apply lookupWithRulesType_addresses in E; [|by right]. eapply Forall_impl; [exact E|]. cbn. by rewrite E6. }
  apply Z.eqb_neq in E4, E6.
  destruct (lookupWithRulesType _ _ _ _ _ _ _ _ _ 1 _) as [r4|] eqn:L4; [|done].
  destruct (lookupWithRulesType _ _ _ _ _ _ _ _ _ 28 _) as [r6|] eqn:L6; [|done].
  destruct r4 as [[l4 e4]| |]; [|done|done]. destruct r6 as [[l6 e6]| |]; [|done|done].
  apply lookupWithRulesType_addresses in L4; [|by left]. apply lookupWithRulesType_addresses in L6; [|by right].
  cbn in E. destruct (negb _ && negb _).
  { injection E as <- _. exists [], []. split; [constructor|]. split; [constructor|]. by destruct (_ =? _). }
  injection E as <- _. exists l4, l6. split; [|split; [|by unfold sortAddresses]].
  - eapply Forall_impl; [exact L4|]. done.
  - eapply Forall_impl; [exact L6|]. done.
Qed.

(** ** Queries *)










(** ** Names of addresses *)

(** An answer among the responses has the address and the name. *)
Definition answered_with (history : list Msg) (a : Addr) (name : string) : Prop :=
  ∃ response record life, response ∈ history ∧ record ∈ msg_Answer response ∧ mapping_of record = Some (a, name, life).

Definition mapping_ok (history : list Msg) (mapping : option D) : Prop :=
  ∀ a name, LookupReverseMapping mapping a = Some name → answered_with history a name.

(** What a query returned, without an error, is remembered. *)
Definition remember (reply : option (result (option Msg * option error))) (history : list Msg) : list Msg :=
  match reply with Some (Ok (Some response, None)) => response :: history | _ => history end.

Lemma answered_with_cons history response a name : answered_with history a name → answered_with (response :: history) a name.
Proof. intros (x & record & life & Hin & Hx). exists x, record, life. split; [set_solver|done]. Qed.

Lemma record_all history response answers (m : D) :
  (∀ record, record ∈ answers → record ∈ msg_Answer response) →
  mapping_ok history (Some m) →
  mapping_ok (response :: history)
    (Some (fold_left (λ m record, match mapping_of record with
                                  | Some (a, name, life) => rm_Add m a name life
                                  | None => m
                                  end) answers m)).
Proof.
  intros Hsub Hm. assert (Hm' : mapping_ok (response :: history) (Some m)).
  { intros a name E. by apply answered_with_cons, Hm. }
  clear Hm. revert m Hm'. induction answers as [|record answers IH]; intros m Hm; [done|]. cbn [fold_left]. apply IH.
  { intros. apply Hsub. set_solver. }
  destruct (mapping_of record) as [[[a name] life]|] eqn:Er; [|done].
  intros a' name' E. cbn [LookupReverseMapping] in E. apply rm_Get_Add in E as [[-> ->]|[_ E]]; [|by apply Hm].
  exists response, record, life. split; [set_solver|]. split; [apply Hsub; set_solver|done].
Qed.

Lemma record_mapping history mapping message response transport :
  mapping_ok history mapping →
  mapping_ok (remember (Some (Ok (response, None))) history) (recordReverseMapping mapping message response transport).
Proof.
  intros Hm. unfold recordReverseMapping. destruct mapping as [m|], response as [response|]; try done.
  cbn [remember]. destruct (_ && _); [by apply record_all|]. intros a name E. by apply answered_with_cons, Hm.
Qed.

Lemma early_mapping history (mapping : option D) response err :
  mapping_ok history mapping → mapping_ok (remember (Some (Ok (response, err))) history) mapping.
Proof. intros Hm. cbn. destruct response, err; try done. intros a name E. by apply answered_with_cons, Hm. Qed.

Lemma exchange_mapping history r md message o w mapping w' mapping' reply :
  mapping_ok history mapping →
  Router_Exchange env tm defaultDomainStrategy sch walked r md message o w mapping = (w', mapping', reply) →
  mapping_ok (remember reply history) mapping'.
Proof.
  intros Hm. unfold Router_Exchange. destruct (prepareExchange r md message) as [response err|rules mode md'].
  { intros [= <- <- <-]. by apply early_mapping. }
  destruct (match qo_Transport o with Some _ => _ | None => _ end) as [w1 [[[[response t] [e|]]| |]|]];
    intros [= <- <- <-]; try done. by apply record_mapping.
Qed.

Lemma finish_mapping history mapping message transport response err mapping' reply :
  mapping_ok history mapping → finishExchangeAsync mapping message transport response err = (mapping', reply) →
  mapping_ok (remember reply history) mapping'.
Proof. intros Hm. destruct err; intros [= <- <-]; [done|]. by apply record_mapping. Qed.

Lemma exchange_async_mapping history r md message o w mapping w' mapping' reply :
  mapping_ok history mapping →
  Router_ExchangeAsync env tm defaultDomainStrategy sch walked client_ExchangeAsync r md message o w mapping = (w', mapping', reply) →
  mapping_ok (remember reply history) mapping'.
Proof.
  intros Hm. unfold Router_ExchangeAsync. destruct (prepareExchange r md message) as [response err|rules mode md'].
  { intros [= <- <- <-]. by apply early_mapping. }
  assert (Hend : ∀ (w1 : W) t response err,
    (let '(mapping, reply) := finishExchangeAsync mapping message t response err in (w1, mapping, reply)) = (w', mapping', reply) →
    mapping_ok (remember reply history) mapping').
  { intros w1 t response err. destruct (finishExchangeAsync mapping message t response err) as [m1 rep] eqn:E.
    intros [= <- <- <-]. by eapply finish_mapping. }
  destruct (qo_Transport o) as [t|]; [|destruct (negb mode)].
  - destruct (client_ExchangeAsync _ _ _ _ _) as [w1 [response err]]. apply Hend.
  - destruct (exchangeWithRulesAsync _ _ _ _ _ _ _ _ _ _) as [[x| |]| |]; [apply Hend|by intros [= <- <- <-]..].
  - destruct (exchangeLegacy _ _ _ _ _ _ _ _ _ _) as [[[w1 l] [[[response t] err]| |]]|]; [apply Hend|by intros [= <- <- <-]..].
Qed.

(** The router at work: queries of both forms, whatever else the client does, the cache
    being cleared. *)
Inductive router_run : list Msg → W → option D → Prop :=
| run_start w mapping : mapping = None ∨ mapping = Some rm_empty → router_run [] w mapping
| run_Exchange history w mapping r md message o w' mapping' reply :
    router_run history w mapping →
    Router_Exchange env tm defaultDomainStrategy sch walked r md message o w mapping = (w', mapping', reply) →
    router_run (remember reply history) w' mapping'
| run_ExchangeAsync history w mapping r md message o w' mapping' reply :
    router_run history w mapping →
    Router_ExchangeAsync env tm defaultDomainStrategy sch walked client_ExchangeAsync r md message o w mapping = (w', mapping', reply) →
    router_run (remember reply history) w' mapping'
| run_client history w mapping w' : router_run history w mapping → router_run history w' mapping
| run_ClearCache history w mapping : router_run history w mapping → router_run history w (clear_mapping mapping).

Lemma run_mapping history w mapping : router_run history w mapping → mapping_ok history mapping.
Proof.
  induction 1 as [w mapping Hm|h w m r md message o w' m' reply _ IH E|h w m r md message o w' m' reply _ IH E| |h w m _ IH].
  - intros a name. destruct Hm as [-> | ->]; cbn; [done|]. by rewrite rm_Get_empty.
  - by eapply exchange_mapping.
  - by eapply exchange_async_mapping.
  - done.
  - intros a name. destruct m; cbn; [by rewrite rm_Get_empty|done].
Qed.
End facts.

(** ** The theorems *)


(** C34 A lookup by rules that succeeds has at least one address. Its addresses are those of one
    family, then those of the other: IPv6 first if the strategy prefers it, else IPv4; with a
    strategy for one family only there are none of the other. Every address is of a
    response with code 0 that the walk over the rules gave to the question for its
    family. The strategy is the one of the lookup, else the one of the query, else the
    default one. *)
Theorem Router_Lookup_addresses `{Extern} `{Edns} env tm defaultDomainStrategy {W : Type} `{!DNSClient W}
    (sch : W → Msg → Schedule) (walked : W → W) rejectError group_Run r md domain o w w' l :
  rt_closing r = false → rt_legacyDNSMode r = false → qo_Transport o = None →
  Router_Lookup env tm defaultDomainStrategy sch walked rejectError group_Run r md domain o w = (w', Some (Ok (l, None))) →
  let strategy := resolveLookupStrategy defaultDomainStrategy o in
  let lookupOptions := if negb (strategy =? DomainStrategyAsIS) then qset_Strategy strategy o else o in
  let md := query_metadata md (md_IPVersion md) (md_QueryType md) (domain_of_fqdn domain) (md_QueryClientSubnet md)
              (md_QueryDNSSEC md) in
  l ≠ [] ∧
  by_family strategy
    (λ a, strategy ≠ DomainStrategyIPv6Only ∧
          address_for env tm defaultDomainStrategy sch w (rt_rules r) md domain lookupOptions 1 a)
    (λ a, strategy ≠ DomainStrategyIPv4Only ∧
          address_for env tm defaultDomainStrategy sch w (rt_rules r) md domain lookupOptions 28 a) l.
Proof.
  intros Hc Hl Ht. unfold Router_Lookup. rewrite Hc, Hl, Ht. cbn [negb].
  destruct (lookupWithRules _ _ _ _ _ _ _ _ _ _ _) as [[[l' err]|e|m]|] eqn:E; try done.
  cbn. intros [= _ <- Hp]. split.
  - intros ->. unfold print_result in Hp. by destruct err.
  - by eapply lookupWithRules_by_family.
Qed.

(** C35 A name that the router gives for an address is the name of an A or AAAA record with
    that address, in an answer that an earlier query of a client of the router got, after
    any sequence of queries and clearings of the cache. *)
Theorem LookupReverseMapping_sound `{Extern} `{Edns} env tm defaultDomainStrategy {W D : Type} `{!DNSClient W}
    `{!AddrCache D} (sch : W → Msg → Schedule) (walked : W → W) client_ExchangeAsync history w (mapping : option D) a name :
  router_run env tm defaultDomainStrategy sch walked client_ExchangeAsync history w mapping →
  LookupReverseMapping mapping a = Some name → answered_with history a name.
Proof. intros Hr. by apply (run_mapping _ _ _ _ _ _ _ _ _ Hr). Qed.

(** ** Witnesses *)

Fixpoint names_get (m : list (Addr * string)) (a : Addr) : option string :=
  match m with
  | [] => None
  | (a', name) :: m => if decide (a = a') then Some name else names_get m a
  end.
Definition names_add (m : list (Addr * string)) (a : Addr) (name : string) (_ : Z) : list (Addr * string) := (a, name) :: m.

Lemma names_get_add m a name life a' name' :
  names_get (names_add m a name life) a' = Some name' → a' = a ∧ name' = name ∨ a' ≠ a ∧ names_get m a' = Some name'.
Proof. cbn. destruct (decide (a' = a)) as [->|]; [intros [= <-]; auto|auto]. Qed.

#[export] Instance c_names : AddrCache (list (Addr * string)) := {|
  rm_Get := names_get;
  rm_Add := names_add;
  rm_empty := [];
  rm_Get_Add := names_get_add;
  rm_Get_empty _ := eq_refl;
|}.

Definition c_query_router : Router := MkRouter [] c_rules false true false.
Definition c_sch (_ : list (string * Z)) (_ : Msg) : Schedule := c_schedule.

Definition c_exchanged :=
  Router_Exchange (DNSClient0 := c_client (λ _, c_reply)) c_env c_tm 0 (λ _ _, MkSchedule (sch_due c_schedule)
    (λ _ _ _, (Some c_reply, None)) None (ENamed "ctx") (λ _, false)) id c_query_router (c_request "example.org") c_query c_options []
    (Some []).


(** The name of 5.6.7.8 after a query. *)
Lemma LookupReverseMapping_sound_witness :
  LookupReverseMapping c_exchanged.1.2 (Addr4 84281096) = Some "example.org"%string ∧
  answered_with (remember c_exchanged.2 []) (Addr4 84281096) "example.org".
Proof.
  split; [vm_compute; reflexivity|].
  refine (LookupReverseMapping_sound (DNSClient0 := c_client (λ _, c_reply)) c_env c_tm 0 (λ _ _, MkSchedule (sch_due c_schedule)
    (λ _ _ _, (Some c_reply, None)) None (ENamed "ctx") (λ _, false)) id (client_Exchange (DNSClient := c_client (λ _, c_reply))) (remember c_exchanged.2 []) c_exchanged.1.1 c_exchanged.1.2
    (Addr4 84281096) "example.org" _ _).
  - refine (run_Exchange _ _ _ _ _ _ [] [] (Some []) c_query_router (c_request "example.org") c_query c_options
              c_exchanged.1.1 c_exchanged.1.2 c_exchanged.2 (run_start _ _ _ _ _ _ _ _ (or_intror eq_refl)) _).
    vm_compute. reflexivity.
  - vm_compute. reflexivity.
Defined.

Definition c_looked :=
  Router_Lookup (DNSClient0 := c_client (λ _, c_reply)) c_env c_tm 0 c_sch id (λ _, None) (λ _ _, None) c_query_router
    (c_request "example.org") "example.org" (qset_Strategy DomainStrategyPreferIPv6 c_options) [].

Lemma Router_Lookup_addresses_witness :
  c_looked.2 = Some (Ok ([Addr4 2], None)) ∧ [Addr4 2] ≠ [].
Proof.
  split; [vm_compute; reflexivity|].
  refine (proj1 (Router_Lookup_addresses (DNSClient0 := c_client (λ _, c_reply)) c_env c_tm 0 c_sch id (λ _, None) (λ _ _, None)
    c_query_router (c_request "example.org") "example.org" (qset_Strategy DomainStrategyPreferIPv6 c_options) [] c_looked.1
    [Addr4 2] eq_refl eq_refl eq_refl _)).
  vm_compute. reflexivity.
Defined.
