(* ===== verification/DnsFailures.v ===== *)
(** * The log of failed exchanges: dns/client_failure_log.go

    The first failure of a server is logged at once, the others are counted and logged
    together, a line for each interval. The timers of [time.AfterFunc] are part of the
    state: one that is due may run at any later time. The text of a question is a
    parameter. *)
From Stdlib Require Import Strings.Byte.
From stdpp Require Import base list gmap strings.
From S2P Require Import Prelude Netip Metadata RuleItems RuleAction RuleMatch DnsRouter DnsClient.

Definition failureLogInterval : Z := 10 * time_Second.

Record failureWindow : Type := MkWindow {
  fw_count : Z;
  fw_question : string;
  fw_err : option error;
}.

(** A line of the log: of which server, when, how many failures it stands for, the
    question and the error it shows. *)
Record logLine : Type := MkLine {
  ln_server : string;
  ln_time : Z;
  ln_count : Z;
  ln_question : string;
  ln_err : option error;
}.

(** [failureLog] with the timers that run and the lines, newest first. *)
Record failureLog : Type := MkFailureLog {
  fl_windows : gmap string failureWindow;
  fl_timers : list (string * Z);
  fl_lines : list logLine;
}.

Section failures.
Context (logger : bool) (FormatQuestion : Question → string).

Definition question_text (message : Msg) : string :=
  match msg_Question message with
  | [] => "<empty query>"
  | q :: _ => FormatQuestion q
  end.

(** [failed] at [now] *)
Definition failed (now : Z) (server : string) (message : Msg) (err : error) (l : failureLog) : error * failureLog :=
  if negb logger || errors_Is err "context.Canceled" || IsLoggedFailure err then (err, l)
  else
    let question := question_text message in
    (loggedFailure err,
     match fl_windows l !! server with
     | Some window =>
         MkFailureLog (<[server := MkWindow (fw_count window + 1) question (Some err)]> (fl_windows l)) (fl_timers l) (fl_lines l)
     | None =>
         MkFailureLog (<[server := MkWindow 0 "" None]> (fl_windows l)) ((server, now + failureLogInterval) :: fl_timers l)
           (MkLine server now 1 question (Some err) :: fl_lines l)
     end).

(** [flush] at [now], after its timer is gone; [None] is a panic: there is no window. *)
Definition flush (now : Z) (server : string) (l : failureLog) : option failureLog :=
  match fl_windows l !! server with
  | None => None
  | Some window =>
      Some (if fw_count window =? 0 then MkFailureLog (delete server (fl_windows l)) (fl_timers l) (fl_lines l)
            else MkFailureLog (<[server := MkWindow 0 (fw_question window) (fw_err window)]> (fl_windows l))
                   ((server, now + failureLogInterval) :: fl_timers l)
                   (MkLine server now (fw_count window) (fw_question window) (fw_err window) :: fl_lines l))
  end.

(** Whether [failed] counts an error. *)
Definition counts (err : error) : bool := logger && negb (errors_Is err "context.Canceled") && negb (IsLoggedFailure err).

(** ** The log at work *)

(** Failures and timers in any order, with the failures so far, newest first; [None] is a
    log that panicked. *)
Inductive log_run : list string → Z → option failureLog → Prop :=
| log_start now : log_run [] now (Some (MkFailureLog ∅ [] []))
| log_failed history now l now' server message err :
    log_run history now (Some l) → now <= now' →
    log_run (if counts err then server :: history else history) now' (Some (failed now' server message err l).2)
| log_flush history now l now' server due before after :
    log_run history now (Some l) → now <= now' → due <= now' → fl_timers l = before ++ (server, due) :: after →
    log_run history now' (flush now' server (MkFailureLog (fl_windows l) (before ++ after) (fl_lines l))).

Definition last_time (lines : list logLine) (server : string) : option Z :=
  match List.find (λ ln, bool_decide (ln_server ln = server)) lines with
  | Some ln => Some (ln_time ln)
  | None => None
  end.

(** An interval at least between two lines of a server. *)
Fixpoint spaced (lines : list logLine) : Prop :=
  match lines with
  | [] => True
  | ln :: lines =>
      (∀ t, last_time lines (ln_server ln) = Some t → t + failureLogInterval <= ln_time ln) ∧ spaced lines
  end.

Fixpoint reported (lines : list logLine) (server : string) : Z :=
  match lines with
  | [] => 0
  | ln :: lines => (if bool_decide (ln_server ln = server) then ln_count ln else 0) + reported lines server
  end.

Fixpoint times (history : list string) (server : string) : Z :=
  match history with
  | [] => 0
  | s :: history => (if bool_decide (s = server) then 1 else 0) + times history server
  end.

Definition waiting (l : failureLog) (server : string) : Z :=
  match fl_windows l !! server with Some window => fw_count window | None => 0 end.

(** ** The invariant *)

(** A window is open exactly while a timer of its server runs, which ends an interval
    after the last line of the server; without one the last line is an interval old. *)
Record log_ok (history : list string) (now : Z) (l : failureLog) : Prop := {
  ok_timers : NoDup (map fst (fl_timers l));
  ok_windows : ∀ server, is_Some (fl_windows l !! server) ↔ server ∈ map fst (fl_timers l);
  ok_due : ∀ server due, (server, due) ∈ fl_timers l → ∃ t, last_time (fl_lines l) server = Some t ∧ due = t + failureLogInterval;
  ok_last : ∀ server t, last_time (fl_lines l) server = Some t → fl_windows l !! server = None → t + failureLogInterval <= now;
  ok_spaced : spaced (fl_lines l);
  ok_count : ∀ server, reported (fl_lines l) server + waiting l server = times history server;
  ok_nonneg : ∀ server, 0 <= waiting l server;
}.

Lemma last_time_cons ln lines server :
  last_time (ln :: lines) server = if bool_decide (ln_server ln = server) then Some (ln_time ln) else last_time lines server.
Proof. unfold last_time. cbn [List.find]. by destruct (bool_decide _). Qed.

Lemma log_later history now now' l : log_ok history now l → now <= now' → log_ok history now' l.
Proof. intros [? ? ? Hl ? ? ?] Hn. constructor; try done. intros s t Ht Hw. specialize (Hl s t Ht Hw). lia. Qed.

(** Another failure of a server with a window. *)
Lemma ok_more history now l server window question err :
  log_ok history now l → fl_windows l !! server = Some window →
  log_ok (server :: history) now
    (MkFailureLog (<[server := MkWindow (fw_count window + 1) question err]> (fl_windows l)) (fl_timers l) (fl_lines l)).
Proof.
  intros [Ht Hw Hd Hl Hs Hc Hn] E. constructor; cbn [fl_windows fl_timers fl_lines]; try done.
  - intros s. rewrite <- Hw. destruct (decide (s = server)) as [->|].
    + rewrite lookup_insert_eq, E. split; eauto.
    + by rewrite lookup_insert_ne by done.
  - intros s t Hlast Hnone. apply (Hl s t Hlast). destruct (decide (s = server)) as [->|].
    + by rewrite lookup_insert_eq in Hnone.
    + by rewrite lookup_insert_ne in Hnone by done.
  - intros s. specialize (Hc s). unfold waiting in *. cbn [fl_windows times]. destruct (decide (s = server)) as [->|].
    + rewrite lookup_insert_eq, bool_decide_true by done. rewrite E in Hc. cbn [fw_count]. lia.
    + rewrite lookup_insert_ne, bool_decide_false by done. lia.
  - intros s. specialize (Hn s). unfold waiting in *. cbn [fl_windows]. destruct (decide (s = server)) as [->|].
    + rewrite lookup_insert_eq. rewrite E in Hn. cbn [fw_count]. lia.
    + by rewrite lookup_insert_ne by done.
Qed.

(** A line is written, and a timer starts, for a server that has none. [count] failures are
    no longer waiting, [news] are new. *)
Lemma ok_line history' now ws timers lines server count window question err :
  NoDup (map fst timers) → server ∉ map fst timers →
  (∀ s, s ≠ server → (is_Some (ws !! s) ↔ s ∈ map fst timers)) →
  (∀ s due, (s, due) ∈ timers → ∃ t, last_time lines s = Some t ∧ due = t + failureLogInterval) →
  (∀ s t, last_time lines s = Some t → s = server ∨ ws !! s = None → t + failureLogInterval <= now) →
  spaced lines →
  (∀ s, reported lines s + (if bool_decide (s = server) then count else waiting (MkFailureLog ws [] []) s) = times history' s) →
  (∀ s, 0 <= waiting (MkFailureLog ws [] []) s) → fw_count window = 0 →
  log_ok history' now
    (MkFailureLog (<[server := window]> ws) ((server, now + failureLogInterval) :: timers)
       (MkLine server now count question err :: lines)).
Proof.
  intros Ht Hnew Hw Hd Hl Hs Hc Hn Hz. constructor; cbn [fl_windows fl_timers fl_lines map fst].
  - by constructor.
  - intros s. rewrite elem_of_cons. destruct (decide (s = server)) as [->|].
    + rewrite lookup_insert_eq. split; eauto.
    + rewrite lookup_insert_ne, Hw by done. tauto.
  - intros s due. rewrite elem_of_cons, last_time_cons. cbn [ln_server ln_time]. intros [[= -> ->]|Hin].
    + rewrite bool_decide_true by done. eauto.
    + rewrite bool_decide_false; [by apply Hd|]. intros <-. apply Hnew. apply list_elem_of_fmap. by exists (server, due).
  - intros s t. rewrite last_time_cons. cbn [ln_server]. destruct (decide (s = server)) as [->|].
    + by rewrite lookup_insert_eq.
    + rewrite bool_decide_false, lookup_insert_ne by done. eauto.
  - split; [|done]. cbn [ln_server ln_time]. eauto.
  - intros s. specialize (Hc s). unfold waiting in *. cbn [fl_windows reported ln_server ln_count] in *.
    destruct (decide (s = server)) as [->|].
    + rewrite lookup_insert_eq, Hz. rewrite !bool_decide_true in * by done. lia.
    + rewrite lookup_insert_ne by done. rewrite !bool_decide_false in * by done. lia.
  - intros s. specialize (Hn s). unfold waiting in *. cbn [fl_windows] in *. destruct (decide (s = server)) as [->|].
    + rewrite lookup_insert_eq, Hz. lia.
    + by rewrite lookup_insert_ne by done.
Qed.

(** A window is closed when nothing is waiting. *)
Lemma ok_closed history now ws timers lines server window :
  NoDup (map fst timers) → server ∉ map fst timers → (∀ s, is_Some (ws !! s) ↔ s = server ∨ s ∈ map fst timers) →
  (∀ s due, (s, due) ∈ timers → ∃ t, last_time lines s = Some t ∧ due = t + failureLogInterval) →
  (∀ s t, last_time lines s = Some t → s = server ∨ ws !! s = None → t + failureLogInterval <= now) →
  spaced lines → (∀ s, reported lines s + waiting (MkFailureLog ws [] []) s = times history s) →
  (∀ s, 0 <= waiting (MkFailureLog ws [] []) s) → ws !! server = Some window → fw_count window = 0 →
  log_ok history now (MkFailureLog (delete server ws) timers lines).
Proof.
  intros Ht Hnew Hw Hd Hl Hs Hc Hn E Hz.
  assert (Hwait : ∀ s, waiting (MkFailureLog (delete server ws) timers lines) s = waiting (MkFailureLog ws [] []) s).
  { intros s. unfold waiting. cbn [fl_windows]. destruct (decide (s = server)) as [->|].
    - by rewrite lookup_delete_eq, E.
    - by rewrite lookup_delete_ne by done. }
  constructor; cbn [fl_windows fl_timers fl_lines]; try done.
  - intros s. destruct (decide (s = server)) as [->|].
    + rewrite lookup_delete_eq. split; [by intros [? [=]]|done].
    + rewrite lookup_delete_ne, Hw by done. tauto.
  - intros s t Hlast. destruct (decide (s = server)) as [->|]; [eauto|]. rewrite lookup_delete_ne by done. eauto.
  - intros s. by rewrite Hwait.
  - intros s. by rewrite Hwait.
Qed.

Lemma failed_ok history now l server message err :
  log_ok history now l →
  log_ok (if counts err then server :: history else history) now (failed now server message err l).2.
Proof.
  intros Hok. unfold failed, counts. destruct logger, (errors_Is err _), (IsLoggedFailure err); cbn [negb orb andb snd]; try done.
  destruct (fl_windows l !! server) as [window|] eqn:E; [by apply ok_more|].
  destruct Hok as [Ht Hw Hd Hl Hs Hc Hn].
  assert (Hout : server ∉ map fst (fl_timers l)) by (rewrite <- Hw, E; intros [? [=]]).
  apply ok_line; try done.
  - intros s t Hlast [->|Hnone]; by eapply Hl.
  - intros s. specialize (Hc s). cbn [times]. unfold waiting in *. cbn [fl_windows]. destruct (decide (s = server)) as [->|].
    + rewrite !bool_decide_true by done. rewrite E in Hc. lia.
    + rewrite !bool_decide_false by done. lia.
Qed.

(** A timer that is due runs: there is a window. *)
Lemma flush_ok history now l server due before after :
  log_ok history now l → due <= now → fl_timers l = before ++ (server, due) :: after →
  ∃ l', flush now server (MkFailureLog (fl_windows l) (before ++ after) (fl_lines l)) = Some l' ∧ log_ok history now l'.
Proof.
  intros [Ht Hw Hd Hl Hs Hc Hn] Hdue Etimers. set (rest := before ++ after).
  assert (Hp : fl_timers l ≡ₚ (server, due) :: rest) by (rewrite Etimers; symmetry; apply Permutation_middle).
  assert (Hkeys : map fst (fl_timers l) ≡ₚ server :: map fst rest) by (by rewrite Hp).
  rewrite Hkeys in Ht. apply NoDup_cons in Ht as [Hnew Hrest].
  assert (Hin : ∀ s, is_Some (fl_windows l !! s) ↔ s = server ∨ s ∈ map fst rest).
  { intros s. by rewrite Hw, Hkeys, elem_of_cons. }
  destruct (Hd server due) as (t & Hlast & ->); [rewrite Hp; apply elem_of_cons; by left|].
  assert (Hdue' : ∀ s due, (s, due) ∈ rest → ∃ t, last_time (fl_lines l) s = Some t ∧ due = t + failureLogInterval).
  { intros s d Hi. apply Hd. rewrite Hp. apply elem_of_cons. by right. }
  assert (Hold : ∀ s t, last_time (fl_lines l) s = Some t → s = server ∨ fl_windows l !! s = None → t + failureLogInterval <= now).
  { intros s t' Hs' [->|Hnone]; [|by eapply Hl]. rewrite Hlast in Hs'. by injection Hs' as <-. }
  unfold flush. cbn [fl_windows fl_timers fl_lines].
  destruct (proj2 (Hin server) (or_introl eq_refl)) as [window E]. rewrite E. eexists; split; [done|].
  destruct (fw_count window =? 0) eqn:Ez.
  - apply Z.eqb_eq in Ez. apply ok_closed with window; try done.
  - apply ok_line; try done.
    + intros s Hne. rewrite Hin. tauto.
    + intros s. rewrite <- Hc. unfold waiting. cbn [fl_windows]. destruct (decide (s = server)) as [->|].
      * rewrite bool_decide_true, E by done. lia.
      * rewrite bool_decide_false by done. lia.
Qed.
End failures.


Lemma run_ok logger FormatQuestion history now l :
  log_run logger FormatQuestion history now l → ∃ l', l = Some l' ∧ log_ok history now l'.
Proof.
  induction 1 as [now|h now l now' server message err _ IH Hn|h now l now' server due before after _ IH Hn Hd E].
  - eexists; split; [done|]. constructor; cbn [map fl_timers fl_windows fl_lines]; try done; [apply NoDup_nil_2| |].
    + intros s. rewrite lookup_empty. split; [by intros [? [=]]|]. by intros Hs%elem_of_nil.
    + intros s due Hs. by apply elem_of_nil in Hs.
  - destruct IH as (l' & [= <-] & Hok). eexists; split; [done|]. by eapply failed_ok, log_later.
  - destruct IH as (l' & [= <-] & Hok).
    destruct (flush_ok h now' l server due before after) as (l' & -> & Hok'); [by eapply log_later|done|done|]. by exists l'.
Qed.

(** The failure log, after any sequence of failures and of timers that run on time or
    late: it never panics; two lines of a server are at least an interval apart; no
    failure is lost, since for every server the failures that its lines stand for and
    those that wait for a line are all that there were; and as long as some wait, a timer
    of the server runs. *)
Theorem failures_reported logger FormatQuestion history now l :
  log_run logger FormatQuestion history now l →
  ∃ l', l = Some l' ∧ spaced (fl_lines l') ∧
    ∀ server, reported (fl_lines l') server + waiting l' server = times history server ∧
      (0 < waiting l' server → ∃ due, (server, due) ∈ fl_timers l').
Proof.
  intros Hr. destruct (run_ok _ _ _ _ _ Hr) as (l' & -> & [Ht Hw Hd Hl Hs Hc Hn]). exists l'. split; [done|]. split; [done|].
  intros server. split; [done|]. intros Hpos. unfold waiting in Hpos.
  destruct (fl_windows l' !! server) as [window|] eqn:E; [|lia].
  assert (Hin : server ∈ map fst (fl_timers l')) by by apply Hw; rewrite E.
  apply list_elem_of_fmap in Hin as ([s due] & -> & Hin). by exists due.
Qed.

Definition c_format (q : Question) : string := q_Name q.

(** Three failures in one interval: a line for the first, one for the two others. *)
Lemma failures_reported_witness :
  let fail now l := (failed true c_format now "a" (lookup_message "b." 1) (ENew "timeout") l).2 in
  let l := fail 3 (fail 2 (fail 1 (MkFailureLog ∅ [] []))) in
  let l' := flush (1 + failureLogInterval) "a" (MkFailureLog (fl_windows l) [] (fl_lines l)) in
  option_map (λ l, map ln_count (fl_lines l)) l' = Some [2; 1] ∧
  ∃ l1, l' = Some l1 ∧ spaced (fl_lines l1) ∧
    ∀ server, reported (fl_lines l1) server + waiting l1 server = times ["a"; "a"; "a"]%string server ∧
      (0 < waiting l1 server → ∃ due, (server, due) ∈ fl_timers l1).
Proof.
  split; [vm_compute; reflexivity|].
  apply (failures_reported true c_format ["a"; "a"; "a"]%string (1 + failureLogInterval)).
  eapply (log_flush _ _ _ 3 _ _ _ (1 + failureLogInterval) [] []); [|vm_compute; discriminate|reflexivity|reflexivity].
  apply (log_failed true c_format ["a"; "a"]%string 2 _ 3 "a" _ (ENew "timeout")); [|done].
  apply (log_failed true c_format ["a"]%string 1 _ 2 "a" _ (ENew "timeout")); [|done].
  apply (log_failed true c_format [] 0 _ 1 "a" _ (ENew "timeout")); [|done]. constructor.
Defined.
