(* ===== verification/RouteSniff.v ===== *)
(** * Sniffing: common/sniff/sniff.go and [actionSniff] of route/route.go

    What a router reads of a connection before it routes it. The sniffers, functions that
    [PeekStream] and [PeekPacket] are given, are parameters: a sniffer reads and sets the
    protocol, the domain, the client and a context of its own, and it may panic. A connection is the list of the things that its
    reads return. Logging is left out. *)
From Stdlib Require Import Strings.Byte.
From stdpp Require Import base list gmap strings.
From S2P Require Import Prelude Netip Metadata RuleItems RuleAction RuleMatch.

#[export] Instance Socksaddr_eq_dec : EqDecision Socksaddr.
Proof. solve_decision. Defined.

(** ** The metadata of a connection *)

(** Fields of [InboundContext] that [RuleMatch] has no need of: what route options set. *)
Record DialOptions : Type := MkDialOptions {
  do_NetworkStrategy : option Z;
  do_NetworkType : list Z;
  do_FallbackNetworkType : list Z;
  do_FallbackDelay : Z;
  do_UDPDisableDomainUnmapping : bool;
  do_UDPConnect : bool;
  do_UDPTimeout : Z;
  do_TLSFragment : bool;
  do_TLSFragmentFallbackDelay : Z;
  do_TLSRecordFragment : bool;
  do_TLSSpoof : string;
  do_TLSSpoofMethod : Z;
}.

(** What a sniffer does. *)
Inductive sniffed : Type :=
| SniffOk
| SniffErr (e : error)
| SniffPanic (value : string).

(** The fields of the metadata that a sniffer reads and sets. *)
Record sniffFields (S : Type) : Type := MkSniffFields {
  sf_Protocol : string;
  sf_Domain : string;
  sf_Client : string;
  sf_Context : option S;
}.
Arguments MkSniffFields {S}.
Arguments sf_Protocol {S}.
Arguments sf_Domain {S}.
Arguments sf_Client {S}.
Arguments sf_Context {S}.

(** The sniffers, and what sing's metadata package tells of destinations. *)
Class Sniffers : Type := {
  SniffContext : Type;
  stream_sniff : StreamSniffer → sniffFields SniffContext → list (list byte) → sniffFields SniffContext * sniffed;
  packet_sniff : PacketSniffer → sniffFields SniffContext → list byte → sniffFields SniffContext * sniffed;
  Socksaddr_IsDomain : Socksaddr → bool;
  Socksaddr_IsIPv4 : Socksaddr → bool;
  Socksaddr_IsValid : Socksaddr → bool;
  IsDomainName : string → bool;
  (** the destinations of sing-mux, sing-vmess and UDP over TCP *)
  mux_Destination : string;
  vmess_MuxDestination : string;
  uot_MagicAddress : string;
  uot_LegacyMagicAddress : string;
}.

(** [adapter.InboundContext], with the fields of a connection. *)
Record RouteContext `{Sniffers} : Type := MkRouteContext {
  rc_md : InboundContext;
  rc_OriginDestination : Socksaddr;
  rc_RouteOriginalDestination : Socksaddr;
  rc_FakeIP : bool;
  rc_dial : DialOptions;
  rc_SnifferNames : list string;
  rc_SniffError : option error;
  rc_SniffContext : option SniffContext;
}.

(** Assignments to the metadata *)
Definition md_set_route (ipVersion : Z) (destination : Socksaddr) (addresses : list Addr) (md : InboundContext) : InboundContext :=
  MkInboundContext (md_Inbound md) ipVersion (md_Network md) (md_Source md) destination (md_User md)
    (md_Outbound md) (md_Protocol md) (md_Domain md) (md_Client md) addresses (md_DNSResponse md)
    (md_NamedDNSResponses md) (md_DestinationAddressMatchFromResponse md) (md_ProcessInfo md) (md_SourceMACAddress md)
    (md_SourceHostname md) (md_QueryType md) (md_QueryClientSubnet md) (md_QueryDNSSEC md) (md_PreMatch md) (md_cache md).
Definition md_set_Destination (destination : Socksaddr) (md : InboundContext) : InboundContext :=
  md_set_route (md_IPVersion md) destination (md_DestinationAddresses md) md.
Definition md_set_sniffed (protocol domain client : string) (md : InboundContext) : InboundContext :=
  MkInboundContext (md_Inbound md) (md_IPVersion md) (md_Network md) (md_Source md) (md_Destination md) (md_User md)
    (md_Outbound md) protocol domain client (md_DestinationAddresses md) (md_DNSResponse md)
    (md_NamedDNSResponses md) (md_DestinationAddressMatchFromResponse md) (md_ProcessInfo md) (md_SourceMACAddress md)
    (md_SourceHostname md) (md_QueryType md) (md_QueryClientSubnet md) (md_QueryDNSSEC md) (md_PreMatch md) (md_cache md).
Definition md_set_found (process : option ConnectionOwner) (mac : option (list byte)) (hostname : string) (md : InboundContext)
    : InboundContext :=
  MkInboundContext (md_Inbound md) (md_IPVersion md) (md_Network md) (md_Source md) (md_Destination md) (md_User md)
    (md_Outbound md) (md_Protocol md) (md_Domain md) (md_Client md) (md_DestinationAddresses md) (md_DNSResponse md)
    (md_NamedDNSResponses md) (md_DestinationAddressMatchFromResponse md) process mac hostname (md_QueryType md)
    (md_QueryClientSubnet md) (md_QueryDNSSEC md) (md_PreMatch md) (md_cache md).
Definition md_set_call (network : string) (preMatch : bool) (md : InboundContext) : InboundContext :=
  MkInboundContext (md_Inbound md) (md_IPVersion md) network (md_Source md) (md_Destination md) (md_User md)
    (md_Outbound md) (md_Protocol md) (md_Domain md) (md_Client md) (md_DestinationAddresses md) (md_DNSResponse md)
    (md_NamedDNSResponses md) (md_DestinationAddressMatchFromResponse md) (md_ProcessInfo md) (md_SourceMACAddress md)
    (md_SourceHostname md) (md_QueryType md) (md_QueryClientSubnet md) (md_QueryDNSSEC md) preMatch (md_cache md).

Section sniff.
Context `{Extern} `{Sniffers}.

Definition rc_set_md (md : InboundContext) (rc : RouteContext) : RouteContext :=
  MkRouteContext _ md (rc_OriginDestination rc) (rc_RouteOriginalDestination rc) (rc_FakeIP rc) (rc_dial rc)
    (rc_SnifferNames rc) (rc_SniffError rc) (rc_SniffContext rc).
Definition rc_set_sniff (names : list string) (err : option error) (rc : RouteContext) : RouteContext :=
  MkRouteContext _ (rc_md rc) (rc_OriginDestination rc) (rc_RouteOriginalDestination rc) (rc_FakeIP rc) (rc_dial rc)
    names err (rc_SniffContext rc).
Definition rc_fields (rc : RouteContext) : sniffFields SniffContext :=
  MkSniffFields (md_Protocol (rc_md rc)) (md_Domain (rc_md rc)) (md_Client (rc_md rc)) (rc_SniffContext rc).
Definition rc_set_fields (f : sniffFields SniffContext) (rc : RouteContext) : RouteContext :=
  MkRouteContext _ (md_set_sniffed (sf_Protocol f) (sf_Domain f) (sf_Client f) (rc_md rc)) (rc_OriginDestination rc)
    (rc_RouteOriginalDestination rc) (rc_FakeIP rc) (rc_dial rc) (rc_SnifferNames rc) (rc_SniffError rc) (sf_Context f).

(** ** Sniffers *)

Definition ErrNeedMoreData : error := ENamed "sniff.ErrNeedMoreData".
Definition needs_more (err : option error) : bool :=
  match err with Some e => errors_Is e "sniff.ErrNeedMoreData" | None => false end.

(** [recovered] of what a sniffer did: the metadata and the error. *)
Definition recovered (rc : RouteContext) (r : sniffFields SniffContext * sniffed) : RouteContext * option error :=
  match r.2 with
  | SniffOk => (rc_set_fields r.1 rc, None)
  | SniffErr e => (rc_set_fields r.1 rc, Some e)
  | SniffPanic value => (rc, Some (ECause (ENamed "sniff.ErrSnifferPanicked") value))
  end.

(** The loop over the sniffers, which ends with the first that finds something. *)
Fixpoint run_sniffers {A} (sniff : A → sniffFields SniffContext → sniffFields SniffContext * sniffed)
    (sniffers : list A) (rc : RouteContext) (sniffError : option error) : RouteContext * option error :=
  match sniffers with
  | [] => (rc, sniffError)
  | sniffer :: sniffers =>
      match recovered rc (sniff sniffer (rc_fields rc)) with
      | (rc, None) => (rc, None)
      | (rc, Some e) => run_sniffers sniff sniffers rc (E_Errors sniffError (Some e))
      end
  end.

(** [PeekPacket] *)
Definition PeekPacket (rc : RouteContext) (packet : list byte) (sniffers : list PacketSniffer) : RouteContext * option error :=
  run_sniffers (λ s f, packet_sniff s f packet) sniffers rc None.

(** Ports of protocols in which the server speaks first. *)
Definition Skip (md : InboundContext) : bool := mem (sa_Port (md_Destination md)) [25; 465; 587; 143; 993; 110; 995].

(** ** Streams *)

(** What a read of a stream returns; with [DeadlineFailed] the deadline could not be set.
    After the last one a read times out. *)
Inductive readEvent : Type :=
| ReadBytes (l : list byte)
| ReadFailed (e : error)
| DeadlineFailed (e : error).

Definition ErrTimeout : error := ENamed "os.ErrDeadlineExceeded".

(** The loop of [PeekStream]: what is left of the stream, the buffer, the metadata and the
    error. [held] are the buffers before. *)
Fixpoint PeekStream (held : list (list byte)) (sniffers : list StreamSniffer) (first : bool) (events : list readEvent)
    (buffer : list byte) (sniffError : option error) (rc : RouteContext)
    : list readEvent * list byte * RouteContext * option error :=
  let failed events e := (events, buffer, rc, if first then Some (ECause e "read payload") else sniffError) in
  match events with
  | [] => failed [] ErrTimeout
  | DeadlineFailed e :: events => (events, buffer, rc, Some (ECause e "set read deadline"))
  | ReadFailed e :: events => failed events e
  | ReadBytes l :: events =>
      let buffer := buffer ++ l in
      match run_sniffers (λ s f, stream_sniff s f (held ++ [buffer])) sniffers rc None with
      | (rc, None) => (events, buffer, rc, None)
      | (rc, err) =>
          if needs_more err then PeekStream held sniffers false events buffer err rc else (events, buffer, rc, err)
      end
  end.

(** ** Packets *)

(** What reading a packet ends with; [PacketCanceled] is the context of the connection. *)
Inductive packetEvent : Type :=
| PacketRead (destination : Socksaddr) (l : list byte)
| PacketTimeout (e : error)
| PacketFailed (e : error)
| PacketCanceled (e : error).

Definition maxSniffPackets : nat := 16.

Definition quicMoreData (names : list string) (rc : RouteContext) : bool :=
  bool_decide (rc_SnifferNames rc = names) && needs_more (rc_SniffError rc).

(** A packet is sniffed, with QUIC only if a QUIC hello has started. *)
Definition sniff_packet (names : list string) (sniffers : list PacketSniffer) (packet : list byte) (rc : RouteContext)
    : RouteContext :=
  let '(rc, err) := PeekPacket rc packet (if quicMoreData names rc then [QUICClientHello] else sniffers) in
  rc_set_sniff names err rc.

(** The packets that an earlier sniff read; [true] when they were enough. *)
Fixpoint sniff_held (names : list string) (sniffers : list PacketSniffer) (held : list (Socksaddr * list byte)) (rc : RouteContext)
    : bool * RouteContext :=
  match held with
  | [] => (false, rc)
  | (_, packet) :: held =>
      let rc := sniff_packet names sniffers packet rc in
      if needs_more (rc_SniffError rc) then sniff_held names sniffers held rc else (true, rc)
  end.

(** The loop that reads packets: what is left of the connection, the packets that were
    read, the metadata and the error that is fatal. [count] are the packets before. *)
Fixpoint read_packets (names : list string) (sniffers : list PacketSniffer) (count : nat) (events : list packetEvent)
    (rc : RouteContext) : list packetEvent * list (Socksaddr * list byte) * RouteContext * option error :=
  if (maxSniffPackets <=? count)%nat
  then (events, [], rc_set_sniff (rc_SnifferNames rc) (Some (ENew "no sniff result in 16 packets")) rc, None)
  else match events with
  | [] => ([], [], rc, None)
  | PacketTimeout _ :: events => (events, [], rc, None)
  | PacketFailed e :: events | PacketCanceled e :: events => (events, [], rc, Some e)
  | PacketRead destination packet :: events =>
      let rc := sniff_packet names sniffers packet rc in
      if needs_more (rc_SniffError rc) then
        let '(events, packets, rc, err) := read_packets names sniffers (S count) events rc in
        (events, (destination, packet) :: packets, rc, err)
      else (events, [(destination, packet)], rc, None)
  end.

(** ** [actionSniff] *)

(** The connection of a match, with what was read of it and is to be read again. *)
Inductive connInput : Type :=
| StreamConn (events : list readEvent) (buffers : list (list byte))
| PacketConn (events : list packetEvent) (packets : list (Socksaddr * list byte)).

Definition defaultStreamSniffers : list StreamSniffer := [TLSClientHello; HTTPHost; StreamDomainNameQuery; BitTorrent; SSH; RDP].
Definition defaultPacketSniffers : list PacketSniffer := [DomainNameQuery; QUICClientHello; STUNMessage; UTP; UDPTracker; DTLSRecord; NTP].

(** A sniff with the same sniffers that failed for good is not made again. *)
Definition failed_before (names : list string) (rc : RouteContext) : bool :=
  bool_decide (rc_SnifferNames rc = names) && bool_decide (rc_SniffError rc ≠ None) && negb (needs_more (rc_SniffError rc)).

(** [OverrideDestination] of the action, which nothing in the program sets, is left out. *)
Definition actionSniff (names : list string) (stream : list StreamSniffer) (packet : list PacketSniffer) (conn : connInput)
    (rc : RouteContext) : connInput * RouteContext * option error :=
  if Skip (rc_md rc) || nonempty (md_Protocol (rc_md rc)) then (conn, rc, None)
  else match conn with
  | StreamConn events buffers =>
      if (negb (has_items stream) && has_items packet) || failed_before names rc then (conn, rc, None)
      else
        let sniffers := if has_items stream then stream else defaultStreamSniffers in
        let '(events, buffer, rc, err) := PeekStream buffers sniffers true events [] None rc in
        (StreamConn events (if has_items buffer then buffers ++ [buffer] else buffers), rc_set_sniff names err rc, None)
  | PacketConn events packets =>
      if (negb (has_items packet) && has_items stream) || failed_before names rc then (conn, rc, None)
      else
        let sniffers := if has_items packet then packet else defaultPacketSniffers in
        let '(enough, rc) := sniff_held names sniffers packets rc in
        if enough then (conn, rc, None)
        else
          let '(events, read, rc, err) := read_packets names sniffers (length packets) events rc in
          (PacketConn events (packets ++ read), rc, err)
  end.
End sniff.
