(* ===== verification/RouteMatch.v ===== *)
(** * Routing connections: route/route.go

    From the metadata of a connection to the outbound it goes through: what is found out
    about it, the rules with their actions, the chain of groups to the outbound, and the
    match of a first packet before there is a connection. The other parts the router asks
    (FakeIP store, DNS router, outbounds, processes, neighbours) are a record of
    functions, [RouterEnv]. Trackers and logging are left out. *)
From Stdlib Require Import Strings.Byte.
From stdpp Require Import base list gmap strings.
From S2P Require Import Prelude Netip Metadata RuleItems RuleAction RuleMatch DnsRouter RouteSniff.

(** ** Outbounds *)

Inductive PreMatchAction : Type :=
| PreMatchContinue | PreMatchFlow | PreMatchReject | PreMatchDrop | PreMatchBypass | PreMatchHijackDNS.

#[export] Instance PreMatchAction_eq_dec : EqDecision PreMatchAction.
Proof. solve_decision. Defined.

(** An outbound is an object, known by a number. A group that does not dial its members
    itself selects one of them for a network. *)
Inductive groupKind : Type :=
| NotGroup
| DialsMembers
| Selects (selected : string → option nat).

Record RouteOutbound : Type := MkOutbound {
  o_Tag : string;
  o_Network : list string;
  o_Group : groupKind;
  o_PreMatchFlow : option (string → Addr → PreMatchAction);
}.

(** [strings.ToUpper] of the name of a network, which is ASCII. *)
Definition ascii_upper (c : Ascii.ascii) : Ascii.ascii :=
  if (97 <=? ascii_code c) && (ascii_code c <=? 122) then Ascii.ascii_of_N (Ascii.N_of_ascii c - 32) else c.
Definition ascii_ToUpper (s : string) : string := string_map ascii_upper s.

Definition unsupported (network tag : string) : error :=
  ENew (ascii_ToUpper network +:+ " is not supported by outbound: " +:+ tag)%string.

(** The loop of [resolveOutbound]: the chain from the outbound on; [None] when the fuel is
    used up. *)
Fixpoint resolveOutbound (object : nat → RouteOutbound) (fuel : nat) (outbound : nat) (network : string)
    : option (result (list nat)) :=
  match fuel with
  | O => None
  | S fuel =>
      match o_Group (object outbound) with
      | Selects selected =>
          match selected network with
          | None => Some (Err (unsupported network (o_Tag (object outbound))))
          | Some member =>
              match resolveOutbound object fuel member network with
              | Some (Ok chain) => Some (Ok (outbound :: chain))
              | r => r
              end
          end
      | _ => Some (if mem network (o_Network (object outbound)) then Ok [outbound]
                   else Err (unsupported network (o_Tag (object outbound))))
      end
  end.

(** ** The router *)

Section route.
Context `{Extern} `{Sniffers}.

Record RouterEnv : Type := MkRouterEnv {
  re_env : Env;
  re_rules : list HeadlessRule;
  re_processSearcher : option (string → Addr * Z → option (Addr * Z) → option ConnectionOwner);
  re_isLocalSource : Addr → bool;
  re_neighborResolver : option ((Addr → option (list byte)) * (Addr → option string));
  re_fakeip : option ((Addr → bool) * (Addr → option string));
  re_LookupReverseMapping : Addr → option string;
  re_Transport : string → option DNSTransport;
  re_Lookup : nat → InboundContext → string → DNSQueryOptions → list Addr * option error;
  re_rejectError : RuleAction → option error;
  re_inbound : string → option (bool * bool);
  re_object : nat → RouteOutbound;
  re_Outbound : string → option nat;
  re_Default : nat;
  re_defaultOutbound : nat;
  re_fuel : nat;
}.
Context (r : RouterEnv).

Definition rc_update (f : InboundContext → InboundContext) (rc : RouteContext) : RouteContext := rc_set_md (f (rc_md rc)) rc.

(** ** What is found out about a connection *)

Definition errMissingFakeIPRecord : error := ENew "missing fakeip record".

(** [searchProcessInfo]: the searcher has found the process or not, its cache does not
    show. *)
Definition searchProcessInfo (rc : RouteContext) : RouteContext :=
  let md := rc_md rc in
  let addrPort a := (sa_Addr a, sa_Port a) in
  match re_processSearcher r with
  | None => rc
  | Some search =>
      if bool_decide (md_ProcessInfo md ≠ None) || negb (re_isLocalSource r (sa_Addr (md_Source md))) then rc
      else
        let originDestination :=
          if Socksaddr_IsValid (rc_OriginDestination rc) then Some (addrPort (rc_OriginDestination rc))
          else if Socksaddr_IsIP (md_Destination md) then Some (addrPort (md_Destination md)) else None in
        match search (md_Network md) (addrPort (md_Source md)) originDestination with
        | None => rc
        | Some owner => rc_set_md (md_set_found (Some owner) (md_SourceMACAddress md) (md_SourceHostname md) md) rc
        end
  end.

Definition find_neighbor (md : InboundContext) : InboundContext :=
  match re_neighborResolver r with
  | Some (lookupMAC, lookupHostname) =>
      if bool_decide (md_SourceMACAddress md = None) && Addr_IsValid (sa_Addr (md_Source md)) then
        let mac := match lookupMAC (sa_Addr (md_Source md)) with Some mac => Some mac | None => md_SourceMACAddress md end in
        let hostname := default (md_SourceHostname md) (lookupHostname (sa_Addr (md_Source md))) in
        md_set_found (md_ProcessInfo md) mac hostname md
      else md
  | None => md
  end.

(** The destination of a connection to the address of a domain. *)
Definition to_domain (domain : string) (rc : RouteContext) : RouteContext :=
  let destination := md_Destination (rc_md rc) in
  MkRouteContext _ (md_set_Destination (MkSocksaddr AddrZero (sa_Port destination) domain) (rc_md rc)) destination
    (rc_RouteOriginalDestination rc) true (rc_dial rc) (rc_SnifferNames rc) (rc_SniffError rc) (rc_SniffContext rc).

(** The domain of the destination, by the FakeIP store or by an earlier answer. *)
Definition find_domain (rc : RouteContext) : RouteContext * option error :=
  let md := rc_md rc in
  let address := sa_Addr (md_Destination md) in
  let mapped :=
    if nonempty (md_Domain md) then rc
    else match re_LookupReverseMapping r address with
         | Some domain => rc_set_md (md_set_sniffed (md_Protocol md) domain (md_Client md) md) rc
         | None => rc
         end in
  match re_fakeip r with
  | Some (contains, lookup) =>
      if Addr_IsValid address && contains address then
        match lookup address with
        | None => (rc, Some errMissingFakeIPRecord)
        | Some domain => (if nonempty domain then to_domain domain rc else rc, None)
        end
      else (mapped, None)
  | None => (mapped, None)
  end.

Definition set_version (md : InboundContext) : InboundContext :=
  md_set_route (if Socksaddr_IsIPv4 (md_Destination md) then 4
                else if Socksaddr_IsIPv6 (md_Destination md) then 6 else md_IPVersion md)
    (md_Destination md) (md_DestinationAddresses md) md.

Definition prepareMatchMetadata (rc : RouteContext) : RouteContext * option error :=
  let rc := rc_update find_neighbor (searchProcessInfo rc) in
  match find_domain rc with
  | (rc, Some e) => (rc, Some e)
  | (rc, None) => (rc_update set_version rc, None)
  end.

(** ** Actions *)

Definition dial_set_UDPTimeout (v : Z) (d : DialOptions) : DialOptions :=
  MkDialOptions (do_NetworkStrategy d) (do_NetworkType d) (do_FallbackNetworkType d) (do_FallbackDelay d)
    (do_UDPDisableDomainUnmapping d) (do_UDPConnect d) v (do_TLSFragment d) (do_TLSFragmentFallbackDelay d)
    (do_TLSRecordFragment d) (do_TLSSpoof d) (do_TLSSpoofMethod d).

Definition rc_set_dial (d : DialOptions) (rc : RouteContext) : RouteContext :=
  MkRouteContext _ (rc_md rc) (rc_OriginDestination rc) (rc_RouteOriginalDestination rc) (rc_FakeIP rc) d
    (rc_SnifferNames rc) (rc_SniffError rc) (rc_SniffContext rc).

Definition override_destination (o : RuleActionRouteOptions) (destination : Socksaddr) : Socksaddr :=
  let destination := if Socksaddr_IsValid (OverrideAddress o)
                     then MkSocksaddr (sa_Addr (OverrideAddress o)) (sa_Port destination) (sa_Fqdn (OverrideAddress o))
                     else destination in
  if 0 <? OverridePort o then MkSocksaddr (sa_Addr destination) (OverridePort o) (sa_Fqdn destination) else destination.

Definition applyRouteOptionsOverride (o : RuleActionRouteOptions) (rc : RouteContext) : RouteContext :=
  let rc := rc_update (λ md, md_set_Destination (override_destination o (md_Destination md)) md) rc in
  if 0 <? UDPTimeout o then rc_set_dial (dial_set_UDPTimeout (UDPTimeout o) (rc_dial rc)) rc else rc.

Definition dial_options (o : RuleActionRouteOptions) (d : DialOptions) : DialOptions :=
  MkDialOptions (match NetworkStrategy o with Some s => Some s | None => do_NetworkStrategy d end)
    (if has_items (NetworkType o) then NetworkType o else do_NetworkType d)
    (if has_items (FallbackNetworkType o) then FallbackNetworkType o else do_FallbackNetworkType d)
    (if FallbackDelay o =? 0 then do_FallbackDelay d else FallbackDelay o)
    (UDPDisableDomainUnmapping o || do_UDPDisableDomainUnmapping d)
    (UDPConnect o || do_UDPConnect d)
    (if 0 <? UDPTimeout o then UDPTimeout o else do_UDPTimeout d)
    (TLSFragment o || do_TLSFragment d)
    (if TLSFragment o then TLSFragmentFallbackDelay o else do_TLSFragmentFallbackDelay d)
    (TLSRecordFragment o || do_TLSRecordFragment d)
    (if nonempty (TLSSpoof o) then TLSSpoof o else do_TLSSpoof d)
    (if nonempty (TLSSpoof o) then TLSSpoofMethod o else do_TLSSpoofMethod d).

(** The options an action of [matchRule] sets. *)
Definition route_options (a : option RuleAction) : option RuleActionRouteOptions :=
  match a with
  | Some (RuleActionRoute _ o) | Some (RuleActionOfRouteOptions o) => Some o
  | Some (RuleActionBypass outbound o) => if nonempty outbound then Some o else None
  | _ => None
  end.

Definition apply_route_options (o : RuleActionRouteOptions) (rc : RouteContext) : RouteContext :=
  let md := rc_md rc in
  let overrides := Socksaddr_IsValid (OverrideAddress o) || (0 <? OverridePort o) in
  let original := if overrides && negb (Socksaddr_IsValid (rc_RouteOriginalDestination rc)) then md_Destination md
                  else rc_RouteOriginalDestination rc in
  let addresses := if Socksaddr_IsValid (OverrideAddress o) then [] else md_DestinationAddresses md in
  let rc := MkRouteContext _ (md_set_route (md_IPVersion md) (md_Destination md) addresses md) (rc_OriginDestination rc) original
              (rc_FakeIP rc) (rc_dial rc) (rc_SnifferNames rc) (rc_SniffError rc) (rc_SniffContext rc) in
  let rc := applyRouteOptionsOverride o rc in
  rc_set_dial (dial_options o (rc_dial rc)) rc.

(** [actionResolve]; [i] is the index of the rule. *)
Definition actionResolve (i : nat) (a : RuleAction) (rc : RouteContext) : RouteContext * option error :=
  match a with
  | RuleActionResolve server timeout strategy disableCache disableOptimisticCache rewriteTTL clientSubnet =>
      if Socksaddr_IsDomain (md_Destination (rc_md rc)) then
        match (if nonempty server then option_map Some (re_Transport r server) else Some None) with
        | None => (rc, Some (ENew ("DNS server not found: " +:+ server)%string))
        | Some transport =>
            match re_Lookup r i (rc_md rc) (sa_Fqdn (md_Destination (rc_md rc)))
                    (MkQueryOptions transport strategy 0 disableCache disableOptimisticCache rewriteTTL timeout clientSubnet false) with
            | (_, Some e) => (rc, Some e)
            | (addresses, None) =>
                (rc_update (λ md, md_set_route (md_IPVersion md) (md_Destination md) addresses md) rc, None)
            end
        end
      else (rc, None)
  | _ => (rc, None)
  end.

(** ** [matchRule] *)

(** Whether an action ends the walk. *)
Definition selects (a : option RuleAction) : bool :=
  match a with
  | Some (RuleActionRoute _ _) | Some (RuleActionReject _ _) | Some RuleActionHijackDNS => true
  | Some (RuleActionBypass outbound _) => nonempty outbound
  | _ => false
  end.

Record matchState : Type := MkMatchState {
  ms_rc : RouteContext;
  ms_conn : connInput;
  ms_missingFakeIP : bool;
}.

Definition ms_set (rc : RouteContext) (s : matchState) : matchState := MkMatchState rc (ms_conn s) (ms_missingFakeIP s).

(** What a matching rule does to the connection: sniffing, resolving. *)
Definition perform (i : nat) (a : option RuleAction) (s : matchState) : matchState * option error :=
  match a with
  | Some (RuleActionSniff names stream packet _) =>
      let '(conn, rc, err) := actionSniff names stream packet (ms_conn s) (ms_rc s) in
      match err with
      | Some e => (MkMatchState rc conn (ms_missingFakeIP s), Some e)
      | None =>
          if ms_missingFakeIP s && IsDomainName (md_Domain (rc_md rc))
          then (MkMatchState (to_domain (md_Domain (rc_md rc)) rc) conn false, None)
          else (MkMatchState rc conn (ms_missingFakeIP s), None)
      end
  | Some (RuleActionResolve _ _ _ _ _ _ _ as a) => let '(rc, err) := actionResolve i a (ms_rc s) in (ms_set rc s, err)
  | _ => (s, None)
  end.

(** A matching rule: the options it sets and what it does. *)
Definition step_rule (i : nat) (rule : HeadlessRule) (s : matchState) : matchState * option error :=
  let a := DNSRule_Action rule in
  perform i a (match route_options a with Some o => ms_set (apply_route_options o (ms_rc s)) s | None => s end).

(** The loop of [matchRule]: the rule that ends it with its index, or the error. *)
Fixpoint match_loop (i : nat) (rules : list HeadlessRule) (s : matchState)
    : matchState * option (HeadlessRule * nat) * option error :=
  match rules with
  | [] => (s, None, None)
  | rule :: rules =>
      let '(m, md) := HeadlessRule_Match (re_env r) rule (reset_cache (rc_md (ms_rc s))) in
      let s := ms_set (rc_set_md md (ms_rc s)) s in
      if negb m then match_loop (S i) rules s
      else match step_rule i rule s with
           | (s, Some e) => (s, None, Some e)
           | (s, None) =>
               if selects (DNSRule_Action rule) then (s, Some (rule, i), None) else match_loop (S i) rules s
           end
  end.

(** What was read of a connection is given back to its pool. *)
Definition release_read (conn : connInput) : connInput :=
  match conn with
  | StreamConn events _ => StreamConn events []
  | PacketConn events _ => PacketConn events []
  end.

Definition matchRule (rc : RouteContext) (conn : connInput) : matchState * option (HeadlessRule * nat) * option error :=
  let '(rc, prepared) := prepareMatchMetadata rc in
  let missing := bool_decide (prepared = Some errMissingFakeIPRecord) in
  match prepared with
  | Some e => if missing then
                let '(s, selected, err) := match_loop 0 (re_rules r) (MkMatchState rc conn true) in
                if ms_missingFakeIP s && bool_decide (err = None)
                then (MkMatchState (ms_rc s) (release_read (ms_conn s)) true, None, Some errMissingFakeIPRecord)
                else (s, selected, err)
              else (MkMatchState rc conn false, None, Some e)
  | None => match_loop 0 (re_rules r) (MkMatchState rc conn false)
  end.

(** ** Where a connection goes *)

(** The fields of the metadata that say where a connection comes from. *)
Record Arrival : Type := MkArrival {
  ar_InboundType : string;
  ar_InboundDetour : string;
  ar_LastInbound : string;
}.

(** The verdict on a connection; [VerdictPanic] is a nil outbound, [VerdictInjected] a
    connection that another inbound is given, with where it comes from then. *)
Inductive Verdict : Type :=
| VerdictChain (chain : list nat)
| VerdictHijackDNS
| VerdictRefused (e : option error)
| VerdictInjected (a : Arrival) (inbound : string)
| VerdictLoops
| VerdictPanic.

(** The outbound of a selected rule. *)
Inductive routeTarget : Type :=
| TargetOutbound (outbound : nat)
| TargetHijackDNS
| TargetRefused (e : option error)
| TargetNone.

Definition outbound_target (tag : string) : routeTarget :=
  match re_Outbound r tag with
  | Some o => TargetOutbound o
  | None => TargetRefused (Some (ENew ("outbound not found: " +:+ tag)%string))
  end.

Definition rule_target (network : string) (selected : option (HeadlessRule * nat)) : routeTarget :=
  match selected with
  | None => TargetOutbound (re_defaultOutbound r)
  | Some (rule, _) =>
      match DNSRule_Action rule with
      | Some (RuleActionRoute outbound _) => outbound_target outbound
      | Some (RuleActionBypass outbound _) => if nonempty outbound then outbound_target outbound else TargetNone
      | Some (RuleActionReject method noDrop) =>
          TargetRefused (if bool_decide (method = "reply"%string)
                         then Some (ENew ("reject method `reply` is not supported for " +:+ ascii_ToUpper network +:+ " connections")%string)
                         else re_rejectError r (RuleActionReject method noDrop))
      | Some RuleActionHijackDNS => TargetHijackDNS
      | _ => TargetNone
      end
  end.

Definition target_verdict (network : string) (t : routeTarget) : Verdict :=
  match t with
  | TargetOutbound o =>
      match resolveOutbound (re_object r) (re_fuel r) o network with
      | None => VerdictLoops
      | Some (Ok chain) => VerdictChain chain
      | Some (Err e) => VerdictRefused (Some e)
      | Some (Panic _) => VerdictPanic
      end
  | TargetHijackDNS => VerdictHijackDNS
  | TargetRefused e => VerdictRefused e
  | TargetNone => VerdictPanic
  end.

(** The detour of an inbound, that a connection is given to instead. *)
Definition detour (injectable : bool * bool → bool) (label : string) (a : Arrival) (md : InboundContext) : option Verdict :=
  let tag := ar_InboundDetour a in
  if nonempty tag then
    Some (if bool_decide (ar_LastInbound a = tag) then VerdictRefused (Some (ENew ("routing loop on detour: " +:+ tag)%string))
          else match re_inbound r tag with
               | None => VerdictRefused (Some (ENew ("inbound detour not found: " +:+ tag)%string))
               | Some i =>
                   if injectable i then VerdictInjected (MkArrival (ar_InboundType a) "" (md_Inbound md)) tag
                   else VerdictRefused (Some (ENew ("inbound detour is not " +:+ label +:+ " injectable: " +:+ tag)%string))
               end)
  else None.

(** Destinations that protocols of old used. *)
Definition refused_destination (fqdn : string) : option Verdict :=
  let refused message := Some (VerdictRefused (Some (ENew message))) in
  if bool_decide (fqdn = mux_Destination)
  then refused "global multiplex is deprecated since sing-box v1.7.0, enable multiplex in Inbound fields instead."%string
  else if bool_decide (fqdn = vmess_MuxDestination)
  then refused "global multiplex (v2ray legacy) not supported since sing-box v1.7.0."%string
  else if bool_decide (fqdn = uot_MagicAddress) then refused "global UoT not supported since sing-box v1.7.0."%string
  else if bool_decide (fqdn = uot_LegacyMagicAddress) then refused "global UoT (legacy) not supported since sing-box v1.7.0."%string
  else None.

Definition tun_dns (a : Arrival) (md : InboundContext) : option Verdict :=
  if bool_decide (ar_InboundType a = "tun"%string) && bool_decide (md_Protocol md = "dns"%string) then Some VerdictHijackDNS
  else None.

Definition or_else (a b : option Verdict) : option Verdict := match a with Some v => Some v | None => b end.

(** The verdicts before a rule is asked. *)
Definition early_stream (a : Arrival) (md : InboundContext) : option Verdict :=
  or_else (detour fst "TCP" a md) (or_else (refused_destination (sa_Fqdn (md_Destination md))) (tun_dns a md)).
Definition early_packets (a : Arrival) (md : InboundContext) : option Verdict :=
  or_else (detour snd "UDP" a md) (tun_dns a md).

(** The rest of both: the state with what was read, which is read again, and the verdict. *)
Definition route_matched (network : string) (rc : RouteContext) (conn : connInput) : matchState * Verdict :=
  let rc := rc_update (λ md, md_set_call network (md_PreMatch md) md) rc in
  let '(s, selected, err) := matchRule rc conn in
  match err with
  | Some e => (s, VerdictRefused (Some e))
  | None => (s, target_verdict network (rule_target network selected))
  end.

(** [routeConnection] and [routePacketConnection], once the router is started. *)
Definition routeConnection (a : Arrival) (rc : RouteContext) (events : list readEvent) : matchState * Verdict :=
  match early_stream a (rc_md rc) with
  | Some v => (MkMatchState rc (StreamConn events []) false, v)
  | None => route_matched "tcp" rc (StreamConn events [])
  end.
Definition routePacketConnection (a : Arrival) (rc : RouteContext) (events : list packetEvent) : matchState * Verdict :=
  match early_packets a (rc_md rc) with
  | Some v => (MkMatchState rc (PacketConn events []) false, v)
  | None => route_matched "udp" rc (PacketConn events [])
  end.

(** What an outbound gets, and the DNS hijack of a stream: a cached connection per buffer,
    around the connection. *)
Definition hand_over {Conn B} (NewCachedConn : Conn → B → Conn) (conn : Conn) (buffers : list B) : Conn :=
  fold_left NewCachedConn buffers conn.

(** What the DNS hijack of packets answers: the packets it is given, and then what it reads
    of the connection, which is not wrapped. A session of a NAT table is given its packets
    first to last ([hijackDNSNatConn]), [NewDNSPacketConnection] reverses them. *)
Definition hijackDNSPacket {Conn P} (isNatConn : bool) (conn : Conn) (packetBuffers : list P) : list P * Conn :=
  if isNatConn then (packetBuffers, conn) else (rev packetBuffers, conn).

(** ** [PreMatch] *)

Record PreMatchResult : Type := MkPreMatchResult {
  pm_Action : PreMatchAction;
  pm_Outbound : option nat;
  pm_Destination : option (Addr * Z);
  pm_UDPTimeout : Z;
}.

Definition only (a : PreMatchAction) : PreMatchResult := MkPreMatchResult a None None 0.
Definition continueResult : PreMatchResult := only PreMatchContinue.

Definition PortProtocols (port : Z) : string :=
  if port =? 53 then "dns" else if port =? 123 then "ntp" else if port =? 3478 then "stun" else if port =? 443 then "quic" else "".
Definition ProtocolTimeouts (protocol : string) : Z :=
  if mem protocol ["dns"; "ntp"; "stun"]%string then 10 * 10 ^ 9
  else if mem protocol ["quic"; "dtls"]%string then 30 * 10 ^ 9 else 0.

Definition flow_timeout (rc : RouteContext) : Z :=
  let md := rc_md rc in
  if bool_decide (md_Network md = "udp"%string) then
    if 0 <? do_UDPTimeout (rc_dial rc) then do_UDPTimeout (rc_dial rc)
    else let protocol := if nonempty (md_Protocol md) then md_Protocol md else PortProtocols (sa_Port (md_Destination md)) in
         if nonempty protocol then ProtocolTimeouts protocol else 0
  else 0.

(** The end of [preMatchFlow], for the outbound at the end of the chain. *)
Definition flow_result (packetDestination : Socksaddr) (outbound : nat) (preMatchFlow : string → Addr → PreMatchAction)
    (rc : RouteContext) : PreMatchResult :=
  let md := rc_md rc in
  let destination := md_Destination md in
  let action := preMatchFlow (md_Network md) (sa_Addr destination) in
  if negb (bool_decide (action = PreMatchFlow)) then MkPreMatchResult action (Some outbound) None 0
  else if Socksaddr_IsDomain destination then
    if negb (rc_FakeIP rc) then continueResult
    else match List.find (λ a, Bool.eqb (Addr_Is4 a) (Socksaddr_IsIPv4 packetDestination)) (md_DestinationAddresses md) with
         | Some a =>
             if Addr_IsValid a then
               let action := preMatchFlow (md_Network md) a in
               if negb (bool_decide (action = PreMatchFlow)) then MkPreMatchResult action (Some outbound) None 0
               else MkPreMatchResult PreMatchFlow (Some outbound) (Some (a, sa_Port destination)) (flow_timeout rc)
             else only PreMatchReject
         | None => only PreMatchReject
         end
  else
    MkPreMatchResult PreMatchFlow (Some outbound)
      (if bool_decide (destination = packetDestination) then None else Some (sa_Addr destination, sa_Port destination))
      (flow_timeout rc).

Definition preMatchFlow (packetDestination : Socksaddr) (outboundTag : string) (rc : RouteContext) : PreMatchResult :=
  match (if nonempty outboundTag then re_Outbound r outboundTag else Some (re_Default r)) with
  | None => continueResult
  | Some outbound =>
      match resolveOutbound (re_object r) (re_fuel r) outbound (md_Network (rc_md rc)) with
      | Some (Ok chain) =>
          match last chain with
          | Some outbound =>
              match o_PreMatchFlow (re_object r outbound) with
              | None => continueResult
              | Some flow => flow_result packetDestination outbound flow rc
              end
          | None => continueResult
          end
      | _ => continueResult
      end
  end.

(** The sniff of a first packet: [None] when the match goes on without it. *)
Definition prematch_sniff (names : list string) (stream : list StreamSniffer) (packet : list PacketSniffer)
    (firstPacket : list byte) (rc : RouteContext) : option RouteContext :=
  let md := rc_md rc in
  if bool_decide (md_Network md = "icmp"%string) then Some rc
  else if negb (bool_decide (md_Network md = "udp"%string)) || negb (has_items firstPacket) then None
  else if Skip md || nonempty (md_Protocol md) then Some rc
  else if negb (has_items packet) && has_items stream then Some rc
  else if bool_decide (rc_SnifferNames rc = names) && bool_decide (rc_SniffError rc ≠ None) then Some rc
  else
    let '(rc, err) := PeekPacket rc firstPacket (if has_items packet then packet else defaultPacketSniffers) in
    let rc := rc_set_sniff names err rc in
    if needs_more err then None else Some rc.

(** A rule that matched: the result, or the metadata to go on with. *)
Definition prematch_action (i : nat) (packetDestination : Socksaddr) (firstPacket : list byte) (a : option RuleAction)
    (rc : RouteContext) : PreMatchResult + RouteContext :=
  match a with
  | Some (RuleActionSniff names stream packet _) =>
      match prematch_sniff names stream packet firstPacket rc with Some rc => inr rc | None => inl continueResult end
  | Some (RuleActionOfRouteOptions o) => inr (applyRouteOptionsOverride o rc)
  | Some (RuleActionRoute outbound o) => inl (preMatchFlow packetDestination outbound (applyRouteOptionsOverride o rc))
  | Some (RuleActionBypass outbound o) =>
      let rc := applyRouteOptionsOverride o rc in
      let destination := md_Destination (rc_md rc) in
      let moved := Socksaddr_IsDomain destination || negb (bool_decide (destination = packetDestination)) in
      inl (if nonempty outbound then
             let result := preMatchFlow packetDestination outbound rc in
             if moved then result
             else if bool_decide (pm_Action result = PreMatchFlow)
             then MkPreMatchResult PreMatchBypass (pm_Outbound result) (pm_Destination result) (pm_UDPTimeout result)
             else only PreMatchBypass
           else if moved then continueResult else only PreMatchBypass)
  | Some (RuleActionReject method noDrop) =>
      let rejectErr := re_rejectError r (RuleActionReject method noDrop) in
      inl (if bool_decide (rejectErr = None) && bool_decide (md_Network (rc_md rc) = "icmp"%string) then continueResult
           else if match rejectErr with Some e => errors_Is e "R.ErrDrop" | None => false end then only PreMatchDrop
           else only PreMatchReject)
  | Some RuleActionHijackDNS =>
      inl (if bool_decide (md_Network (rc_md rc) = "udp"%string) then only PreMatchHijackDNS else continueResult)
  | Some (RuleActionResolve _ _ _ _ _ _ _ as a) =>
      match actionResolve i a rc with
      | (_, Some _) => inl (only PreMatchReject)
      | (rc, None) => inr rc
      end
  | _ => inl continueResult
  end.

Fixpoint prematch_loop (i : nat) (packetDestination : Socksaddr) (firstPacket : list byte) (rules : list HeadlessRule)
    (rc : RouteContext) : PreMatchResult :=
  match rules with
  | [] => preMatchFlow packetDestination "" rc
  | rule :: rules =>
      let '(m, md) := HeadlessRule_Match (re_env r) rule (reset_cache (rc_md rc)) in
      let rc := rc_set_md md rc in
      if negb m then prematch_loop (S i) packetDestination firstPacket rules rc
      else match prematch_action i packetDestination firstPacket (DNSRule_Action rule) rc with
           | inl result => result
           | inr rc => prematch_loop (S i) packetDestination firstPacket rules rc
           end
  end.

Definition PreMatch (firstPacket : list byte) (rc : RouteContext) : PreMatchResult :=
  let packetDestination := md_Destination (rc_md rc) in
  match prepareMatchMetadata (rc_update (λ md, md_set_call (md_Network md) true md) rc) with
  | (_, Some _) => continueResult
  | (rc, None) => prematch_loop 0 packetDestination firstPacket (re_rules r) rc
  end.
End route.
