(* ===== verification/RouteFacts.v ===== *)
(** * Routing connections: what is read is handed over, every connection gets a verdict

    Sniffing takes bytes and packets off a connection that the outbound needs. The first
    part shows what becomes of them; the second that routing ends, with a chain of groups
    and outbounds that carries the network or with a reason to refuse. *)
From Stdlib Require Import Strings.Byte.
From stdpp Require Import base list gmap strings.
From S2P Require Import Prelude Netip Metadata RuleItems RuleAction RuleMatch Concrete DnsRouter RouteSniff RouteMatch.

(** ** What sniffing takes *)

Section taken.
Context `{Extern} `{Sniffers}.

Definition event_bytes (e : readEvent) : list byte := match e with ReadBytes l => l | _ => [] end.
Definition bytes_of (events : list readEvent) : list byte := concat (map event_bytes events).

Definition event_packet (e : packetEvent) : option (Socksaddr * list byte) :=
  match e with PacketRead destination l => Some (destination, l) | _ => None end.
Definition packets_of (events : list packetEvent) : list (Socksaddr * list byte) := omap event_packet events.

Lemma bytes_of_app a b : bytes_of (a ++ b) = bytes_of a ++ bytes_of b.
Proof. unfold bytes_of. by rewrite map_app, concat_app. Qed.

Lemma PeekStream_takes held sniffers first events buffer err rc events' buffer' rc' err' :
  PeekStream held sniffers first events buffer err rc = (events', buffer', rc', err') →
  ∃ taken, events = taken ++ events' ∧ buffer' = buffer ++ bytes_of taken.
Proof.
  revert first buffer err rc. induction events as [|e events IH]; intros first buffer err rc; cbn [PeekStream].
  { intros [= <- <- <- <-]. exists []. split; [done|]. symmetry. apply app_nil_r. }
  destruct e as [l|x|x]; [|intros [= <- <- <- <-]; eexists [_]; split; [done|]; symmetry; apply app_nil_r..].
  assert (Hone : ∃ taken, ReadBytes l :: events = taken ++ events ∧ buffer ++ l = buffer ++ bytes_of taken).
  { exists [ReadBytes l]. unfold bytes_of. cbn. by rewrite app_nil_r. }
  destruct (run_sniffers _ sniffers rc None) as [rc1 [e1|]]; [|by intros [= <- <- <- <-]].
  destruct (needs_more (Some e1)); [|by intros [= <- <- <- <-]].
  intros E. destruct (IH _ _ _ _ E) as (taken & -> & ->). exists (ReadBytes l :: taken).
  split; [done|]. unfold bytes_of. cbn. by rewrite app_assoc.
Qed.

Lemma read_packets_takes names sniffers count events rc events' packets rc' err :
  read_packets names sniffers count events rc = (events', packets, rc', err) →
  ∃ taken, events = taken ++ events' ∧ packets = packets_of taken ∧ (count + length packets ≤ Nat.max 16 count)%nat.
Proof.
  revert count rc packets. induction events as [|e events IH]; intros count rc packets; cbn [read_packets];
    (destruct (Nat.leb_spec maxSniffPackets count) as [Hm|Hm]; [intros [= <- <- <- <-]; exists []; cbn; split_and!; [done|done|lia]|]);
    unfold maxSniffPackets in Hm.
  { intros [= <- <- <- <-]. exists []. cbn. split_and!; [done|done|lia]. }
  destruct e as [d p|x|x|x]; [|intros [= <- <- <- <-]; eexists [_]; cbn; split_and!; [done|done|lia]..].
  destruct (needs_more _).
  - destruct (read_packets _ _ (S count) events _) as [[[ev ps] rc1] e1] eqn:E. intros [= <- <- <- <-].
    destruct (IH _ _ _ E) as (taken & -> & -> & Hb). exists (PacketRead d p :: taken). cbn in *. split_and!; [done|done|lia].
  - intros [= <- <- <- <-]. exists [PacketRead d p]. cbn. split_and!; [done|done|lia].
Qed.

(** A connection after at most [n] sniffs: what is missing of it is in the buffers, in
    order, and no more than sixteen packets are held. *)
Definition took (n : nat) (conn conn' : connInput) : Prop :=
  match conn, conn' with
  | StreamConn events buffers, StreamConn events' buffers' =>
      ∃ taken, events = taken ++ events' ∧ concat buffers' = concat buffers ++ bytes_of taken ∧
               (length buffers' ≤ n + length buffers)%nat
  | PacketConn events packets, PacketConn events' packets' =>
      ∃ taken, events = taken ++ events' ∧ packets' = packets ++ packets_of taken ∧
               (length packets' ≤ Nat.max 16 (length packets))%nat
  | _, _ => False
  end.

Lemma took_refl conn : took 0 conn conn.
Proof. destruct conn; exists []; rewrite ?app_nil_r; split_and!; [done|done|lia|done|done|lia]. Qed.

Lemma took_trans n m a b c : took n a b → took m b c → took (n + m) a c.
Proof.
  destruct a as [e1 b1|e1 b1], b as [e2 b2|e2 b2], c as [e3 b3|e3 b3]; try done;
    intros (t & -> & E1 & H1) (t' & -> & E2 & H2); exists (t ++ t'); rewrite <- app_assoc; (split; [done|]).
  - rewrite E2, E1, bytes_of_app, app_assoc. split; [done|lia].
  - split; [by rewrite E2, E1; unfold packets_of; rewrite omap_app, app_assoc|lia].
Qed.

Lemma took_weaken n m a b : took n a b → (n ≤ m)%nat → took m a b.
Proof.
  destruct a, b; try done; intros (t & E1 & E2 & E3) Hle; exists t; split_and!; try done. lia.
Qed.

Lemma actionSniff_took names stream packet conn rc conn' rc' err :
  actionSniff names stream packet conn rc = (conn', rc', err) → took 1 conn conn'.
Proof.
  assert (Hrefl : took 1 conn conn) by (eapply took_weaken; [apply took_refl|lia]).
  unfold actionSniff. destruct (_ || _); [by intros [= <- <- <-]|].
  destruct conn as [events buffers|events packets]; (destruct (_ || _); [by intros [= <- <- <-]|]).
  - destruct (PeekStream _ _ _ _ _ _ _) as [[[ev b] rc1] e] eqn:E. apply PeekStream_takes in E as (taken & -> & ->).
    intros [= <- <- <-]. exists taken. split; [done|]. cbn [app].
    destruct (bytes_of taken) as [|x l]; cbn [has_items]; [rewrite app_nil_r; split; [done|lia]|].
    rewrite concat_app, length_app. cbn. rewrite app_nil_r. split; [done|lia].
  - destruct (sniff_held _ _ _ _) as [[] rc1]; [by intros [= <- <- <-]|].
    destruct (read_packets _ _ _ _ _) as [[[ev ps] rc2] e] eqn:E. apply read_packets_takes in E as (taken & -> & -> & Hb).
    intros [= <- <- <-]. exists taken. rewrite length_app. split_and!; [done|done|lia].
Qed.
End taken.

Section routing.
Context `{Extern} `{Sniffers} (r : RouterEnv).

Definition is_sniff (rule : HeadlessRule) : bool :=
  match DNSRule_Action rule with Some (RuleActionSniff _ _ _ _) => true | _ => false end.
Definition sniff_count (rules : list HeadlessRule) : nat := length (List.filter is_sniff rules).

Lemma step_rule_took i rule s s' err :
  step_rule r i rule s = (s', err) → took (if is_sniff rule then 1 else 0) (ms_conn s) (ms_conn s').
Proof.
  unfold step_rule, is_sniff. destruct (DNSRule_Action rule) as [a|]; [|intros [= <- <-]; apply took_refl].
  destruct a; cbn [perform route_options]; try (intros [= <- <-]; apply took_refl).
  - intros [= <- <-]. destruct (nonempty _); apply took_refl.
  - destruct (actionSniff _ _ _ _ _) as [[conn rc] e] eqn:E. apply actionSniff_took in E.
    destruct e; [by intros [= <- <-]|]. by destruct (_ && _); intros [= <- <-].
  - destruct (actionResolve _ _ _ _). intros [= <- <-]. apply took_refl.
Qed.

Lemma match_loop_took rules i s s' selected err :
  match_loop r i rules s = (s', selected, err) → took (sniff_count rules) (ms_conn s) (ms_conn s').
Proof.
  revert i s. induction rules as [|rule rules IH]; intros i s; cbn [match_loop]; [intros [= <- <- <-]; apply took_refl|].
  destruct (HeadlessRule_Match _ _ _) as [m md]. set (s1 := ms_set _ s).
  change (ms_conn s) with (ms_conn s1). generalize s1. clear s1 s md. intros s.
  assert (Hc : sniff_count (rule :: rules) = ((if is_sniff rule then 1 else 0) + sniff_count rules)%nat)
    by (unfold sniff_count; cbn; by destruct (is_sniff rule)).
  destruct m; cbn [negb]; [|intros E; eapply took_weaken; [by eapply IH|lia]].
  destruct (step_rule r i rule s) as [s2 e] eqn:Es. apply step_rule_took in Es.
  destruct e; [intros [= <- <- <-]; eapply took_weaken; [done|lia]|].
  destruct (selects _); [intros [= <- <- <-]; eapply took_weaken; [done|lia]|].
  intros E. rewrite Hc. eapply took_trans; [done|by eapply IH].
Qed.

Lemma matchRule_took rc conn s selected :
  matchRule r rc conn = (s, selected, None) → took (sniff_count (re_rules r)) conn (ms_conn s).
Proof.
  unfold matchRule. destruct (prepareMatchMetadata r rc) as [rc1 [e|]].
  - destruct (bool_decide _); [|done].
    destruct (match_loop _ _ _ _) as [[s1 sel] err] eqn:E. apply match_loop_took in E.
    destruct (_ && _); [done|]. by intros [= <- <- ->].
  - intros E. by apply match_loop_took in E.
Qed.

Definition handed (v : Verdict) : bool := match v with VerdictChain _ | VerdictHijackDNS => true | _ => false end.

Lemma route_matched_took network rc conn s v :
  route_matched r network rc conn = (s, v) → handed v = true → took (sniff_count (re_rules r)) conn (ms_conn s).
Proof.
  unfold route_matched. destruct (matchRule _ _ _) as [[s1 sel] [e|]] eqn:E; [by intros [= <- <-]|].
  intros [= <- <-] _. by eapply matchRule_took.
Qed.

(** ** Chains *)

(** The rank of an outbound is above the ranks of what it may select. *)
Definition ranked (network : string) (rank : nat → nat) : Prop :=
  ∀ o selected member, o_Group (re_object r o) = Selects selected → selected network = Some member → (rank member < rank o)%nat.

(** A chain leads from a group to what it selects, down to an outbound that carries the
    network and dials by itself. *)
Fixpoint linked (network : string) (o : nat) (chain : list nat) : Prop :=
  match chain, o_Group (re_object r o) with
  | [], Selects _ => False
  | [], _ => network ∈ o_Network (re_object r o)
  | member :: chain, Selects selected => selected network = Some member ∧ linked network member chain
  | _ :: _, _ => False
  end.

Lemma resolveOutbound_total network rank fuel o :
  ranked network rank → (rank o < fuel)%nat →
  ∃ res, resolveOutbound (re_object r) fuel o network = Some res ∧
         match res with Ok chain => ∃ rest, chain = o :: rest ∧ linked network o rest | Err _ => True | Panic _ => False end.
Proof.
  intros Hrank. revert o. induction fuel as [|fuel IH]; intros o Hf; [lia|]. cbn [resolveOutbound].
  assert (Hleaf : ∀ b, b = mem network (o_Network (re_object r o)) →
    match o_Group (re_object r o) with Selects _ => False | _ => True end →
    ∃ res, Some (if b then Ok [o] else Err (unsupported network (o_Tag (re_object r o)))) = Some res ∧
           match res with Ok chain => ∃ rest, chain = o :: rest ∧ linked network o rest | Err _ => True | Panic _ => False end).
  { intros b Eb Hg. destruct b; eexists; (split; [done|]); [|done]. exists []. split; [done|]. cbn.
    symmetry in Eb. apply bool_decide_eq_true in Eb. by destruct (o_Group (re_object r o)). }
  destruct (o_Group (re_object r o)) as [| |selected] eqn:Eg; [by apply Hleaf..|].
  destruct (selected network) as [member|] eqn:Em; [|by eexists].
  pose proof (Hrank _ _ _ Eg Em). destruct (IH member) as (res & -> & Hres); [lia|].
  destruct res as [chain|e|x]; [|by eexists|done]. destruct Hres as (rest & -> & Hl).
  eexists. split; [done|]. eexists. split; [done|]. cbn [linked]. by rewrite Eg.
Qed.

Lemma resolveOutbound_refused network fuel o e rest :
  resolveOutbound (re_object r) fuel o network = Some (Err e) → ¬ linked network o rest.
Proof.
  revert o e rest. induction fuel as [|fuel IH]; intros o e rest; cbn [resolveOutbound]; [done|].
  destruct (o_Group (re_object r o)) as [| |selected] eqn:Eg.
  1,2: destruct (mem network _) eqn:Em; [done|]; intros _; destruct rest; cbn; rewrite Eg; [|tauto];
    by apply bool_decide_eq_false in Em.
  destruct (selected network) as [member|] eqn:Em.
  2: intros _; destruct rest; cbn; rewrite Eg; [tauto|intros [??]; congruence].
  destruct (resolveOutbound _ fuel member network) as [[chain|e'|x]|] eqn:E; try done. intros _.
  destruct rest as [|m rest]; cbn; rewrite Eg; [tauto|]. intros [Em' Hl].
  assert (m = member) as -> by congruence. by eapply IH.
Qed.

(** A rule that ends the walk has an action that says where to go, and is the rule of its
    index. *)
Lemma match_loop_selects rules i s s' rule j err :
  match_loop r i rules s = (s', Some (rule, j), err) →
  selects (DNSRule_Action rule) = true ∧ ∃ k, j = (i + k)%nat ∧ rules !! k = Some rule.
Proof.
  revert i s. induction rules as [|x rules IH]; intros i s; cbn [match_loop]; [done|].
  destruct (HeadlessRule_Match _ _ _) as [m md].
  assert (Hnext : ∀ s, match_loop r (S i) rules s = (s', Some (rule, j), err) →
    selects (DNSRule_Action rule) = true ∧ ∃ k, j = (i + k)%nat ∧ (x :: rules) !! k = Some rule).
  { intros s0 E. destruct (IH _ _ E) as (? & k & -> & ?). split; [done|]. exists (S k). split; [lia|done]. }
  destruct m; cbn [negb]; [|apply Hnext].
  destruct (step_rule _ _ _ _) as [s1 [e|]]; [done|]. destruct (selects (DNSRule_Action x)) eqn:Es; [|apply Hnext].
  intros [= <- <- <- <-]. split; [done|]. exists 0%nat. split; [lia|done].
Qed.

Lemma matchRule_selects rc conn s rule j :
  matchRule r rc conn = (s, Some (rule, j), None) → selects (DNSRule_Action rule) = true ∧ re_rules r !! j = Some rule.
Proof.
  assert (Hl : ∀ s0 s' err, match_loop r 0 (re_rules r) s0 = (s', Some (rule, j), err) →
    selects (DNSRule_Action rule) = true ∧ re_rules r !! j = Some rule).
  { intros s0 s' err E. by destruct (match_loop_selects _ _ _ _ _ _ _ E) as (? & k & -> & ?). }
  unfold matchRule. destruct (prepareMatchMetadata r rc) as [rc1 [e|]]; [|apply Hl].
  destruct (bool_decide _); [|done]. destruct (match_loop _ _ _ _) as [[s1 sel] err] eqn:E.
  destruct (_ && _); [done|]. intros [= <- -> ->]. by eapply Hl.
Qed.

(** ** Where the selected rule sends a connection *)

(** The outbound of the walk over the rules: the one that the tag of the selected rule
    names, the default one when no rule is selected. *)
Inductive outbound_of : option (HeadlessRule * nat) → nat → Prop :=
| outbound_default : outbound_of None (re_defaultOutbound r)
| outbound_routed rule j tag options o :
    DNSRule_Action rule = Some (RuleActionRoute tag options) → re_Outbound r tag = Some o → outbound_of (Some (rule, j)) o
| outbound_bypassed rule j tag options o :
    DNSRule_Action rule = Some (RuleActionBypass tag options) → re_Outbound r tag = Some o → outbound_of (Some (rule, j)) o.

(** The walk asks for an outbound. *)
Inductive asks_outbound : option (HeadlessRule * nat) → Prop :=
| asks_default : asks_outbound None
| asks_routed rule j tag options : DNSRule_Action rule = Some (RuleActionRoute tag options) → asks_outbound (Some (rule, j))
| asks_bypassed rule j tag options : DNSRule_Action rule = Some (RuleActionBypass tag options) → asks_outbound (Some (rule, j)).

(** What a connection may get after the walk: a chain from the outbound of the walk, the
    DNS hijack if the rule says so, a refusal if the rule rejects or if there is no such
    chain. *)
Definition verdict_for (network : string) (selected : option (HeadlessRule * nat)) (v : Verdict) : Prop :=
  match v with
  | VerdictChain chain => ∃ o rest, chain = o :: rest ∧ outbound_of selected o ∧ linked network o rest
  | VerdictHijackDNS => ∃ rule j, selected = Some (rule, j) ∧ DNSRule_Action rule = Some RuleActionHijackDNS
  | VerdictRefused e =>
      (∃ rule j method noDrop, selected = Some (rule, j) ∧ DNSRule_Action rule = Some (RuleActionReject method noDrop)) ∨
      (asks_outbound selected ∧ e ≠ None ∧ ∀ o rest, outbound_of selected o → ¬ linked network o rest)
  | VerdictInjected _ _ | VerdictLoops | VerdictPanic => False
  end.

(** The verdicts before the rules are asked. *)
Definition is_early (v : Verdict) : Prop :=
  match v with VerdictInjected _ _ | VerdictRefused (Some _) | VerdictHijackDNS => True | _ => False end.

(** How a connection is routed when no early verdict is there: by the rule that
    [matchRule] selects, a rule of the router at its index. *)
Definition routed_by_rule (network : string) (rc : RouteContext) (conn : connInput) (res : matchState * Verdict) : Prop :=
  ∃ s selected err,
    matchRule r (rc_update (λ md, md_set_call network (md_PreMatch md) md) rc) conn = (s, selected, err) ∧ res.1 = s ∧
    match err with
    | Some e => res.2 = VerdictRefused (Some e)
    | None => match selected with
              | Some (rule, j) => re_rules r !! j = Some rule ∧ selects (DNSRule_Action rule) = true
              | None => True
              end ∧ verdict_for network selected res.2
    end.

Lemma outbound_verdict network rank selected o :
  ranked network rank → (rank o < re_fuel r)%nat → asks_outbound selected → outbound_of selected o →
  (∀ o', outbound_of selected o' → o' = o) → verdict_for network selected (target_verdict r network (TargetOutbound o)).
Proof.
  intros Hrank Hf Ha Ho Hone. cbn [target_verdict].
  destruct (resolveOutbound_total network rank (re_fuel r) o Hrank Hf) as (res & E & Hres). rewrite E.
  destruct res as [chain|e|x]; [|right|done].
  - destruct Hres as (rest & -> & Hl). by exists o, rest.
  - split_and!; [done|done|]. intros o' rest Ho'. rewrite (Hone _ Ho'). by eapply resolveOutbound_refused.
Qed.

Lemma tag_verdict network rank selected tag :
  ranked network rank → (∀ o, outbound_of selected o → (rank o < re_fuel r)%nat) → asks_outbound selected →
  (∀ o, outbound_of selected o ↔ re_Outbound r tag = Some o) →
  verdict_for network selected (target_verdict r network (outbound_target r tag)).
Proof.
  intros Hrank Hf Ha Ho. unfold outbound_target. destruct (re_Outbound r tag) as [o|] eqn:E.
  - eapply outbound_verdict; [done| |done| |]; [apply Hf| |]; [by apply Ho..|]. intros o' Ho'%Ho. congruence.
  - right. split_and!; [done|done|]. intros o rest Ho'%Ho. done.
Qed.

Lemma selected_verdict network rank selected :
  ranked network rank → (∀ o, outbound_of selected o → (rank o < re_fuel r)%nat) →
  match selected with Some (rule, _) => selects (DNSRule_Action rule) = true | None => True end →
  verdict_for network selected (target_verdict r network (rule_target r network selected)).
Proof.
  intros Hrank Hf Hs. destruct selected as [[rule j]|]; cbn [rule_target].
  2: { eapply outbound_verdict; [done|apply Hf; constructor|constructor..|]. by inversion 1. }
  destruct (DNSRule_Action rule) as [[]|] eqn:Ea; cbn [selects] in Hs; try done.
  - eapply tag_verdict; [done|done|by econstructor|]. intros o.
    split; [inversion 1; congruence|by eapply outbound_routed].
  - rewrite Hs. eapply tag_verdict; [done|done|by eapply asks_bypassed|]. intros o.
    split; [inversion 1; congruence|by eapply outbound_bypassed].
  - left. by repeat eexists.
  - by repeat eexists.
Qed.

Lemma route_matched_by_rule network rank rc conn :
  ranked network rank → (∀ selected o, outbound_of selected o → (rank o < re_fuel r)%nat) →
  routed_by_rule network rc conn (route_matched r network rc conn).
Proof.
  intros Hrank Hfuel. unfold routed_by_rule, route_matched.
  destruct (matchRule _ _ _) as [[s sel] err] eqn:E. exists s, sel, err. destruct err as [e|]; [done|].
  cbn [fst snd]. split_and!; [done|done| |].
  - destruct sel as [[rule j]|]; [|done]. apply matchRule_selects in E. tauto.
  - eapply selected_verdict; [done|apply Hfuel|]. destruct sel as [[rule j]|]; [|done]. apply matchRule_selects in E. tauto.
Qed.

Lemma or_else_Some a b v : or_else a b = Some v → a = Some v ∨ b = Some v.
Proof. destruct a; [by left|by right]. Qed.

Lemma detour_early f label a md v :
  detour r f label a md = Some v → is_early v.
Proof.
  unfold detour. destruct (nonempty _); [|done]. intros [= <-]. destruct (bool_decide _); [done|].
  destruct (re_inbound r _) as [i|]; [|done]. by destruct (f i).
Qed.

Lemma early_stream_early a md v : early_stream r a md = Some v → is_early v.
Proof.
  intros E. unfold early_stream in E. apply or_else_Some in E as [E|E]; [by eapply detour_early|].
  apply or_else_Some in E as [E|E].
  - unfold refused_destination in E. repeat (destruct (bool_decide _); [by injection E as <-|]). done.
  - unfold tun_dns in E. destruct (_ && _); [by injection E as <-|done].
Qed.

Lemma early_packets_early a md v : early_packets r a md = Some v → is_early v.
Proof.
  intros E. unfold early_packets in E. apply or_else_Some in E as [E|E]; [by eapply detour_early|].
  unfold tun_dns in E. destruct (_ && _); [by injection E as <-|done].
Qed.
End routing.

(** ** Theorems *)

Section theorems.
Context `{Extern} `{Sniffers}.

Lemma hand_over_contents {Conn B} (NewCachedConn : Conn → list B → Conn) (contents : Conn → list B) conn buffers :
  (∀ c b, contents (NewCachedConn c b) = b ++ contents c) →
  contents (hand_over NewCachedConn conn buffers) = concat (rev buffers) ++ contents conn.
Proof.
  intros Hc. unfold hand_over. revert conn. induction buffers as [|b buffers IH]; intros conn; cbn; [done|].
  by rewrite IH, Hc, concat_app, <- app_assoc; cbn; rewrite app_nil_r.
Qed.

Lemma one_buffer_rev {B} (buffers : list (list B)) : (length buffers ≤ 1)%nat → concat (rev buffers) = concat buffers.
Proof. destruct buffers as [|b [|b' buffers]]; cbn; [done|done|lia]. Qed.

(** C14 What sniffing reads of a stream is handed over with it: when [routeConnection] hands a
    connection to an outbound or to the DNS hijack, the buffers hold exactly the bytes that
    the stream is missing, and if at most one rule sniffs, a reader gets every byte in the
    order the client sent it. A cached connection gives its buffer before the connection
    inside; since the code wraps the buffers first to last, the buffers of several sniffs
    come in the reverse order. *)
Theorem stream_handed_over {Conn} (NewCachedConn : Conn → list byte → Conn) (contents : Conn → list byte) r a rc events s v :
  (∀ c b, contents (NewCachedConn c b) = b ++ contents c) →
  routeConnection r a rc events = (s, v) → handed v = true →
  ∃ left buffers, ms_conn s = StreamConn left buffers ∧ concat buffers ++ bytes_of left = bytes_of events ∧
    ∀ conn, contents conn = bytes_of left →
      contents (hand_over NewCachedConn conn buffers) = concat (rev buffers) ++ bytes_of left ∧
      ((sniff_count (re_rules r) ≤ 1)%nat → contents (hand_over NewCachedConn conn buffers) = bytes_of events).
Proof.
  intros Hc E Hv.
  assert (Ht : took (sniff_count (re_rules r)) (StreamConn events []) (ms_conn s)).
  { unfold routeConnection in E. destruct (early_stream r a (rc_md rc)) as [v'|].
    - injection E as <- <-. eapply took_weaken; [apply took_refl|lia].
    - by eapply route_matched_took. }
  destruct (ms_conn s) as [left buffers|]; [|done]. destruct Ht as (taken & -> & Eb & Hlen). cbn in Eb, Hlen.
  exists left, buffers. rewrite bytes_of_app, <- Eb. split_and!; [done|done|]. intros conn Hconn.
  rewrite (hand_over_contents _ _ _ _ Hc), Hconn. split; [done|]. intros Hn. rewrite one_buffer_rev; [done|lia].
Qed.

Lemma packets_contents {Conn P} (NewCachedPacketConn : Conn → P → Conn) (contents : Conn → list P) conn held left :
  (∀ c p, contents (NewCachedPacketConn c p) = p :: contents c) → contents conn = left →
  contents (hand_over NewCachedPacketConn conn held) = rev held ++ left.
Proof.
  intros Hc <-. unfold hand_over. revert conn.
  induction held as [|p held IH]; intros conn; cbn; [done|]. by rewrite IH, Hc, <- app_assoc.
Qed.

(** C15 A packet connection is handed over with every packet that sniffing read, each once,
    and never more than sixteen of them are held, whatever the client sends. An outbound
    gets them in the reverse order, before those that were not read; the DNS hijack gets
    them beside the connection, and answers them in the order they came for a session of a
    NAT table, in the reverse order for any other connection. *)
Theorem packets_handed_over {Conn} (NewCachedPacketConn : Conn → Socksaddr * list byte → Conn)
    (contents : Conn → list (Socksaddr * list byte)) r a rc events s v :
  (∀ c p, contents (NewCachedPacketConn c p) = p :: contents c) →
  routePacketConnection r a rc events = (s, v) → handed v = true →
  ∃ left held, ms_conn s = PacketConn left held ∧ (length held ≤ maxSniffPackets)%nat ∧
    held ++ packets_of left = packets_of events ∧
    ∀ conn isNatConn, contents conn = packets_of left →
      match v with
      | VerdictHijackDNS =>
          let '(packetBuffers, conn') := hijackDNSPacket isNatConn conn held in
          packetBuffers ++ contents conn' = if isNatConn then packets_of events else rev held ++ packets_of left
      | _ => contents (hand_over NewCachedPacketConn conn held) = rev held ++ packets_of left
      end.
Proof.
  intros Hc E Hv.
  assert (Ht : took (sniff_count (re_rules r)) (PacketConn events []) (ms_conn s)).
  { unfold routePacketConnection in E. destruct (early_packets r a (rc_md rc)) as [v'|].
    - injection E as <- <-. eapply took_weaken; [apply took_refl|lia].
    - by eapply route_matched_took. }
  destruct (ms_conn s) as [|left held]; [done|]. destruct Ht as (taken & -> & Eb & Hlen). cbn in Eb, Hlen.
  exists left, held. unfold packets_of in *. rewrite omap_app, <- Eb. split_and!; [done|exact Hlen|done|].
  intros conn isNatConn Hconn. destruct v; [|by destruct isNatConn; cbn; rewrite Hconn|..]; by apply packets_contents.
Qed.

(** C13 Every connection gets the verdict of its rule: when groups select along a rank, so
    that no group leads back to itself, and the fuel is above the ranks of the outbounds
    that rules name and of the default one, routing a stream or a packet connection ends.
    Either a detour, an old destination or the DNS protocol of a TUN decides before the
    rules; or [matchRule] walks the rules, with the network set, and fails with its error;
    or the rule it selects, one of the router at that index, decides. The connection then
    goes to the chain that starts with the outbound the tag of the rule names (the default
    outbound when no rule is selected), follows what each group selects and ends with an
    outbound that dials by itself and carries the network; it is hijacked only if the rule
    hijacks, and refused only if the rule rejects or there is no such chain. No nil
    outbound is used. *)
Theorem connections_routed r rank a rc events packets :
  ranked r "tcp" rank → ranked r "udp" rank → (∀ selected o, outbound_of r selected o → (rank o < re_fuel r)%nat) →
  match early_stream r a (rc_md rc) with
  | Some v => (routeConnection r a rc events).2 = v ∧ is_early v
  | None => routed_by_rule r "tcp" rc (StreamConn events []) (routeConnection r a rc events)
  end ∧
  match early_packets r a (rc_md rc) with
  | Some v => (routePacketConnection r a rc packets).2 = v ∧ is_early v
  | None => routed_by_rule r "udp" rc (PacketConn packets []) (routePacketConnection r a rc packets)
  end.
Proof.
  intros Ht Hu Hf. unfold routeConnection, routePacketConnection. split.
  - destruct (early_stream r a (rc_md rc)) eqn:E; [split; [done|by eapply early_stream_early]|by eapply route_matched_by_rule].
  - destruct (early_packets r a (rc_md rc)) eqn:E; [split; [done|by eapply early_packets_early]|by eapply route_matched_by_rule].
Qed.
End theorems.

(** ** A concrete router *)

(** Sniffers that know a protocol by its first byte and want three bytes. *)
Definition c_sniff (first : byte) (protocol domain : string) (f : sniffFields unit) (l : list byte) : sniffFields unit * sniffed :=
  match l with
  | b :: _ :: _ :: _ =>
      if Byte.eqb b first then (MkSniffFields protocol domain (sf_Client f) (sf_Context f), SniffOk) else (f, SniffErr (ENew "not it"))
  | _ => (f, SniffErr ErrNeedMoreData)
  end.

#[export] Instance c_sniffers : Sniffers := {|
  SniffContext := unit;
  stream_sniff s f l :=
    match s with
    | TLSClientHello => c_sniff x16 "tls" "example.org" f (concat l)
    | HTTPHost => c_sniff x47 "http" "example.org" f (concat l)
    | _ => (f, SniffPanic "index out of range")
    end;
  packet_sniff s f l :=
    match s with
    | QUICClientHello => c_sniff xc0 "quic" "example.org" f l
    | DomainNameQuery => c_sniff x01 "dns" "" f l
    | _ => (f, SniffPanic "index out of range")
    end;
  Socksaddr_IsDomain a := nonempty (sa_Fqdn a);
  Socksaddr_IsIPv4 a := Addr_Is4 (sa_Addr a);
  Socksaddr_IsValid a := Addr_IsValid (sa_Addr a) || nonempty (sa_Fqdn a);
  IsDomainName := nonempty;
  mux_Destination := "sp.mux.sing-box.arpa";
  vmess_MuxDestination := "v1.mux.cool";
  uot_MagicAddress := "sp.v2.udp-over-tcp.arpa";
  uot_LegacyMagicAddress := "sp.udp-over-tcp.arpa";
|}.

Definition c_route_options : RuleActionRouteOptions :=
  MkRuleActionRouteOptions (MkSocksaddr AddrZero 0 "") 0 None [] [] 0 false false 0 false 0 false "" 0.
Definition c_route_rule (a : RuleAction) : HeadlessRule := DefaultRule (MkDefault [] [] [] [] [] [] [] None false (Some a)).
Definition c_dial : DialOptions := MkDialOptions None [] [] 0 false false 0 false 0 false "" 0.

(** A selector (0) over a direct outbound (1); the direct outbound takes flows. *)
Definition c_object (o : nat) : RouteOutbound :=
  match o with
  | O => MkOutbound "select" ["tcp"; "udp"] (Selects (λ _, Some 1%nat)) None
  | _ => MkOutbound "direct" ["tcp"; "udp"] NotGroup (Some (λ _ _, PreMatchFlow))
  end.
Definition c_route_router (rules : list HeadlessRule) : RouterEnv :=
  MkRouterEnv c_env rules None (λ _, false) None None (λ _, None) (λ _, None) (λ _ _ _ _, ([], None)) (λ _, None) (λ _, None)
    c_object (λ tag, if mem tag ["select"]%string then Some 0%nat else if mem tag ["direct"]%string then Some 1%nat else None)
    0 0 2.
Definition c_context (network : string) : RouteContext :=
  MkRouteContext _ (md_set_Destination (MkSocksaddr (Addr4 16843009) 443 "") (md_set_call network false (c_request ""))) (MkSocksaddr AddrZero 0 "")
    (MkSocksaddr AddrZero 0 "") false c_dial [] None None.
Definition c_arrival : Arrival := MkArrival "tun" "" "".
Definition c_tls_sniff : HeadlessRule := c_route_rule (RuleActionSniff ["tls"] [TLSClientHello] [] 0).
Definition c_http_sniff : HeadlessRule := c_route_rule (RuleActionSniff ["http"] [HTTPHost] [] 0).
Definition c_quic_sniff : HeadlessRule := c_route_rule (RuleActionSniff ["quic"] [] [QUICClientHello] 0).

(** Two rules that sniff: the second reads bytes of its own, and the outbound gets them
    before the first ones. *)
Example two_sniffs_reorder :
  let '(s, v) := routeConnection (c_route_router [c_tls_sniff; c_http_sniff]) c_arrival (c_context "tcp")
                   [ReadBytes [x47; x45; x54]; ReadBytes [x20; x2f]] in
  v = VerdictChain [0%nat; 1%nat] ∧
  ms_conn s = StreamConn [] [[x47; x45; x54]; [x20; x2f]] ∧
  hand_over (λ c b, b ++ c) [] [[x47; x45; x54]; [x20; x2f]] = [x20; x2f; x47; x45; x54].
Proof. by vm_compute. Qed.

(** A hello in two reads. *)
Lemma stream_handed_over_witness :
  let r := routeConnection (c_route_router [c_tls_sniff]) c_arrival (c_context "tcp") [ReadBytes [x16]; ReadBytes [x03; x01]; ReadBytes [x00]] in
  r.2 = VerdictChain [0%nat; 1%nat] ∧
  ∃ left buffers, ms_conn r.1 = StreamConn left buffers ∧ concat buffers ++ bytes_of left = [x16; x03; x01; x00].
Proof.
  split; [by vm_compute|].
  edestruct (stream_handed_over (λ c b, b ++ c) (λ c : list byte, c) (c_route_router [c_tls_sniff]) c_arrival (c_context "tcp")
    [ReadBytes [x16]; ReadBytes [x03; x01]; ReadBytes [x00]]) as (left & buffers & E1 & E2 & _);
    [done|apply surjective_pairing|by vm_compute|]. exists left, buffers. by rewrite E1, E2.
Defined.

Lemma packets_handed_over_witness :
  let d := MkSocksaddr (Addr4 16843009) 443 "" in
  let r := routePacketConnection (c_route_router [c_quic_sniff]) c_arrival (c_context "udp") [PacketRead d [xc0]; PacketRead d [xc0; x01; x02]] in
  r.2 = VerdictChain [0%nat; 1%nat] ∧
  ∃ left held, ms_conn r.1 = PacketConn left held ∧ (length held ≤ 16)%nat ∧
    held ++ packets_of left = [(d, [xc0]); (d, [xc0; x01; x02])].
Proof.
  intros d r. split; [by vm_compute|].
  edestruct (packets_handed_over (λ c p, p :: c) (λ c : list (Socksaddr * list byte), c) (c_route_router [c_quic_sniff]) c_arrival (c_context "udp")
    [PacketRead d [xc0]; PacketRead d [xc0; x01; x02]]) as (left & held & E1 & E2 & E3 & _);
    [done|apply surjective_pairing|by vm_compute|]. exists left, held. exact (conj E1 (conj E2 E3)).
Defined.

(** A rule that names an outbound, after one that sniffs. *)
Definition c_to_direct : HeadlessRule := c_route_rule (RuleActionRoute "direct" c_route_options).

Lemma connections_routed_witness :
  let r := c_route_router [c_tls_sniff; c_to_direct] in
  (routeConnection r c_arrival (c_context "tcp") []).2 = VerdictChain [1%nat] ∧
  routed_by_rule r "tcp" (c_context "tcp") (StreamConn [] []) (routeConnection r c_arrival (c_context "tcp") []) ∧
  routed_by_rule r "udp" (c_context "tcp") (PacketConn [] []) (routePacketConnection r c_arrival (c_context "tcp") []).
Proof.
  intros r. split; [by vm_compute|].
  apply (connections_routed r (λ o, match o with O => 1 | _ => 0 end)%nat c_arrival (c_context "tcp") [] []).
  1,2: intros [|o] selected member; cbn; [intros [= <-] [= <-]; lia|done].
  intros selected o _. cbn. destruct o; lia.
Defined.
