(* ===== verification/RoutePreMatch.v ===== *)
(** * Routing connections: the match of a first packet agrees with routing

    A TUN asks [PreMatch] about the first packet of a flow, before there is a connection,
    and forwards, drops or hijacks the flow as it says. The theorem says that this is what
    [routeConnection] and [routePacketConnection] decide. Two walks over the same rules are
    compared: their metadata differ in the flag of the match, in the rule cache and in what
    only a connection has. *)
From Stdlib Require Import Strings.Byte.
From stdpp Require Import base list gmap strings.
From S2P Require Import Prelude Netip Metadata RuleItems RuleAction RuleMatch RuleSpec RuleGroups RuleRefine Concrete RuleTheorems DnsRouter DnsSpec RouteSniff RouteMatch RouteFacts.

(** ** Requests that the items of a rule do not tell apart *)

Section unread.
Context `{Extern} (env : Env) (good : RuleItem → bool) (f : InboundContext → InboundContext).

(** Every item of the rule is [good]. *)
Definition default_good (nested : HeadlessRule → bool) (r : abstractDefaultRule HeadlessRule) : bool :=
  forallb good (rule_items r) &&
  match ruleSetItem r with Some item => forallb (λ s, forallb nested (rs_rules s)) (setList item) | None => true end.
Fixpoint all_good (rule : HeadlessRule) : bool :=
  match rule with
  | DefaultRule r | DefaultHeadlessRule r | DefaultDNSRule r _ _ _ => default_good all_good r
  | LogicalRule r | LogicalHeadlessRule r | LogicalDNSRule r _ _ _ => forallb all_good (l_rules r)
  end.

Context (item_f : ∀ sc req item, good item = true → item_holds env sc (f req) item = item_holds env sc req item).
Context (f_named : ∀ req, md_NamedDNSResponses (f req) = md_NamedDNSResponses req).
Context (f_response : ∀ req, md_DNSResponse (f req) = md_DNSResponse req).
Context (f_with : ∀ req m, with_response (f req) m = f (with_response req m)).

Lemma good_conds sc req (r : abstractDefaultRule HeadlessRule) g :
  forallb good (rule_items r) = true → group_conds env false sc (f req) r g = group_conds env false sc req r g.
Proof.
  intros Hr. rewrite forallb_forall in Hr. apply map_ext_in. intros item Hin. apply item_f, Hr.
  revert Hin. unfold rule_items, group_items. destruct g; destruct (sc_source sc); cbn; rewrite ?in_app_iff; cbn; tauto.
Qed.

Lemma good_items sc req (r : abstractDefaultRule HeadlessRule) :
  forallb good (rule_items r) = true →
  forallb (item_holds env sc (f req)) (items r) = forallb (item_holds env sc req) (items r).
Proof.
  intros Hr. rewrite forallb_forall in Hr. apply forallb_ext_in. intros item Hin. apply item_f, Hr.
  unfold rule_items. rewrite in_app_iff. auto.
Qed.

Definition unread (rule : HeadlessRule) : Prop :=
  all_good rule = true → ∀ sc req, holds env sc rule (f req) = holds env sc rule req.

Lemma good_set outer outer' sc req s :
  Forall unread (rs_rules s) → forallb all_good (rs_rules s) = true → (∀ g, outer' g = outer g) →
  set_holds env (holds env) outer' sc (f req) s = set_holds env (holds env) outer sc req s.
Proof.
  intros IH Hr Ho. unfold set_holds. destruct (mergeableRuleIn (rs_rules s)) as [b|] eqn:Em.
  - apply mergeableRuleIn_Some in Em as (Es & _ & _). rewrite Es in Hr. cbn in Hr. rewrite andb_true_r in Hr.
    apply andb_true_iff in Hr as [Hr _]. rewrite good_items by done. f_equal. apply groups_hold_ext. intros g.
    unfold merge_conds. by rewrite Ho, good_conds.
  - rewrite (groups_hold_ext _ _ Ho). f_equal. apply existsb_ext_in. intros rule Hin.
    rewrite forallb_forall in Hr. rewrite List.Forall_forall in IH. by apply IH; [|apply Hr].
Qed.

Lemma good_default sc req r :
  Forall unread (ruleSet_rules r) → default_good all_good r = true →
  default_holds env (holds env) sc r (f req) = default_holds env (holds env) sc r req.
Proof.
  intros IH Hr. apply andb_true_iff in Hr as [Hr Hs]. unfold default_holds, body_holds. f_equal. f_equal.
  rewrite good_items by done. f_equal. unfold ruleSet_rules in IH. destruct (ruleSetItem r) as [item|].
  - apply existsb_ext_in. intros s Hin. apply good_set.
    + rewrite List.Forall_forall in *. intros rule Hrule. apply IH. apply in_concat. exists (rs_rules s).
      split; [by apply List.in_map|done].
    + rewrite forallb_forall in Hs. by apply Hs.
    + intros g. by apply good_conds.
  - apply groups_hold_ext. intros g. by apply good_conds.
Qed.

Lemma holds_unread rule : unread rule.
Proof.
  induction rule as [rule IH] using HeadlessRule_nested_ind. intros Hr sc req.
  destruct rule as [r|r|r mr tag race|r|r|r ? ? ?]; cbn [all_good holds subrules] in *; try (by apply good_default).
  2,3,4: unfold logical_holds; f_equal; rewrite List.Forall_forall in IH; rewrite forallb_forall in Hr;
    destruct (l_mode r); [apply forallb_ext_in|apply existsb_ext_in]; intros x Hin; by apply IH; [|apply Hr].
  unfold dns_holds. rewrite f_named, f_response. destruct mr; [|by apply good_default].
  destruct (if nonempty tag then _ else _); [|done]. rewrite f_with. by apply good_default.
Qed.
End unread.

(** ** The two walks *)

Section agree.
Context `{Extern} `{Sniffers} (r : RouterEnv).

(** The flag of the match and the cache are the metadata that items may not tell apart;
    only a [preferred_by] item reads the flag. *)
Definition masked (b : bool) (c : RuleCache) (md : InboundContext) : InboundContext :=
  set_cache (md_set_call (md_Network md) b md) c.
Definition not_preferred (item : RuleItem) : bool := match item with PreferredByItem _ _ => false | _ => true end.

Lemma holds_mask sc rule b c req :
  all_good not_preferred rule = true → holds (re_env r) sc rule (masked b c req) = holds (re_env r) sc rule req.
Proof.
  intros Hr. apply (holds_unread (re_env r) not_preferred (masked b c)); [|done..].
  intros sc' req' item Hi. by destruct item.
Qed.

Definition clean (c : RuleCache) : Prop := RuleSetDomainOnly c = false ∧ IgnoreDestinationIPCIDRMatch c = false.

Lemma match_holds rule md :
  no_domain_only rule = true → clean (md_cache md) →
  ∃ c, HeadlessRule_Match (re_env r) rule (reset_cache md) = (holds (re_env r) top_scope rule (reset_cache md), set_cache md c) ∧ clean c.
Proof.
  intros Hfull [Hc1 Hc2]. unfold HeadlessRule_Match. set (req := reset_cache md).
  destruct (Match_exact (re_env r) rule req (md_cache req) Hfull) as (E1 & E2 & _); [done|].
  destruct (rule_Match (re_env r) rule req (md_cache req)) as [m c'] eqn:Em. cbn [fst snd] in E1, E2.
  exists c'. split; [by rewrite E1|]. injection E2 as _ _ E3 E4. split; cbn in *; congruence.
Qed.

(** The metadata of a match ([rc]) and of a connection ([rc']). *)
Record similar (rc rc' : RouteContext) : Prop := MkSimilar {
  similar_md : ∃ b c, rc_md rc' = masked b c (rc_md rc) ∧ clean c;
  similar_cache : clean (md_cache (rc_md rc));
  similar_addresses : md_DestinationAddresses (rc_md rc) = [];
  similar_origin : rc_OriginDestination rc' = rc_OriginDestination rc;
  similar_fakeip : rc_FakeIP rc' = rc_FakeIP rc;
  similar_names : rc_SnifferNames rc' = rc_SnifferNames rc;
  similar_error : rc_SniffError rc' = rc_SniffError rc;
  similar_context : rc_SniffContext rc' = rc_SniffContext rc;
}.

Lemma similar_update f rc rc' :
  (∀ b c md, f (masked b c md) = masked b c (f md)) → (∀ md, md_cache (f md) = md_cache md) →
  (∀ md, md_DestinationAddresses (f md) = md_DestinationAddresses md) →
  similar rc rc' → similar (rc_update f rc) (rc_update f rc').
Proof.
  intros Hm Hc Ha [(b & c & E & Hc') ? ? ? ? ? ? ?]. constructor; cbn; rewrite ?Hc, ?Ha; try done.
  exists b, c. by rewrite E, Hm.
Qed.

Lemma similar_fields f rc rc' : similar rc rc' → similar (rc_set_fields f rc) (rc_set_fields f rc').
Proof. intros [(b & c & E & Hc') ? ? ? ? ? ? ?]. constructor; cbn; try done. exists b, c. by rewrite E. Qed.

Lemma similar_sniff names err rc rc' : similar rc rc' → similar (rc_set_sniff names err rc) (rc_set_sniff names err rc').
Proof. intros [(b & c & E & Hc') ? ? ? ? ? ? ?]. constructor; cbn; try done. by exists b, c. Qed.

(** *** Preparing *)

Lemma searchProcessInfo_similar rc rc' :
  similar rc rc' → similar (searchProcessInfo r rc) (searchProcessInfo r rc').
Proof.
  intros Hs. pose proof Hs as [(b & c & E & Hc') ? ? Eo ? ? ? ?]. unfold searchProcessInfo. rewrite E, Eo. cbn.
  destruct (re_processSearcher r) as [search|]; [|done]. destruct (_ || _); [done|].
  destruct (search _ _ _) as [owner|]; [|done]. constructor; cbn; try done. by exists b, c.
Qed.

Lemma find_domain_similar rc rc' :
  similar rc rc' → similar (find_domain r rc).1 (find_domain r rc').1 ∧ (find_domain r rc').2 = (find_domain r rc).2.
Proof.
  intros Hs. pose proof Hs as [(b & c & E & Hc') Hc Ha Eo Ef En Ee Ex]. unfold find_domain. rewrite E. cbn.
  set (mapped' := if nonempty (md_Domain (rc_md rc)) then rc' else _).
  set (mapped := if nonempty (md_Domain (rc_md rc)) then rc else _).
  assert (Hmapped : similar mapped mapped').
  { unfold mapped, mapped'. destruct (nonempty _); [done|]. destruct (re_LookupReverseMapping r _) as [d|]; [|done].
    constructor; cbn; try done. by exists b, c. }
  destruct (re_fakeip r) as [[contains lookup]|]; [|done]. destruct (_ && _); [|done].
  destruct (lookup _) as [d|]; [|done]. destruct (nonempty d); [|done]. split; [|done].
  constructor; cbn; rewrite ?E; try done. by exists b, c.
Qed.

Lemma prepare_similar rc rc' :
  similar rc rc' →
  similar (prepareMatchMetadata r rc).1 (prepareMatchMetadata r rc').1 ∧
  (prepareMatchMetadata r rc').2 = (prepareMatchMetadata r rc).2.
Proof.
  intros Hs. unfold prepareMatchMetadata.
  assert (Hn : similar (rc_update (find_neighbor r) (searchProcessInfo r rc)) (rc_update (find_neighbor r) (searchProcessInfo r rc'))).
  { apply similar_update; [..|by apply searchProcessInfo_similar].
    all: intros; unfold find_neighbor; destruct (re_neighborResolver r) as [[? ?]|]; [|done]; cbn; by destruct (_ && _). }
  destruct (find_domain_similar _ _ Hn) as [Hd Ee].
  destruct (find_domain r (rc_update (find_neighbor r) (searchProcessInfo r rc))) as [rc1 e].
  destruct (find_domain r (rc_update (find_neighbor r) (searchProcessInfo r rc'))) as [rc1' e']. cbn in Hd, Ee. subst e'.
  destruct e; [done|]. split; [|done]. by apply similar_update.
Qed.

(** *** Actions *)

Lemma override_similar o rc rc' :
  similar rc rc' → similar (applyRouteOptionsOverride o rc) (apply_route_options o rc').
Proof.
  intros [(b & c & E & Hc') Hc Ha Eo Ef En Ee Ex]. unfold apply_route_options, applyRouteOptionsOverride. rewrite E.
  destruct (0 <? UDPTimeout o); constructor; cbn; try done; exists b, c; (split; [|done]);
    unfold masked, md_set_Destination, md_set_route, md_set_call, set_cache; cbn; rewrite Ha;
    by destruct (Socksaddr_IsValid (OverrideAddress o)).
Qed.

Lemma run_sniffers_similar {A} (sniff : A → sniffFields SniffContext → sniffFields SniffContext * sniffed) sniffers rc rc' err :
  similar rc rc' →
  similar (run_sniffers sniff sniffers rc err).1 (run_sniffers sniff sniffers rc' err).1 ∧
  (run_sniffers sniff sniffers rc' err).2 = (run_sniffers sniff sniffers rc err).2.
Proof.
  revert rc rc' err. induction sniffers as [|s sniffers IH]; intros rc rc' err Hs; [done|]. cbn [run_sniffers].
  assert (Ef : rc_fields rc' = rc_fields rc)
    by (destruct Hs as [(b & c & E & _) ? ? ? ? ? ? Ex]; unfold rc_fields; by rewrite E, Ex).
  rewrite Ef. destruct (sniff s (rc_fields rc)) as [f []]; unfold recovered; cbn [fst snd];
    [split; [by apply similar_fields|done]|apply IH; by apply similar_fields|by apply IH].
Qed.

(** The first packet is still to be read or is held. *)
Definition first_packet (packet : list byte) (conn : connInput) : Prop :=
  ∃ d events, conn = PacketConn (PacketRead d packet :: events) [] ∨ conn = PacketConn events [(d, packet)].

Lemma sniff_packet_similar names sniffers packet rc rc' :
  similar rc rc' → needs_more (rc_SniffError rc) = false →
  similar (rc_set_sniff names (PeekPacket rc packet sniffers).2 (PeekPacket rc packet sniffers).1)
    (sniff_packet names sniffers packet rc').
Proof.
  intros Hs He. unfold sniff_packet, quicMoreData. rewrite (similar_error _ _ Hs), He, andb_false_r. unfold PeekPacket.
  destruct (run_sniffers_similar (λ s f, packet_sniff s f packet) sniffers rc rc' None Hs) as [H1 H2].
  destruct (run_sniffers _ sniffers rc None), (run_sniffers _ sniffers rc' None). cbn in *. subst. by apply similar_sniff.
Qed.

Lemma sniff_agrees names stream packet firstPacket rc rc1 rc' conn :
  similar rc rc' → first_packet firstPacket conn → needs_more (rc_SniffError rc) = false →
  md_Network (rc_md rc) = "udp"%string →
  prematch_sniff names stream packet firstPacket rc = Some rc1 →
  ∃ conn' rc1', actionSniff names stream packet conn rc' = (conn', rc1', None) ∧ similar rc1 rc1' ∧
    first_packet firstPacket conn' ∧ needs_more (rc_SniffError rc1) = false.
Proof.
  intros Hs (d & events & Hconn) He Hn. unfold prematch_sniff. rewrite Hn. cbn [negb orb].
  rewrite bool_decide_eq_false_2, bool_decide_eq_true_2 by done. cbn [negb orb].
  destruct (negb (has_items firstPacket)); [done|].
  destruct (similar_md _ _ Hs) as (b & c & E & _). unfold actionSniff.
  rewrite E. cbn [md_Protocol masked set_cache md_set_call]. change (Skip (masked b c (rc_md rc))) with (Skip (rc_md rc)).
  assert (Hf : first_packet firstPacket conn) by (by exists d, events).
  assert (Hsame : ∀ x y, conn = x → y = rc → Some y = Some rc1 → ∃ conn' rc1', (x, rc', None) = (conn', rc1', @None error) ∧
    similar rc1 rc1' ∧ first_packet firstPacket conn' ∧ needs_more (rc_SniffError rc1) = false)
    by (intros x y <- -> [= <-]; by exists conn, rc').
  destruct (_ || nonempty _); [by apply Hsame|].
  assert (Hfail : failed_before names rc' = bool_decide (rc_SnifferNames rc = names) && bool_decide (rc_SniffError rc ≠ None)).
  { unfold failed_before. rewrite (similar_names _ _ Hs), (similar_error _ _ Hs), He. by rewrite andb_true_r. }
  rewrite Hfail. set (sniffers := if has_items packet then packet else defaultPacketSniffers).
  pose proof (sniff_packet_similar names sniffers firstPacket rc rc' Hs He) as Hp.
  destruct (PeekPacket rc firstPacket sniffers) as [rc2 err]. cbn [fst snd] in Hp.
  destruct Hconn as [-> | ->]; (destruct (negb (has_items packet) && has_items stream); [by apply Hsame|]; cbn [orb];
    (destruct (bool_decide (rc_SnifferNames rc = names) && bool_decide (rc_SniffError rc ≠ None)); [by apply Hsame|]));
    (destruct (needs_more err) eqn:Em; [done|]); intros [= <-];
    assert (Em' : needs_more (rc_SniffError (sniff_packet names sniffers firstPacket rc')) = false)
      by (by rewrite (similar_error _ _ Hp)).
  - cbn [sniff_held read_packets maxSniffPackets Nat.leb length]. rewrite Em'. cbn [app].
    eexists _, _. split; [done|]. split_and!; [done|exists d, events; by right|done].
  - cbn [sniff_held]. rewrite Em'. eexists _, _. split; [done|]. by split_and!; [|exists d, events; right|].
Qed.
Lemma run_sniffers_network {A} (sniff : A → sniffFields SniffContext → sniffFields SniffContext * sniffed) sniffers rc err :
  md_Network (rc_md (run_sniffers sniff sniffers rc err).1) = md_Network (rc_md rc).
Proof.
  revert rc err. induction sniffers as [|s sniffers IH]; intros rc err; [done|]. cbn [run_sniffers].
  destruct (sniff s (rc_fields rc)) as [f []]; unfold recovered; cbn [fst snd]; by rewrite ?IH.
Qed.

Lemma prematch_sniff_network names stream packet firstPacket rc rc1 :
  prematch_sniff names stream packet firstPacket rc = Some rc1 → md_Network (rc_md rc1) = md_Network (rc_md rc).
Proof.
  unfold prematch_sniff.
  pose proof (run_sniffers_network (λ s f, packet_sniff s f firstPacket) (if has_items packet then packet else defaultPacketSniffers) rc None) as Hn.
  unfold PeekPacket. destruct (run_sniffers _ _ rc None) as [rc2 err]. cbn [fst] in Hn.
  do 5 (destruct (bool_decide _ || _) || destruct (_ && _) || destruct (_ || _) || destruct (bool_decide _); try done; try by intros [= <-]).
  destruct (needs_more err); [done|]. by intros [= <-].
Qed.

(** *** Results *)

(** What a result says of the verdict on the connection, and of its destination in the
    end: an outbound of a result is where the connection goes, a flow goes to the same
    address; a hijack is a hijack, what is dropped or rejected is refused, unless it is a
    flow to a FakeIP address, that only a connection can be resolved for. *)
Definition agrees (packetDestination : Socksaddr) (result : PreMatchResult) (s : matchState) (v : Verdict) : Prop :=
  let destination := md_Destination (rc_md (ms_rc s)) in
  match pm_Outbound result with
  | Some o =>
      (∃ chain, v = VerdictChain chain ∧ last chain = Some o) ∧
      (pm_Action result = PreMatchFlow →
       match pm_Destination result with
       | None => destination = packetDestination
       | Some (address, port) => sa_Addr destination = address ∧ sa_Port destination = port
       end)
  | None =>
      match pm_Action result with
      | PreMatchFlow => False
      | PreMatchHijackDNS => v = VerdictHijackDNS
      | PreMatchDrop => ∃ e, v = VerdictRefused e
      | PreMatchReject =>
          (∃ e, v = VerdictRefused e) ∨ rc_FakeIP (ms_rc s) = true ∧ Socksaddr_IsDomain destination = true
      | PreMatchContinue | PreMatchBypass => True
      end
  end.

Lemma flow_agrees packetDestination tag o rc s :
  similar rc (ms_rc s) → (if nonempty tag then re_Outbound r tag else Some (re_Default r)) = Some o →
  agrees packetDestination (preMatchFlow r packetDestination tag rc) s
    (target_verdict r (md_Network (rc_md rc)) (TargetOutbound o)).
Proof.
  intros Hs Eo. unfold preMatchFlow. rewrite Eo. cbn [target_verdict].
  destruct (resolveOutbound _ _ _ _) as [[chain|e|e]|]; [|done..].
  destruct (last chain) as [o'|] eqn:El; [|done]. destruct (o_PreMatchFlow (re_object r o')) as [flow|]; [|done].
  destruct Hs as [(b & c & E & _) _ Ha _ Ef _ _ _].
  assert (Ed : md_Destination (rc_md (ms_rc s)) = md_Destination (rc_md rc)) by (by rewrite E).
  unfold flow_result. destruct (bool_decide (flow (md_Network (rc_md rc)) (sa_Addr (md_Destination (rc_md rc))) = PreMatchFlow)) eqn:Ea; cbn [negb].
  - destruct (Socksaddr_IsDomain (md_Destination (rc_md rc))) eqn:Edom.
    + destruct (rc_FakeIP rc) eqn:Efk; cbn [negb]; [|done]. rewrite Ha. cbn. right. by rewrite Ed, Ef.
    + cbn [agrees pm_Outbound pm_Action pm_Destination]. unfold agrees. cbn. rewrite Ed. split; [by exists chain|]. intros _.
      by destruct (bool_decide_reflect (md_Destination (rc_md rc) = packetDestination)).
  - unfold agrees. cbn. split; [by exists chain|]. by apply bool_decide_eq_false in Ea.
Qed.

(** A Route rule names its outbound; rules that resolve are left out. *)
Definition plain_rule (rule : HeadlessRule) : bool :=
  no_domain_only rule && all_good not_preferred rule &&
  match DNSRule_Action rule with
  | Some (RuleActionRoute outbound _) => nonempty outbound
  | Some (RuleActionResolve _ _ _ _ _ _ _) => false
  | _ => true
  end.

Lemma match_similar rule rc rc' :
  no_domain_only rule = true → all_good not_preferred rule = true → similar rc rc' →
  ∃ m c c', HeadlessRule_Match (re_env r) rule (reset_cache (rc_md rc)) = (m, set_cache (rc_md rc) c) ∧
    HeadlessRule_Match (re_env r) rule (reset_cache (rc_md rc')) = (m, set_cache (rc_md rc') c') ∧
    similar (rc_set_md (set_cache (rc_md rc) c) rc) (rc_set_md (set_cache (rc_md rc') c') rc').
Proof.
  intros Hfull Hgood [(b & c0 & E & Hc') Hc Ha Eo Ef En Ee Ex].
  destruct (match_holds rule (rc_md rc) Hfull Hc) as (c & -> & Hcc).
  destruct (match_holds rule (rc_md rc') Hfull) as (c' & Em & Hcc'); [by rewrite E|].
  eexists _, c, c'. split; [done|]. rewrite Em. split.
  - f_equal. rewrite E.
    transitivity (holds (re_env r) top_scope rule (rc_md rc)); [apply (holds_mask top_scope rule b (ResetRuleCache c0))|symmetry]; [done|].
    by apply (holds_mask top_scope rule (md_PreMatch (rc_md rc)) (ResetRuleCache (md_cache (rc_md rc)))).
  - constructor; cbn; try done. exists b, c'. by rewrite E.
Qed.
(** The verdict on the outcome of a walk. *)
Definition outcome_verdict (network : string) (selected : option (HeadlessRule * nat)) (err : option error) : Verdict :=
  match err with Some e => VerdictRefused (Some e) | None => target_verdict r network (rule_target r network selected) end.

(** The match of a first packet alongside a connection of the network. *)
Record alongside (network : string) (firstPacket : list byte) (rc : RouteContext) (s : matchState) : Prop := MkBeside {
  beside_similar : similar rc (ms_rc s);
  beside_fakeip : ms_missingFakeIP s = false;
  beside_network : md_Network (rc_md rc) = network;
  beside_packet : network = "udp"%string → first_packet firstPacket (ms_conn s) ∧ needs_more (rc_SniffError rc) = false;
}.

Lemma route_agrees packetDestination network firstPacket tag o rc s :
  alongside network firstPacket rc s → nonempty tag = true →
  agrees packetDestination (preMatchFlow r packetDestination tag (applyRouteOptionsOverride o rc)) (ms_set (apply_route_options o (ms_rc s)) s)
    (target_verdict r network (outbound_target r tag)).
Proof.
  intros [Hs _ Hn _] Ht. unfold outbound_target. destruct (re_Outbound r tag) as [x|] eqn:Eo.
  - replace network with (md_Network (rc_md (applyRouteOptionsOverride o rc)))
      by (rewrite <- Hn; unfold applyRouteOptionsOverride; by destruct (0 <? _)).
    apply flow_agrees; [by apply override_similar|by rewrite Ht].
  - unfold preMatchFlow. by rewrite Ht, Eo.
Qed.

Lemma bypass_agrees packetDestination network firstPacket tag o rc s result :
  alongside network firstPacket rc s → nonempty tag = true →
  prematch_action r 0 packetDestination firstPacket (Some (RuleActionBypass tag o)) rc = inl result →
  agrees packetDestination result (ms_set (apply_route_options o (ms_rc s)) s) (target_verdict r network (outbound_target r tag)).
Proof.
  intros Hb Ht. pose proof (route_agrees packetDestination network firstPacket tag o rc s Hb Ht) as Hr.
  cbn [prematch_action]. rewrite Ht. destruct (_ || _); intros [= <-]; [done|].
  destruct (bool_decide (pm_Action _ = PreMatchFlow)) eqn:Ea; [|done]. apply bool_decide_eq_true in Ea.
  unfold agrees in *. cbn. destruct (pm_Outbound _) as [x|]; [by split; [apply Hr|]|]. by rewrite Ea in Hr.
Qed.

Lemma beside_set network firstPacket rc s rc1 rc' :
  alongside network firstPacket rc s → similar rc1 rc' → md_Network (rc_md rc1) = md_Network (rc_md rc) →
  rc_SniffError rc1 = rc_SniffError rc → alongside network firstPacket rc1 (ms_set rc' s).
Proof. intros [Hs Hf Hn Hp] Hs1 En Ee. constructor; [done|done|by rewrite En|by rewrite Ee]. Qed.

Lemma options_beside network firstPacket rc s o :
  alongside network firstPacket rc s → alongside network firstPacket (applyRouteOptionsOverride o rc) (ms_set (apply_route_options o (ms_rc s)) s).
Proof.
  intros Hb. eapply beside_set; [done|apply override_similar, Hb|..]; unfold applyRouteOptionsOverride; by destruct (0 <? _).
Qed.

(** A rule that matches: the result agrees at once, or both walks go on. *)
Lemma action_agrees packetDestination network firstPacket i rule rc s :
  network = "tcp"%string ∨ network = "udp"%string → plain_rule rule = true → alongside network firstPacket rc s →
  match prematch_action r i packetDestination firstPacket (DNSRule_Action rule) rc with
  | inl result =>
      result = continueResult ∨ result = only PreMatchBypass ∨
      (step_rule r i rule s).2 = None ∧ selects (DNSRule_Action rule) = true ∧
      agrees packetDestination result (step_rule r i rule s).1 (target_verdict r network (rule_target r network (Some (rule, i))))
  | inr rc => (step_rule r i rule s).2 = None ∧ selects (DNSRule_Action rule) = false ∧ alongside network firstPacket rc (step_rule r i rule s).1
  end.
Proof.
  intros Hnet Hp Hb. unfold step_rule. cbn [rule_target]. unfold plain_rule in Hp. apply andb_true_iff in Hp as [_ Hp].
  destruct (DNSRule_Action rule) as [a|]; [|by left]. destruct a; try (by left); try done.
  - right. right. split_and!; [done..|]. by eapply route_agrees.
  - destruct (prematch_action _ _ _ _ _ _) as [result|] eqn:E; [|done]. cbn [route_options selects] in *.
    destruct (nonempty Outbound) eqn:Et.
    + right. right. split_and!; [done..|]. by eapply bypass_agrees.
    + cbn [prematch_action] in E. rewrite Et in E. destruct (_ || _); injection E as <-; [by left|by right; left].
  - cbn. split_and!; [done..|]. by apply options_beside.
  - cbn [prematch_action]. destruct (_ && _); [by left|]. right. right. split_and!; [done..|].
    cbn [target_verdict]. destruct (match re_rejectError r _ with Some e => _ | None => _ end); unfold agrees; cbn; eauto.
  - cbn [prematch_action]. rewrite (beside_network _ _ _ _ Hb). destruct (bool_decide (network = "udp"%string)) eqn:Eu; [|by left].
    right. right. by split_and!.
  - cbn [prematch_action route_options perform]. destruct (prematch_sniff _ _ _ _ _) as [rc1|] eqn:E; [|by left].
    destruct Hnet as [-> | ->]; [unfold prematch_sniff in E; by rewrite (beside_network _ _ _ _ Hb) in E|].
    destruct (beside_packet _ _ _ _ Hb eq_refl) as [Hf He].
    destruct (sniff_agrees _ _ _ _ _ _ _ _ (beside_similar _ _ _ _ Hb) Hf He (beside_network _ _ _ _ Hb) E)
      as (conn' & rc1' & -> & Hs1 & Hf1 & He1).
    rewrite (beside_fakeip _ _ _ _ Hb). cbn. split_and!; [done..|]. constructor; try done.
    rewrite <- (beside_network _ _ _ _ Hb). by eapply prematch_sniff_network.
Qed.

Lemma loops_agree packetDestination network firstPacket rules i rc s s' selected err :
  network = "tcp"%string ∨ network = "udp"%string → forallb plain_rule rules = true → re_Default r = re_defaultOutbound r →
  alongside network firstPacket rc s → match_loop r i rules s = (s', selected, err) →
  agrees packetDestination (prematch_loop r i packetDestination firstPacket rules rc) s' (outcome_verdict network selected err).
Proof.
  intros Hnet Hrules Hdef. revert i rc s. induction rules as [|rule rules IH]; intros i rc s Hb; cbn [match_loop prematch_loop].
  { intros [= <- <- <-]. cbn [outcome_verdict rule_target]. rewrite <- (beside_network _ _ _ _ Hb), <- Hdef.
    by apply flow_agrees; [apply Hb|]. }
  cbn in Hrules. apply andb_true_iff in Hrules as [Hp Hrules].
  assert (Hparts : no_domain_only rule = true ∧ all_good not_preferred rule = true).
  { unfold plain_rule in Hp. apply andb_true_iff in Hp as [Hp _]. by apply andb_true_iff in Hp. }
  destruct (match_similar rule rc (ms_rc s)) as (m & c & c' & -> & -> & Hs1); [apply Hparts..|apply Hb|].
  assert (Hb1 : alongside network firstPacket (rc_set_md (set_cache (rc_md rc) c) rc) (ms_set (rc_set_md (set_cache (rc_md (ms_rc s)) c') (ms_rc s)) s))
    by (by eapply beside_set).
  revert Hb1. generalize (rc_set_md (set_cache (rc_md rc) c) rc). generalize (ms_set (rc_set_md (set_cache (rc_md (ms_rc s)) c') (ms_rc s)) s).
  intros s1 rc1 Hb1. destruct m; cbn [negb]; [|by apply IH].
  pose proof (action_agrees packetDestination network firstPacket i rule rc1 s1 Hnet Hp Hb1) as Ha.
  destruct (prematch_action _ _ _ _ _ rc1) as [result|rc2].
  - destruct Ha as [-> |[-> |(E1 & E2 & Ha)]]; [done|done|].
    destruct (step_rule r i rule s1) as [s2 e]. cbn [fst snd] in *. subst e. rewrite E2. by intros [= <- <- <-].
  - destruct Ha as (E1 & E2 & Hb2). destruct (step_rule r i rule s1) as [s2 e]. cbn [fst snd] in *. subst e. rewrite E2.
    by apply IH.
Qed.
Lemma prepare_network rc : md_Network (rc_md (prepareMatchMetadata r rc).1) = md_Network (rc_md rc).
Proof.
  unfold prepareMatchMetadata, find_domain, find_neighbor, searchProcessInfo.
  repeat (case_match; cbn in *; simplify_eq; try done).
Qed.

Lemma prepare_error rc : rc_SniffError (prepareMatchMetadata r rc).1 = rc_SniffError rc.
Proof.
  unfold prepareMatchMetadata, find_domain, find_neighbor, searchProcessInfo.
  repeat (case_match; cbn in *; simplify_eq; try done).
Qed.

(** The metadata a match may start with: without addresses, as a packet has none. *)
Definition fresh_flow (rc : RouteContext) : Prop :=
  clean (md_cache (rc_md rc)) ∧ md_DestinationAddresses (rc_md rc) = [] ∧ needs_more (rc_SniffError rc) = false.

Lemma route_matched_agrees network firstPacket rc conn :
  network = "tcp"%string ∨ network = "udp"%string → forallb plain_rule (re_rules r) = true → re_Default r = re_defaultOutbound r →
  fresh_flow rc → md_Network (rc_md rc) = network → (network = "udp"%string → first_packet firstPacket conn) →
  agrees (md_Destination (rc_md rc)) (PreMatch r firstPacket rc) (route_matched r network rc conn).1 (route_matched r network rc conn).2.
Proof.
  intros Hnet Hrules Hdef (Hc & Ha & He) Hn Hconn. unfold PreMatch, route_matched, matchRule.
  set (rc0 := rc_update _ rc). set (rc0' := rc_update (λ md, md_set_call network (md_PreMatch md) md) rc).
  assert (Hs : similar rc0 rc0').
  { constructor; try done. exists (md_PreMatch (rc_md rc)), (md_cache (rc_md rc)). unfold rc0, rc0'. cbn. by rewrite Hn. }
  pose proof (prepare_network rc0) as En. pose proof (prepare_error rc0) as Ee. destruct (prepare_similar _ _ Hs) as [Hs1 Ep].
  destruct (prepareMatchMetadata r rc0) as [rc1 e], (prepareMatchMetadata r rc0') as [rc1' e']. cbn [fst snd] in *. subst e'.
  destruct e as [e|]; [done|].
  destruct (match_loop r 0 (re_rules r) _) as [[s' sel] err] eqn:E.
  assert (Hb : alongside network firstPacket rc1 (MkMatchState rc1' conn false)).
  { constructor; try done; [by rewrite En|]. intros Hu. split; [by apply Hconn|by rewrite Ee]. }
  pose proof (loops_agree (md_Destination (rc_md rc)) network firstPacket _ _ _ _ _ _ _ Hnet Hrules Hdef Hb E) as Hl.
  by destruct err.
Qed.
End agree.

Section theorem.
Context `{Extern} `{Sniffers}.

(** C12 The match of a first packet decides what the router decides for the connection, for
    rules that do not resolve, prefer outbounds or use [domain_only] rule-sets, for a flow
    with no addresses yet and no sniff that wants more data, when the default outbound of the outbound manager, which
    [PreMatch] uses, is that of the router, and when no detour, old destination or DNS of a
    TUN decides before the rules: the outbound that [PreMatch] names is the last of the
    chain that [routeConnection] or [routePacketConnection] sends the connection to, the
    destination of a flow is the destination of the connection, what is hijacked is
    hijacked, and what is dropped or rejected is refused, except for a flow to a FakeIP
    address that has not been resolved. *)
Theorem PreMatch_agrees r a rc firstPacket :
  forallb plain_rule (re_rules r) = true → re_Default r = re_defaultOutbound r → fresh_flow rc →
  (∀ events, md_Network (rc_md rc) = "tcp"%string → early_stream r a (rc_md rc) = None →
     let '(s, v) := routeConnection r a rc events in
     agrees (md_Destination (rc_md rc)) (PreMatch r firstPacket rc) s v) ∧
  (∀ source events, md_Network (rc_md rc) = "udp"%string → early_packets r a (rc_md rc) = None →
     let '(s, v) := routePacketConnection r a rc (PacketRead source firstPacket :: events) in
     agrees (md_Destination (rc_md rc)) (PreMatch r firstPacket rc) s v).
Proof.
  intros Hrules Hdef Hs. split.
  - intros events Hn He. unfold routeConnection. rewrite He.
    pose proof (route_matched_agrees r "tcp" firstPacket rc (StreamConn events [])) as Hr. destruct (route_matched _ _ _ _). by apply Hr; auto.
  - intros d events Hn He. unfold routePacketConnection. rewrite He.
    pose proof (route_matched_agrees r "udp" firstPacket rc (PacketConn (PacketRead d firstPacket :: events) [])) as Hr.
    destruct (route_matched _ _ _ _). apply Hr; auto. intros _. exists d, events. by left.
Qed.
End theorem.

(** The port of a rule: QUIC is sniffed, DNS over UDP is hijacked, the rest goes direct with
    another destination. *)
Definition c_override : RuleActionRouteOptions :=
  MkRuleActionRouteOptions (MkSocksaddr (Addr4 33686018) 0 "") 0 None [] [] 0 false false 0 false 0 false "" 0.
Definition c_flow_rules : list HeadlessRule :=
  [c_quic_sniff;
   DefaultRule (MkDefault [NewProtocolItem ["dns"]] [] [] [] [] [] [PlainItem (NewProtocolItem ["dns"])] None false (Some RuleActionHijackDNS));
   c_route_rule (RuleActionRoute "select" c_override)].

Lemma PreMatch_agrees_witness :
  let r := c_route_router c_flow_rules in let rc := c_context "udp" in let packet := [xc0; x01; x02] in
  pm_Outbound (PreMatch r packet rc) = Some 1%nat ∧ pm_Destination (PreMatch r packet rc) = Some (Addr4 33686018, 443) ∧
  let '(s, v) := routePacketConnection r c_arrival rc [PacketRead (md_Source (rc_md rc)) packet] in
  agrees (md_Destination (rc_md rc)) (PreMatch r packet rc) s v ∧ v = VerdictChain [0%nat; 1%nat].
Proof.
  intros r rc packet. split_and!; [by vm_compute..|].
  assert (Hv : (routePacketConnection r c_arrival rc [PacketRead (md_Source (rc_md rc)) packet]).2 = VerdictChain [0%nat; 1%nat]) by (by vm_compute).
  destruct (PreMatch_agrees r c_arrival rc packet) as [_ Hu]; [by vm_compute..|].
  specialize (Hu (md_Source (rc_md rc)) [] eq_refl ltac:(by vm_compute)).
  destruct (routePacketConnection _ _ _ _) as [s v]. split; [exact Hu|exact Hv].
Defined.

(** Rules that resolve are different: an override of the address takes the resolved addresses
    away from a connection, but not from a match, which sends the flow of a FakeIP address
    to an address of the domain before the override. *)
Definition c_fakeip_router : RouterEnv :=
  let named := MkRuleActionRouteOptions (MkSocksaddr AddrZero 0 "b.example") 0 None [] [] 0 false false 0 false 0 false "" 0 in
  MkRouterEnv c_env [c_route_rule (RuleActionResolve "" 0 0 false false None PrefixZero); c_route_rule (RuleActionRoute "select" named)]
    None (λ _, false) None (Some (λ _, true, λ _, Some "a.example"%string)) (λ _, None) (λ _, None)
    (λ _ _ domain _, if bool_decide (domain = "a.example"%string) then ([Addr4 33686018], None) else ([], Some (ENew "unexpected")))
    (λ _, None) (λ _, None) c_object (re_Outbound (c_route_router [])) 0 0 2.

Example override_keeps_addresses :
  let result := PreMatch c_fakeip_router [xc0] (c_context "udp") in
  let '(s, v) := routePacketConnection c_fakeip_router c_arrival (c_context "udp") [] in
  pm_Action result = PreMatchFlow ∧ pm_Destination result = Some (Addr4 33686018, 443) ∧
  v = VerdictChain [0%nat; 1%nat] ∧ sa_Fqdn (md_Destination (rc_md (ms_rc s))) = "b.example"%string ∧
  md_DestinationAddresses (rc_md (ms_rc s)) = [].
Proof. by vm_compute. Qed.
