(* ===== verification/Group.v ===== *)
(** * What the outbound groups share: protocol/group, common/urltest, common/interrupt

    Failed dials, expected HTTP statuses, the history of delays, the connections of a
    group, and the names of members. Times are in nanoseconds. *)
From Stdlib Require Import Ascii.
From stdpp Require Import base list gmap strings pretty.
From S2P Require Import Prelude OutboundManager.

(** ** Failed dials: protocol/group/dial_failure.go *)

Definition second : Z := 1000000000.
Definition dialFailureWindow : Z := 5 * second.
Definition maxDialFailures : Z := 5.

Record dialFailures : Type := MkDialFailures { df_count : Z; df_started : Z }.
Definition noFailures : dialFailures := MkDialFailures 0 0.

(** [add] counts a failure; [true] calls for a check. *)
Definition dialFailures_add (now : Z) (err : error) (f : dialFailures) : dialFailures * bool :=
  let f := if (df_count f =? 0) || (dialFailureWindow <? now - df_started f)
           then MkDialFailures 1 now
           else MkDialFailures (df_count f + 1) (df_started f) in
  if errors_Is err "syscall.ECONNREFUSED" || (maxDialFailures <=? df_count f)
  then (noFailures, true) else (f, false).

Definition countableDialFailure (detour : Outbound) (err : error) : bool :=
  if mem (ob_Type detour) ["direct"%string; "block"%string; "dns"%string] then false
  else negb (errors_Is err "N.ErrUnknownNetwork").

(** ** Connections of a group: common/interrupt/group.go *)

(** The open connections, each with whether it is external, in the order they were
    added; a connection is a number. [ig_closed] has those that were interrupted. *)
Record InterruptGroup : Type := MkInterruptGroup {
  ig_connections : list (nat * bool);
  ig_closed : list nat;
}.

Definition Group_Add (conn : nat) (isExternal : bool) (g : InterruptGroup) : InterruptGroup :=
  MkInterruptGroup (ig_connections g ++ [(conn, isExternal)]) (ig_closed g).

(** [Remove] of the list element, by the function [Add] returns or by closing. *)
Definition Group_Remove (conn : nat) (g : InterruptGroup) : InterruptGroup :=
  MkInterruptGroup (filter (λ c, c.1 ≠ conn) (ig_connections g)) (ig_closed g).

Definition Interrupt (interruptExternalConnections : bool) (g : InterruptGroup) : InterruptGroup :=
  let hit c := negb (snd c) || interruptExternalConnections in
  MkInterruptGroup (filter (λ c, hit c = false) (ig_connections g))
    (ig_closed g ++ (filter (λ c, hit c = true) (ig_connections g)).*1).

(** ** Delays: common/urltest/urltest.go *)

Record URLTestHistory : Type := MkHistory { hs_Time : Z; hs_Delay : Z }.
Definition HistoryStorage : Type := gmap string URLTestHistory.

Definition LoadURLTestHistory (tag : string) (s : HistoryStorage) : option URLTestHistory := s !! tag.
Definition DeleteURLTestHistory (tag : string) (s : HistoryStorage) : HistoryStorage := delete tag s.
Definition StoreURLTestHistory (tag : string) (h : URLTestHistory) (s : HistoryStorage)
    : HistoryStorage := <[tag := h]> s.

(** [max(uint16(elapsed/time.Millisecond), 1)] *)
Definition urlTest_delay (elapsed : Z) : Z := Z.max (u16 (elapsed `quot` 1000000)) 1.

(** Half an interval. *)
Definition freshFor (interval : Z) : Z := interval `quot` 2.

(** ** Expected statuses: common/urltest/expected_status.go *)

Record StatusRange : Type := MkStatusRange { sr_Start : Z; sr_End : Z }.
Definition ExpectedStatus : Type := list StatusRange.

(** [strings.Split(s, sep)] for a separator of one byte *)
Fixpoint split_byte (sep : Ascii.ascii) (s : string) : list string :=
  match s with
  | EmptyString => [EmptyString]
  | String c s' =>
      match split_byte sep s' with
      | [] => [] 
      | part :: parts =>
          if bool_decide (c = sep) then EmptyString :: part :: parts else String c part :: parts
      end
  end.

Definition is_bracket (c : Ascii.ascii) : bool :=
  bool_decide (c = "["%char) || bool_decide (c = " "%char) || bool_decide (c = "]"%char).

Definition status_bound (s : string) : option Z := strconv_ParseUint (trim is_bracket s) 16.

(** The body of the loop: [None] for a part that is skipped. *)
Definition status_part (part : string) : result (option StatusRange) :=
  let part := strings_TrimSpace part in
  let err := ENew ("invalid expected status range: " +:+ part)%string in
  if negb (nonempty part) then Ok None
  else match split_byte "-" part with
  | first :: rest =>
      match rest with
      | _ :: _ :: _ => Err err
      | _ =>
          match status_bound first, (match rest with
                                     | last :: _ => status_bound last
                                     | [] => status_bound first
                                     end) with
          | Some start, Some end_ =>
              if (start <? 100) || (599 <? start) || (end_ <? 100) || (599 <? end_) || (end_ <? start)
              then Err err else Ok (Some (MkStatusRange start end_))
          | _, _ => Err err
          end
      end
  | [] => Err err
  end.

Fixpoint status_parts (parts : list string) : result ExpectedStatus :=
  match parts with
  | [] => Ok []
  | part :: parts =>
      r ← status_part part;
      rest ← status_parts parts;
      Ok (match r with Some x => x :: rest | None => rest end)
  end.

Definition ParseExpectedStatus (value : string) : result ExpectedStatus :=
  let value := strings_TrimSpace value in
  if negb (nonempty value) || bool_decide (value = "*"%string) then Ok []
  else
    let parts := split_byte "/"
      (string_map (λ c, if bool_decide (c = ","%char) then "/"%char else c) value) in
    if 28 <? Z.of_nat (length parts) then Err (ENew "too many expected status ranges")
    else
      r ← status_parts parts;
      if has_items r then Ok r else Err (ENew "empty expected status ranges").

Definition ExpectedStatus_Contains (s : ExpectedStatus) (value : Z) : bool :=
  negb (has_items s) || existsb (λ r, (sr_Start r <=? value) && (value <=? sr_End r)) s.

(** [expectedStatusKey] of common/urltest/coordinator.go *)
Definition expectedStatusKey (s : ExpectedStatus) : string :=
  strings_Join (map (λ r, (pretty (sr_Start r) +:+ "-" +:+ pretty (sr_End r))%string) s) "/".

(** ** Names: protocol/group/selector.go *)

Definition providerOutboundFilterTag (providerTag outboundTag : string) : string :=
  let prefix := (providerTag +:+ "/")%string in
  if strings_HasPrefix outboundTag prefix then str_drop (String.length prefix) outboundTag
  else outboundTag.

(** The excluded types as a set; [lower] is [strings.ToLower] after [strings.TrimSpace]. *)
Definition excludedOutboundTypes (lower : string → string) (types : list string) : gset string :=
  list_to_set (filter (λ t, t ≠ ""%string) (lower <$> types)).

(** [group.Selected(network)] of a member that is a group; [None] for others *)
Definition Selection : Type := Outbound → string → option (option Outbound).

(** [None] when the fuel is used up: groups that select each other have no real tag. *)
Fixpoint RealTag (fuel : nat) (sel : Selection) (detour : Outbound) (network : string)
    : option string :=
  match fuel with
  | O => None
  | S fuel =>
      match sel detour network with
      | None => Some (ob_Tag detour)
      | Some None => Some ""%string
      | Some (Some next) => RealTag fuel sel next network
      end
  end.

Definition MemberTag (fuel : nat) (sel : Selection) (member : Outbound) : option string :=
  tag ← RealTag fuel sel member "tcp";
  Some (if nonempty tag then tag else ob_Tag member).

(** ** Members *)

(** An expression of a filter, by what [MatchString] answers. *)
Definition Filter : Type := string → bool.

(** What the group sees of the rest: the outbounds by tag, the outbounds of a provider,
    the networks a member serves. *)
Record Members : Type := MkMembers {
  mb_Outbound : string → option Outbound;
  mb_Provider : string → list Outbound;
  mb_Network : Outbound → list string;
}.

(** [option.GroupCommonOption] *)
Record GroupCommonOption : Type := MkGroupCommonOption {
  gco_Outbounds : list string;
  gco_Providers : list string;
  gco_Exclude : option Filter;
  gco_Include : option Filter;
  gco_ExcludeTypes : list string;
  gco_UseAllProviders : bool;
}.

Definition or_default (v d : Z) : Z := if v =? 0 then d else v.

(** The filters of a group, which every group applies to the outbounds of a provider. *)
Definition memberAllowed (excludeTypes : gset string) (exclude include : option Filter)
    (providerTag : string) (detour : Outbound) : bool :=
  let filterTag := providerOutboundFilterTag providerTag (ob_Tag detour) in
  negb (bool_decide (ob_Type detour ∈ excludeTypes)
        || match exclude with Some f => f filterTag | None => false end
        || match include with Some f => negb (f filterTag) | None => false end).

(** The loop over the tags of the configured providers, which all have to exist. *)
Fixpoint require_providers (providers : list string) (i : nat) (tags : list string) : result unit :=
  match tags with
  | [] => Ok tt
  | tag :: tags =>
      if mem tag providers then require_providers providers (S i) tags
      else Err (ENew ("outbound provider " +:+ pretty i +:+ " not found: " +:+ tag)%string)
  end.

(** The providers of a group as it starts; [providers] are those of the provider manager,
    [None] without one. *)
Definition start_providers (useAllProviders : bool) (providers : option (list string))
    (providerTags : list string) : result (list string) :=
  match providers with
  | None =>
      _ ← guard_err (useAllProviders || has_items providerTags)
            (ENew "outbound provider manager unavailable");
      Ok providerTags
  | Some providers =>
      if useAllProviders then Ok providers
      else
        _ ← require_providers providers 0 providerTags;
        Ok providerTags
  end.

(** The count stays below the number of failures that calls for a check. *)
Lemma add_bounds now err f :
  0 <= df_count f < maxDialFailures → 0 <= df_count (dialFailures_add now err f).1 < maxDialFailures.
Proof.
  unfold dialFailures_add, maxDialFailures. intros Hf.
  destruct (_ || (dialFailureWindow <? _)); cbn; destruct (_ || _) eqn:E; cbn; try lia;
    apply orb_false_iff in E as [_ E]; cbn in E; lia.
Qed.
