(* ===== verification/ExpectedStatus.v ===== *)
(** * Expected statuses: what is parsed, and that a key stands for one status

    The coordinator of URL tests compares expected statuses by their text. *)
From Stdlib Require Import Ascii.
From stdpp Require Import base list gmap strings pretty.
From S2P Require Import Prelude OutboundManager Group.

(** What [ParseExpectedStatus] gives. *)
Definition range_ok (r : StatusRange) : Prop := 100 <= sr_Start r <= sr_End r ∧ sr_End r <= 599.
Definition status_ok (s : ExpectedStatus) : Prop := Forall range_ok s ∧ (length s <= 28)%nat.

Lemma status_part_ok part r : status_part part = Ok (Some r) → range_ok r.
Proof.
  unfold status_part. destruct (negb _); [done|]. destruct (split_byte _ _) as [|first rest]; [done|].
  destruct rest as [|last [|? ?]]; [| |done]; repeat case_match; try done;
    intros [= <-]; unfold range_ok; cbn; lia.
Qed.

Lemma status_parts_ok parts s :
  status_parts parts = Ok s → Forall range_ok s ∧ (length s <= length parts)%nat.
Proof.
  revert s. induction parts as [|p parts IH]; intros s; cbn; [intros [= <-]; split; [constructor|done]|].
  intros E. go_inv. destruct (IH _ eq_refl) as [H1 H2].
  case_match; cbn; (split; [|lia]); [|done]. constructor; [|done]. by eapply status_part_ok.
Qed.

Lemma ParseExpectedStatus_ok value s : ParseExpectedStatus value = Ok s → status_ok s.
Proof.
  unfold ParseExpectedStatus. destruct (_ || _); [intros [= <-]; split; [constructor|cbn; lia]|].
  destruct (28 <? _) eqn:E; [done|]. intros Hs. go_inv.
  match goal with E : status_parts _ = Ok _ |- _ => apply status_parts_ok in E as [H1 H2] end.
  split; [done|]. lia.
Qed.

(** ** Texts without a byte *)

Fixpoint all_bytes (f : ascii → bool) (s : string) : bool :=
  match s with
  | EmptyString => true
  | String c s => f c && all_bytes f s
  end.

Lemma all_bytes_app f s t : all_bytes f (s +:+ t) = all_bytes f s && all_bytes f t.
Proof.
  induction s as [|c s IH]; [done|]. change (String c s +:+ t) with (String c (s +:+ t)). cbn.
  by rewrite IH, andb_assoc.
Qed.

Lemma all_bytes_impl (f g : ascii → bool) s :
  (∀ c, f c = true → g c = true) → all_bytes f s = true → all_bytes g s = true.
Proof. intros H. induction s as [|c s IH]; cbn; [done|]. rewrite !andb_true_iff. naive_solver. Qed.

Lemma split_byte_nonempty sep s : split_byte sep s ≠ [].
Proof.
  destruct s as [|c s]; cbn; [done|]. induction s as [|c' s IH]; cbn; [by case_bool_decide|].
  destruct (split_byte sep s); cbn in *; by repeat case_bool_decide.
Qed.

Lemma split_byte_none sep s :
  all_bytes (λ c, negb (bool_decide (c = sep))) s = true → split_byte sep s = [s].
Proof.
  induction s as [|c s IH]; cbn; [done|]. intros [Hc Hs]%andb_true_iff. rewrite IH by done.
  by case_bool_decide.
Qed.

Lemma split_byte_app sep s t :
  all_bytes (λ c, negb (bool_decide (c = sep))) s = true →
  split_byte sep (s +:+ String sep t) = s :: split_byte sep t.
Proof.
  induction s as [|c s IH].
  - intros _. change ("" +:+ String sep t) with (String sep t). cbn.
    destruct (split_byte sep t) eqn:E; [by apply split_byte_nonempty in E|]. by rewrite bool_decide_true.
  - intros [Hc Hs]%andb_true_iff. change (String c s +:+ String sep t) with (String c (s +:+ String sep t)).
    cbn. rewrite IH by done. by case_bool_decide.
Qed.

Lemma string_map_id (f : ascii → ascii) s :
  all_bytes (λ c, bool_decide (f c = c)) s = true → string_map f s = s.
Proof.
  induction s as [|c s IH]; cbn; [done|]. intros [Hc%bool_decide_eq_true Hs]%andb_true_iff.
  by rewrite Hc, IH.
Qed.

(** Trimming a text without the trimmed bytes. *)
Lemma trim_none f s : all_bytes (λ c, negb (f c)) s = true → trim f s = s.
Proof.
  unfold trim. intros H. assert (E : trim_left f s = s).
  { destruct s as [|c s]; cbn in *; [done|]. apply andb_true_iff in H as [H _]. by destruct (f c). }
  rewrite E. clear E. induction s as [|c s IH]; cbn; [done|]. cbn in H. apply andb_true_iff in H as [Hc Hs].
  rewrite IH by done. destruct s; [|done]. by destruct (f c).
Qed.

(** ** The text of a status *)

(** A bound is three digits, which give it back. *)
Definition bound_text (n : Z) : bool :=
  all_bytes ascii_is_digit (pretty n) && nonempty (pretty n) && bool_decide (status_bound (pretty n) = Some n).

Lemma bound_texts n : 100 <= n <= 599 → bound_text n = true.
Proof.
  intros Hn. assert (H : Forall (λ n, bound_text n = true) (seqZ 100 500)).
  { apply List.Forall_forall, forallb_forall. by vm_compute. }
  rewrite Forall_forall in H. apply H. apply elem_of_seqZ. lia.
Qed.

Definition range_text (r : StatusRange) : string := (pretty (sr_Start r) +:+ "-" +:+ pretty (sr_End r))%string.

Definition is_range_byte (c : ascii) : bool := ascii_is_digit c || bool_decide (c = "-"%char).

Lemma digit_byte c : ascii_is_digit c = true →
  negb (bool_decide (c = "-"%char)) = true ∧ negb (is_space c) = true ∧ negb (is_bracket c) = true ∧
  negb (bool_decide (c = "/"%char)) = true ∧ c ≠ ","%char.
Proof. destruct c as [[] [] [] [] [] [] [] []]; intros H; vm_compute in H; try discriminate H; by vm_compute. Qed.

Lemma range_byte c : is_range_byte c = true →
  negb (bool_decide (c = "/"%char)) = true ∧ negb (is_space c) = true ∧ c ≠ ","%char.
Proof.
  unfold is_range_byte. intros [H|H%bool_decide_eq_true]%orb_true_iff; [|subst; by vm_compute].
  apply digit_byte in H. naive_solver.
Qed.

Lemma bound_text_spec n :
  100 <= n <= 599 →
  all_bytes ascii_is_digit (pretty n) = true ∧ nonempty (pretty n) = true ∧ status_bound (pretty n) = Some n.
Proof.
  intros H%bound_texts. unfold bound_text in H. apply andb_true_iff in H as [[H1 H2]%andb_true_iff H3].
  by apply bool_decide_eq_true in H3.
Qed.

Lemma range_text_bytes r :
  range_ok r → all_bytes is_range_byte (range_text r) = true ∧ nonempty (range_text r) = true.
Proof.
  intros Hr. destruct (bound_text_spec (sr_Start r)) as (H1 & H2 & _); [unfold range_ok in Hr; lia|].
  destruct (bound_text_spec (sr_End r)) as (H3 & _ & _); [unfold range_ok in Hr; lia|].
  assert (Hd : ∀ s, all_bytes ascii_is_digit s = true → all_bytes is_range_byte s = true).
  { intros s. apply all_bytes_impl. intros c Hc. unfold is_range_byte. by rewrite Hc. }
  unfold range_text. rewrite !all_bytes_app, (Hd _ H1), (Hd _ H3). split; [done|].
  by destruct (pretty (sr_Start r)).
Qed.

(** A range is parsed from its text. *)
Lemma status_part_text r : range_ok r → status_part (range_text r) = Ok (Some r).
Proof.
  intros Hr. destruct (range_text_bytes r Hr) as [Hb Hn]. unfold status_part, strings_TrimSpace.
  rewrite trim_none by (eapply all_bytes_impl; [|done]; intros c Hc; apply range_byte in Hc; tauto).
  rewrite Hn. cbn [negb]. unfold range_text.
  destruct (bound_text_spec (sr_Start r)) as (H1 & _ & E1); [unfold range_ok in Hr; lia|].
  destruct (bound_text_spec (sr_End r)) as (H2 & _ & E2); [unfold range_ok in Hr; lia|].
  assert (Hd : ∀ s, all_bytes ascii_is_digit s = true → all_bytes (λ c, negb (bool_decide (c = "-"%char))) s = true).
  { intros s. apply all_bytes_impl. intros c Hc. apply digit_byte in Hc. tauto. }
  change ("-" +:+ pretty (sr_End r)) with (String "-" (pretty (sr_End r))).
  rewrite split_byte_app, split_byte_none by auto. rewrite E1, E2.
  replace (_ || _) with false; [by destruct r|]. unfold range_ok in Hr. lia.
Qed.

Lemma status_parts_text s : Forall range_ok s → status_parts (map range_text s) = Ok s.
Proof.
  induction 1 as [|r s Hr _ IH]; [done|]. cbn [map status_parts]. rewrite status_part_text by done.
  unfold mbind, result_bind. by rewrite IH.
Qed.

Lemma split_join l :
  l ≠ [] → Forall (λ s, all_bytes (λ c, negb (bool_decide (c = "/"%char))) s = true) l →
  split_byte "/" (strings_Join l "/") = l.
Proof.
  unfold strings_Join. intros Hl H. induction H as [|s l Hs H IH]; [done|].
  destruct l as [|s' l]; [by apply split_byte_none|].
  change (String.concat "/" (s :: s' :: l)) with (s +:+ String "/" (String.concat "/" (s' :: l))).
  rewrite split_byte_app by done. by rewrite IH.
Qed.

Lemma join_bytes f l :
  f "/"%char = true → Forall (λ s, all_bytes f s = true) l → all_bytes f (strings_Join l "/") = true.
Proof.
  unfold strings_Join. intros Hf H. induction H as [|s l Hs H IH]; [done|].
  destruct l as [|s' l]; [done|].
  change (String.concat "/" (s :: s' :: l)) with (s +:+ String "/" (String.concat "/" (s' :: l))).
  rewrite all_bytes_app, Hs. cbn. by rewrite Hf.
Qed.

(** The text of a status gives the status back. *)
Lemma ParseExpectedStatus_key s : status_ok s → s ≠ [] → ParseExpectedStatus (expectedStatusKey s) = Ok s.
Proof.
  intros [Hs Hl] Hn. change (expectedStatusKey s) with (strings_Join (map range_text s) "/").
  set (f c := is_range_byte c || bool_decide (c = "/"%char)).
  assert (Hf : ∀ g : ascii → bool, (∀ c, f c = true → g c = true) →
    all_bytes g (strings_Join (map range_text s) "/") = true).
  { intros g Hg. apply (all_bytes_impl f); [done|]. apply join_bytes; [done|].
    apply Forall_map. eapply Forall_impl; [done|]. intros r Hr. apply (all_bytes_impl is_range_byte).
    - intros c Hc. unfold f. by rewrite Hc.
    - by apply range_text_bytes. }
  assert (Hc : ∀ c, f c = true → negb (is_space c) = true ∧ c ≠ ","%char ∧ c ≠ "*"%char).
  { intros c. destruct c as [[] [] [] [] [] [] [] []]; intros H; vm_compute in H; try discriminate H; by vm_compute. }
  assert (Hne : nonempty (strings_Join (map range_text s) "/") = true).
  { destruct Hs as [|r s Hr Hs]; [done|]. apply range_text_bytes in Hr as [_ Hr]. unfold strings_Join. cbn.
    destruct (map range_text s); [done|]. by destruct (range_text r). }
  unfold ParseExpectedStatus, strings_TrimSpace.
  rewrite trim_none by (apply Hf; intros c H; by apply Hc in H as [? _]). rewrite Hne, bool_decide_false.
  2:{ intros E. assert (H := Hf (λ c, negb (bool_decide (c = "*"%char)))). rewrite E in H. cbn in H.
      discriminate H. intros c (_ & _ & H')%Hc. by rewrite bool_decide_false. }
  cbn [negb orb]. rewrite string_map_id.
  2:{ apply Hf. intros c (_ & H & _)%Hc. by rewrite (bool_decide_false (c = ","%char)), bool_decide_true. }
  rewrite split_join.
  - rewrite length_map. rewrite (proj2 (Z.ltb_ge _ _)) by lia. rewrite status_parts_text by done.
    unfold mbind, result_bind. by destruct s.
  - by destruct s.
  - apply Forall_map. eapply Forall_impl; [done|]. intros r [Hr _]%range_text_bytes.
    eapply all_bytes_impl; [|done]. intros c Hc'. apply range_byte in Hc'. tauto.
Qed.

(** So the text stands for one status. *)
Lemma expectedStatusKey_inj s s' :
  status_ok s → status_ok s' → expectedStatusKey s = expectedStatusKey s' → s = s'.
Proof.
  intros Hs Hs' E. assert (H0 : ∀ t, status_ok t → t ≠ [] → expectedStatusKey t ≠ ""%string).
  { intros t Ht Hn Et. assert (H := ParseExpectedStatus_key t Ht Hn). rewrite Et in H. injection H as <-. done. }
  destruct (decide (s = [])) as [->|Hn], (decide (s' = [])) as [->|Hn']; [done|by destruct (H0 s')|by destruct (H0 s)|].
  assert (H1 := ParseExpectedStatus_key s Hs Hn). assert (H2 := ParseExpectedStatus_key s' Hs' Hn').
  rewrite E, H2 in H1. by injection H1.
Qed.
