(* ===== verification/Coordinator.v ===== *)
(** * Sharing URL tests between groups: common/urltest/coordinator.go

    Groups that ask the same question about an outbound at the same time share one test,
    and may take a recent result. The checks are in a heap, since callers keep references
    to them after the map has moved on; [Check] is a sequence of critical sections and
    waits, of which any number run at once. *)
From stdpp Require Import base list gmap strings.
From S2P Require Import Prelude OutboundManager Group.

Definition coordinatorPruneInterval : Z := 60 * second.
Definition coordinatorRetention : Z := 30 * 60 * second.

(** The arguments of [Check] that say what is tested; the outbound is that of the tag. *)
Record question : Type := MkQuestion {
  qu_tag : string;
  qu_link : string;
  qu_expectedStatus : ExpectedStatus;
  qu_timeout : Z;
}.

(** Tag, link, expected status and timeout. *)
Definition coordinatorKey : Type := string * string * string * Z.
Definition key_of (q : question) : coordinatorKey :=
  (qu_tag q, qu_link q, expectedStatusKey (qu_expectedStatus q), qu_timeout q).

(** [cc_question] is what is tested. *)
Record coordinatorCheck : Type := MkCheck {
  cc_question : question;
  cc_done : bool;
  cc_at : Z;
  cc_delay : Z;
  cc_err : option error;
  cc_abandoned : bool;
}.

(** A check is a number, and its fields are in the heap. *)
Record Coordinator : Type := MkCoordinator {
  co_checks : gmap coordinatorKey nat;
  co_lastPrune : Z;
  co_heap : gmap nat coordinatorCheck;
  co_next : nat;
}.

Definition NewCoordinator (now : Z) : Coordinator := MkCoordinator ∅ now ∅ O.

(** Delay, time and error. *)
Definition check_result (c : coordinatorCheck) : Z * Z * option error := (cc_delay c, cc_at c, cc_err c).

Definition outdated (now : Z) (heap : gmap nat coordinatorCheck) (id : nat) : bool :=
  match heap !! id with
  | Some c => cc_done c && (coordinatorRetention <? now - cc_at c)
  | None => false
  end.

Definition pruneLocked (now : Z) (co : Coordinator) : Coordinator :=
  if now - co_lastPrune co <? coordinatorPruneInterval then co
  else MkCoordinator (filter (λ e, outdated now (co_heap co) e.2 = false) (co_checks co)) now
         (co_heap co) (co_next co).

(** A new check in place of the one of the key. *)
Definition begin_check (now : Z) (q : question) (co : Coordinator) : Coordinator * nat :=
  let id := co_next co in
  (pruneLocked now (MkCoordinator (<[key_of q := id]> (co_checks co)) (co_lastPrune co)
     (<[id := MkCheck q false 0 0 None false]> (co_heap co)) (S id)), id).

(** What a round of the loop under the lock decides. *)
Inductive decision : Type :=
| Take (id : nat)
| Join (id : nat)
| Run (id : nat).

Definition Check_enter (now maxAge : Z) (q : question) (co : Coordinator) : Coordinator * decision :=
  match co_checks co !! key_of q with
  | None => let '(co, id) := begin_check now q co in (co, Run id)
  | Some id =>
      match co_heap co !! id with
      | Some existing =>
          if cc_done existing then
            if (0 <? maxAge) && negb (cc_abandoned existing) && (now - cc_at existing <? maxAge)
            then (co, Take id)
            else let '(co, id) := begin_check now q co in (co, Run id)
          else (co, Join id)
      | None => (co, Join id)
      end
  end.

(** The end of a test, by its answer or its timeout; [ctxDone] is whether the caller that
    ran it walked away. *)
Definition Check_finish (now : Z) (answer : Z * option error) (ctxDone : bool) (id : nat) (co : Coordinator)
    : Coordinator :=
  match co_heap co !! id with
  | Some c =>
      MkCoordinator (co_checks co) (co_lastPrune co)
        (<[id := MkCheck (cc_question c) true now answer.1 answer.2 ctxDone]> (co_heap co)) (co_next co)
  | None => co
  end.

(** An abandoned check is taken out when it is still the one of its key. *)
Definition Check_forget (q : question) (id : nat) (co : Coordinator) : Coordinator :=
  if bool_decide (co_checks co !! key_of q = Some id)
  then MkCoordinator (delete (key_of q) (co_checks co)) (co_lastPrune co) (co_heap co) (co_next co)
  else co.

(** ** The callers *)

(** What [Check] returned: the check it is from, if any, whether the caller's context was
    over, and when it was decided. *)
Record returned : Type := MkReturned {
  rt_origin : option nat;
  rt_result : Z * Z * option error;
  rt_gaveUp : bool;
  rt_now : Z;
}.

Inductive progress : Type :=
| Entering
| Waiting (id : nat)
| Testing (id : nat)
| Forgetting (id : nat)
| Returned (r : returned).

Record caller : Type := MkCaller {
  cl_question : question;
  cl_maxAge : Z;
  cl_called : Z;
  cl_progress : progress;
}.

Record world : Type := MkWorld {
  w_now : Z;
  w_co : Coordinator;
  w_callers : gmap nat caller;
}.

(** A call; a context that is over already is answered at once. *)
Definition Check_call (now maxAge : Z) (q : question) (ctxErr : option error) : caller :=
  MkCaller q maxAge now
    (match ctxErr with
     | Some e => Returned (MkReturned None (0, now, Some e) true now)
     | None => Entering
     end).

Definition move (t : caller) (p : progress) : caller :=
  MkCaller (cl_question t) (cl_maxAge t) (cl_called t) p.

Definition result_at (co : Coordinator) (id : nat) : Z * Z * option error :=
  match co_heap co !! id with Some c => check_result c | None => (0, 0, None) end.

(** The result of a check that is done, for a caller that did not walk away. *)
Definition take_result (now : Z) (co : Coordinator) (id : nat) (gaveUp : bool) : progress :=
  Returned (MkReturned (Some id) (result_at co id) gaveUp now).

(** A round under the lock. *)
Definition caller_enter (now : Z) (co : Coordinator) (t : caller) : Coordinator * caller :=
  let '(co, d) := Check_enter now (cl_maxAge t) (cl_question t) co in
  (co, move t (match d with
               | Take id => take_result now co id false
               | Join id => Waiting id
               | Run id => Testing id
               end)).

(** A check that another caller ran is done: taken, unless that caller walked away. *)
Definition caller_joined (now : Z) (co : Coordinator) (id : nat) (c : coordinatorCheck) (t : caller) : caller :=
  move t (if cc_abandoned c then Entering else take_result now co id false).

Definition caller_finish (now : Z) (answer : Z * option error) (ctxDone : bool) (id : nat) (co : Coordinator)
    (t : caller) : Coordinator * caller :=
  let co := Check_finish now answer ctxDone id co in
  (co, move t (if ctxDone then Forgetting id else take_result now co id false)).

Definition caller_forget (now : Z) (id : nat) (co : Coordinator) (t : caller) : Coordinator * caller :=
  let co := Check_forget (cl_question t) id co in
  (co, move t (take_result now co id true)).

(** Any caller makes its next step, or time passes. *)
Inductive co_step : world → world → Prop :=
| co_time w now : w_now w <= now → co_step w (MkWorld now (w_co w) (w_callers w))
| co_called w i q maxAge ctxErr :
    w_callers w !! i = None →
    co_step w (MkWorld (w_now w) (w_co w) (<[i := Check_call (w_now w) maxAge q ctxErr]> (w_callers w)))
| co_entered w i t co t' :
    w_callers w !! i = Some t → cl_progress t = Entering →
    caller_enter (w_now w) (w_co w) t = (co, t') →
    co_step w (MkWorld (w_now w) co (<[i := t']> (w_callers w)))
| co_joined w i t id c :
    w_callers w !! i = Some t → cl_progress t = Waiting id →
    co_heap (w_co w) !! id = Some c → cc_done c = true →
    co_step w (MkWorld (w_now w) (w_co w) (<[i := caller_joined (w_now w) (w_co w) id c t]> (w_callers w)))
| co_left w i t id e :
    w_callers w !! i = Some t → cl_progress t = Waiting id →
    co_step w (MkWorld (w_now w) (w_co w)
      (<[i := move t (Returned (MkReturned None (0, w_now w, Some e) true (w_now w)))]> (w_callers w)))
| co_finished w i t id answer ctxDone co t' :
    w_callers w !! i = Some t → cl_progress t = Testing id →
    caller_finish (w_now w) answer ctxDone id (w_co w) t = (co, t') →
    co_step w (MkWorld (w_now w) co (<[i := t']> (w_callers w)))
| co_forgot w i t id co t' :
    w_callers w !! i = Some t → cl_progress t = Forgetting id →
    caller_forget (w_now w) id (w_co w) t = (co, t') →
    co_step w (MkWorld (w_now w) co (<[i := t']> (w_callers w))).

Definition co_reachable (w : world) : Prop :=
  ∃ now, rtc co_step (MkWorld now (NewCoordinator now) ∅) w.
