(* ===== verification/CoordinatorTheorems.v ===== *)
(** * Sharing URL tests: what a caller gets

    Over every interleaving of callers one test runs for a question at most, and a caller
    that waits for an answer gets that of a test of its own question, which no caller
    walked away from and which is recent enough or ended after the call. *)
From stdpp Require Import base list gmap strings.
From S2P Require Import Prelude OutboundManager Group ExpectedStatus Coordinator.

(** ** The coordinator *)

(** The map has checks of their keys, every check that runs is in the map, and the checks
    that are done were so by [now]. *)
Record co_wf (now : Z) (co : Coordinator) : Prop := {
  ow_next : ∀ id c, co_heap co !! id = Some c → (id < co_next co)%nat;
  ow_keys : ∀ k id, co_checks co !! k = Some id →
    ∃ c, co_heap co !! id = Some c ∧ key_of (cc_question c) = k;
  ow_running : ∀ id c, co_heap co !! id = Some c → cc_done c = false →
    co_checks co !! key_of (cc_question c) = Some id;
  ow_past : ∀ id c, co_heap co !! id = Some c → cc_done c = true → cc_at c <= now;
}.

(** The heap only grows, and a check that is done does not change. *)
Definition heap_le (co co' : Coordinator) : Prop :=
  ∀ id c, co_heap co !! id = Some c →
    ∃ c', co_heap co' !! id = Some c' ∧ cc_question c' = cc_question c ∧ (cc_done c = true → c' = c).

Lemma heap_le_refl co : heap_le co co.
Proof. intros id c E. eauto. Qed.

Lemma prune_heap now co : co_heap (pruneLocked now co) = co_heap co ∧ co_next (pruneLocked now co) = co_next co.
Proof. unfold pruneLocked. by destruct (_ <? _). Qed.

Lemma prune_wf now now' co : co_wf now co → co_wf now (pruneLocked now' co).
Proof.
  intros [H1 H2 H3 H4]. unfold pruneLocked. destruct (_ <? _); [done|]. split; cbn; [done| | |done].
  - intros k id [E _]%map_lookup_filter_Some. by apply H2.
  - intros id c E Hd. apply map_lookup_filter_Some. split; [by apply H3|].
    cbn. unfold outdated. by rewrite E, Hd.
Qed.

(** A new check takes the place of one that is done. *)
Lemma begin_check_spec now q co co' id :
  co_wf now co →
  (∀ id0 c0, co_checks co !! key_of q = Some id0 → co_heap co !! id0 = Some c0 → cc_done c0 = true) →
  begin_check now q co = (co', id) →
  co_wf now co' ∧ heap_le co co' ∧ co_heap co !! id = None ∧
  co_heap co' !! id = Some (MkCheck q false 0 0 None false) ∧
  (∀ id0, id0 ≠ id → co_heap co' !! id0 = co_heap co !! id0).
Proof.
  intros [H1 H2 H3 H4] Hold E. unfold begin_check in E. injection E as <- <-.
  assert (Hnew : co_heap co !! co_next co = None).
  { destruct (co_heap co !! co_next co) eqn:E; [|done]. apply H1 in E. lia. }
  rewrite (proj1 (prune_heap _ _)). split; [|split; [|split; [done|]]].
  - apply prune_wf. split; cbn.
    + intros id c [[<- _]|[_ E]]%lookup_insert_Some; [lia|]. apply H1 in E. lia.
    + intros k id [[<- <-]|[_ E]]%lookup_insert_Some.
      { eexists. split; [apply lookup_insert_eq|done]. }
      destruct (H2 k id E) as (c & Ec & Ek). exists c. split; [|done].
      rewrite lookup_insert_ne by congruence. done.
    + intros id c [[<- <-]|[Hne E]]%lookup_insert_Some Hd; [apply lookup_insert_eq|].
      assert (Er := H3 id c E Hd). rewrite lookup_insert_ne; [done|]. intros Ek. rewrite <- Ek in Er.
      assert (Hx := Hold id c Er E). congruence.
    + intros id c [[<- <-]|[_ E]]%lookup_insert_Some Hd; [done|]. by eapply H4.
  - intros id c E. exists c. rewrite (proj1 (prune_heap _ _)). cbn. rewrite lookup_insert_ne by congruence. done.
  - cbn. split; [apply lookup_insert_eq|]. intros id0 Hne. by rewrite lookup_insert_ne.
Qed.

(** What a round under the lock decides. *)
Lemma Check_enter_spec now maxAge q co co' d :
  co_wf now co → Check_enter now maxAge q co = (co', d) →
  co_wf now co' ∧ heap_le co co' ∧
  match d with
  | Take id => co' = co ∧ ∃ c, co_heap co !! id = Some c ∧ key_of (cc_question c) = key_of q ∧ cc_done c = true ∧
      cc_abandoned c = false ∧ 0 < maxAge ∧ now - cc_at c < maxAge
  | Join id => co' = co ∧ ∃ c, co_heap co !! id = Some c ∧ key_of (cc_question c) = key_of q ∧ cc_done c = false
  | Run id => co_heap co !! id = None ∧ co_heap co' !! id = Some (MkCheck q false 0 0 None false) ∧
      (∀ id0, id0 ≠ id → co_heap co' !! id0 = co_heap co !! id0)
  end.
Proof.
  intros Hw. unfold Check_enter. destruct (co_checks co !! key_of q) as [id|] eqn:Ek.
  2:{ destruct (begin_check now q co) as [co1 id] eqn:Eb. intros [= <- <-].
      apply begin_check_spec in Eb; [|done|congruence]. tauto. }
  destruct (ow_keys _ _ Hw _ _ Ek) as (c & Ec & Hk). rewrite Ec.
  destruct (cc_done c) eqn:Ed.
  2:{ intros [= <- <-]. split; [done|]. split; [apply heap_le_refl|]. eauto. }
  destruct (_ && _) eqn:Et.
  { intros [= <- <-]. split; [done|]. split; [apply heap_le_refl|]. split; [done|]. exists c.
    destruct (cc_abandoned c); cbn in Et; [lia|]. split; [done|]. split; [done|]. split; [done|]. split; [done|]. lia. }
  destruct (begin_check now q co) as [co1 id1] eqn:Eb. intros [= <- <-].
  apply begin_check_spec in Eb; [|done|intros; by simplify_eq]. tauto.
Qed.

(** The end of a check. *)
Lemma Check_finish_spec now answer ctxDone id c co :
  co_wf now co → co_heap co !! id = Some c → cc_done c = false →
  let co' := Check_finish now answer ctxDone id co in
  co_wf now co' ∧ heap_le co co' ∧
  co_heap co' !! id = Some (MkCheck (cc_question c) true now answer.1 answer.2 ctxDone) ∧
  (∀ id0, id0 ≠ id → co_heap co' !! id0 = co_heap co !! id0).
Proof.
  intros [H1 H2 H3 H4] E Hd. unfold Check_finish. rewrite E. cbn. split; [|split; [|split]].
  - split; cbn.
    + intros id0 c0 [[<- _]|[_ E0]]%lookup_insert_Some; by eapply H1.
    + intros k id0 (c0 & E0 & Hk)%H2. destruct (decide (id = id0)) as [<-|Hne].
      * eexists. rewrite lookup_insert_eq. split; [done|]. cbn. congruence.
      * exists c0. by rewrite lookup_insert_ne.
    + intros id0 c0 [[<- <-]|[_ E0]]%lookup_insert_Some Hd0; [done|]. by apply H3.
    + intros id0 c0 [[<- <-]|[_ E0]]%lookup_insert_Some Hd0; [done|]. by eapply H4.
  - intros id0 c0 E0. cbn. destruct (decide (id = id0)) as [<-|Hne].
    + rewrite lookup_insert_eq. eexists. split; [done|]. split; [cbn; congruence|]. intros. congruence.
    + rewrite lookup_insert_ne by done. eauto.
  - apply lookup_insert_eq.
  - intros id0 Hne. by rewrite lookup_insert_ne.
Qed.

(** Forgetting a check that is done. *)
Lemma Check_forget_spec now q id c co :
  co_wf now co → co_heap co !! id = Some c → cc_done c = true →
  co_wf now (Check_forget q id co) ∧ co_heap (Check_forget q id co) = co_heap co.
Proof.
  intros Hw E Hd. unfold Check_forget. case_bool_decide as Hk; [|done]. split; [|done].
  destruct Hw as [H1 H2 H3 H4]. split; cbn; [done| | |done].
  - intros k id0 [_ E0]%lookup_delete_Some. by apply H2.
  - intros id0 c0 E0 Hd0. apply lookup_delete_Some. assert (Er := H3 id0 c0 E0 Hd0). split; [|done].
    intros Ek. rewrite Ek in Hk. assert (id0 = id) as -> by congruence. congruence.
Qed.

(** ** The callers *)

(** The check [id] is one of the question [q], and [P] holds of it. *)
Definition about (co : Coordinator) (q : question) (id : nat) (P : coordinatorCheck → Prop) : Prop :=
  ∃ c, co_heap co !! id = Some c ∧ key_of (cc_question c) = key_of q ∧ P c.

(** The result of a check as a caller may take it. *)
Definition answers (t : caller) (r : returned) (c : coordinatorCheck) : Prop :=
  cc_done c = true ∧ rt_result r = check_result c ∧ (rt_gaveUp r = false → cc_abandoned c = false) ∧
  (cl_called t <= cc_at c ∨ 0 < cl_maxAge t ∧ rt_now r - cc_at c < cl_maxAge t).

Definition caller_ok (now : Z) (co : Coordinator) (t : caller) : Prop :=
  cl_called t <= now ∧
  match cl_progress t with
  | Entering => True
  | Waiting id => about co (cl_question t) id (λ c, cc_done c = true → cl_called t <= cc_at c)
  | Testing id => about co (cl_question t) id (λ c, cc_done c = false)
  | Forgetting id => about co (cl_question t) id (λ c, cc_done c = true ∧ cl_called t <= cc_at c)
  | Returned r =>
      match rt_origin r with
      | None => rt_gaveUp r = true
      | Some id => about co (cl_question t) id (answers t r)
      end
  end.

Record w_ok (w : world) : Prop := {
  wk_co : co_wf (w_now w) (w_co w);
  wk_callers : ∀ i t, w_callers w !! i = Some t → caller_ok (w_now w) (w_co w) t;
  wk_testing : ∀ i j t t' id, w_callers w !! i = Some t → w_callers w !! j = Some t' →
    cl_progress t = Testing id → cl_progress t' = Testing id → i = j;
}.

(** What a caller knows stays true when other callers make steps: the checks that end do
    so now, and none of them is its own. *)
Lemma caller_ok_stable now co co' t :
  heap_le co co' → caller_ok now co t →
  (∀ id, cl_progress t = Testing id → co_heap co' !! id = co_heap co !! id) →
  (∀ id c c', co_heap co !! id = Some c → co_heap co' !! id = Some c' →
     cc_done c = false → cc_done c' = true → cc_at c' = now) →
  caller_ok now co' t.
Proof.
  intros Hle [Hc Hp] Htest Hend. split; [done|].
  assert (Habout : ∀ id (P Q : coordinatorCheck → Prop),
    (∀ c c', co_heap co !! id = Some c → co_heap co' !! id = Some c' → (cc_done c = true → c' = c) → P c → Q c') →
    about co (cl_question t) id P → about co' (cl_question t) id Q).
  { intros id P Q HPQ (c & E & Hk & HP). destruct (Hle id c E) as (c' & E' & Hq & Hdone).
    exists c'. split; [done|]. split; [by rewrite Hq|]. by eapply HPQ. }
  destruct (cl_progress t) as [|id|id|id|r]; [done|..].
  - eapply Habout; [|done]. cbn. intros c c' E E' Hdone HP Hd'.
    destruct (cc_done c) eqn:Ed; [rewrite Hdone by done; by apply HP|]. by rewrite (Hend id c c').
  - destruct Hp as (c & E & Hk & Hd). exists c. by rewrite (Htest id).
  - eapply Habout; [|done]. cbn. intros c c' _ _ Hdone [Hd Hat]. by rewrite (Hdone Hd).
  - destruct (rt_origin r) as [id|]; [|done]. eapply Habout; [|done].
    intros c c' _ _ Hdone Ha. by rewrite (Hdone (proj1 Ha)).
Qed.

(** A step of one caller that the others do not see but for the coordinator. *)
Lemma w_ok_step w i t' co :
  w_ok w → co_wf (w_now w) co → heap_le (w_co w) co → caller_ok (w_now w) co t' →
  (∀ j t id, j ≠ i → w_callers w !! j = Some t → cl_progress t = Testing id →
     co_heap co !! id = co_heap (w_co w) !! id ∧ cl_progress t' ≠ Testing id) →
  (∀ id c c', co_heap (w_co w) !! id = Some c → co_heap co !! id = Some c' →
     cc_done c = false → cc_done c' = true → cc_at c' = w_now w) →
  w_ok (MkWorld (w_now w) co (<[i := t']> (w_callers w))).
Proof.
  intros [H1 H2 H3] Hco Hle Ht' Hother Hend. split; cbn; [done| |].
  - intros j t [[<- <-]|[Hne E]]%lookup_insert_Some; [done|].
    apply (caller_ok_stable _ (w_co w)); [done|by eapply H2| |done]. intros id Hp. by apply (Hother j t id).
  - intros j k t1 t2 id [[<- <-]|[Hne E]]%lookup_insert_Some [[<- <-]|[Hne' E']]%lookup_insert_Some Hp1 Hp2; [done|..].
    + by destruct (Hother k t2 id) as [_ ?].
    + by destruct (Hother j t1 id) as [_ ?].
    + by eapply H3.
Qed.

Lemma result_at_eq co id c : co_heap co !! id = Some c → result_at co id = check_result c.
Proof. intros E. unfold result_at. by rewrite E. Qed.

(** The steps of the callers. *)
Lemma entered_ok w i t co t' :
  w_ok w → w_callers w !! i = Some t → cl_progress t = Entering →
  caller_enter (w_now w) (w_co w) t = (co, t') →
  w_ok (MkWorld (w_now w) co (<[i := t']> (w_callers w))).
Proof.
  intros Hw Ei Hp E. unfold caller_enter in E.
  destruct (Check_enter _ _ _ _) as [co1 d] eqn:Ee. injection E as <- <-.
  destruct (wk_callers _ Hw i t Ei) as [Hcalled _].
  apply Check_enter_spec in Ee as (Hco & Hle & Hd); [|apply Hw]. destruct d as [id|id|id].
  - destruct Hd as (-> & c & Ec & Hk & Hdone & Hab & Hm & Hage). apply w_ok_step; try done.
    + split; [done|]. cbn. exists c. split; [done|]. split; [done|].
      split; [done|]. cbn. rewrite (result_at_eq _ _ _ Ec). split; [done|]. split; [done|]. by right.
    + intros id0 c0 c' E0 E0' Hf Ht. congruence.
  - destruct Hd as (-> & c & Ec & Hk & Hdone). apply w_ok_step; try done.
    + split; [done|]. cbn. exists c. split; [done|]. split; [done|]. by rewrite Hdone.
    + intros id0 c0 c' E0 E0' Hf Ht. congruence.
  - destruct Hd as (Hnone & Hnew & Hsame). apply w_ok_step; try done.
    + split; [done|]. cbn. by eexists.
    + intros j t0 id0 Hne Ej Ht. destruct (wk_callers _ Hw j t0 Ej) as [_ H]. rewrite Ht in H.
      destruct H as (c & Ec & _). assert (id0 ≠ id) by congruence. split; [by apply Hsame|]. cbn. congruence.
    + intros id0 c0 c' E0 E0' Hf Ht. rewrite Hsame in E0' by congruence. congruence.
Qed.

Lemma finished_ok w i t id answer ctxDone co t' :
  w_ok w → w_callers w !! i = Some t → cl_progress t = Testing id →
  caller_finish (w_now w) answer ctxDone id (w_co w) t = (co, t') →
  w_ok (MkWorld (w_now w) co (<[i := t']> (w_callers w))).
Proof.
  intros Hw Ei Hp E. unfold caller_finish in E. injection E as <- <-.
  destruct (wk_callers _ Hw i t Ei) as [Hcalled Hc]. rewrite Hp in Hc. destruct Hc as (c & Ec & Hk & Hd).
  destruct (Check_finish_spec (w_now w) answer ctxDone id c (w_co w) (wk_co _ Hw) Ec Hd) as (Hco & Hle & Hnew & Hsame).
  apply w_ok_step; try done.
  - split; [done|]. cbn. destruct ctxDone; cbn.
    + eexists. split; [done|]. split; [done|]. done.
    + eexists. split; [done|]. split; [done|]. split; [done|]. cbn. rewrite (result_at_eq _ _ _ Hnew). auto.
  - intros j t0 id0 Hne Ej Ht. assert (id0 ≠ id) as Hn.
    { intros ->. apply Hne. by eapply (wk_testing _ Hw). }
    split; [by apply Hsame|]. by destruct ctxDone.
  - intros id0 c0 c' E0 E0' Hf Ht. destruct (decide (id0 = id)) as [->|Hn].
    + rewrite Hnew in E0'. by injection E0' as <-.
    + rewrite Hsame in E0' by done. congruence.
Qed.

Lemma forgot_ok w i t id co t' :
  w_ok w → w_callers w !! i = Some t → cl_progress t = Forgetting id →
  caller_forget (w_now w) id (w_co w) t = (co, t') →
  w_ok (MkWorld (w_now w) co (<[i := t']> (w_callers w))).
Proof.
  intros Hw Ei Hp E. unfold caller_forget in E. injection E as <- <-.
  destruct (wk_callers _ Hw i t Ei) as [Hcalled Hc]. rewrite Hp in Hc. destruct Hc as (c & Ec & Hk & Hd & Hat).
  destruct (Check_forget_spec (w_now w) (cl_question t) id c (w_co w) (wk_co _ Hw) Ec Hd) as [Hco Eh].
  apply w_ok_step; try done.
  - intros id0 c0 E0. rewrite Eh. eauto.
  - split; [done|]. cbn. exists c. rewrite Eh. split; [done|]. split; [done|]. split; [done|]. cbn.
    rewrite (result_at_eq _ _ c) by (by rewrite Eh). split; [done|]. split; [done|by left].
  - intros j t0 id0 Hne Ej Ht. by rewrite Eh.
  - intros id0 c0 c' E0 E0' Hf Ht. rewrite Eh in E0'. congruence.
Qed.

Lemma co_step_ok w w' : co_step w w' → w_ok w → w_ok w'.
Proof.
  intros Hs Hw. assert (Hdone : ∀ id (c c' : coordinatorCheck), co_heap (w_co w) !! id = Some c →
    co_heap (w_co w) !! id = Some c' → cc_done c = false → cc_done c' = true → cc_at c' = w_now w) by congruence.
  destruct Hs as [w now Hn|w i q maxAge ctxErr Ei|w i t co t' Ei Hp E|w i t id c Ei Hp Ec Hd|w i t id e Ei Hp
                 |w i t id answer ctxDone co t' Ei Hp E|w i t id co t' Ei Hp E].
  - destruct Hw as [[H1 H2 H3 H4] H5 H6]. split; cbn; [|intros i t Ei|done].
    + split; try done. intros id c E Hd. specialize (H4 id c E Hd). lia.
    + destruct (H5 i t Ei) as [Hc Hp]. split; [lia|done].
  - apply w_ok_step; try done; [apply Hw|apply heap_le_refl| |].
    + split; [cbn; lia|]. unfold Check_call. by destruct ctxErr.
    + intros j t id _ _ _. split; [done|]. unfold Check_call. by destruct ctxErr.
  - by eapply entered_ok.
  - destruct (wk_callers _ Hw i t Ei) as [Hcalled Hc]. rewrite Hp in Hc. destruct Hc as (c0 & Ec0 & Hk & Hat).
    assert (c0 = c) as -> by congruence. apply w_ok_step; try done; [apply Hw|apply heap_le_refl| |].
    + split; [done|]. unfold caller_joined. cbn. destruct (cc_abandoned c) eqn:Ea; [done|]. cbn.
      exists c. split; [done|]. split; [done|]. split; [done|]. cbn. rewrite (result_at_eq _ _ _ Ec). auto.
    + intros j t0 id0 _ _ _. split; [done|]. unfold caller_joined. cbn. by destruct (cc_abandoned c).
  - destruct (wk_callers _ Hw i t Ei) as [Hcalled _]. by apply w_ok_step; try done; [apply Hw|apply heap_le_refl].
  - by eapply finished_ok.
  - by eapply forgot_ok.
Qed.

Lemma co_reachable_ok w : co_reachable w → w_ok w.
Proof.
  intros [now Hr]. assert (H : w_ok (MkWorld now (NewCoordinator now) ∅)).
  { split; cbn; [split; cbn|..]; intros *; rewrite ?lookup_empty; done. }
  induction Hr as [|w1 w2 w3 Hs _ IH]; [done|]. apply IH. by eapply co_step_ok.
Qed.

(** C39 However the calls interleave, at most one test of a question runs at a time, and a
    call whose caller does not walk away returns the result of a test of its own question:
    same tag, link, timeout and expected status. The caller of that test did not walk away
    either, and the test ended after the call began or, at the time it was looked up, less
    than the allowed age before. *)
Theorem coordinator_shares w :
  co_reachable w →
  (∀ id id' c c', co_heap (w_co w) !! id = Some c → co_heap (w_co w) !! id' = Some c' →
     cc_done c = false → cc_done c' = false → key_of (cc_question c) = key_of (cc_question c') → id = id') ∧
  (∀ i t r, w_callers w !! i = Some t → cl_progress t = Returned r → rt_gaveUp r = false →
     ∃ id c, rt_origin r = Some id ∧ co_heap (w_co w) !! id = Some c ∧
       (status_ok (qu_expectedStatus (cl_question t)) → status_ok (qu_expectedStatus (cc_question c)) →
        cc_question c = cl_question t) ∧
       cc_done c = true ∧ cc_abandoned c = false ∧ rt_result r = check_result c ∧
       (cl_called t <= cc_at c ∨ 0 < cl_maxAge t ∧ rt_now r - cc_at c < cl_maxAge t)).
Proof.
  intros [H1 H2 _]%co_reachable_ok. split.
  - intros id id' c c' E E' Hd Hd' Hk. assert (Hr := ow_running _ _ H1 _ _ E Hd).
    assert (Hr' := ow_running _ _ H1 _ _ E' Hd'). congruence.
  - intros i t r Ei Hp Hg. destruct (H2 i t Ei) as [_ H]. rewrite Hp in H.
    destruct (rt_origin r) as [id|]; [|congruence]. destruct H as (c & Ec & Hk & Hd & Hr & Ha & Hat).
    exists id, c. split; [done|]. split; [done|]. split; [|auto].
    intros Hs Hs'. destruct (cc_question c), (cl_question t). unfold key_of in Hk. cbn in *. simplify_eq.
    f_equal. by apply expectedStatusKey_inj.
Qed.

(** ** Two groups that ask the same *)

Definition c_question : question := MkQuestion "node" "https://test" [MkStatusRange 200 204] (5 * second).
Definition c_world0 : world := MkWorld 0 (NewCoordinator 0) ∅.
Definition c_calls (w : world) (i : nat) : world :=
  MkWorld (w_now w) (w_co w) (<[i := Check_call (w_now w) 0 c_question None]> (w_callers w)).
Definition c_enters (w : world) (i : nat) : world :=
  match w_callers w !! i with
  | Some t => let '(co, t') := caller_enter (w_now w) (w_co w) t in
              MkWorld (w_now w) co (<[i := t']> (w_callers w))
  | None => w
  end.
(** Both call and enter; the first runs the test, the second waits for it. *)
Definition c_world1 : world := c_enters (c_calls (c_enters (c_calls c_world0 0) 0) 1) 1.
Definition c_caller (p : progress) : caller := MkCaller c_question 0 0 p.
Definition c_co : Coordinator := Check_finish 0 (42, None) false 0 (w_co c_world1).
Definition c_world2 : world :=
  MkWorld 0 c_co (<[0%nat := c_caller (take_result 0 c_co 0 false)]> (w_callers c_world1)).
Definition c_check0 : coordinatorCheck := MkCheck c_question true 0 42 None false.
Definition c_world3 : world :=
  MkWorld 0 c_co (<[1%nat := caller_joined 0 c_co 0 c_check0 (c_caller (Waiting 0))]> (w_callers c_world2)).

Lemma c_entered w i t :
  w_callers w !! i = Some t → cl_progress t = Entering → co_step w (c_enters w i).
Proof.
  intros E Hp. unfold c_enters. rewrite E. destruct (caller_enter _ _ _) as [co t'] eqn:Ee.
  by eapply co_entered.
Qed.

Lemma c_world3_reachable : co_reachable c_world3.
Proof.
  exists 0. apply (rtc_l _ _ (c_calls c_world0 0)); [by apply co_called|].
  apply (rtc_l _ _ (c_enters (c_calls c_world0 0) 0)); [by eapply c_entered|].
  apply (rtc_l _ _ (c_calls (c_enters (c_calls c_world0 0) 0) 1)); [by apply co_called|].
  apply (rtc_l _ _ c_world1); [by eapply c_entered|].
  apply (rtc_l _ _ c_world2).
  { by eapply (co_finished c_world1 0 (c_caller (Testing 0)) 0 (42, None) false). }
  apply rtc_once. by apply (co_joined c_world2 1 (c_caller (Waiting 0)) 0 c_check0).
Qed.

(** One test, and both callers have its answer. *)
Lemma coordinator_shares_witness :
  co_next (w_co c_world3) = 1%nat ∧
  ∃ id c, rt_origin (MkReturned (Some 0%nat) (42, 0, None) false 0) = Some id ∧
    co_heap (w_co c_world3) !! id = Some c ∧ cc_abandoned c = false ∧ (42, 0, None) = check_result c.
Proof.
  split; [by vm_compute|].
  destruct (coordinator_shares c_world3 c_world3_reachable) as [_ H].
  destruct (H 1%nat (c_caller (Returned (MkReturned (Some 0%nat) (42, 0, None) false 0)))
    (MkReturned (Some 0%nat) (42, 0, None) false 0)) as (id & c & E1 & E2 & _ & _ & E3 & E4 & _);
    [by vm_compute|done|done|]. exists id, c. auto.
Defined.
