(* ===== verification/Selector.v ===== *)
(** * The selector group: protocol/group/selector.go

    A group that dials the member a user chose. The choice is kept in the cache file and
    made again whenever a provider changes the members. *)
From stdpp Require Import base list gmap strings pretty.
From S2P Require Import Prelude OutboundManager Group.

(** A member the manager does not have is a nil entry of [sl_outbounds]; [sl_cache] is
    what the cache file has for the group, absent without a cache file; [sl_notified]
    counts [history.NotifyUpdated]. A record of an outbound has its identity. *)
Record Selector : Type := MkSelector {
  sl_Tag : string;
  sl_Dependencies : list string;
  sl_tags : list string;
  sl_defaultTag : string;
  sl_outbounds : gmap string (option Outbound);
  sl_selected : option Outbound;
  sl_cache : option string;
  sl_interruptGroup : InterruptGroup;
  sl_interruptExternalConnections : bool;
  sl_providers : list string;
  sl_outboundsCache : gmap string (list Outbound);
  sl_providerTags : list string;
  sl_exclude : option Filter;
  sl_include : option Filter;
  sl_excludeTypes : gset string;
  sl_useAllProviders : bool;
  sl_notified : nat;
}.

Definition slset_members (tags : list string) (outbounds : gmap string (option Outbound))
    (outboundsCache : gmap string (list Outbound)) (s : Selector) : Selector :=
  MkSelector (sl_Tag s) (sl_Dependencies s) tags (sl_defaultTag s) outbounds (sl_selected s) (sl_cache s)
    (sl_interruptGroup s) (sl_interruptExternalConnections s) (sl_providers s) outboundsCache
    (sl_providerTags s) (sl_exclude s) (sl_include s) (sl_excludeTypes s) (sl_useAllProviders s)
    (sl_notified s).
Definition slset_selected (selected : option Outbound) (cache : option string) (notified : nat)
    (s : Selector) : Selector :=
  MkSelector (sl_Tag s) (sl_Dependencies s) (sl_tags s) (sl_defaultTag s) (sl_outbounds s) selected cache
    (sl_interruptGroup s) (sl_interruptExternalConnections s) (sl_providers s) (sl_outboundsCache s)
    (sl_providerTags s) (sl_exclude s) (sl_include s) (sl_excludeTypes s) (sl_useAllProviders s)
    notified.
Definition slset_interruptGroup (g : InterruptGroup) (s : Selector) : Selector :=
  MkSelector (sl_Tag s) (sl_Dependencies s) (sl_tags s) (sl_defaultTag s) (sl_outbounds s) (sl_selected s)
    (sl_cache s) g (sl_interruptExternalConnections s) (sl_providers s) (sl_outboundsCache s)
    (sl_providerTags s) (sl_exclude s) (sl_include s) (sl_excludeTypes s) (sl_useAllProviders s)
    (sl_notified s).
Definition slset_providers (providers providerTags : list string) (s : Selector) : Selector :=
  MkSelector (sl_Tag s) (sl_Dependencies s) (sl_tags s) (sl_defaultTag s) (sl_outbounds s) (sl_selected s)
    (sl_cache s) (sl_interruptGroup s) (sl_interruptExternalConnections s) providers (sl_outboundsCache s)
    providerTags (sl_exclude s) (sl_include s) (sl_excludeTypes s) (sl_useAllProviders s)
    (sl_notified s).

(** ** Creating and starting *)

(** The first tag that occurs before. *)
Fixpoint duplicate_tag (seen tags : list string) : option string :=
  match tags with
  | [] => None
  | tag :: tags => if mem tag seen then Some tag else duplicate_tag (seen ++ [tag]) tags
  end.

Definition NewSelector (lower : string → string) (cache : option string) (tag defaultTag : string)
    (interruptExistConnections : bool) (options : GroupCommonOption) : result Selector :=
  match duplicate_tag [] (gco_Outbounds options) with
  | Some tag => Err (ENew ("duplicate tag: " +:+ tag)%string)
  | None =>
      Ok (MkSelector tag (gco_Outbounds options) (gco_Outbounds options) defaultTag ∅ None cache
            (MkInterruptGroup [] []) interruptExistConnections [] ∅ (gco_Providers options)
            (gco_Exclude options) (gco_Include options)
            (excludedOutboundTypes lower (gco_ExcludeTypes options)) (gco_UseAllProviders options) O)
  end.

(** The choice of the cache file when it is a member, the default member, or the first. *)
Definition outboundSelect (s : Selector) : result (option Outbound) :=
  match sl_tags s with
  | [] => Ok None
  | first :: _ =>
      let cached :=
        if nonempty (sl_Tag s) then
          match sl_cache s with
          | Some selected => if nonempty selected then sl_outbounds s !! selected else None
          | None => None
          end
        else None in
      match cached with
      | Some detour => Ok detour
      | None =>
          if nonempty (sl_defaultTag s) then
            match sl_outbounds s !! sl_defaultTag s with
            | None => Err (ENew ("default outbound not found: " +:+ sl_defaultTag s)%string)
            | Some detour => Ok detour
            end
          else Ok (default None (sl_outbounds s !! first))
      end
  end.

(** The members [Start] looks up. *)
Fixpoint start_members (mb : Members) (i : nat) (tags : list string) (outbounds : gmap string (option Outbound))
    : result (gmap string (option Outbound)) :=
  match tags with
  | [] => Ok outbounds
  | tag :: tags =>
      match mb_Outbound mb tag with
      | None => Err (ENew ("outbound " +:+ pretty i +:+ " not found: " +:+ tag)%string)
      | Some detour => start_members mb (S i) tags (<[tag := Some detour]> outbounds)
      end
  end.

Definition Selector_Start (mb : Members) (providers : option (list string)) (s : Selector) : result Selector :=
  providerTags ← start_providers (sl_useAllProviders s) providers (sl_providerTags s);
  let s := slset_providers providerTags providerTags s in
  _ ← guard_err (negb (has_items (sl_tags s) || has_items (sl_providerTags s)))
        (ENew "missing outbound and provider tags");
  outbounds ← start_members mb 0 (sl_Dependencies s) (sl_outbounds s);
  let s := slset_members (sl_tags s) outbounds (sl_outboundsCache s) s in
  outbound ← outboundSelect s;
  Ok (slset_selected outbound (sl_cache s) (sl_notified s) s).

(** ** Selecting *)

Definition SelectOutbound (tag : string) (s : Selector) : Selector * bool :=
  match sl_outbounds s !! tag with
  | None => (s, false)
  | Some detour =>
      let old := sl_selected s in
      let s := slset_selected detour (sl_cache s) (sl_notified s) s in
      if bool_decide (old = detour) then (s, true)
      else
        let cache := if nonempty (sl_Tag s)
                     then match sl_cache s with Some _ => Some tag | None => None end
                     else sl_cache s in
        let s := slset_selected detour cache (S (sl_notified s)) s in
        (slset_interruptGroup (Interrupt (sl_interruptExternalConnections s) (sl_interruptGroup s)) s, true)
  end.

(** ** Updates of a provider *)

(** What an update collects: the tags, the members by tag, the cache of the providers. *)
Record collected : Type := MkCollected {
  cl_tags : list string;
  cl_outbounds : gmap string (option Outbound);
  cl_cache : gmap string (list Outbound);
}.

Definition add_member (cl : collected) (detour : Outbound) : collected :=
  MkCollected (cl_tags cl ++ [ob_Tag detour]) (<[ob_Tag detour := Some detour]> (cl_outbounds cl)) (cl_cache cl).

(** One provider: from the cache unless it is the one that changed. A cache without
    outbounds is nil, and is made again. *)
Definition collect_provider (mb : Members) (s : Selector) (updated : string) (cl : collected)
    (providerTag : string) : collected :=
  let cached := default [] (cl_cache cl !! providerTag) in
  if negb (bool_decide (providerTag = updated)) && has_items cached then fold_left add_member cached cl
  else
    let fresh := filter (λ d, memberAllowed (sl_excludeTypes s) (sl_exclude s) (sl_include s) providerTag d = true)
                   (mb_Provider mb providerTag) in
    let cl := fold_left add_member fresh cl in
    MkCollected (cl_tags cl) (cl_outbounds cl) (<[providerTag := fresh]> (cl_cache cl)).

Definition own_outbounds (s : Selector) : gmap string (option Outbound) :=
  fold_left (λ m tag, <[tag := default None (sl_outbounds s !! tag)]> m) (sl_Dependencies s) ∅.

(** The error comes with the state, which is changed all the same. *)
Definition Selector_onProviderUpdated (mb : Members) (tag : string) (s : Selector) : Selector * option error :=
  if negb (mem tag (sl_providers s)) then
    (s, Some (ENew (sl_Tag s +:+ ": outbound provider not found: " +:+ tag)%string))
  else
    let cl := fold_left (collect_provider mb s tag) (sl_providerTags s)
                (MkCollected (sl_Dependencies s) (own_outbounds s) (sl_outboundsCache s)) in
    let s := slset_members (cl_tags cl) (cl_outbounds cl) (cl_cache cl) s in
    let '(detour, err) := match outboundSelect s with
                          | Ok detour => (detour, None)
                          | Err e => (None, Some e)
                          | Panic m => (None, Some (ENew m))
                          end in
    let old := sl_selected s in
    let s := slset_selected detour (sl_cache s) (sl_notified s) s in
    (if bool_decide (old = detour) then s
     else slset_interruptGroup (Interrupt (sl_interruptExternalConnections s) (sl_interruptGroup s)) s, err).

(** ** Dialing *)

(** [DialContext], and [ListenPacket], which is alike; [world] is what the member answers. *)
Definition Selector_DialContext (world : Outbound → nat + error) (isExternal : bool) (s : Selector)
    : Selector * (nat + error) :=
  match sl_selected s with
  | None => (s, inr (ENew "no available outbounds"))
  | Some selected =>
      match world selected with
      | inl conn => (slset_interruptGroup (Group_Add conn isExternal (sl_interruptGroup s)) s, inl conn)
      | inr e => (s, inr e)
      end
  end.

Definition Selector_AttachConnection (conn : nat) (s : Selector) : Selector :=
  slset_interruptGroup (Group_Add conn true (sl_interruptGroup s)) s.

Definition Selector_Network (mb : Members) (s : Selector) : list string :=
  match sl_selected s with
  | None => ["tcp"; "udp"]%string
  | Some selected => mb_Network mb selected
  end.

Definition Selector_References (s : Selector) : list string :=
  match sl_selected s with
  | None => take 1 (sl_tags s)
  | Some selected => [ob_Tag selected]
  end.

(** * The selector group: what it selects

    Over every interleaving of selections, dials and provider updates the selected
    outbound is a member of the group, and with a cache file it is the one last chosen
    while that is a member. *)

(** The entries of the members are those of the tags. *)
Definition tags_ok (tags : list string) (m : gmap string (option Outbound)) : Prop :=
  ∀ t, is_Some (m !! t) ↔ t ∈ tags.

(** What the group ought to have selected. *)
Definition chosen (s : Selector) : option Outbound :=
  match outboundSelect s with Ok o => o | _ => None end.

(** The group has a place in a cache file. *)
Definition remembers (s : Selector) : Prop := nonempty (sl_Tag s) = true ∧ is_Some (sl_cache s).

Record sel_wf (s : Selector) : Prop := {
  sw_tags : tags_ok (sl_tags s) (sl_outbounds s);
  sw_member : ∀ o, sl_selected s = Some o → ∃ t, sl_outbounds s !! t = Some (Some o);
  sw_chosen : remembers s → sl_selected s = chosen s;
}.

Lemma chosen_member s o : chosen s = Some o → ∃ t, sl_outbounds s !! t = Some (Some o).
Proof.
  unfold chosen, outboundSelect. destruct (sl_tags s) as [|first tags]; [done|].
  destruct (if nonempty (sl_Tag s) then _ else None) as [d|] eqn:Ec.
  - intros ->. repeat case_match; simplify_eq; eauto.
  - destruct (nonempty (sl_defaultTag s)).
    + destruct (sl_outbounds s !! sl_defaultTag s) as [d|] eqn:Ed; [|done]. intros ->. eauto.
    + destruct (sl_outbounds s !! first) as [d|] eqn:Ed; cbn; [|done]. intros ->. eauto.
Qed.

(** A choice in the cache file that is a member is what the group selects. *)
Lemma chosen_cached s tag d :
  nonempty (sl_Tag s) = true → nonempty tag = true → sl_cache s = Some tag → sl_tags s ≠ [] →
  sl_outbounds s !! tag = Some d → chosen s = d.
Proof.
  intros Ht Hn Hc Htags Ho. unfold chosen, outboundSelect. destruct (sl_tags s); [done|].
  by rewrite Ht, Hc, Hn, Ho.
Qed.

(** ** Collecting the members *)

Lemma tags_ok_insert tags m t d : tags_ok tags m → tags_ok (tags ++ [t]) (<[t := d]> m).
Proof.
  intros H t'. rewrite lookup_insert_is_Some, (H t'), elem_of_app, list_elem_of_singleton.
  destruct (decide (t = t')); naive_solver.
Qed.

Lemma add_members_ok l cl :
  tags_ok (cl_tags cl) (cl_outbounds cl) →
  let cl' := fold_left add_member l cl in tags_ok (cl_tags cl') (cl_outbounds cl').
Proof.
  revert cl. induction l as [|d l IH]; intros cl H; cbn; [done|]. apply IH. by apply tags_ok_insert.
Qed.

Lemma collect_ok mb s updated tags cl :
  tags_ok (cl_tags cl) (cl_outbounds cl) →
  let cl' := fold_left (collect_provider mb s updated) tags cl in tags_ok (cl_tags cl') (cl_outbounds cl').
Proof.
  revert cl. induction tags as [|p tags IH]; intros cl H; cbn; [done|]. apply IH.
  unfold collect_provider. destruct (_ && _); cbn; by apply add_members_ok.
Qed.

Lemma own_ok s : tags_ok (sl_Dependencies s) (own_outbounds s).
Proof.
  unfold own_outbounds. generalize (sl_Dependencies s). intros deps.
  assert (H : ∀ (m : gmap string (option Outbound)) t,
    is_Some (fold_left (λ m tag, <[tag := default None (sl_outbounds s !! tag)]> m) deps m !! t) ↔
    t ∈ deps ∨ is_Some (m !! t)).
  { induction deps as [|d deps IH]; intros m t; cbn; [set_solver|].
    rewrite IH, lookup_insert_is_Some, elem_of_cons. destruct (decide (d = t)); naive_solver. }
  intros t. rewrite H, lookup_empty. split; [by intros [?|[? ?]]|by left].
Qed.

Lemma start_members_ok mb i tags m m' :
  start_members mb i tags m = Ok m' → ∀ t, is_Some (m' !! t) ↔ t ∈ tags ∨ is_Some (m !! t).
Proof.
  revert i m. induction tags as [|d tags IH]; intros i m; cbn.
  { intros [= <-] t. set_solver. }
  destruct (mb_Outbound mb d); [|done]. intros E t. rewrite (IH _ _ E), lookup_insert_is_Some, elem_of_cons.
  destruct (decide (d = t)); naive_solver.
Qed.

(** ** Every interleaving *)

(** A selection names a member by its tag, which is not empty. *)
Inductive sel_step : Selector → Selector → Prop :=
| sel_select tag s : nonempty tag = true → sel_step s (SelectOutbound tag s).1
| sel_updated mb tag s : sel_step s (Selector_onProviderUpdated mb tag s).1
| sel_connections g s : sel_step s (slset_interruptGroup g s).

Definition sel_reachable (s : Selector) : Prop :=
  ∃ lower cache tag defaultTag ext options mb providers s0 s1,
    NewSelector lower cache tag defaultTag ext options = Ok s0 ∧
    Selector_Start mb providers s0 = Ok s1 ∧ rtc sel_step s1 s.

Lemma sel_wf_connections g s : sel_wf s → sel_wf (slset_interruptGroup g s).
Proof. intros [H1 H2 H3]. by split. Qed.

(** A state whose selection was just made by [outboundSelect]. *)
Lemma sel_wf_chosen s n :
  tags_ok (sl_tags s) (sl_outbounds s) → sel_wf (slset_selected (chosen s) (sl_cache s) n s).
Proof. intros H. split; [done| |done]. intros o E. by apply (chosen_member s). Qed.

Lemma Start_wf lower cache tag defaultTag ext options mb providers s0 s1 :
  NewSelector lower cache tag defaultTag ext options = Ok s0 →
  Selector_Start mb providers s0 = Ok s1 → sel_wf s1.
Proof.
  unfold NewSelector, Selector_Start. intros E0 E1. destruct (duplicate_tag _ _); [done|].
  injection E0 as <-. go_inv. cbn in *.
  match goal with E : start_members _ _ _ _ = Ok ?m, E' : outboundSelect ?s = Ok ?o |- _ =>
    assert (Ho : o = chosen s) by (unfold chosen; by rewrite E');
    rewrite Ho; apply sel_wf_chosen; intros t; rewrite (start_members_ok _ _ _ _ _ E), lookup_empty end.
  cbn. split; [by intros [?|[? ?]]|by left].
Qed.

Lemma SelectOutbound_wf tag s : nonempty tag = true → sel_wf s → sel_wf (SelectOutbound tag s).1.
Proof.
  intros Hn [H1 H2 H3]. unfold SelectOutbound.
  destruct (sl_outbounds s !! tag) as [d|] eqn:E; [|by split]. case_bool_decide as Hd; cbn.
  - subst d. split; [done|done|]. exact H3.
  - split; cbn; [done|intros o ->; eauto|]. intros [Ht [c Hc]]. cbn in Ht, Hc. rewrite Ht in Hc.
    destruct (sl_cache s) as [c0|] eqn:Ec; [|done]. symmetry. eapply (chosen_cached _ tag); cbn; try done.
    + by rewrite Ht.
    + intros E'. assert (Hin : tag ∈ sl_tags s) by (apply H1; by eexists). rewrite E' in Hin.
      by apply elem_of_nil in Hin.
Qed.

Lemma updated_wf mb tag s : sel_wf s → sel_wf (Selector_onProviderUpdated mb tag s).1.
Proof.
  intros Hs. unfold Selector_onProviderUpdated. destruct (negb _); [done|].
  set (cl := fold_left _ _ _). set (s1 := slset_members _ _ _ s).
  assert (Ht : tags_ok (sl_tags s1) (sl_outbounds s1)) by (apply collect_ok, own_ok).
  assert (E : ∃ err, match outboundSelect s1 with
    | Ok d => (d, None) | Err e => (None, Some e) | Panic m => (None, Some (ENew m)) end = (chosen s1, err)).
  { unfold chosen. destruct (outboundSelect s1); eauto. }
  destruct E as [err ->]. cbn [fst]. assert (Hw := sel_wf_chosen s1 (sl_notified s1) Ht).
  case_bool_decide; [done|]. by apply sel_wf_connections.
Qed.

Lemma sel_reachable_wf s : sel_reachable s → sel_wf s.
Proof.
  intros (lower & cache & tag & dt & ext & o & mb & p & s0 & s1 & E0 & E1 & Hr).
  assert (Hw := Start_wf _ _ _ _ _ _ _ _ _ _ E0 E1). clear E0 E1.
  induction Hr as [|s1 s2 s3 Hs _ IH]; [done|]. apply IH.
  destruct Hs; [by apply SelectOutbound_wf|by apply updated_wf|by apply sel_wf_connections].
Qed.

(** Whatever selections, dials and provider updates interleave after the start, what
    is selected is a member of the group under one of its tags; and with a cache file it
    is what the cache file names while that is a member, otherwise the default member, and
    without a default the first one. In particular a provider update that takes away the
    chosen member and one that brings it back end with the chosen member selected. *)
Theorem selector_selected s :
  sel_reachable s →
  (∀ o, sl_selected s = Some o → ∃ t, t ∈ sl_tags s ∧ sl_outbounds s !! t = Some (Some o)) ∧
  (remembers s →
     (∀ tag o, sl_cache s = Some tag → nonempty tag = true → sl_outbounds s !! tag = Some o → sl_selected s = o) ∧
     ((∀ tag, sl_cache s = Some tag → nonempty tag = true → tag ∉ sl_tags s) → sl_tags s ≠ [] →
        sl_selected s = if nonempty (sl_defaultTag s) then default None (sl_outbounds s !! sl_defaultTag s)
                        else default None (head (sl_tags s) ≫= λ first, sl_outbounds s !! first))).
Proof.
  intros [H1 H2 H3]%sel_reachable_wf. split.
  { intros o (t & E)%H2. exists t. split; [apply H1; by eexists|done]. }
  intros Hr. rewrite (H3 Hr). destruct Hr as [Ht [c Hc]]. split.
  - intros tag o Ec Hn Ho. apply (chosen_cached s tag); try done.
    intros E. assert (Hin : tag ∈ sl_tags s) by (apply H1; by eexists). rewrite E in Hin. by apply elem_of_nil in Hin.
  - intros Hno Htags. unfold chosen, outboundSelect. destruct (sl_tags s) as [|first tags] eqn:Et; [done|].
    rewrite Ht, Hc. assert (E : (if nonempty c then sl_outbounds s !! c else None) = None).
    { destruct (nonempty c) eqn:En; [|done]. apply eq_None_not_Some. rewrite (H1 c). by apply Hno. }
    rewrite E. destruct (nonempty (sl_defaultTag s)); [|done]. by destruct (sl_outbounds s !! sl_defaultTag s).
Qed.

(** ** A group with a provider *)

Definition c_own : Outbound := MkOutbound 1 "direct" "own" [] false false.
Definition c_node : Outbound := MkOutbound 2 "vless" "sub/node" [] false false.
Definition c_members (nodes : list Outbound) : Members :=
  MkMembers (λ t, if bool_decide (t = "own"%string) then Some c_own else None) (λ _, nodes) (λ _, ["tcp"%string]).
Definition c_selector (cache : option string) : Selector :=
  match NewSelector id cache "select" "" false
          (MkGroupCommonOption ["own"%string] ["sub"%string] None None [] false) with
  | Ok s => match Selector_Start (c_members []) (Some ["sub"%string]) s with Ok s => s | _ => s end
  | _ => MkSelector "" [] [] "" ∅ None None (MkInterruptGroup [] []) false [] ∅ [] None None ∅ false O
  end.
(** The provider brings its node, the node is chosen, and the provider is updated. *)
Definition c_provided (cache : option string) : Selector :=
  (Selector_onProviderUpdated (c_members [c_node]) "sub" (c_selector cache)).1.
Definition c_picked (cache : option string) : Selector := (SelectOutbound "sub/node" (c_provided cache)).1.
Definition c_lost (cache : option string) : Selector :=
  (Selector_onProviderUpdated (c_members []) "sub" (c_picked cache)).1.
Definition c_back (cache : option string) : Selector :=
  (Selector_onProviderUpdated (c_members [c_node]) "sub" (c_lost cache)).1.

Lemma c_back_reachable : sel_reachable (c_back (Some "")).
Proof.
  exists id, (Some ""%string), "select"%string, ""%string, false,
    (MkGroupCommonOption ["own"%string] ["sub"%string] None None [] false), (c_members []), (Some ["sub"%string]).
  eexists _, (c_selector (Some "")). split; [done|]. split; [by vm_compute|].
  apply (rtc_l _ _ (c_provided (Some ""))); [apply sel_updated|].
  apply (rtc_l _ _ (c_picked (Some ""))); [by apply (sel_select "sub/node")|].
  apply (rtc_l _ _ (c_lost (Some ""))); [apply sel_updated|]. apply rtc_once, sel_updated.
Qed.

(** The node is selected again when it is back, though the first member was while it was
    away. *)
Lemma selector_selected_witness :
  sl_selected (c_lost (Some "")) = Some c_own ∧ sl_selected (c_back (Some "")) = Some c_node.
Proof.
  split; [by vm_compute|]. destruct (selector_selected (c_back (Some "")) c_back_reachable) as [_ H].
  assert (Hr : remembers (c_back (Some ""))) by (split; [by vm_compute|eexists; by vm_compute]).
  destruct (H Hr) as [Hc _]. apply (Hc "sub/node"%string); by vm_compute.
Defined.

(** Without a cache file the choice is gone with the next update of a provider, even one
    that changes nothing. *)
Lemma selection_forgotten :
  sl_selected (c_picked None) = Some c_node ∧
  sl_selected (Selector_onProviderUpdated (c_members [c_node]) "sub" (c_picked None)).1 = Some c_own.
Proof. split; by vm_compute. Qed.
