(* ===== verification/URLTest.v ===== *)
(** * The URL test group: protocol/group/urltest.go

    A group that measures the delay of its members and dials the fastest one, and stays
    with a member unless another is faster by more than the tolerance. Every critical
    section under [g.access] is a function on [URLTestGroup]; what the checks and dials
    answer, the networks and real tags of the members, and the clock are arguments. *)
From stdpp Require Import base list gmap strings pretty.
From S2P Require Import Prelude OutboundManager Group Selector.

(** [ug_checking] is the token of an unforced check, [ug_ticker] the ticker by a number,
    [ug_close] whether the channel is closed; [ug_notified] counts [NotifyUpdated]. *)
Record URLTestGroup : Type := MkURLTestGroup {
  ug_outbounds : list Outbound;
  ug_interval : Z;
  ug_tolerance : Z;
  ug_idleTimeout : Z;
  ug_history : HistoryStorage;
  ug_sharedHistory : HistoryStorage;
  ug_checking : bool;
  ug_selectedTCP : option Outbound;
  ug_selectedUDP : option Outbound;
  ug_interruptGroup : InterruptGroup;
  ug_interruptExternalConnections : bool;
  ug_ticker : option nat;
  ug_close : bool;
  ug_started : bool;
  ug_lastActive : Z;
  ug_failures : dialFailures;
  ug_failureCheck : bool;
  ug_notified : nat;
}.

Definition ugset_members (outbounds : list Outbound) (tcp udp : option Outbound) (g : URLTestGroup) : URLTestGroup :=
  MkURLTestGroup outbounds (ug_interval g) (ug_tolerance g) (ug_idleTimeout g) (ug_history g)
    (ug_sharedHistory g) (ug_checking g) tcp udp (ug_interruptGroup g) (ug_interruptExternalConnections g)
    (ug_ticker g) (ug_close g) (ug_started g) (ug_lastActive g) (ug_failures g) (ug_failureCheck g)
    (ug_notified g).
Definition ugset_history (history shared : HistoryStorage) (g : URLTestGroup) : URLTestGroup :=
  MkURLTestGroup (ug_outbounds g) (ug_interval g) (ug_tolerance g) (ug_idleTimeout g) history
    shared (ug_checking g) (ug_selectedTCP g) (ug_selectedUDP g) (ug_interruptGroup g)
    (ug_interruptExternalConnections g) (ug_ticker g) (ug_close g) (ug_started g) (ug_lastActive g)
    (ug_failures g) (ug_failureCheck g) (ug_notified g).
Definition ugset_connections (ig : InterruptGroup) (notified : nat) (g : URLTestGroup) : URLTestGroup :=
  MkURLTestGroup (ug_outbounds g) (ug_interval g) (ug_tolerance g) (ug_idleTimeout g) (ug_history g)
    (ug_sharedHistory g) (ug_checking g) (ug_selectedTCP g) (ug_selectedUDP g) ig
    (ug_interruptExternalConnections g) (ug_ticker g) (ug_close g) (ug_started g) (ug_lastActive g)
    (ug_failures g) (ug_failureCheck g) notified.
Definition ugset_ticker (ticker : option nat) (closed started : bool) (lastActive : Z) (g : URLTestGroup) : URLTestGroup :=
  MkURLTestGroup (ug_outbounds g) (ug_interval g) (ug_tolerance g) (ug_idleTimeout g) (ug_history g)
    (ug_sharedHistory g) (ug_checking g) (ug_selectedTCP g) (ug_selectedUDP g) (ug_interruptGroup g)
    (ug_interruptExternalConnections g) ticker closed started lastActive
    (ug_failures g) (ug_failureCheck g) (ug_notified g).
Definition ugset_checks (checking : bool) (failures : dialFailures) (failureCheck : bool) (g : URLTestGroup) : URLTestGroup :=
  MkURLTestGroup (ug_outbounds g) (ug_interval g) (ug_tolerance g) (ug_idleTimeout g) (ug_history g)
    (ug_sharedHistory g) checking (ug_selectedTCP g) (ug_selectedUDP g) (ug_interruptGroup g)
    (ug_interruptExternalConnections g) (ug_ticker g) (ug_close g) (ug_started g) (ug_lastActive g)
    failures failureCheck (ug_notified g).

(** [shared] is the history of the Clash API, or an empty one. *)
Definition NewURLTestGroup (outbounds : list Outbound) (shared : HistoryStorage) (interval tolerance idleTimeout : Z)
    (interruptExternalConnections : bool) : result URLTestGroup :=
  let interval := or_default interval (180 * second) in
  let tolerance := or_default tolerance 50 in
  let idleTimeout := or_default idleTimeout (1800 * second) in
  _ ← guard_err (idleTimeout <? interval) (ENew "interval must be less or equal than idle_timeout");
  Ok (MkURLTestGroup outbounds interval tolerance idleTimeout ∅ shared false None None
        (MkInterruptGroup [] []) interruptExternalConnections None false false 0 noFailures false O).

Definition deleteHistory (tag : string) (g : URLTestGroup) : URLTestGroup :=
  ugset_history (DeleteURLTestHistory tag (ug_history g)) (DeleteURLTestHistory tag (ug_sharedHistory g)) g.

Definition storeHistory (tag : string) (h : URLTestHistory) (g : URLTestGroup) : URLTestGroup :=
  ugset_history (StoreURLTestHistory tag h (ug_history g)) (StoreURLTestHistory tag h (ug_sharedHistory g)) g.

(** ** Selecting *)

(** What the group sees of its members: the networks they serve, [RealTag]. *)
Record View : Type := MkView {
  vw_Network : Outbound → list string;
  vw_RealTag : Outbound → string → string;
}.

Section select.
Context (vw : View).

Definition load_delay (g : URLTestGroup) (network : string) (detour : Outbound) : option Z :=
  hs_Delay <$> LoadURLTestHistory (vw_RealTag vw detour network) (ug_history g).

Definition serves (network : string) (detour : Outbound) : bool := mem network (vw_Network vw detour).

(** The body of the loop over the members. *)
Definition select_step (g : URLTestGroup) (network : string) (best : Z * option Outbound) (detour : Outbound)
    : Z * option Outbound :=
  let '(minDelay, minOutbound) := best in
  if negb (serves network detour) then best
  else match load_delay g network detour with
  | None => best
  | Some delay =>
      if (minDelay =? 0) || (u32 (delay + ug_tolerance g) <? minDelay) then (delay, Some detour) else best
  end.

Definition selectedFor (g : URLTestGroup) (network : string) : option Outbound :=
  if bool_decide (network = "tcp"%string) then ug_selectedTCP g
  else if bool_decide (network = "udp"%string) then ug_selectedUDP g
  else None.

(** The selected member and its delay, while it has one. *)
Definition select_current (g : URLTestGroup) (network : string) : Z * option Outbound :=
  match selectedFor g network with
  | Some o => match load_delay g network o with Some delay => (delay, Some o) | None => (0, None) end
  | None => (0, None)
  end.

Definition selectOutbound (g : URLTestGroup) (network : string) : option Outbound * bool :=
  match (fold_left (select_step g network) (ug_outbounds g) (select_current g network)).2 with
  | Some minOutbound => (Some minOutbound, true)
  | None => (List.find (serves network) (ug_outbounds g), false)
  end.

(** One network of [performUpdateCheck]: the new selection, whether it was updated and
    whether it was selected. A record of an outbound has its identity. *)
Definition update_selected (selected : option Outbound) (r : option Outbound * bool) : option Outbound * bool * bool :=
  match r with
  | (Some outbound, exists_) =>
      match selected with
      | None => (Some outbound, false, true)
      | Some old =>
          if exists_ && negb (bool_decide (outbound = old))
          then (Some outbound, negb (bool_decide (ob_Tag old = ob_Tag outbound)), true)
          else (Some old, false, false)
      end
  | (None, _) => (selected, false, false)
  end.

Definition performUpdateCheck (g : URLTestGroup) : URLTestGroup :=
  let '(tcp, updated1, selected1) := update_selected (ug_selectedTCP g) (selectOutbound g "tcp") in
  let g := ugset_members (ug_outbounds g) tcp (ug_selectedUDP g) g in
  let '(udp, updated2, selected2) := update_selected (ug_selectedUDP g) (selectOutbound g "udp") in
  let g := ugset_members (ug_outbounds g) (ug_selectedTCP g) udp g in
  let ig := if updated1 || updated2 : bool
            then Interrupt (ug_interruptExternalConnections g) (ug_interruptGroup g)
            else ug_interruptGroup g in
  ugset_connections ig (if selected1 || selected2 : bool then S (ug_notified g) else ug_notified g) g.

(** [URLTest.Selected] *)
Definition URLTest_Selected (g : URLTestGroup) (network : string) : option Outbound :=
  let outbound := if bool_decide (network = "udp"%string) then ug_selectedUDP g else ug_selectedTCP g in
  match outbound with
  | Some o => Some o
  | None => (selectOutbound g network).1
  end.

Definition URLTest_References (g : URLTestGroup) : list string :=
  match ug_selectedTCP g with Some o => [ob_Tag o] | None => [] end
  ++ match ug_selectedUDP g with
     | Some o => if bool_decide (ug_selectedTCP g = Some o) then [] else [ob_Tag o]
     | None => []
     end.
End select.

(** ** Checks *)

(** A member to test: its tag, the tag its delay is kept under, the outbound of that. *)
Record target : Type := MkTarget { tg_tag : string; tg_realTag : string; tg_outbound : Outbound }.

(** The members [urlTest] tests: each real tag once, and in an unforced check only those
    without a recent result. [manager] is [g.outbound.Outbound]. *)
Definition add_target (memberTag : Outbound → string) (manager : string → option Outbound) (now : Z)
    (force : bool) (g : URLTestGroup) (st : gset string * list target) (detour : Outbound)
    : gset string * list target :=
  let '(checked, targets) := st in
  let realTag := memberTag detour in
  if bool_decide (realTag ∈ checked) then st
  else if negb force && match LoadURLTestHistory realTag (ug_history g) with
                        | Some h => now - hs_Time h <? freshFor (ug_interval g)
                        | None => false
                        end then st
  else
    let checked := {[realTag]} ∪ checked in
    match manager realTag with
    | None => (checked, targets)
    | Some p => (checked, targets ++ [MkTarget (ob_Tag detour) realTag p])
    end.

Definition urlTest_targets (memberTag : Outbound → string) (manager : string → option Outbound) (now : Z)
    (force : bool) (g : URLTestGroup) : list target :=
  (fold_left (add_target memberTag manager now force g) (ug_outbounds g) (∅, [])).2.

(** What [coordinator.Check] answered: the time the test took and when, or an error, and
    whether the caller's time was up by then. *)
Record checkAnswer : Type := MkCheckAnswer { ck_result : (Z * Z) + error; ck_ctxDone : bool }.

Definition apply_check (st : URLTestGroup * gmap string Z) (r : target * checkAnswer) : URLTestGroup * gmap string Z :=
  let '(g, result) := st in
  let '(t, c) := r in
  match ck_result c with
  | inr _ => if ck_ctxDone c then st else (deleteHistory (tg_realTag t) g, result)
  | inl (elapsed, at_) =>
      let delay := urlTest_delay elapsed in
      (storeHistory (tg_realTag t) (MkHistory at_ delay) g, <[tg_tag t := delay]> result)
  end.

(** [urlTest] with the tests in the order in which they are collected; [closed] is
    whether the group is closed at the end. *)
Definition urlTest (vw : View) (memberTag : Outbound → string) (manager : string → option Outbound)
    (check : target → checkAnswer) (now : Z) (force closed : bool) (g : URLTestGroup)
    : URLTestGroup * gmap string Z :=
  if negb force && ug_checking g then (g, ∅)
  else
    let '(g', result) :=
      fold_left apply_check ((λ t, (t, check t)) <$> urlTest_targets memberTag manager now force g) (g, ∅) in
    (if closed : bool then g' else performUpdateCheck vw g', result).

(** ** Dials *)

Definition dialSucceeded (g : URLTestGroup) : URLTestGroup :=
  ugset_checks (ug_checking g) noFailures (ug_failureCheck g) g.

(** [true] when a check of the group is started. *)
Definition dialFailed (now : Z) (ctxDone : bool) (detour : Outbound) (err : error) (g : URLTestGroup)
    : URLTestGroup * bool :=
  if ctxDone || negb (countableDialFailure detour err) then (g, false)
  else
    let '(failures, check) := dialFailures_add now err (ug_failures g) in
    if negb check || ug_failureCheck g then (ugset_checks (ug_checking g) failures (ug_failureCheck g) g, false)
    else (ugset_checks (ug_checking g) failures true g, true).

(** The end of the check that [dialFailed] started. *)
Definition failureCheck_done (g : URLTestGroup) : URLTestGroup :=
  ugset_checks (ug_checking g) (ug_failures g) false g.

Definition PostStart (now : Z) (g : URLTestGroup) : URLTestGroup :=
  ugset_ticker (ug_ticker g) (ug_close g) true now g.

(** [fresh] is a ticker that is not in use; [true] when [loopCheck] is started with it. *)
Definition Touch (now : Z) (fresh : nat) (g : URLTestGroup) : URLTestGroup * bool :=
  if negb (ug_started g) then (g, false)
  else if is_set (ug_ticker g) then (ugset_ticker (ug_ticker g) (ug_close g) (ug_started g) now g, false)
  else (ugset_ticker (Some fresh) (ug_close g) (ug_started g) (ug_lastActive g) g, true).

(** The start of [loopCheck]; [true] when it checks. *)
Definition loopCheck_begin (now : Z) (g : URLTestGroup) : URLTestGroup * bool :=
  if ug_interval g <? now - ug_lastActive g
  then (ugset_ticker (ug_ticker g) (ug_close g) (ug_started g) now g, true)
  else (g, false).

(** A tick of [loopCheck]; [true] when it checks and goes on, [false] when it returns. *)
Definition loopCheck_tick (ticker : nat) (now : Z) (g : URLTestGroup) : URLTestGroup * bool :=
  if ug_idleTimeout g <? now - ug_lastActive g then
    (if bool_decide (ug_ticker g = Some ticker)
     then ugset_ticker None (ug_close g) (ug_started g) (ug_lastActive g) g else g, false)
  else (g, true).

(** [close] of a channel that is closed panics. *)
Definition URLTestGroup_Close (g : URLTestGroup) : result URLTestGroup :=
  if negb (is_set (ug_ticker g)) then Ok g
  else if ug_close g then Panic "close of closed channel"
  else Ok (ugset_ticker None true (ug_started g) (ug_lastActive g) g).

Definition memberError (member : Outbound) (err : error) : error := ECause err (outbound_name member).

(** [DialContext]; [networkName] is [N.NetworkName], [world] is what the member answers.
    The last result is whether a check is started. *)
Definition URLTest_DialContext (vw : View) (networkName : string → string) (world : Outbound → nat + error)
    (now : Z) (fresh : nat) (ctxDone : bool) (network : string) (isExternal : bool) (g : URLTestGroup)
    : URLTestGroup * (nat + error) * bool :=
  let g := (Touch now fresh g).1 in
  let dial (selected : option Outbound) : URLTestGroup * (nat + error) * bool :=
    let outbound := match selected with Some o => Some o | None => (selectOutbound vw g network).1 end in
    match outbound with
    | None => (g, inr (ENew "missing supported outbound"), false)
    | Some outbound =>
        match world outbound with
        | inl conn =>
            let g := dialSucceeded g in
            (ugset_connections (Group_Add conn isExternal (ug_interruptGroup g)) (ug_notified g) g, inl conn, false)
        | inr err =>
            let '(g, check) := dialFailed now ctxDone outbound err (deleteHistory (ob_Tag outbound) g) in
            (g, inr (memberError outbound err), check)
        end
    end in
  if bool_decide (networkName network = "tcp"%string) then dial (ug_selectedTCP g)
  else if bool_decide (networkName network = "udp"%string) then dial (ug_selectedUDP g)
  else (g, inr (EExtend (ENamed "N.ErrUnknownNetwork") network), false).

(** ** The outbound and its provider updates *)

Record URLTest : Type := MkURLTest {
  ut_Dependencies : list string;
  ut_tags : list string;
  ut_providers : list string;
  ut_outboundsCache : gmap string (list Outbound);
  ut_providerTags : list string;
  ut_exclude : option Filter;
  ut_include : option Filter;
  ut_excludeTypes : gset string;
  ut_useAllProviders : bool;
}.

Definition NewURLTest (lower : string → string) (expectedStatus : string) (options : GroupCommonOption)
    : result (URLTest * ExpectedStatus) :=
  status ← map_err (λ e, ECause e "invalid URLTest expected_status") (ParseExpectedStatus expectedStatus);
  match duplicate_tag [] (gco_Outbounds options) with
  | Some tag => Err (ENew ("duplicate tag: " +:+ tag)%string)
  | None =>
      Ok (MkURLTest (gco_Outbounds options) (gco_Outbounds options) [] ∅ (gco_Providers options)
            (gco_Exclude options) (gco_Include options)
            (excludedOutboundTypes lower (gco_ExcludeTypes options)) (gco_UseAllProviders options), status)
  end.

Fixpoint look_up_members (mb : Members) (i : nat) (tags : list string) : result (list Outbound) :=
  match tags with
  | [] => Ok []
  | tag :: tags =>
      match mb_Outbound mb tag with
      | None => Err (ENew ("outbound " +:+ pretty i +:+ " not found: " +:+ tag)%string)
      | Some detour => rest ← look_up_members mb (S i) tags; Ok (detour :: rest)
      end
  end.

Definition URLTest_start (mb : Members) (providers : option (list string)) (shared : HistoryStorage)
    (interval tolerance idleTimeout : Z) (interruptExternalConnections : bool) (s : URLTest)
    : result (URLTest * URLTestGroup) :=
  providerTags ← start_providers (ut_useAllProviders s) providers (ut_providerTags s);
  _ ← guard_err (negb (has_items (ut_tags s) || has_items providerTags))
        (ENew "missing outbound and provider tags");
  outbounds ← look_up_members mb 0 (ut_tags s);
  group ← NewURLTestGroup outbounds shared interval tolerance idleTimeout interruptExternalConnections;
  Ok (MkURLTest (ut_Dependencies s) (ut_tags s) providerTags (ut_outboundsCache s) providerTags
        (ut_exclude s) (ut_include s) (ut_excludeTypes s) (ut_useAllProviders s), group).

Definition outboundByTag (vw : View) (outbounds : list Outbound) (tag network : string) : option Outbound :=
  if negb (nonempty tag) then None
  else List.find (λ o, bool_decide (ob_Tag o = tag) && serves vw network o) outbounds.

(** One provider: from the cache unless it is the one that changed. *)
Definition ut_provider (mb : Members) (s : URLTest) (updated : string)
    (st : list Outbound * gmap string (list Outbound)) (providerTag : string)
    : list Outbound * gmap string (list Outbound) :=
  let '(outbounds, cache) := st in
  let cached := default [] (cache !! providerTag) in
  if negb (bool_decide (providerTag = updated)) && has_items cached then (outbounds ++ cached, cache)
  else
    let fresh := filter (λ d, memberAllowed (ut_excludeTypes s) (ut_exclude s) (ut_include s) providerTag d = true)
                   (mb_Provider mb providerTag) in
    (outbounds ++ fresh, <[providerTag := fresh]> cache).

(** The members of the group by their own tags. One the manager does not have would be a
    nil member, on which the check that follows panics. *)
Fixpoint ut_own (mb : Members) (tags : list string) : result (list Outbound) :=
  match tags with
  | [] => Ok []
  | tag :: tags =>
      match mb_Outbound mb tag with
      | None => Panic "invalid memory address or nil pointer dereference"
      | Some detour => rest ← ut_own mb tags; Ok (detour :: rest)
      end
  end.

(** The check it starts afterwards is a forced [urlTest]. *)
Definition URLTest_onProviderUpdated (mb : Members) (vw : View) (tag : string) (s : URLTest) (g : URLTestGroup)
    : result (URLTest * URLTestGroup) :=
  _ ← guard_err (negb (mem tag (ut_providers s))) (ENew ("outbound provider not found: " +:+ tag)%string);
  let '(provided, cache) := fold_left (ut_provider mb s tag) (ut_providerTags s) ([], ut_outboundsCache s) in
  own ← ut_own mb (ut_Dependencies s);
  let outbounds := own ++ provided in
  let tags := ut_Dependencies s ++ (ob_Tag <$> provided) in
  let again network o := outboundByTag vw outbounds (ob_Tag o) network in
  Ok (MkURLTest (ut_Dependencies s) tags (ut_providers s) cache (ut_providerTags s)
        (ut_exclude s) (ut_include s) (ut_excludeTypes s) (ut_useAllProviders s),
      ugset_members outbounds (ug_selectedTCP g ≫= again "tcp"%string) (ug_selectedUDP g ≫= again "udp"%string) g).
