(* ===== verification/URLTestTheorems.v ===== *)
(** * The URL test group: what it selects

    Over every interleaving of checks, dials and provider updates the selected members
    are members of the group; after a check the selected member is the fastest one up to
    the tolerance, and a member that is no slower than that is kept. *)
From stdpp Require Import base list gmap strings.
From S2P Require Import Prelude OutboundManager Group Selector URLTest.

(** ** The loop over the members *)

(** The members that can be chosen by their delay. *)
Definition measured (vw : View) (g : URLTestGroup) (network : string) (o : Outbound) (delay : Z) : Prop :=
  serves vw network o = true ∧ load_delay vw g network o = Some delay.

(** Delays are of 16 bits and not zero. *)
Definition delays_ok (g : URLTestGroup) : Prop :=
  (∀ t h, ug_history g !! t = Some h → 1 <= hs_Delay h < 65536) ∧ 0 <= ug_tolerance g < 65536.

Lemma load_delay_ok vw g network o d : delays_ok g → load_delay vw g network o = Some d → 1 <= d < 65536.
Proof.
  intros [H _] E. unfold load_delay, LoadURLTestHistory in E.
  apply fmap_Some in E as (h & Eh & ->). by eapply H.
Qed.

(** What the loop has chosen so far. *)
Definition best_ok (best : Z * option Outbound) : Prop :=
  (best = (0, None)) ∨ (1 <= best.1 < 65536 ∧ is_Some best.2).

Section loop.
Context (vw : View) (g : URLTestGroup) (network : string) (Hg : delays_ok g).

Lemma select_step_spec best o :
  best_ok best →
  let best' := select_step vw g network best o in
  best_ok best' ∧ (best' = best ∨ (measured vw g network o best'.1 ∧ best'.2 = Some o ∧
     (best = (0, None) ∨ best'.1 + ug_tolerance g < best.1))) ∧
  (∀ d, measured vw g network o d → best'.2 ≠ None ∧ best'.1 <= d + ug_tolerance g) ∧
  (best.2 ≠ None → (∀ d, measured vw g network o d → best.1 <= d + ug_tolerance g) → best' = best).
Proof.
  destruct best as [m mo]. intros Hb. destruct Hg as [_ Ht]. unfold select_step.
  destruct (serves vw network o) eqn:Es; cbn [negb].
  2:{ split; [done|]. split; [by left|]. split; [intros d [? _]; congruence|done]. }
  destruct (load_delay vw g network o) as [d|] eqn:El.
  2:{ split; [done|]. split; [by left|]. split; [intros d [_ ?]; congruence|done]. }
  assert (Hd := load_delay_ok _ _ _ _ _ Hg El).
  assert (Hm : measured vw g network o d) by done.
  rewrite wrap_small by lia.
  destruct (Z.eqb_spec m 0) as [->|Hm0]; cbn [orb].
  { destruct Hb as [[= ->]|[Hb _]]; [|cbn in Hb; lia]. cbn.
    split; [right; split; [cbn; lia|by eexists]|]. split; [right; auto|].
    split; [|done]. intros d' [_ E]. simplify_eq. split; [done|lia]. }
  destruct Hb as [[= -> ->]|[Hb [x Hx]]]; [done|]. cbn in Hb, Hx. subst mo.
  destruct (Z.ltb_spec (d + ug_tolerance g) m) as [Hlt|Hge]; cbn.
  - split; [right; split; [cbn; lia|by eexists]|]. split; [right; auto|].
    split; [intros d' [_ E]; simplify_eq; split; [done|lia]|].
    intros _ H. specialize (H d Hm). lia.
  - split; [right; split; [cbn; lia|by eexists]|]. split; [by left|].
    split; [intros d' [_ E]; simplify_eq; split; [done|lia]|done].
Qed.

Lemma select_fold_spec l best :
  best_ok best →
  let best' := fold_left (select_step vw g network) l best in
  best_ok best' ∧
  (best' = best ∨ ((best = (0, None) ∨ best'.1 < best.1) ∧
     ∃ o, o ∈ l ∧ measured vw g network o best'.1 ∧ best'.2 = Some o)) ∧
  (∀ o d, o ∈ l → measured vw g network o d → best'.2 ≠ None ∧ best'.1 <= d + ug_tolerance g) ∧
  (best.2 ≠ None → (∀ o d, o ∈ l → measured vw g network o d → best.1 <= d + ug_tolerance g) → best' = best).
Proof.
  destruct (proj2 Hg) as [Ht _].
  revert best. induction l as [|x l IH]; intros best Hb; cbn [fold_left].
  { split; [done|]. split; [by left|]. split; [intros o d []%elem_of_nil|done]. }
  destruct (select_step_spec best x Hb) as (Hb1 & Hs1 & Hm1 & Hk1).
  set (best1 := select_step vw g network best x) in *.
  destruct (IH best1 Hb1) as (Hb2 & Hs2 & Hm2 & Hk2).
  set (best2 := fold_left _ l best1) in *. clearbody best2 best1.
  split; [done|]. split; [|split].
  - destruct Hs2 as [->|[Hlt (o & Ho & Hmo & Eo)]].
    + destruct Hs1 as [->|(Hmx & Ex & Hlt)]; [by left|]. right. split; [destruct Hlt; [by left|right; lia]|].
      exists x. split; [by left|done].
    + right. split; [|exists o; split; [by right|done]].
      destruct Hs1 as [<-|(Hmx & Ex & [->|Hl])]; [done|by left|].
      destruct Hlt as [E|]; [by rewrite E in Ex|right; lia].
  - intros o d [->|Ho]%elem_of_cons Hd; [|by eapply Hm2].
    destruct (Hm1 d Hd) as [Hn Hle]. destruct Hs2 as [->|[[E|Hlt] (o' & _ & _ & Eo')]]; [done|by rewrite E in Hn|].
    split; [congruence|lia].
  - intros Hn Hall. assert (E1 : best1 = best) by (apply Hk1; [done|]; intros d Hd; apply (Hall x d); [by left|done]).
    rewrite <- E1. apply Hk2; [by rewrite E1|]. rewrite E1. intros o d Ho Hd. apply (Hall o d); [by right|done].
Qed.

Lemma select_current_ok : best_ok (select_current vw g network).
Proof.
  unfold select_current. destruct (selectedFor g network) as [o|]; [|by left].
  destruct (load_delay vw g network o) as [d|] eqn:E; [|by left].
  right. split; [by eapply load_delay_ok|by eexists].
Qed.

(** What [selectOutbound] answers. *)
Lemma selectOutbound_spec :
  match selectOutbound vw g network with
  | (Some o, true) =>
      ∃ delay, load_delay vw g network o = Some delay ∧
        (selectedFor g network = Some o ∨ o ∈ ug_outbounds g ∧ serves vw network o = true) ∧
        (∀ m d, m ∈ ug_outbounds g → measured vw g network m d → delay <= d + ug_tolerance g) ∧
        (∀ old d0, selectedFor g network = Some old → load_delay vw g network old = Some d0 →
           (∀ m d, m ∈ ug_outbounds g → measured vw g network m d → d0 <= d + ug_tolerance g) → o = old)
  | (r, b) => b = false ∧ (∀ m d, m ∈ ug_outbounds g → ¬ measured vw g network m d) ∧
      (∀ old, selectedFor g network = Some old → load_delay vw g network old = None) ∧
      match r with
      | Some o => o ∈ ug_outbounds g ∧ serves vw network o = true
      | None => ∀ m, m ∈ ug_outbounds g → serves vw network m = false
      end
  end.
Proof.
  unfold selectOutbound.
  destruct (select_fold_spec (ug_outbounds g) _ select_current_ok) as (Hb & Hs & Hm & Hk).
  destruct (fold_left _ _ _) as [delay [o|]] eqn:E; cbn in *.
  - exists delay. split; [|split; [|split]].
    + destruct Hs as [Hs|[_ (o' & _ & [_ Ho'] & [= ->])]]; [|done]. revert Hs. unfold select_current.
      repeat case_match; intros [= -> ->]; congruence.
    + destruct Hs as [Hs|[_ (o' & Hin & [Ho' _] & [= ->])]]; [left|by right]. revert Hs. unfold select_current.
      repeat case_match; intros [= -> ->]; congruence.
    + intros m d Hin Hd. by destruct (Hm m d Hin Hd).
    + intros old d0 Eo Ed Hall. assert (Ec : select_current vw g network = (d0, Some old)).
      { unfold select_current. by rewrite Eo, Ed. }
      rewrite Ec in Hk. cbn in Hk. specialize (Hk ltac:(done) Hall). by simplify_eq.
  - assert (Hnone : ∀ m d, m ∈ ug_outbounds g → ¬ measured vw g network m d).
    { intros m d Hin Hd. by destruct (Hm m d Hin Hd). }
    assert (Hc : ∀ old, selectedFor g network = Some old → load_delay vw g network old = None).
    { intros old Eo. destruct Hs as [Hs|[_ (o' & _ & _ & ?)]]; [|done]. revert Hs. unfold select_current.
      rewrite Eo. by destruct (load_delay vw g network old). }
    destruct (List.find _ _) as [o|] eqn:Ef; (split; [done|]; split; [done|]; split; [done|]).
    + apply List.find_some in Ef as [Hin Hsv]. by apply list_elem_of_In in Hin.
    + intros m Hin. apply list_elem_of_In in Hin. by apply (List.find_none _ _ Ef).
Qed.
End loop.

(** ** An update of the selection *)

(** The selection of a network against the members and delays of the group, [old] being
    the selection before. *)
Definition selects_fastest (vw : View) (old : option Outbound) (g : URLTestGroup) (network : string) : Prop :=
  (∀ m d, m ∈ ug_outbounds g → measured vw g network m d →
     ∃ o delay, selectedFor g network = Some o ∧ load_delay vw g network o = Some delay ∧
       delay <= d + ug_tolerance g) ∧
  (∀ o d0, old = Some o → load_delay vw g network o = Some d0 →
     (∀ m d, m ∈ ug_outbounds g → measured vw g network m d → d0 <= d + ug_tolerance g) →
     selectedFor g network = Some o) ∧
  (∀ m, m ∈ ug_outbounds g → serves vw network m = true → is_Some (selectedFor g network)).

Lemma update_selected_spec vw g network :
  delays_ok g →
  let new := (update_selected (selectedFor g network) (selectOutbound vw g network)).1.1 in
  (∀ m d, m ∈ ug_outbounds g → measured vw g network m d →
     ∃ o delay, new = Some o ∧ load_delay vw g network o = Some delay ∧ delay <= d + ug_tolerance g) ∧
  (∀ o d0, selectedFor g network = Some o → load_delay vw g network o = Some d0 →
     (∀ m d, m ∈ ug_outbounds g → measured vw g network m d → d0 <= d + ug_tolerance g) → new = Some o) ∧
  (∀ m, m ∈ ug_outbounds g → serves vw network m = true → is_Some new) ∧
  (∀ o, new = Some o → selectedFor g network = Some o ∨ o ∈ ug_outbounds g).
Proof.
  intros Hg. assert (H := selectOutbound_spec vw g network Hg).
  destruct (selectOutbound vw g network) as [[o|] []]; cbn in H; cbv zeta.
  - destruct H as (delay & El & Hin & Hmin & Hkeep).
    assert (E : (update_selected (selectedFor g network) (Some o, true)).1.1 = Some o).
    { unfold update_selected. destruct (selectedFor g network) as [old|]; [|done].
      cbn. by case_bool_decide; subst. }
    rewrite E. split; [intros m d Hm Hd; exists o, delay; split; [done|]; split; [done|by eapply Hmin]|]. split; [|split; [by eauto|]].
    + intros old d0 Eo Ed Hall. by rewrite (Hkeep old d0 Eo Ed Hall).
    + intros o' [= <-]. naive_solver.
  - destruct H as (_ & Hno & Hold & Hin & _). destruct (selectedFor g network) as [old|] eqn:Eold; cbn.
    + split; [intros m d Hm Hd; by destruct (Hno m d)|]. split; [naive_solver|]. split; [by eexists|naive_solver].
    + split; [intros m d Hm Hd; by destruct (Hno m d)|]. split; [naive_solver|]. split; [by eexists|naive_solver].
  - by destruct H as [? _].
  - destruct H as (_ & Hno & Hold & Hin). cbn.
    split; [intros m d Hm Hd; by destruct (Hno m d)|]. split; [naive_solver|].
    split; [|by left]. intros m Hm Hs. by rewrite (Hin m Hm) in Hs.
Qed.

(** What [performUpdateCheck] leaves alone, and what it selects. *)
Lemma performUpdateCheck_eq vw g :
  let g' := performUpdateCheck vw g in
  ug_outbounds g' = ug_outbounds g ∧ ug_history g' = ug_history g ∧ ug_tolerance g' = ug_tolerance g ∧
  ug_failures g' = ug_failures g ∧
  ug_selectedTCP g' = (update_selected (selectedFor g "tcp") (selectOutbound vw g "tcp")).1.1 ∧
  ug_selectedUDP g' = (update_selected (selectedFor g "udp") (selectOutbound vw g "udp")).1.1.
Proof.
  unfold performUpdateCheck.
  destruct (update_selected (ug_selectedTCP g) _) as [[tcp u1] s1] eqn:E1.
  set (g1 := ugset_members (ug_outbounds g) tcp (ug_selectedUDP g) g).
  change (selectOutbound vw g1 "udp") with (selectOutbound vw g "udp").
  change (ug_selectedUDP g1) with (ug_selectedUDP g).
  destruct (update_selected (ug_selectedUDP g) _) as [[udp u2] s2] eqn:E2. cbn.
  change (selectedFor g "tcp") with (ug_selectedTCP g). change (selectedFor g "udp") with (ug_selectedUDP g).
  by rewrite E1, E2.
Qed.

(** The networks of a group. *)
Definition group_network (network : string) : Prop := network = "tcp"%string ∨ network = "udp"%string.

Lemma performUpdateCheck_fastest vw g network :
  group_network network → delays_ok g →
  selects_fastest vw (selectedFor g network) (performUpdateCheck vw g) network.
Proof.
  intros Hn Hg. destruct (performUpdateCheck_eq vw g) as (E1 & E2 & E3 & _ & E4 & E5).
  destruct (update_selected_spec vw g network Hg) as (H1 & H2 & H3 & _).
  assert (Es : selectedFor (performUpdateCheck vw g) network =
    (update_selected (selectedFor g network) (selectOutbound vw g network)).1.1).
  { by destruct Hn as [->| ->]. }
  unfold selects_fastest, measured, load_delay in *. rewrite Es, E1, E2, E3. auto.
Qed.

(** ** Every interleaving of the critical sections *)

Inductive ut_step : URLTestGroup → URLTestGroup → Prop :=
| ut_update vw g : ut_step g (performUpdateCheck vw g)
| ut_provided mb vw tag s s' g g' : URLTest_onProviderUpdated mb vw tag s g = Ok (s', g') → ut_step g g'
| ut_checked r g m : ut_step g (apply_check (g, m) r).1
| ut_deleted tag g : ut_step g (deleteHistory tag g)
| ut_succeeded g : ut_step g (dialSucceeded g)
| ut_failed now ctxDone detour err g : ut_step g (dialFailed now ctxDone detour err g).1
| ut_failureDone g : ut_step g (failureCheck_done g)
| ut_checking b g : ut_step g (ugset_checks b (ug_failures g) (ug_failureCheck g) g)
| ut_started now g : ut_step g (PostStart now g)
| ut_touched now fresh g : ut_step g (Touch now fresh g).1
| ut_looped now g : ut_step g (loopCheck_begin now g).1
| ut_ticked ticker now g : ut_step g (loopCheck_tick ticker now g).1
| ut_closed g g' : URLTestGroup_Close g = Ok g' → ut_step g g'
| ut_connections ig g : ut_step g (ugset_connections ig (ug_notified g) g).

(** What a group goes through from its start; the tolerance is of 16 bits. *)
Definition ut_reachable (g : URLTestGroup) : Prop :=
  ∃ outbounds shared interval tolerance idleTimeout ext g0,
    0 <= tolerance < 65536 ∧ NewURLTestGroup outbounds shared interval tolerance idleTimeout ext = Ok g0 ∧
    rtc ut_step g0 g.

Record ut_wf (g : URLTestGroup) : Prop := {
  uw_delays : delays_ok g;
  uw_tcp : ∀ o, ug_selectedTCP g = Some o → o ∈ ug_outbounds g;
  uw_udp : ∀ o, ug_selectedUDP g = Some o → o ∈ ug_outbounds g;
  uw_failures : 0 <= df_count (ug_failures g) < maxDialFailures;
}.

Lemma u16_delay elapsed : 1 <= urlTest_delay elapsed < 65536.
Proof.
  unfold urlTest_delay. assert (H := wrap_range 16 (elapsed `quot` 1000000) ltac:(lia)). lia.
Qed.

(** Changes of the rest of a group. *)
Lemma ut_wf_same g g' :
  ug_outbounds g' = ug_outbounds g → ug_selectedTCP g' = ug_selectedTCP g →
  ug_selectedUDP g' = ug_selectedUDP g → delays_ok g' →
  0 <= df_count (ug_failures g') < maxDialFailures → ut_wf g → ut_wf g'.
Proof. intros E1 E2 E3 Hd Hf [_ H2 H3 _]. split; [done|by rewrite E2, E1|by rewrite E3, E1|done]. Qed.

Lemma delays_delete tag g : delays_ok g → delays_ok (deleteHistory tag g).
Proof.
  intros [H Ht]. split; [|done]. cbn. unfold DeleteURLTestHistory. intros t h [_ E]%lookup_delete_Some. by eapply H.
Qed.

Lemma delays_store tag t elapsed g :
  delays_ok g → delays_ok (storeHistory tag (MkHistory t (urlTest_delay elapsed)) g).
Proof.
  intros [H Ht]. split; [|done]. cbn. unfold StoreURLTestHistory. intros t' h [[_ <-]|[_ E]]%lookup_insert_Some; [apply u16_delay|].
  by eapply H.
Qed.

Lemma apply_check_wf r g m : ut_wf g → ut_wf (apply_check (g, m) r).1.
Proof.
  intros Hw. destruct r as [t [[[elapsed at_]|err] done]]; cbn.
  - apply (ut_wf_same g); try done; [apply delays_store, Hw|apply Hw].
  - destruct done; [done|]. apply (ut_wf_same g); try done; [apply delays_delete, Hw|apply Hw].
Qed.

Lemma outboundByTag_member vw l tag network o : outboundByTag vw l tag network = Some o → o ∈ l.
Proof.
  unfold outboundByTag. destruct (negb _); [done|]. intros [H _]%List.find_some. by apply list_elem_of_In.
Qed.

Lemma provided_wf mb vw tag s s' g g' :
  URLTest_onProviderUpdated mb vw tag s g = Ok (s', g') → ut_wf g → ut_wf g'.
Proof.
  unfold URLTest_onProviderUpdated. intros E Hw. go_inv.
  destruct (fold_left _ _ _) as [provided cache]. go_inv.
  split; cbn; [apply Hw| | |apply Hw].
  - intros o (o' & _ & H)%bind_Some. by eapply outboundByTag_member.
  - intros o (o' & _ & H)%bind_Some. by eapply outboundByTag_member.
Qed.

Lemma update_wf vw g : ut_wf g → ut_wf (performUpdateCheck vw g).
Proof.
  intros Hw. destruct (performUpdateCheck_eq vw g) as (E1 & E2 & E3 & E4 & E5 & E6). destruct Hw as [Hd Ht Hu Hf].
  destruct (update_selected_spec vw g "tcp" Hd) as (_ & _ & _ & H1).
  destruct (update_selected_spec vw g "udp" Hd) as (_ & _ & _ & H2).
  split; [unfold delays_ok; by rewrite E2, E3| | |by rewrite E4].
  - rewrite E5, E1. intros o [?|?]%H1; [by apply Ht|done].
  - rewrite E6, E1. intros o [?|?]%H2; [by apply Hu|done].
Qed.

Lemma ut_step_wf g g' : ut_step g g' → ut_wf g → ut_wf g'.
Proof.
  intros Hs Hw. assert (Hd := uw_delays _ Hw). assert (Hf := uw_failures _ Hw).
  destruct Hs as [vw g|mb vw tag s s' g g' E|r g m|tag g|g|now cd detour err g|g|b g|now g|now fresh g
                 |now g|ticker now g|g g' E|ig g].
  - by apply update_wf.
  - by eapply provided_wf.
  - by apply apply_check_wf.
  - by apply (ut_wf_same g); [..|apply delays_delete| |].
  - by apply (ut_wf_same g).
  - assert (Hc := add_bounds now err (ug_failures g) Hf). unfold dialFailed.
    destruct (_ || _); [done|]. destruct (dialFailures_add _ _ _) as [f check].
    destruct (negb check || _); by apply (ut_wf_same g).
  - by apply (ut_wf_same g).
  - by apply (ut_wf_same g).
  - by apply (ut_wf_same g).
  - unfold Touch. destruct (negb _); [done|]. destruct (is_set _); by apply (ut_wf_same g).
  - unfold loopCheck_begin. destruct (_ <? _); [|done]. by apply (ut_wf_same g).
  - unfold loopCheck_tick. destruct (_ <? _); [|done]. cbn. case_bool_decide; [|done]. by apply (ut_wf_same g).
  - unfold URLTestGroup_Close in E. destruct (negb _); [by injection E as <-|].
    destruct (ug_close g); [done|]. injection E as <-. by apply (ut_wf_same g).
  - by apply (ut_wf_same g).
Qed.

Lemma ut_reachable_wf g : ut_reachable g → ut_wf g.
Proof.
  intros (os & sh & i & t & idle & ext & g0 & Ht & E & Hr).
  assert (Hw : ut_wf g0).
  { unfold NewURLTestGroup in E. go_inv. split; cbn; [|done..|unfold maxDialFailures; lia].
    split; cbn; [intros t' h H; by apply lookup_empty_Some in H|]. unfold or_default. destruct (_ =? 0); lia. }
  clear E. induction Hr as [|g0 g1 g2 Hs _ IH]; [done|]. apply IH. by eapply ut_step_wf.
Qed.

(** A check is a sequence of steps. *)
Lemma apply_checks_steps l st : rtc ut_step st.1 (fold_left apply_check l st).1.
Proof.
  revert st. induction l as [|r l IH]; intros [g m]; cbn [fold_left]; [done|].
  eapply rtc_l; [apply (ut_checked r g m)|]. apply IH.
Qed.

Lemma apply_checks_selected l st network :
  selectedFor (fold_left apply_check l st).1 network = selectedFor st.1 network ∧
  ug_outbounds (fold_left apply_check l st).1 = ug_outbounds st.1.
Proof.
  revert st. induction l as [|r l IH]; intros st; cbn [fold_left]; [done|].
  destruct (IH (apply_check st r)) as [-> ->]. destruct st as [g m], r as [t [[[e a]|err] []]]; done.
Qed.

(** Whatever checks, dials and provider updates interleave, what the group has
    selected for a network is one of its members, its failed dials stay below the number
    that calls for a check, and every delay it keeps is of 16 bits and not zero, so a
    delay of zero is no member's and no sum with the tolerance wraps. *)
Theorem urltest_selected g :
  ut_reachable g →
  (∀ network o, group_network network → selectedFor g network = Some o → o ∈ ug_outbounds g) ∧
  0 <= df_count (ug_failures g) < maxDialFailures ∧
  (∀ t h, ug_history g !! t = Some h →
     1 <= hs_Delay h < 65536 ∧ u32 (hs_Delay h + ug_tolerance g) = hs_Delay h + ug_tolerance g).
Proof.
  intros [Hd Ht Hu Hf]%ut_reachable_wf. split; [|split; [done|]].
  - intros network o [->| ->] E; [by apply Ht|by apply Hu].
  - intros t h E. destruct Hd as [Hd Htol]. specialize (Hd t h E). split; [done|]. apply wrap_small. lia.
Qed.

(** C40 A check that runs to its end selects for TCP and for UDP: the selected member is
    slower by the tolerance at most than any member that has a delay; the member that was
    selected before is kept when it is, too; and there is a selection whenever a member
    serves the network. *)
Theorem urltest_fastest vw memberTag manager check now force g network :
  ut_reachable g → force || negb (ug_checking g) = true → group_network network →
  selects_fastest vw (selectedFor g network)
    (urlTest vw memberTag manager check now force false g).1 network.
Proof.
  intros Hr Hrun Hn. unfold urlTest. replace (negb force && ug_checking g) with false by (by destruct force, (ug_checking g)).
  set (l := (λ t, (t, check t)) <$> _).
  assert (Hs := apply_checks_steps l (g, ∅)).
  destruct (apply_checks_selected l (g, ∅) network) as [Hsel _].
  destruct (fold_left apply_check l (g, ∅)) as [g' result]. cbn in *. rewrite <- Hsel.
  apply performUpdateCheck_fastest; [done|]. apply uw_delays.
  destruct Hr as (os & sh & i & t & idle & ext & g0 & Ht & E & Hr). apply ut_reachable_wf.
  exists os, sh, i, t, idle, ext, g0. split; [done|]. split; [done|]. by etrans.
Qed.

(** ** A group of three members *)

Definition c_u1 : Outbound := MkOutbound 1 "trojan" "a" [] false false.
Definition c_u2 : Outbound := MkOutbound 2 "vless" "b" [] false false.
Definition c_u3 : Outbound := MkOutbound 3 "vless" "c" [] false false.
Definition c_view : View := MkView (λ _, ["tcp"; "udp"]%string) (λ o _, ob_Tag o).
Definition c_group0 : URLTestGroup :=
  match NewURLTestGroup [c_u1; c_u2; c_u3] ∅ 0 0 0 false with
  | Ok g => g
  | _ => MkURLTestGroup [] 0 0 0 ∅ ∅ false None None (MkInterruptGroup [] []) false None false false 0 noFailures false O
  end.
Definition c_manager (t : string) : option Outbound := List.find (λ o, bool_decide (ob_Tag o = t)) [c_u1; c_u2; c_u3].
(** The time a test takes, in milliseconds. *)
Definition c_check (a b : Z) (t : target) : checkAnswer :=
  MkCheckAnswer (if bool_decide (tg_tag t = "a"%string) then inl (a * 1000000, 7)
             else if bool_decide (tg_tag t = "b"%string) then inl (b * 1000000, 7) else inr (ENew "timeout")) false.
Definition c_group1 : URLTestGroup := (urlTest c_view ob_Tag c_manager (c_check 120 100) 7 true false c_group0).1.
Definition c_group2 : URLTestGroup := (urlTest c_view ob_Tag c_manager (c_check 120 60) 9 true false c_group1).1.

Lemma c_group0_reachable : ut_reachable c_group0.
Proof.
  exists [c_u1; c_u2; c_u3], ∅, 0, 0, 0, false, c_group0. split; [lia|]. split; [by vm_compute|done].
Qed.

Lemma urltest_selected_witness :
  ug_selectedTCP c_group0 = None ∧ 0 <= df_count (ug_failures c_group0) < maxDialFailures.
Proof.
  split; [by vm_compute|]. destruct (urltest_selected c_group0 c_group0_reachable) as (_ & H & _). exact H.
Defined.

(** The first member is selected, kept while the second is faster by no more than the
    tolerance, and then left. *)
Lemma urltest_fastest_witness :
  selects_fastest c_view None c_group1 "tcp" ∧
  ob_Tag <$> ug_selectedTCP c_group1 = Some "a"%string ∧ ob_Tag <$> ug_selectedTCP c_group2 = Some "b"%string.
Proof.
  split; [|split; by vm_compute].
  exact (urltest_fastest c_view ob_Tag c_manager (c_check 120 100) 7 true c_group0 "tcp"
           c_group0_reachable eq_refl (or_introl eq_refl)).
Defined.
