(* ===== verification/Fallback.v ===== *)
(** * The fallback group: protocol/group/fallback.go

    A group with members in the order of priority. It dials the first usable member and
    moves on when a dial fails; health checks decide which members are usable; a member
    can be pinned. Every critical section under [s.access] is a function on [Fallback];
    what the checks and dials answer, and the clock, are arguments. Logging is left
    out. *)
From stdpp Require Import base list gmap strings.
From S2P Require Import Prelude OutboundManager Group.

Definition defaultFallbackAttemptTimeout : Z := 5 * second.
Definition defaultFallbackStartupRetryCount : nat := 12.

Record fallbackGroup : Type := MkFallbackGroup {
  fg_outboundTags : list string;
  fg_providerTags : list string;
  fg_exclude : option Filter;
  fg_include : option Filter;
  fg_excludeTypes : gset string;
  fg_useAllProviders : bool;
}.

Record fallbackCandidate : Type := MkCandidate {
  fc_tag : string;
  fc_outbound : Outbound;
  fc_group : nat;
}.

Record fallbackHealth : Type := MkHealth {
  fh_outbound : Outbound;
  fh_checked : bool;
  fh_alive : bool;
  fh_failures : dialFailures;
}.

(** [f_cache] is what the cache file has for the group, absent without a cache file;
    [f_wake] is the channel of one pending check. *)
Record Fallback : Type := MkFallback {
  f_Tag : string;
  f_groups : list fallbackGroup;
  f_candidates : list fallbackCandidate;
  f_health : gmap string fallbackHealth;
  f_selected : string;
  f_fixed : string;
  f_cache : option string;
  f_interval : Z;
  f_timeout : Z;
  f_attemptTimeout : Z;
  f_idleTimeout : Z;
  f_interruptExternalConnections : bool;
  f_interruptGroup : InterruptGroup;
  f_lastActive : Z;
  f_wake : bool;
}.

Definition fset_selection (selected fixed : string) (cache : option string) (s : Fallback) : Fallback :=
  MkFallback (f_Tag s) (f_groups s) (f_candidates s) (f_health s) selected fixed cache
    (f_interval s) (f_timeout s) (f_attemptTimeout s) (f_idleTimeout s)
    (f_interruptExternalConnections s) (f_interruptGroup s) (f_lastActive s) (f_wake s).
Definition fset_members (candidates : list fallbackCandidate) (health : gmap string fallbackHealth)
    (s : Fallback) : Fallback :=
  MkFallback (f_Tag s) (f_groups s) candidates health (f_selected s) (f_fixed s) (f_cache s)
    (f_interval s) (f_timeout s) (f_attemptTimeout s) (f_idleTimeout s)
    (f_interruptExternalConnections s) (f_interruptGroup s) (f_lastActive s) (f_wake s).
Definition fset_groups (groups : list fallbackGroup) (s : Fallback) : Fallback :=
  MkFallback (f_Tag s) groups (f_candidates s) (f_health s) (f_selected s) (f_fixed s) (f_cache s)
    (f_interval s) (f_timeout s) (f_attemptTimeout s) (f_idleTimeout s)
    (f_interruptExternalConnections s) (f_interruptGroup s) (f_lastActive s) (f_wake s).
Definition fset_interruptGroup (g : InterruptGroup) (s : Fallback) : Fallback :=
  MkFallback (f_Tag s) (f_groups s) (f_candidates s) (f_health s) (f_selected s) (f_fixed s) (f_cache s)
    (f_interval s) (f_timeout s) (f_attemptTimeout s) (f_idleTimeout s)
    (f_interruptExternalConnections s) g (f_lastActive s) (f_wake s).
Definition fset_active (lastActive : Z) (wake : bool) (s : Fallback) : Fallback :=
  MkFallback (f_Tag s) (f_groups s) (f_candidates s) (f_health s) (f_selected s) (f_fixed s) (f_cache s)
    (f_interval s) (f_timeout s) (f_attemptTimeout s) (f_idleTimeout s)
    (f_interruptExternalConnections s) (f_interruptGroup s) lastActive wake.

(** ** Options *)

Record FallbackOutboundOptions : Type := MkFallbackOptions {
  fbo_common : GroupCommonOption;
  fbo_Groups : list GroupCommonOption;
  fbo_Interval : Z;
  fbo_Timeout : Z;
  fbo_AttemptTimeout : Z;
  fbo_ExpectedStatus : string;
  fbo_IdleTimeout : Z;
  fbo_InterruptExistConnections : bool;
}.

Definition new_group (lower : string → string) (o : GroupCommonOption) : fallbackGroup :=
  MkFallbackGroup (gco_Outbounds o) (gco_Providers o) (gco_Exclude o) (gco_Include o)
    (excludedOutboundTypes lower (gco_ExcludeTypes o)) (gco_UseAllProviders o).

Definition has_members (g : fallbackGroup) : bool :=
  has_items (fg_outboundTags g) || has_items (fg_providerTags g) || fg_useAllProviders g.

(** [now] is the time of the creation, [cache] whether there is a cache file and what it
    has. The expected status is checked by [ParseExpectedStatus]. *)
Definition NewFallback (lower : string → string) (now : Z) (cache : option string) (tag : string)
    (options : FallbackOutboundOptions) : result (Fallback * ExpectedStatus) :=
  let c := fbo_common options in
  _ ← guard_err (has_items (fbo_Groups options)
        && (has_items (gco_Outbounds c) || has_items (gco_Providers c) || gco_UseAllProviders c
            || is_set (gco_Include c) || is_set (gco_Exclude c)))
        (ENew "fallback groups cannot be combined with top-level members");
  let groupOptions := if has_items (fbo_Groups options) then fbo_Groups options else [c] in
  let groups := new_group lower <$> groupOptions in
  _ ← guard_err (negb (existsb has_members groups)) (ENew "missing fallback members");
  let interval := or_default (fbo_Interval options) (300 * second) in
  let timeout := or_default (fbo_Timeout options) (5 * second) in
  let idleTimeout := or_default (fbo_IdleTimeout options) interval in
  _ ← guard_err ((interval <=? 0) || (timeout <=? 0) || (idleTimeout <=? 0))
        (ENew "fallback durations must be positive");
  _ ← guard_err (idleTimeout <? interval)
        (ENew "fallback interval must be less or equal than idle_timeout");
  let attemptTimeout := or_default (fbo_AttemptTimeout options) defaultFallbackAttemptTimeout in
  _ ← guard_err (attemptTimeout <? 0) (ENew "fallback attempt_timeout must be positive");
  expectedStatus ← map_err (λ e, ECause e "invalid fallback expected_status")
                     (ParseExpectedStatus (fbo_ExpectedStatus options));
  Ok (MkFallback tag groups [] ∅ "" "" cache interval timeout attemptTimeout idleTimeout
        (fbo_InterruptExistConnections options) (MkInterruptGroup [] []) now false, expectedStatus).

(** ** Selection *)

Definition health_of (s : Fallback) (tag : string) : fallbackHealth :=
  default (MkHealth (MkOutbound 1 "" "" [] false false) false false noFailures) (f_health s !! tag).

Definition usableLocked (s : Fallback) (c : fallbackCandidate) : bool :=
  negb (fh_checked (health_of s (fc_tag c))) || fh_alive (health_of s (fc_tag c)).

(** What the cache file has after [storeFixed]. *)
Definition storeFixed (tag : string) (s : Fallback) : option string :=
  if negb (nonempty (f_Tag s)) then f_cache s
  else match f_cache s with Some _ => Some tag | None => None end.

Definition clearFixedLocked (s : Fallback) : Fallback :=
  if negb (nonempty (f_fixed s)) then s
  else fset_selection (f_selected s) "" (storeFixed "" s) s.

(** The tag of the first usable member, of the first one, or nothing. *)
Definition first_available (s : Fallback) : string :=
  match List.find (usableLocked s) (f_candidates s) with
  | Some c => fc_tag c
  | None => match f_candidates s with c :: _ => fc_tag c | [] => ""%string end
  end.

Definition selectAvailableLocked (s : Fallback) : Fallback * string :=
  if nonempty (f_fixed s) then
    match List.find (λ c, bool_decide (fc_tag c = f_fixed s)) (f_candidates s) with
    | Some c =>
        if usableLocked s c then (s, fc_tag c)
        else
          let s := if existsb (usableLocked s) (f_candidates s) then clearFixedLocked s else s in
          (s, first_available s)
    | None => (s, first_available s)
    end
  else (s, first_available s).

(** [s.selected = s.selectAvailableLocked()], and [interruptSelection] after it. *)
Definition reselect (s : Fallback) : Fallback :=
  let oldSelected := f_selected s in
  let '(s, newSelected) := selectAvailableLocked s in
  let s := fset_selection newSelected (f_fixed s) (f_cache s) s in
  if negb (nonempty oldSelected) || bool_decide (oldSelected = newSelected) then s
  else fset_interruptGroup (Interrupt (f_interruptExternalConnections s) (f_interruptGroup s)) s.

(** ** Members *)

Section fallback.
Context (mb : Members).

Fixpoint own_members (group : nat) (tags : list string) (l : list fallbackCandidate)
    : result (list fallbackCandidate) :=
  match tags with
  | [] => Ok l
  | tag :: tags =>
      if mem tag (fc_tag <$> l) then own_members group tags l
      else match mb_Outbound mb tag with
      | None => Err (ENew ("fallback outbound not found: " +:+ tag)%string)
      | Some detour => own_members group tags (l ++ [MkCandidate tag detour group])
      end
  end.

Definition passes (g : fallbackGroup) (providerTag : string) (detour : Outbound) : bool :=
  memberAllowed (fg_excludeTypes g) (fg_exclude g) (fg_include g) providerTag detour.

Definition provider_member (g : fallbackGroup) (group : nat) (providerTag : string)
    (l : list fallbackCandidate) (detour : Outbound) : list fallbackCandidate :=
  if mem (ob_Tag detour) (fc_tag <$> l) || negb (passes g providerTag detour) then l
  else l ++ [MkCandidate (ob_Tag detour) detour group].

Definition provider_members (g : fallbackGroup) (group : nat) (l : list fallbackCandidate)
    : list fallbackCandidate :=
  fold_left (λ l providerTag,
      fold_left (provider_member g group providerTag) (mb_Provider mb providerTag) l)
    (fg_providerTags g) l.

Fixpoint collect_members (group : nat) (groups : list fallbackGroup) (l : list fallbackCandidate)
    : result (list fallbackCandidate) :=
  match groups with
  | [] => Ok l
  | g :: groups =>
      l ← own_members group (fg_outboundTags g) l;
      collect_members (S group) groups (provider_members g group l)
  end.

(** The health of a member is kept while it is the same outbound. *)
Definition kept_health (old : gmap string fallbackHealth) (c : fallbackCandidate) : fallbackHealth :=
  match old !! fc_tag c with
  | Some state =>
      if same (fh_outbound state) (fc_outbound c) then state
      else MkHealth (fc_outbound c) false false noFailures
  | None => MkHealth (fc_outbound c) false false noFailures
  end.

Definition rebuildCandidates (s : Fallback) : result Fallback :=
  candidates ← collect_members 0 (f_groups s) [];
  let health := fold_left (λ m c, <[fc_tag c := kept_health (f_health s) c]> m) candidates ∅ in
  Ok (reselect (fset_members candidates health s)).

(** [start]: the providers of the groups, the pin of the cache file. The last argument is
    [None] without a provider manager. *)
Definition use_all (all : list string) (g : fallbackGroup) : fallbackGroup :=
  if fg_useAllProviders g
  then MkFallbackGroup (fg_outboundTags g) all (fg_exclude g) (fg_include g) (fg_excludeTypes g)
         (fg_useAllProviders g)
  else g.

Definition Fallback_start (providers : option (list string)) (s : Fallback) : result Fallback :=
  _ ← guard_err (existsb fg_useAllProviders (f_groups s) && negb (is_set providers))
        (ENew "outbound provider manager unavailable");
  let groups := use_all (default [] providers) <$> f_groups s in
  let tags := groups ≫= fg_providerTags in
  _ ← guard_err (has_items tags && negb (is_set providers))
        (ENew "outbound provider manager unavailable");
  match filter (λ t, t ∉ default [] providers) tags with
  | tag :: _ => Err (ENew ("outbound provider not found: " +:+ tag)%string)
  | [] =>
      let s := fset_groups groups s in
      let s := if nonempty (f_Tag s)
               then match f_cache s with
                    | Some fixed => fset_selection (f_selected s) fixed (f_cache s) s
                    | None => s
                    end
               else s in
      rebuildCandidates s
  end.

(** ** Dialing *)

(** The members of a dial, in its order: the pinned one, the usable ones, and the first
    that is not usable. *)
Definition candidatesForNetwork (network : string) (s : Fallback) : list fallbackCandidate :=
  let serves := filter (λ c, network ∈ mb_Network mb (fc_outbound c)) (f_candidates s) in
  let is_pinned c := nonempty (f_fixed s) && bool_decide (fc_tag c = f_fixed s) in
  filter (λ c, usableLocked s c && is_pinned c = true) serves
  ++ filter (λ c, usableLocked s c && negb (is_pinned c) = true) serves
  ++ take 1 (filter (λ c, usableLocked s c = false) serves).

(** [Selected]: the member a dial tries first. *)
Definition Fallback_Selected (network : string) (s : Fallback) : option Outbound :=
  fc_outbound <$> head (candidatesForNetwork network s).
End fallback.

Definition Fallback_All (s : Fallback) : list string := fc_tag <$> f_candidates s.

Definition candidateActive (s : Fallback) (c : fallbackCandidate) : bool :=
  match f_health s !! fc_tag c with
  | Some state => same (fh_outbound state) (fc_outbound c)
  | None => false
  end.

Definition requestCheck (s : Fallback) : Fallback := fset_active (f_lastActive s) true s.

Definition Fallback_touch (now : Z) (s : Fallback) : Fallback :=
  let wasIdle := f_idleTimeout s <? now - f_lastActive s in
  let s := fset_active now (f_wake s) s in
  if wasIdle then requestCheck s else s.

(** A change of the health of a member that is still the same outbound. *)
Definition on_health (c : fallbackCandidate) (f : fallbackHealth → fallbackHealth) (s : Fallback)
    : Fallback :=
  match f_health s !! fc_tag c with
  | Some state =>
      if same (fh_outbound state) (fc_outbound c)
      then fset_members (f_candidates s) (<[fc_tag c := f state]> (f_health s)) s
      else s
  | None => s
  end.

Definition hset_failures (v : dialFailures) (h : fallbackHealth) : fallbackHealth :=
  MkHealth (fh_outbound h) (fh_checked h) (fh_alive h) v.

Definition recordDialSuccess (c : fallbackCandidate) (s : Fallback) : Fallback :=
  on_health c (hset_failures noFailures) s.

Definition recordDialFailure (now : Z) (c : fallbackCandidate) (err : error) (s : Fallback) : Fallback :=
  if negb (countableDialFailure (fc_outbound c) err) then s
  else if negb (candidateActive s c) then s
  else
    let '(failures, check) := dialFailures_add now err (fh_failures (health_of s (fc_tag c))) in
    let s := on_health c (hset_failures failures) s in
    if check : bool then requestCheck s else s.

(** The timeout of an attempt: [remaining] is the time to the deadline of the caller. *)
Definition attempt_timeout (attemptTimeout : Z) (remaining : option Z) (candidateCount : Z) : Z :=
  match remaining with
  | Some remaining =>
      if (0 <? candidateCount) && (remaining `quot` candidateCount <? attemptTimeout)
      then remaining `quot` candidateCount else attemptTimeout
  | None => attemptTimeout
  end.

(** What an attempt meets: a connection and whether it still has to complete its
    handshake, or an error; the timeout, when the attempt timed out; the error of the caller's
    context when it failed; the clock. *)
Record attempt : Type := MkAttempt {
  at_result : (nat * bool) + error;
  at_timedOut : option string;
  at_ctxErr : option error;
  at_now : Z;
}.

Definition attempt_fail (a : attempt) (err : error) : error :=
  match at_timedOut a with
  | Some timeout => ENew ("attempt timed out after " +:+ timeout)%string
  | None => err
  end.

Record dialed : Type := MkDialed {
  dd_conn : nat;
  dd_handshake : bool;
  dd_candidate : fallbackCandidate;
  dd_remaining : list fallbackCandidate;
}.

(** [dialCandidates]; [world c] is what the attempt with [c] meets, and the list has the
    members that were dialed. The dial is one step of the group: in the code an update of
    the members may come between two attempts, and a candidate that has gone is then
    skipped, as it is here in a state without it. *)
Fixpoint dial_loop (world : fallbackCandidate → attempt) (lastError : option error)
    (candidates : list fallbackCandidate) (s : Fallback)
    : Fallback * list fallbackCandidate * (dialed + error) :=
  match candidates with
  | [] => (s, [], inr (default (ENew "no available fallback outbounds") lastError))
  | c :: candidates =>
      if negb (candidateActive s c) then dial_loop world lastError candidates s
      else
        let a := world c in
        match at_result a with
        | inl (conn, handshake) =>
            let s := if handshake : bool then s else recordDialSuccess c s in
            (s, [c], inl (MkDialed conn handshake c candidates))
        | inr err =>
            let err := attempt_fail a err in
            match at_ctxErr a with
            | Some e => (s, [c], inr e)
            | None =>
                let s := recordDialFailure (at_now a) c err s in
                let '(s, l, r) := dial_loop world (Some err) candidates s in
                (s, c :: l, r)
            end
        end
  end.

Definition dialCandidates (world : fallbackCandidate → attempt)
    (candidates : list fallbackCandidate) (s : Fallback)
    : Fallback * list fallbackCandidate * (dialed + error) :=
  dial_loop world None candidates s.

(** The connection of a dial, [isExternal] from the context of the caller; one that has
    to complete its handshake is a [fallbackEarlyConn], which can still move on. *)
Definition Fallback_DialContext (mb : Members) (world : fallbackCandidate → attempt) (now : Z)
    (network : string) (isExternal : bool) (s : Fallback)
    : Fallback * list fallbackCandidate * (dialed + error) :=
  let s := Fallback_touch now s in
  let '(s, l, r) := dialCandidates world (candidatesForNetwork mb network s) s in
  match r with
  | inl d => (fset_interruptGroup (Group_Add (dd_conn d) isExternal (f_interruptGroup s)) s, l, r)
  | inr _ => (s, l, r)
  end.

(** The loop of [ListenPacket]; a packet connection has no handshake to complete. *)
Fixpoint listen_loop (world : fallbackCandidate → attempt) (lastError : option error)
    (candidates : list fallbackCandidate) (s : Fallback)
    : Fallback * list fallbackCandidate * (nat + error) :=
  match candidates with
  | [] => (s, [], inr (default (ENew "no available fallback outbounds") lastError))
  | c :: candidates =>
      if negb (candidateActive s c) then listen_loop world lastError candidates s
      else
        let a := world c in
        match at_result a with
        | inl (conn, _) => (recordDialSuccess c s, [c], inl conn)
        | inr err =>
            let err := attempt_fail a err in
            match at_ctxErr a with
            | Some e => (s, [c], inr e)
            | None =>
                let s := recordDialFailure (at_now a) c err s in
                let '(s, l, r) := listen_loop world (Some err) candidates s in
                (s, c :: l, r)
            end
        end
  end.

Definition Fallback_ListenPacket (mb : Members) (world : fallbackCandidate → attempt) (now : Z)
    (isExternal : bool) (s : Fallback) : Fallback * list fallbackCandidate * (nat + error) :=
  let s := Fallback_touch now s in
  let '(s, l, r) := listen_loop world None (candidatesForNetwork mb "udp" s) s in
  match r with
  | inl conn => (fset_interruptGroup (Group_Add conn isExternal (f_interruptGroup s)) s, l, r)
  | inr _ => (s, l, r)
  end.

(** [AttachConnection] *)
Definition Fallback_AttachConnection (conn : nat) (s : Fallback) : Fallback :=
  fset_interruptGroup (Group_Add conn true (f_interruptGroup s)) s.

(** ** A connection that completes its handshake with the first write *)

Record fallbackEarlyConn : Type := MkEarlyConn {
  ec_conn : nat;
  ec_candidate : fallbackCandidate;
  ec_remaining : list fallbackCandidate;
  ec_pending : bool;
}.

(** What a write meets: the bytes written, an error and what the attempt meets then. *)
Record written : Type := MkWritten {
  wr_n : Z;
  wr_err : option error;
  wr_attempt : attempt;
}.

(** The loop of [Write]; the list has the members written to and the bytes each took.
    [None] when the fuel is used up. *)
Fixpoint early_Write (fuel : nat) (writes : fallbackCandidate → written)
    (world : fallbackCandidate → attempt) (c : fallbackEarlyConn) (s : Fallback)
    : option (Fallback * fallbackEarlyConn * list (string * Z) * (Z * option error)) :=
  match fuel with
  | O => None
  | S fuel =>
      let w := writes (ec_candidate c) in
      let event := (fc_tag (ec_candidate c), wr_n w) in
      let settled := MkEarlyConn (ec_conn c) (ec_candidate c) (ec_remaining c) false in
      match wr_err w with
      | None => Some (recordDialSuccess (ec_candidate c) s, settled, [event], (wr_n w, None))
      | Some err =>
          let err := attempt_fail (wr_attempt w) err in
          let s := recordDialFailure (at_now (wr_attempt w)) (ec_candidate c) err s in
          if (0 <? wr_n w) || is_set (at_ctxErr (wr_attempt w)) || negb (has_items (ec_remaining c))
          then Some (s, settled, [event], (wr_n w, Some err))
          else
            match dialCandidates world (ec_remaining c) s with
            | (s, _, inr dialErr) => Some (s, settled, [event], (0, Some dialErr))
            | (s, _, inl d) =>
                '(s, c, l, r) ← early_Write fuel writes world
                  (MkEarlyConn (dd_conn d) (dd_candidate d) (dd_remaining d) true) s;
                Some (s, c, event :: l, r)
            end
      end
  end.

(** [Write]: a connection whose handshake is complete is written to directly. *)
Definition fallbackEarlyConn_Write (fuel : nat) (writes : fallbackCandidate → written)
    (world : fallbackCandidate → attempt) (c : fallbackEarlyConn) (s : Fallback)
    : option (Fallback * fallbackEarlyConn * list (string * Z) * (Z * option error)) :=
  if negb (ec_pending c) then
    let w := writes (ec_candidate c) in
    Some (s, c, [(fc_tag (ec_candidate c), wr_n w)], (wr_n w, wr_err w))
  else early_Write fuel writes world c s.

(** ** Health checks *)

(** What [coordinator.Check] answered for a member. *)
Record checkResult : Type := MkCheckResult {
  cr_candidate : fallbackCandidate;
  cr_delay : Z;
  cr_at : Z;
  cr_err : option error;
}.

Definition hset_checked (alive : bool) (h : fallbackHealth) : fallbackHealth :=
  MkHealth (fh_outbound h) true alive noFailures.

(** One result; [memberTag] is [MemberTag], [ctxDone] whether the caller's time is up. *)
Definition apply_result (memberTag : Outbound → string) (ctxDone : bool)
    (st : Fallback * HistoryStorage * gmap string Z) (r : checkResult)
    : Fallback * HistoryStorage * gmap string Z :=
  let '(s, history, results) := st in
  let c := cr_candidate r in
  if is_set (cr_err r) && ctxDone then st
  else if negb (candidateActive s c) then st
  else
    let s := on_health c (hset_checked (negb (is_set (cr_err r)))) s in
    let tag := memberTag (fc_outbound c) in
    match cr_err r with
    | None => (s, StoreURLTestHistory tag (MkHistory (cr_at r) (cr_delay r)) history,
               <[fc_tag c := cr_delay r]> results)
    | Some _ => (s, DeleteURLTestHistory tag history, results)
    end.

(** The critical section of [checkCandidates], which applies the results. *)
Definition apply_results (memberTag : Outbound → string) (ctxDone : bool) (results : list checkResult)
    (s : Fallback) (history : HistoryStorage) : Fallback * HistoryStorage * gmap string Z :=
  let '(s, history, resultMap) :=
    fold_left (apply_result memberTag ctxDone) results (s, history, ∅) in
  (reselect s, history, resultMap).

(** [check] is [coordinator.Check], [byTest] is [selectedByTest]. *)
Definition checkCandidates (memberTag : Outbound → string) (byTest : Outbound → bool)
    (check : fallbackCandidate → checkResult) (ctxDone : bool)
    (candidates : list fallbackCandidate) (s : Fallback) (history : HistoryStorage)
    : Fallback * HistoryStorage * gmap string Z :=
  apply_results memberTag ctxDone
    (check <$> filter (λ c, byTest (fc_outbound c) = true) candidates) s history.

(** The members of a check repeated after the start. *)
Definition startupRetryCandidates (s : Fallback) : list fallbackCandidate :=
  match f_candidates s with
  | [] => []
  | first :: _ =>
      if existsb (λ c, fh_checked (health_of s (fc_tag c)) && fh_alive (health_of s (fc_tag c)))
           (f_candidates s)
      then (if usableLocked s first then [] else [first])
           ++ filter (λ c, fh_checked (health_of s (fc_tag c)) = false) (f_candidates s)
      else f_candidates s
  end.

(** [checkOutbounds], and [URLTest], which also returns the delays. *)
Definition checkOutbounds (memberTag : Outbound → string) (byTest : Outbound → bool)
    (check : fallbackCandidate → checkResult) (ctxDone : bool) (s : Fallback)
    (history : HistoryStorage) : Fallback * HistoryStorage * gmap string Z :=
  checkCandidates memberTag byTest check ctxDone (f_candidates s) s history.

(** What happens in the rounds of [startupRetry]: whether the group is closed while the
    timer runs, what else changes the group meanwhile, what the checks answer. *)
Record retryRound : Type := MkRetryRound {
  rr_closed : bool;
  rr_meanwhile : Fallback → Fallback;
  rr_check : fallbackCandidate → checkResult;
  rr_ctxDone : bool;
}.

(** [rounds] are [defaultFallbackStartupRetryCount] at most; the number is of the checks
    that were made. *)
Fixpoint startupRetry (memberTag : Outbound → string) (byTest : Outbound → bool)
    (rounds : list retryRound) (s : Fallback) (history : HistoryStorage)
    : Fallback * HistoryStorage * nat :=
  match rounds with
  | [] => (s, history, O)
  | round :: rounds =>
      if negb (has_items (startupRetryCandidates s)) || rr_closed round then (s, history, O)
      else
        let s := rr_meanwhile round s in
        let candidates := startupRetryCandidates s in
        if negb (has_items candidates) then (s, history, O)
        else
          let '(s, history, _) :=
            checkCandidates memberTag byTest (rr_check round) (rr_ctxDone round) candidates s history in
          let '(s, history, n) := startupRetry memberTag byTest rounds s history in
          (s, history, S n)
  end.

(** A tick of [loopCheck] checks unless the group has been idle. *)
Definition loopCheck_active (now : Z) (s : Fallback) : bool := now - f_lastActive s <=? f_idleTimeout s.

Definition Fallback_onProviderUpdated (mb : Members) (s : Fallback) : result Fallback :=
  s ← rebuildCandidates mb s;
  Ok (requestCheck s).

(** [Groups]: the tags of each group. *)
Definition Fallback_Groups (s : Fallback) : list (list string) :=
  imap (λ i _, fc_tag <$> filter (λ c, fc_group c = i) (f_candidates s)) (f_groups s).

(** ** Pinning *)

(** The second critical section of [SelectOutbound]. *)
Definition select_commit (tag : string) (s : Fallback) : Fallback * bool :=
  if nonempty tag && negb (mem tag (Fallback_All s)) then (s, false)
  else if bool_decide (f_fixed s = tag) then (s, true)
  else (reselect (fset_selection (f_selected s) tag (storeFixed tag s) s), true).

Definition Fallback_SelectOutbound (memberTag : Outbound → string) (byTest : Outbound → bool)
    (check : fallbackCandidate → checkResult) (ctxDone : bool) (tag : string) (s : Fallback)
    (history : HistoryStorage) : Fallback * HistoryStorage * bool :=
  if nonempty tag then
    match List.find (λ c, bool_decide (fc_tag c = tag)) (f_candidates s) with
    | None => (s, history, false)
    | Some c =>
        let '(s, history) :=
          if usableLocked s c then (s, history)
          else let '(s, history, _) := checkCandidates memberTag byTest check ctxDone [c] s history in
               (s, history) in
        let '(s, ok) := select_commit tag s in (s, history, ok)
    end
  else let '(s, ok) := select_commit tag s in (s, history, ok).
