(* ===== verification/FallbackTheorems.v ===== *)
(** * The fallback group: the theorems

    Selection over every interleaving, the order of a dial, what a dial returns, writes
    that complete a handshake, and the time every member gets. *)
From stdpp Require Import base list gmap strings.
From S2P Require Import Prelude OutboundManager OutboundFacts Group Fallback FallbackFacts.

(** ** Every interleaving of the critical sections *)

Inductive fb_step : Fallback → Fallback → Prop :=
| step_rebuild mb s s' : rebuildCandidates mb s = Ok s' → fb_step s s'
| step_results memberTag ctxDone results s history :
    fb_step s (apply_results memberTag ctxDone results s history).1.1
| step_select tag s : fb_step s (select_commit tag s).1
| step_success c s : fb_step s (recordDialSuccess c s)
| step_failure now c err s : fb_step s (recordDialFailure now c err s)
| step_touch now s : fb_step s (Fallback_touch now s)
| step_request s : fb_step s (requestCheck s)
| step_woken s : fb_step s (fset_active (f_lastActive s) false s)
| step_connections g s : fb_step s (fset_interruptGroup g s).

(** What a group goes through from its start. *)
Definition fb_reachable (s : Fallback) : Prop :=
  ∃ lower now cache tag options s0 st mb providers s1,
    NewFallback lower now cache tag options = Ok (s0, st) ∧
    Fallback_start mb providers s0 = Ok s1 ∧ rtc fb_step s1 s.

Lemma NewFallback_wf lower now cache tag options s st :
  NewFallback lower now cache tag options = Ok (s, st) → fb_wf s.
Proof.
  unfold NewFallback. intros E. go_inv. split; cbn; try done.
  - apply NoDup_nil_2.
  - intros c []%elem_of_nil.
  - intros t [h Hh]. by rewrite lookup_empty in Hh.
Qed.

Lemma Fallback_start_spec mb providers s s' :
  fb_wf s → Fallback_start mb providers s = Ok s' → fb_wf s' ∧ settled_selection s'.
Proof.
  unfold Fallback_start. intros Hs E. go_inv.
  destruct (filter _ _); [|done].
  match type of E with rebuildCandidates _ ?x = _ =>
    assert (Hx : fb_wf x) by (destruct Hs; repeat case_match; by split) end.
  by eapply rebuildCandidates_spec.
Qed.

Lemma apply_result_wf memberTag ctxDone st r :
  fb_wf st.1.1 → fb_wf (apply_result memberTag ctxDone st r).1.1.
Proof.
  destruct st as [[s history] results]. cbn. intros Hs.
  destruct (is_set (cr_err r) && ctxDone); [done|]. destruct (negb _); [done|].
  assert (Hw : fb_wf (on_health (cr_candidate r) (hset_checked (negb (is_set (cr_err r)))) s)).
  { apply on_health_wf; [|done]. intros h _. split; [done|]. cbn. unfold maxDialFailures. lia. }
  by destruct (cr_err r).
Qed.

Lemma apply_results_spec memberTag ctxDone results s history :
  fb_wf s →
  let s' := (apply_results memberTag ctxDone results s history).1.1 in
  fb_wf s' ∧ settled_selection s'.
Proof.
  intros Hs. unfold apply_results.
  assert (H : ∀ st, fb_wf st.1.1 → fb_wf (fold_left (apply_result memberTag ctxDone) results st).1.1).
  { induction results as [|r results IH]; intros st Hst; [done|]. by apply IH, apply_result_wf. }
  specialize (H (s, history, ∅) Hs).
  destruct (fold_left _ results _) as [[s1 h1] m1]. cbn in *.
  destruct (reselect_spec s1) as (H1 & H2 & H3 & _). split; [by eapply wf_same|done].
Qed.

Lemma select_commit_spec tag s :
  fb_wf s → settled_selection s →
  fb_wf (select_commit tag s).1 ∧ settled_selection (select_commit tag s).1.
Proof.
  intros Hs Hset. unfold select_commit.
  destruct (nonempty tag && _); [done|]. case_bool_decide; [done|]. cbn.
  destruct (reselect_spec (fset_selection (f_selected s) tag (storeFixed tag s) s)) as (H1 & H2 & H3 & _).
  split; [by apply (wf_same s)|done].
Qed.

Lemma fb_step_keeps s s' :
  fb_step s s' → fb_wf s ∧ settled_selection s → fb_wf s' ∧ settled_selection s'.
Proof.
  intros Hst [Hw Hs]. destruct Hst as [mb s s' E|m d r s h|tag s|c s|now c err s|now s|s|s|g s].
  - by eapply rebuildCandidates_spec.
  - by apply apply_results_spec.
  - by apply select_commit_spec.
  - split; [apply on_health_wf; [|done]|].
    + intros h Hh. split; [done|]. cbn. unfold maxDialFailures. lia.
    + eapply settled_alike; [apply on_health_failures_alike|apply on_health_same|done].
  - apply (recordDialFailure_spec now c err) in Hw as (H1 & H2 & _). auto.
  - assert (Ha : alike s (Fallback_touch now s)).
    { unfold Fallback_touch. destruct (_ <? _); by apply alike_health. }
    split; [apply (wf_same s); [unfold Fallback_touch; by destruct (_ <? _)..|done]|].
    eapply settled_alike; [done| |done]. unfold Fallback_touch. by destruct (_ <? _).
  - by split; [apply (wf_same s)|apply (settled_alike s); [apply alike_health|..]].
  - by split; [apply (wf_same s)|apply (settled_alike s); [apply alike_health|..]].
  - by split; [apply (wf_same s)|apply (settled_alike s); [apply alike_health|..]].
Qed.

Lemma fb_reachable_ok s : fb_reachable s → fb_wf s ∧ settled_selection s.
Proof.
  intros (lower & now & cache & tag & options & s0 & st & mb & providers & s1 & E0 & E1 & Hr).
  apply NewFallback_wf in E0. apply Fallback_start_spec in E1; [|done].
  clear E0. induction Hr as [|s2 s3 s4 Hst _ IH]; [done|]. apply IH. by eapply fb_step_keeps.
Qed.

(** The first usable member, or the first member of a group without one. *)
Definition first_choice (s : Fallback) (tag : string) : Prop :=
  (∃ l1 c l2, f_candidates s = l1 ++ c :: l2 ∧ tag = fc_tag c ∧ usableLocked s c = true ∧
     ∀ c', c' ∈ l1 → usableLocked s c' = false) ∨
  ((∀ c, c ∈ f_candidates s → usableLocked s c = false) ∧
   tag = default ""%string (fc_tag <$> head (f_candidates s))).

Lemma find_split {A} (f : A → bool) l x :
  List.find f l = Some x → ∃ l1 l2, l = l1 ++ x :: l2 ∧ f x = true ∧ ∀ y, y ∈ l1 → f y = false.
Proof.
  induction l as [|y l IH]; cbn; [done|]. destruct (f y) eqn:E.
  - intros [= <-]. exists [], l. split; [done|]. split; [done|]. intros z []%elem_of_nil.
  - intros (l1 & l2 & -> & Hx & Hl)%IH. exists (y :: l1), l2. split; [done|]. split; [done|].
    intros z [->|Hz]%elem_of_cons; auto.
Qed.

Lemma first_available_choice s : first_choice s (first_available s).
Proof.
  unfold first_available. destruct (List.find _ _) as [c|] eqn:E.
  - left. apply find_split in E as (l1 & l2 & E & Hu & Hl). by exists l1, c, l2.
  - right. split; [|by destruct (f_candidates s)].
    intros c Hc. apply list_elem_of_In in Hc. by apply (List.find_none _ _ E).
Qed.

(** C36 Whatever checks, dials, provider updates and pins interleave, the group reports
    as selected the pinned member while it is a usable member, and otherwise the first
    usable member, or the first one when none is usable; and a pin whose member is down
    is kept only while no member is usable. *)
Theorem fallback_selection s :
  fb_reachable s →
  (∀ c, c ∈ f_candidates s → nonempty (f_fixed s) = true → fc_tag c = f_fixed s →
     (usableLocked s c = true → f_selected s = f_fixed s) ∧
     (usableLocked s c = false → ∀ c', c' ∈ f_candidates s → usableLocked s c' = false)) ∧
  ((∀ c, c ∈ f_candidates s → nonempty (f_fixed s) = true → fc_tag c = f_fixed s →
      usableLocked s c = false) → first_choice s (f_selected s)).
Proof.
  intros [Hw Hs]%fb_reachable_ok. destruct (settled_selection_spec s (fw_tags _ Hw) Hs) as [H1 H2].
  split; [done|]. intros Hno. rewrite (H2 Hno). apply first_available_choice.
Qed.

(** ** The order of a dial *)

Definition is_pinned (s : Fallback) (c : fallbackCandidate) : bool :=
  nonempty (f_fixed s) && bool_decide (fc_tag c = f_fixed s).

Lemma filter_none {A} (P : A → Prop) `{∀ x, Decision (P x)} l :
  (∀ x, x ∈ l → ¬ P x) → filter P l = [].
Proof.
  intros Hl. destruct (filter P l) as [|x l'] eqn:E; [done|].
  assert (Hx : x ∈ filter P l) by (rewrite E; by left).
  apply list_elem_of_filter in Hx as [??]. by destruct (Hl x).
Qed.

Lemma head_filter_split {A} (P : A → Prop) `{∀ x, Decision (P x)} l1 x l2 :
  (∀ y, y ∈ l1 → ¬ P y) → P x → head (filter P (l1 ++ x :: l2)) = Some x.
Proof. intros Hl Hx. by rewrite filter_app, filter_none, filter_cons_True. Qed.

Lemma head_app {A} (l l' : list A) x : head l = Some x → head (l ++ l') = Some x.
Proof. by destruct l. Qed.

Section order.
Context (mb : Members) (network : string) (s : Fallback) (Hw : fb_wf s) (Hs : settled_selection s).

Let serves := filter (λ c, network ∈ mb_Network mb (fc_outbound c)) (f_candidates s).

Lemma candidates_eq :
  candidatesForNetwork mb network s =
    filter (λ c, usableLocked s c && is_pinned s c = true) serves
    ++ filter (λ c, usableLocked s c && negb (is_pinned s c) = true) serves
    ++ take 1 (filter (λ c, usableLocked s c = false) serves).
Proof. done. Qed.

Lemma serves_spec c : c ∈ serves ↔ c ∈ f_candidates s ∧ network ∈ mb_Network mb (fc_outbound c).
Proof. unfold serves. rewrite list_elem_of_filter. tauto. Qed.

Lemma serves_NoDup : NoDup serves.
Proof.
  eapply sublist_NoDup; [eapply NoDup_fmap_1, Hw|apply sublist_filter].
Qed.

Lemma candidates_member c : c ∈ candidatesForNetwork mb network s → c ∈ serves.
Proof.
  rewrite candidates_eq, !elem_of_app, !list_elem_of_filter.
  intros [[_ ?]|[[_ ?]|H]]; [done..|]. apply elem_of_take in H as (i & Hi & _).
  by apply list_elem_of_lookup_2, list_elem_of_filter in Hi as [_ ?].
Qed.

Lemma candidates_NoDup : NoDup (fc_tag <$> candidatesForNetwork mb network s).
Proof.
  apply NoDup_fmap_2_strong.
  - intros c c' [Hc _]%candidates_member%serves_spec [Hc' _]%candidates_member%serves_spec.
    apply (fmap_NoDup_inj fc_tag (f_candidates s)); [apply Hw|done..].
  - rewrite candidates_eq. apply NoDup_app. split; [apply NoDup_filter, serves_NoDup|].
    assert (Htake : ∀ c, c ∈ take 1 (filter (λ c, usableLocked s c = false) serves) → usableLocked s c = false).
    { intros c (i & Hi & _)%elem_of_take. by apply list_elem_of_lookup_2, list_elem_of_filter in Hi as [? _]. }
    split.
    + intros c [Hc _]%list_elem_of_filter [[Hc' _]%list_elem_of_filter|Hc'%Htake]%elem_of_app.
      * apply andb_true_iff in Hc as [_ Hc], Hc' as [_ Hc']. by rewrite Hc in Hc'.
      * by rewrite Hc' in Hc.
    + apply NoDup_app. split; [apply NoDup_filter, serves_NoDup|]. split.
      * intros c [Hc _]%list_elem_of_filter Hc'%Htake. by rewrite Hc' in Hc.
      * eapply sublist_NoDup; [|apply sublist_take]. apply NoDup_filter, serves_NoDup.
Qed.

Lemma candidates_usable c :
  usableLocked s c = true → c ∈ candidatesForNetwork mb network s ↔ c ∈ serves.
Proof.
  intros Hu. split; [apply candidates_member|]. intros Hc.
  rewrite candidates_eq, !elem_of_app, !list_elem_of_filter, Hu.
  destruct (is_pinned s c); cbn; auto.
Qed.

Lemma candidates_down :
  (length (filter (λ c, usableLocked s c = false) (candidatesForNetwork mb network s)) <= 1)%nat.
Proof.
  rewrite candidates_eq, !filter_app.
  assert (H : ∀ (P : fallbackCandidate → bool) l,
    filter (λ c, usableLocked s c = false) (filter (λ c, usableLocked s c && P c = true) l) = []).
  { intros P l. rewrite list_filter_filter. apply filter_none. intros c _ [E1 E2].
    by rewrite E1 in E2. }
  rewrite (H (is_pinned s)), (H (λ c, negb (is_pinned s c))). cbn.
  etrans; [apply length_filter|]. rewrite length_take. lia.
Qed.

Lemma candidate_unique c c' :
  c ∈ f_candidates s → c' ∈ f_candidates s → fc_tag c' = fc_tag c → c' = c.
Proof. intros Hc Hc' E. by apply (fmap_NoDup_inj fc_tag (f_candidates s)); [apply Hw|..]. Qed.

Lemma is_pinned_spec c :
  is_pinned s c = true ↔ nonempty (f_fixed s) = true ∧ fc_tag c = f_fixed s.
Proof. unfold is_pinned. by rewrite andb_true_iff, bool_decide_eq_true. Qed.

(** A usable pinned member is the selected one. *)
Lemma pinned_selected c :
  c ∈ f_candidates s → usableLocked s c = true → is_pinned s c = true → fc_tag c = f_selected s.
Proof.
  intros Hc Hu [Hf Ht]%is_pinned_spec.
  destruct (settled_selection_spec s (fw_tags _ Hw) Hs) as [H1 _].
  destruct (H1 c Hc Hf Ht) as [H _]. by rewrite H.
Qed.

(** Without one the first usable member is, or the first. *)
Lemma unpinned_selected :
  (∀ c, c ∈ f_candidates s → fc_tag c = f_selected s → usableLocked s c = true → is_pinned s c = false) →
  f_selected s = first_available s.
Proof.
  intros Hno. destruct (settled_selection_spec s (fw_tags _ Hw) Hs) as [_ H2]. apply H2.
  intros c Hc Hf Ht. destruct (usableLocked s c) eqn:Eu; [|done].
  assert (Hp : is_pinned s c = true) by (by apply is_pinned_spec).
  rewrite (Hno c Hc) in Hp; [done| |done]. by apply pinned_selected.
Qed.

(** The selected member heads the usable ones, or the ones that are down. *)
Lemma available_heads c :
  c ∈ serves → fc_tag c = first_available s →
  (∀ x, x ∈ serves → usableLocked s x = true → is_pinned s x = false) →
  head (filter (λ c, usableLocked s c && negb (is_pinned s c) = true) serves
        ++ take 1 (filter (λ c, usableLocked s c = false) serves)) = Some c.
Proof.
  intros Hsv Ht Hno. apply serves_spec in Hsv as Hc. destruct Hc as [Hc Hnet].
  destruct (first_available_choice s) as [(l1 & c' & l2 & E & Et & Hu & Hl)|[Hall Et]].
  - assert (c' = c) as -> by (apply candidate_unique; [done|rewrite E; set_solver|congruence]).
    apply head_app. unfold serves. rewrite E, filter_app, filter_cons_True by done.
    apply head_filter_split; [|by rewrite Hu, (Hno c Hsv Hu)].
    intros y [_ Hy]%list_elem_of_filter. by rewrite (Hl y Hy).
  - rewrite filter_none by (intros x [Hx _]%serves_spec; by rewrite (Hall x Hx)).
    assert (E0 : ∃ l0, f_candidates s = c :: l0).
    { assert (Eh : ∃ c0 l0, f_candidates s = c0 :: l0) by (destruct (f_candidates s); [by apply elem_of_nil in Hc|eauto]).
      destruct Eh as (c0 & l0 & E0). rewrite E0 in Et. exists l0. rewrite E0. f_equal.
      apply candidate_unique; [done|rewrite E0; by left|]. cbn in Et. congruence. }
    destruct E0 as [l0 E0]. unfold serves. rewrite E0, filter_cons_True by done.
    rewrite filter_cons_True by (by apply Hall). done.
Qed.

Lemma candidates_first c :
  c ∈ f_candidates s → fc_tag c = f_selected s → network ∈ mb_Network mb (fc_outbound c) →
  head (candidatesForNetwork mb network s) = Some c.
Proof.
  intros Hc Ht Hnet. assert (Hsv : c ∈ serves) by (by apply serves_spec). rewrite candidates_eq.
  destruct (filter (λ c, usableLocked s c && is_pinned s c = true) serves) as [|x l] eqn:EA.
  - assert (Hno : ∀ x, x ∈ serves → usableLocked s x = true → is_pinned s x = false).
    { intros x Hx Hu. apply not_true_iff_false. intros Hp. apply (not_elem_of_nil x). rewrite <- EA.
      apply list_elem_of_filter. by rewrite Hu, Hp. }
    apply available_heads; [done| |done]. rewrite Ht. apply unpinned_selected.
    intros c' Hc' Ht' Hu. apply Hno; [|done].
    assert (c' = c) as -> by (apply candidate_unique; [done..|congruence]). done.
  - assert (Hx : x ∈ filter (λ c, usableLocked s c && is_pinned s c = true) serves) by (rewrite EA; by left).
    apply list_elem_of_filter in Hx as [[Hu Hp]%andb_true_iff [Hx _]%serves_spec].
    cbn. f_equal. apply candidate_unique; [done..|]. rewrite Ht. by apply pinned_selected.
Qed.
End order.

(** The member a dial tries first is the selected one whenever that one serves the
    network; a dial has every usable member that serves the network, each once, and
    after them at most one that is down. *)
Theorem fallback_dial_order mb network s :
  fb_reachable s →
  (∀ c, c ∈ f_candidates s → fc_tag c = f_selected s → network ∈ mb_Network mb (fc_outbound c) →
     head (candidatesForNetwork mb network s) = Some c) ∧
  NoDup (fc_tag <$> candidatesForNetwork mb network s) ∧
  (∀ c, usableLocked s c = true →
     c ∈ candidatesForNetwork mb network s ↔
     c ∈ f_candidates s ∧ network ∈ mb_Network mb (fc_outbound c)) ∧
  (length (filter (λ c, usableLocked s c = false) (candidatesForNetwork mb network s)) <= 1)%nat.
Proof.
  intros [Hw Hs]%fb_reachable_ok. split; [by apply candidates_first|].
  split; [by apply candidates_NoDup|]. split; [|apply candidates_down].
  intros c Hu. rewrite candidates_usable by done. apply serves_spec.
Qed.
