(* ===== verification/FallbackDial.v ===== *)
(** * The fallback group: what a dial and an early write do

    A dial returns the connection of the first member that works, in the order of the
    group; a write that completes a handshake moves on to the next member only while
    nothing of it was sent; the time of the caller is shared among the attempts. *)
From Stdlib Require Import Sorted.
From stdpp Require Import base list gmap strings.
From S2P Require Import Prelude OutboundManager OutboundFacts Group Fallback FallbackFacts FallbackTheorems.

(** ** Dialing the members in their order *)

Definition fails (world : fallbackCandidate → attempt) (c : fallbackCandidate) : Prop :=
  ∃ err, at_result (world c) = inr err.

(** The attempt fails and the caller still waits. *)
Definition moves_on (world : fallbackCandidate → attempt) (c : fallbackCandidate) : Prop :=
  fails world c ∧ at_ctxErr (world c) = None.

Definition fail_error (world : fallbackCandidate → attempt) (c : fallbackCandidate) : error :=
  match at_result (world c) with
  | inr err => attempt_fail (world c) err
  | inl _ => ENew ""
  end.

(** What dialing [cs] in order answers, with the members it dialed. *)
Definition dial_outcome (world : fallbackCandidate → attempt) (noError : error)
    (cs l : list fallbackCandidate) (r : dialed + error) : Prop :=
  match r with
  | inl d => ∃ pre, cs = pre ++ dd_candidate d :: dd_remaining d ∧ l = pre ++ [dd_candidate d] ∧
      (∀ c, c ∈ pre → moves_on world c) ∧
      at_result (world (dd_candidate d)) = inl (dd_conn d, dd_handshake d)
  | inr e =>
      (∃ pre c post, cs = pre ++ c :: post ∧ l = pre ++ [c] ∧ (∀ c, c ∈ pre → moves_on world c) ∧
         fails world c ∧ at_ctxErr (world c) = Some e) ∨
      (l = cs ∧ (∀ c, c ∈ cs → moves_on world c) ∧
         e = default noError (fail_error world <$> last cs))
  end.

(** A failed member before an outcome. *)
Lemma dial_outcome_cons world noError c cs l r :
  moves_on world c → dial_outcome world (fail_error world c) cs l r →
  dial_outcome world noError (c :: cs) (c :: l) r.
Proof.
  intros Hc. assert (Hcons : ∀ pre, (∀ c, c ∈ pre → moves_on world c) →
    ∀ c', c' ∈ c :: pre → moves_on world c').
  { intros pre Hpre c' [->|?]%elem_of_cons; auto. }
  destruct r as [d|e]; cbn.
  - intros (pre & -> & -> & Hpre & Hr). exists (c :: pre). split; [done|]. split; [done|]. split; [by apply Hcons|done].
  - intros [(pre & c' & post & -> & -> & Hpre & Hf & He)|(-> & Hall & ->)].
    + left. exists (c :: pre), c', post. split; [done|]. split; [done|]. split; [by apply Hcons|done].
    + right. split; [done|]. split; [by apply Hcons|]. rewrite last_cons. by destruct (last cs).
Qed.

(** The members that are dialed stay those of the group. *)
Definition all_active (s : Fallback) (cs : list fallbackCandidate) : Prop :=
  ∀ c, c ∈ cs → candidateActive s c = true.

Lemma active_kept s s' c :
  (∀ t h, f_health s !! t = Some h → ∃ h', f_health s' !! t = Some h' ∧ fh_outbound h' = fh_outbound h) →
  candidateActive s c = true → candidateActive s' c = true.
Proof.
  intros H. unfold candidateActive. destruct (f_health s !! fc_tag c) as [h|] eqn:E; [|done].
  destruct (H _ _ E) as (h' & -> & ->). done.
Qed.

Lemma dial_loop_spec world lastError cs s :
  fb_wf s → all_active s cs →
  let '(s', l, r) := dial_loop world lastError cs s in
  dial_outcome world (default (ENew "no available fallback outbounds") lastError) cs l r ∧ rtc fb_step s s'.
Proof.
  revert lastError s. induction cs as [|c cs IH]; intros lastError s Hw Ha; cbn.
  - split; [|done]. right. split; [done|]. split; [|done]. intros c []%elem_of_nil.
  - rewrite (Ha c) by (by left). cbn. destruct (at_result (world c)) as [[conn hs]|err] eqn:Er.
    + split; [|destruct hs; [done|apply rtc_once, step_success]].
      exists []. split; [done|]. split; [done|]. split; [intros c' []%elem_of_nil|done].
    + assert (Hf : fails world c) by (by exists err).
      destruct (at_ctxErr (world c)) as [e|] eqn:Ec.
      { split; [|done]. left. exists [], c, cs. split; [done|]. split; [done|].
        split; [intros c' []%elem_of_nil|done]. }
      destruct (recordDialFailure_spec (at_now (world c)) c (attempt_fail (world c) err) s Hw)
        as (Hw' & _ & _ & Hh).
      specialize (IH (Some (attempt_fail (world c) err)) _ Hw').
      destruct (dial_loop _ _ _ _) as [[s' l] r]. destruct IH as [IH Hstep].
      { intros c' Hc'. apply (active_kept s); [done|]. apply Ha. by right. }
      split; [|by eapply rtc_l; [apply step_failure|]].
      apply dial_outcome_cons; [done|]. unfold fail_error. by rewrite Er.
Qed.

Lemma touch_candidates mb network now s :
  candidatesForNetwork mb network (Fallback_touch now s) = candidatesForNetwork mb network s.
Proof. unfold Fallback_touch. by destruct (_ <? _). Qed.

Lemma candidates_active mb network s :
  fb_wf s → all_active s (candidatesForNetwork mb network s).
Proof.
  intros Hw c [Hc _]%candidates_member%serves_spec.
  destruct (fw_health s Hw c Hc) as (h & E & Hid). unfold candidateActive. rewrite E. by apply same_true.
Qed.

Lemma Fallback_touch_wf now s : fb_wf s → fb_wf (Fallback_touch now s).
Proof. intros Hw. unfold Fallback_touch. by destruct (_ <? _); apply (wf_same s). Qed.

Lemma reachable_steps s s' : fb_reachable s → rtc fb_step s s' → fb_reachable s'.
Proof.
  intros (lower & now & cache & tag & options & s0 & st & mb & providers & s1 & E0 & E1 & Hr) Hs.
  exists lower, now, cache, tag, options, s0, st, mb, providers, s1.
  split; [done|]. split; [done|]. by etrans.
Qed.

(** C37 A dial of a group that has been started tries the members that serve the network
    in the order of the group. It returns the connection of the first one that works,
    with the members after it to move on to; the members before it all failed. Without
    one it returns the error of the caller's context as soon as that is over, or else the
    error of the last attempt. The group it leaves is again one the invariant holds of. *)
Theorem fallback_dial mb world now network isExternal s :
  fb_reachable s →
  let '(s', l, r) := Fallback_DialContext mb world now network isExternal s in
  dial_outcome world (ENew "no available fallback outbounds") (candidatesForNetwork mb network s) l r ∧
  fb_reachable s'.
Proof.
  intros Hr. destruct (fb_reachable_ok s Hr) as [Hw _].
  unfold Fallback_DialContext, dialCandidates.
  assert (H := dial_loop_spec world None (candidatesForNetwork mb network (Fallback_touch now s))
    (Fallback_touch now s) (Fallback_touch_wf now s Hw) (candidates_active mb network _ (Fallback_touch_wf now s Hw))).
  destruct (dial_loop _ _ _ _) as [[s' l] r]. destruct H as [H Hs].
  rewrite touch_candidates in H. assert (Hr' : fb_reachable s').
  { apply (reachable_steps s); [done|]. by eapply rtc_l; [apply step_touch|]. }
  destruct r as [d|e]; (split; [done|]); [|done].
  apply (reachable_steps s'); [done|]. apply rtc_once, step_connections.
Qed.

(** The loop of [ListenPacket] dials like the one of [DialContext]. *)
Lemma listen_loop_dials world lastError cs s :
  (∀ c conn hs, at_result (world c) = inl (conn, hs) → hs = false) →
  let '(s1, l1, r1) := listen_loop world lastError cs s in
  let '(s2, l2, r2) := dial_loop world lastError cs s in
  s1 = s2 ∧ l1 = l2 ∧ r1 = match r2 with inl d => inl (dd_conn d) | inr e => inr e end.
Proof.
  intros Hno. revert lastError s. induction cs as [|c cs IH]; intros lastError s; cbn; [done|].
  destruct (negb (candidateActive s c)); [apply IH|].
  destruct (at_result (world c)) as [[conn hs]|err] eqn:Er; [by rewrite (Hno _ _ _ Er)|].
  destruct (at_ctxErr (world c)); [done|].
  specialize (IH (Some (attempt_fail (world c) err)) (recordDialFailure (at_now (world c)) c (attempt_fail (world c) err) s)).
  destruct (listen_loop _ _ _ _) as [[s1 l1] r1], (dial_loop _ _ _ _) as [[s2 l2] r2].
  destruct IH as (-> & -> & ->). done.
Qed.

(** ** Writing to a connection that has to complete its handshake *)

(** A dial takes one of the members it is given and leaves those after it. *)
Lemma dial_loop_suffix world lastError cs s s' l d :
  dial_loop world lastError cs s = (s', l, inl d) →
  ∃ pre, cs = pre ++ dd_candidate d :: dd_remaining d.
Proof.
  revert lastError s l. induction cs as [|c cs IH]; intros lastError s l; cbn; [done|].
  destruct (negb (candidateActive s c)); [intros (pre & ->)%IH; by exists (c :: pre)|].
  destruct (at_result (world c)) as [[conn hs]|err]; [intros [= _ _ <-]; by exists []|].
  destruct (at_ctxErr (world c)); [done|].
  destruct (dial_loop _ _ _ _) as [[s1 l1] r1] eqn:E. intros [= <- _ ->].
  destruct (IH _ _ _ E) as [pre ->]. by exists (c :: pre).
Qed.

(** What a write answers: only the last member it wrote to took anything. *)
Definition write_outcome (tags : list string) (l : list (string * Z)) (n : Z) (err : option error) : Prop :=
  ∃ pre tag k, l = pre ++ [(tag, k)] ∧ (∀ e, e ∈ pre → e.2 <= 0) ∧ l.*1 `sublist_of` tags ∧
    (n = k ∨ n = 0 ∧ k <= 0 ∧ is_Some err).

Lemma write_outcome_stop tag k tags n err :
  n = k ∨ n = 0 ∧ k <= 0 ∧ is_Some err → write_outcome (tag :: tags) [(tag, k)] n err.
Proof.
  intros H. exists [], tag, k. split; [done|]. split; [intros e []%elem_of_nil|]. split; [|done].
  cbn. apply sublist_skip, sublist_nil_l.
Qed.

Lemma write_outcome_next tag k tags pre l n err :
  k <= 0 → write_outcome tags l n err → write_outcome (tag :: pre ++ tags) ((tag, k) :: l) n err.
Proof.
  intros Hk (p & t & k' & -> & Hp & Hs & Hn). exists ((tag, k) :: p), t, k'. split; [done|].
  split; [by intros e [->|?]%elem_of_cons; auto|]. split; [|done].
  cbn. apply sublist_skip. by apply sublist_inserts_l.
Qed.

(** C38 A write that has to complete a handshake returns: it tries the members that are
    left, each once at most and in their order, so as many rounds as there are of them
    are enough. A member it moves on from took nothing, so no byte is sent twice; the
    count it returns is that of the last member, or zero with an error. The handshake is
    no longer pending afterwards. *)
Theorem early_write_once writes world c s :
  ∃ s' c' l n err,
    fallbackEarlyConn_Write (S (length (ec_remaining c))) writes world c s = Some (s', c', l, (n, err)) ∧
    ec_pending c' = false ∧
    write_outcome (fc_tag <$> ec_candidate c :: ec_remaining c) l n err.
Proof.
  unfold fallbackEarlyConn_Write. destruct (ec_pending c) eqn:Ep; cbn [negb].
  2:{ eexists _, _, _, _, _. split; [done|]. split; [done|]. apply write_outcome_stop. by left. }
  clear Ep. remember (length (ec_remaining c)) as m eqn:Em.
  assert (Hm : (length (ec_remaining c) <= m)%nat) by lia. clear Em.
  revert c s Hm. induction m as [m IH] using lt_wf_ind. intros c s Hm. cbn [early_Write].
  set (w := writes (ec_candidate c)).
  destruct (wr_err w) as [err|].
  2:{ eexists _, _, _, _, _. split; [done|]. split; [done|]. apply write_outcome_stop. by left. }
  destruct ((0 <? wr_n w) || _ || _) eqn:Estop.
  { eexists _, _, _, _, _. split; [done|]. split; [done|]. apply write_outcome_stop. by left. }
  apply orb_false_iff in Estop as [[Hn _]%orb_false_iff _]. apply Z.ltb_ge in Hn.
  unfold dialCandidates. destruct (dial_loop _ _ _ _) as [[s1 l1] [d|e]] eqn:Ed.
  2:{ eexists _, _, _, _, _. split; [done|]. split; [done|]. apply write_outcome_stop. right. by eauto. }
  apply dial_loop_suffix in Ed as [pre Ed]. rewrite Ed in Hm |- *. rewrite length_app in Hm. cbn in Hm.
  destruct m as [|m]; [lia|].
  destruct (IH m ltac:(lia) (MkEarlyConn (dd_conn d) (dd_candidate d) (dd_remaining d) true) s1 ltac:(cbn; lia))
    as (s' & c' & l & n & err' & Ew & Hp & Ho).
  rewrite Ew. eexists _, _, _, _, _. split; [done|]. split; [done|].
  rewrite fmap_cons, fmap_app. by apply write_outcome_next.
Qed.

(** ** Sharing the time of the caller *)

(** The timeouts of the attempts with [n] members and [remaining] to the deadline, when
    the attempts take the times of the list. *)
Fixpoint attempt_timeouts (attemptTimeout remaining : Z) (n : nat) (taken : list Z) : list Z :=
  match n, taken with
  | S n', t :: taken =>
      attempt_timeout attemptTimeout (Some remaining) (Z.of_nat n)
      :: attempt_timeouts attemptTimeout (remaining - t) n' taken
  | _, _ => []
  end.

(** The share of the members that are left is not less. *)
Lemma share_grows a remaining n t :
  0 <= remaining → 0 <= t <= attempt_timeout a (Some remaining) (Z.of_nat (S (S n))) →
  attempt_timeout a (Some remaining) (Z.of_nat (S (S n))) <=
    attempt_timeout a (Some (remaining - t)) (Z.of_nat (S n)) ∧ 0 <= remaining - t.
Proof.
  unfold attempt_timeout. intros Hr.
  set (k := Z.of_nat (S n)). replace (Z.of_nat (S (S n))) with (k + 1) by lia.
  assert (Hk : 0 < k) by lia. rewrite !(proj2 (Z.ltb_lt 0 _)) by lia. cbn [andb].
  rewrite Z.quot_div_nonneg by lia.
  assert (Hd := Z.mul_div_le remaining (k + 1) ltac:(lia)).
  set (q := remaining `div` (k + 1)) in *.
  assert (Hq : 0 <= q) by (apply Z.div_pos; lia).
  intros Ht. assert (Htq : t <= q) by (destruct (q <? a) eqn:E; lia).
  assert (Hrt : k * q <= remaining - t) by nia.
  assert (0 <= remaining - t) by nia. split; [|done].
  rewrite Z.quot_div_nonneg by lia.
  assert (Hqk : q <= (remaining - t) `div` k) by (apply Z.div_le_lower_bound; lia).
  clear Hd Ht Hrt. generalize dependent ((remaining - t) `div` k). generalize dependent q.
  intros q _ _ r Hqr. destruct (Z.ltb_spec q a), (Z.ltb_spec r a); lia.
Qed.

(** While every attempt ends in its own time, no attempt gets less time than the one
    before it, and the deadline of the caller is not passed: the members that are down
    at the head of the group do not use up the time of those after them. *)
Theorem attempts_share a remaining n taken :
  0 <= remaining → (length taken <= n)%nat →
  Forall2 (λ t timeout, 0 <= t <= timeout) taken (attempt_timeouts a remaining n taken) →
  Sorted Z.le (attempt_timeouts a remaining n taken) ∧ foldr Z.add 0 taken <= remaining.
Proof.
  revert remaining n. induction taken as [|t taken IH]; intros remaining n Hr Hn H.
  { destruct n; cbn; split; [constructor|done|constructor|done]. }
  destruct n as [|n]; [cbn in Hn; lia|]. cbn [attempt_timeouts] in *. inversion_clear H as [|?? ?? Ht Hrest].
  destruct n as [|n].
  - destruct taken as [|t' taken]; [|cbn in Hn; lia]. cbn. split; [repeat constructor|].
    revert Ht. unfold attempt_timeout. cbn. rewrite Z.quot_1_r. destruct (Z.ltb_spec remaining a); lia.
  - destruct (share_grows a remaining n t Hr Ht) as [Hg Hr'].
    destruct (IH (remaining - t) (S n) Hr' ltac:(cbn in Hn; lia) Hrest) as [Hs Hsum]. split; [|cbn; lia].
    constructor; [done|]. destruct taken; cbn; constructor. done.
Qed.

(** ** A group of two members *)

Definition c_a : Outbound := MkOutbound 1 "trojan" "a" [] false false.
Definition c_b : Outbound := MkOutbound 2 "vless" "b" [] false false.
Definition c_mb : Members := MkMembers
  (λ t, if bool_decide (t = "a"%string) then Some c_a else if bool_decide (t = "b"%string) then Some c_b else None)
  (λ _, []) (λ _, ["tcp"; "udp"]%string).
Definition c_fallback : FallbackOutboundOptions :=
  MkFallbackOptions (MkGroupCommonOption ["a"; "b"]%string [] None None [] false) [] 0 0 0 "204" 0 false.
Definition c_new : result (Fallback * ExpectedStatus) := NewFallback id 0 (Some "b"%string) "auto" c_fallback.
Definition c_empty : Fallback :=
  MkFallback "" [] [] ∅ "" "" None 0 0 0 0 false (MkInterruptGroup [] []) 0 false.
Definition c_created : Fallback := match c_new with Ok (s, _) => s | _ => c_empty end.
Definition c_state : Fallback :=
  match Fallback_start c_mb None c_created with Ok s => s | _ => c_empty end.

Lemma c_reachable : fb_reachable c_state.
Proof.
  exists id, 0, (Some "b"%string), "auto"%string, c_fallback, c_created, [MkStatusRange 204 204], c_mb, None, c_state.
  split; [by vm_compute|]. split; [by vm_compute|]. done.
Qed.

(** The group after a check that found the pinned member down. *)
Definition c_down : Fallback :=
  (apply_results ob_Tag false
     [MkCheckResult (MkCandidate "a" c_a 0) 30 1 None; MkCheckResult (MkCandidate "b" c_b 0) 0 1 (Some (ENew "timeout"))]
     c_state ∅).1.1.

Lemma c_down_reachable : fb_reachable c_down.
Proof. eapply reachable_steps; [apply c_reachable|]. apply rtc_once, step_results. Qed.

Definition c_attempt (r : (nat * bool) + error) : attempt := MkAttempt r None None 5.

Lemma fallback_selection_witness :
  f_selected c_state = "b"%string ∧ f_fixed c_down = ""%string ∧ first_choice c_down (f_selected c_down) ∧
  f_selected c_down = "a"%string.
Proof.
  split; [by vm_compute|]. split; [by vm_compute|]. split; [|by vm_compute].
  destruct (fallback_selection c_down c_down_reachable) as [_ H]. apply H. intros c _ E.
  vm_compute in E. discriminate E.
Defined.

Lemma fallback_dial_order_witness :
  head (candidatesForNetwork c_mb "tcp" c_down) = Some (MkCandidate "a" c_a 0) ∧
  length (candidatesForNetwork c_mb "tcp" c_down) = 2%nat.
Proof.
  split; [|by vm_compute]. destruct (fallback_dial_order c_mb "tcp" c_down c_down_reachable) as [H _].
  apply H; [|by vm_compute|by left]. apply list_elem_of_lookup. exists 0%nat. by vm_compute.
Defined.

Lemma fallback_dial_witness :
  let world c := c_attempt (if bool_decide (fc_tag c = "a"%string) then inr (ENew "refused") else inl (7%nat, false)) in
  let '(s', l, r) := Fallback_DialContext c_mb world 3 "tcp" true c_down in
  (dial_outcome world (ENew "no available fallback outbounds") (candidatesForNetwork c_mb "tcp" c_down) l r ∧
   fb_reachable s') ∧ fc_tag <$> l = ["a"; "b"]%string.
Proof.
  intros world. assert (H := fallback_dial c_mb world 3 "tcp" true c_down c_down_reachable).
  destruct (Fallback_DialContext _ _ _ _ _ _) as [[s' l] r] eqn:E. split; [done|].
  assert (El : l = (Fallback_DialContext c_mb world 3 "tcp" true c_down).1.2) by (by rewrite E).
  rewrite El. by vm_compute.
Defined.

Lemma attempts_share_witness :
  Sorted Z.le (attempt_timeouts 5000 9000 3 [3000; 1000; 4000]) ∧ foldr Z.add 0 [3000; 1000; 4000] <= 9000.
Proof.
  apply attempts_share; [lia|cbn; lia|].
  repeat constructor; by vm_compute.
Defined.

(** Pinning a member that a check finds down again pins it all the same when no other
    member is usable. *)
Lemma pin_of_down_member :
  let fail c := MkCheckResult c 0 1 (Some (ENew "timeout")) in
  let s := (checkOutbounds ob_Tag (λ _, true) fail false c_down ∅).1.1 in
  f_fixed s = ""%string ∧
  f_fixed (Fallback_SelectOutbound ob_Tag (λ _, true) fail false "b" s ∅).1.1 = "b"%string.
Proof. split; by vm_compute. Qed.
