(* ===== verification/GoBytes.v ===== *)
(** * Slices of bytes

    Indexing and slicing as Go does it, with the panic of an index out of range as a value,
    and a weakest precondition to show that code does not get there. *)
From Stdlib Require Import Strings.Byte.
From stdpp Require Import base list strings.
From S2P Require Import Prelude Netip.

Definition len {A} (l : list A) : Z := Z.of_nat (length l).

(** [l[i]] *)
Definition byte_at (l : list byte) (i : Z) : result Z :=
  if (0 <=? i) && (i <? len l) then
    match l !! Z.to_nat i with Some b => Ok (b2z b) | None => Panic "index out of range" end
  else Panic "index out of range".

(** [l[from:to]]; Go looks at the capacity, which is not less than the length. *)
Definition slice (l : list byte) (from to : Z) : result (list byte) :=
  if (0 <=? from) && (from <=? to) && (to <=? len l)
  then Ok (take (Z.to_nat (to - from)) (drop (Z.to_nat from) l))
  else Panic "slice bounds out of range".
Definition slice_from (l : list byte) (from : Z) : result (list byte) := slice l from (len l).

(** [uint16(l[i])<<8 | uint16(l[i+1])], and [binary.BigEndian.Uint16] and [Uint32] at [i] *)
Definition u16_at (l : list byte) (i : Z) : result Z :=
  a ← byte_at l i; b ← byte_at l (i + 1); Ok (Z.lor (Z.shiftl a 8) b).
Definition uint_at (n : nat) (l : list byte) (i : Z) : result Z :=
  s ← slice l i (i + Z.of_nat n); Ok (be_combine s).

(** ** Weakest precondition: no panic, [E] of an error and [P] of a value *)

Definition wp {A} (E : error → Prop) (m : result A) (P : A → Prop) : Prop :=
  match m with Ok a => P a | Err e => E e | Panic _ => False end.

Lemma wp_bind {A B} E (m : result A) (f : A → result B) P : wp E m (λ a, wp E (f a) P) → wp E (m ≫= f) P.
Proof. by destruct m. Qed.

Lemma wp_mono {A} (E E' : error → Prop) (m : result A) (P Q : A → Prop) :
  (∀ e, E e → E' e) → (∀ a, P a → Q a) → wp E m P → wp E' m Q.
Proof. intros HE HPQ. destruct m; cbn; auto. Qed.

(** A call, by what is known of it. *)
Lemma wp_call {A} (E : error → Prop) (m : result A) (P Q : A → Prop) : wp E m P → (∀ a, P a → Q a) → wp E m Q.
Proof. intros Hm HPQ. eapply wp_mono; [|exact HPQ|exact Hm]. done. Qed.

Lemma wp_if {A} E (b : bool) (m m' : result A) P :
  (b = true → wp E m P) → (b = false → wp E m' P) → wp E (if b then m else m') P.
Proof. destruct b; auto. Qed.

Lemma wp_guard E (b : bool) e P : (b = true → E e) → (b = false → P tt) → wp E (guard_err b e) P.
Proof. destruct b; cbn; auto. Qed.

Lemma b2z_bound b : 0 <= b2z b < 256.
Proof. unfold b2z. pose proof (Ascii.N_ascii_bounded (Ascii.ascii_of_byte b)). lia. Qed.

Lemma byte_at_lookup l i b : l !! Z.to_nat i = Some b → 0 <= i → byte_at l i = Ok (b2z b).
Proof.
  intros Hl Hi. unfold byte_at. rewrite Hl. apply lookup_lt_Some in Hl.
  destruct (Z.leb_spec 0 i), (Z.ltb_spec i (len l)); cbn; try done; unfold len in *; lia.
Qed.

Lemma wp_byte_at E l i P : 0 <= i < len l → (∀ v, 0 <= v < 256 → P v) → wp E (byte_at l i) P.
Proof.
  intros Hi HP. destruct (lookup_lt_is_Some_2 l (Z.to_nat i)) as [b Hb]; [unfold len in Hi; lia|].
  rewrite (byte_at_lookup l i b) by (done || lia). apply HP, b2z_bound.
Qed.

Lemma slice_ok l from to : 0 <= from <= to → to <= len l → slice l from to = Ok (take (Z.to_nat (to - from)) (drop (Z.to_nat from) l)).
Proof. intros. unfold slice. by rewrite !(proj2 (Z.leb_le _ _)) by lia. Qed.

Lemma len_slice l from to s : slice l from to = Ok s → len s = to - from ∧ 0 <= from <= to ∧ to <= len l.
Proof.
  unfold slice. destruct (Z.leb_spec 0 from), (Z.leb_spec from to), (Z.leb_spec to (len l)); cbn; try done.
  intros [= <-]. unfold len in *. rewrite length_take, length_drop. lia.
Qed.

Lemma wp_slice E l from to P :
  0 <= from <= to → to <= len l → (∀ s, len s = to - from → s = take (Z.to_nat (to - from)) (drop (Z.to_nat from) l) → P s) →
  wp E (slice l from to) P.
Proof.
  intros H1 H2 HP. rewrite slice_ok by done. apply HP; [|done]. unfold len in *. rewrite length_take, length_drop. lia.
Qed.

Lemma wp_slice_from E l from P :
  0 <= from <= len l → (∀ s, len s = len l - from → s = drop (Z.to_nat from) l → P s) → wp E (slice_from l from) P.
Proof.
  intros H1 HP. apply wp_slice; [done|lia|]. intros s Hs ->. apply HP; [done|].
  apply take_ge. rewrite length_drop. unfold len in *. lia.
Qed.

Lemma lor_bytes a b : 0 <= a < 256 → 0 <= b < 256 → Z.lor (Z.shiftl a 8) b = 256 * a + b.
Proof.
  intros Ha Hb. rewrite Z.shiftl_mul_pow2 by lia. change (2 ^ 8) with 256.
  assert (Hl : Z.land (a * 256) b = 0).
  { apply Z.bits_inj'. intros n Hn. rewrite Z.land_spec, Z.bits_0. change 256 with (2 ^ 8).
    destruct (Z.ltb_spec n 8); [rewrite Z.mul_pow2_bits_low by lia; done|].
    rewrite <- (Z.mod_small b (2 ^ 8)) by (change (2 ^ 8) with 256; lia). rewrite Z.mod_pow2_bits_high by lia. apply andb_false_r. }
  pose proof (Z.add_lor_land (a * 256) b). lia.
Qed.

Lemma wp_u16_at E l i P : 0 <= i → i + 1 < len l → (∀ v, 0 <= v < 65536 → P v) → wp E (u16_at l i) P.
Proof.
  intros Hi Hl HP. unfold u16_at. apply wp_bind, wp_byte_at; [lia|]. intros a Ha. apply wp_bind, wp_byte_at; [lia|].
  intros b Hb. cbn. rewrite lor_bytes by done. apply HP. lia.
Qed.

Lemma be_combine_bound l : 0 <= be_combine l < 2 ^ (8 * len l).
Proof.
  unfold be_combine. assert (Hgen : ∀ acc, 0 <= acc → 0 <= fold_left (λ acc b, acc * 256 + b2z b) l acc < (acc + 1) * 2 ^ (8 * len l)).
  { induction l as [|b l IH]; intros acc Hacc; cbn [fold_left]; [unfold len; cbn; lia|].
    pose proof (b2z_bound b). specialize (IH (acc * 256 + b2z b) ltac:(lia)).
    replace (8 * len (b :: l)) with (8 + 8 * len l) by (unfold len; cbn [length]; lia).
    rewrite Z.pow_add_r by (unfold len; lia). change (2 ^ 8) with 256. split; [lia|].
    eapply Z.lt_le_trans; [apply IH|]. rewrite Z.mul_assoc. apply Z.mul_le_mono_nonneg_r; [|lia].
    apply Z.pow_nonneg. lia. }
  specialize (Hgen 0 ltac:(lia)). lia.
Qed.

Lemma wp_uint_at E n l i P :
  0 <= i → i + Z.of_nat n <= len l → (∀ v, 0 <= v < 2 ^ (8 * Z.of_nat n) → P v) → wp E (uint_at n l i) P.
Proof.
  intros Hi Hl HP. unfold uint_at. apply wp_bind, wp_slice; [lia|lia|]. intros s Hs _. cbn. apply HP.
  pose proof (be_combine_bound s) as Hb. replace (8 * Z.of_nat n) with (8 * len s) by lia. done.
Qed.

(** One step of a proof that a parser does not panic. *)
Ltac wp_step :=
  match goal with
  | |- wp _ (_ ≫= _) _ => apply wp_bind
  | |- wp _ (guard_err _ _) _ => apply wp_guard; intros; [try done|]
  | |- wp _ (byte_at _ _) _ => apply wp_byte_at; [try lia|intros ? ?]
  | |- wp _ (u16_at _ _) _ => apply wp_u16_at; [try lia|try lia|intros ? ?]
  | |- wp _ (uint_at _ _ _) _ => apply wp_uint_at; [try lia|try lia|intros ? ?]
  | |- wp _ (slice_from _ _) _ => apply wp_slice_from; [try lia|intros ? ? ?]
  | |- wp _ (slice _ _ _) _ => apply wp_slice; [try lia|try lia|intros ? ? ?]
  | |- wp _ (if _ then _ else _) _ => apply wp_if; intros
  | |- wp _ (Ok _) _ => cbn [wp]
  | |- wp _ (Err _) _ => cbn [wp]; try done
  end.
