(* ===== verification/TlsFragment.v ===== *)
(** * TLS fragments: common/tlsfragment

    The first write of a connection, if it is a ClientHello, is cut inside its server name:
    into packets, into TLS records or both. The writes of the connection below, the numbers
    drawn and the list of public suffixes are parameters. *)
From Stdlib Require Import Strings.Byte.
From stdpp Require Import base list strings.
From S2P Require Import Prelude Netip GoBytes.

(** ** The place of the server name: index.go *)

Definition recordLayerHeaderLen : Z := 5.
Definition handshakeHeaderLen : Z := 6.
Definition randomDataLen : Z := 32.
Definition sessionIDHeaderLen : Z := 1.
Definition cipherSuiteHeaderLen : Z := 2.
Definition compressMethodHeaderLen : Z := 1.
Definition extensionsHeaderLen : Z := 2.
Definition extensionHeaderLen : Z := 4.
Definition sniExtensionHeaderLen : Z := 5.

Record MyServerName : Type := MkServerName {
  sn_Index : Z;
  sn_Length : Z;
  sn_ServerName : list byte;
  sn_ExtensionsListLengthIndex : Z;
}.

(** The fuel of the loop is used up; the code itself returns no error here. *)
Definition runsOn : error := ENamed "runs on".

Definition server_name_extension (sex : list byte) (currentIndex : Z) : result (option MyServerName) :=
  if len sex <? sniExtensionHeaderLen then Ok None
  else
    sniType ← byte_at sex 2;
    if negb (sniType =? 0) then Ok None
    else
      sniLen ← u16_at sex 3;
      sex ← slice_from sex sniExtensionHeaderLen;
      Ok (Some (MkServerName (currentIndex + extensionHeaderLen + sniExtensionHeaderLen) sniLen sex 0)).

(** The loop over the extensions. The index behind an extension is of 16 bits. *)
Fixpoint extensions_loop (fuel : nat) (exs : list byte) (currentIndex : Z) : result (option MyServerName) :=
  match fuel with
  | O => Err runsOn
  | S fuel =>
      if len exs <=? 0 then Ok None
      else if len exs <? extensionHeaderLen then Ok None
      else
        exType ← u16_at exs 0;
        exLen ← u16_at exs 2;
        if len exs <? extensionHeaderLen + exLen then Ok None
        else
          sex ← slice exs extensionHeaderLen (extensionHeaderLen + exLen);
          if exType =? 0 then server_name_extension sex currentIndex
          else
            exs ← slice_from exs (u16 (4 + exLen));
            extensions_loop fuel exs (currentIndex + (4 + exLen))
  end.

Definition indexTLSServerNameFromExtensions (exs : list byte) : result (option MyServerName) :=
  if len exs =? 0 then Ok None
  else if len exs <? extensionsHeaderLen then Ok None
  else
    exsLen ← u16_at exs 0;
    exs ← slice_from exs extensionsHeaderLen;
    if len exs <? exsLen then Ok None
    else extensions_loop (S (length exs)) exs extensionsHeaderLen.

Definition tls_version_ok (tlsVersion : Z) : bool :=
  (Z.land tlsVersion 0xFFFC =? 0x0300) || (tlsVersion =? 0x0304).

Definition indexTLSServerNameFromHandshake (handshake : list byte) : result (option MyServerName) :=
  if len handshake <? handshakeHeaderLen + randomDataLen + sessionIDHeaderLen then Ok None
  else
    handshakeType ← byte_at handshake 0;
    if negb (handshakeType =? 1) then Ok None
    else
      a ← byte_at handshake 1; b ← byte_at handshake 2; c ← byte_at handshake 3;
      let handshakeLen := Z.lor (Z.lor (Z.shiftl a 16) (Z.shiftl b 8)) c in
      rest ← slice_from handshake 4;
      if negb (len rest =? handshakeLen) then Ok None
      else
        tlsVersion ← u16_at handshake 4;
        if negb (tls_version_ok tlsVersion) then Ok None
        else
          sessionIDLen ← byte_at handshake 38;
          let currentIndex := handshakeHeaderLen + randomDataLen + sessionIDHeaderLen + sessionIDLen in
          if len handshake <? currentIndex then Ok None
          else
            cipherSuites ← slice_from handshake currentIndex;
            if len cipherSuites <? cipherSuiteHeaderLen then Ok None
            else
              csLen ← u16_at cipherSuites 0;
              if len cipherSuites <? cipherSuiteHeaderLen + csLen + compressMethodHeaderLen then Ok None
              else
                compressMethodLen ← byte_at cipherSuites (cipherSuiteHeaderLen + csLen);
                let currentIndex := currentIndex + (cipherSuiteHeaderLen + csLen + compressMethodHeaderLen + compressMethodLen) in
                if len handshake <? currentIndex then Ok None
                else
                  extensions ← slice_from handshake currentIndex;
                  serverName ← indexTLSServerNameFromExtensions extensions;
                  Ok (option_map (λ s, MkServerName (sn_Index s + currentIndex) (sn_Length s) (sn_ServerName s) currentIndex) serverName).

Definition IndexTLSServerName (payload : list byte) : result (option MyServerName) :=
  if len payload <? recordLayerHeaderLen then Ok None
  else
    contentType ← byte_at payload 0;
    if negb (contentType =? 22) then Ok None
    else
      segmentLen ← (s ← slice payload 3 5; uint_at 2 s 0);
      if len payload <? recordLayerHeaderLen + segmentLen then Ok None
      else
        handshake ← slice_from payload recordLayerHeaderLen;
        serverName ← indexTLSServerNameFromHandshake handshake;
        Ok (option_map (λ s, MkServerName (sn_Index s + recordLayerHeaderLen) (sn_Length s) (sn_ServerName s)
                               (sn_ExtensionsListLengthIndex s + recordLayerHeaderLen)) serverName).

(** ** Writing: conn.go *)

Definition dot : byte := x2e.

(** [strings.Split] at dots *)
Fixpoint split_dots (name : list byte) : list (list byte) :=
  match name with
  | [] => [[]]
  | b :: name =>
      if Byte.eqb b dot then [] :: split_dots name
      else match split_dots name with
           | l :: labels => (b :: l) :: labels
           | [] => [[b]]
           end
  end.
Definition count_dots (name : list byte) : nat := length (List.filter (λ b, Byte.eqb b dot) name).

Record FragmentConn : Type := MkFragmentConn {
  fc_tcp : bool;
  fc_firstPacketWritten : bool;
  fc_splitPacket : bool;
  fc_splitRecord : bool;
}.

(** What the connection below does: the error of the [n]-th write, of the first and the
    second change of the no-delay option; the number drawn below [n] for the [i]-th label;
    the public suffix of a name. *)
Record FragmentEnv : Type := MkFragmentEnv {
  fe_write : nat → option error;
  fe_noDelay : bool → option error;
  fe_Intn : nat → Z → Z;
  fe_PublicSuffix : list byte → list byte;
}.

Section write.
Variable e : FragmentEnv.

(** The labels that are cut, and where the first one begins. *)
Definition cut_labels (s : MyServerName) : result (Z * list (list byte)) :=
  let splits := split_dots (sn_ServerName s) in
  splits ← (if has_items (fe_PublicSuffix e (sn_ServerName s)) then
              if (count_dots (sn_ServerName s) <=? length splits)%nat
              then Ok (take (length splits - count_dots (sn_ServerName s)) splits) else Panic "slice bounds out of range"
            else Ok splits);
  match splits with
  | label :: _ :: _ =>
      if bool_decide (label = [dot; dot; dot]) then Ok (sn_Index s + len label + 1, tail splits) else Ok (sn_Index s, splits)
  | _ => Ok (sn_Index s, splits)
  end.

(** The places of the cuts; [i] counts the labels. *)
Fixpoint split_indexes (i : nat) (currentIndex : Z) (splits : list (list byte)) : list Z :=
  match splits with
  | [] => []
  | split :: rest =>
      let splitAt := if has_items split then fe_Intn e i (len split) else 0 in
      (currentIndex + splitAt) :: split_indexes (S i) (currentIndex + len split + (if has_items rest then 1 else 0)) rest
  end.

(** The pieces of the data, one more than the cuts; the last one is left out when it is
    empty, without the record header the first one. *)
Fixpoint later_pieces (b : list byte) (from : Z) (indexes : list Z) : result (list (list byte)) :=
  match indexes with
  | [] => piece ← slice_from b from; Ok (if has_items piece then [piece] else [])
  | to :: indexes => piece ← slice b from to; rest ← later_pieces b to indexes; Ok (piece :: rest)
  end.
Definition pieces (splitRecord : bool) (b : list byte) (indexes : list Z) : result (list (list byte)) :=
  match indexes with
  | [] => Panic "index out of range"
  | to :: indexes =>
      piece ← slice b 0 to;
      piece ← (if splitRecord then slice_from piece recordLayerHeaderLen else Ok piece);
      rest ← later_pieces b to indexes; Ok (piece :: rest)
  end.

(** A record around a piece, with the type and version of the first one. *)
Definition record_of (b piece : list byte) : list byte := take 3 b ++ be_split 2 (u16 (len piece)) ++ piece.

(** Writes one after the other, until one fails: what was written, and the error. *)
Fixpoint write_all (n : nat) (chunks : list (list byte)) : list (list byte) * option error :=
  match chunks with
  | [] => ([], None)
  | chunk :: chunks =>
      match fe_write e n with
      | Some err => ([], Some err)
      | None => let '(written, err) := write_all (S n) chunks in (chunk :: written, err)
      end
  end.

(** [Write]: what the connection below got, the number of bytes and the error. *)
Definition fragment_Write (c : FragmentConn) (b : list byte)
    : result (FragmentConn * list (list byte) * (Z * option error)) :=
  let plain c := match fe_write e 0 with
                 | Some err => Ok (c, [], (0, Some err))
                 | None => Ok (c, [b], (len b, None))
                 end in
  if fc_firstPacketWritten c || negb (has_items b) then plain c
  else
    let c' := MkFragmentConn (fc_tcp c) true (fc_splitPacket c) (fc_splitRecord c) in
    serverName ← IndexTLSServerName b;
    match serverName with
    | None => plain c'
    | Some s =>
        match (if fc_splitPacket c && fc_tcp c then fe_noDelay e true else None) with
        | Some err => Ok (c', [], (0, Some err))
        | None =>
            '(currentIndex, splits) ← cut_labels s;
            payloads ← pieces (fc_splitRecord c) b (split_indexes 0 currentIndex splits);
            let records := if fc_splitRecord c then map (record_of b) payloads else payloads in
            let chunks := if fc_splitPacket c then records else if fc_splitRecord c then [concat records] else [] in
            let '(written, err) := write_all 0 chunks in
            match err with
            | Some err => Ok (c', written, (0, Some err))
            | None =>
                match (if fc_tcp c then fe_noDelay e false else None) with
                | Some err => Ok (c', written, (0, Some err))
                | None => Ok (c', written, (len b, None))
                end
            end
        end
    end.
End write.

(** * TLS fragments: nothing is lost

    The server name is found where it is, in any data that is not longer than a TLS record,
    without a panic; and what is written in pieces is what was to be written. *)

(** ** The place of the name *)

Definition no_error : error → Prop := λ _, False.

(** The name is in the data at an index. *)
Definition sits (name : list byte) (i : Z) (l : list byte) : Prop := ∃ a c, l = a ++ name ++ c ∧ len a = i.

Lemma len_app {A} (a b : list A) : len (a ++ b) = len a + len b.
Proof. unfold len. rewrite length_app. lia. Qed.

Lemma sits_drop name i n l : 0 <= n <= len l → sits name i (drop (Z.to_nat n) l) → sits name (i + n) l.
Proof.
  intros Hn (a & c & E & Ha). exists (take (Z.to_nat n) l ++ a), c. split.
  - by rewrite <- app_assoc, <- E, take_drop.
  - rewrite len_app, Ha. unfold len in *. rewrite length_take. lia.
Qed.

Lemma sits_take name i n l : sits name i (take n l) → sits name i l.
Proof.
  intros (a & c & E & Ha). exists a, (c ++ drop n l). split; [|done].
  by rewrite <- (take_drop n l) at 1; rewrite E, <- !app_assoc.
Qed.

Lemma sits_bound name i l : sits name i l → 0 <= i ∧ i + len name <= len l.
Proof. intros (a & c & -> & <-). rewrite !len_app. unfold len. lia. Qed.

Definition name_found (base : Z) (l : list byte) (r : option MyServerName) : Prop :=
  ∀ s, r = Some s → sits (sn_ServerName s) (sn_Index s - base) l.

Ltac found_none := intros ? [=].

Lemma server_name_extension_ok sex base currentIndex l :
  sex = take (Z.to_nat (len sex)) (drop 4 l) → 4 <= len l → base = currentIndex →
  wp no_error (server_name_extension sex currentIndex) (name_found base l).
Proof.
  intros Es Hl ->. unfold server_name_extension, sniExtensionHeaderLen, extensionHeaderLen.
  wp_step; [wp_step; found_none|]. wp_step. wp_step. wp_step; [wp_step; found_none|]. wp_step. wp_step.
  apply wp_bind, wp_slice_from; [lia|intros name Hlen ->]. wp_step. intros s [= <-]. cbn.
  replace (currentIndex + 4 + 5 - currentIndex) with (5 + 4) by lia.
  apply (sits_drop _ 5 4); [lia|]. apply (sits_take _ _ (Z.to_nat (len sex))). change (Z.to_nat 4) with 4%nat. rewrite <- Es.
  apply (sits_drop _ 0 5); [lia|]. exists [], []. by rewrite app_nil_r.
Qed.

Lemma extensions_loop_ok fuel exs currentIndex :
  (length exs < fuel)%nat → len exs < 65536 →
  wp no_error (extensions_loop fuel exs currentIndex) (name_found currentIndex exs).
Proof.
  revert exs currentIndex. induction fuel as [|fuel IH]; intros exs currentIndex Hf Hl; [lia|].
  cbn [extensions_loop]. unfold extensionHeaderLen. wp_step; [wp_step; found_none|]. wp_step; [wp_step; found_none|].
  apply wp_bind, wp_u16_at; [lia|lia|intros exType _]. apply wp_bind, wp_u16_at; [lia|lia|intros exLen Hex].
  wp_step; [wp_step; found_none|]. apply wp_bind, wp_slice; [lia|lia|intros sex Hsex Esex]. wp_step.
  - apply server_name_extension_ok; [|lia|done]. rewrite Hsex. exact Esex.
  - rewrite wrap_small by lia. apply wp_bind, wp_slice_from; [lia|intros exs' Hlen ->].
    eapply wp_call; [apply IH; unfold len in *; lia|]. intros r Hr s E. specialize (Hr s E).
    replace (sn_Index s - currentIndex) with (sn_Index s - (currentIndex + (4 + exLen)) + (4 + exLen)) by lia.
    apply sits_drop; [lia|done].
Qed.

Lemma extensions_ok exs :
  len exs < 65536 → wp no_error (indexTLSServerNameFromExtensions exs) (name_found 0 exs).
Proof.
  intros Hl. unfold indexTLSServerNameFromExtensions, extensionsHeaderLen.
  wp_step; [wp_step; found_none|]. wp_step; [wp_step; found_none|]. wp_step. wp_step.
  apply wp_bind, wp_slice_from; [lia|intros exs' Hlen ->]. wp_step; [wp_step; found_none|].
  eapply wp_call; [apply extensions_loop_ok; [lia|unfold len in *; lia]|].
  intros r Hr s E. specialize (Hr s E). replace (sn_Index s - 0) with (sn_Index s - 2 + 2) by lia. apply sits_drop; [lia|done].
Qed.

Lemma handshake_ok handshake :
  len handshake <= 65536 → wp no_error (indexTLSServerNameFromHandshake handshake)
    (λ r, name_found 0 handshake r ∧ ∀ s, r = Some s → 0 < sn_Index s).
Proof.
  intros Hl. unfold indexTLSServerNameFromHandshake, handshakeHeaderLen, randomDataLen, sessionIDHeaderLen, cipherSuiteHeaderLen, compressMethodHeaderLen.
  wp_step; [wp_step; (split; found_none)|]. wp_step. wp_step. wp_step; [wp_step; (split; found_none)|].
  do 8 wp_step. wp_step; [wp_step; (split; found_none)|]. wp_step. wp_step. wp_step; [wp_step; (split; found_none)|].
  apply wp_bind, wp_byte_at; [lia|intros sessionIDLen Hsid]. wp_step; [wp_step; (split; found_none)|].
  apply wp_bind, wp_slice_from; [lia|intros cs Hcs _]. wp_step; [wp_step; (split; found_none)|].
  apply wp_bind, wp_u16_at; [lia|lia|intros csLen HcsLen]. wp_step; [wp_step; (split; found_none)|].
  apply wp_bind, wp_byte_at; [lia|intros cm Hcm]. wp_step; [wp_step; (split; found_none)|].
  apply wp_bind, wp_slice_from; [lia|intros exs Hexs ->]. apply wp_bind.
  eapply wp_call; [apply extensions_ok; lia|]. intros r Hr. cbn [wp].
  destruct r as [sn0|]; [|by split]. specialize (Hr sn0 eq_refl). rewrite Z.sub_0_r in Hr.
  split; intros sn [= <-]; cbn; [rewrite Z.sub_0_r; apply sits_drop; [lia|done]|]. apply sits_bound in Hr. lia.
Qed.

(** Any data that fits a record: the search ends, and the name is where it says. *)
Lemma IndexTLSServerName_ok payload :
  len payload <= 65540 →
  wp no_error (IndexTLSServerName payload) (λ r, ∀ s, r = Some s → sits (sn_ServerName s) (sn_Index s) payload ∧ 5 < sn_Index s).
Proof.
  intros Hl. unfold IndexTLSServerName, recordLayerHeaderLen.
  wp_step; [wp_step; found_none|]. wp_step. wp_step. wp_step; [wp_step; found_none|].
  do 4 wp_step. wp_step; [wp_step; found_none|].
  apply wp_bind, wp_slice_from; [lia|intros handshake Hh ->]. apply wp_bind.
  eapply wp_call; [apply handshake_ok; lia|]. intros r [Hr Hpos]. cbn [wp]. intros sn E.
  destruct r as [sn0|]; [|done]. injection E as <-. cbn. specialize (Hr sn0 eq_refl). specialize (Hpos sn0 eq_refl).
  rewrite Z.sub_0_r in Hr. split; [apply sits_drop; [lia|done]|lia].
Qed.

(** In longer data an extension of 65532 bytes is looked at again and again: the index
    behind it is 65536, which 16 bits take as 0. *)
Lemma extensions_run_on fuel b rest currentIndex :
  0 < b2z b → 65532 <= len rest →
  extensions_loop fuel (x00 :: b :: xff :: xfc :: rest) currentIndex = Err runsOn.
Proof.
  intros Hb Hl. revert currentIndex. induction fuel as [|fuel IH]; intros currentIndex; [done|].
  set (exs := x00 :: b :: xff :: xfc :: rest) in *. cbn [extensions_loop]. unfold extensionHeaderLen.
  assert (Hlen : len exs = 4 + len rest) by (unfold exs, len; cbn [length]; lia).
  assert (E1 : u16_at exs 0 = Ok (b2z b)).
  { unfold u16_at. rewrite (byte_at_lookup exs 0 x00), (byte_at_lookup exs (0 + 1) b) by done. cbn. f_equal. }
  assert (E2 : u16_at exs 2 = Ok 65532).
  { unfold u16_at. by rewrite (byte_at_lookup exs 2 xff), (byte_at_lookup exs (2 + 1) xfc). }
  rewrite (proj2 (Z.leb_gt _ _)), (proj2 (Z.ltb_ge (len exs) 4)) by lia. rewrite E1, E2. cbn [mbind result_bind].
  rewrite (proj2 (Z.ltb_ge (len exs) _)) by lia. rewrite slice_ok by lia. cbn [mbind result_bind].
  rewrite (proj2 (Z.eqb_neq (b2z b) 0)) by lia. unfold slice_from. change (u16 (4 + 65532)) with 0. rewrite slice_ok by lia.
  cbn [mbind result_bind]. rewrite Z.sub_0_r. change (Z.to_nat 0) with 0%nat. rewrite drop_0.
  rewrite take_ge by (unfold len; lia). apply IH.
Qed.

(** ** Cuts *)

(** The bytes of labels with the dots between them. *)
Definition span (splits : list (list byte)) : Z :=
  foldr (λ l n, len l + n) 0 splits + Z.of_nat (length splits) - 1.

Lemma len_cons {A} (x : A) l : len (x :: l) = 1 + len l.
Proof. unfold len. cbn [length]. lia. Qed.

Lemma len_nonneg {A} (l : list A) : 0 <= len l.
Proof. unfold len. lia. Qed.

Lemma span_cons l splits : span (l :: splits) = len l + span splits + 1.
Proof. unfold span. cbn [foldr length]. lia. Qed.

Lemma span_lower splits : -1 <= span splits.
Proof. induction splits as [|l splits IH]; [done|]. rewrite span_cons. pose proof (len_nonneg l). lia. Qed.

Lemma split_dots_span name :
  split_dots name ≠ [] ∧ span (split_dots name) = len name ∧ length (split_dots name) = S (count_dots name).
Proof.
  unfold count_dots. induction name as [|b name IH]; cbn [split_dots]; [done|]. destruct IH as (Hne & Hs & Hc).
  cbn [List.filter]. rewrite (len_cons b name). destruct (Byte.eqb b dot).
  - rewrite span_cons. cbn [length]. unfold len at 1. cbn. split_and!; [done|lia|lia].
  - destruct (split_dots name) as [|l labels]; [done|]. rewrite span_cons in *. rewrite len_cons. cbn [length] in *.
    split_and!; [done|lia|lia].
Qed.

Lemma span_take k splits : splits ≠ [] → (0 < k)%nat → take k splits ≠ [] ∧ span (take k splits) <= span splits.
Proof.
  revert splits. induction k as [|k IH]; intros [|l splits]; try done; [lia|]. intros _ _. cbn [take]. split; [done|].
  destruct k as [|k]; [rewrite take_0, !span_cons; pose proof (span_lower splits); change (span []) with (-1); lia|].
  rewrite (span_cons l splits), span_cons.
  destruct splits as [|l' splits]; [done|]. destruct (IH (l' :: splits)) as [_ ?]; [done|lia|]. lia.
Qed.

Lemma split_dots_no_dot name label : label ∈ split_dots name → dot ∉ label.
Proof.
  revert label. induction name as [|b name IH]; intros label; cbn [split_dots].
  { intros ->%list_elem_of_singleton. apply not_elem_of_nil. }
  destruct (Byte.eqb b dot) eqn:Eb.
  - intros [->|Hl]%elem_of_cons; [apply not_elem_of_nil|by apply IH].
  - assert (Hb : dot ≠ b) by (intros <-; done).
    destruct (split_dots name) as [|l labels]; intros [->|Hl]%elem_of_cons; try (by apply IH; right).
    + by intros ?%list_elem_of_singleton.
    + by apply elem_of_nil in Hl.
    + intros [?|Hd]%elem_of_cons; [done|]. eapply IH; [left|exact Hd].
Qed.

(** The labels that are cut begin where the name does: no label is three dots. *)
Lemma cut_labels_ok e s :
  ∃ splits, cut_labels e s = Ok (sn_Index s, splits) ∧ splits ≠ [] ∧ span splits <= len (sn_ServerName s).
Proof.
  destruct (split_dots_span (sn_ServerName s)) as (Hne & Hs & Hc). unfold cut_labels. rewrite Hc.
  rewrite (proj2 (Nat.leb_le _ _)) by lia.
  set (m := if has_items (fe_PublicSuffix e (sn_ServerName s)) then _ else _).
  assert (Hm : ∃ k, m = Ok k ∧ k ≠ [] ∧ span k <= len (sn_ServerName s) ∧ ∀ l, l ∈ k → dot ∉ l).
  { unfold m. destruct (has_items _); eexists; (split; [done|]);
      [|split_and!; [done|lia|intros l; apply split_dots_no_dot]].
    rewrite <- Hs. destruct (span_take (S (count_dots (sn_ServerName s)) - count_dots (sn_ServerName s)) _ Hne) as [? ?]; [lia|].
    split_and!; [done|done|]. intros l Hl. eapply split_dots_no_dot, subseteq_take, Hl. }
  destruct Hm as (k & -> & Hk & Hspan & Hdots). cbn [mbind result_bind].
  destruct k as [|l [|l' k]]; [done|by eexists|]. rewrite bool_decide_eq_false_2; [by eexists|].
  intros ->. apply (Hdots [dot; dot; dot]); [left|left].
Qed.

(** Indexes that increase from [lo] to at most [hi]. *)
Fixpoint cuts (lo hi : Z) (indexes : list Z) : Prop :=
  match indexes with
  | [] => True
  | x :: indexes => lo <= x <= hi ∧ cuts (x + 1) hi indexes
  end.

Lemma cuts_weaken lo lo' hi hi' indexes : lo' <= lo → hi <= hi' → cuts lo hi indexes → cuts lo' hi' indexes.
Proof.
  revert lo lo'. induction indexes as [|x indexes IH]; intros lo lo' H1 H2; [done|]. cbn. intros [Hx Hc].
  split; [lia|]. by apply (IH (x + 1)); [lia|lia|].
Qed.

Lemma split_indexes_cuts e i currentIndex splits :
  (∀ i n, 0 < n → 0 <= fe_Intn e i n < n) → splits ≠ [] →
  split_indexes e i currentIndex splits ≠ [] ∧ cuts currentIndex (currentIndex + span splits) (split_indexes e i currentIndex splits).
Proof.
  intros HIntn. revert i currentIndex. induction splits as [|l splits IH]; intros i currentIndex Hne; [done|].
  cbn [split_indexes]. split; [done|]. cbn [cuts]. rewrite span_cons.
  set (a := if has_items l then fe_Intn e i (len l) else 0).
  assert (Ha : 0 <= a <= len l).
  { unfold a. destruct l as [|b l]; cbn [has_items]; [unfold len; cbn; lia|].
    pose proof (HIntn i (len (b :: l))) as Hi. rewrite len_cons in *. pose proof (len_nonneg l). lia. }
  pose proof (span_lower splits). split; [lia|]. destruct splits as [|l' splits]; [done|]. cbn [has_items].
  destruct (IH (S i) (currentIndex + len l + 1)) as [_ Hc]; [done|]. eapply cuts_weaken; [| |exact Hc]; lia.
Qed.

(** The first cut is inside a name that is not empty. *)
Lemma first_cut_inside e i currentIndex splits n :
  (∀ i n, 0 < n → 0 <= fe_Intn e i n < n) → splits ≠ [] → span splits <= n → 0 < n →
  ∃ to indexes, split_indexes e i currentIndex splits = to :: indexes ∧ currentIndex <= to < currentIndex + n.
Proof.
  intros HIntn Hne Hspan Hn. destruct splits as [|l splits]; [done|]. cbn [split_indexes]. eexists _, _. split; [done|].
  rewrite span_cons in Hspan. pose proof (span_lower splits).
  destruct l as [|b l]; cbn [has_items]; [lia|]. pose proof (HIntn i (len (b :: l))) as Hi. rewrite len_cons in *.
  pose proof (len_nonneg l). lia.
Qed.

(** ** Pieces *)

Lemma later_pieces_some b from indexes ps :
  0 <= from < len b → later_pieces b from indexes = Ok ps → ps ≠ [].
Proof.
  intros Hfrom. destruct indexes as [|to indexes]; cbn [later_pieces].
  - unfold slice_from. rewrite slice_ok by lia. cbn [mbind result_bind].
    rewrite take_ge by (rewrite length_drop; unfold len in *; lia).
    destruct (drop (Z.to_nat from) b) as [|x l] eqn:E; cbn [has_items]; [|by intros [= <-]].
    apply (f_equal length) in E. rewrite length_drop in E. unfold len in *. cbn in E. lia.
  - destruct (slice b from to); [|done..]. cbn [mbind result_bind]. destruct (later_pieces b to indexes); [|done..].
    by intros [= <-].
Qed.

(** The first piece ends at the first cut, and another one follows. *)
Lemma pieces_cut record b to indexes ps :
  5 < to < len b → pieces record b (to :: indexes) = Ok ps →
  ∃ piece rest, ps = piece :: rest ∧ rest ≠ [] ∧ len piece = to - (if record then 5 else 0).
Proof.
  intros Hto. cbn [pieces]. rewrite slice_ok by lia. cbn [mbind result_bind]. rewrite Z.sub_0_r, drop_0.
  assert (Hlen : length (take (Z.to_nat to) b) = Z.to_nat to) by (rewrite length_take; unfold len in *; lia).
  destruct record.
  - unfold slice_from, recordLayerHeaderLen. rewrite slice_ok by (unfold len; rewrite ?Hlen; lia). cbn [mbind result_bind].
    rewrite take_ge by (rewrite length_drop; unfold len; lia).
    destruct (later_pieces b to indexes) as [rest| |] eqn:E; [|done..]. intros [= <-]. apply later_pieces_some in E; [|lia].
    eexists _, _. split_and!; [done|done|]. unfold len. rewrite length_drop, Hlen. lia.
  - cbn [mbind result_bind]. destruct (later_pieces b to indexes) as [rest| |] eqn:E; [|done..]. intros [= <-].
    apply later_pieces_some in E; [|lia]. eexists _, _. split_and!; [done|done|]. unfold len. rewrite Hlen. lia.
Qed.

Lemma later_pieces_ok b from indexes :
  0 <= from <= len b → cuts (from + 1) (len b) indexes →
  ∃ ps, later_pieces b from indexes = Ok ps ∧ concat ps = drop (Z.to_nat from) b ∧ Forall (λ p, p ≠ []) ps.
Proof.
  revert from. induction indexes as [|to indexes IH]; intros from Hfrom Hc; cbn [later_pieces].
  - unfold slice_from. rewrite slice_ok by lia. cbn [mbind result_bind].
    rewrite take_ge by (rewrite length_drop; unfold len in *; lia).
    destruct (drop (Z.to_nat from) b) as [|x l] eqn:E; cbn [has_items]; eexists; (split; [done|]); [done|].
    cbn. rewrite app_nil_r. split; [done|by repeat constructor].
  - destruct Hc as [Hto Hc]. rewrite slice_ok by lia. cbn [mbind result_bind].
    destruct (IH to) as (ps & -> & Ep & Hp); [lia|done|]. cbn [mbind result_bind]. eexists. split; [done|].
    cbn [concat]. rewrite Ep. split.
    + replace (Z.to_nat to) with (Z.to_nat from + Z.to_nat (to - from))%nat by lia. by rewrite <- drop_drop, take_drop.
    + constructor; [|done]. intros E. apply (f_equal length) in E. rewrite length_take, length_drop in E. cbn in E.
      unfold len in *. lia.
Qed.

Lemma pieces_ok record b lo indexes :
  5 < lo → indexes ≠ [] → cuts lo (len b) indexes →
  ∃ ps, pieces record b indexes = Ok ps ∧ concat ps = (if record then drop 5 b else b) ∧ Forall (λ p, p ≠ []) ps.
Proof.
  intros Hlo Hne Hc. destruct indexes as [|to indexes]; [done|]. destruct Hc as [Hto Hc]. cbn [pieces].
  rewrite slice_ok by lia. cbn [mbind result_bind]. rewrite Z.sub_0_r. change (Z.to_nat 0) with 0%nat. rewrite drop_0.
  destruct (later_pieces_ok b to indexes) as (ps & Eps & Ep & Hp); [lia|done|].
  assert (Hlen : length (take (Z.to_nat to) b) = Z.to_nat to) by (rewrite length_take; unfold len in *; lia).
  assert (Hn : ∀ p : list byte, (0 < length p)%nat → p ≠ []) by (intros [|]; cbn; [lia|done]).
  destruct record.
  - unfold slice_from, recordLayerHeaderLen. rewrite slice_ok by (unfold len; rewrite ?Hlen; lia). cbn [mbind result_bind].
    rewrite take_ge by (rewrite length_drop; unfold len; lia). rewrite Eps. cbn [mbind result_bind].
    eexists. split; [done|]. cbn [concat]. rewrite Ep. change (Z.to_nat 5) with 5%nat. split.
    + rewrite <- (take_drop (Z.to_nat to) b) at 3. rewrite drop_app_le; [done|lia].
    + constructor; [|done]. apply Hn. rewrite length_drop. lia.
  - cbn [mbind result_bind]. rewrite Eps. cbn [mbind result_bind]. eexists. split; [done|]. cbn [concat].
    rewrite Ep, take_drop. split; [done|]. constructor; [|done]. apply Hn. lia.
Qed.

(** ** Records *)

(** How a receiver reads records: type and version, length, payload. *)
Fixpoint tls_records (fuel : nat) (l : list byte) : option (list (list byte * list byte)) :=
  match fuel with
  | O => None
  | S fuel =>
      if negb (has_items l) then Some []
      else
        let n := be_combine (take 2 (drop 3 l)) in
        if len l <? 5 + n then None
        else option_map (cons (take 3 l, take (Z.to_nat n) (drop 5 l))) (tls_records fuel (drop (5 + Z.to_nat n) l))
  end.

Lemma be_combine_u16 z : 0 <= z < 65536 → be_combine (be_split 2 (u16 z)) = z.
Proof.
  intros Hz. rewrite wrap_small by done. unfold be_combine. cbn [be_split app fold_left]. unfold b2z, z2b.
  rewrite !Ascii.ascii_of_byte_of_ascii, !Ascii.N_ascii_embedding by (pose proof (Z.mod_pos_bound (z / 256) 256); pose proof (Z.mod_pos_bound z 256); lia).
  pose proof (Z.mod_pos_bound (z / 256) 256). pose proof (Z.mod_pos_bound z 256).
  rewrite !Z2N.id by lia. rewrite (Z.mod_small (z / 256)) by (split; [apply Z.div_pos; lia|apply Z.div_lt_upper_bound; lia]).
  pose proof (Z.div_mod z 256). lia.
Qed.

Lemma tls_records_of b ps fuel :
  5 <= len b → Forall (λ p, p ≠ []) ps → (∀ p, p ∈ ps → len p < 65536) → (length ps < fuel)%nat →
  tls_records fuel (concat (map (record_of b) ps)) = Some (map (λ p, (take 3 b, p)) ps).
Proof.
  intros Hb Hne Hlen. revert fuel. induction ps as [|p ps IH]; intros fuel Hf; (destruct fuel as [|fuel]; [lia|]); [done|].
  inversion Hne as [|? ? Hp Hne']; subst. specialize (Hlen p) as Hlp. assert (Hlp' : len p < 65536) by (apply Hlp; left).
  cbn [map concat tls_records]. set (rest := concat (map (record_of b) ps)).
  assert (E3 : length (take 3 b) = 3%nat) by (rewrite length_take; unfold len in Hb; lia).
  set (h := be_split 2 (u16 (len p))). assert (Eh : length h = 2%nat) by done.
  assert (El : record_of b p ++ rest = take 3 b ++ h ++ p ++ rest) by (unfold record_of; by rewrite <- !app_assoc).
  rewrite El. assert (Hitems : has_items (take 3 b ++ h ++ p ++ rest) = true) by (by destruct (take 3 b)).
  rewrite Hitems. cbn [negb]. rewrite (drop_app_length' (take 3 b)) by done. rewrite (take_app_length' h) by done.
  assert (En : be_combine h = len p) by (apply be_combine_u16; split; [apply len_nonneg|done]). rewrite En.
  rewrite !len_app. rewrite (proj2 (Z.ltb_ge _ _)) by (pose proof (len_nonneg rest); unfold len in *; lia).
  rewrite (take_app_length' (take 3 b)) by done.
  assert (Ed5 : drop 5 (take 3 b ++ h ++ p ++ rest) = p ++ rest).
  { rewrite app_assoc. apply drop_app_length'. rewrite length_app, E3, Eh. done. }
  rewrite <- drop_drop, Ed5. assert (Ep : Z.to_nat (len p) = length p) by (unfold len; lia). rewrite Ep.
  rewrite take_app_length, drop_app_length. unfold rest. rewrite IH; [done|done| |cbn in Hf; lia]. intros q Hq. apply Hlen. by right.
Qed.

Lemma written_all_ok e n chunks written : write_all e n chunks = (written, None) → written = chunks.
Proof.
  revert n written. induction chunks as [|c chunks IH]; intros n written; cbn [write_all]; [by intros [= <-]|].
  destruct (fe_write e n); [done|]. destruct (write_all e (S n) chunks) as [w err] eqn:E. intros [= <- ->]. f_equal. by eapply IH.
Qed.

(** What the receiver has of the data: the data, or records with its handshake. *)
Definition arrives (splitRecord : bool) (b : list byte) (written : list (list byte)) : Prop :=
  concat written = b ∨
  splitRecord = true ∧ ∃ payloads,
    tls_records (S (length payloads)) (concat written) = Some (map (λ p, (take 3 b, p)) payloads) ∧
    concat payloads = drop 5 b ∧ Forall (λ p, p ≠ []) payloads.

(** The data is cut inside the server name: more than one piece, the first of which ends
    in the name; each a packet of its own, a record of its own or both. *)
Definition cut_in_name (c : FragmentConn) (s : MyServerName) (b : list byte) (written : list (list byte)) : Prop :=
  ∃ piece rest, rest ≠ [] ∧
    sn_Index s <= len piece + (if fc_splitRecord c then 5 else 0) < sn_Index s + len (sn_ServerName s) ∧
    let chunks := if fc_splitRecord c then map (record_of b) (piece :: rest) else piece :: rest in
    written = if fc_splitPacket c then chunks else [concat chunks].

Lemma chunks_arrive splitPacket splitRecord b ps :
  5 <= len b <= 65540 → splitPacket || splitRecord = true → Forall (λ p, p ≠ []) ps →
  concat ps = (if splitRecord then drop 5 b else b) →
  let chunks := if splitRecord then map (record_of b) ps else ps in
  arrives splitRecord b (if splitPacket then chunks else if splitRecord then [concat chunks] else []).
Proof.
  intros Hb Hsplit Hps Ep. destruct splitRecord; cbn zeta.
  - right. split; [done|]. exists ps. split_and!; [|done|done].
    replace (concat (if splitPacket then _ else _)) with (concat (map (record_of b) ps)) by (destruct splitPacket; cbn; by rewrite ?app_nil_r).
    apply tls_records_of; [lia|done| |lia]. intros p Hp. assert (Hle : len p <= len (concat ps)).
    { apply list_elem_of_split in Hp as (l1 & l2 & ->). rewrite concat_app, len_app. cbn. rewrite len_app.
      pose proof (len_nonneg (concat l1)). pose proof (len_nonneg (concat l2)). lia. }
    rewrite Ep in Hle. unfold len in *. rewrite length_drop in Hle. lia.
  - left. rewrite orb_false_r in Hsplit. by rewrite Hsplit.
Qed.

(** The pieces of a hello, all of its data and cut inside the name. *)
Lemma hello_pieces e c s b :
  (∀ i n, 0 < n → 0 <= fe_Intn e i n < n) → sits (sn_ServerName s) (sn_Index s) b → 5 < sn_Index s →
  ∃ splits ps, cut_labels e s = Ok (sn_Index s, splits) ∧
    pieces (fc_splitRecord c) b (split_indexes e 0 (sn_Index s) splits) = Ok ps ∧
    concat ps = (if fc_splitRecord c then drop 5 b else b) ∧ Forall (λ p, p ≠ []) ps ∧
    (sn_ServerName s ≠ [] → ∃ piece rest, ps = piece :: rest ∧ rest ≠ [] ∧
       sn_Index s <= len piece + (if fc_splitRecord c then 5 else 0) < sn_Index s + len (sn_ServerName s)).
Proof.
  intros HIntn Hs H5. apply sits_bound in Hs. destruct (cut_labels_ok e s) as (splits & -> & Hne & Hspan).
  destruct (split_indexes_cuts e 0 (sn_Index s) splits HIntn Hne) as [Hine Hc].
  destruct (pieces_ok (fc_splitRecord c) b (sn_Index s) (split_indexes e 0 (sn_Index s) splits)) as (ps & Eps & Ep & Hps);
    [done|done|eapply cuts_weaken; [| |exact Hc]; lia|].
  exists splits, ps. split_and!; [done|done|done|done|]. intros Hname.
  destruct (first_cut_inside e 0 (sn_Index s) splits (len (sn_ServerName s)) HIntn Hne Hspan) as (to & indexes & Ei & Hto).
  { destruct (sn_ServerName s) as [|x l]; [done|]. rewrite len_cons. pose proof (len_nonneg l). lia. }
  rewrite Ei in Eps. apply pieces_cut in Eps as (piece & rest & -> & Hr & Hlen); [|lia].
  exists piece, rest. split_and!; [done|done|destruct (fc_splitRecord c); lia..].
Qed.

(** C16 Fragments lose nothing: with data of any length after the first write, and with data of
    at most a TLS record as the first one, however the cuts are drawn, a write does not
    panic and ends; the first write with data is the last one that is looked at. When no
    write below fails, it reports all bytes, and the receiver gets the data itself or TLS
    records of its type and version, none of them empty, whose payloads together are the
    payload of the data. A write after the first passes as it is, in one piece. A first
    write in which a server name is found that is not empty is cut: the first piece ends
    inside the name and at least one more follows, as packets, as records or both as the
    connection is told. *)
Theorem fragments_reassemble e c b :
  (∀ i n, 0 < n → 0 <= fe_Intn e i n < n) → fc_firstPacketWritten c = true ∨ len b <= 65540 →
  fc_splitPacket c || fc_splitRecord c = true →
  ∃ c' written n err, fragment_Write e c b = Ok (c', written, (n, err)) ∧
    fc_firstPacketWritten c' = fc_firstPacketWritten c || has_items b ∧
    (err = None → n = len b ∧ arrives (fc_splitRecord c) b written ∧
       (fc_firstPacketWritten c = true → written = [b]) ∧
       (fc_firstPacketWritten c = false → ∀ s, IndexTLSServerName b = Ok (Some s) → sn_ServerName s ≠ [] →
          cut_in_name c s b written)).
Proof.
  intros HIntn Hlen Hsplit. unfold fragment_Write.
  assert (Hplain : ∀ c', fc_firstPacketWritten c' = fc_firstPacketWritten c || has_items b →
    (fc_firstPacketWritten c = false → ∀ s, IndexTLSServerName b ≠ Ok (Some s)) →
    ∃ c'' written n err, match fe_write e 0 with Some err => Ok (c', [], (0, Some err)) | None => Ok (c', [b], (len b, None)) end = Ok (c'', written, (n, err)) ∧
    fc_firstPacketWritten c'' = fc_firstPacketWritten c || has_items b ∧ (err = None → n = len b ∧ arrives (fc_splitRecord c) b written ∧
       (fc_firstPacketWritten c = true → written = [b]) ∧
       (fc_firstPacketWritten c = false → ∀ s, IndexTLSServerName b = Ok (Some s) → sn_ServerName s ≠ [] → cut_in_name c s b written))).
  { intros c' Hc Hno. destruct (fe_write e 0); eexists _, _, _, _; (split; [done|]); [done|]. split; [done|]. intros _.
    split_and!; [done|left; cbn; apply app_nil_r|done|]. intros Hf s Es. by destruct (Hno Hf s). }
  destruct (fc_firstPacketWritten c) eqn:Efirst; cbn [orb]; [by apply Hplain|]. destruct Hlen as [|Hlen]; [done|].
  destruct (has_items b) eqn:Eb; cbn [negb]; [|apply Hplain; [done|]; by destruct b].
  set (c' := MkFragmentConn _ true _ _). pose proof (IndexTLSServerName_ok b Hlen) as Hi.
  destruct (IndexTLSServerName b) as [[s|]|err|] eqn:Es; cbn [mbind result_bind wp] in *; [|by apply Hplain|done|done].
  destruct (Hi s eq_refl) as [Hs H5]. pose proof (sits_bound _ _ _ Hs).
  destruct (if fc_splitPacket c && fc_tcp c then _ else _); [by eexists _, _, _, _|].
  destruct (hello_pieces e c s b HIntn Hs H5) as (splits & ps & -> & Eps & Ep & Hps & Hcut). cbn [mbind result_bind].
  rewrite Eps. cbn [mbind result_bind]. set (chunks := if fc_splitPacket c then _ else _).
  destruct (write_all e 0 chunks) as [written err] eqn:Ew. destruct err; [by eexists _, _, _, _|].
  destruct (if fc_tcp c then _ else _); [by eexists _, _, _, _|]. eexists _, _, _, _. split; [done|]. split; [done|]. intros _.
  apply written_all_ok in Ew as ->. pose proof (len_nonneg (sn_ServerName s)).
  split_and!; [done|by apply chunks_arrive; [lia|..]|done|]. intros _ ? [= <-] Hname.
  destruct (Hcut Hname) as (piece & rest & -> & Hr & Hin). exists piece, rest. split_and!; [done|apply Hin..|].
  unfold chunks. destruct (fc_splitPacket c), (fc_splitRecord c); done.
Qed.

(** A ClientHello for "a.example": the cut is in the first label. *)
Definition c_hello : list byte :=
  let extensions := [x00; x00; x00; x0e; x00; x0c; x00; x00; x09] ++ String.list_byte_of_string "a.example" in
  let body := [x03; x03] ++ repeat x07 32 ++ [x00; x00; x02; x13; x01; x01; x00; x00; x12] ++ extensions in
  let handshake := [x01; x00; x00] ++ be_split 1 (len body) ++ body in
  [x16; x03; x01] ++ be_split 2 (len handshake) ++ handshake.
Definition c_fragment_env : FragmentEnv := MkFragmentEnv (λ _, None) (λ _, None) (λ _ n, n - 1) (λ _, []).

Example c_hello_found : option_map sn_ServerName (match IndexTLSServerName c_hello with Ok r => r | _ => None end) = Some (String.list_byte_of_string "a.example").
Proof. by vm_compute. Qed.

Lemma fragments_reassemble_witness :
  let c := MkFragmentConn true false true true in
  let later := MkFragmentConn true true true true in
  (∃ c' written, fragment_Write c_fragment_env c c_hello = Ok (c', written, (len c_hello, None)) ∧ length written = 3%nat) ∧
  (∃ c' written n err, fragment_Write c_fragment_env c c_hello = Ok (c', written, (n, err)) ∧
    fc_firstPacketWritten c' = true ∧ (err = None → n = len c_hello ∧ arrives true c_hello written)) ∧
  (∃ c' written n err, fragment_Write c_fragment_env later c_hello = Ok (c', written, (n, err)) ∧ (err = None → written = [c_hello])).
Proof.
  intros c later. split; [eexists _, _; split; [by vm_compute|done]|].
  assert (HIntn : ∀ i n, 0 < n → 0 <= fe_Intn c_fragment_env i n < n) by (intros i n Hn; cbn; lia). split.
  - destruct (fragments_reassemble c_fragment_env c c_hello) as (c' & written & n & err & E & Hf & He);
      [done|right; vm_compute; done|done|].
    exists c', written, n, err. split_and!; [done|done|intros Hn; by destruct (He Hn) as (? & ? & _)..].
  - destruct (fragments_reassemble c_fragment_env later c_hello) as (c' & written & n & err & E & Hf & He); [done|by left|done|].
    exists c', written, n, err. split; [done|]. intros Hn. destruct (He Hn) as (_ & _ & Hl & _). by apply Hl.
Defined.

(** Data longer than a record, on which the search does not end. *)
Example search_runs_on : ∀ fuel, extensions_loop fuel (x00 :: x15 :: xff :: xfc :: replicate (Z.to_nat 65532) x00) 2 = Err runsOn.
Proof.
  intros fuel. apply extensions_run_on; [by vm_compute|]. unfold len. rewrite length_replicate. lia.
Qed.
