(* ===== verification/Ja3.v ===== *)
(** * The parser of a ClientHello: common/ja3

    What the QUIC sniffer takes from a reassembled ClientHello: its server name and the lists
    by which clients are told apart. *)
From Stdlib Require Import Strings.Byte.
From stdpp Require Import base list strings pretty.
From S2P Require Import Prelude Netip GoBytes TlsFragment.

Record ClientHello : Type := MkClientHello {
  ch_Version : Z;
  ch_CipherSuites : list Z;
  ch_Extensions : list Z;
  ch_EllipticCurves : list Z;
  ch_EllipticCurvePF : list Z;
  ch_Versions : list Z;
  ch_SignatureAlgorithms : list Z;
  ch_ServerName : list byte;
}.

(** [ParseError]: its type and the place of the check, as [Error] prints them *)
Inductive parseErrorType : Type := LengthErr | ContentTypeErr | VersionErr | HandshakeTypeErr | SNITypeErr.
Definition ParseError (t : parseErrorType) (check : nat) : error :=
  ENew match t with
       | LengthErr => "length check " +:+ pretty check +:+ " failed"
       | ContentTypeErr => "content type not matching"
       | VersionErr => "version check " +:+ pretty check +:+ " failed"
       | HandshakeTypeErr => "handshake type not matching"
       | SNITypeErr => "SNI type not supported"
       end%string.

Definition ecExtensionHeaderLen : Z := 2.
Definition ecpfExtensionHeaderLen : Z := 1.
Definition versionExtensionHeaderLen : Z := 1.
Definition signatureAlgorithmsExtensionHeaderLen : Z := 2.

(** [for i := range n { l = append(l, uint16 of s at i*2+base) }] *)
Fixpoint u16_list (s : list byte) (base : Z) (n : nat) : result (list Z) :=
  match n with
  | O => Ok []
  | S n => v ← u16_at s base; l ← u16_list s (base + 2) n; Ok (v :: l)
  end.

(** The same with [binary.BigEndian.Uint16(s[i*2:])]. *)
Fixpoint be16_list (s : list byte) (base : Z) (n : nat) : result (list Z) :=
  match n with
  | O => Ok []
  | S n => t ← slice_from s base; v ← uint_at 2 t 0; l ← be16_list s (base + 2) n; Ok (v :: l)
  end.

Fixpoint byte_list (s : list byte) (base : Z) (n : nat) : result (list Z) :=
  match n with
  | O => Ok []
  | S n => v ← byte_at s base; l ← byte_list s (base + 1) n; Ok (v :: l)
  end.

(** The variables of [parseExtensions]. *)
Record extensionState : Type := MkExtensionState {
  xs_sni : list byte;
  xs_extensions : list Z;
  xs_ellipticCurves : list Z;
  xs_ellipticCurvePF : list Z;
  xs_versions : list Z;
  xs_signatureAlgorithms : list Z;
}.

(** The cases of one extension. *)
Definition parse_sni (sex : list byte) : result (list byte) :=
  _ ← guard_err (len sex <? sniExtensionHeaderLen) (ParseError LengthErr 13);
  sniType ← byte_at sex 2;
  sniLen ← u16_at sex 3;
  sex ← slice_from sex sniExtensionHeaderLen;
  _ ← guard_err (negb (len sex =? sniLen)) (ParseError LengthErr 14);
  if sniType =? 0 then Ok sex else Err (ParseError SNITypeErr 0).
Definition parse_curves (sex : list byte) : result (list Z) :=
  _ ← guard_err (len sex <? ecExtensionHeaderLen) (ParseError LengthErr 15);
  ecsLen ← u16_at sex 0;
  sex ← slice_from sex ecExtensionHeaderLen;
  _ ← guard_err (negb (len sex =? ecsLen)) (ParseError LengthErr 16);
  u16_list sex 0 (Z.to_nat (ecsLen / 2)).
Definition parse_point_formats (sex : list byte) : result (list Z) :=
  _ ← guard_err (len sex <? ecpfExtensionHeaderLen) (ParseError LengthErr 17);
  numPF ← byte_at sex 0;
  sex ← slice_from sex ecpfExtensionHeaderLen;
  _ ← guard_err (negb (len sex =? numPF)) (ParseError LengthErr 18);
  byte_list sex 0 (Z.to_nat numPF).
Definition parse_versions (sex : list byte) : result (list Z) :=
  _ ← guard_err (len sex <? versionExtensionHeaderLen) (ParseError LengthErr 19);
  versionsLen ← byte_at sex 0;
  sex ← slice_from sex versionExtensionHeaderLen;
  _ ← guard_err (len sex <? versionsLen) (ParseError LengthErr 21);
  be16_list sex 0 (Z.to_nat (versionsLen / 2)).
Definition parse_signature_algorithms (sex : list byte) : result (list Z) :=
  _ ← guard_err (len sex <? signatureAlgorithmsExtensionHeaderLen) (ParseError LengthErr 20);
  ssaLen ← uint_at 2 sex 0;
  sex ← slice_from sex signatureAlgorithmsExtensionHeaderLen;
  _ ← guard_err (len sex <? ssaLen) (ParseError LengthErr 22);
  be16_list sex 0 (Z.to_nat (ssaLen / 2)).

Definition parse_extension (exType : Z) (sex : list byte) (s : extensionState) : result extensionState :=
  let '(MkExtensionState sni exs curves pf versions ssa) := s in
  if exType =? 0 then v ← parse_sni sex; Ok (MkExtensionState v exs curves pf versions ssa)
  else if exType =? 10 then v ← parse_curves sex; Ok (MkExtensionState sni exs v pf versions ssa)
  else if exType =? 11 then v ← parse_point_formats sex; Ok (MkExtensionState sni exs curves v versions ssa)
  else if exType =? 43 then v ← parse_versions sex; Ok (MkExtensionState sni exs curves pf (versions ++ v) ssa)
  else if exType =? 13 then v ← parse_signature_algorithms sex; Ok (MkExtensionState sni exs curves pf versions (ssa ++ v))
  else Ok s.

(** The loop over the extensions; its fuel is the number of bytes and one more. *)
Fixpoint ja3_extensions (fuel : nat) (exs : list byte) (s : extensionState) : result extensionState :=
  match fuel with
  | O => Err runsOn
  | S fuel =>
      if len exs <=? 0 then Ok s
      else
        _ ← guard_err (len exs <? extensionHeaderLen) (ParseError LengthErr 11);
        exType ← u16_at exs 0;
        exLen ← u16_at exs 2;
        let s := MkExtensionState (xs_sni s) (xs_extensions s ++ [exType]) (xs_ellipticCurves s) (xs_ellipticCurvePF s)
                   (xs_versions s) (xs_signatureAlgorithms s) in
        _ ← guard_err (len exs <? extensionHeaderLen + exLen) (ParseError LengthErr 12);
        sex ← slice exs extensionHeaderLen (extensionHeaderLen + exLen);
        s ← parse_extension exType sex s;
        exs ← slice_from exs (u16 (4 + exLen));
        ja3_extensions fuel exs s
  end.

Definition parseExtensions (exs : list byte) : result extensionState :=
  let empty := MkExtensionState [] [] [] [] [] [] in
  if len exs =? 0 then Ok empty
  else
    _ ← guard_err (len exs <? extensionsHeaderLen) (ParseError LengthErr 9);
    exsLen ← u16_at exs 0;
    exs ← slice_from exs extensionsHeaderLen;
    _ ← guard_err (len exs <? exsLen) (ParseError LengthErr 10);
    ja3_extensions (S (length exs)) exs empty.

Definition parseHandshake (hs : list byte) : result ClientHello :=
  _ ← guard_err (len hs <? handshakeHeaderLen + randomDataLen + sessionIDHeaderLen) (ParseError LengthErr 3);
  handshType ← byte_at hs 0;
  _ ← guard_err (negb (handshType =? 1)) (ParseError HandshakeTypeErr 0);
  a ← byte_at hs 1; b ← byte_at hs 2; c ← byte_at hs 3;
  let handshakeLen := Z.lor (Z.lor (Z.shiftl a 16) (Z.shiftl b 8)) c in
  rest ← slice_from hs 4;
  _ ← guard_err (negb (len rest =? handshakeLen)) (ParseError LengthErr 4);
  tlsVersion ← u16_at hs 4;
  _ ← guard_err (negb (tls_version_ok tlsVersion)) (ParseError VersionErr 2);
  sessionIDLen ← byte_at hs 38;
  let header := handshakeHeaderLen + randomDataLen + sessionIDHeaderLen + sessionIDLen in
  _ ← guard_err (len hs <? header) (ParseError LengthErr 5);
  cs ← slice_from hs header;
  _ ← guard_err (len cs <? cipherSuiteHeaderLen) (ParseError LengthErr 6);
  csLen ← u16_at cs 0;
  _ ← guard_err (len cs <? cipherSuiteHeaderLen + csLen + compressMethodHeaderLen) (ParseError LengthErr 7);
  cipherSuites ← u16_list cs 2 (Z.to_nat (csLen / 2));
  compressMethodLen ← byte_at cs (cipherSuiteHeaderLen + csLen);
  let behind := cipherSuiteHeaderLen + csLen + compressMethodHeaderLen + compressMethodLen in
  _ ← guard_err (len cs <? behind) (ParseError LengthErr 8);
  exs ← slice_from cs behind;
  s ← parseExtensions exs;
  Ok (MkClientHello tlsVersion cipherSuites (xs_extensions s) (xs_ellipticCurves s) (xs_ellipticCurvePF s) (xs_versions s)
        (xs_signatureAlgorithms s) (xs_sni s)).

Definition parseSegment (segment : list byte) : result ClientHello :=
  _ ← guard_err (len segment <? recordLayerHeaderLen) (ParseError LengthErr 1);
  contType ← byte_at segment 0;
  _ ← guard_err (negb (contType =? 22)) (ParseError ContentTypeErr 0);
  tlsRecordVersion ← u16_at segment 1;
  _ ← guard_err (negb (tls_version_ok tlsRecordVersion)) (ParseError VersionErr 1);
  segmentLen ← u16_at segment 3;
  rest ← slice_from segment recordLayerHeaderLen;
  _ ← guard_err (len rest <? segmentLen) (ParseError LengthErr 2);
  hs ← slice segment recordLayerHeaderLen (recordLayerHeaderLen + segmentLen);
  parseHandshake hs.

Definition ja3_Compute (payload : list byte) : result ClientHello := parseSegment payload.

(** ** The parser does not panic *)

(** Errors of the parser; [runsOn] is none of them. *)
Definition parse_error (e : error) : Prop := ∃ t n, e = ParseError t n.

Ltac parse_error := eexists _, _; reflexivity.
Ltac ja3_step :=
  match goal with
  | |- wp _ (guard_err _ _) _ => apply wp_guard; intros; [parse_error|]
  | |- wp _ (Err _) _ => parse_error
  | _ => wp_step
  end.
Ltac ja3_next := apply wp_bind; ja3_step.

Lemma u16_list_ok s base n : 0 <= base → base + 2 * Z.of_nat n <= len s → wp parse_error (u16_list s base n) (λ _, True).
Proof.
  revert base. induction n as [|n IH]; intros base Hb Hl; cbn [u16_list]; [done|]. ja3_next. apply wp_bind.
  eapply wp_call; [apply IH; lia|]. done.
Qed.

Lemma be16_list_ok s base n : 0 <= base → base + 2 * Z.of_nat n <= len s → wp parse_error (be16_list s base n) (λ _, True).
Proof.
  revert base. induction n as [|n IH]; intros base Hb Hl; cbn [be16_list]; [done|]. do 2 ja3_next. apply wp_bind.
  eapply wp_call; [apply IH; lia|]. done.
Qed.

Lemma byte_list_ok s base n : 0 <= base → base + Z.of_nat n <= len s → wp parse_error (byte_list s base n) (λ _, True).
Proof.
  revert base. induction n as [|n IH]; intros base Hb Hl; cbn [byte_list]; [done|]. ja3_next. apply wp_bind.
  eapply wp_call; [apply IH; lia|]. done.
Qed.

Lemma half_bound n : 0 <= n → 2 * Z.of_nat (Z.to_nat (n / 2)) <= n.
Proof. intros. rewrite Z2Nat.id by (apply Z.div_pos; lia). pose proof (Z.mul_div_le n 2). lia. Qed.

Lemma parse_extension_ok exType sex s : wp parse_error (parse_extension exType sex s) (λ _, True).
Proof.
  destruct s as [sni exs curves pf versions ssa]. unfold parse_extension.
  repeat (apply wp_if; intros _); [..|done]; apply wp_bind;
    unfold parse_sni, parse_curves, parse_point_formats, parse_versions, parse_signature_algorithms, sniExtensionHeaderLen,
      ecExtensionHeaderLen, ecpfExtensionHeaderLen, versionExtensionHeaderLen, signatureAlgorithmsExtensionHeaderLen.
  - do 5 ja3_next. ja3_step; [done|ja3_step].
  - do 4 ja3_next. eapply wp_mono; [done| |apply u16_list_ok; [lia|]]; [done|].
    pose proof (half_bound v). lia.
  - do 4 ja3_next. eapply wp_mono; [done| |apply byte_list_ok; [lia|]]; [done|lia].
  - do 4 ja3_next. eapply wp_mono; [done| |apply be16_list_ok; [lia|]]; [done|]. pose proof (half_bound v). lia.
  - do 4 ja3_next. eapply wp_mono; [done| |apply be16_list_ok; [lia|]]; [done|]. pose proof (half_bound v). lia.
Qed.

Lemma ja3_extensions_ok fuel exs s :
  (length exs < fuel)%nat → len exs < 65536 → wp parse_error (ja3_extensions fuel exs s) (λ _, True).
Proof.
  revert exs s. induction fuel as [|fuel IH]; intros exs s Hf Hl; [lia|]. cbn [ja3_extensions]. unfold extensionHeaderLen.
  ja3_step; [done|]. do 2 ja3_next. apply wp_bind, wp_u16_at; [lia|lia|intros exLen Hex]. do 2 ja3_next.
  apply wp_bind. eapply wp_call; [apply parse_extension_ok|]. intros s1 _.
  rewrite wrap_small by lia. apply wp_bind, wp_slice_from; [lia|intros exs' Hlen _]. apply IH; unfold len in *; lia.
Qed.

(** The parser ends with a hello or an error of its own on any bytes. *)
Lemma ja3_Compute_ok payload : wp parse_error (ja3_Compute payload) (λ _, True).
Proof.
  unfold ja3_Compute, parseSegment, recordLayerHeaderLen. do 5 ja3_next.
  apply wp_bind, wp_u16_at; [lia|lia|intros segmentLen Hseg]. do 2 ja3_next.
  apply wp_bind, wp_slice; [lia|lia|intros hs Hhs _].
  unfold parseHandshake, handshakeHeaderLen, randomDataLen, sessionIDHeaderLen, cipherSuiteHeaderLen, compressMethodHeaderLen.
  do 10 ja3_next. apply wp_bind, wp_byte_at; [lia|intros sid Hsid]. ja3_next.
  apply wp_bind, wp_slice_from; [lia|intros cs Hcs _]. ja3_next. apply wp_bind, wp_u16_at; [lia|lia|intros csLen HcsLen].
  ja3_next. apply wp_bind. eapply wp_call; [apply u16_list_ok; [lia|pose proof (half_bound csLen); lia]|]. intros suites _.
  apply wp_bind, wp_byte_at; [lia|intros cm Hcm]. ja3_next. apply wp_bind, wp_slice_from; [lia|intros exs Hexs _].
  apply wp_bind. unfold parseExtensions, extensionsHeaderLen. ja3_step; [done|]. do 2 ja3_next.
  apply wp_bind, wp_slice_from; [lia|intros exs' Hexs' _]. ja3_next.
  eapply wp_call; [apply ja3_extensions_ok; unfold len in *; lia|]. done.
Qed.
