(* ===== verification/SniffProtocols.v ===== *)
(** * The sniffers: common/sniff

    Every sniffer as a function of the buffers of a stream or of a packet, with the fields
    of the metadata it reads and sets. Parsers of other packages (crypto/tls, sing's HTTP,
    miekg/dns) and the cryptography of QUIC are the class [SniffLibs]. *)
From Stdlib Require Import Strings.Byte.
From stdpp Require Import base list gmap strings.
From S2P Require Import Prelude Netip Metadata RuleItems RuleAction RuleMatch RouteSniff GoBytes TlsFragment Ja3.

Definition ErrInvalid : error := ENamed "os.ErrInvalid".
Definition EOF : error := ENamed "EOF".
Definition ErrUnexpectedEOF : error := ENamed "unexpected EOF".

(** [E.Cause1(ErrNeedMoreData, err)] *)
Definition needMore (err : error) : error := EJoin ErrNeedMoreData err.

(** ** Readers *)

(** [io.ReadFull] and [binary.Read] of [n] bytes. *)
Definition read_full (n : nat) (l : list byte) : result (list byte * list byte) :=
  if (length l <? n)%nat then Err (if has_items l then ErrUnexpectedEOF else EOF) else Ok (take n l, drop n l).
Definition read_u8 (l : list byte) : result (Z * list byte) :=
  match l with [] => Err EOF | b :: l => Ok (b2z b, l) end.
Definition read_uint (n : nat) (l : list byte) : result (Z * list byte) :=
  '(s, l) ← read_full n l; Ok (be_combine s, l).
(** [io.CopyN] to nowhere, [rw.SkipN] *)
Definition discard (n : Z) (l : list byte) : result (list byte) :=
  if len l <? n then Err EOF else Ok (drop (Z.to_nat n) l).

(** The buffers of a stream behind [n] bytes; [Read] of at most [n] bytes, which gives bytes
    of one buffer only. *)
Fixpoint drop_chunks (n : nat) (chunks : list (list byte)) : list (list byte) :=
  match chunks with
  | [] => []
  | c :: chunks => drop n c :: drop_chunks (n - length c) chunks
  end.
Fixpoint read_once (n : nat) (chunks : list (list byte)) : option (list byte) :=
  match chunks with
  | [] => None
  | c :: chunks => if has_items c then Some (take n c) else read_once n chunks
  end.

(** [if err != nil { return E.Cause1(ErrNeedMoreData, err) }] *)
Definition or_more {A} (m : result A) : result A := map_err needMore m.

(** ** Streams *)

Definition set_protocol {S} (protocol : string) (f : sniffFields S) : sniffFields S :=
  MkSniffFields protocol (sf_Domain f) (sf_Client f) (sf_Context f).
Definition set_found {S} (protocol domain client : string) (f : sniffFields S) : sniffFields S :=
  MkSniffFields protocol domain client (sf_Context f).

Definition str_of (l : list byte) : string := String.string_of_list_byte l.
Definition bytes_str (s : string) : list byte := String.list_byte_of_string s.

(** A sniffer that only reads: the protocol it finds. *)
Definition finds {S} (f : sniffFields S) (m : result (sniffFields S)) : sniffFields S * sniffed :=
  match m with
  | Ok f' => (f', SniffOk)
  | Err e => (f, SniffErr e)
  | Panic s => (f, SniffPanic s)
  end.

(** [BitTorrent] *)
Definition bittorrent (chunks : list (list byte)) : result unit :=
  '(first, _) ← or_more (read_u8 (concat chunks));
  _ ← guard_err (negb (first =? 19)) ErrInvalid;
  let header := bytes_str "BitTorrent protocol" in
  let got := read_once 19 (drop_chunks 1 chunks) in
  let protocol := default [] got in
  _ ← guard_err (negb (bool_decide (protocol = take (length protocol) header))) ErrInvalid;
  _ ← guard_err (negb (is_set got)) (needMore EOF);
  guard_err (length protocol <? 19)%nat ErrNeedMoreData.

(** [SSH]: the bytes of the first line, without its end. *)
Fixpoint line_of (l : list byte) : list byte :=
  match l with
  | [] => []
  | b :: l => if Byte.eqb b x0a then [] else b :: line_of l
  end.
Definition drop_cr (l : list byte) : list byte :=
  match reverse l with b :: l' => if Byte.eqb b x0d then reverse l' else l | [] => l end.
(** [ReadLine] of a reader of 4096 bytes. A [\r] at the end of a full buffer is left for the
    next line. *)
Definition read_line (l : list byte) : list byte :=
  let line := line_of l in
  if (4096 <=? length line)%nat then
    let line := take 4096 line in
    match reverse line with b :: l' => if Byte.eqb b x0d then reverse l' else line | [] => line end
  else if (length line <? length l)%nat then drop_cr line else line.
Definition ssh (l : list byte) : result string :=
  let sshPrefix := bytes_str "SSH-2.0-" in
  let prefix := take 8 l in
  _ ← guard_err (negb (bool_decide (prefix = take (length prefix) sshPrefix))) ErrInvalid;
  _ ← guard_err (length prefix <? 8)%nat (needMore EOF);
  client ← slice_from (read_line l) 8;
  Ok (str_of client).

(** [RDP] *)
Definition rdp (l : list byte) : result unit :=
  '(tpktVersion, l) ← or_more (read_u8 l);
  _ ← guard_err (negb (tpktVersion =? 3)) ErrInvalid;
  '(tpktReserved, l) ← or_more (read_u8 l);
  _ ← guard_err (negb (tpktReserved =? 0)) ErrInvalid;
  '(tpktLength, l) ← or_more (read_uint 2 l);
  _ ← guard_err (negb (tpktLength =? 19)) ErrInvalid;
  '(cotpLength, l) ← or_more (read_u8 l);
  _ ← guard_err (negb (cotpLength =? 14)) ErrInvalid;
  '(cotpTpduType, l) ← or_more (read_u8 l);
  _ ← guard_err (negb (cotpTpduType =? 0xE0)) ErrInvalid;
  l ← or_more (discard 5 l);
  '(rdpType, l) ← or_more (read_u8 l);
  _ ← guard_err (negb (rdpType =? 1)) ErrInvalid;
  '(_, l) ← or_more (read_u8 l);
  '(rdpLength, _) ← or_more (read_u8 l);
  guard_err (negb (rdpLength =? 8)) ErrInvalid.

(** ** Packets *)

(** [UTP]: the loop over the extensions, with the first byte of each and what follows. *)
Fixpoint utp_extensions (fuel : nat) (extension : Z) (l : list byte) : result unit :=
  match fuel with
  | O => Err runsOn
  | S fuel =>
      if extension =? 0 then Ok tt
      else
        '(extension, l) ← read_u8 l;
        _ ← guard_err (4 <? extension) ErrInvalid;
        '(length, l) ← read_u8 l;
        utp_extensions fuel extension (drop (Z.to_nat length) l)
  end.
Definition utp (packet : list byte) : result unit :=
  _ ← guard_err (len packet <? 20) ErrInvalid;
  first ← byte_at packet 0;
  let version := Z.land first 0x0F in
  let ty := Z.shiftr first 4 in
  _ ← guard_err (negb (version =? 1) || (4 <? ty)) ErrInvalid;
  a ← byte_at packet 1; b ← byte_at packet 2; c ← byte_at packet 3;
  _ ← guard_err ((len packet =? 148) && (a =? 0) && (b =? 0) && (c =? 0)) ErrInvalid;
  l ← slice_from packet 20;
  utp_extensions (S (length packet)) a l.

(** [UDPTracker] *)
Definition udp_tracker (packet : list byte) : result unit :=
  _ ← guard_err (len packet <? 16) ErrInvalid;
  id ← (s ← slice packet 0 8; uint_at 8 s 0);
  _ ← guard_err (negb (id =? 0x41727101980)) ErrInvalid;
  flag ← (s ← slice packet 8 12; uint_at 4 s 0);
  guard_err (negb (flag =? 0)) ErrInvalid.

(** [DTLSRecord] *)
Definition dtls_record (packet : list byte) : result unit :=
  _ ← guard_err (len packet <? 13) ErrInvalid;
  contentType ← byte_at packet 0;
  _ ← guard_err (negb (mem contentType [20; 21; 22; 23; 25])) ErrInvalid;
  versionMajor ← byte_at packet 1;
  _ ← guard_err (negb (versionMajor =? 0xfe)) ErrInvalid;
  versionMinor ← byte_at packet 2;
  guard_err (negb (versionMinor =? 0xff) && negb (versionMinor =? 0xfd)) ErrInvalid.

(** [NTP]; a quotient by 65536 is above 16 when the number is above 2^20. *)
Definition ntp (packet : list byte) : result unit :=
  _ ← guard_err (len packet <? 48) ErrInvalid;
  firstByte ← byte_at packet 0;
  let li := Z.land (Z.shiftr firstByte 6) 3 in
  let vn := Z.land (Z.shiftr firstByte 3) 7 in
  let mode := Z.land firstByte 7 in
  _ ← guard_err (3 <? li) ErrInvalid;
  _ ← guard_err (negb (vn =? 3) && negb (vn =? 4)) ErrInvalid;
  _ ← guard_err (negb (mode =? 3)) ErrInvalid;
  rootDelay ← (s ← slice packet 4 8; uint_at 4 s 0);
  rootDispersion ← (s ← slice packet 8 12; uint_at 4 s 0);
  _ ← guard_err (16 * 65536 <? rootDelay) ErrInvalid;
  guard_err (16 * 65536 <? rootDispersion) ErrInvalid.

(** [STUNMessage] *)
Definition stun_message (packet : list byte) : result unit :=
  _ ← guard_err (len packet <? 20) ErrInvalid;
  cookie ← (s ← slice packet 4 8; uint_at 4 s 0);
  _ ← guard_err (negb (cookie =? 0x2112A442)) ErrInvalid;
  length ← (s ← slice packet 2 4; uint_at 2 s 0);
  guard_err (len packet <? 20 + length) ErrInvalid.

(** [verifyDNSQueryHeader] of a header or the first bytes of one *)
Definition verifyDNSQueryHeader (header : list byte) : result unit :=
  _ ← (if 2 <? len header then
         flags ← byte_at header 2;
         guard_err (negb (Z.land flags 0x80 =? 0) || negb (Z.land (Z.shiftr flags 3) 0x0F =? 0) ||
                    negb (Z.land flags 0x04 =? 0) || negb (Z.land flags 0x02 =? 0)) ErrInvalid
       else Ok tt);
  _ ← (if 3 <? len header then
         flags ← byte_at header 3;
         guard_err (negb (Z.land flags 0x80 =? 0) || negb (Z.land flags 0x40 =? 0) || negb (Z.land flags 0x0F =? 0)) ErrInvalid
       else Ok tt);
  _ ← (if 5 <? len header then n ← (s ← slice header 4 6; uint_at 2 s 0); guard_err (n =? 0) ErrInvalid else Ok tt);
  _ ← (if 7 <? len header then n ← (s ← slice header 6 8; uint_at 2 s 0); guard_err (negb (n =? 0)) ErrInvalid else Ok tt);
  if 9 <? len header then n ← (s ← slice header 8 10; uint_at 2 s 0); guard_err (negb (n =? 0)) ErrInvalid else Ok tt.

(** ** Libraries *)

(** What the sniffers ask of other packages. [tls_ServerName] is the name in the ClientHello
    that a TLS server parses, or the error of its handshake; [http_Host] the host of a
    request; the two of miekg/dns give the offset behind a name or a record. For QUIC there are
    HKDF with SHA-256 (of a secret and a salt, and the first bytes of what a secret and an
    info expand to), a block of AES and the opening of AES-GCM. *)
Class SniffLibs : Type := {
  tls_ServerName : list byte → result string;
  http_Host : list byte → result string;
  ParseSocksaddr_Fqdn : string → string;
  ParseHost_Fqdn : string → string;
  UnpackDomainName : list byte → Z → result Z;
  UnpackRR : list byte → Z → result Z;
  hkdf_Extract : list byte → list byte → list byte;
  hkdf_Expand : list byte → list byte → Z → option (list byte);
  aes_Encrypt : list byte → list byte → list byte;
  gcm_Open : list byte → list byte → list byte → list byte → result (list byte);
}.

(** Errors in which the end of the fuel of a loop is not hidden. *)
Definition ended (e : error) : Prop := errors_Is e "runs on" = false.

(** The documented behaviour of them: they return, with an error of their own or a value;
    HKDF gives up to 255 blocks of 32 bytes, AES blocks of 16 bytes, and AES-GCM takes nonces
    of 12 bytes. *)
Class SniffLibsOk `{SniffLibs} : Prop := {
  libs_tls l : wp ended (tls_ServerName l) (λ _, True);
  libs_http l : wp ended (http_Host l) (λ _, True);
  libs_name l i : wp ended (UnpackDomainName l i) (λ _, True);
  libs_rr l i : wp ended (UnpackRR l i) (λ _, True);
  libs_expand secret info n : 0 <= n <= 255 * 32 → ∃ out, hkdf_Expand secret info n = Some out ∧ len out = n;
  libs_aes key block : len key = 16 → len block = 16 → len (aes_Encrypt key block) = 16;
  libs_gcm key nonce data header : len key = 16 → len nonce = 12 → wp ended (gcm_Open key nonce data header) (λ _, True);
}.

Section sniffers.
Context `{SniffLibs}.

(** [DomainNameQuery]: the questions and the additional records, which are counted. *)
Fixpoint dns_questions (n : nat) (packet : list byte) (offset : Z) : result Z :=
  match n with
  | O => Ok offset
  | S n =>
      offset ← UnpackDomainName packet offset;
      _ ← guard_err (len packet <? offset + 4) ErrInvalid;
      dns_questions n packet (offset + 4)
  end.
Fixpoint dns_records (n : nat) (packet : list byte) (offset : Z) : result Z :=
  match n with
  | O => Ok offset
  | S n => offset ← UnpackRR packet offset; dns_records n packet offset
  end.
Definition dns_query (packet : list byte) : result unit :=
  _ ← guard_err (len packet <? 12) ErrInvalid;
  _ ← verifyDNSQueryHeader packet;
  questionCount ← (s ← slice packet 4 6; uint_at 2 s 0);
  offset ← dns_questions (Z.to_nat questionCount) packet 12;
  additionalCount ← (s ← slice packet 10 12; uint_at 2 s 0);
  offset ← dns_records (Z.to_nat additionalCount) packet offset;
  guard_err (negb (offset =? len packet)) ErrInvalid.

(** [StreamDomainNameQuery] *)
Definition stream_dns_query (l : list byte) : result unit :=
  '(length, l) ← or_more (read_uint 2 l);
  _ ← guard_err (length <? 12) ErrInvalid;
  match read_full (Z.to_nat length) l with
  | Ok (packet, _) => dns_query packet
  | Err err => _ ← verifyDNSQueryHeader l; Err (needMore err)
  | Panic s => Panic s
  end.

(** [TLSClientHello] and [HTTPHost]: the domain *)
Definition unexpected_more (err : error) : error := if errors_Is err "unexpected EOF" then needMore err else err.
Definition tls_client_hello (l : list byte) : result string :=
  match tls_ServerName l with
  | Ok name => Ok (ParseHost_Fqdn name)
  | Err err => Err (unexpected_more err)
  | Panic s => Panic s
  end.
Definition http_host (l : list byte) : result string :=
  host ← map_err unexpected_more (http_Host l); Ok (ParseSocksaddr_Fqdn host).
End sniffers.
