(* ===== verification/SniffQuic.v ===== *)
(** * The QUIC sniffer: common/sniff/quic.go

    A client Initial is unprotected and decrypted, its CRYPTO frames are put together with
    those of earlier packets, and the ClientHello in them is parsed. The fragments that are
    not enough yet are kept in the metadata for the next packet. *)
From Stdlib Require Import Strings.Byte.
From stdpp Require Import base list gmap strings.
From S2P Require Import Prelude Netip Metadata RuleItems RuleAction RuleMatch RouteSniff GoBytes TlsFragment Ja3 SniffProtocols.

(** [qtls.ReadUvarint] *)
Definition quic_uvarint (l : list byte) : result (Z * list byte) :=
  '(first, l) ← read_u8 l;
  let more := Z.to_nat (Z.shiftl 1 (Z.shiftr first 6) - 1) in
  if (length l <? more)%nat then Err EOF
  else Ok (Z.land first 0x3f * 256 ^ Z.of_nat more + be_combine (take more l), drop more l).

Definition VersionDraft29 : Z := 0xff00001d.
Definition Version1 : Z := 1.
Definition Version2 : Z := 0x6b3343cf.

Record qCryptoFragment : Type := MkFragment {
  qf_offset : Z;
  qf_length : Z;
  qf_payload : list byte;
}.

(** ** The packet *)

(** What the header of a packet says: version, connection ID, length, and where it ends. *)
Record quicHeader : Type := MkQuicHeader {
  qh_version : Z;
  qh_destConnID : list byte;
  qh_packetLen : Z;
  qh_hdrLen : Z;
  qh_sample : list byte;
}.

Definition quic_header (packet : list byte) : result quicHeader :=
  '(typeByte, l) ← read_u8 packet;
  _ ← guard_err (Z.land typeByte 0x40 =? 0) (ENew "bad type byte");
  '(versionNumber, l) ← read_uint 4 l;
  _ ← guard_err (negb (mem versionNumber [VersionDraft29; Version1; Version2])) (ENew "bad version");
  let packetType := Z.shiftr (Z.land typeByte 0x30) 4 in
  _ ← guard_err ((packetType =? 0) && (versionNumber =? Version2) || (packetType =? 2) && negb (versionNumber =? Version2) || (2 <? packetType))
        (ENew "bad packet type");
  '(destConnIDLen, l) ← read_u8 l;
  _ ← guard_err ((destConnIDLen =? 0) || (20 <? destConnIDLen)) (ENew "bad destination connection id length");
  '(destConnID, l) ← read_full (Z.to_nat destConnIDLen) l;
  '(srcConnIDLen, l) ← read_u8 l;
  l ← discard srcConnIDLen l;
  '(tokenLen, l) ← quic_uvarint l;
  l ← discard tokenLen l;
  '(packetLen, l) ← quic_uvarint l;
  let hdrLen := len packet - len l in
  _ ← guard_err (len packet <? hdrLen + packetLen) ErrInvalid;
  l ← discard 4 l;
  '(sample, _) ← read_full 16 l;
  Ok (MkQuicHeader versionNumber destConnID packetLen hdrLen sample).

Definition xor_byte (b : byte) (v : Z) : byte := z2b (Z.lxor (b2z b) v).

(** [for i := range newPacket[hdrLen : hdrLen+4] { newPacket[hdrLen+i] ^= mask[i+1] }] *)
Fixpoint unmask (n : nat) (i : Z) (hdrLen : Z) (mask packet : list byte) : result (list byte) :=
  match n with
  | O => Ok packet
  | S n =>
      _ ← byte_at packet (hdrLen + i);
      v ← byte_at mask (i + 1);
      unmask n (i + 1) hdrLen mask (alter (λ b, xor_byte b v) (Z.to_nat (hdrLen + i)) packet)
  end.

(** [copy] of bytes into a slice at an index *)
Definition overwrite (l : list byte) (i : nat) (data : list byte) : list byte := take i l ++ data ++ drop (i + length data) l.

(** ** Keys *)

Definition SaltOld : list byte :=
  [xaf; xbf; xec; x28; x99; x93; xd2; x4c; x9e; x97; x86; xf1; x9c; x61; x11; xe0; x43; x90; xa8; x99].
Definition SaltV1 : list byte :=
  [x38; x76; x2c; xf7; xf5; x59; x34; xb3; x4d; x17; x9a; xe6; xa4; xc8; x0c; xad; xcc; xbb; x7f; x0a].
Definition SaltV2 : list byte :=
  [x0d; xed; xe3; xde; xf7; x00; xa6; xdb; x81; x93; x81; xbe; x6e; x26; x9d; xcb; xf9; xbd; x2e; xd9].

(** The salt of a version, and the labels of its keys. *)
Definition salt_of (version : Z) : list byte :=
  if version =? Version1 then SaltV1 else if version =? Version2 then SaltV2 else SaltOld.
Definition header_label (version : Z) : string := if version =? Version2 then "quicv2 hp" else "quic hp".
Definition key_label (version : Z) : string := if version =? Version2 then "quicv2 key" else "quic key".
Definition iv_label (version : Z) : string := if version =? Version2 then "quicv2 iv" else "quic iv".

Definition label_info (context : list byte) (label : string) (length : Z) : list byte :=
  let label := bytes_str label in
  be_split 2 (u16 length) ++ [z2b (6 + len label)] ++ bytes_str "tls13 " ++ label ++ [z2b (len context)] ++ context.

(** [xorNonceAEAD]: the nonce of the AEAD behind it *)
Definition xor_nonce (nonceMask nonce : list byte) : list byte :=
  take 4 nonceMask ++ zip_with (λ m b, xor_byte m (b2z b)) (drop 4 nonceMask) nonce.

Definition aes_key_ok (key : list byte) : bool := mem (len key) [16; 24; 32].

Section quic.
Context `{SniffLibs}.

Definition HKDFExpandLabel (secret context : list byte) (label : string) (length : Z) : result (list byte) :=
  match hkdf_Expand secret (label_info context label length) length with
  | Some out => if len out =? length then Ok out else Panic "quic: HKDF-Expand-Label invocation failed unexpectedly"
  | None => Panic "quic: HKDF-Expand-Label invocation failed unexpectedly"
  end.
Definition client_secret (version : Z) (destConnID : list byte) : result (list byte) :=
  HKDFExpandLabel (hkdf_Extract destConnID (salt_of version)) [] "client in" 32.
Definition header_mask (version : Z) (secret pnBytes : list byte) : result (list byte) :=
  hpKey ← HKDFExpandLabel secret [] (header_label version) 16;
  _ ← guard_err (negb (aes_key_ok hpKey)) (ENew "crypto/aes: invalid key size");
  Ok (aes_Encrypt hpKey pnBytes).

(** [AEADAESGCMTLS13] and [Open] of what it gives *)
Definition aead_open (key nonceMask nonce data header : list byte) : result (list byte) :=
  if negb (len nonceMask =? 12) then Panic "tls: internal error: wrong nonce length"
  else if negb (aes_key_ok key) then Panic "crypto/aes: invalid key size"
  else gcm_Open key (xor_nonce nonceMask nonce) data header.

(** The payload of a packet with its number and header. *)
Definition packet_open (version : Z) (secret : list byte) (packetNumber : Z) (data header : list byte) : result (list byte) :=
  key ← HKDFExpandLabel secret [] (key_label version) 16;
  iv ← HKDFExpandLabel secret [] (iv_label version) 12;
  aead_open key iv (be_split 8 packetNumber) data header.

(** The frames of a packet, decrypted. *)
Definition quic_payload (packet : list byte) : result (list byte) :=
  h ← quic_header packet;
  let hdrLen := qh_hdrLen h in
  secret ← client_secret (qh_version h) (qh_destConnID h);
  mask ← header_mask (qh_version h) secret (qh_sample h);
  _ ← byte_at packet 0;
  m ← byte_at mask 0;
  let newPacket := alter (λ b, xor_byte b (Z.land m 0xf)) 0%nat packet in
  newPacket ← unmask 4 0 hdrLen mask newPacket;
  first ← byte_at newPacket 0;
  let packetNumberLength := Z.land first 3 + 1 in
  _ ← guard_err (qh_packetLen h + hdrLen <? hdrLen + packetNumberLength) ErrInvalid;
  packetNumber ← uint_at (Z.to_nat packetNumberLength) newPacket hdrLen;
  let extHdrLen := hdrLen + packetNumberLength in
  _ ← slice newPacket extHdrLen (hdrLen + 4);
  original ← slice packet extHdrLen (hdrLen + 4);
  let newPacket := overwrite newPacket (Z.to_nat extHdrLen) original in
  data ← slice newPacket extHdrLen (qh_packetLen h + hdrLen);
  header ← slice newPacket 0 extHdrLen;
  packet_open (qh_version h) secret packetNumber data header.

(** ** Frames *)

(** The ranges of an ACK frame; the fuel is the bytes that are left and one more, a range
    takes two. *)
Fixpoint skip_ranges (fuel : nat) (n : Z) (l : list byte) : result (list byte) :=
  if n <=? 0 then Ok l
  else match fuel with
       | O => Err runsOn
       | S fuel => '(_, l) ← quic_uvarint l; '(_, l) ← quic_uvarint l; skip_ranges fuel (n - 1) l
       end.

(** The body of a frame: a fragment if there is one, and what follows. *)
Definition quic_frame (frameType : Z) (l : list byte) : result (option qCryptoFragment * list byte) :=
  if (frameType =? 0) || (frameType =? 1) then Ok (None, l)
  else if (frameType =? 2) || (frameType =? 3) then
    '(_, l) ← quic_uvarint l; '(_, l) ← quic_uvarint l;
    '(ackRangeCount, l) ← quic_uvarint l; '(_, l) ← quic_uvarint l;
    l ← skip_ranges (S (length l)) ackRangeCount l;
    if frameType =? 3 then '(_, l) ← quic_uvarint l; '(_, l) ← quic_uvarint l; '(_, l) ← quic_uvarint l; Ok (None, l)
    else Ok (None, l)
  else if frameType =? 6 then
    '(offset, l) ← quic_uvarint l;
    '(length, l) ← quic_uvarint l;
    _ ← guard_err (len l <? length) ErrInvalid;
    if length =? 0 then Ok (None, l)
    else payload ← slice l 0 length; Ok (Some (MkFragment offset length payload), drop (Z.to_nat length) l)
  else if frameType =? 0x1c then
    '(_, l) ← quic_uvarint l; '(_, l) ← quic_uvarint l; '(length, l) ← quic_uvarint l;
    Ok (None, drop (Z.to_nat length) l)
  else Err ErrInvalid.

Fixpoint quic_frames (fuel : nat) (l : list byte) : result (list Z * list qCryptoFragment) :=
  match fuel with
  | O => Err runsOn
  | S fuel =>
      match l with
      | [] => Ok ([], [])
      | b :: l =>
          '(fragment, l) ← quic_frame (b2z b) l;
          '(types, fragments) ← quic_frames fuel l;
          Ok (b2z b :: types, match fragment with Some f => f :: fragments | None => fragments end)
      end
  end.

(** ** Reassembly *)

Definition frame_len (fragments : list qCryptoFragment) : Z := fold_left (λ n f, u64 (n + qf_length f)) fragments 0.

(** [buffer.Write] of a buffer with a capacity *)
Definition buffer_write (capacity : Z) (buffer data : list byte) : list byte :=
  buffer ++ take (Z.to_nat (capacity - len buffer)) data.

(** The search for the fragment at the next offset, and its loop, which goes on as long as a
    fragment is found: the end of the fuel is an error of its own. *)
Fixpoint find_fragments (fuel : nat) (fragments : list qCryptoFragment) (capacity index : Z) (buffer : list byte)
    : result (list byte) :=
  match fuel with
  | O => Err runsOn
  | S fuel =>
      match List.find (λ f, (qf_offset f =? index) && (0 <? qf_length f)) fragments with
      | None => Ok buffer
      | Some f => find_fragments fuel fragments capacity (u64 (qf_offset f + qf_length f)) (buffer_write capacity buffer (qf_payload f))
      end
  end.

(** The record with the fragments that follow each other from the start. *)
Definition reassemble (fragments : list qCryptoFragment) : result (list byte) :=
  let frameLen := frame_len fragments in
  find_fragments (S (length fragments)) fragments (5 + frameLen) 0 (x16 :: x03 :: x03 :: be_split 2 (u16 frameLen)).

(** ** The client *)

Definition isZero (l : list Z) : bool := forallb (λ v, v =? 0) l.
Definition count_type (l : list Z) (v : Z) : nat := length (List.filter (λ x, x =? v) l).
Definition isQUICGo (fingerprint : ClientHello) : bool :=
  mem 0x11EC (ch_EllipticCurves fingerprint) || mem 0xFF01 (ch_Extensions fingerprint).

Definition is_grease (v : option Z) : bool := match v with Some v => Z.land v 0x0F0F =? 0x0A0A | None => false end.
Definition is_safari (f : ClientHello) : bool :=
  (length (ch_Versions f) =? 2)%nat && is_grease (head (ch_Versions f)) &&
    (length (ch_EllipticCurves f) =? 5)%nat && is_grease (head (ch_EllipticCurves f)) ||
  bool_decide (ch_CipherSuites f = [0x1302]) && bool_decide (ch_EllipticCurves f = [29]) &&
    bool_decide (ch_SignatureAlgorithms f = [0x0403]).

Definition index_type (l : list Z) (i : nat) : result Z :=
  match l !! i with Some v => Ok v | None => Panic "index out of range" end.

Definition client_of (types : list Z) (f : ClientHello) : result string :=
  if (length types =? 1)%nat then Ok "firefox"%string
  else
    first ← index_type types 0;
    if (first =? 6) && isZero (tail types) && is_safari f then Ok "safari"%string
    else
      last ← index_type types (length types - 1);
      if (last =? 6) && isZero (take (length types - 1) types) then Ok "quic-go"%string
      else if (1 <? count_type types 6)%nat || (0 <? count_type types 1)%nat then
        Ok (if isQUICGo f then "quic-go"%string else "chromium"%string)
      else Ok "unknown"%string.

(** ** [QUICClientHello] *)

Definition quic_fields : Type := sniffFields (list qCryptoFragment).

(** What follows the frames: the fields of the metadata, and how it ends. *)
Definition quic_finish (types : list Z) (fragments : list qCryptoFragment) (f : quic_fields) : quic_fields * sniffed :=
  let fragments := fragments ++ default [] (sf_Context f) in
  let f := MkSniffFields (sf_Protocol f) (sf_Domain f) (sf_Client f) None in
  if 0xFFFF <? frame_len fragments then (f, SniffErr ErrInvalid)
  else match reassemble fragments with
  | Panic s => (f, SniffPanic s)
  | Err err => (f, SniffErr err)
  | Ok record =>
  match ja3_Compute record with
  | Panic s => (MkSniffFields "quic" (sf_Domain f) (sf_Client f) None, SniffPanic s)
  | Err err => (MkSniffFields "quic" (sf_Domain f) (sf_Client f) (Some fragments), SniffErr (needMore err))
  | Ok fingerprint =>
      let domain := str_of (ch_ServerName fingerprint) in
      if nonempty (sf_Client f) then (MkSniffFields "quic" domain (sf_Client f) None, SniffOk)
      else match client_of types fingerprint with
           | Ok client => (MkSniffFields "quic" domain client None, SniffOk)
           | Err e => (MkSniffFields "quic" domain "" None, SniffErr e)
           | Panic s => (MkSniffFields "quic" domain "" None, SniffPanic s)
           end
  end
  end.

Definition quic_client_hello (packet : list byte) (f : quic_fields) : quic_fields * sniffed :=
  match quic_payload packet with
  | Err e => (f, SniffErr e)
  | Panic s => (f, SniffPanic s)
  | Ok decrypted =>
      match quic_frames (S (length decrypted)) decrypted with
      | Err e => (f, SniffErr e)
      | Panic s => (f, SniffPanic s)
      | Ok (types, fragments) => quic_finish types fragments f
      end
  end.

(** ** All sniffers *)

Definition sniff_stream (s : StreamSniffer) (f : quic_fields) (chunks : list (list byte)) : quic_fields * sniffed :=
  match s with
  | TLSClientHello => finds f (d ← tls_client_hello (concat chunks); Ok (set_found "tls" d (sf_Client f) f))
  | HTTPHost => finds f (d ← http_host (concat chunks); Ok (set_found "http" d (sf_Client f) f))
  | StreamDomainNameQuery => finds f (_ ← stream_dns_query (concat chunks); Ok (set_protocol "dns" f))
  | BitTorrent => finds f (_ ← bittorrent chunks; Ok (set_protocol "bittorrent" f))
  | SSH => finds f (c ← ssh (concat chunks); Ok (set_found "ssh" (sf_Domain f) c f))
  | RDP => finds f (_ ← rdp (concat chunks); Ok (set_protocol "rdp" f))
  end.
Definition sniff_datagram (s : PacketSniffer) (f : quic_fields) (packet : list byte) : quic_fields * sniffed :=
  match s with
  | QUICClientHello => quic_client_hello packet f
  | DomainNameQuery => finds f (_ ← dns_query packet; Ok (set_protocol "dns" f))
  | STUNMessage => finds f (_ ← stun_message packet; Ok (set_protocol "stun" f))
  | UTP => finds f (_ ← utp packet; Ok (set_protocol "bittorrent" f))
  | UDPTracker => finds f (_ ← udp_tracker packet; Ok (set_protocol "bittorrent" f))
  | DTLSRecord => finds f (_ ← dtls_record packet; Ok (set_protocol "dtls" f))
  | NTP => finds f (_ ← ntp packet; Ok (set_protocol "ntp" f))
  end.
End quic.
