(* ===== verification/SniffTheorems.v ===== *)
(** * The sniffers do not panic

    Whatever a client sends, a sniffer ends with a protocol or an error. The QUIC sniffer
    relies on an invariant of what it keeps between packets: fragments that are not empty
    and in which no ClientHello was found. *)
From Stdlib Require Import Strings.Byte.
From stdpp Require Import base list gmap strings.
From S2P Require Import Prelude Netip Metadata RuleItems RuleAction RuleMatch Concrete SrsCodec RouteSniff GoBytes TlsFragment Ja3 SniffProtocols SniffQuic.

(** ** Readers *)

Lemma wp_read_u8 E l P : E EOF → (∀ b l', l = b :: l' → P (b2z b, l')) → wp E (read_u8 l) P.
Proof. destruct l as [|b l]; cbn; auto. Qed.

Lemma wp_read_full E n l P :
  E EOF → E ErrUnexpectedEOF → ((n ≤ length l)%nat → P (take n l, drop n l)) → wp E (read_full n l) P.
Proof.
  intros H1 H2 HP. unfold read_full. destruct (Nat.ltb_spec (length l) n); [by destruct (has_items l)|]. apply HP. lia.
Qed.

Lemma wp_read_uint E n l P :
  E EOF → E ErrUnexpectedEOF → ((n ≤ length l)%nat → P (be_combine (take n l), drop n l)) → wp E (read_uint n l) P.
Proof. intros H1 H2 HP. unfold read_uint. apply wp_bind, wp_read_full; auto. Qed.

Lemma wp_discard E n l P : E EOF → (n <= len l → P (drop (Z.to_nat n) l)) → wp E (discard n l) P.
Proof. intros H1 HP. unfold discard. destruct (Z.ltb_spec (len l) n); [done|]. apply HP. lia. Qed.

Lemma ended_more e : ended e → ended (needMore e).
Proof. unfold ended. cbn. by intros ->. Qed.

Lemma wp_or_more {A} (m : result A) P : wp ended m P → wp ended (or_more m) P.
Proof. destruct m; cbn; auto using ended_more. Qed.

Create HintDb sniff.
#[export] Hint Resolve ended_more : sniff.
#[export] Hint Extern 1 (ended _) => done : sniff.

(** One step through a sniffer that only reads. *)
Ltac sniff_step :=
  lazymatch goal with
  | |- wp _ (or_more _) _ => apply wp_or_more
  | |- wp _ (read_u8 _) _ => apply wp_read_u8; [auto with sniff|intros ? ? ?]
  | |- wp _ (read_full _ _) _ => apply wp_read_full; [auto with sniff|auto with sniff|intros ?]
  | |- wp _ (read_uint _ _) _ => apply wp_read_uint; [auto with sniff|auto with sniff|intros ?]
  | |- wp _ (discard _ _) _ => apply wp_discard; [auto with sniff|intros ?]
  | |- wp _ (let '(_, _) := _ in _) _ => cbn [fst snd]
  | |- wp _ (guard_err _ _) _ => apply wp_guard; intros; [auto with sniff|]
  | |- wp _ (Err _) _ => cbn [wp]; auto with sniff
  | _ => wp_step
  end.
Ltac sniff_all := repeat first [progress cbn beta iota|sniff_step]; try done.

(** ** Streams *)

Lemma bittorrent_ok chunks : wp ended (bittorrent chunks) (λ _, True).
Proof. unfold bittorrent. sniff_all. Qed.

Lemma rdp_ok l : wp ended (rdp l) (λ _, True).
Proof. unfold rdp. sniff_all. Qed.

Lemma take_prefix_lookup (l p : list byte) i b :
  take (length p) l = p → p !! i = Some b → l !! i = Some b.
Proof. intros E Hp. rewrite <- E in Hp. by apply lookup_take_Some in Hp as [? _]. Qed.

(** The first line of what begins with the prefix is not shorter than it. *)
Lemma line_of_prefix p l : Forall (λ b, Byte.eqb b x0a = false) p → line_of (p ++ l) = p ++ line_of l.
Proof. induction 1 as [|b p Hb _ IH]; [done|]. cbn [app line_of]. by rewrite Hb, IH. Qed.

Lemma drop_cr_prefix p c l : Byte.eqb c x0d = false → ∃ l', drop_cr (p ++ [c] ++ l) = p ++ [c] ++ l'.
Proof.
  intros Hc. unfold drop_cr. destruct l as [|x l _] using rev_ind.
  - rewrite reverse_app. cbn. rewrite Hc. by exists [].
  - replace (p ++ [c] ++ l ++ [x]) with ((p ++ [c] ++ l) ++ [x]) by (by rewrite <- !app_assoc).
    rewrite reverse_snoc. destruct (Byte.eqb x x0d); [exists l; by rewrite reverse_involutive|].
    exists (l ++ [x]). by rewrite <- !app_assoc.
Qed.

Lemma read_line_prefix p c l :
  Forall (λ b, Byte.eqb b x0a = false) (p ++ [c]) → Byte.eqb c x0d = false → (length p < 4096)%nat →
  ∃ l', read_line (p ++ [c] ++ l) = p ++ [c] ++ l'.
Proof.
  intros Hp Hc Hl. unfold read_line. rewrite app_assoc, line_of_prefix by done. rewrite <- !app_assoc.
  set (line := line_of l). destruct (Nat.leb_spec 4096 (length (p ++ [c] ++ line))).
  - assert (Et : take 4096 (p ++ [c] ++ line) = p ++ [c] ++ take (4096 - length p - 1) line).
    { rewrite take_app_ge by lia. f_equal. rewrite take_app_ge by (cbn; lia). cbn. do 2 f_equal. }
    rewrite Et. apply drop_cr_prefix. done.
  - destruct (_ <? _)%nat; [by apply drop_cr_prefix|by exists line].
Qed.

Lemma ssh_ok l : wp ended (ssh l) (λ _, True).
Proof.
  unfold ssh. apply wp_bind, wp_guard; [auto with sniff|]. intros Hp. apply wp_bind, wp_guard; [auto with sniff|]. intros Hl.
  apply Nat.ltb_ge in Hl. apply negb_false_iff, bool_decide_eq_true in Hp.
  assert (Hlen : length (take 8 l) = 8%nat) by (rewrite length_take in *; lia). rewrite Hlen in Hp.
  assert (El : l = bytes_str "SSH-2.0" ++ [x2d] ++ drop 8 l) by (rewrite <- (take_drop 8 l) at 1; by rewrite Hp).
  destruct (read_line_prefix (bytes_str "SSH-2.0") x2d (drop 8 l)) as (l' & E); [by repeat constructor|done|cbn; lia|].
  rewrite El, E. apply wp_bind, wp_slice_from; [|done]. unfold len. rewrite !length_app. cbn. lia.
Qed.

(** ** Packets *)

Lemma utp_extensions_ok fuel extension l : (length l < fuel)%nat → wp ended (utp_extensions fuel extension l) (λ _, True).
Proof.
  revert extension l. induction fuel as [|fuel IH]; intros extension l Hf; [lia|]. cbn [utp_extensions].
  sniff_step; [done|]. apply wp_bind, wp_read_u8; [done|intros b l1 ->]. do 2 sniff_step.
  apply wp_bind, wp_read_u8; [done|intros b' l2 ->]. apply IH. rewrite length_drop. cbn in Hf. lia.
Qed.

Lemma utp_ok packet : wp ended (utp packet) (λ _, True).
Proof.
  unfold utp. do 2 sniff_step. do 2 sniff_step. do 2 sniff_step. do 8 sniff_step.
  apply wp_bind, wp_slice_from; [lia|intros l Hl _]. apply utp_extensions_ok. unfold len in *. lia.
Qed.

Lemma udp_tracker_ok packet : wp ended (udp_tracker packet) (λ _, True).
Proof. unfold udp_tracker. sniff_all. Qed.
Lemma dtls_record_ok packet : wp ended (dtls_record packet) (λ _, True).
Proof. unfold dtls_record. sniff_all. Qed.
Lemma ntp_ok packet : wp ended (ntp packet) (λ _, True).
Proof. unfold ntp. sniff_all. Qed.
Lemma stun_message_ok packet : wp ended (stun_message packet) (λ _, True).
Proof. unfold stun_message. sniff_all. Qed.
Lemma verifyDNSQueryHeader_ok header : wp ended (verifyDNSQueryHeader header) (λ _, True).
Proof. unfold verifyDNSQueryHeader. sniff_all. Qed.

Section libs.
Context `{SniffLibsOk}.

Lemma dns_questions_ok n packet offset : wp ended (dns_questions n packet offset) (λ _, True).
Proof.
  revert offset. induction n as [|n IH]; intros offset; cbn [dns_questions]; [done|]. apply wp_bind.
  eapply wp_call; [apply libs_name|]. intros o _. do 2 sniff_step. apply IH.
Qed.

Lemma dns_records_ok n packet offset : wp ended (dns_records n packet offset) (λ _, True).
Proof.
  revert offset. induction n as [|n IH]; intros offset; cbn [dns_records]; [done|]. apply wp_bind.
  eapply wp_call; [apply libs_rr|]. intros o _. apply IH.
Qed.

Lemma dns_query_ok packet : wp ended (dns_query packet) (λ _, True).
Proof.
  unfold dns_query. do 2 sniff_step. apply wp_bind. eapply wp_call; [apply verifyDNSQueryHeader_ok|]. intros _ _.
  do 4 sniff_step. apply wp_bind. eapply wp_call; [apply dns_questions_ok|]. intros o _. do 4 sniff_step.
  apply wp_bind. eapply wp_call; [apply dns_records_ok|]. intros o' _. sniff_all.
Qed.

Lemma stream_dns_query_ok l : wp ended (stream_dns_query l) (λ _, True).
Proof.
  unfold stream_dns_query. do 3 sniff_step. cbn beta iota. do 2 sniff_step.
  unfold read_full. destruct (_ <? _)%nat; [|apply dns_query_ok]. apply wp_bind.
  eapply wp_call; [apply verifyDNSQueryHeader_ok|]. intros _ _. cbn. apply ended_more. by destruct (has_items _).
Qed.

Lemma unexpected_more_ended e : ended e → ended (unexpected_more e).
Proof. unfold unexpected_more. destruct (errors_Is _ _); auto with sniff. Qed.

Lemma tls_client_hello_ok l : wp ended (tls_client_hello l) (λ _, True).
Proof. unfold tls_client_hello. pose proof (libs_tls l). destruct (tls_ServerName l); cbn in *; auto using unexpected_more_ended. Qed.

Lemma http_host_ok l : wp ended (http_host l) (λ _, True).
Proof. unfold http_host. pose proof (libs_http l). destruct (http_Host l); cbn in *; auto using unexpected_more_ended. Qed.

(** ** QUIC *)

Lemma wp_quic_uvarint E l P :
  E EOF → (∀ v l', 0 <= v < 2 ^ 62 → (length l' < length l)%nat → P (v, l')) → wp E (quic_uvarint l) P.
Proof.
  intros HE HP. unfold quic_uvarint. apply wp_bind, wp_read_u8; [done|intros b l1 ->]. cbn beta iota.
  set (more := Z.to_nat _). destruct (Nat.ltb_spec (length l1) more); [done|].
  apply HP; [|rewrite length_drop; cbn; lia].
  assert (Hmore : (more ≤ 7)%nat) by (unfold more; by destruct b; vm_compute; lia).
  assert (Hf : 0 <= Z.land (b2z b) 0x3f < 64).
  { change 0x3f with (Z.ones 6). rewrite Z.land_ones by lia. apply Z.mod_pos_bound. lia. }
  pose proof (be_combine_bound (take more l1)) as Hb. unfold len in Hb. rewrite length_take_le in Hb by done.
  assert (E8 : 2 ^ (8 * Z.of_nat more) = 256 ^ Z.of_nat more) by (change 256 with (2 ^ 8); rewrite <- Z.pow_mul_r by lia; done).
  assert (Hp : 256 ^ Z.of_nat more <= 256 ^ 7) by (apply Z.pow_le_mono_r; lia). rewrite E8 in Hb.
  change (2 ^ 62) with (64 * 256 ^ 7). nia.
Qed.

Definition header_ok (packet : list byte) (h : quicHeader) : Prop :=
  1 <= qh_hdrLen h ∧ qh_hdrLen h + 20 <= len packet ∧ 0 <= qh_packetLen h ∧ qh_hdrLen h + qh_packetLen h <= len packet ∧ len (qh_sample h) = 16.

Lemma quic_header_ok packet : wp ended (quic_header packet) (header_ok packet).
Proof.
  unfold quic_header. apply wp_bind, wp_read_u8; [done|intros b l0 ->]. do 2 sniff_step.
  apply wp_bind, wp_read_uint; [done|done|intros Ha1]. cbn beta iota. do 4 sniff_step.
  apply wp_bind, wp_read_u8; [done|intros b2 l2 E2]. cbn beta iota. do 2 sniff_step.
  apply wp_bind, wp_read_full; [done|done|intros Ha3]. cbn beta iota. apply wp_bind, wp_read_u8; [done|intros b4 l4 E4]. cbn beta iota.
  apply wp_bind, wp_discard; [done|intros Ha5]. apply wp_bind, wp_quic_uvarint; [done|intros v6 l6 Hv6 Ha6]. cbn beta iota.
  apply wp_bind, wp_discard; [done|intros Ha7]. apply wp_bind, wp_quic_uvarint; [done|intros v8 l8 Hv8 Ha8]. cbn beta iota.
  apply wp_bind, wp_guard; [done|intros Hg]. apply wp_bind, wp_discard; [done|intros Ha9].
  apply wp_bind, wp_read_full; [done|done|intros Ha10]. cbn. unfold header_ok. cbn.
  apply (f_equal length) in E2, E4. rewrite ?length_drop in *. cbn in E2, E4. unfold len in *. cbn [length] in *. rewrite ?length_take, ?length_drop. lia.
Qed.

Lemma unmask_ok n i hdrLen mask packet :
  0 <= i → 0 <= hdrLen → i + Z.of_nat n < len mask → hdrLen + i + Z.of_nat n <= len packet →
  wp ended (unmask n i hdrLen mask packet) (λ p, len p = len packet).
Proof.
  revert i packet. induction n as [|n IH]; intros i packet Hi Hh Hm Hp; cbn [unmask]; [done|].
  apply wp_bind, wp_byte_at; [lia|intros _ _]. apply wp_bind, wp_byte_at; [lia|intros v _].
  assert (Hlen : ∀ g j, len (alter g j packet) = len packet) by (intros; unfold len; by rewrite length_alter).
  eapply wp_call; [apply IH; rewrite ?Hlen; lia|]. cbn beta. intros p Hp'. by rewrite Hp', Hlen.
Qed.

Lemma land_3 v : 0 <= Z.land v 3 <= 3.
Proof. change 3 with (Z.ones 2) at 1 2. rewrite Z.land_ones by lia. pose proof (Z.mod_pos_bound v (2 ^ 2)). lia. Qed.

Lemma HKDFExpandLabel_ok secret context label n :
  0 <= n <= 255 * 32 → wp ended (HKDFExpandLabel secret context label n) (λ out, len out = n).
Proof.
  intros Hn. unfold HKDFExpandLabel. destruct (libs_expand secret (label_info context label n) n Hn) as (out & -> & E).
  by rewrite E, Z.eqb_refl.
Qed.

Lemma aes_key_16 key : len key = 16 → aes_key_ok key = true.
Proof. unfold aes_key_ok. by intros ->. Qed.

Lemma header_mask_ok version secret sample : len sample = 16 → wp ended (header_mask version secret sample) (λ mask, len mask = 16).
Proof.
  intros Hs. unfold header_mask. apply wp_bind. eapply wp_call; [apply HKDFExpandLabel_ok; lia|]. intros key Hk.
  rewrite (aes_key_16 key Hk). apply wp_bind. cbn. by apply libs_aes.
Qed.

Lemma packet_open_ok version secret number data header : wp ended (packet_open version secret number data header) (λ _, True).
Proof.
  unfold packet_open. apply wp_bind. eapply wp_call; [apply HKDFExpandLabel_ok; lia|]. intros key Hk.
  apply wp_bind. eapply wp_call; [apply HKDFExpandLabel_ok; lia|]. intros iv Hiv.
  unfold aead_open. rewrite Hiv, (aes_key_16 key Hk). cbn [Z.eqb negb]. apply libs_gcm; [done|].
  unfold xor_nonce, len in *. rewrite length_app, length_take, length_zip_with, length_drop, length_be_split. lia.
Qed.

Lemma quic_payload_ok packet : wp ended (quic_payload packet) (λ _, True).
Proof.
  unfold quic_payload. apply wp_bind. eapply wp_call; [apply quic_header_ok|]. intros h (Hh1 & Hh2 & Hh3 & Hh4 & Hh5).
  apply wp_bind. eapply wp_call; [by apply HKDFExpandLabel_ok|]. intros secret _.
  apply wp_bind. eapply wp_call; [by apply header_mask_ok|]. cbn beta. intros mask Hm.
  apply wp_bind, wp_byte_at; [lia|intros _ _]. apply wp_bind, wp_byte_at; [lia|intros m _]. apply wp_bind.
  eapply wp_call; [apply unmask_ok; [lia|lia|lia|unfold len in *; rewrite length_alter; lia]|]. intros p Hp.
  assert (Hlp : len p = len packet) by (rewrite Hp; unfold len; by rewrite length_alter).
  apply wp_bind, wp_byte_at; [lia|intros first _]. pose proof (land_3 first) as Hn. do 2 sniff_step.
  apply wp_bind, wp_uint_at; [lia|lia|intros number _]. apply wp_bind, wp_slice; [lia|lia|intros _ _ _].
  apply wp_bind, wp_slice; [lia|lia|intros original Ho _].
  assert (Hlo : len (overwrite p (Z.to_nat (qh_hdrLen h + (Z.land first 3 + 1))) original) = len packet).
  { unfold overwrite, len in *. rewrite !length_app, length_take, length_drop. lia. }
  apply wp_bind, wp_slice; [lia|lia|intros data _ _]. apply wp_bind, wp_slice; [lia|lia|intros header _ _]. apply packet_open_ok.
Qed.

Lemma skip_ranges_ok fuel n l :
  (length l < fuel)%nat → wp ended (skip_ranges fuel n l) (λ l', (length l' ≤ length l)%nat).
Proof.
  revert n l. induction fuel as [|fuel IH]; intros n l Hf; [lia|]. cbn [skip_ranges]. destruct (n <=? 0); [cbn; lia|].
  apply wp_bind, wp_quic_uvarint; [done|intros v1 l1 _ H1]. apply wp_bind, wp_quic_uvarint; [done|intros v2 l2 _ H2].
  eapply wp_call; [apply IH; lia|]. cbn. intros l' ?. lia.
Qed.

Ltac uvarint := apply wp_bind, wp_quic_uvarint; [done|intros ? ? ? ?]; cbn beta iota.

Definition fragment_ok (f : qCryptoFragment) : Prop :=
  0 <= qf_offset f < 2 ^ 62 ∧ 0 < qf_length f < 2 ^ 62 ∧ qf_length f = len (qf_payload f).

Lemma quic_frame_ok frameType l :
  wp ended (quic_frame frameType l) (λ r, (length r.2 ≤ length l)%nat ∧ ∀ f, r.1 = Some f → fragment_ok f).
Proof.
  unfold quic_frame. repeat (apply wp_if; intros ?).
  - split; [cbn; lia|done].
  - do 4 uvarint. apply wp_bind. eapply wp_call; [apply skip_ranges_ok; lia|]. cbn beta. intros l5 Hl5.
    apply wp_if; intros _; [do 3 uvarint|]; split; cbn; [lia|done|lia|done].
  - do 2 uvarint. do 2 sniff_step. apply wp_if; intros ?; [split; cbn; [lia|done]|].
    apply wp_bind, wp_slice; [lia|lia|intros payload Hlen _]. cbn. split; [rewrite length_drop; lia|].
    intros f [= <-]. unfold fragment_ok. cbn. lia.
  - do 3 uvarint. cbn. split; [rewrite length_drop; lia|done].
  - done.
Qed.

Lemma quic_frames_ok fuel l :
  (length l < fuel)%nat →
  wp ended (quic_frames fuel l) (λ r, Forall fragment_ok r.2 ∧ (r.1 = [] → r.2 = [])).
Proof.
  revert l. induction fuel as [|fuel IH]; intros l Hf; [lia|]. cbn [quic_frames]. destruct l as [|b l]; [by split|].
  apply wp_bind. eapply wp_call; [apply quic_frame_ok|]. intros [fr l1] [Hl Hfr]. cbn [fst snd] in *.
  apply wp_bind. eapply wp_call; [apply IH; cbn in Hf; lia|]. intros [types frs] [Hfrs _]. cbn in *. split; [|done].
  destruct fr as [f|]; [constructor; auto|done].
Qed.

(** ** The search for the fragments ends *)

Lemma filter_shorter {A} (P Q : A → bool) (x : A) l :
  (∀ y, P y = true → Q y = true) → In x l → P x = false → Q x = true →
  (length (List.filter P l) < length (List.filter Q l))%nat.
Proof.
  intros HPQ. assert (Hle : ∀ l, (length (List.filter P l) ≤ length (List.filter Q l))%nat).
  { induction l0 as [|y l0 IH]; cbn; [lia|]. specialize (HPQ y). destruct (P y), (Q y); cbn; lia || by specialize (HPQ eq_refl). }
  induction l as [|y l IH]; [done|]. intros [->|Hin] HP HQ; cbn.
  - rewrite HP, HQ. cbn. specialize (Hle l). lia.
  - specialize (IH Hin HP HQ). specialize (HPQ y). destruct (P y), (Q y); cbn; lia || by specialize (HPQ eq_refl).
Qed.

(** The offset that is looked for grows with every fragment found, so that no fragment is
    found twice: a round for each and one more are enough. *)
Lemma find_fragments_ends fuel fragments capacity index buffer :
  (∀ f, f ∈ fragments → 0 <= qf_offset f ∧ qf_offset f + qf_length f < 2 ^ 64) →
  (length (List.filter (λ f, index <=? qf_offset f)%Z fragments) < fuel)%nat →
  ∃ record, find_fragments fuel fragments capacity index buffer = Ok record.
Proof.
  intros Hok. revert index buffer. induction fuel as [|fuel IH]; intros index buffer Hfuel; [lia|]. cbn [find_fragments].
  destruct (List.find _ fragments) as [f|] eqn:Ef; [|by eexists]. apply List.find_some in Ef as [Hin Hb].
  apply andb_true_iff in Hb as [Ho%Z.eqb_eq Hl%Z.ltb_lt]. destruct (Hok f) as [Hlow H64]; [by apply list_elem_of_In|].
  rewrite wrap_small by lia. apply IH.
  pose proof (filter_shorter (λ g, qf_offset f + qf_length f <=? qf_offset g) (λ g, index <=? qf_offset g) f fragments) as Hs.
  enough (length (List.filter (λ g, qf_offset f + qf_length f <=? qf_offset g)%Z fragments) <
          length (List.filter (λ g, index <=? qf_offset g)%Z fragments))%nat by lia.
  apply Hs; [intros g; rewrite !Z.leb_le; lia|done|apply Z.leb_gt; lia|apply Z.leb_le; lia].
Qed.

Lemma reassemble_ends fragments :
  (∀ f, f ∈ fragments → 0 <= qf_offset f ∧ qf_offset f + qf_length f < 2 ^ 64) → ∃ record, reassemble fragments = Ok record.
Proof.
  intros Hok. apply find_fragments_ends; [done|]. pose proof (List.filter_length_le (λ f, 0 <=? qf_offset f) fragments). lia.
Qed.

(** What is kept between packets are fragments of frames, with no ClientHello in them. *)
Definition context_ok (f : quic_fields) : Prop :=
  ∀ fragments, sf_Context f = Some fragments →
    Forall fragment_ok fragments ∧ ∀ record, reassemble fragments = Ok record → is_ok (ja3_Compute record) = false.

Definition ends (r : sniffed) : Prop :=
  match r with SniffOk => True | SniffErr e => ended e | SniffPanic _ => False end.

Lemma client_of_ok types f : types ≠ [] → wp ended (client_of types f) (λ _, True).
Proof.
  intros Hne. unfold client_of, index_type. apply wp_if; [done|intros _]. destruct types as [|t types]; [done|].
  cbn [lookup list_lookup mbind result_bind].
  apply wp_if; [done|intros _]. destruct (lookup_lt_is_Some_2 (t :: types) (length (t :: types) - 1)) as [v ->]; [cbn; lia|].
  cbn [mbind result_bind]. repeat (apply wp_if; intros _; [done|]). done.
Qed.

Lemma quic_finish_ok types fragments f :
  context_ok f → Forall fragment_ok fragments → (types = [] → fragments = []) →
  ends (quic_finish types fragments f).2 ∧ context_ok (quic_finish types fragments f).1.
Proof.
  intros Hctx Hfr Ht. unfold quic_finish. set (all := fragments ++ _). destruct (_ <? _); [done|].
  assert (Hall : Forall fragment_ok all).
  { apply Forall_app. split; [done|]. destruct (sf_Context f) as [ctx|] eqn:Ec; [apply Hctx, Ec|constructor]. }
  destruct (reassemble_ends all) as [record Er].
  { intros g Hg. rewrite Forall_forall in Hall. destruct (Hall g Hg) as (? & ? & _). lia. }
  rewrite Er. pose proof (ja3_Compute_ok record) as Hj.
  destruct (ja3_Compute record) as [hello|e|s] eqn:Ej; cbn in Hj; [|split|done].
  - assert (Hne : types ≠ []).
    { intros ->. specialize (Ht eq_refl). subst fragments. unfold all in Er. cbn [app] in Er.
      destruct (sf_Context f) as [ctx|] eqn:Ec; [|by vm_compute in Er; injection Er as <-; vm_compute in Ej].
      change (default [] (Some ctx)) with ctx in Er. destruct (Hctx ctx Ec) as [_ Hn]. specialize (Hn _ Er). by rewrite Ej in Hn. }
    cbn. destruct (nonempty (sf_Client f)); [done|]. pose proof (client_of_ok types hello Hne) as Hc.
    by destruct (client_of types hello).
  - cbn. apply ended_more. by destruct Hj as (t & n & ->).
  - cbn. intros frs [= <-]. split; [done|]. intros record' Er'. rewrite Er in Er'. injection Er' as <-. by rewrite Ej.
Qed.

Lemma quic_client_hello_ok packet f :
  context_ok f → ends (quic_client_hello packet f).2 ∧ context_ok (quic_client_hello packet f).1.
Proof.
  intros Hctx. unfold quic_client_hello. pose proof (quic_payload_ok packet) as Hp.
  destruct (quic_payload packet) as [decrypted|e|s]; cbn in Hp; [|done|done].
  pose proof (quic_frames_ok (S (length decrypted)) decrypted ltac:(lia)) as Hf.
  destruct (quic_frames _ _) as [[types fragments]|e|s]; cbn in Hf; [|done|done]. apply quic_finish_ok; [done|apply Hf..].
Qed.

Lemma finds_ok {A} f (m : result A) (k : A → quic_fields) :
  context_ok f → (∀ a, context_ok (k a)) → wp ended m (λ _, True) →
  ends (finds f (a ← m; Ok (k a))).2 ∧ context_ok (finds f (a ← m; Ok (k a))).1.
Proof. intros Hf Hk Hm. by destruct m as [a|e|s]; cbn in *; [split; [|apply Hk]|split|]. Qed.

Lemma sniff_stream_ok s f chunks :
  context_ok f → ends (sniff_stream s f chunks).2 ∧ context_ok (sniff_stream s f chunks).1.
Proof.
  intros Hf. destruct s; cbn [sniff_stream]; apply finds_ok; auto.
  - apply tls_client_hello_ok.
  - apply http_host_ok.
  - apply stream_dns_query_ok.
  - apply bittorrent_ok.
  - apply ssh_ok.
  - apply rdp_ok.
Qed.

Lemma sniff_datagram_ok s f packet :
  context_ok f → ends (sniff_datagram s f packet).2 ∧ context_ok (sniff_datagram s f packet).1.
Proof.
  intros Hf. destruct s; cbn [sniff_datagram]; [by apply quic_client_hello_ok|apply finds_ok; auto..].
  - apply dns_query_ok.
  - apply stun_message_ok.
  - apply utp_ok.
  - apply udp_tracker_ok.
  - apply dtls_record_ok.
  - apply ntp_ok.
Qed.
End libs.

(** * What sniffing finds

    No sequence of sniffs panics; and a ClientHello in the CRYPTO frames of several QUIC
    packets is found with the last of them, in whatever order its pieces come. *)

(** ** Sequences of sniffs *)

Inductive sniffing : Type :=
| OnStream (s : StreamSniffer) (chunks : list (list byte))
| OnPacket (s : PacketSniffer) (packet : list byte).

Definition sniff_one `{SniffLibs} (x : sniffing) (f : quic_fields) : quic_fields * sniffed :=
  match x with
  | OnStream s chunks => sniff_stream s f chunks
  | OnPacket s packet => sniff_datagram s f packet
  end.
Fixpoint sniff_outcomes `{SniffLibs} (l : list sniffing) (f : quic_fields) : list sniffed :=
  match l with
  | [] => []
  | x :: l => let '(f, r) := sniff_one x f in r :: sniff_outcomes l f
  end.

(** C17 No input makes a sniffer panic or loop: from metadata without a sniffing context, any
    sequence of sniffs of streams and packets, by any sniffers and on any bytes, ends each
    of them with a protocol or an error; every index and slice of the parsers is in range,
    and no loop runs on: a loop whose fuel is used up ends with an error of its own, which
    no outcome is or hides. The libraries are only assumed to return. *)
Theorem sniffers_never_panic `{SniffLibsOk} l f : sf_Context f = None → Forall ends (sniff_outcomes l f).
Proof.
  intros Hf. assert (Hctx : context_ok f) by (intros frs; by rewrite Hf). clear Hf. revert f Hctx.
  induction l as [|x l IH]; intros f Hctx; cbn [sniff_outcomes]; [constructor|].
  assert (Hx : ends (sniff_one x f).2 ∧ context_ok (sniff_one x f).1)
    by (destruct x; [by apply sniff_stream_ok|by apply sniff_datagram_ok]).
  destruct (sniff_one x f) as [f' r]. constructor; [apply Hx|apply IH, Hx].
Qed.

(** ** Reassembly *)

(** Fragments that follow each other from an offset on. *)
Fixpoint consecutive (i : Z) (fs : list qCryptoFragment) : Prop :=
  match fs with
  | [] => True
  | f :: fs => qf_offset f = i ∧ qf_length f = len (qf_payload f) ∧ 0 < qf_length f ∧ consecutive (i + qf_length f) fs
  end.
Definition hello_of (fs : list qCryptoFragment) : list byte := concat (map qf_payload fs).
Definition hello_record (n : Z) (body : list byte) : list byte := x16 :: x03 :: x03 :: be_split 2 (u16 n) ++ body.
Definition total (fs : list qCryptoFragment) : Z := foldr (λ f n, qf_length f + n) 0 fs.

Lemma total_app a b : total (a ++ b) = total a + total b.
Proof. induction a as [|f a IH]; cbn; [done|]. fold (total (a ++ b)). fold (total a). lia. Qed.

Lemma total_Permutation a b : a ≡ₚ b → total a = total b.
Proof. induction 1; cbn in *; unfold total in *; cbn; lia. Qed.

Lemma consecutive_total i fs : consecutive i fs → total fs = len (hello_of fs).
Proof.
  revert i. induction fs as [|f fs IH]; intros i; [done|]. intros (_ & Hl & _ & Hc). unfold hello_of. cbn.
  rewrite len_app. fold (total fs). rewrite (IH _ Hc), Hl. done.
Qed.

Lemma consecutive_in i fs f :
  consecutive i fs → f ∈ fs →
  sits (qf_payload f) (qf_offset f - i) (hello_of fs) ∧ qf_length f = len (qf_payload f) ∧ 0 < qf_length f.
Proof.
  revert i. induction fs as [|g fs IH]; intros i Hc Hf; [by apply elem_of_nil in Hf|]. destruct Hc as (Ho & Hl & Hp & Hc).
  apply elem_of_cons in Hf as [-> |Hf].
  - split; [|done]. exists [], (hello_of fs). unfold hello_of. cbn. split; [done|]. change (len []) with 0. lia.
  - destruct (IH _ Hc Hf) as [(a & c & E & Ha) ?]. split; [|done]. exists (qf_payload g ++ a), c. unfold hello_of in *. cbn.
    rewrite E, <- app_assoc. split; [done|]. rewrite len_app. lia.
Qed.

Lemma consecutive_inj i fs f g : consecutive i fs → f ∈ fs → g ∈ fs → qf_offset f = qf_offset g → f = g.
Proof.
  assert (Hlow : ∀ i fs f, consecutive i fs → f ∈ fs → i <= qf_offset f).
  { clear. intros i fs f Hc Hf. destruct (consecutive_in _ _ _ Hc Hf) as [Hs _]. apply sits_bound in Hs. lia. }
  revert i. induction fs as [|x fs IH]; intros i Hc Hf Hg E; [by apply elem_of_nil in Hf|]. destruct Hc as (Ho & Hl & Hp & Hc).
  apply elem_of_cons in Hf as [-> |Hf]; apply elem_of_cons in Hg as [-> |Hg]; [done|..|by eapply IH].
  - specialize (Hlow _ _ _ Hc Hg). lia.
  - specialize (Hlow _ _ _ Hc Hf). lia.
Qed.

Lemma consecutive_offset i before f after :
  consecutive i (before ++ f :: after) → qf_offset f = i + len (hello_of before).
Proof.
  revert i. induction before as [|x before IH]; intros i; cbn; [unfold hello_of, len; cbn; lia|]. intros (_ & Hl & _ & Hc).
  rewrite (IH _ Hc). unfold hello_of. cbn. rewrite len_app. fold (hello_of before). lia.
Qed.

Lemma total_nonneg fs : (∀ f, f ∈ fs → 0 < qf_length f) → 0 <= total fs ∧ (fs ≠ [] → 0 < total fs).
Proof.
  induction fs as [|f fs IH]; intros Hf; [done|]. destruct IH as [H1 _]; [intros g Hg; apply Hf; by right|].
  assert (0 < qf_length f) by (apply Hf; by left). cbn. fold (total fs). lia.
Qed.

Lemma frame_len_total fs n : 0 <= n → (∀ f, f ∈ fs → 0 < qf_length f) → n + total fs < 2 ^ 64 → fold_left (λ n f, u64 (n + qf_length f)) fs n = n + total fs.
Proof.
  revert n. induction fs as [|f fs IH]; intros n Hn Hf Ht; cbn [fold_left]; [cbn; lia|]. cbn in Ht. fold (total fs) in Ht.
  assert (Hpos : 0 < qf_length f) by (apply Hf; by left). assert (Hr : ∀ g, g ∈ fs → 0 < qf_length g) by (intros g Hg; apply Hf; by right).
  pose proof (total_nonneg fs Hr) as [Hnn _]. rewrite wrap_small by lia. rewrite IH; [cbn; fold (total fs); lia|lia|done|lia].
Qed.

(** What the search has put together is a prefix of the hello, cut at the capacity. *)
Section search.
Context (fs fragments : list qCryptoFragment) (g : Z) (header : list byte).
Context (Hfs : consecutive 0 fs) (Hsub : ∀ f, f ∈ fragments → f ∈ fs) (Hg : 0 <= g) (Hheader : len header = 5).
Context (Hsmall : len (hello_of fs) < 65536).
Abbreviation hello := (hello_of fs).

Lemma buffer_write_piece f index :
  f ∈ fs → qf_offset f = index →
  buffer_write (5 + g) (header ++ take (Z.to_nat (Z.min index g)) hello) (qf_payload f) =
  header ++ take (Z.to_nat (Z.min (index + qf_length f) g)) hello.
Proof.
  intros Hf Ho. destruct (consecutive_in 0 fs f Hfs Hf) as [(a & c & E & Ha) [Hl Hp]].
  rewrite Z.sub_0_r in Ha. unfold buffer_write. rewrite <- app_assoc. f_equal.
  assert (Hai : Z.to_nat index = length a) by (unfold len in Ha; lia).
  assert (Hi0 : 0 <= index) by (pose proof (len_nonneg a); lia).
  assert (Hlen : len (header ++ take (Z.to_nat (Z.min index g)) hello) = 5 + Z.min index g).
  { rewrite len_app, Hheader. f_equal. pose proof (len_nonneg a). unfold len. rewrite length_take, E, !length_app. unfold len in *. lia. }
  rewrite Hlen. destruct (Z.le_gt_cases g index).
  - rewrite !Z.min_r by lia. replace (5 + g - (5 + g)) with 0 by lia. cbn. by rewrite app_nil_r.
  - rewrite (Z.min_l index g) by lia. rewrite Hai, E, take_app_length.
    replace (Z.to_nat (5 + g - (5 + index))) with (Z.to_nat (g - index)) by lia.
    replace (Z.to_nat (Z.min (index + qf_length f) g)) with (length a + Z.to_nat (Z.min (qf_length f) (g - index)))%nat by lia.
    rewrite take_app_add. f_equal. destruct (Z.le_gt_cases (qf_length f) (g - index)).
    + rewrite Z.min_l by lia. rewrite take_ge by (unfold len in *; lia). rewrite take_app_le by (unfold len in *; lia).
      rewrite take_ge; [done|unfold len in *; lia].
    + rewrite Z.min_r by lia. rewrite take_app_le by (unfold len in *; lia). done.
Qed.

Lemma found_fragment index f :
  List.find (λ f, (qf_offset f =? index) && (0 <? qf_length f)) fragments = Some f → f ∈ fs ∧ qf_offset f = index.
Proof.
  intros Hf. apply List.find_some in Hf as [Hin Hb]. apply andb_true_iff in Hb as [Hb _]. apply Z.eqb_eq in Hb.
  split; [|done]. apply Hsub. by apply list_elem_of_In.
Qed.

Lemma piece_end f : f ∈ fs → 0 <= qf_offset f ∧ qf_offset f + qf_length f <= len hello ∧ 0 < qf_length f.
Proof.
  intros Hf. destruct (consecutive_in 0 fs f Hfs Hf) as [Hs [Hl Hp]]. apply sits_bound in Hs. lia.
Qed.

Lemma find_fragments_prefix fuel index record :
  0 <= index → find_fragments fuel fragments (5 + g) index (header ++ take (Z.to_nat (Z.min index g)) hello) = Ok record →
  ∃ m, 0 <= m ∧ record = header ++ take (Z.to_nat (Z.min m g)) hello.
Proof.
  revert index. induction fuel as [|fuel IH]; intros index Hi; cbn [find_fragments]; [done|].
  destruct (List.find _ fragments) as [f|] eqn:Ef; [|intros [= <-]; by exists index]. apply found_fragment in Ef as [Hf Ho].
  pose proof (piece_end f Hf). rewrite buffer_write_piece by done. rewrite Ho, wrap_small by lia. apply IH. lia.
Qed.

Lemma find_fragments_whole before after fuel :
  (∀ f, f ∈ fs → f ∈ fragments) → g = len hello → fs = before ++ after → (length after < fuel)%nat →
  find_fragments fuel fragments (5 + g) (len (hello_of before)) (header ++ take (Z.to_nat (Z.min (len (hello_of before)) g)) hello) =
  Ok (header ++ hello).
Proof.
  intros Hall Hgl. revert before fuel. induction after as [|f after IH]; intros before fuel E Hfuel;
    (destruct fuel as [|fuel]; [lia|]); cbn [find_fragments].
  - rewrite app_nil_r in E. subst before. destruct (List.find _ fragments) as [f|] eqn:Ef.
    + apply found_fragment in Ef as [Hf Ho]. pose proof (piece_end f Hf). lia.
    + rewrite Hgl, Z.min_id, take_ge; [done|unfold len; lia].
  - assert (Hf : f ∈ fs) by (rewrite E; apply elem_of_app; right; by left).
    assert (Ho : qf_offset f = len (hello_of before)).
    { rewrite E in Hfs. rewrite (consecutive_offset _ _ _ _ Hfs). lia. }
    pose proof (piece_end f Hf) as Hend.
    destruct (List.find _ fragments) as [f'|] eqn:Ef.
    + apply found_fragment in Ef as [Hf' Ho']. assert (f' = f) as -> by (eapply consecutive_inj; [exact Hfs|done|done|lia]).
      rewrite buffer_write_piece by done. rewrite wrap_small by lia.
      assert (El : len (hello_of before) + qf_length f = len (hello_of (before ++ [f]))).
      { unfold hello_of. rewrite map_app, concat_app, len_app. cbn. rewrite app_nil_r.
        by destruct (consecutive_in 0 fs f Hfs Hf) as [_ [-> _]]. }
      rewrite Ho, El. apply IH; [by rewrite <- app_assoc|cbn in Hfuel; lia].
    + exfalso. pose proof (List.find_none _ _ Ef f (proj1 (list_elem_of_In _ _) (Hall f Hf))) as Hn. cbn in Hn.
      apply andb_false_iff in Hn as [Hn|Hn]; [apply Z.eqb_neq in Hn|apply Z.ltb_ge in Hn]; lia.
Qed.
End search.

Lemma reassemble_shape fragments :
  reassemble fragments =
  find_fragments (S (length fragments)) fragments (5 + frame_len fragments) 0
    (hello_record (frame_len fragments) [] ++ take (Z.to_nat (Z.min 0 (frame_len fragments))) []).
Proof. unfold reassemble, hello_record. by rewrite take_nil, !app_nil_r. Qed.

Lemma hello_record_app n body : hello_record n body = hello_record n [] ++ body.
Proof. unfold hello_record. cbn. done. Qed.

Lemma permutation_lengths fs fragments rest :
  consecutive 0 fs → fragments ++ rest ≡ₚ fs → len (hello_of fs) <= 65535 →
  (∀ f, f ∈ fragments → f ∈ fs) ∧ frame_len fragments = total fragments ∧ 0 <= total fragments ∧
  (rest ≠ [] → total fragments < len (hello_of fs)) ∧ total fragments + total rest = len (hello_of fs).
Proof.
  intros Hc Hp Hl. assert (Hin : ∀ f, f ∈ fragments ++ rest → f ∈ fs) by (intros f; by rewrite Hp).
  assert (Hpos : ∀ f, f ∈ fragments ++ rest → 0 < qf_length f).
  { intros f Hf. by destruct (consecutive_in 0 fs f Hc (Hin f Hf)) as [_ [_ ?]]. }
  pose proof (total_Permutation _ _ Hp) as Ht. rewrite total_app, (consecutive_total _ _ Hc) in Ht.
  destruct (total_nonneg fragments) as [H1 _]; [intros f Hf; apply Hpos, elem_of_app; by left|].
  destruct (total_nonneg rest) as [H2 H3]; [intros f Hf; apply Hpos, elem_of_app; by right|].
  split_and!; [intros f Hf; apply Hin, elem_of_app; by left| |done|intros Hr; specialize (H3 Hr); lia|done].
  unfold frame_len. rewrite frame_len_total; [lia|lia|intros f Hf; apply Hpos, elem_of_app; by left|lia].
Qed.

Lemma len_hello_record n : len (hello_record n []) = 5.
Proof. done. Qed.

(** All fragments: the whole hello. *)
Lemma reassemble_whole fs fragments :
  consecutive 0 fs → fragments ≡ₚ fs → len (hello_of fs) <= 65535 →
  reassemble fragments = Ok (hello_record (len (hello_of fs)) (hello_of fs)) ∧ frame_len fragments = len (hello_of fs).
Proof.
  intros Hc Hp Hl. destruct (permutation_lengths fs fragments [] Hc) as (Hsub & Hf & Hnn & _ & Ht); [by rewrite app_nil_r|done|].
  assert (Eg : frame_len fragments = len (hello_of fs)) by (rewrite Hf; cbn in Ht; lia). split; [|done].
  rewrite reassemble_shape, Eg, (hello_record_app _ (hello_of fs)).
  rewrite <- (find_fragments_whole fs fragments (len (hello_of fs)) (hello_record (len (hello_of fs)) []) Hc Hsub (len_nonneg _)
    (len_hello_record _) ltac:(lia) [] fs (S (length fragments))); [|intros f; by rewrite Hp|done|done|rewrite Hp; lia].
  change (len (hello_of [])) with 0. rewrite Z.min_l by (apply len_nonneg). cbn [Z.to_nat]. by rewrite !take_0.
Qed.

(** Some of them: a record whose length is theirs, with a prefix of the hello. *)
Lemma reassemble_part fs fragments rest :
  consecutive 0 fs → fragments ++ rest ≡ₚ fs → len (hello_of fs) <= 65535 → rest ≠ [] →
  ∃ g k, reassemble fragments = Ok (hello_record g (take k (hello_of fs))) ∧ frame_len fragments = g ∧
    0 <= g < len (hello_of fs) ∧ Z.of_nat k <= g.
Proof.
  intros Hc Hp Hl Hr. destruct (permutation_lengths fs fragments rest Hc Hp Hl) as (Hsub & Hf & Hnn & Hlt & _).
  destruct (reassemble_ends fragments) as [record Er].
  { intros f Hin. destruct (piece_end fs Hc f (Hsub f Hin)). lia. }
  assert (E : find_fragments (S (length fragments)) fragments (5 + frame_len fragments) 0
    (hello_record (frame_len fragments) [] ++ take (Z.to_nat (Z.min 0 (frame_len fragments))) (hello_of fs)) = Ok record).
  { rewrite <- Er, reassemble_shape, Z.min_l by lia. change (Z.to_nat 0) with 0%nat. by rewrite !take_0. }
  apply (find_fragments_prefix fs fragments (frame_len fragments) (hello_record (frame_len fragments) []) Hc Hsub) in E as (m & Hm & ->);
    [|lia|done|lia|lia].
  exists (frame_len fragments), (Z.to_nat (Z.min m (frame_len fragments))). rewrite (hello_record_app _ (take _ _)).
  specialize (Hlt Hr). split_and!; [done|done|lia|lia|lia].
Qed.

(** ** Parsing records *)

Lemma parseSegment_record n body :
  0 <= n < 65536 →
  parseSegment (hello_record n body) = if len body <? n then Err (ParseError LengthErr 2) else parseHandshake (take (Z.to_nat n) body).
Proof.
  intros Hn. unfold parseSegment, recordLayerHeaderLen. set (l := hello_record n body).
  assert (Hl : len l = 5 + len body) by (unfold l, hello_record, len; cbn [length]; rewrite length_app; cbn; lia).
  pose proof (len_nonneg body). unfold guard_err at 1. rewrite (proj2 (Z.ltb_ge _ _)) by lia. cbn [mbind result_bind].
  assert (E0 : byte_at l 0 = Ok 22) by (by apply (byte_at_lookup l 0 x16)). rewrite E0. cbn [mbind result_bind guard_err negb Z.eqb].
  assert (E1 : u16_at l 1 = Ok 771) by (unfold u16_at; rewrite (byte_at_lookup l 1 x03), (byte_at_lookup l (1 + 1) x03) by done; done).
  rewrite E1. cbn [mbind result_bind]. change (guard_err (negb (tls_version_ok 771)) (ParseError VersionErr 1)) with (@Ok unit tt).
  cbn [mbind result_bind].
  assert (E3 : u16_at l 3 = Ok n).
  { unfold u16_at. rewrite (byte_at_lookup l 3 (z2b (u16 n / 256))), (byte_at_lookup l (3 + 1) (z2b (u16 n))) by done. cbn [mbind result_bind].
    pose proof (be_combine_u16 n Hn) as Hb. unfold be_combine in Hb. cbn [be_split app fold_left] in Hb.
    rewrite lor_bytes by apply b2z_bound. f_equal. lia. }
  rewrite E3. cbn [mbind result_bind]. unfold slice_from. rewrite (slice_ok l 5 (len l)) by lia. cbn [mbind result_bind].
  rewrite take_ge by (rewrite length_drop; unfold len in *; lia). change (drop (Z.to_nat 5) l) with body.
  destruct (Z.ltb_spec (len body) n); cbn [guard_err mbind result_bind]; [done|]. rewrite slice_ok by lia. cbn [mbind result_bind].
  change (drop (Z.to_nat 5) l) with body. by replace (5 + n - 5) with n by lia.
Qed.

(** A handshake that is parsed has the length its header says. *)
Lemma parseHandshake_length hs hello :
  parseHandshake hs = Ok hello →
  39 <= len hs ∧ ∃ a b c, byte_at hs 1 = Ok a ∧ byte_at hs 2 = Ok b ∧ byte_at hs 3 = Ok c ∧
    len hs - 4 = Z.lor (Z.lor (Z.shiftl a 16) (Z.shiftl b 8)) c.
Proof.
  unfold parseHandshake, handshakeHeaderLen, randomDataLen, sessionIDHeaderLen.
  destruct (Z.ltb_spec (len hs) (6 + 32 + 1)); cbn [guard_err mbind result_bind]; [done|].
  destruct (byte_at hs 0); cbn [mbind result_bind]; [|done|done]. destruct (guard_err _ _); cbn [mbind result_bind]; [|done|done].
  destruct (byte_at hs 1) as [a'| |]; cbn [mbind result_bind]; [|done|done]. destruct (byte_at hs 2) as [b| |]; cbn [mbind result_bind]; [|done|done].
  destruct (byte_at hs 3) as [c| |]; cbn [mbind result_bind]; [|done|done]. unfold slice_from. rewrite slice_ok by lia. cbn [mbind result_bind].
  rewrite take_ge by (rewrite length_drop; unfold len in *; lia).
  assert (El : len (drop (Z.to_nat 4) hs) = len hs - 4) by (unfold len in *; rewrite length_drop; lia). rewrite El.
  destruct (Z.eqb_spec (len hs - 4) (Z.lor (Z.lor (Z.shiftl a' 16) (Z.shiftl b 8)) c)) as [E|E]; cbn [negb guard_err mbind result_bind]; [|done].
  intros _. split; [lia|]. by exists a', b, c.
Qed.

Lemma byte_at_take n l i : i < Z.of_nat n → 0 <= i → byte_at (take n l) i = byte_at l i ∨ len l <= i.
Proof.
  intros Hn Hi. destruct (Z.le_gt_cases (len l) i); [by right|left]. destruct (lookup_lt_is_Some_2 l (Z.to_nat i)) as [b Hb]; [unfold len in *; lia|].
  rewrite (byte_at_lookup l i b) by done. apply byte_at_lookup; [|done]. by rewrite lookup_take_lt by lia.
Qed.

(** A prefix of a hello is not a hello. *)
Lemma prefix_fails hs hello n : parseHandshake hs = Ok hello → (n < length hs)%nat → is_ok (parseHandshake (take n hs)) = false.
Proof.
  intros Hok Hn. destruct (parseHandshake (take n hs)) as [hello'|e|e] eqn:E; [|done|done]. exfalso.
  apply parseHandshake_length in Hok as (H39 & a & b & c & E1 & E2 & E3 & El).
  apply parseHandshake_length in E as (H39' & a' & b' & c' & E1' & E2' & E3' & El').
  assert (Hlen : len (take n hs) = Z.of_nat n) by (unfold len; rewrite length_take; lia). rewrite Hlen in *.
  destruct (byte_at_take n hs 1) as [F1|]; [lia|lia| |lia]. destruct (byte_at_take n hs 2) as [F2|]; [lia|lia| |lia].
  destruct (byte_at_take n hs 3) as [F3|]; [lia|lia| |lia]. rewrite F1, E1 in E1'. rewrite F2, E2 in E2'. rewrite F3, E3 in E3'.
  injection E1' as ->. injection E2' as ->. injection E3' as ->. unfold len in *. lia.
Qed.

(** ** A hello in several packets *)

Section packets.
Context `{SniffLibs}.

Definition frames_of (packet : list byte) : result (list Z * list qCryptoFragment) :=
  decrypted ← quic_payload packet; quic_frames (S (length decrypted)) decrypted.

Lemma quic_client_hello_frames packet f types fragments :
  frames_of packet = Ok (types, fragments) → quic_client_hello packet f = quic_finish types fragments f.
Proof.
  unfold frames_of, quic_client_hello. destruct (quic_payload packet) as [d|e|e]; cbn [mbind result_bind]; [|done|done]. by intros ->.
Qed.

Lemma frames_of_types packet types fragments : frames_of packet = Ok (types, fragments) → fragments ≠ [] → types ≠ [].
Proof.
  unfold frames_of. destruct (quic_payload packet) as [d|e|e]; cbn [mbind result_bind]; [|done|done]. intros E Hne ->.
  pose proof (quic_frames_ok (S (length d)) d ltac:(lia)) as Hok. rewrite E in Hok. cbn in Hok. destruct Hok as [_ Hok]. by apply Hne, Hok.
Qed.

(** The sniff of packets one after the other. *)
Fixpoint sniff_quic (packets : list (list byte)) (f : quic_fields) : quic_fields * list sniffed :=
  match packets with
  | [] => (f, [])
  | packet :: packets =>
      let '(f, r) := sniff_datagram QUICClientHello f packet in
      let '(f, rs) := sniff_quic packets f in (f, r :: rs)
  end.

Definition wants_more (r : sniffed) : Prop := ∃ e, r = SniffErr e ∧ needs_more (Some e) = true.

Lemma finish_part fs hello types fragments rest f :
  consecutive 0 fs → len (hello_of fs) <= 65535 → parseHandshake (hello_of fs) = Ok hello →
  (fragments ++ default [] (sf_Context f)) ++ rest ≡ₚ fs → rest ≠ [] →
  wants_more (quic_finish types fragments f).2 ∧
  sf_Context (quic_finish types fragments f).1 = Some (fragments ++ default [] (sf_Context f)).
Proof.
  intros Hc Hl Hok Hp Hr. unfold quic_finish. set (all := fragments ++ _) in *.
  destruct (reassemble_part fs all rest Hc Hp Hl Hr) as (g & k & E & Eg & Hg & Hk). rewrite Eg, E.
  rewrite (proj2 (Z.ltb_ge _ _)) by lia.
  assert (Hfail : is_ok (ja3_Compute (hello_record g (take k (hello_of fs)))) = false).
  { unfold ja3_Compute. rewrite parseSegment_record by lia. destruct (Z.ltb_spec (len (take k (hello_of fs))) g); [done|].
    assert (Hkg : Z.to_nat g = k) by (unfold len in *; rewrite length_take in *; lia). rewrite Hkg, take_take, Nat.min_id.
    eapply prefix_fails; [done|]. unfold len in *. lia. }
  pose proof (ja3_Compute_ok (hello_record g (take k (hello_of fs)))) as Hj.
  destruct (ja3_Compute _) as [h|e|e]; [done| |done]. split; [|done]. eexists. split; [done|]. done.
Qed.

Lemma finish_whole fs hello types fragments f :
  consecutive 0 fs → len (hello_of fs) <= 65535 → ja3_Compute (hello_record (len (hello_of fs)) (hello_of fs)) = Ok hello →
  fragments ++ default [] (sf_Context f) ≡ₚ fs → types ≠ [] →
  ∃ f', quic_finish types fragments f = (f', SniffOk) ∧ sf_Protocol f' = "quic"%string ∧ sf_Domain f' = str_of (ch_ServerName hello).
Proof.
  intros Hc Hl Hok Hp Ht. unfold quic_finish. set (all := fragments ++ _) in *.
  destruct (reassemble_whole fs all Hc Hp Hl) as [E Eg]. rewrite Eg, E, (proj2 (Z.ltb_ge _ _)) by lia. rewrite Hok.
  cbn [sf_Client]. destruct (nonempty (sf_Client f)); [by eexists|].
  pose proof (client_of_ok types hello Ht) as Hcl. destruct (client_of types hello) as [c|e|e] eqn:Ecl; [by eexists| |done].
  exfalso. revert Ecl. unfold client_of, index_type. repeat case_match; cbn; try done; repeat case_match; done.
Qed.

(** C18 A ClientHello is found in QUIC packets whatever way it is cut: when the CRYPTO frames of
    some packets hold pieces that follow each other and together are a ClientHello, in any
    order and in any number of frames, every packet but the last ends with the wish for more
    data, nothing found before being lost, and the last one gives the protocol and the
    server name of the hello. *)
Theorem quic_hello_found fs hello packets contents final types fragments f :
  consecutive 0 fs → len (hello_of fs) <= 65535 → ja3_Compute (hello_record (len (hello_of fs)) (hello_of fs)) = Ok hello →
  Forall2 (λ packet content, frames_of packet = Ok content) packets contents →
  frames_of final = Ok (types, fragments) → fragments ≠ [] →
  concat (map snd contents) ++ fragments ≡ₚ fs → sf_Context f = None →
  Forall wants_more (sniff_quic packets f).2 ∧
  ∃ f', sniff_datagram QUICClientHello (sniff_quic packets f).1 final = (f', SniffOk) ∧
        sf_Protocol f' = "quic"%string ∧ sf_Domain f' = str_of (ch_ServerName hello).
Proof.
  intros Hc Hl Hok Hcontents Hfinal Hne Hp Hf.
  assert (Hparse : parseHandshake (hello_of fs) = Ok hello).
  { unfold ja3_Compute in Hok. rewrite parseSegment_record in Hok by (pose proof (len_nonneg (hello_of fs)); lia).
    rewrite Z.ltb_irrefl, take_ge in Hok by (unfold len; lia). done. }
  assert (Hgen : concat (map snd contents) ++ fragments ++ default [] (sf_Context f) ≡ₚ fs) by (rewrite Hf; cbn; by rewrite app_nil_r).
  clear Hp Hf. revert f Hgen. induction Hcontents as [|packet [types1 fragments1] packets contents Hpacket _ IH]; intros f Hgen; cbn [sniff_quic].
  - split; [constructor|]. cbn [fst sniff_datagram]. rewrite (quic_client_hello_frames _ _ _ _ Hfinal).
    apply (finish_whole fs); [done..|by eapply frames_of_types].
  - cbn [sniff_datagram]. rewrite (quic_client_hello_frames _ _ _ _ Hpacket). cbn [map concat snd] in Hgen.
    destruct (finish_part fs hello types1 fragments1 (concat (map snd contents) ++ fragments) f Hc Hl Hparse) as [Hw Hctx].
    { rewrite <- Hgen. solve_Permutation. }
    { intros E. apply app_eq_nil in E as [_ E]. done. }
    destruct (quic_finish types1 fragments1 f) as [f1 r1]. cbn [fst snd] in *.
    destruct (IH f1) as [IH1 IH2].
    { rewrite Hctx. cbn. rewrite <- Hgen. solve_Permutation. }
    destruct (sniff_quic packets f1) as [f2 rs]. cbn [fst snd] in *. split; [by constructor|done].
Qed.
End packets.

(** ** Packets that are sniffed *)

(** Libraries without encryption, for packets whose frames are in the clear. *)
Instance c_libs : SniffLibs := {|
  tls_ServerName l := Err EOF;
  http_Host l := Err EOF;
  ParseSocksaddr_Fqdn s := s;
  ParseHost_Fqdn s := s;
  UnpackDomainName l i := Ok (i + 1);
  UnpackRR l i := Ok (i + 11);
  hkdf_Extract secret salt := secret;
  hkdf_Expand secret info n := Some (repeat x00 (Z.to_nat n));
  aes_Encrypt key block := repeat x00 16;
  gcm_Open key nonce data header := Ok data;
|}.
Instance c_libs_ok : SniffLibsOk.
Proof. split; try done. intros secret info n Hn. eexists. split; [done|]. unfold len. rewrite repeat_length. lia. Qed.

Definition c_quic_fields : quic_fields := MkSniffFields "" "" "" None.
Definition c_handshake : list byte := drop 5 c_hello.
Definition c_fragment (offset n : nat) : qCryptoFragment :=
  MkFragment (Z.of_nat offset) (Z.of_nat n) (take n (drop offset c_handshake)).
Definition c_packet (frames : list byte) : list byte :=
  [xc0; x00; x00; x00; x01; x01; x09; x00; x00] ++ be_split 1 (1 + len frames) ++ [x00] ++ frames.
Definition c_crypto (f : qCryptoFragment) : list byte :=
  x06 :: be_split 1 (qf_offset f) ++ be_split 1 (qf_length f) ++ qf_payload f.

(** A DNS query, a stream that is none, and a QUIC packet with half of a hello. *)
Lemma sniffers_never_panic_witness :
  let l := [OnPacket STUNMessage [x00]; OnStream SSH [[x53]]; OnPacket QUICClientHello (c_packet (c_crypto (c_fragment 0 30)))] in
  length (sniff_outcomes l c_quic_fields) = 3%nat ∧ Forall ends (sniff_outcomes l c_quic_fields).
Proof. intros l. split; [by vm_compute|]. by apply (sniffers_never_panic l c_quic_fields). Defined.

(** The second half of a hello comes first. *)
Lemma quic_hello_found_witness :
  let first := c_packet (c_crypto (c_fragment 30 35)) in
  let final := c_packet (c_crypto (c_fragment 0 30)) in
  Forall wants_more (sniff_quic [first] c_quic_fields).2 ∧
  ∃ f', sniff_datagram QUICClientHello (sniff_quic [first] c_quic_fields).1 final = (f', SniffOk) ∧
        sf_Protocol f' = "quic"%string ∧ sf_Domain f' = "a.example"%string.
Proof.
  intros first final.
  assert (Hok : is_ok (ja3_Compute (hello_record 65 c_handshake)) = true) by (by vm_compute).
  destruct (ja3_Compute (hello_record 65 c_handshake)) as [hello|e|e] eqn:E; [|done|done].
  assert (Hname : str_of (ch_ServerName hello) = "a.example"%string) by (revert E; vm_compute; by intros [= <-]).
  rewrite <- Hname.
  apply (quic_hello_found [c_fragment 0 30; c_fragment 30 35] hello [first] [([6], [c_fragment 30 35])] final [6] [c_fragment 0 30]).
  - vm_compute. done.
  - vm_compute. done.
  - exact E.
  - repeat constructor.
  - by vm_compute.
  - done.
  - vm_compute. constructor.
  - done.
Defined.

(** A packet that comes twice before the hello is complete is counted twice: the record is
    longer than the hello, and the hello is not found with its last piece. *)
Example repeated_packet_not_found :
  let first := c_packet (c_crypto (c_fragment 30 35)) in
  let final := c_packet (c_crypto (c_fragment 0 30)) in
  wants_more (sniff_datagram QUICClientHello (sniff_quic [first; first] c_quic_fields).1 final).2.
Proof. eexists. split; by vm_compute. Qed.
