(* ===== verification/UploadQueue.v ===== *)
(** * The upload queue: transport/v2rayxhttp/upload_queue.go

    Uploads of an XHTTP connection come as numbered requests in any order; the queue gives
    their bytes to one reader in order. Requests push from goroutines of their own, through a
    channel; the reader takes packets out of the channel into a heap. *)
From Stdlib Require Import Strings.Byte.
From stdpp Require Import base list strings.
From S2P Require Import Prelude Netip.

(** A request with a stream of its own has a reader, known by a number. *)
Record Packet : Type := MkPacket {
  pk_Reader : option nat;
  pk_Payload : list byte;
  pk_Seq : Z;
}.
#[export] Instance Packet_eq_dec : EqDecision Packet.
Proof. solve_decision. Defined.
#[export] Instance Packet_inhabited : Inhabited Packet := populate (MkPacket None [] 0).

(** ** The heap: container/heap over [uploadHeap] *)

Definition Less (h : list Packet) (i j : nat) : bool := pk_Seq (h !!! i) <? pk_Seq (h !!! j).
Definition Swap (h : list Packet) (i j : nat) : list Packet := <[i:=h !!! j]> (<[j:=h !!! i]> h).

(** [(j - 1) / 2] of Go is 0 for 0. *)
Definition parent (j : nat) : nat := ((j - 1) / 2)%nat.

(** [up] and [down]; the fuel is the length of the heap, an index that is moved at least
    halves or doubles. *)
Fixpoint up (fuel : nat) (h : list Packet) (j : nat) : list Packet :=
  match fuel with
  | O => h
  | S fuel =>
      let i := parent j in
      if (i =? j)%nat || negb (Less h j i) then h else up fuel (Swap h i j) i
  end.
Fixpoint down (fuel : nat) (h : list Packet) (i n : nat) : list Packet :=
  match fuel with
  | O => h
  | S fuel =>
      let j1 := (2 * i + 1)%nat in
      if (n <=? j1)%nat then h
      else
        let j2 := (j1 + 1)%nat in
        let j := if (j2 <? n)%nat && Less h j2 j1 then j2 else j1 in
        if negb (Less h j i) then h else down fuel (Swap h i j) j n
  end.

Definition heap_Push (h : list Packet) (x : Packet) : list Packet :=
  let h := h ++ [x] in up (length h) h (length h - 1).

(** [Pop] of a heap that is not empty: the packet, and the heap without it. *)
Definition heap_Pop (h : list Packet) : Packet * list Packet :=
  let n := (length h - 1)%nat in
  let h := down (length h) (Swap h 0 n) 0 n in
  (h !!! n, take n h).

(** ** The queue *)

Record uploadQueue : Type := MkUploadQueue {
  uq_reader : option nat;
  uq_nomore : bool;
  uq_pushedPackets : list Packet;
  uq_heap : list Packet;
  uq_nextSeq : Z;
  uq_closed : bool;
  uq_maxPackets : nat;
}.
Definition NewUploadQueue (maxPackets : nat) : uploadQueue := MkUploadQueue None false [] [] 0 false maxPackets.

Definition set_reader (r : option nat) (q : uploadQueue) : uploadQueue :=
  MkUploadQueue r (uq_nomore q) (uq_pushedPackets q) (uq_heap q) (uq_nextSeq q) (uq_closed q) (uq_maxPackets q).
Definition set_nomore (q : uploadQueue) : uploadQueue :=
  MkUploadQueue (uq_reader q) true (uq_pushedPackets q) (uq_heap q) (uq_nextSeq q) (uq_closed q) (uq_maxPackets q).
Definition set_pushed (l : list Packet) (q : uploadQueue) : uploadQueue :=
  MkUploadQueue (uq_reader q) (uq_nomore q) l (uq_heap q) (uq_nextSeq q) (uq_closed q) (uq_maxPackets q).
Definition set_heap (h : list Packet) (q : uploadQueue) : uploadQueue :=
  MkUploadQueue (uq_reader q) (uq_nomore q) (uq_pushedPackets q) h (uq_nextSeq q) (uq_closed q) (uq_maxPackets q).
Definition set_nextSeq (s : Z) (q : uploadQueue) : uploadQueue :=
  MkUploadQueue (uq_reader q) (uq_nomore q) (uq_pushedPackets q) (uq_heap q) s (uq_closed q) (uq_maxPackets q).
Definition set_closed (q : uploadQueue) : uploadQueue :=
  MkUploadQueue (uq_reader q) (uq_nomore q) (uq_pushedPackets q) (uq_heap q) (uq_nextSeq q) true (uq_maxPackets q).

Definition io_EOF : error := ENamed "io.EOF".
Definition queueClosed : error := ENew "packet queue closed".

(** [Push] before its [select] *)
Definition push_enter (q : uploadQueue) (p : Packet) : result uploadQueue :=
  if uq_closed q then Err queueClosed
  else if uq_nomore q then Err (ENew "h.reader already exists")
  else Ok (if is_set (pk_Reader p) then set_nomore q else q).

(** What [Read] returns: bytes, an error, or what a reader returns. *)
Inductive read_result : Type :=
| ReadBytes (b : list byte)
| ReadErr (e : error)
| ReadFrom (reader : nat).

(** Where a [Read] of a buffer of [n] bytes is: nowhere, at the first [select], with a packet
    that has a reader, at the loop over the heap, or at the [select] inside it. *)
Inductive read_phase : Type :=
| RIdle
| RFirst (n : nat)
| RReader (n : nat) (p : Packet)
| RLoop (n : nat)
| RSecond (n : nat).

Definition read_begin (q : uploadQueue) (n : nat) : read_phase * option read_result :=
  if uq_closed q then (RIdle, Some (ReadErr io_EOF))
  else match uq_reader q with
       | Some r => (RIdle, Some (ReadFrom r))
       | None => (if has_items (uq_heap q) then RLoop n else RFirst n, None)
       end.

(** A packet is received at the first [select]. *)
Definition receive_first (q : uploadQueue) (n : nat) (p : Packet) : uploadQueue * read_phase :=
  if is_set (pk_Reader p) then (q, RReader n p) else (set_heap (heap_Push (uq_heap q) p) q, RLoop n).

(** The lock around its reader; with the readers that are closed. *)
Definition take_reader (q : uploadQueue) (p : Packet) : uploadQueue * list nat * read_result :=
  match pk_Reader p with
  | Some r => if uq_closed q then (q, [r], ReadErr io_EOF) else (set_reader (Some r) q, [], ReadFrom r)
  | None => (q, [], ReadErr io_EOF)
  end.

(** One round of the loop. *)
Definition read_loop (q : uploadQueue) (n : nat) : uploadQueue * read_phase * option read_result :=
  if has_items (uq_heap q) then
    let '(packet, h) := heap_Pop (uq_heap q) in
    let q := set_heap h q in
    if pk_Seq packet =? uq_nextSeq q then
      let b := take n (pk_Payload packet) in
      let q := if (length b <? length (pk_Payload packet))%nat
               then set_heap (heap_Push (uq_heap q) (MkPacket (pk_Reader packet) (drop (length b) (pk_Payload packet)) (pk_Seq packet))) q
               else set_nextSeq (u64 (pk_Seq packet + 1)) q in
      (q, RIdle, Some (ReadBytes b))
    else if uq_nextSeq q <? pk_Seq packet then
      if (uq_maxPackets q <? length (uq_heap q))%nat then (q, RIdle, Some (ReadErr (ENew "packet queue is too large")))
      else (set_heap (heap_Push (uq_heap q) packet) q, RSecond n, None)
    else (q, RLoop n, None)
  else (q, RIdle, Some (ReadBytes [])).

Definition receive_second (q : uploadQueue) (p : Packet) : uploadQueue := set_heap (heap_Push (uq_heap q) p) q.

(** ** Interleavings *)

(** The queue, the pushes at their [select], the read, whether a close takes packets out, and
    the readers that were closed. *)
Record uploadWorld : Type := MkUploadWorld {
  uw_queue : uploadQueue;
  uw_pushing : list Packet;
  uw_reading : read_phase;
  uw_draining : bool;
  uw_closedReaders : list nat;
}.
Definition new_world (maxPackets : nat) : uploadWorld := MkUploadWorld (NewUploadQueue maxPackets) [] RIdle false [].

Definition set_queue (q : uploadQueue) (w : uploadWorld) : uploadWorld :=
  MkUploadWorld q (uw_pushing w) (uw_reading w) (uw_draining w) (uw_closedReaders w).

(** The moments of [Push], [Read] and [Close] at which others may come in between. *)
Inductive upload_action : Type :=
| PushEnter (p : Packet)
| PushSend (p : Packet)
| PushDone (p : Packet)
| ReadBegin (n : nat)
| ReadReceive
| ReadReader
| ReadDone
| ReadRound
| CloseBegin
| CloseDrain
| CloseEnd.

Definition waiting (r : read_phase) : bool := match r with RFirst _ | RSecond _ => true | _ => false end.
Definition idle (r : read_phase) : bool := match r with RIdle => true | _ => false end.

Fixpoint remove_one (p : Packet) (l : list Packet) : list Packet :=
  match l with
  | [] => []
  | x :: l => if bool_decide (x = p) then l else x :: remove_one p l
  end.

Definition closed_reader (p : Packet) : list nat := match pk_Reader p with Some r => [r] | None => [] end.

(** A moment: what follows, and what a read returned; [None] when it cannot come now. *)
Definition upload_step (a : upload_action) (w : uploadWorld) : option (uploadWorld * option read_result) :=
  let '(MkUploadWorld q pushing reading draining readers) := w in
  match a, reading with
  | PushEnter p, _ =>
      match push_enter q p with
      | Ok q => Some (MkUploadWorld q (pushing ++ [p]) reading draining readers, None)
      | _ => Some (w, None)
      end
  | PushSend p, _ =>
      if bool_decide (p ∈ pushing) &&
         ((length (uq_pushedPackets q) <? uq_maxPackets q)%nat || (waiting reading && negb (has_items (uq_pushedPackets q))))
      then Some (MkUploadWorld (set_pushed (uq_pushedPackets q ++ [p]) q) (remove_one p pushing) reading draining readers, None)
      else None
  | PushDone p, _ =>
      if bool_decide (p ∈ pushing) && uq_closed q then Some (MkUploadWorld q (remove_one p pushing) reading draining readers, None) else None
  | ReadBegin n, RIdle => let '(reading, r) := read_begin q n in Some (MkUploadWorld q pushing reading draining readers, r)
  | ReadReceive, RFirst n =>
      match uq_pushedPackets q with
      | [] => None
      | p :: l => let '(q, reading) := receive_first (set_pushed l q) n p in Some (MkUploadWorld q pushing reading draining readers, None)
      end
  | ReadReceive, RSecond n =>
      match uq_pushedPackets q with
      | [] => None
      | p :: l => Some (MkUploadWorld (receive_second (set_pushed l q) p) pushing (RLoop n) draining readers, None)
      end
  | ReadReader, RReader n p =>
      let '(q, closed, r) := take_reader q p in Some (MkUploadWorld q pushing RIdle draining (closed ++ readers), Some r)
  | ReadDone, (RFirst _ | RSecond _) =>
      if uq_closed q then Some (MkUploadWorld q pushing RIdle draining readers, Some (ReadErr io_EOF)) else None
  | ReadRound, RLoop n => let '(q, reading, r) := read_loop q n in Some (MkUploadWorld q pushing reading draining readers, r)
  | CloseBegin, _ =>
      if uq_closed q then Some (w, None) else Some (MkUploadWorld (set_closed q) pushing reading true readers, None)
  | CloseDrain, _ =>
      match uq_pushedPackets q with
      | p :: l => if draining then Some (MkUploadWorld (set_pushed l q) pushing reading true (closed_reader p ++ readers), None) else None
      | [] => None
      end
  | CloseEnd, _ =>
      if draining && negb (has_items (uq_pushedPackets q))
      then Some (MkUploadWorld q pushing reading false (match uq_reader q with Some r => [r] | None => [] end ++ readers), None) else None
  | _, _ => None
  end.

Fixpoint upload_run (actions : list upload_action) (w : uploadWorld) : option (uploadWorld * list read_result) :=
  match actions with
  | [] => Some (w, [])
  | a :: actions =>
      match upload_step a w with
      | None => None
      | Some (w, r) =>
          match upload_run actions w with
          | Some (w, rs) => Some (w, match r with Some r => r :: rs | None => rs end)
          | None => None
          end
      end
  end.
