(* ===== verification/UploadQueueFacts.v ===== *)
(** * The heap of the upload queue

    [heap_Push] and [heap_Pop] keep the packets and the order of the heap, and [heap_Pop] takes
    a packet with the least number. *)
From Stdlib Require Import Strings.Byte.
From stdpp Require Import base list strings list_numbers.
From S2P Require Import Prelude Netip UploadQueue.

Abbreviation key h i := (pk_Seq (h !!! i)).

(** Below [n], no packet comes before its parent. *)
Definition heap_ordered (h : list Packet) (n : nat) : Prop := ∀ j, (0 < j < n)%nat → key h (parent j) <= key h j.

Lemma parent_lt j : (0 < j)%nat → (parent j < j)%nat.
Proof. intros Hj. unfold parent. apply Nat.Div0.div_lt_upper_bound. lia. Qed.

Lemma parent_child i j : (0 < j)%nat → parent j = i ↔ j = (2 * i + 1)%nat ∨ j = (2 * i + 2)%nat.
Proof.
  intros Hj. unfold parent. pose proof (Nat.div_mod_eq (j - 1) 2) as E. pose proof (Nat.mod_upper_bound (j - 1) 2). lia.
Qed.

(** ** Swapping *)

Lemma length_Swap h i j : length (Swap h i j) = length h.
Proof. unfold Swap. by rewrite !length_insert. Qed.

Lemma Swap_l h i j : (i < length h)%nat → Swap h i j !!! i = h !!! j.
Proof. intros Hi. unfold Swap. rewrite list_lookup_total_insert_eq; [done|]. by rewrite length_insert. Qed.

Lemma Swap_r h i j : (j < length h)%nat → (i < length h)%nat → Swap h i j !!! j = h !!! i.
Proof.
  intros Hj Hi. destruct (decide (i = j)) as [->|Hne]; [by apply Swap_l|]. unfold Swap.
  rewrite list_lookup_total_insert_ne, list_lookup_total_insert_eq; done.
Qed.

Lemma Swap_other h i j k : k ≠ i → k ≠ j → Swap h i j !!! k = h !!! k.
Proof. intros Hi Hj. unfold Swap. by rewrite !list_lookup_total_insert_ne by done. Qed.

Lemma Swap_Permutation h i j : (i < length h)%nat → (j < length h)%nat → Swap h i j ≡ₚ h.
Proof.
  intros Hi Hj. unfold Swap.
  destruct (lookup_lt_is_Some_2 h i Hi) as [x Hx], (lookup_lt_is_Some_2 h j Hj) as [y Hy].
  rewrite (list_lookup_total_correct _ _ _ Hx), (list_lookup_total_correct _ _ _ Hy).
  by apply Permutation_insert_swap.
Qed.

(** ** Moving up *)

Definition hole_up (h : list Packet) (n j : nat) : Prop :=
  (∀ k, (0 < k < n)%nat → k ≠ j → key h (parent k) <= key h k) ∧
  (∀ k, (0 < k < n)%nat → (0 < j)%nat → parent k = j → key h (parent j) <= key h k).

Lemma hole_up_swap h j :
  (0 < j < length h)%nat → hole_up h (length h) j → key h j <= key h (parent j) →
  hole_up (Swap h (parent j) j) (length h) (parent j).
Proof.
  intros Hj [H1 H2] Hless. pose proof (parent_lt j ltac:(lia)) as Hp. set (i := parent j) in *.
  assert (El : Swap h i j !!! i = h !!! j) by (apply Swap_l; lia). assert (Er : Swap h i j !!! j = h !!! i) by (apply Swap_r; lia).
  split.
  - intros k Hk Hne. destruct (decide (k = j)) as [->|Hkj]; [fold i; by rewrite El, Er|]. rewrite (Swap_other h i j k) by done.
    destruct (decide (parent k = j)) as [E|Ej]; [rewrite E, Er; apply H2; done || lia|].
    destruct (decide (parent k = i)) as [E|Ei]; [|rewrite Swap_other by done; by apply H1].
    rewrite E, El. specialize (H1 k Hk Hkj). rewrite E in H1. lia.
  - intros k Hk Hi E. pose proof (parent_lt i Hi). pose proof (H1 i ltac:(lia) ltac:(lia)) as H3. rewrite (Swap_other h i j (parent i)) by lia.
    destruct (decide (k = j)) as [->|Hkj]; [by rewrite Er|]. pose proof (parent_lt k ltac:(lia)). rewrite Swap_other by lia.
    specialize (H1 k Hk Hkj). rewrite E in H1. lia.
Qed.

Lemma up_ok fuel h j :
  (j < length h)%nat → (j < fuel)%nat → hole_up h (length h) j →
  heap_ordered (up fuel h j) (length h) ∧ up fuel h j ≡ₚ h.
Proof.
  revert h j. induction fuel as [|fuel IH]; intros h j Hj Hf Hh; [lia|]. cbn [up].
  destruct (Nat.eqb_spec (parent j) j) as [E|E]; cbn [orb].
  { assert (j = 0%nat) as -> by (destruct j; [done|pose proof (parent_lt (S j)); lia]). split; [|done]. intros k Hk. apply Hh; lia. }
  assert (Hj0 : (0 < j)%nat) by (destruct j; [done|lia]). pose proof (parent_lt j Hj0).
  unfold Less. destruct (Z.ltb_spec (key h j) (key h (parent j))) as [Hl|Hl]; cbn [negb].
  - pose proof (hole_up_swap h j ltac:(lia) Hh ltac:(lia)) as Hh'.
    destruct (IH (Swap h (parent j) j) (parent j)) as [Ho Hp]; [rewrite length_Swap; lia|lia|by rewrite length_Swap|].
    rewrite length_Swap in Ho. split; [done|]. rewrite Hp. apply Swap_Permutation; lia.
  - split; [|done]. intros k Hk. destruct (decide (k = j)) as [->|]; [done|]. by apply Hh.
Qed.

Lemma heap_Push_ok h x :
  heap_ordered h (length h) → heap_ordered (heap_Push h x) (length (heap_Push h x)) ∧ heap_Push h x ≡ₚ x :: h.
Proof.
  intros Ho. unfold heap_Push. set (h' := h ++ [x]). assert (Hl : length h' = S (length h)) by (unfold h'; rewrite length_app; cbn; lia).
  assert (Hat : ∀ k, (k < length h)%nat → h' !!! k = h !!! k) by (intros k Hk; unfold h'; by rewrite lookup_total_app_l).
  destruct (up_ok (length h') h' (length h' - 1)) as [H1 H2]; [lia|lia| |].
  - split.
    + intros k Hk Hne. pose proof (parent_lt k ltac:(lia)). rewrite !Hat by lia. apply Ho. lia.
    + intros k Hk _ E. pose proof (parent_lt k ltac:(lia)). lia.
  - rewrite (Permutation_length H2). split; [done|]. rewrite H2. unfold h'. by rewrite Permutation_app_comm.
Qed.

(** ** Moving down *)

Definition hole_down (h : list Packet) (n i : nat) : Prop :=
  (∀ k, (0 < k < n)%nat → parent k ≠ i → key h (parent k) <= key h k) ∧
  (∀ k, (0 < k < n)%nat → (0 < i)%nat → parent k = i → key h (parent i) <= key h k).

Lemma hole_down_swap h n i j :
  (n <= length h)%nat → (0 < j < n)%nat → parent j = i → key h j <= key h i →
  (∀ k, (0 < k < n)%nat → parent k = i → key h j <= key h k) →
  hole_down h n i → hole_down (Swap h i j) n j.
Proof.
  intros Hn Hj Hp Hless Hmin [H1 H2]. pose proof (parent_lt j ltac:(lia)) as Hlt. rewrite Hp in Hlt.
  assert (El : Swap h i j !!! i = h !!! j) by (apply Swap_l; lia). assert (Er : Swap h i j !!! j = h !!! i) by (apply Swap_r; lia).
  split.
  - intros k Hk Hne. destruct (decide (k = j)) as [->|Hkj]; [by rewrite Hp, El, Er|].
    destruct (decide (k = i)) as [->|Hki].
    + pose proof (parent_lt i ltac:(lia)). rewrite El, Swap_other by lia. by apply H2; [|lia|].
    + rewrite (Swap_other h i j k) by done. destruct (decide (parent k = i)) as [E|E]; [rewrite E, El; by apply Hmin|].
      rewrite Swap_other by done. by apply H1.
  - intros k Hk _ E. rewrite Hp, El. pose proof (parent_lt k ltac:(lia)). rewrite Swap_other by lia.
    specialize (H1 k Hk ltac:(lia)). by rewrite E in H1.
Qed.

Lemma down_ok fuel h i n :
  (n <= length h)%nat → (n <= i + fuel)%nat → hole_down h n i →
  heap_ordered (down fuel h i n) n ∧ down fuel h i n ≡ₚ h ∧ (∀ k, (n <= k)%nat → down fuel h i n !!! k = h !!! k).
Proof.
  revert h i. induction fuel as [|fuel IH]; intros h i Hn Hf Hh; cbn [down].
  { split_and!; [|done|done]. intros k Hk. apply Hh; [done|]. pose proof (parent_lt k ltac:(lia)). lia. }
  destruct (Nat.leb_spec n (2 * i + 1)) as [Hle|Hgt].
  { split_and!; [|done|done]. intros k Hk. apply Hh; [done|]. intros E. apply parent_child in E; lia. }
  set (j := if _ && _ then _ else _).
  assert (Hj : (0 < j < n)%nat ∧ parent j = i ∧ ∀ k, (0 < k < n)%nat → parent k = i → key h j <= key h k).
  { unfold j, Less. destruct (Nat.ltb_spec (2 * i + 1 + 1) n) as [H2|H2]; cbn [andb];
      [destruct (Z.ltb_spec (key h (2 * i + 1 + 1)%nat) (key h (2 * i + 1)%nat)) as [Hl|Hl]|].
    all: split_and!; [lia|lia|apply parent_child; lia|intros k Hk E; apply parent_child in E as [-> | ->]; try lia].
    all: replace (2 * i + 2)%nat with (2 * i + 1 + 1)%nat in * by lia; lia. }
  destruct Hj as (Hj & Hp & Hmin). pose proof (parent_lt j ltac:(lia)). unfold Less. destruct (Z.ltb_spec (key h j) (key h i)) as [Hl|Hl]; cbn [negb].
  - destruct (IH (Swap h i j) j) as (Ho & Hperm & Hk); [by rewrite length_Swap|lia|apply hole_down_swap; done || lia|].
    split_and!; [done|rewrite Hperm; apply Swap_Permutation; lia|]. intros k Hk'. rewrite Hk, Swap_other by lia. done.
  - split_and!; [|done|done]. intros k Hk. destruct (decide (parent k = i)) as [E|E]; [|by apply Hh].
    rewrite E. specialize (Hmin k Hk E). lia.
Qed.

Lemma heap_least h n : heap_ordered h n → ∀ k, (k < n)%nat → key h 0%nat <= key h k.
Proof.
  intros Ho k. induction k as [k IH] using (well_founded_induction lt_wf). intros Hk. destruct (decide (k = 0%nat)) as [->|Hne]; [done|].
  pose proof (parent_lt k ltac:(lia)). specialize (IH (parent k) ltac:(lia) ltac:(lia)). specialize (Ho k ltac:(lia)). lia.
Qed.

Lemma heap_Pop_ok h p h' :
  h ≠ [] → heap_ordered h (length h) → heap_Pop h = (p, h') →
  heap_ordered h' (length h') ∧ h ≡ₚ p :: h' ∧ Forall (λ x, pk_Seq p <= pk_Seq x) h'.
Proof.
  intros Hne Ho E. unfold heap_Pop in E. set (n := (length h - 1)%nat) in *. assert (Hl : length h = S n) by (destruct h; [done|cbn in *; lia]).
  destruct (down_ok (length h) (Swap h 0 n) 0 n) as (Hd & Hp & Hk); [rewrite length_Swap; lia|lia| |].
  { split; [|intros; lia]. intros k Hk Hpk. pose proof (parent_lt k ltac:(lia)). rewrite !Swap_other by lia. apply Ho. lia. }
  set (d := down _ _ _ _) in *. assert (Hld : length d = S n) by (rewrite (Permutation_length Hp), length_Swap; done).
  injection E as <- <-. assert (Hlast : d !!! n = h !!! 0%nat) by (rewrite Hk, Swap_r by lia; done).
  assert (Hperm : h ≡ₚ d !!! n :: take n d).
  { rewrite <- (Swap_Permutation h 0 n), <- Hp by lia. rewrite <- (take_drop n d) at 1. rewrite (drop_S d (d !!! n) n), drop_ge by
      (try (apply list_lookup_lookup_total_lt); lia). by rewrite Permutation_app_comm. }
  rewrite length_take. split_and!; [|done|].
  - intros j Hj. pose proof (parent_lt j ltac:(lia)). rewrite !lookup_total_take_lt by lia. apply Hd. lia.
  - apply Forall_forall. intros x Hx. apply list_elem_of_lookup_total in Hx as (k & Hk' & <-).
    rewrite length_take in Hk'. rewrite lookup_total_take_lt, Hlast by lia.
    assert (Hin : d !!! k ∈ h). { rewrite Hperm. apply elem_of_cons. right. rewrite <- (lookup_total_take_lt d n k) by lia. apply list_elem_of_lookup_total_2. rewrite length_take; lia. }
    apply list_elem_of_lookup_total in Hin as (m & Hm & <-). by apply (heap_least h (length h)).
Qed.

(** * Uploads are read in order

    For numbered packets, pushed in any order and from any number of goroutines, the bytes
    that reads return are those of the packets in the order of their numbers; a read waits
    only for a packet that has not come; and the packets that are held are bounded. *)

(** ** What is to be read *)

Definition pushed_by (a : upload_action) : list Packet := match a with PushEnter p => [p] | _ => [] end.
Definition sent_by (a : upload_action) : list Packet := match a with PushSend p => [p] | _ => [] end.
Definition pushes (actions : list upload_action) : list Packet := concat (map pushed_by actions).
Definition sends (actions : list upload_action) : list Packet := concat (map sent_by actions).

Definition bytes_of (r : read_result) : list byte := match r with ReadBytes b => b | _ => [] end.
Definition is_failure (r : read_result) : bool := match r with ReadErr _ => true | _ => false end.
Definition delivered (rs : list read_result) : list byte := concat (map bytes_of rs).

Definition numbers (l : list Packet) : list Z := map pk_Seq l.

(** Numbered packets: no readers, every number once, and room for the next number. *)
Definition numbered (l : list Packet) : Prop :=
  NoDup (numbers l) ∧ Forall (λ p, pk_Reader p = None ∧ 0 <= pk_Seq p < 2 ^ 64 - 1) l.

(** The payload with a number, and the first [k] of them. *)
Definition payload_of (l : list Packet) (s : Z) : list byte :=
  match List.find (λ p, pk_Seq p =? s) l with Some p => pk_Payload p | None => [] end.
Definition stream (l : list Packet) (k : Z) : list byte := concat (map (payload_of l) (seqZ 0 k)).

Lemma payload_of_in l p : NoDup (numbers l) → p ∈ l → payload_of l (pk_Seq p) = pk_Payload p.
Proof.
  unfold payload_of. induction l as [|x l IH]; intros Hnd Hp; [by apply elem_of_nil in Hp|]. cbn [List.find].
  cbn [numbers map] in Hnd. apply NoDup_cons in Hnd as [Hx Hnd].
  apply elem_of_cons in Hp as [-> |Hp]; [by rewrite Z.eqb_refl|]. destruct (Z.eqb_spec (pk_Seq x) (pk_Seq p)) as [E|]; [|by apply IH].
  exfalso. apply Hx. rewrite E. by apply list_elem_of_fmap_2.
Qed.

Lemma stream_next l k : 0 <= k → stream l (k + 1) = stream l k ++ payload_of l k.
Proof.
  intros Hk. unfold stream. assert (E : seqZ (0 + k) 1 = [k]) by (unfold seqZ; cbn; f_equal; lia).
  rewrite seqZ_app, E, map_app, concat_app by lia. cbn [map concat]. by rewrite app_nil_r.
Qed.

Lemma numbers_Permutation l l' : l ≡ₚ l' → numbers l ≡ₚ numbers l'.
Proof. apply fmap_Permutation. Qed.

Lemma numbers_app l l' : numbers (l ++ l') = numbers l ++ numbers l'.
Proof. apply map_app. Qed.

Lemma elem_of_numbers p l : p ∈ l → pk_Seq p ∈ numbers l.
Proof. apply list_elem_of_fmap_2. Qed.

(** ** The packets that are on the way *)

Section core.
Variable all : list Packet.
Hypothesis Hall : numbered all.

(** [live] are the packets that were pushed and not read, [heap] those of them in the heap,
    [off] the bytes that were read of the next one, and [out] the bytes that were read. *)
Record core (seen live heap : list Packet) (next : Z) (off : nat) (out : list byte) : Prop := MkCore {
  c_nodup : NoDup (numbers live);
  c_heap : ∀ p, p ∈ heap → p ∈ live;
  c_live : ∀ p, p ∈ live → pk_Reader p = None ∧ next <= pk_Seq p < 2 ^ 64 - 1 ∧ pk_Seq p ∈ numbers seen ∧
             pk_Payload p = drop (if pk_Seq p =? next then off else 0%nat) (payload_of all (pk_Seq p));
  c_seen : ∀ s, 0 <= s < next → s ∈ numbers seen;
  c_out : out = stream all next ++ take off (payload_of all next);
  c_part : off = 0%nat ∨ ∃ p, p ∈ heap ∧ pk_Seq p = next;
  c_next : 0 <= next < 2 ^ 64;
}.

Lemma core_move seen live live' heap heap' next off out :
  core seen live heap next off out → live ≡ₚ live' → (∀ p, p ∈ heap' → p ∈ live) → (∀ p, p ∈ heap → p ∈ heap') →
  core seen live' heap' next off out.
Proof.
  intros [] Hp H1 H2. split; try done.
  - by rewrite <- (numbers_Permutation _ _ Hp).
  - intros p Hin. rewrite <- Hp. by apply H1.
  - intros p. rewrite <- Hp. apply c_live0.
  - destruct c_part0 as [|(p & Hin & E)]; [by left|right]. exists p. split; [by apply H2|done].
Qed.

(** Packets that are not the next one may be lost. *)
Lemma core_lose seen live live' gone heap heap' next off out :
  core seen live heap next off out → live ≡ₚ gone ++ live' → (∀ p, p ∈ heap' → p ∈ live') →
  (∀ p, p ∈ heap → p ∈ heap' ∨ pk_Seq p ≠ next) → core seen live' heap' next off out.
Proof.
  intros [] Hp H1 H2. split; try done.
  - pose proof (numbers_Permutation _ _ Hp) as Hn. rewrite numbers_app in Hn. rewrite Hn in c_nodup0.
    by apply NoDup_app in c_nodup0 as (_ & _ & ?).
  - intros p Hin. apply c_live0. rewrite Hp. apply elem_of_app. by right.
  - destruct c_part0 as [|(p & Hin & E)]; [by left|right]. exists p. split; [|done]. by destruct (H2 p Hin).
Qed.

Lemma core_seen seen live heap next off out extra :
  core seen live heap next off out → core (seen ++ extra) live heap next off out.
Proof.
  intros []. split; try done.
  - intros p Hp. destruct (c_live0 p Hp) as (? & ? & ? & ?). split_and!; [done|lia|lia| |done]. rewrite numbers_app. apply elem_of_app. by left.
  - intros s Hs. rewrite numbers_app. apply elem_of_app. left. by apply c_seen0.
Qed.

(** A packet is pushed. *)
Lemma core_push seen live heap next off out p :
  core seen live heap next off out → p ∈ all → pk_Seq p ∉ numbers seen → core (seen ++ [p]) (p :: live) heap next off out.
Proof.
  intros Hc Hp Hs. pose proof (core_seen _ _ _ _ _ _ [p] Hc) as []. destruct Hall as [Hnd Hok]. rewrite Forall_forall in Hok.
  destruct (Hok p Hp) as [Hr Hb]. assert (Hlive : ∀ x, x ∈ live → pk_Seq x ∈ numbers seen) by (intros x Hx; apply (c_live _ _ _ _ _ _ Hc x Hx)).
  assert (Hnext : next <= pk_Seq p).
  { destruct (Z.le_gt_cases next (pk_Seq p)); [done|]. exfalso. apply Hs, (c_seen _ _ _ _ _ _ Hc). lia. }
  split; try done.
  - unfold numbers. cbn [map]. apply NoDup_cons. split; [|done]. intros Hin. apply list_elem_of_fmap in Hin as (x & E & Hx). apply Hs.
    rewrite E. by apply Hlive.
  - intros x Hx. apply elem_of_cons. right. by apply c_heap0.
  - intros x [-> |Hx]%elem_of_cons; [|by apply c_live0]. split_and!; [done|lia|lia| |].
    + rewrite numbers_app. apply elem_of_app. right. apply elem_of_cons; by left.
    + rewrite payload_of_in by done. destruct (Z.eqb_spec (pk_Seq p) next) as [E|]; [|done].
      destruct c_part0 as [->|(x & Hx & Ex)]; [done|]. exfalso. apply Hs. rewrite E, <- Ex. by apply Hlive, (c_heap _ _ _ _ _ _ Hc).
Qed.

(** The next packet is read in part, or to its end. *)
Lemma core_partial seen rest heap heap' next off out p n :
  core seen (p :: rest) heap next off out → pk_Seq p = next →
  let b := take n (pk_Payload p) in
  let p' := MkPacket (pk_Reader p) (drop (length b) (pk_Payload p)) (pk_Seq p) in
  p' ∈ heap' → (∀ x, x ∈ heap' → x ∈ p' :: rest) →
  core seen (p' :: rest) heap' next (off + length b) (out ++ b).
Proof.
  intros [] E b p' Hp' Hh. destruct (c_live0 p ltac:(by apply elem_of_cons; left)) as (Hr & Hb & Hs & Hpay). rewrite E, Z.eqb_refl in Hpay.
  split; try done.
  - intros x [-> |Hx]%elem_of_cons.
    + cbn. rewrite E, Z.eqb_refl. split_and!; [done|lia|lia|by rewrite <- E|]. by rewrite Hpay, drop_drop.
    + destruct (c_live0 x) as (? & ? & ? & Hx'); [by apply elem_of_cons; right|]. split_and!; [done|lia|lia|done|].
      destruct (Z.eqb_spec (pk_Seq x) next) as [Ex|]; [|done]. exfalso. unfold numbers in c_nodup0. cbn [map] in c_nodup0.
      apply NoDup_cons in c_nodup0 as [Hno _]. apply Hno. rewrite E, <- Ex. by apply list_elem_of_fmap_2.
  - rewrite c_out0, <- app_assoc. f_equal. unfold b. rewrite Hpay. rewrite <- take_take_drop. f_equal.
    by rewrite length_take, <- take_take, firstn_all.
  - right. exists p'. by split.
Qed.

Lemma core_complete seen rest heap heap' next off out p :
  core seen (p :: rest) heap next off out → pk_Seq p = next → (∀ x, x ∈ heap' → x ∈ rest) →
  core seen rest heap' (next + 1) 0 (out ++ pk_Payload p).
Proof.
  intros [] E Hh. destruct (c_live0 p ltac:(by apply elem_of_cons; left)) as (Hr & Hb & Hs & Hpay). rewrite E, Z.eqb_refl in Hpay.
  unfold numbers in c_nodup0. cbn [map] in c_nodup0. apply NoDup_cons in c_nodup0 as [Hno Hnd].
  split; try done.
  - intros x Hx. destruct (c_live0 x) as (? & Hx1 & ? & Hx2); [by apply elem_of_cons; right|].
    assert (Hne : pk_Seq x ≠ next). { intros Ex. apply Hno. rewrite E, <- Ex. by apply list_elem_of_fmap_2. }
    split_and!; [done|lia|lia|done|]. rewrite Hx2. destruct (Z.eqb_spec (pk_Seq x) next); [done|]. by destruct (_ =? _).
  - intros s Hs'. destruct (Z.eq_dec s next) as [-> |]; [by rewrite <- E|]. apply c_seen0. lia.
  - rewrite c_out0, stream_next, Hpay, take_0, app_nil_r, <- app_assoc by lia. by rewrite take_drop.
  - by left.
  - lia.
Qed.

(** ** The queue *)

Definition phase_ok (q : uploadQueue) (r : read_phase) : Prop :=
  match r with
  | RIdle | RLoop _ => (length (uq_heap q) <= uq_maxPackets q + 2)%nat
  | RFirst _ => uq_heap q = []
  | RSecond _ => (length (uq_heap q) <= uq_maxPackets q + 1)%nat ∧ ∀ p, p ∈ uq_heap q → uq_nextSeq q < pk_Seq p
  | RReader _ _ => False
  end.
Definition on_the_way (w : uploadWorld) : list Packet :=
  uw_pushing w ++ uq_pushedPackets (uw_queue w) ++ uq_heap (uw_queue w).

Record queue_ok (seen sent : list Packet) (off : nat) (rs : list read_result) (w : uploadWorld) : Prop := MkQueueOk {
  u_core : core seen (on_the_way w) (uq_heap (uw_queue w)) (uq_nextSeq (uw_queue w)) off (delivered rs);
  u_ordered : heap_ordered (uq_heap (uw_queue w)) (length (uq_heap (uw_queue w)));
  u_room : (length (uq_pushedPackets (uw_queue w)) <= Nat.max (uq_maxPackets (uw_queue w)) 1)%nat;
  u_phase : phase_ok (uw_queue w) (uw_reading w);
  u_reader : uq_reader (uw_queue w) = None;
  u_drain : uw_draining w = true → uq_closed (uw_queue w) = true;
  u_sent : uq_closed (uw_queue w) = false → existsb is_failure rs = false →
    ∀ p, p ∈ sent → pk_Seq p < uq_nextSeq (uw_queue w) ∨ pk_Seq p ∈ numbers (uq_pushedPackets (uw_queue w) ++ uq_heap (uw_queue w));
}.

Definition result_of (r : option read_result) : list read_result := match r with Some r => [r] | None => [] end.

Lemma delivered_app rs rs' : delivered (rs ++ rs') = delivered rs ++ delivered rs'.
Proof. unfold delivered. by rewrite map_app, concat_app. Qed.

Lemma remove_one_Permutation p l : p ∈ l → l ≡ₚ p :: remove_one p l.
Proof.
  induction l as [|x l IH]; intros Hp; [by apply elem_of_nil in Hp|]. cbn [remove_one]. case_bool_decide as E; [by subst|].
  apply elem_of_cons in Hp as [-> |Hp]; [done|]. rewrite (IH Hp) at 1. apply Permutation_swap.
Qed.

(** Nothing is returned, and only packets outside of the heap and the channel change. *)
Lemma ok_push_enter seen sent off rs w p w' r :
  queue_ok seen sent off rs w → upload_step (PushEnter p) w = Some (w', r) → p ∈ all → pk_Seq p ∉ numbers seen →
  queue_ok (seen ++ [p]) sent off (rs ++ result_of r) w'.
Proof.
  intros [] E Hp Hs. destruct w as [q pushing reading draining readers]. cbn in *. unfold push_enter in E.
  assert (Hr : pk_Reader p = None) by (destruct Hall as [_ H]; rewrite Forall_forall in H; by apply H).
  assert (Hsame : queue_ok (seen ++ [p]) sent off (rs ++ []) (MkUploadWorld q pushing reading draining readers)).
  { rewrite app_nil_r. split; try done. by apply core_seen. }
  destruct (uq_closed q) eqn:Ec; [by injection E as <- <-|]. destruct (uq_nomore q); [by injection E as <- <-|].
  rewrite Hr in E. cbn [is_set] in E. injection E as <- <-. cbn [result_of]. rewrite app_nil_r. split; cbn; rewrite ?Ec; try done.
  unfold on_the_way. cbn. eapply core_move; [by apply core_push| |cbn in *|done].
  - unfold on_the_way. cbn. solve_Permutation.
  - intros x Hx. apply elem_of_cons. right. by apply (c_heap _ _ _ _ _ _ u_core0).
Qed.

Lemma ok_push_send seen sent off rs w p w' r :
  queue_ok seen sent off rs w → upload_step (PushSend p) w = Some (w', r) → queue_ok seen (sent ++ [p]) off (rs ++ result_of r) w'.
Proof.
  intros [] E. destruct w as [q pushing reading draining readers]. cbn in *. case_match eqn:Eg; [|done].
  apply andb_true_iff in Eg as [Hp Hroom]. apply bool_decide_eq_true in Hp. injection E as <- <-. cbn [result_of]. rewrite app_nil_r.
  split; cbn; try done.
  - eapply core_move; [done| |apply u_core0|done]. unfold on_the_way. cbn.
    rewrite (remove_one_Permutation p pushing Hp) at 1. solve_Permutation.
  - rewrite length_app. cbn [length]. apply orb_true_iff in Hroom as [H|H]; [apply Nat.ltb_lt in H; lia|].
    apply andb_true_iff in H as [_ H]. destruct (uq_pushedPackets q); cbn in *; [lia|done].
  - intros Hc Hf x [Hx|[-> |Hx%elem_of_nil]%elem_of_cons]%elem_of_app; [|right|done].
    + destruct (u_sent0 Hc Hf x Hx) as [|Hin]; [by left|right]. rewrite <- app_assoc, !numbers_app, !elem_of_app in *. cbn. clear -Hin; tauto.
    + rewrite <- app_assoc, numbers_app. apply elem_of_app. right. cbn. apply elem_of_cons. by left.
Qed.

Lemma ok_push_done seen sent off rs w p w' r :
  queue_ok seen sent off rs w → upload_step (PushDone p) w = Some (w', r) → queue_ok seen sent off (rs ++ result_of r) w'.
Proof.
  intros [] E. destruct w as [q pushing reading draining readers]. cbn in *. case_match eqn:Eg; [|done].
  apply andb_true_iff in Eg as [Hp Hc]. apply bool_decide_eq_true in Hp. injection E as <- <-. cbn [result_of]. rewrite app_nil_r.
  split; cbn; try done. apply (core_lose _ _ _ [p] _ _ _ _ _ u_core0).
  - unfold on_the_way. cbn. rewrite (remove_one_Permutation p pushing Hp) at 1. solve_Permutation.
  - intros x Hx. unfold on_the_way. cbn. rewrite !elem_of_app. auto.
  - auto.
Qed.

Lemma ok_read_begin seen sent off rs w n w' r :
  queue_ok seen sent off rs w → upload_step (ReadBegin n) w = Some (w', r) → queue_ok seen sent off (rs ++ result_of r) w'.
Proof.
  intros [] E. destruct w as [q pushing reading draining readers]. cbn in *. destruct reading; try done. unfold read_begin in E.
  rewrite u_reader0 in E. destruct (uq_closed q) eqn:Ec; injection E as <- <-.
  - split; cbn; rewrite ?Ec; try done. by rewrite delivered_app, app_nil_r.
  - cbn [result_of]. rewrite app_nil_r. split; cbn; rewrite ?Ec; try done. by destruct (uq_heap q) eqn:Eh; cbn in *.
Qed.

(** A packet goes from the channel to the heap. *)
Lemma ok_receive seen sent off rs w w' r :
  queue_ok seen sent off rs w → upload_step ReadReceive w = Some (w', r) → queue_ok seen sent off (rs ++ result_of r) w'.
Proof.
  intros [] E. destruct w as [q pushing reading draining readers]. cbn in *.
  destruct (uq_pushedPackets q) as [|p l] eqn:El; [by destruct reading|].
  assert (Hr : pk_Reader p = None).
  { apply (c_live _ _ _ _ _ _ u_core0). unfold on_the_way. cbn. rewrite ?El, !elem_of_app, elem_of_cons. auto. }
  destruct (heap_Push_ok (uq_heap q) p u_ordered0) as [Ho Hp]. set (h := heap_Push (uq_heap q) p) in *.
  assert (Hok : ∀ n, (length (uq_heap q) <= uq_maxPackets q + 1)%nat →
                queue_ok seen sent off rs (MkUploadWorld (set_heap h (set_pushed l q)) pushing (RLoop n) draining readers)).
  { intros n Hlen. split; cbn; try done.
    - eapply core_move; [done| | |].
      + unfold on_the_way. cbn. rewrite ?El, Hp. solve_Permutation.
      + intros x. rewrite Hp. unfold on_the_way. cbn. rewrite ?El, !elem_of_app, !elem_of_cons, ?elem_of_app. clear; tauto.
      + intros x. rewrite Hp, elem_of_cons. auto.
    - cbn in u_room0. lia.
    - rewrite (Permutation_length Hp). cbn. lia.
    - intros Hc Hf x Hx. destruct (u_sent0 Hc Hf x Hx) as [|Hin]; [by left|right]. revert Hin.
      pose proof (numbers_Permutation _ _ Hp) as Hn. unfold numbers in *. rewrite !map_app. cbn [map app]. rewrite Hn, ?map_app. cbn [map].
      rewrite !elem_of_cons, !elem_of_app, !elem_of_cons. clear; tauto. }
  destruct reading; try done; unfold receive_first, receive_second in E; rewrite ?Hr in E; injection E as <- <-; cbn [result_of];
    rewrite app_nil_r; apply Hok; cbn in u_phase0; [rewrite u_phase0; cbn; lia|lia].
Qed.

(** One round of the loop, with the packet that was taken from the heap. *)
Section round.
Context (seen sent : list Packet) (off : nat) (rs : list read_result) (q : uploadQueue) (pushing : list Packet) (n : nat).
Context (draining : bool) (readers : list nat) (packet : Packet) (h : list Packet).
Let w : uploadWorld := MkUploadWorld q pushing (RLoop n) draining readers.
Context (Hw : queue_ok seen sent off rs w) (Ho : heap_ordered h (length h)) (Hp : uq_heap q ≡ₚ packet :: h).

Lemma round_core :
  core seen (packet :: pushing ++ uq_pushedPackets q ++ h) (uq_heap q) (uq_nextSeq q) off (delivered rs).
Proof using Hw Hp.
  eapply core_move; [apply Hw| |apply Hw|done]. unfold on_the_way. cbn. rewrite Hp. solve_Permutation.
Qed.

Lemma round_length : (length (uq_heap q) = S (length h))%nat ∧ (length (uq_heap q) <= uq_maxPackets q + 2)%nat.
Proof using Hw Hp. split; [by rewrite (Permutation_length Hp)|apply Hw]. Qed.

(** What was sent is still there when the heap has the numbers it had. *)
Lemma round_sent h' : numbers h' ≡ₚ numbers (uq_heap q) → uq_closed q = false → existsb is_failure rs = false →
  ∀ p, p ∈ sent → pk_Seq p < uq_nextSeq q ∨ pk_Seq p ∈ numbers (uq_pushedPackets q ++ h').
Proof using Hw.
  intros Hn Hc Hf p Hs. destruct (u_sent _ _ _ _ _ Hw Hc Hf p Hs) as [|Hin]; [by left|right]. cbn in Hin.
  rewrite numbers_app in *. by rewrite Hn.
Qed.

Lemma round_failed rs' : existsb is_failure (rs ++ rs') = false → existsb is_failure rs = false.
Proof. rewrite existsb_app. by intros [? _]%orb_false_iff. Qed.

Lemma ok_round_partial :
  pk_Seq packet = uq_nextSeq q →
  let b := take n (pk_Payload packet) in
  let p' := MkPacket (pk_Reader packet) (drop (length b) (pk_Payload packet)) (pk_Seq packet) in
  queue_ok seen sent (off + length b) (rs ++ [ReadBytes b]) (MkUploadWorld (set_heap (heap_Push h p') q) pushing RIdle draining readers).
Proof using Hall Hw Ho Hp.
  intros E b p'. destruct (heap_Push_ok h p' Ho) as [Ho' Hp']. destruct round_length as [Hl1 Hl2].
  assert (Hn : numbers (heap_Push h p') ≡ₚ numbers (uq_heap q)) by (rewrite (numbers_Permutation _ _ Hp'), (numbers_Permutation _ _ Hp); done).
  split; cbn; try done; try apply Hw.
  - rewrite delivered_app. cbn. rewrite app_nil_r. unfold on_the_way. cbn.
    eapply core_move; [apply (core_partial _ _ _ (heap_Push h p') _ _ _ _ n round_core E)|..]; cbn; fold b p'.
    + rewrite Hp'. apply elem_of_cons. by left.
    + intros x. rewrite Hp'. rewrite !elem_of_cons, !elem_of_app. clear; tauto.
    + rewrite Hp'. solve_Permutation.
    + intros x. rewrite Hp'. rewrite !elem_of_cons, !elem_of_app. clear; tauto.
    + done.
  - rewrite (Permutation_length Hp'). cbn. lia.
  - intros Hc Hf. eapply round_sent; [done|done|by eapply round_failed].
Qed.

Lemma ok_round_complete :
  pk_Seq packet = uq_nextSeq q →
  queue_ok seen sent 0 (rs ++ [ReadBytes (pk_Payload packet)])
    (MkUploadWorld (set_nextSeq (u64 (pk_Seq packet + 1)) (set_heap h q)) pushing RIdle draining readers).
Proof using Hall Hw Ho Hp.
  intros E. destruct round_length as [Hl1 Hl2].
  destruct (c_live _ _ _ _ _ _ round_core packet) as (_ & Hb & _); [apply elem_of_cons; by left|].
  assert (Hu : u64 (pk_Seq packet + 1) = uq_nextSeq q + 1).
  { pose proof (c_next _ _ _ _ _ _ round_core). unfold u64, wrap. rewrite E, Z.mod_small; lia. }
  rewrite Hu. split; cbn; try done; try apply Hw.
  - rewrite delivered_app. cbn. rewrite app_nil_r. eapply core_complete; [apply round_core|done|].
    intros x Hx. rewrite !elem_of_app. auto.
  - lia.
  - intros Hc Hf p Hs. apply round_failed in Hf. destruct (u_sent _ _ _ _ _ Hw Hc Hf p Hs) as [|Hin]; cbn in *; [left; lia|].
    rewrite numbers_app, elem_of_app in *. rewrite (numbers_Permutation _ _ Hp) in Hin. cbn in Hin. rewrite elem_of_cons in Hin.
    destruct Hin as [|[Ep|]]; [by auto|left; lia|by auto].
Qed.

Lemma ok_round_later :
  uq_nextSeq q < pk_Seq packet → Forall (λ x, pk_Seq packet <= pk_Seq x) h →
  queue_ok seen sent off (rs ++ [ReadErr (ENew "packet queue is too large")]) (MkUploadWorld (set_heap h q) pushing RIdle draining readers) ∧
  ((length h <= uq_maxPackets q)%nat →
   queue_ok seen sent off rs (MkUploadWorld (set_heap (heap_Push h packet) q) pushing (RSecond n) draining readers)).
Proof using Hall Hw Ho Hp.
  intros Hlt Hmin. destruct round_length as [Hl1 Hl2]. rewrite Forall_forall in Hmin. split; [|intros Hle].
  - split; cbn; try done; try apply Hw; [|lia|].
    + rewrite delivered_app, app_nil_r. apply (core_lose _ _ _ [packet] _ _ _ _ _ round_core); [done| |].
      * intros x Hx. rewrite !elem_of_app. auto.
      * intros x. rewrite Hp, elem_of_cons. intros [-> |]; [right; lia|by left].
    + intros _. rewrite existsb_app. cbn. by rewrite orb_true_r.
  - destruct (heap_Push_ok h packet Ho) as [Ho' Hp']. split; cbn; try done; try apply Hw.
    + eapply core_move; [apply round_core| | |]; cbn.
      * unfold on_the_way. cbn. rewrite Hp'. solve_Permutation.
      * intros x. rewrite Hp', !elem_of_cons, !elem_of_app. clear; tauto.
      * intros x. by rewrite Hp, Hp'.
    + split; [rewrite (Permutation_length Hp'); cbn; lia|]. intros x. rewrite Hp', elem_of_cons. intros [-> |Hx]; [done|].
      specialize (Hmin x Hx). lia.
    + intros Hc Hf. eapply round_sent; [|done|done]. by rewrite (numbers_Permutation _ _ Hp'), (numbers_Permutation _ _ Hp).
Qed.
End round.

Lemma ok_round seen sent off rs w w' r :
  queue_ok seen sent off rs w → upload_step ReadRound w = Some (w', r) → ∃ off', queue_ok seen sent off' (rs ++ result_of r) w'.
Proof.
  intros Hw E. destruct w as [q pushing reading draining readers]. cbn in E. destruct reading as [| | |n|]; try done. unfold read_loop in E.
  destruct (has_items (uq_heap q)) eqn:Eh.
  2: { injection E as <- <-. exists off. destruct Hw. cbn in *. split; cbn; try done; [by rewrite delivered_app, app_nil_r|].
       intros Hc Hf. apply u_sent0; [done|by eapply round_failed]. }
  assert (Hne : uq_heap q ≠ []) by (intros H; by rewrite H in Eh). destruct (heap_Pop (uq_heap q)) as [packet h] eqn:Ep.
  destruct (heap_Pop_ok _ _ _ Hne (u_ordered _ _ _ _ _ Hw) Ep) as (Ho & Hp & Hmin). cbn [uq_nextSeq uq_heap uq_maxPackets set_heap] in E.
  destruct (Z.eqb_spec (pk_Seq packet) (uq_nextSeq q)) as [Es|Es]; [|destruct (Z.ltb_spec (uq_nextSeq q) (pk_Seq packet)) as [Hlt|Hge]].
  - destruct (Nat.ltb_spec (length (take n (pk_Payload packet))) (length (pk_Payload packet))) as [Hb|Hb]; injection E as <- <-; cbn [result_of].
    + eexists. exact (ok_round_partial _ _ _ _ _ _ _ _ _ _ _ Hw Ho Hp Es).
    + exists 0%nat. rewrite take_ge by (rewrite length_take in Hb; lia). exact (ok_round_complete _ _ _ _ _ _ _ _ _ _ _ Hw Ho Hp Es).
  - destruct (ok_round_later _ _ _ _ _ _ _ _ _ _ _ Hw Ho Hp Hlt Hmin) as [H1 H2].
    destruct (Nat.ltb_spec (uq_maxPackets q) (length h)); injection E as <- <-; exists off; [done|].
    cbn [result_of]. rewrite app_nil_r. by apply H2.
  - exfalso. destruct (c_live _ _ _ _ _ _ (round_core _ _ _ _ _ _ _ _ _ _ _ Hw Hp) packet) as (_ & Hb & _); [apply elem_of_cons; by left|lia].
Qed.

(** The moments that give nothing and take packets only when the queue is closed. *)
Lemma ok_others seen sent off rs w a w' r :
  queue_ok seen sent off rs w → upload_step a w = Some (w', r) →
  match a with ReadReader | ReadDone | CloseBegin | CloseDrain | CloseEnd => True | _ => False end →
  queue_ok seen sent off (rs ++ result_of r) w'.
Proof.
  intros Hw E Ha. destruct w as [q pushing reading draining readers]. destruct a; try done; cbn in E; destruct Hw; cbn in *.
  - by destruct reading.
  - destruct (uq_closed q) eqn:Ec; [|by destruct reading]. destruct reading as [|n| | |n]; try done; injection E as <- <-;
      (split; cbn; rewrite ?Ec; try done; [by rewrite delivered_app, app_nil_r|cbn in u_phase0]).
    + rewrite u_phase0. cbn. lia.
    + destruct u_phase0. lia.
  - destruct (uq_closed q) eqn:Ec; injection E as <- <-; cbn [result_of]; rewrite app_nil_r; split; cbn; rewrite ?Ec; done.
  - destruct (uq_pushedPackets q) as [|p l] eqn:El; [done|]. destruct draining; [|done]. specialize (u_drain0 eq_refl).
    injection E as <- <-. cbn [result_of]. rewrite app_nil_r. split; cbn; rewrite ?u_drain0; try done; [|cbn in u_room0; lia].
    apply (core_lose _ _ _ [p] _ _ _ _ _ u_core0); [| |auto]; unfold on_the_way; cbn; rewrite ?El.
    + solve_Permutation.
    + intros x Hx. rewrite !elem_of_app. auto.
  - destruct (draining && _) eqn:Ed; [|done]. injection E as <- <-. cbn [result_of]. rewrite app_nil_r.
    apply andb_true_iff in Ed as [-> _]. by split.
Qed.

Lemma new_world_ok maxPackets : queue_ok [] [] 0 [] (new_world maxPackets).
Proof.
  assert (Hnil : ∀ (P : Packet → Prop) p, p ∈ [] → P p) by (intros P p Hp; by apply elem_of_nil in Hp).
  split; cbn; try done; try lia; [|intros _ _; by apply Hnil].
  split; cbn; try done; [apply NoDup_nil_2|by apply Hnil|intros s Hs; lia|by left].
Qed.

Lemma upload_step_ok seen sent off rs a w w' r :
  queue_ok seen sent off rs w → upload_step a w = Some (w', r) → Forall (λ p, p ∈ all ∧ pk_Seq p ∉ numbers seen) (pushed_by a) →
  ∃ off', queue_ok (seen ++ pushed_by a) (sent ++ sent_by a) off' (rs ++ result_of r) w'.
Proof.
  intros Hw E Hnew. destruct a; cbn [pushed_by sent_by] in *; rewrite ?app_nil_r;
    try (exists off; by apply (ok_others _ _ _ _ w _ w' r Hw E)).
  - apply Forall_singleton in Hnew as [? ?]. exists off. by eapply ok_push_enter.
  - exists off. by eapply ok_push_send.
  - exists off. by eapply ok_push_done.
  - exists off. by eapply ok_read_begin.
  - exists off. by eapply ok_receive.
  - by eapply ok_round.
Qed.

Lemma upload_run_ok actions seen sent off rs w w' rs' :
  queue_ok seen sent off rs w → upload_run actions w = Some (w', rs') → all = seen ++ pushes actions →
  ∃ off', queue_ok all (sent ++ sends actions) off' (rs ++ rs') w'.
Proof.
  revert seen sent off rs w rs'. induction actions as [|a actions IH]; intros seen sent off rs w rs' Hw E Hs; cbn [upload_run] in E.
  { injection E as <- <-. unfold pushes, sends in *. cbn [map concat] in *. rewrite !app_nil_r in *. subst. by exists off. }
  destruct (upload_step a w) as [[w1 r]|] eqn:Ea; [|done]. destruct (upload_run actions w1) as [[w2 rs2]|] eqn:Er; [|done].
  injection E as <- <-. unfold pushes, sends in *. cbn [map concat] in *.
  destruct (upload_step_ok _ _ _ _ _ _ _ _ Hw Ea) as [off1 H1].
  { destruct Hall as [Hnd _]. rewrite Hs, !numbers_app in Hnd. apply NoDup_app in Hnd as (_ & Hnd & _).
    apply Forall_forall. intros p Hp. split; [rewrite Hs, !elem_of_app; auto|]. intros Hin. apply (Hnd _ Hin), elem_of_app. left. by apply elem_of_numbers. }
  destruct (IH _ _ _ _ _ _ H1 Er) as [off2 H2]; [by rewrite <- app_assoc|]. exists off2. revert H2. rewrite <- !app_assoc. by destruct r.
Qed.
End core.

(** The limit does not change. *)
Lemma step_max a w w' r : upload_step a w = Some (w', r) → uq_maxPackets (uw_queue w') = uq_maxPackets (uw_queue w).
Proof.
  destruct w as [q pushing reading draining readers]. cbn.
  destruct a, reading; cbn; unfold push_enter, read_begin, receive_first, take_reader, read_loop;
    repeat (case_match; try done); intros; simplify_eq/=; try done; repeat (case_match; simplify_eq/=; try done).
Qed.

Lemma run_max actions w w' rs : upload_run actions w = Some (w', rs) → uq_maxPackets (uw_queue w') = uq_maxPackets (uw_queue w).
Proof.
  revert w rs. induction actions as [|a actions IH]; intros w rs E; cbn [upload_run] in E; [by injection E as <- <-|].
  destruct (upload_step a w) as [[w1 r]|] eqn:Ea; [|done]. destruct (upload_run actions w1) as [[w2 rs2]|] eqn:Er; [|done].
  injection E as <- <-. rewrite (IH _ _ Er). by eapply step_max.
Qed.

(** What the reads of a run gave is a prefix of the stream, none of it missing. *)
Lemma core_prefix all seen live heap next off out :
  core all seen live heap next off out → ∃ k, 0 <= k ∧ (∀ s, 0 <= s < k → s ∈ numbers seen) ∧ out `prefix_of` stream all k.
Proof.
  intros Hc. pose proof (c_next _ _ _ _ _ _ _ Hc). destruct (c_part _ _ _ _ _ _ _ Hc) as [->|(p & Hp & Ep)].
  - exists next. split_and!; [lia|apply Hc|]. by rewrite (c_out _ _ _ _ _ _ _ Hc), take_0, app_nil_r.
  - exists (next + 1). split_and!; [lia| |].
    + intros s Hs. destruct (Z.eq_dec s next) as [->|]; [|apply (c_seen _ _ _ _ _ _ _ Hc); lia]. rewrite <- Ep.
      apply (c_live _ _ _ _ _ _ _ Hc), (c_heap _ _ _ _ _ _ _ Hc), Hp.
    + rewrite (c_out _ _ _ _ _ _ _ Hc), stream_next by lia. apply prefix_app, prefix_take.
Qed.

Lemma queue_run_ok maxPackets actions w rs :
  numbered (pushes actions) → upload_run actions (new_world maxPackets) = Some (w, rs) →
  ∃ off, queue_ok (pushes actions) (pushes actions) (sends actions) off rs w.
Proof.
  intros Hn E. destruct (upload_run_ok (pushes actions) Hn actions [] [] 0%nat [] (new_world maxPackets) w rs) as [off Hw];
    [apply new_world_ok|done|done|]. by exists off.
Qed.

Lemma run_prefix maxPackets actions w rs :
  numbered (pushes actions) → upload_run actions (new_world maxPackets) = Some (w, rs) →
  ∃ k, 0 <= k ∧ (∀ s, 0 <= s < k → s ∈ numbers (pushes actions)) ∧ delivered rs `prefix_of` stream (pushes actions) k.
Proof. intros Hn E. destruct (queue_run_ok _ _ _ _ Hn E) as [off Hw]. eapply core_prefix, Hw. Qed.

(** C20 Uploads are read in order: whatever the order in which numbered packets are pushed and the
    interleaving of pushes, reads and closing, the bytes that the reads return are a prefix of
    the payloads in the order of the numbers, none missing and none twice; the channel and the
    heap hold no more than their limits; and while the queue is open and no read has failed, a
    read that waits with nothing in the channel has given out all bytes up to a packet that
    was not sent yet. *)
Theorem uploads_in_order maxPackets actions w rs :
  numbered (pushes actions) → upload_run actions (new_world maxPackets) = Some (w, rs) →
  let q := uw_queue w in
  let next := uq_nextSeq q in
  (∃ k, 0 <= k ∧ (∀ s, 0 <= s < k → s ∈ numbers (pushes actions)) ∧ delivered rs `prefix_of` stream (pushes actions) k) ∧
  (length (uq_heap q) <= maxPackets + 2)%nat ∧ (length (uq_pushedPackets q) <= Nat.max maxPackets 1)%nat ∧
  (waiting (uw_reading w) = true → uq_pushedPackets q = [] → uq_closed q = false → existsb is_failure rs = false →
   delivered rs = stream (pushes actions) next ∧ next ∉ numbers (sends actions)).
Proof.
  intros Hn E q next. assert (Hmax : uq_maxPackets q = maxPackets) by exact (run_max actions (new_world maxPackets) w rs E).
  split; [by eapply run_prefix|]. destruct (queue_run_ok _ _ _ _ Hn E) as [off Hw].
  pose proof (u_core _ _ _ _ _ _ Hw) as Hc. fold q in Hc. fold next in Hc.
  pose proof (u_phase _ _ _ _ _ _ Hw) as Hphase. pose proof (u_room _ _ _ _ _ _ Hw) as Hroom. fold q in Hphase, Hroom. split_and!.
  - destruct (uw_reading w); cbn in Hphase; try done; [lia|rewrite Hphase; cbn; lia|lia|destruct Hphase; lia].
  - by rewrite Hmax in Hroom.
  - intros Hwait Hl Hcl Hf. assert (Hlater : ∀ p, p ∈ uq_heap q → next < pk_Seq p).
    { destruct (uw_reading w); cbn in Hphase, Hwait; try done; [rewrite Hphase; intros p Hp; by apply elem_of_nil in Hp|apply Hphase]. }
    split.
    + destruct (c_part _ _ _ _ _ _ _ Hc) as [->|(p & Hp & Ep)]; [|specialize (Hlater p Hp); lia].
      by rewrite (c_out _ _ _ _ _ _ _ Hc), take_0, app_nil_r.
    + intros Hin. apply list_elem_of_fmap in Hin as (p & Ep & Hp).
      destruct (u_sent _ _ _ _ _ _ Hw Hcl Hf p Hp) as [Hlt|Hin]; [unfold next, q in Ep; lia|].
      fold q in Hin. rewrite Hl in Hin. apply list_elem_of_fmap in Hin as (x & Ex & Hx). specialize (Hlater x Hx). lia.
Qed.

(** ** Runs *)

Definition c_upload (s : Z) (text : string) : Packet := MkPacket None (String.list_byte_of_string text) s.
Definition c_push (p : Packet) : list upload_action := [PushEnter p; PushSend p].
Definition c_read (n : nat) : list upload_action := [ReadBegin n; ReadRound].

(** The second packet comes first, and the first one is read in two parts. *)
Definition c_uploads : list upload_action :=
  c_push (c_upload 1 "b") ++ [ReadBegin 2; ReadReceive; ReadRound] ++ c_push (c_upload 0 "aaa") ++ [ReadReceive; ReadRound] ++
  c_read 2 ++ c_read 2 ++ [ReadBegin 2].
Definition c_uploaded : uploadWorld * list read_result := default (new_world 30, []) (upload_run c_uploads (new_world 30)).

Lemma uploads_in_order_witness :
  let '(w, rs) := c_uploaded in
  upload_run c_uploads (new_world 30) = Some (w, rs) ∧ waiting (uw_reading w) = true ∧
  delivered rs = String.list_byte_of_string "aaab" ∧ delivered rs = stream (pushes c_uploads) (uq_nextSeq (uw_queue w)) ∧
  uq_nextSeq (uw_queue w) ∉ numbers (sends c_uploads).
Proof.
  assert (E : upload_run c_uploads (new_world 30) = Some c_uploaded) by (by vm_compute).
  assert (Hw : waiting (uw_reading c_uploaded.1) = true) by (by vm_compute).
  assert (Hl : uq_pushedPackets (uw_queue c_uploaded.1) = []) by (by vm_compute).
  assert (Hc : uq_closed (uw_queue c_uploaded.1) = false) by (by vm_compute).
  assert (Hf : existsb is_failure c_uploaded.2 = false) by (by vm_compute).
  assert (Hd : delivered c_uploaded.2 = String.list_byte_of_string "aaab") by (by vm_compute).
  destruct c_uploaded as [w rs]. cbn [fst snd] in *.
  destruct (uploads_in_order 30 c_uploads w rs) as (_ & _ & _ & H); [|exact E|].
  { split; [by apply (bool_decide_unpack _)|]. repeat constructor; cbn; lia. }
  split_and!; [done|done|done|apply (H Hw Hl Hc Hf)..].
Defined.

(** A packet that comes twice before it is read in parts: bytes of both are given out. *)
Example repeated_upload :
  let p := c_upload 1 "ab" in
  option_map (λ r, delivered r.2)
    (upload_run (c_push p ++ c_push p ++ c_push (c_upload 0 "x") ++
                 [ReadBegin 1; ReadReceive; ReadRound; ReadReceive; ReadRound; ReadReceive; ReadRound] ++ c_read 1 ++ c_read 1 ++ c_read 1)
       (new_world 30))
  = Some (String.list_byte_of_string "xaab").
Proof. by vm_compute. Qed.

(** A stream that comes while a read waits for a packet is put into the heap as a packet with
    the number 0 and forgotten: it is neither read nor closed, and the packet that the read
    waits for is refused. *)
Example stream_forgotten :
  let stream := MkPacket (Some 7%nat) [] 0 in
  match upload_run (c_push (c_upload 0 "x") ++ [ReadBegin 1; ReadReceive; ReadRound] ++ c_push (c_upload 2 "z") ++
                    [ReadBegin 1; ReadReceive; ReadRound] ++ c_push stream ++ [ReadReceive; ReadRound; ReadRound]) (new_world 30) with
  | Some (w, _) =>
      waiting (uw_reading w) = true ∧ uq_reader (uw_queue w) = None ∧ uw_closedReaders w = [] ∧
      bool_decide (stream ∈ (uq_pushedPackets (uw_queue w) ++ uq_heap (uw_queue w))) = false ∧ is_ok (push_enter (uw_queue w) (c_upload 1 "y")) = false
  | None => False
  end.
Proof. by vm_compute. Qed.
