(* ===== verification/Geosite.v ===== *)
(** * The geosite database: common/geosite

    A database has lists of names by code: a table of codes with the place and the length of
    their lists, and the lists. It is written from a map and read from a file; the lists are
    compiled to rules. The file is a list of bytes, and errors of the file system are left out. *)
From Stdlib Require Import Strings.Byte Strings.String.
From stdpp Require Import base list strings gmap sorting.
From S2P Require Import Prelude Netip Metadata RuleItems RuleAction RuleOptions Srs SrsCodec.

(** ** Items: rule.go *)

Definition RuleTypeDomain : Z := 0.
Definition RuleTypeDomainSuffix : Z := 1.
Definition RuleTypeDomainKeyword : Z := 2.
Definition RuleTypeDomainRegex : Z := 3.

Record Item : Type := MkItem {
  it_Type : Z;
  it_Value : string;
}.

(** The fields of [option.DefaultRule] that are set; the others stay zero. *)
Record geositeRule : Type := MkGeositeRule {
  gr_Domain : Listable string;
  gr_DomainSuffix : Listable string;
  gr_DomainKeyword : Listable string;
  gr_DomainRegex : Listable string;
}.

Definition values_of (type : Z) (code : list Item) : list string :=
  map it_Value (List.filter (λ i, it_Type i =? type) code).
Definition Compile (code : list Item) : geositeRule :=
  MkGeositeRule (of_slice (values_of RuleTypeDomain code)) (of_slice (values_of RuleTypeDomainSuffix code))
    (of_slice (values_of RuleTypeDomainKeyword code)) (of_slice (values_of RuleTypeDomainRegex code)).

Definition merge_field (f : geositeRule → Listable string) (rules : list geositeRule) : Listable string :=
  of_slice (concat (map (λ r, default [] (f r)) rules)).
Definition Merge (rules : list geositeRule) : geositeRule :=
  MkGeositeRule (merge_field gr_Domain rules) (merge_field gr_DomainSuffix rules)
    (merge_field gr_DomainKeyword rules) (merge_field gr_DomainRegex rules).

(** ** Writing: writer.go *)

Section write.
Context `{Varbin}.

Definition geosite_writeString (value : string) : list byte :=
  let b := bytes_of_string value in varbin_WriteUvarint (u64 (Z.of_nat (length b))) ++ b.
Definition write_item (item : Item) : list byte := z2b (it_Type item) :: geosite_writeString (it_Value item).

(** The lists one after the other, and where each begins. *)
Fixpoint write_lists (keys : list string) (domains : gmap string (list Item)) (content : list byte) (index : gmap string Z)
    : list byte * gmap string Z :=
  match keys with
  | [] => (content, index)
  | code :: keys =>
      write_lists keys domains (content ++ concat (map write_item (default [] (domains !! code))))
        (<[code := Z.of_nat (length content)]> index)
  end.

Definition write_entry (domains : gmap string (list Item)) (index : gmap string Z) (code : string) : list byte :=
  geosite_writeString code ++ varbin_WriteUvarint (u64 (default 0 (index !! code))) ++
  varbin_WriteUvarint (u64 (Z.of_nat (length (default [] (domains !! code))))).

(** [order] is the order in which the codes of the map come. *)
Definition geosite_Write (order : list string) (domains : gmap string (list Item)) : list byte :=
  let keys := merge_sort String.le order in
  let '(content, index) := write_lists keys domains [] ∅ in
  z2b 0 :: varbin_WriteUvarint (u64 (Z.of_nat (length keys))) ++ concat (map (write_entry domains index) keys) ++ content.
End write.

(** ** Reading: reader.go *)

Record geositeReader : Type := MkGeositeReader {
  gs_file : list byte;
  gs_metadataIndex : Z;
  gs_domainIndex : gmap string Z;
  gs_domainLength : gmap string Z;
}.

Definition read_raw (_ : nat) (b : list byte) : result (byte * list byte) :=
  match b with [] => Err EOF | x :: b => Ok (x, b) end.
Definition readString (b : list byte) : result (string * list byte) :=
  '(length, b) ← ReadUvarint b;
  '(l, b) ← read_times read_raw length b;
  Ok (string_of_bytes l, b).

Definition read_entry (_ : nat) (b : list byte) : result ((string * (Z * Z)) * list byte) :=
  '(code, b) ← readString b;
  '(codeIndex, b) ← ReadUvarint b;
  '(codeLength, b) ← ReadUvarint b;
  if (2 ^ 31 - 1 <? codeIndex) || (2 ^ 31 - 1 <? codeLength) then Err (ENew ("invalid metadata entry: " +:+ code)%string)
  else Ok ((code, (codeIndex, codeLength)), b).

(** [readMetadata]: an entry of a code replaces an earlier one. *)
Definition readMetadata (file : list byte) : result geositeReader :=
  '(version, b) ← read_byte file;
  _ ← guard_err (negb (version =? 0)) (ENew "unknown version");
  '(entryLength, b) ← ReadUvarint b;
  '(entries, b) ← read_times read_entry entryLength b;
  let put (f : Z * Z → Z) := fold_left (λ m e, <[e.1 := f e.2]> m) entries (∅ : gmap string Z) in
  Ok (MkGeositeReader file (Z.of_nat (length file - length b)) (put fst) (put snd)).

(** [NewReader]: the reader, and the codes in the order of a map. *)
Definition NewReader (file : list byte) : result (geositeReader * list string) :=
  r ← readMetadata file; Ok (r, (map_to_list (gs_domainIndex r)).*1).

Definition read_item (_ : nat) (b : list byte) : result (Item * list byte) :=
  '(typeByte, b) ← read_byte b;
  '(value, b) ← readString b;
  Ok (MkItem typeByte value, b).

Definition geosite_Read (r : geositeReader) (code : string) : result (list Item) :=
  match gs_domainIndex r !! code with
  | None => Err (ENew ("code " +:+ code +:+ " not exists!")%string)
  | Some index =>
      let b := drop (Z.to_nat (gs_metadataIndex r + index)) (gs_file r) in
      '(items, _) ← read_times read_item (default 0 (gs_domainLength r !! code)) b;
      Ok items
  end.

(** * A geosite database that was written is read

    The round trip of databases, and what compiling and merging have to do with each other. *)

(** ** Rules *)

Lemma default_of_slice {A} (l : list A) : default [] (of_slice l) = l.
Proof. by destruct l. Qed.

Lemma values_of_concat type codes : values_of type (concat codes) = concat (map (values_of type) codes).
Proof.
  unfold values_of. induction codes as [|c codes IH]; [done|]. cbn [concat map]. by rewrite List.filter_app, map_app, IH.
Qed.

(** Lists compiled one by one and merged are the rule of all their items. *)
Lemma Merge_Compile codes : Merge (map Compile codes) = Compile (concat codes).
Proof.
  unfold Merge, merge_field, Compile. rewrite !map_map. cbn [gr_Domain gr_DomainSuffix gr_DomainKeyword gr_DomainRegex].
  rewrite !values_of_concat. f_equal; f_equal; f_equal; apply map_ext; intros c; apply default_of_slice.
Qed.

(** ** Parts *)

Section parts.
Context `{Varbin}.
(** varbin writes the varints of encoding/binary *)
Hypothesis Hvarbin : ∀ n, 0 <= n < 2 ^ 64 → varbin_WriteUvarint n = PutUvarint n.

Lemma write_uvarint n : 0 <= n < 2 ^ 64 → varbin_WriteUvarint (u64 n) = PutUvarint n.
Proof using Hvarbin. intros Hn. rewrite wrap_small by lia. by apply Hvarbin. Qed.

Definition text_ok (s : string) : Prop := fits (bytes_of_string s).
Definition item_ok (i : Item) : Prop := 0 <= it_Type i < 256 ∧ text_ok (it_Value i).

Lemma concat_singletons {A} (l : list A) : concat (map (λ x, [x]) l) = l.
Proof. induction l as [|x l IH]; cbn; [done|]. by rewrite IH. Qed.

Lemma readString_write s rest : text_ok s → readString (geosite_writeString s ++ rest) = Ok (s, rest).
Proof using Hvarbin.
  intros Hs. unfold text_ok, fits in Hs. unfold readString, geosite_writeString. rewrite <- app_assoc, write_uvarint, ReadUvarint_Put by lia.
  cbn [mbind result_bind]. rewrite <- (concat_singletons (bytes_of_string s)) at 2.
  rewrite (read_times_spec read_raw (λ x, [x])); [|done|done]. cbn [mbind result_bind]. by rewrite string_of_bytes_of.
Qed.

Lemma read_item_write i j rest : item_ok i → read_item j (write_item i ++ rest) = Ok (i, rest).
Proof using Hvarbin.
  intros [Ht Hv]. unfold read_item, write_item. cbn [app]. rewrite read_byte_z2b by done. cbn [mbind result_bind].
  rewrite readString_write by done. cbn [mbind result_bind]. by destruct i.
Qed.

(** ** Lists *)

Definition list_bytes (domains : gmap string (list Item)) (code : string) : list byte :=
  concat (map write_item (default [] (domains !! code))).

Lemma write_lists_content keys domains content index :
  (write_lists keys domains content index).1 = content ++ concat (map (list_bytes domains) keys).
Proof.
  revert content index. induction keys as [|code keys IH]; intros content index; cbn; [by rewrite app_nil_r|].
  rewrite IH, <- app_assoc. done.
Qed.

Lemma write_lists_other keys domains content index code :
  code ∉ keys → (write_lists keys domains content index).2 !! code = index !! code.
Proof.
  revert content index. induction keys as [|k keys IH]; intros content index Hk; cbn; [done|].
  apply not_elem_of_cons in Hk as [Hne Hk]. rewrite IH by done. by rewrite lookup_insert_ne.
Qed.

Lemma write_lists_index k1 code k2 domains content index :
  NoDup (k1 ++ code :: k2) →
  (write_lists (k1 ++ code :: k2) domains content index).2 !! code =
  Some (Z.of_nat (length (content ++ concat (map (list_bytes domains) k1)))).
Proof.
  revert content index. induction k1 as [|k k1 IH]; intros content index Hnd; cbn [app write_lists].
  - cbn [app] in Hnd. apply NoDup_cons in Hnd as [Hno _]. rewrite write_lists_other, lookup_insert_eq by done. cbn. by rewrite app_nil_r.
  - cbn [app] in Hnd. apply NoDup_cons in Hnd as [_ Hnd]. rewrite IH by done. cbn. by rewrite <- app_assoc.
Qed.

(** ** Tables *)

Lemma put_other (f : Z * Z → Z) (entries : list (string * (Z * Z))) (m : gmap string Z) code :
  code ∉ map fst entries → fold_left (λ m e, <[e.1 := f e.2]> m) entries m !! code = m !! code.
Proof.
  revert m. induction entries as [|e entries IH]; intros m Hno; cbn; [done|]. cbn [map] in Hno. apply not_elem_of_cons in Hno as [Hne Hno].
  rewrite IH by done. by rewrite lookup_insert_ne.
Qed.

Lemma put_entry (f : Z * Z → Z) (entries : list (string * (Z * Z))) (m : gmap string Z) code v :
  NoDup (map fst entries) → (code, v) ∈ entries → fold_left (λ m e, <[e.1 := f e.2]> m) entries m !! code = Some (f v).
Proof.
  revert m. induction entries as [|e entries IH]; intros m Hnd Hin; [by apply elem_of_nil in Hin|]. cbn [map] in Hnd.
  apply NoDup_cons in Hnd as [Hno Hnd]. cbn [fold_left]. apply elem_of_cons in Hin as [<- |Hin]; [|by apply IH].
  rewrite put_other by done. cbn. by rewrite lookup_insert_eq.
Qed.

(** ** Databases *)

(** Codes and items that fit the format, with lists below 2^31 bytes and items. *)
Definition database_ok (order : list string) (domains : gmap string (list Item)) : Prop :=
  order ≡ₚ (map_to_list domains).*1 ∧ fits order ∧
  map_Forall (λ code items, text_ok code ∧ Forall item_ok items ∧ Z.of_nat (length items) < 2 ^ 31) domains ∧
  Z.of_nat (length (concat (map (list_bytes domains) order))) < 2 ^ 31.

(** The sum of the lengths does not depend on the order. *)
Lemma length_concat_Permutation {A B} (f : A → list B) l l' : l ≡ₚ l' → length (concat (map f l)) = length (concat (map f l')).
Proof. induction 1; cbn; rewrite ?length_app in *; lia. Qed.

Definition entry_bytes (e : string * (Z * Z)) : list byte := geosite_writeString e.1 ++ PutUvarint e.2.1 ++ PutUvarint e.2.2.

Lemma read_entry_write e j rest :
  text_ok e.1 → 0 <= e.2.1 < 2 ^ 31 → 0 <= e.2.2 < 2 ^ 31 → read_entry j (entry_bytes e ++ rest) = Ok (e, rest).
Proof using Hvarbin.
  intros Hc Hi Hn. unfold read_entry, entry_bytes. rewrite <- !app_assoc, readString_write by done. cbn [mbind result_bind].
  rewrite ReadUvarint_Put by lia. cbn [mbind result_bind]. rewrite ReadUvarint_Put by lia. cbn [mbind result_bind].
  rewrite (proj2 (Z.ltb_ge _ _)), (proj2 (Z.ltb_ge (2 ^ 31 - 1) e.2.2)) by lia. by destruct e as [? [? ?]].
Qed.

Section database.
Context (order : list string) (domains : gmap string (list Item)).
Hypothesis Hok : database_ok order domains.
Let keys := merge_sort String.le order.
Let written := write_lists keys domains [] ∅.
Definition entry_of (code : string) : string * (Z * Z) :=
  (code, (default 0 ((write_lists (merge_sort String.le order) domains [] ∅).2 !! code), Z.of_nat (length (default [] (domains !! code))))).

Lemma keys_order : keys ≡ₚ order.
Proof. apply merge_sort_Permutation. Qed.

Lemma keys_domains code : code ∈ keys ↔ is_Some (domains !! code).
Proof using Hok.
  rewrite keys_order, (proj1 Hok), list_elem_of_fmap. split.
  - intros ([c items] & -> & Hin). apply elem_of_map_to_list in Hin. by exists items.
  - intros [items Hin]. exists (code, items). split; [done|]. by apply elem_of_map_to_list.
Qed.

Lemma keys_NoDup : NoDup keys.
Proof using Hok. rewrite keys_order, (proj1 Hok). apply NoDup_fst_map_to_list. Qed.

(** The place of a list: what comes before and after it. *)
Lemma key_place code :
  code ∈ keys → ∃ before after, written.1 = before ++ list_bytes domains code ++ after ∧
    written.2 !! code = Some (Z.of_nat (length before)) ∧ Z.of_nat (length before) < 2 ^ 31.
Proof using Hok.
  intros Hk. pose proof keys_NoDup as Hnd. apply list_elem_of_split in Hk as (k1 & k2 & E). unfold written. rewrite E in *.
  exists (concat (map (list_bytes domains) k1)), (concat (map (list_bytes domains) k2)). split_and!.
  - rewrite write_lists_content, map_app, concat_app. done.
  - by rewrite write_lists_index.
  - destruct Hok as (_ & _ & _ & Hl). rewrite <- (length_concat_Permutation _ _ _ keys_order), E, map_app, concat_app, length_app in Hl. lia.
Qed.

Lemma entry_ok code : code ∈ keys → text_ok code ∧ 0 <= (entry_of code).2.1 < 2 ^ 31 ∧ 0 <= (entry_of code).2.2 < 2 ^ 31 ∧
  write_entry domains written.2 code = entry_bytes (entry_of code).
Proof using Hok Hvarbin.
  intros Hk. destruct (key_place code Hk) as (before & after & _ & Hi & Hb). pose proof Hk as Hd. apply keys_domains in Hd as [items Hd].
  destruct Hok as (_ & _ & Hall & _). destruct (Hall code items Hd) as (Hc & _ & Hn). unfold entry_of. fold keys. fold written.
  unfold write_entry, entry_bytes. rewrite Hi, Hd. cbn. split_and!; try done; try lia. by rewrite !write_uvarint by lia.
Qed.

Lemma readMetadata_written :
  let file := geosite_Write order domains in
  ∃ r, readMetadata file = Ok r ∧ gs_file r = file ∧ drop (Z.to_nat (gs_metadataIndex r)) file = written.1 ∧
    0 <= gs_metadataIndex r ∧
    ∀ code, gs_domainIndex r !! code = written.2 !! code ∧
            (code ∈ keys → gs_domainLength r !! code = Some (Z.of_nat (length (default [] (domains !! code))))).
Proof using Hok Hvarbin.
  intros file. assert (Hfile : file = z2b 0 :: PutUvarint (Z.of_nat (length (map entry_of keys))) ++ concat (map entry_bytes (map entry_of keys)) ++ written.1).
  { unfold file, geosite_Write. fold keys. fold written. rewrite (surjective_pairing written). cbn [fst snd].
    rewrite length_map, write_uvarint by (rewrite keys_order; destruct Hok as (_ & Hf & _); unfold fits in Hf; lia).
    rewrite map_map. do 3 f_equal. f_equal. apply map_ext_in. intros code Hin. apply entry_ok. by apply list_elem_of_In. }
  assert (Hfst : map fst (map entry_of keys) = keys) by (rewrite map_map; apply map_id).
  clearbody file.
  assert (Hread : read_byte file = Ok (0, PutUvarint (Z.of_nat (length (map entry_of keys))) ++ concat (map entry_bytes (map entry_of keys)) ++ written.1))
    by (rewrite Hfile; by apply read_byte_z2b).
  unfold readMetadata. rewrite Hread. cbn [mbind result_bind guard_err Z.eqb negb].
  rewrite ReadUvarint_Put by (rewrite length_map, keys_order; destruct Hok as (_ & Hf & _); unfold fits in Hf; lia). cbn [mbind result_bind].
  rewrite (read_times_spec read_entry entry_bytes).
  - cbn [mbind result_bind]. eexists. split; [done|]. cbn [gs_file gs_metadataIndex gs_domainIndex gs_domainLength].
    split; [done|]. split; [|split; [lia|]].
    + rewrite Nat2Z.id. rewrite Hfile. rewrite app_comm_cons, app_assoc, length_app. rewrite Nat.add_sub. by rewrite drop_app_length.
    + intros code. split.
      * destruct (decide (code ∈ keys)) as [Hk|Hk].
        -- rewrite (put_entry _ _ _ _ (entry_of code).2); [|by rewrite Hfst; apply keys_NoDup|exact (list_elem_of_fmap_2 entry_of _ _ Hk)].
           destruct (key_place code Hk) as (before & after & _ & Hi & _). unfold entry_of. fold keys. fold written. by rewrite Hi.
        -- rewrite put_other by (by rewrite Hfst). unfold written. by rewrite write_lists_other.
      * intros Hk. rewrite (put_entry _ _ _ _ (entry_of code).2); [done|by rewrite Hfst; apply keys_NoDup|].
        exact (list_elem_of_fmap_2 entry_of _ _ Hk).
  - intros e _. unfold entry_bytes, geosite_writeString. destruct (PutUvarint_cons e.2.1) as (c & l & ->). intros E.
    apply app_eq_nil in E as [_ E]. done.
  - intros e j b Hin. apply list_elem_of_fmap in Hin as (code & -> & Hk). apply read_entry_write; by apply entry_ok.
Qed.
End database.
End parts.

(** C22 A geosite database that was written is read back: the reader finds exactly the codes that
    were written and for each of them its items, in order; another code is refused; and the
    bytes do not depend on the order in which the map gave its codes. *)
Theorem geosite_roundtrip `{Varbin} order domains :
  (∀ n, 0 <= n < 2 ^ 64 → varbin_WriteUvarint n = PutUvarint n) → database_ok order domains →
  let file := geosite_Write order domains in
  (∃ r codes, NewReader file = Ok (r, codes) ∧ codes ≡ₚ order ∧
    ∀ code, geosite_Read r code = match domains !! code with
                                  | Some items => Ok items
                                  | None => Err (ENew ("code " +:+ code +:+ " not exists!")%string)
                                  end) ∧
  ∀ order', order' ≡ₚ order → geosite_Write order' domains = file.
Proof.
  intros Hvarbin Hok file. split.
  - destruct (readMetadata_written Hvarbin order domains Hok) as (r & Hr & Hfile & Hdrop & Hpos & Hmaps). fold file in Hr, Hfile, Hdrop.
    pose proof (keys_order order) as Hkeys. pose proof (keys_domains order domains Hok) as Hdom.
    assert (Hin : ∀ code, is_Some (gs_domainIndex r !! code) ↔ code ∈ merge_sort String.le order).
    { intros code. rewrite (proj1 (Hmaps code)). split; [|intros Hk; destruct (key_place order domains Hok code Hk) as (? & ? & _ & -> & _); by eexists].
      intros [i Hi]. destruct (decide (code ∈ merge_sort String.le order)) as [|Hno]; [done|]. by rewrite write_lists_other in Hi. }
    exists r, (map_to_list (gs_domainIndex r)).*1. unfold NewReader. rewrite Hr. split_and!; [done| |].
    + apply NoDup_Permutation; [apply NoDup_fst_map_to_list|rewrite (proj1 Hok); apply NoDup_fst_map_to_list|]. intros code.
      rewrite <- Hkeys, <- Hin, list_elem_of_fmap. split.
      * intros ([c i] & -> & Hi). apply elem_of_map_to_list in Hi. by exists i.
      * intros [i Hi]. exists (code, i). split; [done|]. by apply elem_of_map_to_list.
    + intros code. unfold geosite_Read. destruct (domains !! code) as [items|] eqn:Ed.
      * assert (Hk : code ∈ merge_sort String.le order) by (apply Hdom; by eexists).
        destruct (Hmaps code) as [Hi Hn]. destruct (key_place order domains Hok code Hk) as (before & after & Hc & Hi' & _).
        rewrite Hi, Hi', (Hn Hk), Ed, Hfile. cbn [from_option id].
        rewrite Z2Nat.inj_add, Nat2Z.id, <- drop_drop, Hdrop, Hc, drop_app_length by lia. unfold list_bytes. rewrite Ed. cbn [from_option id].
        destruct Hok as (_ & _ & Hall & _). destruct (Hall code items Ed) as (_ & Hitems & _). rewrite Forall_forall in Hitems.
        rewrite (read_times_spec read_item write_item); [done|done|]. intros i j b Hi2. apply read_item_write; [done|by apply Hitems].
      * destruct (gs_domainIndex r !! code) as [i|] eqn:Ei; [|done]. exfalso.
        assert (Hs : is_Some (domains !! code)) by (apply Hdom, Hin; by eexists). rewrite Ed in Hs. by destruct Hs.
  - intros order' Hp. unfold file, geosite_Write.
    assert (E : merge_sort String.le order' = merge_sort String.le order); [|by rewrite E].
    apply (StronglySorted_unique String.le); [apply StronglySorted_merge_sort; apply _..|]. by rewrite !merge_sort_Permutation.
Qed.

(** ** A database *)

Definition c_geosite_varbin : Varbin := {|
  varbin_WriteUvarint := PutUvarint;
  varbin_ReadSlice8 l := Err EOF;
  varbin_ReadSlice16 l := Err EOF;
  zlib_compress l := l;
  zlib_NewReader l := Ok l;
|}.
Definition c_domains : gmap string (list Item) :=
  {[ "cn"%string := [MkItem 1 "example.cn"; MkItem 0 "a.example"]; "ads"%string := [MkItem 2 "advert"] ]}.

Lemma geosite_roundtrip_witness :
  let file := @geosite_Write c_geosite_varbin ["cn"; "ads"]%string c_domains in
  length file = 44%nat ∧
  ∃ r codes, NewReader file = Ok (r, codes) ∧ codes ≡ₚ ["cn"; "ads"]%string ∧
    geosite_Read r "cn" = Ok [MkItem 1 "example.cn"; MkItem 0 "a.example"].
Proof.
  intros file. split; [by vm_compute|].
  destruct (@geosite_roundtrip c_geosite_varbin ["cn"; "ads"]%string c_domains) as [(r & codes & H1 & H2 & H3) _]; [done| |].
  - split_and!; [by apply (bool_decide_unpack _); vm_compute|by vm_compute| |by vm_compute].
    apply map_Forall_insert_2; [|apply map_Forall_singleton]; (split_and!; [by vm_compute| |by vm_compute]);
      repeat (apply Forall_cons; split); try apply Forall_nil_2; (split; [cbn; lia|by vm_compute]).
  - exists r, codes. split_and!; [done|done|]. by rewrite H3.
Defined.
