(* ===== verification/XrayPipe.v ===== *)
(** * Buffers: common/xray/buf

    A buffer is an array with the range of its content. Its ownership and its UDP destination
    play no part here, and the bytes that a pool gives to a new buffer are a parameter. *)
From Stdlib Require Import Strings.Byte.
From stdpp Require Import base list strings.
From S2P Require Import Prelude Netip GoBytes.

(** ** Buffers: buffer.go *)

Definition Size : Z := 8192.

Record Buffer : Type := MkBuffer {
  bf_v : list byte;
  bf_start : Z;
  bf_end : Z;
}.

(** The bytes between two indexes of an array. *)
Definition range (l : list byte) (from to : Z) : list byte := take (Z.to_nat (to - from)) (drop (Z.to_nat from) l).
(** [copy] into an array at an index, of bytes that fit. *)
Definition copy_at (l : list byte) (i : Z) (data : list byte) : list byte :=
  take (Z.to_nat i) l ++ data ++ drop (Z.to_nat i + length data) l.

Definition Bytes (b : Buffer) : list byte := range (bf_v b) (bf_start b) (bf_end b).
Definition Buffer_Len (b : Buffer) : Z := bf_end b - bf_start b.
Definition Buffer_IsEmpty (b : Buffer) : bool := Buffer_Len b =? 0.
Definition IsFull (b : Buffer) : bool := bf_end b =? len (bf_v b).

(** [New]: an array of a pool, which is not cleared *)
Definition New (array : list byte) : Buffer := MkBuffer array 0 0.

(** [Write]: the bytes that are taken; the error says that there are more. *)
Definition Buffer_Write (b : Buffer) (data : list byte) : Buffer * Z :=
  let n := Z.min (len (bf_v b) - bf_end b) (len data) in
  (MkBuffer (copy_at (bf_v b) (bf_end b) (take (Z.to_nat n) data)) (bf_start b) (bf_end b + n), n).

(** [Read] into [n] bytes *)
Definition Buffer_Read (b : Buffer) (n : Z) : Buffer * list byte :=
  if Buffer_Len b =? 0 then (b, [])
  else
    let nBytes := Z.min n (Buffer_Len b) in
    let data := take (Z.to_nat nBytes) (Bytes b) in
    if nBytes =? Buffer_Len b then (MkBuffer (bf_v b) 0 0, data) else (MkBuffer (bf_v b) (bf_start b + nBytes) (bf_end b), data).

(** [Check] and [Advance] *)
Definition Check_start (b : Buffer) : Buffer :=
  let start := if bf_start b <? 0 then 0 else bf_start b in
  let stop := if bf_end b <? 0 then 0 else bf_end b in
  MkBuffer (bf_v b) (if stop <? start then stop else start) stop.
Definition Advance (b : Buffer) (from : Z) : Buffer :=
  let from := if from <? 0 then from + Buffer_Len b else from in
  Check_start (MkBuffer (bf_v b) (bf_start b + from) (bf_end b)).

(** [BytesTo] *)
Definition BytesTo (b : Buffer) (to : Z) : result (list byte) :=
  let to := if to <? 0 then to + Buffer_Len b else to in
  let to := if to <? 0 then 0 else to in
  slice (bf_v b) (bf_start b) (bf_start b + to).

(** [copy(b.Extend(n), data)] *)
Definition extend_copy (b : Buffer) (n : Z) (data : list byte) : result Buffer :=
  let stop := bf_end b + n in
  if len (bf_v b) <? stop then Panic "extending out of bound"
  else if n <? 0 then Panic "slice bounds out of range"
  else
    let v := copy_at (bf_v b) (bf_end b) (repeat x00 (Z.to_nat n)) in
    Ok (MkBuffer (copy_at v (bf_end b) (take (Z.to_nat n) data)) (bf_start b) stop).

(** ** Lists of buffers: multi_buffer.go *)

Definition MultiBuffer : Type := list Buffer.

Definition Len (mb : MultiBuffer) : Z := fold_left (λ size b, int32 (size + Buffer_Len b)) mb 0.
Definition IsEmpty (mb : MultiBuffer) : bool := forallb Buffer_IsEmpty mb.
(** The bytes of all buffers, which the code never builds. *)
Definition content (mb : MultiBuffer) : list byte := concat (map Bytes mb).

(** [MergeMulti]: what [dest] becomes *)
Definition MergeMulti (dest src : MultiBuffer) : MultiBuffer := dest ++ src.

(** [MergeBytes]: [array n] is the array of the [n]-th buffer of a list. *)
Section merge.
Variable array : nat → list byte.

Fixpoint merge_loop (fuel : nat) (dest : MultiBuffer) (src : list byte) : result MultiBuffer :=
  match fuel with
  | O => Err (ENew "runs on")
  | S fuel =>
      if has_items src then
        let '(b, n) := Buffer_Write (New (array (length dest))) src in
        merge_loop fuel (dest ++ [b]) (drop (Z.to_nat n) src)
      else Ok dest
  end.
Definition MergeBytes (dest : MultiBuffer) (src : list byte) : result MultiBuffer :=
  let '(dest, src) :=
    match last dest with
    | Some b =>
        if IsFull b then (dest, src)
        else let '(b', n) := Buffer_Write b src in (take (length dest - 1) dest ++ [b'], drop (Z.to_nat n) src)
    | None => (dest, src)
    end in
  merge_loop (S (length src)) dest src.

(** [Copy] into an array of [n] bytes: what is written *)
Fixpoint Copy (mb : MultiBuffer) (n : Z) : list byte :=
  match mb with
  | [] => []
  | b :: mb =>
      let nBytes := Z.min n (Buffer_Len b) in
      take (Z.to_nat nBytes) (Bytes b) ++ (if nBytes <? Buffer_Len b then [] else Copy mb (n - nBytes))
  end.

(** [SplitBytes] into an array of [n] bytes: what is left, and what is written *)
Fixpoint SplitBytes (mb : MultiBuffer) (n : Z) : MultiBuffer * list byte :=
  match mb with
  | [] => ([], [])
  | b :: rest =>
      let '(b, data) := Buffer_Read b n in
      if negb (Buffer_IsEmpty b) then (b :: rest, data)
      else let '(rest, data') := SplitBytes rest (n - len data) in (rest, data ++ data')
  end.

(** [SplitSize]: what is left, and what is split off *)
Fixpoint split_loop (mb : MultiBuffer) (size totalBytes : Z) : MultiBuffer * MultiBuffer :=
  match mb with
  | [] => ([], [])
  | b :: rest =>
      if size <? int32 (totalBytes + Buffer_Len b) then (mb, [])
      else let '(mb, r) := split_loop rest size (int32 (totalBytes + Buffer_Len b)) in (mb, b :: r)
  end.
Definition SplitSize (mb : MultiBuffer) (size : Z) : result (MultiBuffer * MultiBuffer) :=
  match mb with
  | [] => Ok ([], [])
  | b :: rest =>
      if size <? Buffer_Len b then
        data ← BytesTo b size;
        chunk ← extend_copy (New (array 0)) size data;
        Ok (Advance b size :: rest, [chunk])
      else Ok (split_loop mb size 0)
  end.

(** ** Reading: [ReadFrom] and [ReadAllToBytes] *)

(** A reader: the bytes it has, and its error behind them. [io.ReadFull] of [n] bytes: *)
Definition read_full (n : Z) (r : list byte * error) : list byte * option error * (list byte * error) :=
  if n <=? len r.1 then (take (Z.to_nat n) r.1, None, (drop (Z.to_nat n) r.1, r.2))
  else (r.1, Some (if errors_Is r.2 "io.EOF" && has_items r.1 then ENamed "io.ErrUnexpectedEOF" else r.2), ([], r.2)).
Definition ends_input (e : error) : bool := errors_Is e "io.EOF" || errors_Is e "io.ErrUnexpectedEOF".

Fixpoint ReadFrom (fuel : nat) (mb : MultiBuffer) (r : list byte * error) : MultiBuffer * option error :=
  match fuel with
  | O => (mb, Some (ENew "runs on"))
  | S fuel =>
      let '(data, err, r) := read_full Size r in
      let b := (Buffer_Write (New (array (length mb))) data).1 in
      let mb := if Buffer_IsEmpty b then mb else mb ++ [b] in
      match err with
      | None => ReadFrom fuel mb r
      | Some e => if ends_input e then (mb, None) else (mb, Some e)
      end
  end.
Definition ReadAllToBytes (r : list byte * error) : list byte * option error :=
  let '(mb, err) := ReadFrom (S (length r.1)) [] r in
  match err with
  | Some e => ([], Some e)
  | None => if Len mb =? 0 then ([], None) else ((SplitBytes mb (Len mb)).2, None)
  end.
End merge.

(** * What buffers hold

    The operations on lists of buffers keep the bytes and their order. *)

(** ** Ranges *)

Lemma length_range l from to : 0 <= from <= to → to <= len l → len (range l from to) = to - from.
Proof. intros. unfold range, len in *. rewrite length_take, length_drop. lia. Qed.

Lemma len_copy_at l i data : 0 <= i → i + len data <= len l → len (copy_at l i data) = len l.
Proof. intros. unfold copy_at, len in *. rewrite !length_app, length_take, length_drop. lia. Qed.

(** Bytes copied behind a range extend it. *)
Lemma range_copy_at l from i data :
  0 <= from <= i → i + len data <= len l → range (copy_at l i data) from (i + len data) = range l from i ++ data.
Proof.
  intros Hf Hi. unfold range, copy_at, len in *. rewrite drop_app_le by (rewrite length_take; lia). rewrite take_app_ge by (rewrite length_drop, length_take; lia).
  rewrite length_drop, length_take. rewrite skipn_firstn_comm. f_equal; [f_equal; lia|].
  rewrite take_app_le by lia. apply take_ge. lia.
Qed.

Lemma range_split l from mid to :
  0 <= from <= mid → mid <= to → to <= len l → range l from to = range l from mid ++ range l mid to.
Proof.
  intros. unfold range. rewrite <- (take_drop (Z.to_nat (mid - from)) (take (Z.to_nat (to - from)) _)). f_equal.
  - rewrite take_take. f_equal. lia.
  - rewrite skipn_firstn_comm, drop_drop. f_equal; [lia|f_equal; lia].
Qed.

Lemma range_take l from to n : 0 <= n <= to - from → take (Z.to_nat n) (range l from to) = range l from (from + n).
Proof. intros. unfold range. rewrite take_take. f_equal. lia. Qed.

Lemma range_empty l i : range l i i = [].
Proof. unfold range. by rewrite Z.sub_diag. Qed.

(** ** Buffers *)

(** A buffer of the size of the pool, with its content inside. *)
Definition buffer_ok (b : Buffer) : Prop := 0 <= bf_start b <= bf_end b ∧ bf_end b <= len (bf_v b) ∧ len (bf_v b) = Size.

Lemma len_Bytes b : buffer_ok b → len (Bytes b) = Buffer_Len b.
Proof. intros (H1 & H2 & H3). unfold Bytes. rewrite length_range by lia. done. Qed.

Lemma IsEmpty_Bytes b : buffer_ok b → Buffer_IsEmpty b = negb (has_items (Bytes b)).
Proof.
  intros Hok. pose proof (len_Bytes b Hok) as Hl. unfold Buffer_IsEmpty. rewrite <- Hl. unfold len. destruct (Bytes b); cbn [length has_items negb]; [done|].
  apply Z.eqb_neq. lia.
Qed.

Lemma New_ok array : len array = Size → buffer_ok (New array).
Proof. intros Ha. unfold buffer_ok, New. cbn. rewrite Ha. unfold Size. lia. Qed.

Lemma Write_ok b data b' n :
  buffer_ok b → Buffer_Write b data = (b', n) →
  buffer_ok b' ∧ Bytes b' = Bytes b ++ take (Z.to_nat n) data ∧ n = Z.min (len (bf_v b) - bf_end b) (len data).
Proof.
  intros (H1 & H2 & H3) E. unfold Buffer_Write in E. injection E as <- <-. set (n := Z.min _ _).
  assert (Hn : 0 <= n <= len data ∧ bf_end b + n <= len (bf_v b)) by (unfold n, len in *; lia).
  assert (Hl : len (take (Z.to_nat n) data) = n) by (unfold len in *; rewrite length_take; lia).
  split_and!; [| |done].
  - unfold buffer_ok. cbn. rewrite len_copy_at by (rewrite ?Hl; lia). lia.
  - unfold Bytes. cbn. rewrite <- Hl at 2. by rewrite range_copy_at by (rewrite ?Hl; lia).
Qed.

Lemma Read_ok b n b' data :
  buffer_ok b → 0 <= n → Buffer_Read b n = (b', data) →
  buffer_ok b' ∧ Bytes b = data ++ Bytes b' ∧ len data = Z.min n (Buffer_Len b).
Proof.
  intros Hb Hn E. pose proof (len_Bytes b Hb) as Hl. destruct Hb as (H1 & H2 & H3). unfold Buffer_Read in E.
  destruct (Z.eqb_spec (Buffer_Len b) 0) as [E0|E0].
  { injection E as <- <-. split_and!; [done|done|]. rewrite E0. unfold len. cbn. lia. }
  assert (Hpos : 0 < Buffer_Len b) by (unfold Buffer_Len in *; lia).
  set (k := Z.min n (Buffer_Len b)) in *. assert (Hk : 0 <= k <= Buffer_Len b) by lia.
  assert (Hd : len (take (Z.to_nat k) (Bytes b)) = k) by (unfold len in *; rewrite length_take; lia).
  destruct (Z.eqb_spec k (Buffer_Len b)) as [Ek|Ek]; injection E as <- <-; split_and!; try done; unfold buffer_ok, Bytes; cbn.
  - unfold Size in *. lia.
  - rewrite range_empty, app_nil_r, take_ge; [done|]. unfold Bytes, len in *. lia.
  - unfold Buffer_Len in *. lia.
  - unfold Buffer_Len in *. rewrite range_take by lia. apply range_split; lia.
Qed.

Lemma Advance_ok b n : buffer_ok b → 0 <= n <= Buffer_Len b → buffer_ok (Advance b n) ∧ Bytes b = range (bf_v b) (bf_start b) (bf_start b + n) ++ Bytes (Advance b n).
Proof.
  intros (H1 & H2 & H3) Hn. unfold Buffer_Len in *. unfold Advance, Check_start. rewrite (proj2 (Z.ltb_ge n 0)) by lia. cbn.
  rewrite (proj2 (Z.ltb_ge (bf_start b + n) 0)), (proj2 (Z.ltb_ge (bf_end b) 0)), (proj2 (Z.ltb_ge (bf_end b) (bf_start b + n))) by lia.
  split; [unfold buffer_ok; cbn; lia|]. unfold Bytes. cbn. apply range_split; lia.
Qed.

(** ** Lists *)

Lemma content_app a b : content (a ++ b) = content a ++ content b.
Proof. unfold content. by rewrite map_app, concat_app. Qed.

Lemma content_one b : content [b] = Bytes b.
Proof. unfold content. cbn. apply app_nil_r. Qed.

(** The buffers of a list are proper and none is empty. *)
Definition filled (mb : MultiBuffer) : Prop := Forall (λ b, buffer_ok b ∧ Buffer_IsEmpty b = false) mb.

Lemma filled_ok mb : filled mb → Forall buffer_ok mb.
Proof. intros H. eapply Forall_impl; [done|]. by intros ? []. Qed.

Lemma Len_sum mb size :
  Forall buffer_ok mb → 0 <= size → size + len (content mb) < 2 ^ 31 →
  fold_left (λ size b, int32 (size + Buffer_Len b)) mb size = size + len (content mb).
Proof.
  revert size. induction mb as [|b mb IH]; intros size Hok Hs Hl; cbn [fold_left]; [unfold len; cbn; lia|].
  apply Forall_cons in Hok as [Hb Hok]. unfold content in *. cbn [map concat] in *. unfold len in Hl |- *. rewrite length_app in *.
  pose proof (len_Bytes b Hb) as Hlb. unfold len in Hlb. rewrite int32_small by lia. rewrite IH; [unfold len; lia|done|lia|unfold len; lia].
Qed.

Lemma Len_content mb : Forall buffer_ok mb → len (content mb) < 2 ^ 31 → Len mb = len (content mb).
Proof. intros. unfold Len. rewrite Len_sum; [lia|done|lia|lia]. Qed.

Lemma IsEmpty_content mb : Forall buffer_ok mb → IsEmpty mb = negb (has_items (content mb)).
Proof.
  induction 1 as [|b mb Hb _ IH]; [done|]. unfold IsEmpty, content in *. cbn [forallb map concat]. rewrite IH, IsEmpty_Bytes by done.
  rewrite has_items_app. by rewrite negb_orb.
Qed.

Section pool.
Variable array : nat → list byte.
Hypothesis Harray : ∀ n, len (array n) = Size.

Lemma merge_loop_ok fuel dest src :
  (length src < fuel)%nat → Forall buffer_ok dest →
  ∃ mb, merge_loop array fuel dest src = Ok mb ∧ Forall buffer_ok mb ∧ content mb = content dest ++ src ∧ (filled dest → filled mb).
Proof using Harray.
  revert dest src. induction fuel as [|fuel IH]; intros dest src Hf Hd; [lia|]. cbn [merge_loop].
  destruct (has_items src) eqn:Es; [|apply has_items_false in Es as ->; exists dest; by rewrite app_nil_r].
  destruct (Buffer_Write (New (array (length dest))) src) as [b n] eqn:Ew.
  destruct (Write_ok _ _ _ _ (New_ok _ (Harray _)) Ew) as (Hb & Hbytes & Hn). cbn in Hn. rewrite Harray in Hn.
  assert (Hpos : 0 < n <= len src) by (destruct src; [done|unfold Size, len in *; cbn [length] in *; lia]).
  unfold Bytes at 2 in Hbytes. cbn in Hbytes. rewrite range_empty in Hbytes. cbn [app] in Hbytes.
  destruct (IH (dest ++ [b]) (drop (Z.to_nat n) src)) as (mb & E & Hok & Hc & Hfill).
  { rewrite length_drop. unfold len in Hpos. lia. }
  { apply Forall_app. split; [done|]. by apply Forall_singleton. }
  exists mb. split_and!; [done|done| |].
  - rewrite Hc, content_app, content_one, Hbytes, <- app_assoc. by rewrite take_drop.
  - intros Hd'. apply Hfill. apply Forall_app. split; [done|]. apply Forall_singleton. split; [done|].
    rewrite IsEmpty_Bytes, Hbytes by done. destruct src; [done|]. by destruct (Z.to_nat n) eqn:En; [lia|].
Qed.

(** [MergeBytes] appends the bytes, and makes no empty buffer. *)
Lemma MergeBytes_ok dest src :
  Forall buffer_ok dest →
  ∃ mb, MergeBytes array dest src = Ok mb ∧ Forall buffer_ok mb ∧ content mb = content dest ++ src ∧ (dest = [] → filled mb).
Proof using Harray.
  intros Hd. unfold MergeBytes. destruct (last dest) as [b|] eqn:El.
  2: { apply last_None in El as ->. destruct (merge_loop_ok (S (length src)) [] src) as (mb & E & Hok & Hc & Hf); [lia|done|].
       exists mb. split_and!; try done. intros _. apply Hf. constructor. }
  apply last_Some in El as [d ->]. apply Forall_app in Hd as [Hd Hb]. apply Forall_cons in Hb as [Hb _].
  assert (Hone : ∀ x, buffer_ok x → Forall buffer_ok (d ++ [x])) by (intros x Hx; apply Forall_app; split; [done|by apply Forall_cons]).
  destruct (IsFull b).
  - destruct (merge_loop_ok (S (length src)) (d ++ [b]) src) as (mb & E & Hok & Hc & _);
      [lia|by apply Hone|]. exists mb. split_and!; try done. by destruct d.
  - destruct (Buffer_Write b src) as [b' n] eqn:Ew. destruct (Write_ok _ _ _ _ Hb Ew) as (Hb' & Hbytes & Hn).
    rewrite length_app. cbn [length]. rewrite Nat.add_sub, take_app_length.
    destruct (merge_loop_ok (S (length (drop (Z.to_nat n) src))) (d ++ [b']) (drop (Z.to_nat n) src)) as (mb & E & Hok & Hc & _);
      [lia|by apply Hone|].
    exists mb. split_and!; try done; [|by destruct d]. rewrite Hc, !content_app, !content_one, Hbytes, <- !app_assoc. by rewrite take_drop.
Qed.

(** [Copy] and [SplitBytes] give the first bytes. *)
Lemma Copy_content mb n : Forall buffer_ok mb → 0 <= n → Copy mb n = take (Z.to_nat n) (content mb).
Proof.
  intros Hok. revert n. induction Hok as [|b mb Hb _ IH]; intros n Hn; [unfold content; cbn; by rewrite take_nil|]. cbn [Copy]. unfold content. cbn [map concat].
  pose proof (len_Bytes b Hb) as Hl. unfold len in Hl. destruct (Z.ltb_spec (Z.min n (Buffer_Len b)) (Buffer_Len b)) as [Hlt|Hge].
  - rewrite app_nil_r, Z.min_l, take_app_le by lia. done.
  - assert (Hn2 : Buffer_Len b <= n) by lia. rewrite IH by lia. rewrite Z.min_r by lia. rewrite take_app_ge by lia. rewrite take_ge by lia. f_equal. f_equal. lia.
Qed.

Lemma SplitBytes_ok mb n rest data :
  Forall buffer_ok mb → 0 <= n → SplitBytes mb n = (rest, data) →
  content mb = data ++ content rest ∧ len data = Z.min n (len (content mb)) ∧ Forall buffer_ok rest.
Proof.
  intros Hok. revert n rest data. induction Hok as [|b mb Hb Hok IH]; intros n rest data Hn E; cbn [SplitBytes] in E.
  { injection E as <- <-. split_and!; [done|unfold len; cbn; lia|done]. }
  destruct (Buffer_Read b n) as [b' d] eqn:Er. destruct (Read_ok _ _ _ _ Hb Hn Er) as (Hb' & Hbytes & Hd).
  pose proof (len_Bytes b Hb) as Hl. unfold content in *. cbn [map concat]. destruct (Buffer_IsEmpty b') eqn:Ee; cbn [negb] in E.
  - rewrite IsEmpty_Bytes in Ee by done. apply negb_true_iff, has_items_false in Ee. rewrite Ee, app_nil_r in Hbytes.
    destruct (SplitBytes mb (n - len d)) as [rest' d'] eqn:Es. injection E as <- <-.
    assert (Hle : len d <= n) by lia. destruct (IH (n - len d) rest' d' ltac:(lia) Es) as (Hc & Hd' & Hr).
    split_and!; [by rewrite Hbytes, Hc, app_assoc| |done]. rewrite Hbytes. unfold len in *. rewrite !length_app. lia.
  - injection E as <- <-. cbn [map concat]. split_and!; [by rewrite Hbytes, app_assoc| |by apply Forall_cons].
    rewrite IsEmpty_Bytes in Ee by done. apply negb_false_iff in Ee. destruct (Bytes b') as [|x l] eqn:Eb; [done|].
    rewrite Hbytes. rewrite Hbytes in Hl. unfold len in *. rewrite !length_app in *. cbn [length] in *. lia.
Qed.

(** [SplitSize] takes the first bytes, at most [size] of them and at least one. *)
Lemma split_loop_ok mb size total rest r :
  filled mb → 0 <= total → total + len (content mb) < 2 ^ 31 → 0 <= size < 2 ^ 31 → split_loop mb size total = (rest, r) →
  mb = r ++ rest ∧ (total <= size → total + len (content r) <= size) ∧ (r = [] → ∀ b rest', mb = b :: rest' → size < total + Buffer_Len b).
Proof.
  intros Hf. revert total rest r. induction Hf as [|b mb [Hb He] _ IH]; intros total rest r Ht Hl Hs E; cbn [split_loop] in E.
  { injection E as <- <-. split_and!; [done|unfold len; cbn; lia|done]. }
  pose proof (len_Bytes b Hb) as Hlb. unfold content in Hl. cbn [map concat] in Hl. fold (content mb) in Hl. unfold len in Hl, Hlb. rewrite length_app in Hl.
  rewrite int32_small in E by lia. destruct (Z.ltb_spec size (total + Buffer_Len b)) as [Hlt|Hge].
  - injection E as <- <-. split_and!; [done|unfold len; cbn; lia|]. intros _ b0 rest' [= <- <-]. lia.
  - destruct (split_loop mb size (total + Buffer_Len b)) as [rest' r'] eqn:Es. injection E as <- <-.
    destruct (IH (total + Buffer_Len b) rest' r' ltac:(lia) ltac:(unfold len; lia) Hs Es) as (-> & Hr & _). split_and!; [done| |done].
    intros _. specialize (Hr ltac:(lia)). unfold content in *. cbn [map concat]. unfold len in *. rewrite length_app. lia.
Qed.

Lemma SplitSize_ok mb size :
  filled mb → len (content mb) < 2 ^ 31 → 0 < size < 2 ^ 31 →
  ∃ rest r, SplitSize array mb size = Ok (rest, r) ∧ content mb = content r ++ content rest ∧ filled rest ∧ filled r ∧
    len (content r) <= size ∧ (mb ≠ [] → content r ≠ []).
Proof using Harray.
  intros Hf Hl Hs. destruct mb as [|b mb]; cbn [SplitSize].
  { exists [], []. split_and!; try done; try constructor. unfold len; cbn; lia. }
  pose proof Hf as Hf'. apply Forall_cons in Hf' as [[Hb He] Hmb]. pose proof (len_Bytes b Hb) as Hlb.
  destruct (Z.ltb_spec size (Buffer_Len b)) as [Hlt|Hge].
  - destruct (Advance_ok b size Hb ltac:(lia)) as [Ha Hbytes]. pose proof Hb as (H1 & H2 & H3). unfold Buffer_Len in Hlt.
    unfold BytesTo. rewrite (proj2 (Z.ltb_ge size 0)) by lia. cbv zeta. rewrite (proj2 (Z.ltb_ge size 0)) by lia.
    rewrite slice_ok by lia. cbn [mbind result_bind]. set (data := take _ _).
    assert (Hdata : data = range (bf_v b) (bf_start b) (bf_start b + size)) by done.
    assert (Hld : len data = size) by (rewrite Hdata, length_range; lia).
    unfold extend_copy. cbn [bf_end bf_start bf_v New]. rewrite Harray, Z.add_0_l, (proj2 (Z.ltb_ge Size size)), (proj2 (Z.ltb_ge size 0)) by lia.
    cbn [mbind result_bind]. rewrite (take_ge data) by (unfold len in Hld; lia). set (v := copy_at (array 0) 0 _).
    assert (Hv : len v = Size). { unfold v. rewrite len_copy_at; [apply Harray|lia|]. rewrite Harray. unfold len. rewrite repeat_length. lia. }
    set (chunk := MkBuffer _ _ _).
    assert (Hchunk : Bytes chunk = data).
    { pose proof (range_copy_at v 0 0 data ltac:(lia) ltac:(lia)) as Hr. rewrite range_empty, Hld, Z.add_0_l in Hr. exact Hr. }
    assert (Hok : buffer_ok chunk). { unfold chunk, buffer_ok. cbn. rewrite len_copy_at by lia. lia. }
    exists (Advance b size :: mb), [chunk]. split_and!; try done.
    + rewrite content_one, Hchunk. unfold content. cbn [map concat]. by rewrite Hbytes, <- Hdata, app_assoc.
    + apply Forall_cons. split; [|done]. split; [done|]. rewrite IsEmpty_Bytes by done. apply negb_false_iff.
      destruct (Bytes (Advance b size)) eqn:Eb; [|done]. rewrite Hbytes, <- Hdata, app_nil_r in Hlb. unfold Buffer_Len in Hlb. lia.
    + apply Forall_singleton. split; [done|]. rewrite IsEmpty_Bytes, Hchunk by done. destruct data; [unfold len in Hld; cbn in Hld; lia|done].
    + rewrite content_one, Hchunk. lia.
    + intros _. rewrite content_one, Hchunk. intros E. rewrite E in Hld. unfold len in Hld. cbn in Hld. lia.
  - destruct (split_loop (b :: mb) size 0) as [rest r] eqn:Es.
    destruct (split_loop_ok (b :: mb) size 0 rest r Hf ltac:(lia) ltac:(lia) ltac:(lia) Es) as (E & Hr & Hne).
    exists rest, r. rewrite E in Hf. apply Forall_app in Hf as [Hfr Hfl]. split_and!; try done; [by rewrite E, content_app|lia|].
    intros _. destruct r as [|x r]; [specialize (Hne eq_refl b mb eq_refl); lia|]. apply Forall_cons in Hfr as [[Hx Hxe] _].
    rewrite IsEmpty_Bytes in Hxe by done. unfold content. cbn [map concat]. by destruct (Bytes x).
Qed.

(** [ReadAllToBytes] gives all bytes of a reader that ends, and the error of one that fails. *)
Lemma ReadFrom_ok fuel (mb : MultiBuffer) (r : list byte * error) :
  (length r.1 < fuel)%nat → Forall buffer_ok mb →
  ∃ mb' err, ReadFrom array fuel mb r = (mb', err) ∧ Forall buffer_ok mb' ∧ content mb' = content mb ++ r.1 ∧
    err = if ends_input r.2 then None else Some r.2.
Proof using Harray.
  revert mb r. induction fuel as [|fuel IH]; intros mb [l e] Hf Hok; cbn [fst snd] in *; [lia|]. cbn [ReadFrom]. unfold read_full. cbn [fst snd].
  assert (Hstep : ∀ data, len data <= Size → ∃ b, (Buffer_Write (New (array (length mb))) data).1 = b ∧ buffer_ok b ∧
    Forall buffer_ok (if Buffer_IsEmpty b then mb else mb ++ [b]) ∧ content (if Buffer_IsEmpty b then mb else mb ++ [b]) = content mb ++ data).
  { intros data Hd. destruct (Buffer_Write (New (array (length mb))) data) as [b n] eqn:Ew. exists b. split; [done|].
    destruct (Write_ok _ _ _ _ (New_ok _ (Harray _)) Ew) as (Hb & Hbytes & Hn). cbn in Hn. rewrite Harray in Hn.
    unfold Bytes at 2 in Hbytes. cbn in Hbytes. assert (Hall : (length data <= Z.to_nat n)%nat) by (clear -Hn Hd; unfold len in *; lia).
    rewrite range_empty, (take_ge data _ Hall) in Hbytes. cbn [app] in Hbytes.
    split; [done|]. rewrite IsEmpty_Bytes, Hbytes by done. destruct (has_items data) eqn:Ed; cbn [negb].
    - split; [apply Forall_app; split; [done|by apply Forall_cons]|]. by rewrite content_app, content_one, Hbytes.
    - apply has_items_false in Ed as ->. by rewrite app_nil_r. }
  destruct (Z.leb_spec Size (len l)) as [Hge|Hlt].
  - destruct (Hstep (take (Z.to_nat Size) l)) as (b & -> & _ & Hmb & Hc); [unfold len, Size in *; rewrite length_take; lia|].
    destruct (IH (if Buffer_IsEmpty b then mb else mb ++ [b]) (drop (Z.to_nat Size) l, e)) as (mb' & err & E & Hok' & Hc' & He); [cbn [fst]; rewrite length_drop; unfold Size, len in *; lia|done|].
    exists mb', err. split_and!; [done|done| |done]. rewrite Hc'. cbn [fst]. etrans; [apply (f_equal (λ x, x ++ _)), Hc|]. by rewrite <- app_assoc, take_drop.
  - destruct (Hstep l) as (b & -> & _ & Hmb & Hc); [lia|]. unfold ends_input.
    set (mb1 := if Buffer_IsEmpty b then mb else mb ++ [b]) in *. exists mb1.
    destruct (errors_Is e "io.EOF") eqn:Ee; [destruct (has_items l); cbn|cbn; rewrite Ee; destruct (errors_Is e "io.ErrUnexpectedEOF")];
      rewrite ?Ee; by eexists.
Qed.

Lemma ReadAllToBytes_ok r :
  len r.1 < 2 ^ 31 → ReadAllToBytes array r = if ends_input r.2 then (r.1, None) else ([], Some r.2).
Proof using Harray.
  intros Hl. unfold ReadAllToBytes. destruct (ReadFrom_ok (S (length r.1)) [] r) as (mb & err & -> & Hok & Hc & ->); [lia|constructor|].
  destruct (ends_input r.2); [|done]. cbn [content map concat app] in Hc. rewrite Len_content by (done || by rewrite Hc). rewrite Hc.
  destruct (Z.eqb_spec (len r.1) 0) as [E|E]; [destruct r as [[|] ?]; done|].
  destruct (SplitBytes mb (len r.1)) as [rest data] eqn:Es. destruct (SplitBytes_ok mb (len r.1) rest data Hok ltac:(unfold len; lia) Es) as (Hd & Hn & _).
  rewrite Hc in Hd, Hn. cbn [snd]. f_equal. assert (rest_nil : content rest = []).
  { apply nil_length_inv. apply (f_equal length) in Hd. rewrite length_app in Hd. unfold len in Hn. lia. }
  by rewrite Hd, rest_nil, app_nil_r.
Qed.
End pool.

(** * Pipes: common/xray/pipe and common/xray/signal

    A pipe between writers and one reader, with the moments at which they come in between each
    other. A notifier is a flag, a channel of capacity one; a pipe that is done has its channel
    closed. Nothing is ever sent to [errChan], which is left out. *)

(** ** The pipe: impl.go *)

Inductive pipe_state : Type := pipe_open | pipe_closed | pipe_errord.
#[export] Instance pipe_state_eq_dec : EqDecision pipe_state.
Proof. solve_decision. Defined.

Record pipeOption : Type := MkPipeOption {
  po_limit : Z;
  po_discardOverflow : bool;
}.
Definition isFull (o : pipeOption) (curSize : Z) : bool := (0 <=? po_limit o) && (po_limit o <? curSize).

Record pipe : Type := MkPipe {
  pp_data : MultiBuffer;
  pp_readSignal : bool;
  pp_writeSignal : bool;
  pp_done : bool;
  pp_option : pipeOption;
  pp_state : pipe_state;
}.

(** [New] with [WithSizeLimit]; without it the limit is -1. *)
Definition pipe_New (limit : Z) : pipe := MkPipe [] false false false (MkPipeOption limit false) pipe_open.

Definition with_data (mb : MultiBuffer) (p : pipe) : pipe :=
  MkPipe mb (pp_readSignal p) (pp_writeSignal p) (pp_done p) (pp_option p) (pp_state p).
Definition with_readSignal (b : bool) (p : pipe) : pipe :=
  MkPipe (pp_data p) b (pp_writeSignal p) (pp_done p) (pp_option p) (pp_state p).
Definition with_writeSignal (b : bool) (p : pipe) : pipe :=
  MkPipe (pp_data p) (pp_readSignal p) b (pp_done p) (pp_option p) (pp_state p).
Definition with_state (s : pipe_state) (p : pipe) : pipe :=
  MkPipe (pp_data p) (pp_readSignal p) (pp_writeSignal p) (pp_done p) (pp_option p) s.
Definition with_done (p : pipe) : pipe :=
  MkPipe (pp_data p) (pp_readSignal p) (pp_writeSignal p) true (pp_option p) (pp_state p).

Definition errBufferFull : error := ENamed "pipe.errBufferFull".
Definition ErrClosedPipe : error := ENamed "io.ErrClosedPipe".
Definition pipe_EOF : error := ENamed "io.EOF".
Definition ErrReadTimeout : error := ENew "IO timeout".

Definition getState (p : pipe) (forRead : bool) : option error :=
  match pp_state p with
  | pipe_open => if negb forRead && isFull (pp_option p) (Len (pp_data p)) then Some errBufferFull else None
  | pipe_closed =>
      if negb forRead then Some ErrClosedPipe
      else if negb (IsEmpty (pp_data p)) then None else Some pipe_EOF
  | pipe_errord => Some ErrClosedPipe
  end.

Definition readMultiBufferInternal (p : pipe) : pipe * (MultiBuffer * option error) :=
  match getState p true with
  | Some err => (p, ([], Some err))
  | None => (with_data [] p, (pp_data p, None))
  end.
Definition writeMultiBufferInternal (p : pipe) (mb : MultiBuffer) : pipe * option error :=
  match getState p false with
  | Some err => (p, Some err)
  | None => (with_data (MergeMulti (pp_data p) mb) p, None)
  end.

Definition pipe_Close (p : pipe) : pipe :=
  match pp_state p with
  | pipe_closed | pipe_errord => p
  | pipe_open => with_done (with_state pipe_closed p)
  end.
Definition Interrupt (p : pipe) : pipe :=
  let p := if negb (IsEmpty (pp_data p))
           then let p := with_data [] p in if bool_decide (pp_state p = pipe_closed) then with_state pipe_errord p else p
           else p in
  match pp_state p with
  | pipe_closed | pipe_errord => p
  | pipe_open => with_done (with_state pipe_errord p)
  end.

(** ** Interleavings *)

(** A writer: outside of [WriteMultiBuffer], before the lock, before the signal after a write or
    an error, or at the [select]. *)
Inductive write_phase : Type :=
| WIdle
| WTry (mb : MultiBuffer)
| WSignal (err : option error)
| WWait (mb : MultiBuffer).

(** The reader: outside of [ReadMultiBuffer], before the lock, before the signal, or at the
    [select]; [timed] in [ReadMultiBufferTimeout]. *)
Inductive pipe_phase : Type :=
| PIdle
| PTry (timed : bool)
| PSignal (data : MultiBuffer) (err : option error)
| PWait (timed : bool).

Record pipeWorld : Type := MkPipeWorld {
  pw_pipe : pipe;
  pw_writers : list write_phase;
  pw_reader : pipe_phase;
}.

Inductive pipe_action : Type :=
| WriteBegin (i : nat) (mb : MultiBuffer)
| WriteTry (i : nat)
| WriteSignal (i : nat)
| WriteWake (i : nat)
| WriteDone (i : nat)
| PReadBegin (timed : bool)
| PReadTry
| PReadSignal
| PReadWake
| PReadDone
| PReadTimeout
| PClose
| PInterrupt.

(** What is to be seen from outside: buffers that the pipe took, what a write and what a read
    returned. *)
Inductive pipe_event : Type :=
| Accepted (mb : MultiBuffer)
| WriteReturned (i : nat) (err : option error)
| ReadReturned (mb : MultiBuffer) (err : option error).

Definition try_write (p : pipe) (i : nat) (mb : MultiBuffer) : pipe * write_phase * list pipe_event :=
  let '(p, err) := writeMultiBufferInternal p mb in
  match err with
  | None => (p, WSignal None, [Accepted mb])
  | Some err =>
      if bool_decide (err = errBufferFull) then
        if po_discardOverflow (pp_option p) then (p, WIdle, [WriteReturned i None]) else (p, WWait mb, [])
      else (p, WSignal (Some err), [])
  end.
Definition try_read (p : pipe) (timed : bool) : pipe * pipe_phase :=
  let '(p, (data, err)) := readMultiBufferInternal p in
  if has_items data || is_set err then (p, PSignal data err) else (p, PWait timed).

Definition pipe_step (a : pipe_action) (w : pipeWorld) : option (pipeWorld * list pipe_event) :=
  let '(MkPipeWorld p ws r) := w in
  match a with
  | WriteBegin i mb =>
      match ws !! i with
      | Some WIdle => if IsEmpty mb then Some (w, [WriteReturned i None]) else Some (MkPipeWorld p (<[i := WTry mb]> ws) r, [])
      | _ => None
      end
  | WriteTry i =>
      match ws !! i with
      | Some (WTry mb) => let '(p, phase, evs) := try_write p i mb in Some (MkPipeWorld p (<[i := phase]> ws) r, evs)
      | _ => None
      end
  | WriteSignal i =>
      match ws !! i with
      | Some (WSignal err) => Some (MkPipeWorld (with_readSignal true p) (<[i := WIdle]> ws) r, [WriteReturned i err])
      | _ => None
      end
  | WriteWake i =>
      match ws !! i with
      | Some (WWait mb) => if pp_writeSignal p then Some (MkPipeWorld (with_writeSignal false p) (<[i := WTry mb]> ws) r, []) else None
      | _ => None
      end
  | WriteDone i =>
      match ws !! i with
      | Some (WWait mb) => if pp_done p then Some (MkPipeWorld p (<[i := WIdle]> ws) r, [WriteReturned i (Some ErrClosedPipe)]) else None
      | _ => None
      end
  | PReadBegin timed => match r with PIdle => Some (MkPipeWorld p ws (PTry timed), []) | _ => None end
  | PReadTry => match r with PTry timed => let '(p, r) := try_read p timed in Some (MkPipeWorld p ws r, []) | _ => None end
  | PReadSignal =>
      match r with
      | PSignal data err => Some (MkPipeWorld (with_writeSignal true p) ws PIdle, [ReadReturned data err])
      | _ => None
      end
  | PReadWake =>
      match r with
      | PWait timed => if pp_readSignal p then Some (MkPipeWorld (with_readSignal false p) ws (PTry timed), []) else None
      | _ => None
      end
  | PReadDone => match r with PWait timed => if pp_done p then Some (MkPipeWorld p ws (PTry timed), []) else None | _ => None end
  | PReadTimeout => match r with PWait true => Some (MkPipeWorld p ws PIdle, [ReadReturned [] (Some ErrReadTimeout)]) | _ => None end
  | PClose => Some (MkPipeWorld (pipe_Close p) ws r, [])
  | PInterrupt => Some (MkPipeWorld (Interrupt p) ws r, [])
  end.

Fixpoint pipe_run (actions : list pipe_action) (w : pipeWorld) : option (pipeWorld * list pipe_event) :=
  match actions with
  | [] => Some (w, [])
  | a :: actions =>
      match pipe_step a w with
      | None => None
      | Some (w, evs) => match pipe_run actions w with Some (w, evs') => Some (w, evs ++ evs') | None => None end
      end
  end.

Definition new_pipe (limit : Z) (writers : nat) : pipeWorld := MkPipeWorld (pipe_New limit) (replicate writers WIdle) PIdle.

(** * Pipes keep the order and lose no wake-up

    What a reader gets is what the pipe took, in order; and whenever a reader or a writer waits
    although it could go on, a signal for it is there or on its way. *)

(** The bytes that a pipe took and that were read. *)
Definition accepted_of (e : pipe_event) : list byte := match e with Accepted mb => content mb | _ => [] end.
Definition returned_of (e : pipe_event) : list byte := match e with ReadReturned mb _ => content mb | _ => [] end.
Definition accepted (evs : list pipe_event) : list byte := concat (map accepted_of evs).
Definition returned (evs : list pipe_event) : list byte := concat (map returned_of evs).
(** The bytes that a reader holds which has not returned yet. *)
Definition held (r : pipe_phase) : list byte := match r with PSignal data _ => content data | _ => [] end.

Lemma accepted_app a b : accepted (a ++ b) = accepted a ++ accepted b.
Proof. unfold accepted. by rewrite map_app, concat_app. Qed.
Lemma returned_app a b : returned (a ++ b) = returned a ++ returned b.
Proof. unfold returned. by rewrite map_app, concat_app. Qed.

(** Phases of some writer. *)
Definition some_writer (P : write_phase → Prop) (ws : list write_phase) : Prop := ∃ i x, ws !! i = Some x ∧ P x.
Definition signalling (x : write_phase) : Prop := match x with WSignal _ => True | _ => False end.
Definition trying (x : write_phase) : Prop := match x with WTry _ => True | _ => False end.
Definition waits (x : write_phase) : Prop := match x with WWait _ => True | _ => False end.
Definition reader_waits (r : pipe_phase) : Prop := match r with PWait _ => True | _ => False end.
Definition reader_signals (r : pipe_phase) : Prop := match r with PSignal _ _ => True | _ => False end.
Definition writing (x : write_phase) : Prop := match x with WTry mb | WWait mb => IsEmpty mb = false | _ => True end.

Lemma some_writer_set P ws i x : (i < length ws)%nat → P x → some_writer P (<[i := x]> ws).
Proof. intros Hi Hx. exists i, x. split; [by apply list_lookup_insert_eq|done]. Qed.

Lemma some_writer_keep P ws i x y : ws !! i = Some x → ¬ P x → some_writer P ws → some_writer P (<[i := y]> ws).
Proof.
  intros Hi Hx (j & z & Hj & Hz). exists j, z. split; [|done]. rewrite list_lookup_insert_ne; [done|]. intros ->. rewrite Hi in Hj. by injection Hj as ->.
Qed.

Lemma some_writer_old P ws i y : some_writer P (<[i := y]> ws) → ¬ P y → some_writer P ws.
Proof.
  intros (j & z & Hj & Hz) Hy. apply list_lookup_insert_Some in Hj as [(-> & -> & _)|[_ Hj]]; [done|]. by exists j, z.
Qed.

Record pipe_ok (evs : list pipe_event) (w : pipeWorld) : Prop := MkPipeOk {
  k_bytes : ∃ lost, accepted evs = returned evs ++ held (pw_reader w) ++ content (pp_data (pw_pipe w)) ++ lost ∧
    (pp_state (pw_pipe w) ≠ pipe_errord → lost = []) ∧ (pp_state (pw_pipe w) = pipe_errord → pp_data (pw_pipe w) = []);
  k_data : pp_data (pw_pipe w) = [] ∨ IsEmpty (pp_data (pw_pipe w)) = false;
  k_writing : ∀ i x, pw_writers w !! i = Some x → writing x;
  k_done : pp_state (pw_pipe w) ≠ pipe_open → pp_done (pw_pipe w) = true;
  k_read : reader_waits (pw_reader w) → pp_data (pw_pipe w) ≠ [] → pp_done (pw_pipe w) = false →
    pp_readSignal (pw_pipe w) = true ∨ some_writer signalling (pw_writers w);
  k_write : some_writer waits (pw_writers w) → pp_done (pw_pipe w) = false →
    pp_data (pw_pipe w) ≠ [] ∨ pp_writeSignal (pw_pipe w) = true ∨ reader_signals (pw_reader w) ∨ some_writer trying (pw_writers w);
}.

Lemma IsEmpty_app a b : IsEmpty (a ++ b) = IsEmpty a && IsEmpty b.
Proof. apply forallb_app. Qed.

Lemma writing_set (ws : list write_phase) i y : (∀ i x, ws !! i = Some x → writing x) → writing y → ∀ j x, <[i := y]> ws !! j = Some x → writing x.
Proof. intros Hws Hy j x Hj. apply list_lookup_insert_Some in Hj as [(_ & -> & _)|[_ Hj]]; [done|by eapply Hws]. Qed.

Lemma full_data p : isFull (pp_option p) (Len (pp_data p)) = true → pp_data p ≠ [].
Proof. unfold isFull. intros [H1 H2]%andb_true_iff E. rewrite E in H2. apply Z.leb_le in H1. apply Z.ltb_lt in H2. cbn in H2. lia. Qed.

(** ** Writers *)

Lemma ok_write_begin evs w i mb w' evs' :
  pipe_ok evs w → pipe_step (WriteBegin i mb) w = Some (w', evs') → pipe_ok (evs ++ evs') w'.
Proof.
  intros [] E. destruct w as [p ws r]. cbn in *. destruct (ws !! i) as [[]|] eqn:Ei; try done. destruct (IsEmpty mb) eqn:Em; injection E as <- <-.
  - split; cbn; try done. by rewrite accepted_app, returned_app, !app_nil_r.
  - rewrite app_nil_r. pose proof (lookup_lt_Some _ _ _ Ei) as Hi. split; cbn; try done.
    + by apply writing_set.
    + intros Hr Hd Hdone. destruct (k_read0 Hr Hd Hdone) as [|Hs]; [by left|right]. apply (some_writer_keep _ _ _ _ _ Ei); [by intros []|done].
    + intros Hw Hdone. do 3 right. by apply some_writer_set.
Qed.

Lemma ok_write_try evs w i w' evs' :
  pipe_ok evs w → pipe_step (WriteTry i) w = Some (w', evs') → pipe_ok (evs ++ evs') w'.
Proof.
  intros [] E. destruct w as [p ws r]. cbn in *. destruct (ws !! i) as [[|mb| |]|] eqn:Ei; try done. pose proof (lookup_lt_Some _ _ _ Ei) as Hi.
  pose proof (k_writing0 _ _ Ei) as Hmb. cbn in Hmb. unfold try_write, writeMultiBufferInternal in E.
  assert (Hread : ∀ y, reader_waits r → pp_data p ≠ [] → pp_done p = false → pp_readSignal p = true ∨ some_writer signalling (<[i := y]> ws)).
  { intros y Hr Hd Hdone. destruct (k_read0 Hr Hd Hdone) as [|Hs]; [by left|right]. apply (some_writer_keep _ _ _ _ _ Ei); [by intros []|done]. }
  destruct (getState p false) as [err|] eqn:Eg.
  - destruct (bool_decide (err = errBufferFull)) eqn:Ef.
    + assert (Hd : pp_data p ≠ []).
      { apply bool_decide_eq_true in Ef as ->. unfold getState in Eg. destruct (pp_state p); [|done|done]. cbn in Eg.
        destruct (isFull _ _) eqn:Efull; [by apply full_data|done]. }
      destruct (po_discardOverflow (pp_option p)); injection E as <- <-; rewrite ?app_nil_r; split; cbn; try done; try by apply writing_set.
      all: try (intros; by left). all: try by apply Hread. by rewrite accepted_app, returned_app, !app_nil_r.
    + injection E as <- <-. rewrite app_nil_r. assert (Hdone : pp_done p = true).
      { apply k_done0. unfold getState in Eg. destruct (pp_state p); [|done|done]. destruct (negb false && _); [|done]. injection Eg as <-. done. }
      split; cbn; rewrite ?Hdone; try done. by apply writing_set.
  - injection E as <- <-. assert (Hopen : pp_state p = pipe_open) by (unfold getState in Eg; by destruct (pp_state p)).
    assert (Hne : MergeMulti (pp_data p) mb ≠ []). { unfold MergeMulti. intros [_ ->]%app_eq_nil. done. }
    assert (Hbytes : accepted (evs ++ [Accepted mb]) = returned (evs ++ [Accepted mb]) ++ held r ++ content (pp_data p ++ mb) ++ []).
    { destruct k_bytes0 as (lost & Hb & Hl & _). rewrite Hl in Hb by (by rewrite Hopen). rewrite accepted_app, returned_app, content_app, Hb.
      unfold accepted, returned. cbn [map concat accepted_of returned_of]. by rewrite !app_nil_r, <- !app_assoc. }
    split; cbn; try done; try by apply writing_set.
    + exists []. by rewrite Hopen.
    + right. unfold MergeMulti. by rewrite IsEmpty_app, Hmb, andb_false_r.
    + intros _ _ _. right. by apply some_writer_set.
    + intros. by left.
Qed.

Lemma ok_write_signal evs w i w' evs' :
  pipe_ok evs w → pipe_step (WriteSignal i) w = Some (w', evs') → pipe_ok (evs ++ evs') w'.
Proof.
  intros [] E. destruct w as [p ws r]. cbn in *. destruct (ws !! i) as [[| |err|]|] eqn:Ei; try done. injection E as <- <-.
  split; cbn; try done; try by apply writing_set.
  - by rewrite accepted_app, returned_app, !app_nil_r.
  - intros. by left.
  - intros Hw Hdone. apply some_writer_old in Hw; [|by intros []]. destruct (k_write0 Hw Hdone) as [|[|[|Ht]]]; auto. do 3 right. apply (some_writer_keep _ _ _ _ _ Ei); [by intros []|done].
Qed.

Lemma ok_write_wake evs w i w' evs' :
  pipe_ok evs w → pipe_step (WriteWake i) w = Some (w', evs') → pipe_ok (evs ++ evs') w'.
Proof.
  intros [] E. destruct w as [p ws r]. cbn in *. destruct (ws !! i) as [[| | |mb]|] eqn:Ei; try done. destruct (pp_writeSignal p); [|done].
  injection E as <- <-. rewrite app_nil_r. pose proof (lookup_lt_Some _ _ _ Ei) as Hi. pose proof (k_writing0 _ _ Ei) as Hmb.
  split; cbn; try done; try by apply writing_set.
  - intros Hr Hd Hdone. destruct (k_read0 Hr Hd Hdone) as [|Hs]; [by left|right]. apply (some_writer_keep _ _ _ _ _ Ei); [by intros []|done].
  - intros _ _. do 3 right. by apply some_writer_set.
Qed.

Lemma ok_write_done evs w i w' evs' :
  pipe_ok evs w → pipe_step (WriteDone i) w = Some (w', evs') → pipe_ok (evs ++ evs') w'.
Proof.
  intros [] E. destruct w as [p ws r]. cbn in *. destruct (ws !! i) as [[| | |mb]|] eqn:Ei; try done. destruct (pp_done p) eqn:Ed; [|done].
  injection E as <- <-. split; cbn; rewrite ?Ed; try done; try by apply writing_set. by rewrite accepted_app, returned_app, !app_nil_r.
Qed.

(** ** The reader, closing and interrupting *)

Lemma ok_read evs w a w' evs' :
  pipe_ok evs w → pipe_step a w = Some (w', evs') →
  match a with PReadBegin _ | PReadTry | PReadSignal | PReadWake | PReadDone | PReadTimeout => True | _ => False end →
  pipe_ok (evs ++ evs') w'.
Proof.
  intros [] E Ha. destruct w as [p ws r]. destruct a; try done; cbn in *; clear Ha; destruct r as [|timed'|data err|timed']; try done.
  - injection E as <- <-. rewrite app_nil_r. by split.
  - unfold try_read, readMultiBufferInternal in E. destruct (getState p true) as [err|] eqn:Eg.
    + cbn in E. injection E as <- <-. rewrite app_nil_r. split; cbn; try done. intros; auto.
    + destruct (pp_data p) as [|b l] eqn:Ed; cbn in E; injection E as <- <-; rewrite app_nil_r; split; cbn; try done; try by left.
      * destruct k_bytes0 as (lost & Hb & Hl & _). by exists lost.
      * intros; auto.
  - injection E as <- <-. split; cbn; try done; [|by auto]. destruct k_bytes0 as (lost & Hb & Hl). exists lost. split; [|done].
    rewrite accepted_app, returned_app. cbn. rewrite !app_nil_r, Hb, <- !app_assoc. done.
  - destruct (pp_readSignal p); [|done]. injection E as <- <-. rewrite app_nil_r. by split.
  - destruct (pp_done p) eqn:Ed; [|done]. injection E as <- <-. rewrite app_nil_r. split; cbn; rewrite ?Ed; done.
  - destruct timed'; [|done]. injection E as <- <-. split; cbn; try done. rewrite accepted_app, returned_app. cbn. by rewrite !app_nil_r.
Qed.

Lemma ok_close evs w w' evs' : pipe_ok evs w → pipe_step PClose w = Some (w', evs') → pipe_ok (evs ++ evs') w'.
Proof.
  intros [] E. destruct w as [p ws r]. cbn in *. injection E as <- <-. rewrite app_nil_r. unfold pipe_Close.
  destruct (pp_state p) eqn:Es; split; cbn; rewrite ?Es; try done. destruct k_bytes0 as (lost & Hb & Hl & _). exists lost. by split_and!; [|intros _; apply Hl|].
Qed.

Lemma ok_interrupt evs w w' evs' : pipe_ok evs w → pipe_step PInterrupt w = Some (w', evs') → pipe_ok (evs ++ evs') w'.
Proof.
  intros [] E. destruct w as [p ws r]. cbn in *. injection E as <- <-. rewrite app_nil_r. unfold Interrupt.
  destruct k_bytes0 as (lost & Hb & Hl & Hd). destruct (IsEmpty (pp_data p)) eqn:Ee; cbn [negb].
  - assert (Hnil : pp_data p = []) by (by destruct k_data0). destruct (pp_state p) eqn:Es; split; cbn; rewrite ?Es, ?Hnil in *; try done; try by left.
    all: exists lost; by split_and!.
  - destruct (pp_state p) eqn:Es; cbn; rewrite ?Es; [rewrite bool_decide_eq_false_2 by done|rewrite bool_decide_eq_true_2 by done|rewrite bool_decide_eq_false_2 by done];
      cbn; rewrite ?Es; split; cbn; rewrite ?Es; try done; try by left.
    1,2: exists (content (pp_data p) ++ lost); split_and!; [by rewrite Hb|done|done].
    + intros _. by apply k_done0.
    + intros _ Hf. by rewrite k_done0 in Hf.
    + exists lost. by rewrite (Hd eq_refl) in *.
    + intros _ Hf. by rewrite k_done0 in Hf.
Qed.

Lemma pipe_step_ok evs a w w' evs' : pipe_ok evs w → pipe_step a w = Some (w', evs') → pipe_ok (evs ++ evs') w'.
Proof.
  intros Hw E. destruct a; [by eapply ok_write_begin|by eapply ok_write_try|by eapply ok_write_signal|by eapply ok_write_wake|by eapply ok_write_done|..];
    first [by eapply ok_read|by eapply ok_close|by eapply ok_interrupt].
Qed.

Lemma pipe_run_ok actions evs w w' evs' : pipe_ok evs w → pipe_run actions w = Some (w', evs') → pipe_ok (evs ++ evs') w'.
Proof.
  revert evs w evs'. induction actions as [|a actions IH]; intros evs w evs' Hw E; cbn [pipe_run] in E.
  { injection E as <- <-. by rewrite app_nil_r. }
  destruct (pipe_step a w) as [[w1 e1]|] eqn:Ea; [|done]. destruct (pipe_run actions w1) as [[w2 e2]|] eqn:Er; [|done]. injection E as <- <-.
  rewrite app_assoc. eapply IH; [|done]. by eapply pipe_step_ok.
Qed.

Lemma new_pipe_ok limit writers : pipe_ok [] (new_pipe limit writers).
Proof.
  split; cbn; try done; [by exists []|by left|intros i x Hx; apply lookup_replicate in Hx as [-> _]; done|].
  intros (i & x & Hx & Hw). apply lookup_replicate in Hx as [-> _]. done.
Qed.

(** C21 A pipe keeps the order and loses no wake-up: over every interleaving of writers, the reader,
    closing and interrupting, what the reads return is a prefix of what the writes put in, and
    everything else is still in the pipe unless it was interrupted; a reader that waits
    although there is data or the pipe was closed has a signal, or a writer is about to send
    it one; and a writer waits only while there is data to be read, or has a signal, or the
    reader or another writer is on its way. *)
Theorem pipe_wakes limit writers actions w evs :
  pipe_run actions (new_pipe limit writers) = Some (w, evs) →
  let p := pw_pipe w in
  returned evs ++ held (pw_reader w) `prefix_of` accepted evs ∧
  (pp_state p ≠ pipe_errord → accepted evs = returned evs ++ held (pw_reader w) ++ content (pp_data p)) ∧
  (reader_waits (pw_reader w) → pp_data p ≠ [] ∨ pp_state p ≠ pipe_open →
   pp_readSignal p = true ∨ pp_done p = true ∨ some_writer signalling (pw_writers w)) ∧
  (some_writer waits (pw_writers w) →
   pp_done p = true ∨ pp_data p ≠ [] ∨ pp_writeSignal p = true ∨ reader_signals (pw_reader w) ∨ some_writer trying (pw_writers w)).
Proof.
  intros E p. destruct (pipe_run_ok actions [] _ _ _ (new_pipe_ok limit writers) E) as [(lost & Hb & Hl & _) _ _ Hdone Hr Hw]. fold p in Hb, Hl, Hdone, Hr, Hw.
  cbn [app] in *. split_and!.
  - rewrite Hb, app_assoc. by eexists.
  - intros Hs. by rewrite Hb, (Hl Hs), app_nil_r.
  - intros Hwait H. destruct (pp_done p) eqn:Ed; [by auto|]. destruct H as [H|H]; [|specialize (Hdone H); done]. destruct (Hr Hwait H eq_refl); auto.
  - intros Hwait. destruct (pp_done p) eqn:Ed; [by left|right]. by apply Hw.
Qed.

(** ** How much a pipe holds *)

(** Every write is of one buffer, as the writer of uploads makes them. *)
Definition single (a : pipe_action) : Prop := match a with WriteBegin _ mb => ∃ b, mb = [b] ∧ filled [b] | _ => True end.
Definition single_phase (x : write_phase) : Prop := match x with WTry mb | WWait mb => ∃ b, mb = [b] ∧ filled [b] | _ => True end.

Record pipe_sized (limit : Z) (w : pipeWorld) : Prop := MkPipeSized {
  z_limit : po_limit (pp_option (pw_pipe w)) = limit;
  z_filled : filled (pp_data (pw_pipe w));
  z_size : len (content (pp_data (pw_pipe w))) <= limit + Size;
  z_writers : ∀ i x, pw_writers w !! i = Some x → single_phase x;
  z_held : match pw_reader w with PSignal data _ => filled data ∧ len (content data) <= limit + Size | _ => True end;
}.

Lemma single_set (ws : list write_phase) i y :
  (∀ i x, ws !! i = Some x → single_phase x) → single_phase y → ∀ j x, <[i := y]> ws !! j = Some x → single_phase x.
Proof. intros Hws Hy j x Hj. apply list_lookup_insert_Some in Hj as [(_ & -> & _)|[_ Hj]]; [done|by eapply Hws]. Qed.

Lemma sized_empty limit : 0 <= limit → len (content []) <= limit + Size.
Proof. intros. unfold len, Size. cbn. lia. Qed.

(** A write is taken only up to the limit. *)
Lemma sized_write limit p mb p' :
  0 <= limit < 2 ^ 31 - Size → po_limit (pp_option p) = limit → filled (pp_data p) → len (content (pp_data p)) <= limit + Size →
  (∃ b, mb = [b] ∧ filled [b]) → writeMultiBufferInternal p mb = (p', None) →
  po_limit (pp_option p') = limit ∧ filled (pp_data p') ∧ len (content (pp_data p')) <= limit + Size.
Proof.
  intros Hl Ho Hf Hs (b & -> & Hb) E. unfold writeMultiBufferInternal in E. destruct (getState p false) as [e|] eqn:Eg; [done|]. injection E as <-.
  cbn [pp_option pp_data with_data]. unfold MergeMulti. split_and!; [done|by apply Forall_app|]. rewrite content_app, content_one.
  pose proof Hb as Hb'. apply Forall_cons in Hb' as [[Hok _] _]. pose proof (len_Bytes b Hok) as Hlb. destruct Hok as (H1 & H2 & H3). unfold Buffer_Len in Hlb.
  unfold getState in Eg. destruct (pp_state p); [|done|done]. cbn [negb andb] in Eg. destruct (isFull _ _) eqn:Efull; [done|].
  unfold isFull in Efull. rewrite Ho, Len_content in Efull by (try apply filled_ok; done || lia). rewrite (proj2 (Z.leb_le 0 limit)) in Efull by lia.
  cbn [andb] in Efull. apply Z.ltb_ge in Efull. unfold len in *. rewrite length_app. lia.
Qed.

Lemma pipe_step_sized limit a w w' evs :
  0 <= limit < 2 ^ 31 - Size → pipe_sized limit w → single a → pipe_step a w = Some (w', evs) →
  pipe_sized limit w' ∧ Forall (λ e, match e with ReadReturned mb _ => filled mb ∧ len (content mb) <= limit + Size | _ => True end) evs.
Proof.
  intros Hl [] Ha E. destruct w as [p ws r]. pose proof (sized_empty limit ltac:(lia)) as He. destruct a; cbn in *.
  - destruct (ws !! i) as [[]|]; try done. destruct (IsEmpty mb); injection E as <- <-; (split; [split; try done; try (by apply single_set)|by repeat constructor]).
  - destruct (ws !! i) as [[|mb| |]|] eqn:Ei; try done. pose proof (z_writers0 _ _ Ei) as Hmb. cbn in Hmb. unfold try_write in E.
    destruct (writeMultiBufferInternal p mb) as [p' [err|]] eqn:Ew.
    + assert (p' = p) as -> by (unfold writeMultiBufferInternal in Ew; destruct (getState p false); by injection Ew).
      destruct (bool_decide (err = errBufferFull)); [destruct (po_discardOverflow (pp_option p))|]; injection E as <- <-; (split; [split; try done; try (by apply single_set)|by repeat constructor]).
    + injection E as <- <-. destruct (sized_write _ _ _ _ Hl z_limit0 z_filled0 z_size0 Hmb Ew) as (? & ? & ?). split; [|by repeat constructor].
      split; try done. by apply single_set.
  - destruct (ws !! i) as [[]|]; try done. injection E as <- <-. split; [|by repeat constructor]. split; try done. by apply single_set.
  - destruct (ws !! i) as [[]|] eqn:Ei; try done. destruct (pp_writeSignal p); [|done]. injection E as <- <-. split; [|constructor].
    pose proof (z_writers0 _ _ Ei). split; try done. by apply single_set.
  - destruct (ws !! i) as [[]|]; try done. destruct (pp_done p); [|done]. injection E as <- <-. split; [|by repeat constructor]. split; try done. by apply single_set.
  - destruct r; try done. injection E as <- <-. split; [by split|constructor].
  - destruct r as [|timed| |]; try done. unfold try_read, readMultiBufferInternal in E. destruct (getState p true).
    + cbn in E. injection E as <- <-. split; [|constructor]. split; try done. split; [constructor|done].
    + destruct (has_items (pp_data p) || is_set None); injection E as <- <-; (split; [|constructor]); split; try done; constructor.
  - destruct r; try done. injection E as <- <-. split; [by split|]. by repeat constructor; apply z_held0.
  - destruct r; try done. destruct (pp_readSignal p); [|done]. injection E as <- <-. split; [by split|constructor].
  - destruct r; try done. destruct (pp_done p); [|done]. injection E as <- <-. split; [by split|constructor].
  - destruct r as [| | |[]]; try done. injection E as <- <-. split; [by split|]. repeat constructor. done.
  - injection E as <- <-. split; [|constructor]. unfold pipe_Close. by destruct (pp_state p); split.
  - injection E as <- <-. split; [|constructor]. unfold Interrupt. repeat case_match; split; try done; constructor.
Qed.

Lemma pipe_run_sized limit actions w w' evs :
  0 <= limit < 2 ^ 31 - Size → pipe_sized limit w → Forall single actions → pipe_run actions w = Some (w', evs) →
  Forall (λ e, match e with ReadReturned mb _ => filled mb ∧ len (content mb) <= limit + Size | _ => True end) evs.
Proof.
  intros Hl Hw Ha. revert w w' evs Hw. induction Ha as [|a actions Ha _ IH]; intros w w' evs Hw E; cbn [pipe_run] in E; [by injection E as <- <-|].
  destruct (pipe_step a w) as [[w1 e1]|] eqn:Ea; [|done]. destruct (pipe_run actions w1) as [[w2 e2]|] eqn:Er; [|done]. injection E as <- <-.
  destruct (pipe_step_sized _ _ _ _ _ Hl Hw Ha Ea) as [Hw1 He]. apply Forall_app. split; [done|]. by eapply IH.
Qed.

Lemma new_pipe_sized limit writers : 0 <= limit → pipe_sized limit (new_pipe limit writers).
Proof.
  intros Hl. split; cbn; try done; [constructor|by apply sized_empty|]. intros i x Hx. by apply lookup_replicate in Hx as [-> _].
Qed.

(** ** A run *)

Definition c_buffer (text : string) : Buffer :=
  MkBuffer (String.list_byte_of_string text ++ repeat x00 (Z.to_nat Size - String.length text)) 0 (Z.of_nat (String.length text)).
Definition c_write (i : nat) (text : string) : list pipe_action := [WriteBegin i [c_buffer text]; WriteTry i].
(** Two writers and a limit of one byte: the second one waits until the reader has read. *)
Definition c_pipe_actions : list pipe_action :=
  c_write 0 "ab" ++ c_write 1 "cd" ++ [WriteSignal 0; PReadBegin false; PReadTry; PReadSignal; WriteWake 1; WriteTry 1; PReadBegin false; PReadTry].
Definition c_pipe_run : pipeWorld * list pipe_event := default (new_pipe 1 2, []) (pipe_run c_pipe_actions (new_pipe 1 2)).

Lemma pipe_wakes_witness :
  let '(w, evs) := c_pipe_run in
  pipe_run c_pipe_actions (new_pipe 1 2) = Some (w, evs) ∧ accepted evs = String.list_byte_of_string "abcd" ∧
  returned evs = String.list_byte_of_string "ab" ∧ returned evs ++ held (pw_reader w) `prefix_of` accepted evs.
Proof.
  assert (E : pipe_run c_pipe_actions (new_pipe 1 2) = Some c_pipe_run) by (by vm_compute).
  assert (Ha : accepted c_pipe_run.2 = String.list_byte_of_string "abcd") by (by vm_compute).
  assert (Hr : returned c_pipe_run.2 = String.list_byte_of_string "ab") by (by vm_compute).
  destruct c_pipe_run as [w evs]. split_and!; [done|done|done|]. apply (pipe_wakes 1 2 c_pipe_actions w evs E).
Defined.
