(* ===== verification/XhttpUpload.v ===== *)
(** * Uploads of XHTTP: transport/v2rayxhttp/writer.go and client.go

    In packet-up mode a connection writes into a pipe; a goroutine reads the pipe, splits what it
    gets into posts and numbers them; the server puts them in order again ([UploadQueue]). The
    requests themselves are network I/O: a post arrives at the server at most once, at any
    time, or not at all. *)
From Stdlib Require Import Strings.Byte.
From stdpp Require Import base list strings list_numbers.
From S2P Require Import Prelude Netip GoBytes UploadQueue UploadQueueFacts XrayPipe.

Section upload.
(** The arrays of the pool, see [XrayPipe]. *)
Variable array : nat → list byte.

(** [uploadWriter.Write]: the writes into the pipe that are made, with the error of the [i]-th
    of them, the bytes that were written and the error. *)
Fixpoint write_buffers (mb : MultiBuffer) (err : nat → option error) (i : nat) (writed : Z)
    : list MultiBuffer * (Z * option error) :=
  match mb with
  | [] => ([], (writed, None))
  | buff :: mb =>
      match err i with
      | Some e => ([[buff]], (writed, Some e))
      | None => let '(calls, r) := write_buffers mb err (S i) (writed + Buffer_Len buff) in ([buff] :: calls, r)
      end
  end.
Definition uploadWriter_Write (b : list byte) (err : nat → option error) : result (list MultiBuffer * (Z * option error)) :=
  mb ← MergeBytes array [] b; Ok (write_buffers mb err 0 0).

(** [FillPacketRequest]: the bytes of a post. *)
Definition post_data (chunk : MultiBuffer) : list byte := Copy chunk (Len chunk).

(** The loop over what was read of the pipe: the posts, with their numbers. The fuel is the bytes
    and one more, a post takes at least one. *)
Fixpoint post_loop (fuel : nat) (remainder : MultiBuffer) (maxUploadSize seq : Z) : result (list Packet * Z) :=
  match fuel with
  | O => Err (ENew "runs on")
  | S fuel =>
      '(remainder, chunk) ← SplitSize array remainder maxUploadSize;
      if IsEmpty chunk then Ok ([], seq)
      else
        '(packets, last) ← post_loop fuel remainder maxUploadSize (seq + 1);
        Ok (MkPacket None (post_data chunk) seq :: packets, last)
  end.

(** The posts of everything that is read of the pipe, until a read fails. *)
Fixpoint posts (reads : list (MultiBuffer * option error)) (maxUploadSize seq : Z) : result (list Packet) :=
  match reads with
  | [] => Ok []
  | (_, Some _) :: _ => Ok []
  | (remainder, None) :: reads =>
      '(packets, seq) ← post_loop (S (length (content remainder))) remainder maxUploadSize seq;
      rest ← posts reads maxUploadSize seq;
      Ok (packets ++ rest)
  end.

(** [pipe.New(pipe.WithSizeLimit(max(0, maxUploadSize-buf.Size)))] *)
Definition upload_limit (maxUploadSize : Z) : Z := Z.max 0 (maxUploadSize - Size).
End upload.

(** * Uploads arrive in order

    From the writes of a connection to the reads of the server: the buffers of a write, the
    posts of what a pipe gives, and the composition of the pipe, the posts and the queue. *)

Section upload.
Variable array : nat → list byte.
Hypothesis Harray : ∀ n, len (array n) = Size.

(** ** Writing *)

Lemma write_buffers_ok mb err i writed calls n e :
  filled mb → write_buffers mb err i writed = (calls, (n, e)) →
  Forall (λ c, ∃ b, c = [b] ∧ filled [b]) calls ∧ concat calls `prefix_of` mb ∧ (e = None → concat calls = mb ∧ n = writed + len (content mb)).
Proof.
  intros Hf. revert i writed calls. induction Hf as [|b mb Hb Hf IH]; intros i writed calls E; cbn [write_buffers] in E.
  { injection E as <- <- <-. split_and!; [constructor|done|]. intros _. unfold len. cbn. split; [done|lia]. }
  assert (Hone : filled [b]) by (apply Forall_cons; split; [done|constructor]). destruct (err i) as [x|].
  { injection E as <- <- <-. split_and!; [repeat constructor; by exists b|cbn; apply prefix_cons, prefix_nil|done]. }
  destruct (write_buffers mb err (S i) _) as [calls' [n' e']] eqn:Ew. injection E as <- <- <-.
  destruct (IH _ _ _ Ew) as (H1 & H2 & H3). split_and!; [constructor; [by exists b|done]|cbn; by apply prefix_cons|].
  intros ->. destruct (H3 eq_refl) as [E1 ->]. split; [cbn; by rewrite E1|]. unfold content. cbn [map concat]. destruct Hb as [Hb _]. rewrite <- (len_Bytes b Hb).
  unfold len. rewrite length_app. lia.
Qed.

(** A write is cut into buffers; all of it is written unless a write into the pipe fails. *)
Lemma uploadWriter_Write_ok b err :
  ∃ calls n e, uploadWriter_Write array b err = Ok (calls, (n, e)) ∧ Forall (λ c, ∃ x, c = [x] ∧ filled [x]) calls ∧
    content (concat calls) `prefix_of` b ∧ (e = None → content (concat calls) = b ∧ n = len b).
Proof using Harray.
  unfold uploadWriter_Write. destruct (MergeBytes_ok array Harray [] b) as (mb & -> & _ & Hc & Hf); [constructor|]. cbn [mbind result_bind].
  destruct (write_buffers mb err 0 0) as [calls [n e]] eqn:Ew. exists calls, n, e.
  destruct (write_buffers_ok _ _ _ _ _ _ _ (Hf eq_refl) Ew) as (H1 & [k Hk] & H3). cbn in Hc. subst b. split_and!; [done|done| |].
  - rewrite Hk, content_app. by eexists.
  - intros He. destruct (H3 He) as [-> ->]. by rewrite Z.add_0_l.
Qed.

(** ** Posts *)

(** Packets numbered from [seq] on, each with some bytes and at most [max]. *)
Fixpoint in_sequence (max seq : Z) (packets : list Packet) : Prop :=
  match packets with
  | [] => True
  | p :: packets => pk_Reader p = None ∧ pk_Seq p = seq ∧ 0 < len (pk_Payload p) <= max ∧ in_sequence max (seq + 1) packets
  end.
Definition payloads (packets : list Packet) : list byte := concat (map pk_Payload packets).

Lemma payloads_app a b : payloads (a ++ b) = payloads a ++ payloads b.
Proof. unfold payloads. by rewrite map_app, concat_app. Qed.

Lemma in_sequence_app max seq a b :
  in_sequence max seq a → in_sequence max (seq + len a) b → in_sequence max seq (a ++ b).
Proof.
  revert seq. induction a as [|p a IH]; intros seq; cbn [in_sequence app]; [unfold len; cbn; by rewrite Z.add_0_r|].
  intros (H1 & H2 & H3 & H4) Hb. split_and!; try done; try lia. apply IH; [done|]. by replace (seq + 1 + len a) with (seq + len (p :: a)) by (unfold len; cbn [length]; lia).
Qed.

Lemma post_loop_ok fuel remainder max seq :
  filled remainder → len (content remainder) < 2 ^ 31 → 0 < max < 2 ^ 31 → (length (content remainder) < fuel)%nat →
  ∃ packets, post_loop array fuel remainder max seq = Ok (packets, seq + len packets) ∧ in_sequence max seq packets ∧
    payloads packets = content remainder.
Proof using Harray.
  revert remainder seq. induction fuel as [|fuel IH]; intros remainder seq Hf Hl Hm Hfuel; [lia|]. cbn [post_loop].
  destruct (SplitSize_ok array Harray remainder max Hf Hl Hm) as (rest & chunk & -> & Hc & Hrest & Hchunk & Hle & Hne). cbn [mbind result_bind].
  pose proof (filled_ok _ Hchunk) as Hok. rewrite IsEmpty_content by done. destruct (has_items (content chunk)) eqn:Ei; cbn [negb].
  - assert (Hpos : (0 < length (content chunk))%nat) by (destruct (content chunk); [done|cbn; lia]).
    assert (Hlen : (length (content remainder) = length (content chunk) + length (content rest))%nat) by (rewrite Hc, length_app; done).
    destruct (IH rest (seq + 1) Hrest) as (packets & -> & Hs & Hp); [unfold len in *; lia|done|lia|]. cbn [mbind result_bind].
    assert (Hdata : post_data chunk = content chunk).
    { unfold post_data. rewrite Len_content by (done || unfold len in *; lia). rewrite Copy_content by (done || unfold len; lia).
      apply take_ge. unfold len. lia. }
    exists (MkPacket None (post_data chunk) seq :: packets). split_and!.
    + do 2 f_equal. unfold len. cbn [length]. lia.
    + cbn [in_sequence pk_Reader pk_Seq pk_Payload]. rewrite Hdata. split_and!; try done. unfold len. lia.
    + unfold payloads in *. cbn [map concat pk_Payload]. by rewrite Hdata, Hp, Hc.
  - exists []. apply has_items_false in Ei. split_and!; [do 2 f_equal; unfold len; cbn; lia|done|].
    destruct remainder as [|b l]; [done|]. by destruct (Hne ltac:(done)).
Qed.

(** What the reads gave before one failed. *)
Fixpoint read_bytes (reads : list (MultiBuffer * option error)) : list byte :=
  match reads with
  | [] => []
  | (_, Some _) :: _ => []
  | (mb, None) :: reads => content mb ++ read_bytes reads
  end.

Lemma posts_ok reads max seq :
  Forall (λ r, filled r.1 ∧ len (content r.1) < 2 ^ 31) reads → 0 < max < 2 ^ 31 →
  ∃ packets, posts array reads max seq = Ok packets ∧ in_sequence max seq packets ∧ payloads packets = read_bytes reads.
Proof using Harray.
  intros Hr Hm. revert seq. induction Hr as [|[mb [e|]] reads [Hf Hl] _ IH]; intros seq; cbn [posts read_bytes]; try (by exists []).
  destruct (post_loop_ok (S (length (content mb))) mb max seq) as (ps & -> & Hs & Hp); [done|done|done|cbn in *; lia|]. cbn [mbind result_bind].
  destruct (IH (seq + len ps)) as (rest & -> & Hs' & Hp'). cbn [mbind result_bind]. exists (ps ++ rest).
  split_and!; [done|by apply in_sequence_app|by rewrite payloads_app, Hp, Hp'].
Qed.
End upload.

(** ** Numbered packets *)

Lemma in_sequence_numbers max seq packets : in_sequence max seq packets → numbers packets = seqZ seq (len packets).
Proof.
  revert seq. induction packets as [|p packets IH]; intros seq; [done|]. intros (_ & Hs & _ & Hp). unfold len. cbn [length numbers map].
  rewrite Nat2Z.inj_succ, seqZ_cons by lia. rewrite Z.pred_succ. f_equal; [done|]. fold (numbers packets). rewrite (IH _ Hp). done.
Qed.

Lemma in_sequence_forall max seq packets p :
  in_sequence max seq packets → p ∈ packets → pk_Reader p = None ∧ seq <= pk_Seq p < seq + len packets ∧ len (pk_Payload p) <= max.
Proof.
  revert seq. induction packets as [|x packets IH]; intros seq Hs Hp; [by apply elem_of_nil in Hp|]. destruct Hs as (H1 & H2 & H3 & H4).
  unfold len in *. cbn [length]. apply elem_of_cons in Hp as [-> |Hp]; [split_and!; [done|lia|lia|lia]|].
  destruct (IH _ H4 Hp) as (? & ? & ?). unfold len in *. split_and!; [done|lia|lia|lia].
Qed.

Lemma in_sequence_bounds max seq packets : in_sequence max seq packets → Forall (λ p, 0 < len (pk_Payload p) <= max) packets.
Proof.
  revert seq. induction packets as [|p packets IH]; intros seq Hs; [apply Forall_nil_2|]. destruct Hs as (_ & _ & Hp & Hs). apply Forall_cons. split; [done|by eapply IH].
Qed.

Lemma in_sequence_length max seq packets : in_sequence max seq packets → len packets <= len (payloads packets).
Proof.
  revert seq. induction packets as [|p packets IH]; intros seq; [done|]. intros (_ & _ & Hp & Hs). specialize (IH _ Hs).
  unfold payloads, len in *. cbn [length map concat]. rewrite length_app. lia.
Qed.

(** The stream of some of the packets, up to where they are all there, is the stream of all. *)
Lemma stream_sub max packets sub k :
  in_sequence max 0 packets → sub ⊆+ packets → NoDup (numbers sub) → 0 <= k → (∀ s, 0 <= s < k → s ∈ numbers sub) →
  stream sub k `prefix_of` payloads packets.
Proof.
  intros Hs Hsub Hnd Hk Hall. pose proof (in_sequence_numbers _ _ _ Hs) as Hnum.
  assert (Hndp : NoDup (numbers packets)) by (rewrite Hnum; apply NoDup_seqZ).
  assert (Hle : k <= len packets).
  { destruct (Z.le_gt_cases k (len packets)); [done|]. exfalso. assert (Hin : len packets ∈ numbers sub) by (apply Hall; unfold len in *; lia).
    apply list_elem_of_fmap in Hin as (p & E & Hp). assert (Hp' : p ∈ packets) by (eapply elem_of_submseteq; done).
    destruct (in_sequence_forall _ _ _ _ Hs Hp') as (_ & ? & _). lia. }
  assert (E : map (payload_of sub) (seqZ 0 k) = map pk_Payload (take (Z.to_nat k) packets)).
  { apply list_eq. intros i. rewrite !list_lookup_fmap, lookup_take.
    destruct (decide (i < Z.to_nat k)%nat) as [Hi|Hi].
    - rewrite lookup_seqZ_lt by lia. destruct (lookup_lt_is_Some_2 packets i) as [p Hp]; [unfold len in Hle; lia|]. rewrite Hp. cbn.
      assert (Hseq : pk_Seq p = 0 + Z.of_nat i).
      { assert (Hl : numbers packets !! i = Some (pk_Seq p)) by (unfold numbers; rewrite list_lookup_fmap, Hp; done).
        rewrite Hnum, lookup_seqZ in Hl. lia. }
      f_equal. rewrite <- Hseq. assert (Hin : pk_Seq p ∈ numbers sub) by (apply Hall; lia).
      apply list_elem_of_fmap in Hin as (x & Ex & Hx). assert (Hx' : x ∈ packets) by (eapply elem_of_submseteq; done).
      rewrite Ex, payload_of_in by done. rewrite <- (payload_of_in packets x Hndp Hx'), <- Ex. apply payload_of_in; [done|]. by eapply list_elem_of_lookup_2.
    - rewrite lookup_seqZ_ge by lia. done. }
  unfold stream, payloads. rewrite E. rewrite <- (take_drop (Z.to_nat k) packets) at 2. rewrite map_app, concat_app. by eexists.
Qed.

(** ** From the writes to the reads of the server *)

Definition reads_of (evs : list pipe_event) : list (MultiBuffer * option error) :=
  concat (map (λ e, match e with ReadReturned mb err => [(mb, err)] | _ => [] end) evs).

Lemma read_bytes_returned evs : read_bytes (reads_of evs) `prefix_of` returned evs.
Proof.
  induction evs as [|e evs IH]; [done|]. unfold reads_of, returned in *. cbn [map concat]. destruct e as [mb|i err|mb [err|]]; cbn [app read_bytes returned_of]; try done.
  - apply prefix_nil.
  - by apply prefix_app.
Qed.

Lemma posts_numbered max packets sub :
  in_sequence max 0 packets → len (payloads packets) < 2 ^ 63 → sub ⊆+ packets → numbered sub.
Proof.
  intros Hs Hl Hsub. pose proof (in_sequence_length _ _ _ Hs) as Hlen. split.
  - apply submseteq_Permutation in Hsub as [rest Hsub]. pose proof (NoDup_seqZ 0 (len packets)) as Hnd.
    rewrite <- (in_sequence_numbers _ _ _ Hs), (numbers_Permutation _ _ Hsub), numbers_app in Hnd. by apply NoDup_app in Hnd as [? _].
  - apply Forall_forall. intros p Hp. assert (Hp' : p ∈ packets) by (by eapply elem_of_submseteq).
    destruct (in_sequence_forall _ _ _ _ Hs Hp') as (? & ? & _). split; [done|]. lia.
Qed.

(** C19 Uploads of XHTTP arrive in order, end to end: the bytes that a connection writes in buffers go
    through the pipe, are cut into numbered posts of at most [max] bytes, none of them empty,
    and whichever of the posts reach the server, in whatever order and interleaving with its
    reads, the bytes that the server reads are a prefix of the bytes that were written. *)
Theorem xhttp_uploads_in_order array max writers actions w evs :
  (∀ n, len (array n) = Size) → 0 < max < 2 ^ 31 → Forall single actions →
  pipe_run actions (new_pipe (upload_limit max) writers) = Some (w, evs) → len (returned evs) < 2 ^ 63 →
  ∃ packets, posts array (reads_of evs) max 0 = Ok packets ∧ payloads packets = read_bytes (reads_of evs) ∧
    Forall (λ p, 0 < len (pk_Payload p) <= max) packets ∧
    ∀ maxPackets arrivals server rs,
      pushes arrivals ⊆+ packets → upload_run arrivals (new_world maxPackets) = Some (server, rs) →
      delivered rs `prefix_of` accepted evs.
Proof.
  intros Harray Hm Ha E Hl. assert (Hlim : 0 <= upload_limit max < 2 ^ 31 - Size) by (unfold upload_limit, Size; lia).
  pose proof (pipe_run_sized _ _ _ _ _ Hlim (new_pipe_sized _ writers (proj1 Hlim)) Ha E) as Hsized.
  destruct (pipe_run_ok actions [] _ _ _ (new_pipe_ok _ writers) E) as [(lost & Hb & _) _ _ _ _ _]. cbn [app] in Hb.
  destruct (posts_ok array Harray (reads_of evs) max 0) as (packets & Hp & Hs & Hpay).
  { clear -Hsized Hlim. unfold reads_of. induction Hsized as [|e evs He _ IH]; cbn [map concat]; [constructor|]. apply Forall_app. split; [|done].
    destruct e as [| |mb err]; [apply Forall_nil_2..|]. apply Forall_cons. split; [|apply Forall_nil_2]. cbn [fst]. destruct He. split; [done|lia]. }
  { done. }
  exists packets. split_and!; [done|done| |].
  - by eapply in_sequence_bounds.
  - intros maxPackets arrivals server rs Hsub Hrun. pose proof (read_bytes_returned evs) as Hpre. rewrite <- Hpay in Hpre.
    assert (Hlen : len (payloads packets) < 2 ^ 63) by (apply prefix_length in Hpre; unfold len in *; lia).
    pose proof (posts_numbered _ _ _ Hs Hlen Hsub) as Hnum.
    destruct (run_prefix _ _ _ _ Hnum Hrun) as (k & Hk & Hall & Hd).
    etrans; [exact Hd|]. etrans; [by eapply stream_sub; [done|done|apply Hnum|..]|]. etrans; [exact Hpre|]. rewrite Hb. by eexists.
Qed.

(** ** A run *)

Definition c_array (n : nat) : list byte := repeat x00 (Z.to_nat Size).
Definition c_posting : list pipe_action := c_write 0 "abcde" ++ [WriteSignal 0; PReadBegin false; PReadTry; PReadSignal].
Definition c_posted : pipeWorld * list pipe_event := default (new_pipe 0 1, []) (pipe_run c_posting (new_pipe (upload_limit 3) 1)).
(** The second post arrives first. *)
Definition c_arrivals : list upload_action :=
  c_push (c_upload 1 "de") ++ [ReadBegin 9; ReadReceive; ReadRound] ++ c_push (c_upload 0 "abc") ++ [ReadReceive; ReadRound] ++ c_read 9.
Definition c_arrived : uploadWorld * list read_result := default (new_world 30, []) (upload_run c_arrivals (new_world 30)).

Lemma xhttp_uploads_in_order_witness :
  let evs := c_posted.2 in
  posts c_array (reads_of evs) 3 0 = Ok [c_upload 0 "abc"; c_upload 1 "de"] ∧
  delivered c_arrived.2 = String.list_byte_of_string "abcde" ∧ delivered c_arrived.2 `prefix_of` accepted evs.
Proof.
  assert (E : pipe_run c_posting (new_pipe (upload_limit 3) 1) = Some c_posted) by (by vm_compute).
  assert (Hp : posts c_array (reads_of c_posted.2) 3 0 = Ok [c_upload 0 "abc"; c_upload 1 "de"]) by (by vm_compute).
  assert (Hr : upload_run c_arrivals (new_world 30) = Some c_arrived) by (by vm_compute).
  assert (Hd : delivered c_arrived.2 = String.list_byte_of_string "abcde") by (by vm_compute).
  assert (Hl : len (returned c_posted.2) < 2 ^ 63) by (by vm_compute).
  assert (Hpush : pushes c_arrivals ⊆+ [c_upload 0 "abc"; c_upload 1 "de"]) by (apply Permutation_submseteq; cbn; apply Permutation_swap).
  destruct c_posted as [w evs], c_arrived as [server rs]. cbn [fst snd] in *.
  destruct (xhttp_uploads_in_order c_array 3 1 c_posting w evs) as (packets & Hp' & _ & _ & H); [done|lia| |exact E|done|].
  - unfold c_posting, c_write. cbn [app]. apply Forall_cons. split; [|repeat (apply Forall_cons; split; [exact I|]); apply Forall_nil_2].
    exists (c_buffer "abcde"). split; [done|]. apply Forall_cons. split; [|apply Forall_nil_2]. split; [|by vm_compute]. split_and!; by vm_compute.
  - rewrite Hp in Hp'. injection Hp' as <-. split_and!; [done|done|]. apply (H 30%nat c_arrivals server rs); done.
Defined.
