(* ===== verification/DomainSet.v ===== *)
(** * Domain sets: common/domainset

    The sorted keys of a domain matcher as a trie in level order: a bit per node says whether a
    key ends there, the labels of all edges stand in one list, and a bitmap has for every node
    a zero per edge and a one. The matcher that reads it is of another package; [accepts] is the
    specification of what a set stands for: the words along which a walk from the root ends at
    the end of a key. Names are lists of bytes; the [int32] of a span does not wrap for less
    than 2^31 of them in all. *)
From Stdlib Require Import Strings.Byte Lia.
From stdpp Require Import base list strings sorting list_numbers sets.
From S2P Require Import Prelude Netip Metadata RuleItems RuleAction RuleOptions Srs SrsCodec SrsTheorems GoBytes.

(** ** Keys *)

(** [slices.Sort] of strings: byte by byte *)
Fixpoint bytes_leb (a b : list byte) : bool :=
  match a, b with
  | [], _ => true
  | _ :: _, [] => false
  | x :: a, y :: b => if b2z x <? b2z y then true else if b2z x =? b2z y then bytes_leb a b else false
  end.
Definition bytes_le (a b : list byte) : Prop := bytes_leb a b = true.
#[export] Instance bytes_le_dec : RelDecision bytes_le.
Proof. intros a b. unfold bytes_le. apply _. Defined.

(** [slices.Compact] *)
Fixpoint compact (l : list (list byte)) : list (list byte) :=
  match l with
  | [] => []
  | x :: l => match compact l with
              | [] => [x]
              | y :: l' => if bool_decide (x = y) then y :: l' else x :: y :: l'
              end
  end.

(** [utf8.DecodeRuneInString]: the length of a rune, none where the bytes are not one *)
Definition between (lo hi : Z) (b : byte) : bool := (lo <=? b2z b) && (b2z b <=? hi).
Definition continues (b : byte) : bool := between 0x80 0xBF b.
Definition rune_length (l : list byte) : option nat :=
  match l with
  | [] => None
  | b0 :: l =>
      if between 0 0x7F b0 then Some 1%nat
      else match l with
      | [] => None
      | b1 :: l =>
          if between 0xC2 0xDF b0 then if continues b1 then Some 2%nat else None
          else match l with
          | [] => None
          | b2 :: l =>
              if between 0xE0 0xEF b0 then
                let second := if between 0xE0 0xE0 b0 then between 0xA0 0xBF b1 else if between 0xED 0xED b0 then between 0x80 0x9F b1 else continues b1 in
                if second && continues b2 then Some 3%nat else None
              else match l with
              | [] => None
              | b3 :: _ =>
                  if between 0xF0 0xF4 b0 then
                    let second := if between 0xF0 0xF0 b0 then between 0x90 0xBF b1 else if between 0xF4 0xF4 b0 then between 0x80 0x8F b1 else continues b1 in
                    if second && continues b2 && continues b3 then Some 4%nat else None
                  else None
              end
          end
      end
  end.

(** [utf8.EncodeRune] into the array at an index: the rune itself, or the three bytes of the
    replacement rune where the bytes are no rune. *)
Definition encode_at (reversed : list byte) (i : nat) (data : list byte) : result (list byte) :=
  if (length reversed <? i + length data)%nat then Panic "index out of range"
  else Ok (take i reversed ++ data ++ drop (i + length data) reversed).

(** [reverse]; the fuel is the bytes that are left, a rune takes at least one. *)
Fixpoint reverse_loop (fuel : nat) (name : list byte) (position : nat) (reversed : list byte) : result (list byte) :=
  match fuel, name with
  | _, [] => Ok reversed
  | O, _ => Err (ENew "runs on")
  | S fuel, _ =>
      let '(size, data) := match rune_length name with
                           | Some n => (n, take n name)
                           | None => (1%nat, [xef; xbf; xbd])
                           end in
      reversed ← encode_at reversed (position - size) data;
      reverse_loop fuel (drop size name) (position - size) reversed
  end.
Definition domain_reverse (name : list byte) : result (list byte) :=
  reverse_loop (length name) name (length name) (repeat x00 (length name)).

Definition prefixLabel : byte := x0d.
Definition rootLabel : byte := x0a.

(** The loops of [keys]: the names that were seen, and the list. *)
Fixpoint suffix_keys (names seen : list (list byte)) : result (list (list byte) * list (list byte)) :=
  match names with
  | [] => Ok ([], seen)
  | name :: names =>
      if bool_decide (name ∈ seen) then suffix_keys names seen
      else
        first ← byte_at name 0;
        key ← domain_reverse ((if first =? b2z x2e then prefixLabel else rootLabel) :: name);
        '(l, seen) ← suffix_keys names (name :: seen);
        Ok (key :: l, seen)
  end.
Fixpoint domain_keys (names seen : list (list byte)) : result (list (list byte)) :=
  match names with
  | [] => Ok []
  | name :: names =>
      if bool_decide (name ∈ seen) then domain_keys names seen
      else key ← domain_reverse name; l ← domain_keys names (name :: seen); Ok (key :: l)
  end.
Definition set_keys (domains domainSuffix : list (list byte)) : result (list (list byte)) :=
  '(suffixes, seen) ← suffix_keys domainSuffix [];
  l ← domain_keys domains seen;
  Ok (compact (merge_sort bytes_le (suffixes ++ l))).

(** ** The trie *)

(** A node: the keys from [start] to [stop], which share their first [column] bytes. *)
Record span : Type := MkSpan {
  sp_start : nat;
  sp_stop : nat;
  sp_column : nat;
}.

Section build.
Variable keys : list (list byte).

Definition key_byte (index column : nat) : result byte :=
  match keys !! index with
  | None => Panic "index out of range"
  | Some key => match key !! column with Some b => Ok b | None => Panic "index out of range" end
  end.

(** The end of the keys from [index] on with a byte at [column]. *)
Fixpoint same_label (fuel : nat) (label : byte) (index stop column : nat) : result nat :=
  match fuel with
  | O => Ok index
  | S fuel =>
      if (index <? stop)%nat then
        b ← key_byte index column;
        if Byte.eqb b label then same_label fuel label (S index) stop column else Ok index
      else Ok index
  end.

(** The children of a node, with their labels. *)
Fixpoint children_loop (fuel : nat) (index stop column : nat) : result (list (byte * span)) :=
  match fuel with
  | O => Ok []
  | S fuel =>
      if (index <? stop)%nat then
        label ← key_byte index column;
        next ← same_label (stop - index) label index stop column;
        rest ← children_loop fuel next stop column;
        Ok ((label, MkSpan index next (S column)) :: rest)
      else Ok []
  end.

(** Whether a key ends at a node, and its children. *)
Definition expand (item : span) : result (bool * list (byte * span)) :=
  match keys !! sp_start item with
  | None => Panic "index out of range"
  | Some key =>
      let leaf := (sp_column item =? length key)%nat in
      let start := if leaf then S (sp_start item) else sp_start item in
      children ← children_loop (sp_stop item - start) start (sp_stop item) (sp_column item);
      Ok (leaf, children)
  end.

(** The words of a bitmap, grown as far as they are needed. *)
Definition setBit (words : list Z) (index : nat) : list Z :=
  let words := words ++ repeat 0 (S (index / 64) - length words) in
  alter (λ w, Z.lor w (Z.shiftl 1 (Z.of_nat (index mod 64)))) (index / 64)%nat words.

Record trie : Type := MkTrie {
  tr_leaves : list Z;
  tr_labelBitmap : list Z;
  tr_labels : list byte;
  tr_bit : nat;
  tr_node : nat;
}.

(** A node is written; an edge moves the bit, the end of the edges is marked. *)
Definition write_node (t : trie) (leaf : bool) (children : list (byte * span)) : trie :=
  let bit := (tr_bit t + length children)%nat in
  MkTrie (if leaf then setBit (tr_leaves t) (tr_node t) else tr_leaves t) (setBit (tr_labelBitmap t) bit)
    (tr_labels t ++ map fst children) (S bit) (S (tr_node t)).

Fixpoint build_level (level : list span) (t : trie) : result (list span * trie) :=
  match level with
  | [] => Ok ([], t)
  | item :: level =>
      '(leaf, children) ← expand item;
      '(next, t) ← build_level level (write_node t leaf children);
      Ok (map snd children ++ next, t)
  end.

(** The levels; the fuel is the length of the longest key and two more. *)
Fixpoint build_levels (fuel : nat) (level : list span) (t : trie) : result trie :=
  match level with
  | [] => Ok t
  | _ :: _ =>
      match fuel with
      | O => Err (ENew "runs on")
      | S fuel => '(next, t) ← build_level level t; build_levels fuel next t
      end
  end.
Definition build_trie : result trie :=
  build_levels (S (S (list_max (map length keys)))) [MkSpan 0 (length keys) 0] (MkTrie [] [] [] 0 0).
End build.

Section encode.
Context `{Varbin}.

Definition writeWords (words : list Z) : list byte :=
  varbin_WriteUvarint (u64 (Z.of_nat (length words))) ++ concat (map (be_split 8) words).
Definition build (keys : list (list byte)) : result (list byte) :=
  t ← build_trie keys;
  Ok (z2b 0 :: writeWords (tr_leaves t) ++ writeWords (tr_labelBitmap t) ++
      varbin_WriteUvarint (u64 (Z.of_nat (length (tr_labels t)))) ++ tr_labels t).
Definition encode (domains domainSuffix : list (list byte)) : result (list byte) :=
  l ← set_keys domains domainSuffix; build l.
End encode.

(** ** What a set means *)

(** The format read back. *)
Definition read_words (b : list byte) : result (list Z * list byte) :=
  '(n, b) ← ReadUvarint b;
  read_times (λ _ b, read_uint64 b) n b.
Definition read_set (b : list byte) : result (list Z * list Z * list byte) :=
  '(version, b) ← read_byte b;
  _ ← guard_err (negb (version =? 0)) (ENew "unknown version");
  '(leaves, b) ← read_words b;
  '(bitmap, b) ← read_words b;
  '(n, b) ← ReadUvarint b;
  '(labels, b) ← io_ReadFull (Z.to_nat n) b;
  Ok (leaves, bitmap, labels).

Definition bit_at (words : list Z) (i : nat) : bool :=
  match words !! (i / 64)%nat with Some w => Z.testbit w (Z.of_nat (i mod 64)) | None => false end.

(** The numbers of zeros before the ones of a bitmap. *)
Fixpoint counts (bits : list bool) (n : nat) : list nat :=
  match bits with
  | [] => []
  | false :: bits => counts bits (S n)
  | true :: bits => n :: counts bits 0
  end.

(** A walk from a node: node [i + 1] is at the end of edge [i]. *)
Section walk.
Variables (leaves : list Z) (edges : list nat) (labels : list byte).

Definition first_edge (node : nat) : nat := sum_list (take node edges).
Definition find_child (node : nat) (b : byte) : option nat :=
  let from := first_edge node in
  match list_find (λ x, x = b) (take (default 0%nat (edges !! node)) (drop from labels)) with
  | Some (k, _) => Some (S (from + k))
  | None => None
  end.
Fixpoint walk (node : nat) (w : list byte) : bool :=
  match w with
  | [] => bit_at leaves node
  | b :: w => match find_child node b with Some child => walk child w | None => false end
  end.
End walk.

Definition accepts (b : list byte) (w : list byte) : bool :=
  match read_set b with
  | Ok (leaves, bitmap, labels) =>
      walk leaves (counts (map (bit_at bitmap) (seq 0 (2 * length labels + 1))) 0) labels 0 w
  | _ => false
  end.

(** * Domain sets accept their names

    A node is good when the keys of its span are as long as its column and what they have
    beyond it is strictly increasing. The children of a good node are good, have distinct
    labels and stand for what is left of the keys after a byte; together they have less bytes
    left, so that the trie has no more edges than the keys have bytes. The nodes in level order
    are the root and the children of all nodes, which makes the number of an edge the number
    of the node at its end; so the walk over the bits that were written follows the keys. *)

(** ** The order of keys *)

Definition bytes_lt (a b : list byte) : Prop := bytes_le a b ∧ a ≠ b.

Lemma bytes_lt_nil a b : bytes_lt a b → b ≠ [].
Proof. intros [Hle Hne] ->. destruct a; done. Qed.

Lemma b2z_inj x y : b2z x = b2z y → x = y.
Proof.
  intros H. assert (Hz : ∀ b, z2b (b2z b) = b) by (intros b; by destruct b). rewrite <- (Hz x), <- (Hz y). by f_equal.
Qed.

Lemma bytes_lt_cons x a y b : bytes_lt (x :: a) (y :: b) → b2z x < b2z y ∨ x = y ∧ bytes_lt a b.
Proof.
  intros [Hle Hne]. unfold bytes_le in Hle. cbn in Hle. destruct (Z.ltb_spec (b2z x) (b2z y)); [by left|].
  destruct (Z.eqb_spec (b2z x) (b2z y)) as [Heq|]; [|done]. right.
  assert (x = y) as -> by by apply b2z_inj. split; [done|]. split; [done|congruence].
Qed.

(** ** Bitmaps *)

Section bits.
#[local] Open Scope nat_scope.

Lemma bit_at_grow ws n i : bit_at (ws ++ repeat 0%Z n) i = bit_at ws i.
Proof.
  unfold bit_at. destruct (decide (i / 64 < length ws)); [by rewrite lookup_app_l|].
  rewrite lookup_app_r, (lookup_ge_None_2 ws) by lia. destruct (repeat 0%Z n !! (i / 64 - length ws)) as [w|] eqn:E; [|done].
  apply list_elem_of_lookup_2, list_elem_of_In, repeat_spec in E as ->. apply Z.bits_0.
Qed.

Lemma bit_at_setBit ws i j : bit_at (setBit ws i) j = (j =? i) || bit_at ws j.
Proof.
  rewrite <- (bit_at_grow ws (S (i / 64) - length ws) j). unfold setBit.
  set (ws' := ws ++ _). assert (Hl : i / 64 < length ws') by (unfold ws'; rewrite length_app, repeat_length; lia).
  unfold bit_at. pose proof (Nat.div_mod_eq i 64) as Hi. pose proof (Nat.div_mod_eq j 64) as Hj.
  destruct (decide (i / 64 = j / 64)) as [Heq|Hne].
  - rewrite <- Heq, list_lookup_alter_eq. destruct (lookup_lt_is_Some_2 _ _ Hl) as [w ->]. cbn [fmap option_fmap option_map].
    rewrite Z.lor_spec, Z.shiftl_1_l, Z.pow2_bits_eqb by lia. rewrite orb_comm. f_equal.
    apply eq_true_iff_eq. rewrite Z.eqb_eq, Nat.eqb_eq. lia.
  - rewrite list_lookup_alter_ne by done. destruct (Nat.eqb_spec j i); [congruence|done].
Qed.

Definition words_ok (ws : list Z) : Prop := Forall (λ w, 0 <= w < 2 ^ 64)%Z ws.

Lemma lor_bound a b : (0 <= a < 2 ^ 64 → 0 <= b < 2 ^ 64 → 0 <= Z.lor a b < 2 ^ 64)%Z.
Proof.
  intros Ha Hb. assert (0 <= Z.lor a b)%Z as H0 by (apply Z.lor_nonneg; lia). split; [done|].
  destruct (decide (Z.lor a b = 0)%Z) as [->|]; [lia|]. apply Z.log2_lt_pow2; [lia|]. rewrite Z.log2_lor by lia.
  assert (∀ x, 0 <= x < 2 ^ 64 → Z.log2 x < 64)%Z as Hlog.
  { intros x Hx. destruct (decide (x = 0)%Z) as [->|]; [done|]. apply Z.log2_lt_pow2; lia. }
  pose proof (Hlog a Ha). pose proof (Hlog b Hb). lia.
Qed.

Lemma setBit_ok ws i : words_ok ws → words_ok (setBit ws i).
Proof.
  intros Hok. unfold setBit, words_ok. apply Forall_alter.
  - apply Forall_app. split; [done|]. apply Forall_forall. intros x Hx. apply list_elem_of_In, repeat_spec in Hx as ->. lia.
  - intros w _ Hw. pose proof (Nat.mod_upper_bound i 64 ltac:(lia)) as Hm. rewrite Z.shiftl_1_l.
    apply lor_bound; [done|]. split; [lia|]. apply Z.pow_lt_mono_r; lia.
Qed.

Lemma length_setBit ws i : length (setBit ws i) ≤ max (length ws) (S i).
Proof.
  unfold setBit. rewrite length_alter, length_app, repeat_length. pose proof (Nat.Div0.div_le_upper_bound i 64 i ltac:(lia)). lia.
Qed.
End bits.

(** ** Words *)

Section words.
Context `{Varbin}.
Hypothesis Hvarbin : ∀ n, 0 <= n < 2 ^ 64 → varbin_WriteUvarint n = PutUvarint n.

Lemma write_length {A} (l : list A) : Z.of_nat (length l) < 2 ^ 63 → varbin_WriteUvarint (u64 (Z.of_nat (length l))) = PutUvarint (Z.of_nat (length l)).
Proof using Hvarbin. intros Hl. rewrite wrap_small by lia. apply Hvarbin. lia. Qed.

Lemma read_words_write ws rest : words_ok ws → Z.of_nat (length ws) < 2 ^ 63 → read_words (writeWords ws ++ rest) = Ok (ws, rest).
Proof using Hvarbin.
  intros Hok Hl. unfold read_words, writeWords. rewrite <- app_assoc, write_length, ReadUvarint_Put by lia. cbn [mbind result_bind].
  apply (read_times_spec _ (be_split 8)).
  - intros x _ Hx. apply (f_equal length) in Hx. by rewrite length_be_split in Hx.
  - intros x j b Hx. unfold words_ok in Hok. rewrite Forall_forall in Hok. specialize (Hok x Hx). unfold read_uint64.
    rewrite <- (length_be_split 8 x) at 1. rewrite io_ReadFull_app. cbn [mbind result_bind]. by rewrite be_combine_split.
Qed.
End words.

Section trie.
Variable keys : list (list byte).
#[local] Open Scope nat_scope.

Definition key_at (i : nat) : list byte := default [] (keys !! i).
Definition suffix (c i : nat) : list byte := drop c (key_at i).

Definition good (s : span) : Prop :=
  sp_start s < sp_stop s ∧ sp_stop s ≤ length keys ∧
  (∀ i, sp_start s ≤ i < sp_stop s → sp_column s ≤ length (key_at i)) ∧
  (∀ i j, sp_start s ≤ i → i < j → j < sp_stop s → bytes_lt (suffix (sp_column s) i) (suffix (sp_column s) j)).

(** What the keys of a node have beyond its column. *)
Definition covers (s : span) (w : list byte) : Prop := ∃ i, sp_start s ≤ i < sp_stop s ∧ suffix (sp_column s) i = w.

(** How many bytes the keys from one index to another have beyond a column. *)
Definition bytes_left (c a b : nat) : nat := sum_list_with (λ i, length (key_at i) - c) (seq a (b - a)).
Definition mass (s : span) : nat := bytes_left (sp_column s) (sp_start s) (sp_stop s).

Lemma bytes_left_split c a m b : a ≤ m → m ≤ b → bytes_left c a b = bytes_left c a m + bytes_left c m b.
Proof.
  intros Ha Hb. unfold bytes_left. replace (b - a) with ((m - a) + (b - m)) by lia.
  rewrite seq_app, sum_list_with_app.
  by replace (a + (m - a)) with m by lia.
Qed.

Lemma bytes_left_S c a b : (∀ i, a ≤ i < b → c < length (key_at i)) → bytes_left (S c) a b + (b - a) = bytes_left c a b.
Proof.
  unfold bytes_left. intros Hlen. assert (Hin : ∀ i, a ≤ i < a + (b - a) → c < length (key_at i)) by (intros; apply Hlen; lia).
  clear Hlen. revert Hin. generalize (b - a) as n. intros n. revert a. induction n as [|n IH]; intros a Hin; [done|]. cbn.
  specialize (IH (S a)). specialize (Hin a) as Ha. rewrite <- IH by (intros; apply Hin; lia). lia.
Qed.

Lemma key_byte_at i c : i < length keys → c < length (key_at i) → ∃ b, key_byte keys i c = Ok b ∧ suffix c i = b :: suffix (S c) i.
Proof.
  unfold key_byte, suffix, key_at. intros Hi Hc. destruct (lookup_lt_is_Some_2 _ _ Hi) as [k Hk]. rewrite Hk in Hc |- *. cbn in *.
  destruct (lookup_lt_is_Some_2 _ _ Hc) as [b Hb]. rewrite Hb. exists b. split; [done|]. by apply drop_S.
Qed.

(** ** The loops *)

Definition starts (c i : nat) (b : byte) : Prop := suffix c i = b :: suffix (S c) i.

Lemma starts_fun c i b b' : starts c i b → starts c i b' → b = b'.
Proof. unfold starts. congruence. Qed.

Section loops.
Variables (stop c : nat).
Hypothesis Hstop : stop ≤ length keys.

Lemma same_label_spec fuel label index : (∀ i, index ≤ i < stop → c < length (key_at i)) → index ≤ stop → stop - index ≤ fuel →
  ∃ next, same_label keys fuel label index stop c = Ok next ∧ index ≤ next ≤ stop ∧ (∀ i, index ≤ i < next → starts c i label) ∧
    (next < stop → ∃ b, starts c next b ∧ b ≠ label).
Proof using Hstop.
  revert index. induction fuel as [|fuel IH]; intros index Hlen Hi Hf; cbn [same_label].
  - exists index. repeat split; try lia.
  - destruct (Nat.ltb_spec index stop); [|exists index; repeat split; lia].
    destruct (key_byte_at index c) as (b & -> & Hb); [lia|apply Hlen; lia|]. cbn [mbind result_bind].
    destruct (Byte.eqb b label) eqn:Heq.
    + apply Byte.byte_dec_bl in Heq as ->. destruct (IH (S index)) as (next & -> & Hn & Hall & Hnext); [intros; apply Hlen; lia|lia|lia|].
      exists next. repeat split; [lia|lia| |done]. intros i Hi'. destruct (decide (i = index)) as [->|]; [done|]. apply Hall. lia.
    + exists index. repeat split; [lia|lia|intros; lia|]. intros _. exists b. split; [done|]. intros ->. by rewrite Byte.byte_dec_lb in Heq.
Qed.

Definition child_ok (index : nat) (e : byte * span) : Prop :=
  good e.2 ∧ sp_column e.2 = S c ∧ index ≤ sp_start e.2 ∧ sp_stop e.2 ≤ stop ∧ ∀ i, sp_start e.2 ≤ i < sp_stop e.2 → starts c i e.1.

Lemma child_good label index next : index < next → next ≤ stop → (∀ i, index ≤ i < stop → c < length (key_at i)) →
  (∀ i j, index ≤ i → i < j → j < stop → bytes_lt (suffix c i) (suffix c j)) →
  (∀ i, index ≤ i < next → starts c i label) → child_ok index (label, MkSpan index next (S c)).
Proof using Hstop.
  intros Hi Hn Hlen Hlt Hall. split; [|cbn; repeat split; [lia|lia|done]]. split; [cbn; lia|]. split; [cbn; lia|]. cbn. split.
  - intros i Hi'. specialize (Hlen i). lia.
  - intros i j H1 H2 H3. specialize (Hlt i j H1 H2). rewrite (Hall i), (Hall j) in Hlt by lia.
    destruct (bytes_lt_cons _ _ _ _ (Hlt ltac:(lia))) as [|[_ ?]]; [lia|done].
Qed.

Lemma children_loop_spec fuel index : (∀ i, index ≤ i < stop → c < length (key_at i)) →
  (∀ i j, index ≤ i → i < j → j < stop → bytes_lt (suffix c i) (suffix c j)) → index ≤ stop → stop - index ≤ fuel →
  ∃ children, children_loop keys fuel index stop c = Ok children ∧ Forall (child_ok index) children ∧
    (∀ i, index ≤ i < stop → ∃ e, e ∈ children ∧ sp_start e.2 ≤ i < sp_stop e.2) ∧ NoDup (map fst children) ∧
    sum_list_with (λ e, S (mass e.2)) children ≤ bytes_left c index stop.
Proof using Hstop.
  revert index. induction fuel as [|fuel IH]; intros index Hlen Hlt Hi Hf; cbn [children_loop].
  - exists []. repeat split; [constructor|intros; lia|constructor|cbn; lia].
  - destruct (Nat.ltb_spec index stop); [|exists []; repeat split; [constructor|intros; lia|constructor|cbn; lia]].
    destruct (key_byte_at index c) as (b & -> & Hb); [lia|apply Hlen; lia|]. cbn [mbind result_bind].
    destruct (same_label_spec (stop - index) b index Hlen Hi) as (next & -> & Hn & Hall & Hnext); [lia|]. cbn [mbind result_bind].
    assert (index < next) as Hlt'. { destruct (decide (next = index)) as [->|]; [|lia]. destruct Hnext as (b' & Hb' & Hne); [lia|]. by destruct Hne; apply (starts_fun c index). }
    destruct (IH next) as (rest & -> & Hok & Hcov & Hnd & Hm); [intros; apply Hlen; lia|intros; apply Hlt; lia|lia|lia|]. cbn [mbind result_bind].
    exists ((b, MkSpan index next (S c)) :: rest). split; [done|]. split; [|split; [|split]].
    + constructor; [by apply child_good; try lia|]. eapply Forall_impl; [done|]. intros e (? & ? & ? & ? & ?). unfold child_ok. split_and!; try done. lia.
    + intros i Hi'. destruct (decide (i < next)); [eexists; split; [left|cbn; lia]|].
      destruct (Hcov i) as (e & He & ?); [lia|]. exists e. split; [by right|done].
    + cbn. constructor; [|done]. intros Hin. apply list_elem_of_fmap in Hin as (e & -> & He).
      rewrite Forall_forall in Hok. destruct (Hok e He) as (Hg & Hc & Hs & Hst & Hst'). destruct Hg as (Hg & _).
      destruct Hnext as (b' & Hb' & Hne); [lia|]. pose proof (Hst' (sp_start e.2) ltac:(lia)) as He'.
      pose proof (Hlt index next ltac:(lia) ltac:(lia) ltac:(lia)) as H1. rewrite Hb, Hb' in H1.
      destruct (decide (sp_start e.2 = next)) as [Heq|]; [rewrite Heq in He'; by apply Hne, (starts_fun c next)|].
      pose proof (Hlt next (sp_start e.2) ltac:(lia) ltac:(lia) ltac:(lia)) as H2. rewrite Hb', He' in H2.
      destruct (bytes_lt_cons _ _ _ _ H1) as [|[? _]]; [|congruence]. destruct (bytes_lt_cons _ _ _ _ H2) as [|[? _]]; [lia|congruence].
    + change (S (bytes_left (S c) index next) + sum_list_with (λ e, S (mass e.2)) rest ≤ bytes_left c index stop).
      rewrite (bytes_left_split c index next stop) by lia.
      rewrite <- (bytes_left_S c index next) by (intros; apply Hlen; lia). lia.
Qed.
End loops.

(** ** A node *)

Definition node (s : span) : bool * list (byte * span) := match expand keys s with Ok p => p | _ => (false, []) end.
Definition ends (s : span) : bool := (node s).1.
Definition kids (s : span) : list (byte * span) := (node s).2.

Definition after_leaf (s : span) : nat := if sp_column s =? length (key_at (sp_start s)) then S (sp_start s) else sp_start s.

Lemma after_leaf_longer s i : good s → after_leaf s ≤ i < sp_stop s → sp_column s < length (key_at i).
Proof.
  intros (Hs & Hn & Hlen & Hlt) Hi. unfold after_leaf in Hi.
  destruct (decide (i = sp_start s)) as [->|].
  - destruct (Nat.eqb_spec (sp_column s) (length (key_at (sp_start s)))) as [|Hne]; [lia|]. specialize (Hlen (sp_start s)). lia.
  - assert (sp_start s ≤ i) by (destruct (_ =? _); lia).
    specialize (Hlt (sp_start s) i ltac:(lia) ltac:(lia) ltac:(lia)). apply bytes_lt_nil in Hlt.
    apply Nat.nle_gt. intros Hle. by destruct Hlt; apply drop_ge.
Qed.

Lemma expand_ok s : good s → expand keys s = Ok (ends s, kids s) ∧ ends s = (sp_column s =? length (key_at (sp_start s))) ∧
  children_loop keys (sp_stop s - after_leaf s) (after_leaf s) (sp_stop s) (sp_column s) = Ok (kids s) ∧
  Forall (child_ok (sp_stop s) (sp_column s) (after_leaf s)) (kids s) ∧
  (∀ i, after_leaf s ≤ i < sp_stop s → ∃ e, e ∈ kids s ∧ sp_start e.2 ≤ i < sp_stop e.2) ∧ NoDup (map fst (kids s)) ∧
  sum_list_with (λ e, S (mass e.2)) (kids s) ≤ bytes_left (sp_column s) (after_leaf s) (sp_stop s).
Proof.
  intros Hg. pose proof Hg as (Hs & Hn & Hlen & Hlt).
  destruct (children_loop_spec (sp_stop s) (sp_column s) Hn (sp_stop s - after_leaf s) (after_leaf s)) as (children & Hc & Hrest).
  - intros i Hi. by apply after_leaf_longer.
  - intros i j Hi. apply Hlt. unfold after_leaf in Hi. destruct (_ =? _); lia.
  - unfold after_leaf. destruct (_ =? _); lia.
  - done.
  - assert (He : expand keys s = Ok (sp_column s =? length (key_at (sp_start s)), children)).
    { unfold expand. destruct (lookup_lt_is_Some_2 keys (sp_start s)) as [k Hk]; [lia|]. rewrite Hk.
      assert (Hka : key_at (sp_start s) = k) by (unfold key_at; by rewrite Hk). unfold after_leaf in Hc. rewrite Hka in *. by rewrite Hc. }
    assert (Hends : ends s = (sp_column s =? length (key_at (sp_start s)))) by (unfold ends, node; by rewrite He).
    assert (Hkids : kids s = children) by (unfold kids, node; by rewrite He).
    rewrite Hends, Hkids. done.
Qed.

Lemma ends_spec s : good s → ends s = true ↔ covers s [].
Proof.
  intros Hg. pose proof Hg as (Hs & Hn & Hlen & Hlt). destruct (expand_ok s Hg) as (_ & -> & _). rewrite Nat.eqb_eq. split.
  - intros Heq. exists (sp_start s). split; [lia|]. unfold suffix. by apply drop_ge; lia.
  - intros (i & Hi & Hsuf). destruct (Nat.eqb_spec (sp_column s) (length (key_at (sp_start s)))) as [|Hne]; [done|].
    assert (sp_column s < length (key_at i)) as Hl by (apply after_leaf_longer; [done|]; unfold after_leaf; destruct (Nat.eqb_spec (sp_column s) (length (key_at (sp_start s)))); lia).
    apply (f_equal length) in Hsuf. unfold suffix in Hsuf. rewrite length_drop in Hsuf. cbn in Hsuf. lia.
Qed.

Lemma kids_good s : good s → Forall (λ e, good e.2 ∧ sp_column e.2 = S (sp_column s)) (kids s).
Proof. intros Hg. destruct (expand_ok s Hg) as (_ & _ & _ & H & _). eapply Forall_impl; [done|]. intros e (? & ? & _). done. Qed.

Lemma kids_distinct s : good s → NoDup (map fst (kids s)).
Proof. intros Hg. apply (expand_ok s Hg). Qed.

Lemma kids_spec s b w : good s → covers s (b :: w) ↔ ∃ s', (b, s') ∈ kids s ∧ covers s' w.
Proof.
  intros Hg. destruct (expand_ok s Hg) as (_ & _ & _ & Hok & Hcov & _). rewrite Forall_forall in Hok. split.
  - intros (i & Hi & Hsuf). destruct (Hcov i) as ([b' s'] & He & Hi').
    { split; [|lia]. unfold after_leaf. destruct (Nat.eqb_spec (sp_column s) (length (key_at (sp_start s)))); [|lia].
      destruct (decide (i = sp_start s)) as [->|]; [|lia]. unfold suffix in Hsuf. rewrite drop_ge in Hsuf by lia. done. }
    destruct (Hok _ He) as (Hg' & Hc & _ & _ & Hst). cbn in *. specialize (Hst i Hi'). unfold starts in Hst. rewrite Hst in Hsuf.
    simplify_eq. exists s'. split; [done|]. exists i. split; [done|]. by rewrite Hc.
  - intros (s' & He & i & Hi & Hsuf). destruct (Hok _ He) as (Hg' & Hc & Ha & Hb & Hst). cbn in *.
    exists i. split; [unfold after_leaf in Ha; destruct (_ =? _); lia|]. rewrite (Hst i Hi). by rewrite <- Hsuf, Hc.
Qed.

Lemma kids_mass s : good s → sum_list_with (λ e, S (mass e.2)) (kids s) ≤ mass s.
Proof.
  intros Hg. pose proof Hg as (Hs & _). destruct (expand_ok s Hg) as (_ & _ & _ & _ & _ & _ & H). etrans; [exact H|]. unfold mass.
  rewrite (bytes_left_split _ (sp_start s) (after_leaf s)); [lia|unfold after_leaf; destruct (_ =? _); lia..].
Qed.

(** ** The nodes in level order *)

Definition below (level : list span) : list span := concat (map (λ s, map snd (kids s)) level).

Fixpoint bfs (fuel : nat) (level : list span) : list span :=
  match fuel with
  | O => []
  | S fuel => level ++ bfs fuel (below level)
  end.

Lemma bfs_nil fuel : bfs fuel [] = [].
Proof. by induction fuel. Qed.

Lemma below_app l k : below (l ++ k) = below l ++ below k.
Proof. unfold below. by rewrite map_app, concat_app. Qed.

Definition level_ok (c : nat) (level : list span) : Prop := Forall (λ s, good s ∧ sp_column s = c) level.

Lemma below_ok c level : level_ok c level → level_ok (S c) (below level).
Proof.
  induction 1 as [|s level [Hg <-] _ IH]; [constructor|]. unfold level_ok, below. cbn. apply Forall_app. split; [|exact IH].
  apply Forall_map. by apply kids_good.
Qed.

Definition longest : nat := list_max (map length keys).

Lemma good_column s : good s → sp_column s ≤ longest.
Proof.
  intros (Hs & Hn & Hlen & _). specialize (Hlen (sp_start s)). etrans; [apply Hlen; lia|]. unfold key_at.
  destruct (lookup_lt_is_Some_2 keys (sp_start s)) as [k Hk]; [lia|]. rewrite Hk. cbn.
  assert (Forall (λ x, x ≤ longest) (map length keys)) as Hall by by apply list_max_le.
  rewrite Forall_map, Forall_forall in Hall. apply (Hall k). by eapply list_elem_of_lookup_2.
Qed.

Lemma level_ok_deep c level : level_ok c level → longest < c → level = [].
Proof. destruct 1 as [|s level [Hg <-]]; [done|]. apply good_column in Hg. lia. Qed.

(** A level and the levels below it. *)
Lemma bfs_below fuel c level : level_ok c level → longest < c + fuel → bfs fuel level = level ++ below (bfs fuel level).
Proof.
  revert c level. induction fuel as [|fuel IH]; intros c level Hok Hf.
  - rewrite (level_ok_deep c level Hok) by lia. done.
  - cbn [bfs]. f_equal. rewrite below_app. rewrite <- (IH (S c)); [done|by apply below_ok|lia].
Qed.

Lemma bfs_good fuel c level : level_ok c level → Forall good (bfs fuel level).
Proof.
  revert c level. induction fuel as [|fuel IH]; intros c level Hok; cbn; [constructor|]. apply Forall_app. split; [|eapply IH; by apply below_ok].
  eapply Forall_impl; [done|]. by intros s [? _].
Qed.

Lemma below_mass c level : level_ok c level → length (below level) + sum_list_with mass (below level) ≤ sum_list_with mass level.
Proof.
  induction 1 as [|s level [Hg _] _ IH]; [done|]. unfold below in *. cbn. rewrite length_app, sum_list_with_app.
  pose proof (kids_mass s Hg) as Hk. revert Hk. generalize (kids s) as l. intros l Hk.
  assert (length (map snd l) + sum_list_with mass (map snd l) = sum_list_with (λ e, S (mass e.2)) l) by (clear; induction l; cbn; lia). lia.
Qed.

Lemma bfs_length fuel c level : level_ok c level → length (bfs fuel level) ≤ length level + sum_list_with mass level.
Proof.
  revert c level. induction fuel as [|fuel IH]; intros c level Hok; cbn; [lia|]. rewrite length_app.
  pose proof (below_mass c level Hok). specialize (IH (S c) (below level) (below_ok _ _ Hok)). lia.
Qed.

(** ** What is written *)

Definition write (t : trie) (s : span) : trie := write_node t (ends s) (kids s).

Lemma build_level_spec level t : Forall good level → build_level keys level t = Ok (below level, fold_left write level t).
Proof.
  intros Hok. revert t. induction Hok as [|s level Hg _ IH]; intros t; [done|]. cbn [build_level].
  destruct (expand_ok s Hg) as (-> & _). cbn [mbind result_bind]. rewrite IH. done.
Qed.

Lemma build_levels_spec fuel c level t : level_ok c level → longest < c + fuel →
  build_levels keys fuel level t = Ok (fold_left write (bfs fuel level) t).
Proof.
  revert c level t. induction fuel as [|fuel IH]; intros c level t Hok Hf.
  - by rewrite (level_ok_deep c level Hok) by lia.
  - destruct level as [|s level]; [cbn; by rewrite bfs_nil|]. cbn [build_levels].
    rewrite build_level_spec by (eapply Forall_impl; [exact Hok|]; by intros x [? _]). cbn [mbind result_bind].
    rewrite (IH (S c)) by (lia || by apply below_ok). cbn [bfs]. by rewrite fold_left_app.
Qed.

Definition node_bits (s : span) : list bool := replicate (length (kids s)) false ++ [true].
Definition bits_of (nodes : list span) : list bool := concat (map node_bits nodes).
Definition labels_of (nodes : list span) : list byte := concat (map (λ s, map fst (kids s)) nodes).

Lemma write_labels nodes t : tr_labels (fold_left write nodes t) = tr_labels t ++ labels_of nodes.
Proof.
  revert t. induction nodes as [|s nodes IH]; intros t; cbn; [by rewrite app_nil_r|]. rewrite IH. cbn. by rewrite app_assoc.
Qed.

(** A bit is set where it was or where a node sets it. *)
Lemma write_leaves nodes t i : bit_at (tr_leaves (fold_left write nodes t)) i =
  bit_at (tr_leaves t) i || ((tr_node t <=? i) && default false (map ends nodes !! (i - tr_node t))).
Proof.
  revert t. induction nodes as [|s nodes IH]; intros t; cbn [fold_left map]; [by rewrite andb_false_r, orb_false_r|].
  rewrite IH. cbn [write write_node tr_leaves tr_node].
  assert (Hb : bit_at (if ends s then setBit (tr_leaves t) (tr_node t) else tr_leaves t) i = bit_at (tr_leaves t) i || ((i =? tr_node t) && ends s)).
  { destruct (ends s); [rewrite bit_at_setBit, andb_true_r; apply orb_comm|by rewrite andb_false_r, orb_false_r]. }
  rewrite Hb, <- orb_assoc. f_equal. destruct (Nat.eqb_spec i (tr_node t)) as [->|Hne].
  - rewrite Nat.sub_diag, Nat.leb_refl, (proj2 (Nat.leb_gt (S (tr_node t)) (tr_node t))) by lia. apply orb_false_r.
  - cbn [andb orb]. destruct (Nat.leb_spec (tr_node t) i); [|by rewrite (proj2 (Nat.leb_gt _ _)) by lia].
    rewrite (proj2 (Nat.leb_le _ _)) by lia. by replace (i - tr_node t) with (S (i - S (tr_node t))) by lia.
Qed.

Lemma write_bitmap nodes t i : bit_at (tr_labelBitmap (fold_left write nodes t)) i =
  bit_at (tr_labelBitmap t) i || ((tr_bit t <=? i) && default false (bits_of nodes !! (i - tr_bit t))).
Proof.
  revert t. induction nodes as [|s nodes IH]; intros t; cbn [fold_left map]; [by rewrite andb_false_r, orb_false_r|].
  rewrite IH. cbn [write write_node tr_labelBitmap tr_bit]. rewrite bit_at_setBit, (orb_comm (i =? _)), <- orb_assoc. f_equal.
  change (bits_of (s :: nodes)) with (node_bits s ++ bits_of nodes). unfold node_bits. rewrite <- app_assoc.
  set (n := length (kids s)). set (p := tr_bit t).
  destruct (Nat.eqb_spec i (p + n)) as [->|Hne].
  - rewrite (proj2 (Nat.leb_le p _)) by lia. rewrite lookup_app_r by (rewrite length_replicate; lia).
    by replace (p + n - p - length (replicate n false)) with 0 by (rewrite length_replicate; lia).
  - cbn [orb]. destruct (Nat.leb_spec (S (p + n)) i).
    + rewrite (proj2 (Nat.leb_le p _)) by lia. rewrite lookup_app_r by (rewrite length_replicate; lia).
      by replace (i - p - length (replicate n false)) with (S (i - S (p + n))) by (rewrite length_replicate; lia).
    + destruct (Nat.leb_spec p i); [|done]. rewrite lookup_app_l by (rewrite length_replicate; lia).
      by rewrite lookup_replicate_2 by lia.
Qed.

Definition trie_ok (t : trie) : Prop :=
  words_ok (tr_leaves t) ∧ words_ok (tr_labelBitmap t) ∧ length (tr_leaves t) ≤ tr_node t ∧ length (tr_labelBitmap t) ≤ tr_bit t.

Lemma write_ok nodes t : trie_ok t → trie_ok (fold_left write nodes t).
Proof.
  revert t. induction nodes as [|s nodes IH]; intros t Ht; [done|]. apply IH. destruct Ht as (H1 & H2 & H3 & H4).
  unfold trie_ok, write, write_node. cbn [tr_leaves tr_labelBitmap tr_node tr_bit]. pose proof (length_setBit (tr_leaves t) (tr_node t)).
  pose proof (length_setBit (tr_labelBitmap t) (tr_bit t + length (kids s))).
  split_and!; [destruct (ends s); [by apply setBit_ok|done]|by apply setBit_ok|destruct (ends s); lia|lia].
Qed.

Lemma write_counts nodes t : tr_node (fold_left write nodes t) = tr_node t + length nodes ∧
  tr_bit (fold_left write nodes t) = tr_bit t + length (labels_of nodes) + length nodes.
Proof.
  revert t. induction nodes as [|s nodes IH]; intros t; cbn; [lia|]. specialize (IH (write t s)) as [-> ->]. cbn.
  unfold labels_of. rewrite length_app, length_map. lia.
Qed.

(** ** What is read *)

Lemma counts_bits nodes : counts (bits_of nodes) 0 = map (λ s, length (kids s)) nodes.
Proof.
  assert (H : ∀ n m l, counts (replicate n false ++ true :: l) m = (m + n) :: counts l 0).
  { induction n as [|n IH]; intros m l; cbn; [by rewrite Nat.add_0_r|]. rewrite IH. f_equal. lia. }
  induction nodes as [|s nodes IH]; [done|]. change (bits_of (s :: nodes)) with (node_bits s ++ bits_of nodes).
  unfold node_bits. rewrite <- app_assoc. cbn [app]. by rewrite H, IH.
Qed.

Lemma length_bits nodes : length (bits_of nodes) = length (labels_of nodes) + length nodes.
Proof.
  induction nodes as [|s nodes IH]; [done|]. unfold bits_of, labels_of in *. cbn. rewrite !length_app, IH.
  unfold node_bits. rewrite length_app, length_replicate, length_map. cbn. lia.
Qed.

Lemma length_below nodes : length (below nodes) = length (labels_of nodes).
Proof. induction nodes as [|s nodes IH]; [done|]. unfold below, labels_of in *. cbn. by rewrite !length_app, !length_map, IH. Qed.

(** The part of a node in the list of all parts. *)
Lemma concat_part {A} (f : span → list A) nodes i s : nodes !! i = Some s →
  ∃ a c, concat (map f nodes) = a ++ f s ++ c ∧ length a = sum_list (take i (map (λ s, length (f s)) nodes)).
Proof.
  revert i. induction nodes as [|x nodes IH]; intros [|i] Hi; try done; cbn in *; simplify_eq.
  - by exists [], (concat (map f nodes)).
  - destruct (IH i Hi) as (a & c & -> & Hl). exists (f x ++ a), c. rewrite <- app_assoc, length_app, Hl. done.
Qed.

Section walk.
Variables (root : span) (nodes : list span) (leaves : list Z).
Hypothesis Hnodes : nodes = root :: below nodes.
Hypothesis Hgood : Forall good nodes.
Hypothesis Hleaves : ∀ i, bit_at leaves i = default false (map ends nodes !! i).

Let edges := map (λ s, length (kids s)) nodes.
Let labels := labels_of nodes.

Lemma kid_node i s k e : nodes !! i = Some s → kids s !! k = Some e → nodes !! S (first_edge edges i + k) = Some e.2.
Proof using Hnodes.
  intros Hi Hk. transitivity (below nodes !! (first_edge edges i + k)); [by rewrite Hnodes at 1|].
  unfold below. destruct (concat_part (λ s, map snd (kids s)) nodes i s Hi) as (a & c & -> & Hl).
  assert (length a = first_edge edges i) as <-.
  { rewrite Hl. unfold first_edge, edges. do 2 f_equal. apply map_ext. intros x. apply length_map. }
  rewrite lookup_app_r by lia. rewrite Nat.add_comm, Nat.add_sub.
  assert (Hk' : map snd (kids s) !! k = Some e.2) by (rewrite list_lookup_fmap, Hk; done).
  rewrite lookup_app_l; [done|]. by apply lookup_lt_Some in Hk'.
Qed.

Lemma node_labels i s : nodes !! i = Some s → take (default 0 (edges !! i)) (drop (first_edge edges i) labels) = map fst (kids s).
Proof.
  intros Hi. unfold labels, labels_of. destruct (concat_part (λ s, map fst (kids s)) nodes i s Hi) as (a & c & -> & Hl).
  assert (length a = first_edge edges i) as <-.
  { rewrite Hl. unfold first_edge, edges. do 2 f_equal. apply map_ext. intros x. apply length_map. }
  rewrite drop_app_length. unfold edges. rewrite list_lookup_fmap, Hi. cbn. by rewrite <- (length_map fst (kids s)), take_app_length.
Qed.

Lemma walk_spec w i s : nodes !! i = Some s → walk leaves edges labels i w = true ↔ covers s w.
Proof using Hnodes Hgood Hleaves.
  revert i s. induction w as [|b w IH]; intros i s Hi; assert (Hg : good s) by (rewrite Forall_forall in Hgood; apply Hgood; by eapply list_elem_of_lookup_2).
  - cbn. rewrite Hleaves, list_lookup_fmap, Hi. by apply ends_spec.
  - cbn [walk]. rewrite kids_spec by done. unfold find_child. rewrite (node_labels i s Hi).
    destruct (list_find _ _) as [[k x]|] eqn:Hf.
    + apply list_find_Some in Hf as (Hk & -> & _). rewrite list_lookup_fmap in Hk.
      destruct (kids s !! k) as [[b' s']|] eqn:Hks; [|done]. cbn in Hk. simplify_eq. rewrite (IH _ s') by exact (kid_node i s k (b, s') Hi Hks). split.
      * intros Hc. exists s'. split; [by eapply list_elem_of_lookup_2|done].
      * intros (s'' & Hin & Hc). apply list_elem_of_lookup in Hin as [k' Hk'].
        assert (k' = k) as ->. { eapply (NoDup_lookup _ _ _ b (kids_distinct s Hg)); rewrite list_lookup_fmap; [by rewrite Hk'|by rewrite Hks]. }
        rewrite Hks in Hk'. by simplify_eq.
    + split; [done|]. intros (s' & Hin & _). apply list_find_None in Hf. rewrite Forall_forall in Hf. destruct (Hf b); [|done].
      apply list_elem_of_fmap. by exists (b, s').
Qed.
End walk.

(** ** The trie of the keys *)

Definition root : span := MkSpan 0 (length keys) 0.
Definition nodes : list span := bfs (S (S longest)) [root].

Hypothesis Hkeys : keys ≠ [].
Hypothesis Hsorted : ∀ i j, i < j → j < length keys → bytes_lt (key_at i) (key_at j).

Lemma root_ok : level_ok 0 [root].
Proof using Hkeys Hsorted.
  constructor; [|constructor]. split; [|done]. unfold good, root. cbn. split_and!; [|lia|lia|].
  - destruct keys; [done|]. cbn. lia.
  - intros i j _ Hij Hj. unfold suffix. rewrite !drop_0. by apply Hsorted.
Qed.

Lemma nodes_levels : nodes = root :: below nodes.
Proof using Hkeys Hsorted. apply (bfs_below (S (S longest)) 0); [apply root_ok|lia]. Qed.

Lemma nodes_good : Forall good nodes.
Proof using Hkeys Hsorted. apply (bfs_good _ 0), root_ok. Qed.

Lemma covers_root w : covers root w ↔ w ∈ keys.
Proof.
  unfold covers, root, suffix, key_at. cbn. split.
  - intros (i & Hi & <-). rewrite drop_0. destruct (lookup_lt_is_Some_2 keys i) as [k Hk]; [lia|]. rewrite Hk. by eapply list_elem_of_lookup_2.
  - intros Hin. apply list_elem_of_lookup in Hin as [i Hi]. exists i. rewrite drop_0, Hi. split; [|done]. apply lookup_lt_Some in Hi. lia.
Qed.

Lemma mass_root : mass root = sum_list_with length keys.
Proof.
  unfold mass, bytes_left, root. cbn. rewrite Nat.sub_0_r.
  assert (H : ∀ l p, keys = p ++ l → sum_list_with (λ i, length (key_at i) - 0) (seq (length p) (length l)) = sum_list_with length l).
  { induction l as [|k l IH]; intros p Hp; [done|]. cbn. specialize (IH (p ++ [k])). rewrite length_app, Nat.add_1_r in IH.
    rewrite IH by (rewrite Hp; by rewrite <- app_assoc). unfold key_at. rewrite Hp, lookup_app_r, Nat.sub_diag by lia. cbn. lia. }
  exact (H keys [] eq_refl).
Qed.

Lemma length_nodes : length nodes ≤ S (sum_list_with length keys).
Proof using Hkeys Hsorted.
  pose proof (bfs_length (S (S longest)) 0 [root] root_ok) as H. cbn [sum_list_with length] in H. rewrite mass_root in H. unfold nodes. lia.
Qed.

Lemma length_labels : length nodes = S (length (labels_of nodes)).
Proof using Hkeys Hsorted. rewrite nodes_levels at 1. cbn [length]. by rewrite length_below. Qed.

Definition trie_of : trie := fold_left write nodes (MkTrie [] [] [] 0 0).

Lemma build_trie_ok : build_trie keys = Ok trie_of.
Proof using Hkeys Hsorted. unfold build_trie. rewrite (build_levels_spec _ 0); [done|apply root_ok|unfold longest; lia]. Qed.

Lemma trie_of_ok : trie_ok trie_of.
Proof. apply write_ok. unfold trie_ok. cbn. split_and!; [constructor|constructor|lia|lia]. Qed.

Lemma bit_at_nil i : bit_at [] i = false.
Proof. unfold bit_at. by rewrite lookup_nil. Qed.

Lemma leaves_bits i : bit_at (tr_leaves trie_of) i = default false (map ends nodes !! i).
Proof. unfold trie_of. rewrite write_leaves. cbn [tr_leaves tr_node]. by rewrite bit_at_nil, Nat.sub_0_r. Qed.

Lemma bitmap_bits : map (bit_at (tr_labelBitmap trie_of)) (seq 0 (2 * length (tr_labels trie_of) + 1)) = bits_of nodes.
Proof using Hkeys Hsorted.
  assert (Hl : 2 * length (tr_labels trie_of) + 1 = length (bits_of nodes)).
  { unfold trie_of. rewrite write_labels, length_bits. cbn [tr_labels app]. pose proof length_labels. lia. }
  rewrite Hl. apply list_eq. intros i. rewrite list_lookup_fmap. destruct (decide (i < length (bits_of nodes))) as [Hi|Hi].
  - rewrite lookup_seq_lt by done. cbn [fmap option_fmap option_map]. unfold trie_of. rewrite write_bitmap. cbn [tr_labelBitmap tr_bit].
    rewrite bit_at_nil, Nat.sub_0_r, Nat.add_0_l. cbn [orb andb Nat.leb]. by destruct (lookup_lt_is_Some_2 _ _ Hi) as [x ->].
  - rewrite lookup_seq_ge, lookup_ge_None_2 by lia. done.
Qed.

(** The walk over what is written accepts the keys. *)
Lemma trie_walk w :
  walk (tr_leaves trie_of) (counts (map (bit_at (tr_labelBitmap trie_of)) (seq 0 (2 * length (tr_labels trie_of) + 1))) 0) (tr_labels trie_of) 0 w = true ↔
  w ∈ keys.
Proof using Hkeys Hsorted.
  rewrite bitmap_bits, counts_bits. unfold trie_of at 2. rewrite write_labels. cbn [tr_labels app].
  rewrite (walk_spec root nodes _ nodes_levels nodes_good leaves_bits w 0 root) by (by rewrite nodes_levels). apply covers_root.
Qed.

(** ** The bytes *)

Section bytes.
Context `{Varbin}.
Hypothesis Hvarbin : ∀ n, (0 <= n < 2 ^ 64)%Z → varbin_WriteUvarint n = PutUvarint n.
Hypothesis Hsmall : (Z.of_nat (sum_list_with length keys) < 2 ^ 31 - 1)%Z.

Lemma build_read : ∃ b, build keys = Ok b ∧ read_set b = Ok (tr_leaves trie_of, tr_labelBitmap trie_of, tr_labels trie_of).
Proof using Hkeys Hsorted Hvarbin Hsmall.
  unfold build. rewrite build_trie_ok. cbn [mbind result_bind]. eexists. split; [done|].
  destruct trie_of_ok as (Hlv & Hbm & Hlvl & Hbml). pose proof (write_counts nodes (MkTrie [] [] [] 0 0)) as [Hn Hb]. fold trie_of in Hn, Hb.
  cbn [tr_node tr_bit] in Hn, Hb. pose proof length_nodes. pose proof length_labels.
  assert (Hlab : length (tr_labels trie_of) = length (labels_of nodes)) by (unfold trie_of; by rewrite write_labels).
  unfold read_set. rewrite read_byte_z2b by lia. cbn [mbind result_bind].
  rewrite (read_words_write Hvarbin); [|done|lia]. cbn [mbind result_bind]. rewrite (read_words_write Hvarbin); [|done|lia]. cbn [mbind result_bind].
  rewrite (write_length Hvarbin), ReadUvarint_Put by lia. cbn [mbind result_bind]. rewrite Nat2Z.id.
  pose proof (io_ReadFull_app (tr_labels trie_of) []) as Hf. rewrite app_nil_r in Hf. by rewrite Hf.
Qed.

Lemma build_accepts : ∃ b, build keys = Ok b ∧ ∀ w, accepts b w = true ↔ w ∈ keys.
Proof using Hkeys Hsorted Hvarbin Hsmall.
  destruct build_read as (b & Hb & Hr). exists b. split; [done|]. intros w. unfold accepts. rewrite Hr. apply trie_walk.
Qed.
End bytes.
End trie.

(** ** The keys of the names *)

#[local] Instance bytes_le_trans : Transitive bytes_le.
Proof.
  intros a. unfold bytes_le. induction a as [|x a IH]; intros [|y b] [|z c]; cbn; try done.
  destruct (Z.ltb_spec (b2z x) (b2z y)), (Z.ltb_spec (b2z y) (b2z z)), (Z.ltb_spec (b2z x) (b2z z)); try done; try lia;
    destruct (Z.eqb_spec (b2z x) (b2z y)), (Z.eqb_spec (b2z y) (b2z z)), (Z.eqb_spec (b2z x) (b2z z)); try done; try lia. apply IH.
Qed.

#[local] Instance bytes_le_total : Total bytes_le.
Proof.
  intros a. unfold bytes_le. induction a as [|x a IH]; intros [|y b]; cbn; [by left|by left|by right|].
  destruct (Z.ltb_spec (b2z x) (b2z y)), (Z.ltb_spec (b2z y) (b2z x)); try lia.
  rewrite (proj2 (Z.eqb_eq (b2z x) (b2z y))), (proj2 (Z.eqb_eq (b2z y) (b2z x))) by lia. apply IH.
Qed.

Lemma bytes_le_antisymm a b : bytes_le a b → bytes_le b a → a = b.
Proof.
  unfold bytes_le. revert b. induction a as [|x a IH]; intros [|y b]; cbn; try done.
  destruct (Z.ltb_spec (b2z x) (b2z y)), (Z.ltb_spec (b2z y) (b2z x)); try lia; intros H1 H2.
  - destruct (Z.eqb_spec (b2z y) (b2z x)); [lia|done].
  - destruct (Z.eqb_spec (b2z x) (b2z y)); [lia|done].
  - destruct (Z.eqb_spec (b2z x) (b2z y)) as [E|]; [|done]. rewrite (proj2 (Z.eqb_eq (b2z y) (b2z x))) in H2 by lia.
    apply b2z_inj in E as ->. f_equal. by apply IH.
Qed.

Lemma elem_of_compact x l : x ∈ compact l ↔ x ∈ l.
Proof.
  induction l as [|y l IH]; [done|]. cbn. rewrite elem_of_cons, <- IH. destruct (compact l) as [|z l']; [set_solver|].
  case_bool_decide; set_solver.
Qed.

Lemma compact_sorted l : StronglySorted bytes_le l → StronglySorted bytes_lt (compact l).
Proof.
  induction 1 as [|x l Hl IH Hx]; [constructor|]. cbn. destruct (compact l) as [|y l'] eqn:E; [by repeat constructor|].
  case_bool_decide as Hxy; [done|]. constructor; [done|]. apply Forall_forall. intros z Hz.
  assert (Hle : bytes_le x z). { rewrite Forall_forall in Hx. apply Hx, elem_of_compact. by rewrite E. }
  split; [done|]. intros <-. apply elem_of_cons in Hz as [|Hz]; [done|].
  apply StronglySorted_inv in IH as [_ Hy]. rewrite Forall_forall in Hy. destruct (Hy x Hz) as [Hyx _]. apply Hxy.
  assert (bytes_le x y) as Hxy'. { rewrite Forall_forall in Hx. apply Hx, elem_of_compact. rewrite E. by left. }
  by apply bytes_le_antisymm.
Qed.

Lemma compact_size l : (sum_list_with length (compact l) ≤ sum_list_with length l)%nat.
Proof.
  induction l as [|x l IH]; [done|]. cbn. destruct (compact l) as [|y l']; [cbn in *; lia|]. case_bool_decide; cbn in *; lia.
Qed.

Lemma StronglySorted_at l i j : StronglySorted bytes_lt l → (i < j)%nat → (j < length l)%nat → bytes_lt (key_at l i) (key_at l j).
Proof.
  intros Hs. revert i j. induction Hs as [|x l _ IH Hx]; intros i [|j] Hi Hj; cbn in *; try lia. destruct i as [|i].
  - rewrite Forall_forall in Hx. apply Hx. change (key_at l j ∈ l). unfold key_at. destruct (lookup_lt_is_Some_2 l j) as [k Hk]; [lia|]. rewrite Hk. by eapply list_elem_of_lookup_2.
  - apply (IH i j); lia.
Qed.

(** Names of ASCII characters are reversed byte by byte. *)
Definition ascii_name (name : list byte) : Prop := name ≠ [] ∧ Forall (λ b, b2z b < 128) name.

Lemma reverse_loop_ascii name front tail : Forall (λ b, b2z b < 128) name → length front = length name →
  reverse_loop (length name) name (length name) (front ++ tail) = Ok (rev name ++ tail).
Proof.
  intros Hname. revert front tail. induction Hname as [|b name Hb Hname IH]; intros front tail Hl; [by destruct front|].
  assert (Hr : rune_length (b :: name) = Some 1%nat).
  { cbn. unfold between. pose proof (b2z_bound b). rewrite (proj2 (Z.leb_le 0 _)), (proj2 (Z.leb_le _ 0x7F)) by lia. done. }
  cbn [length reverse_loop]. rewrite Hr. unfold encode_at. cbn [take drop]. rewrite take_0, drop_0. cbn [length] in Hl |- *.
  replace (S (length name) - 1)%nat with (length name) by lia.
  rewrite (proj2 (Nat.ltb_ge _ _)) by (rewrite length_app; lia). cbn [mbind result_bind].
  rewrite (take_app_le front), (drop_app_ge front) by lia. replace (length name + 1 - length front)%nat with 0%nat by lia. rewrite drop_0.
  change ([b] ++ tail) with (b :: tail). rewrite IH; [|rewrite length_take; lia]. cbn [rev]. by rewrite <- app_assoc.
Qed.

Lemma domain_reverse_ascii name : Forall (λ b, b2z b < 128) name → domain_reverse name = Ok (rev name).
Proof.
  intros Hname. unfold domain_reverse. rewrite <- (app_nil_r (repeat _ _)). rewrite reverse_loop_ascii; [by rewrite app_nil_r|done|apply repeat_length].
Qed.

(** The key of a suffix: a mark is put before it. *)
Definition marked (name : list byte) : list byte :=
  (if bool_decide (head name = Some x2e) then prefixLabel else rootLabel) :: name.

Definition size_of (names : list (list byte)) : nat := sum_list_with (λ name, S (length name)) names.

Lemma suffix_key name : ascii_name name →
  (first ← byte_at name 0; domain_reverse ((if first =? b2z x2e then prefixLabel else rootLabel) :: name)) = Ok (rev (marked name)).
Proof.
  intros [Hne Ha]. destruct name as [|b name]; [done|]. rewrite (byte_at_lookup _ 0 b) by done. cbn [mbind result_bind].
  assert ((b2z b =? b2z x2e) = bool_decide (head (b :: name) = Some x2e)) as ->.
  { cbn [head]. apply eq_true_iff_eq. rewrite Z.eqb_eq, bool_decide_eq_true. split; [by intros ->%b2z_inj|by intros [= ->]]. }
  unfold marked. apply domain_reverse_ascii. constructor; [by case_bool_decide|done].
Qed.

Lemma suffix_keys_spec names seen : Forall ascii_name names → ∃ l seen', suffix_keys names seen = Ok (l, seen') ∧
  (∀ n, n ∈ seen' ↔ n ∈ seen ∨ n ∈ names) ∧ (∀ k, k ∈ l ↔ ∃ s, s ∈ names ∧ s ∉ seen ∧ k = rev (marked s)) ∧
  (sum_list_with length l ≤ size_of names)%nat.
Proof.
  intros Hn. revert seen. induction Hn as [|name names Hname Hn IH]; intros seen; cbn [suffix_keys].
  { exists [], seen. split; [done|]. set_solver. }
  case_bool_decide as Hs.
  - destruct (IH seen) as (l & seen' & -> & H1 & H2 & H3). exists l, seen'. split; [done|]. split; [set_solver|]. split; [set_solver|]. unfold size_of in *. cbn. lia.
  - pose proof (suffix_key name Hname) as Hk. destruct (byte_at name 0) as [first| |]; [|done..]. cbn [mbind result_bind] in *. rewrite Hk. cbn [mbind result_bind].
    destruct (IH (name :: seen)) as (l & seen' & -> & H1 & H2 & H3). cbn [mbind result_bind]. eexists _, seen'. split; [done|]. split; [set_solver|]. split.
    + intros k. rewrite elem_of_cons, H2. split; [set_solver|]. intros (s & Hin & Hns & ->). destruct (decide (s = name)) as [->|]; [by left|right; set_solver].
    + unfold size_of in *. cbn [sum_list_with]. rewrite length_rev. unfold marked. cbn [length]. lia.
Qed.

Lemma domain_keys_spec names seen : Forall ascii_name names → ∃ l, domain_keys names seen = Ok l ∧
  (∀ k, k ∈ l ↔ ∃ d, d ∈ names ∧ d ∉ seen ∧ k = rev d) ∧ (sum_list_with length l ≤ size_of names)%nat.
Proof.
  intros Hn. revert seen. induction Hn as [|name names Hname Hn IH]; intros seen; cbn [domain_keys].
  { exists []. split; [done|]. set_solver. }
  case_bool_decide as Hs.
  - destruct (IH seen) as (l & -> & H2 & H3). exists l. split; [done|]. split; [set_solver|]. unfold size_of in *. cbn. lia.
  - rewrite domain_reverse_ascii by apply Hname. cbn [mbind result_bind].
    destruct (IH (name :: seen)) as (l & -> & H2 & H3). cbn [mbind result_bind]. eexists. split; [done|]. split.
    + intros k. rewrite elem_of_cons, H2. split; [set_solver|]. intros (s & Hin & Hns & ->). destruct (decide (s = name)) as [->|]; [by left|right; set_solver].
    + unfold size_of in *. cbn. rewrite length_rev. lia.
Qed.

Lemma set_keys_spec domains domainSuffix : Forall ascii_name domains → Forall ascii_name domainSuffix → ∃ l, set_keys domains domainSuffix = Ok l ∧
  StronglySorted bytes_lt l ∧ (sum_list_with length l ≤ size_of domains + size_of domainSuffix)%nat ∧
  ∀ k, k ∈ l ↔ (∃ s, s ∈ domainSuffix ∧ k = rev (marked s)) ∨ (∃ d, d ∈ domains ∧ d ∉ domainSuffix ∧ k = rev d).
Proof.
  intros Hd Hs. unfold set_keys. destruct (suffix_keys_spec domainSuffix [] Hs) as (l1 & seen & -> & H1 & H2 & H3). cbn [mbind result_bind].
  destruct (domain_keys_spec domains seen Hd) as (l2 & -> & H4 & H5). cbn [mbind result_bind]. eexists. split; [done|]. split_and!.
  - apply compact_sorted, StronglySorted_merge_sort; apply _.
  - etrans; [apply compact_size|]. rewrite merge_sort_Permutation, sum_list_with_app. lia.
  - intros k. rewrite elem_of_compact, merge_sort_Permutation, elem_of_app, H2, H4. set_solver.
Qed.

Lemma set_keys_nonempty domains domainSuffix : domains ++ domainSuffix ≠ [] →
  (∀ k, (∃ s, s ∈ domainSuffix ∧ k = rev (marked s)) ∨ (∃ d, d ∈ domains ∧ d ∉ domainSuffix ∧ k = rev d) → k ∈ []) → False.
Proof.
  intros Hne Hin. destruct domainSuffix as [|s l].
  - destruct domains as [|d domains]; [done|]. assert (rev d ∈ []) as H; [|set_solver]. apply Hin. right. exists d. set_solver.
  - assert (rev (marked s) ∈ []) as H; [|set_solver]. apply Hin. left. exists s. split; [by left|done].
Qed.

(** ** The set of a matcher *)

(** C23 Names that are not empty, of ASCII characters and less than 2^31 bytes together, give a
    domain set without a panic; read back, its trie accepts, by a walk from the root along the
    bytes of a word, exactly the reversed names: of every suffix, behind its mark, and of every
    domain that is not a suffix as well. *)
Theorem domain_set_accepts `{Varbin} domains domainSuffix :
  (∀ n, 0 <= n < 2 ^ 64 → varbin_WriteUvarint n = PutUvarint n) →
  Forall ascii_name domains → Forall ascii_name domainSuffix → domains ++ domainSuffix ≠ [] →
  Z.of_nat (size_of domains + size_of domainSuffix) < 2 ^ 31 - 1 →
  ∃ b, encode domains domainSuffix = Ok b ∧ ∀ w, accepts b w = true ↔
    (∃ s, s ∈ domainSuffix ∧ w = rev (marked s)) ∨ (∃ d, d ∈ domains ∧ d ∉ domainSuffix ∧ w = rev d).
Proof.
  intros Hvarbin Hd Hs Hne Hsize. destruct (set_keys_spec domains domainSuffix Hd Hs) as (l & Hl & Hsorted & Hlen & Hin).
  assert (Hl0 : l ≠ []). { intros ->. exact (set_keys_nonempty domains domainSuffix Hne (λ k, proj2 (Hin k))). }
  destruct (build_accepts l Hl0 (λ i j, StronglySorted_at l i j Hsorted) Hvarbin ltac:(lia)) as (b & Hb & Hacc).
  exists b. unfold encode. rewrite Hl. split; [done|]. intros w. rewrite Hacc. apply Hin.
Qed.

Lemma domain_set_accepts_witness :
  let domains := map bytes_of_string ["a.com"; "ab.com"; "b.net"]%string in
  let suffixes := map bytes_of_string ["b.net"; ".org"]%string in
  ∃ b, @encode c_varbin domains suffixes = Ok b ∧ length b = 38%nat ∧ accepts b (rev (bytes_of_string "ab.com")) = true ∧
    accepts b (rev (bytes_of_string "b.com")) = false ∧ accepts b (rev (bytes_of_string "b.net")) = false ∧
    accepts b (rev (marked (bytes_of_string "b.net"))) = true.
Proof.
  intros domains suffixes. destruct (@domain_set_accepts c_varbin domains suffixes) as (b & Hb & Hacc).
  - done.
  - repeat (apply Forall_cons; split); try apply Forall_nil_2; (split; [done|]); apply (bool_decide_unpack _); by vm_compute.
  - repeat (apply Forall_cons; split); try apply Forall_nil_2; (split; [done|]); apply (bool_decide_unpack _); by vm_compute.
  - done.
  - by vm_compute.
  - exists b. split; [done|]. split; [|split_and!].
    + vm_compute in Hb. injection Hb as <-. by vm_compute.
    + apply Hacc. right. exists (bytes_of_string "ab.com"). split_and!; [by apply (bool_decide_unpack _); vm_compute..|done].
    + vm_compute in Hb. injection Hb as <-. by vm_compute.
    + vm_compute in Hb. injection Hb as <-. by vm_compute.
    + apply Hacc. left. exists (bytes_of_string "b.net"). split; [by apply (bool_decide_unpack _); vm_compute|done].
Defined.
