(* ===== verification/AdGuard.v ===== *)
(** * AdGuard filters: common/convertor/adguard and the convert command

    A list of AdGuard DNS filters is parsed line by line, sorted into the eight kinds of lines
    and made into one headless rule; [FromOptions] turns such a rule into lines again. The
    command writes the rule to a rule-set file. What is logged is left out. *)
From Stdlib Require Import Strings.Ascii Strings.Byte.
From stdpp Require Import base list strings pretty gmap.
From S2P Require Import Prelude Netip Metadata RuleItems RuleAction RuleOptions Srs Group.

(** Of sing: [M.IsDomainName], [M.ParseAddr], and [common.SubstringBefore] and [SubstringAfter]. *)
Class AdGuardLibs : Type := {
  M_IsDomainName : string → bool;
  M_ParseAddr : string → Addr;
  common_SubstringBefore : string → string → string;
  common_SubstringAfter : string → string → string;
}.

(** ** Strings and addresses *)

Definition strings_TrimSuffix (s suffix : string) : string :=
  if strings_HasSuffix s suffix then str_take (String.length s - String.length suffix) s else s.

(** [strings.Cut] *)
Definition strings_Cut (s sep : string) : option (string * string) :=
  match strings_Index s sep with
  | Some i => Some (str_take i s, str_drop (i + String.length sep) s)
  | None => None
  end.

(** [s[from:to]] *)
Definition str_slice (s : string) (from to : Z) : result string :=
  if (0 <=? from) && (from <=? to) && (to <=? Z.of_nat (String.length s))
  then Ok (String.substring (Z.to_nat from) (Z.to_nat (to - from)) s)
  else Panic "slice bounds out of range".

Definition Addr_IsUnspecified (a : Addr) : bool := bool_decide (a = Addr4 0) || bool_decide (a = Addr6 0 "").

(** [bufio.Scanner] with [ScanLines]: a line of 64 KiB or more ends the scan, with an error that
    nobody asks for. *)
Definition newline : Ascii.ascii := "010"%char.
Definition MaxScanTokenSize : Z := 65536.
Fixpoint scan_lines (parts : list string) : list string :=
  match parts with
  | [] => []
  | part :: parts =>
      if MaxScanTokenSize <=? Z.of_nat (String.length part) then []
      else match parts with
           | [] => if nonempty part then [strings_TrimSuffix part (String "013" "")] else []
           | _ :: _ => strings_TrimSuffix part (String "013" "") :: scan_lines parts
           end
  end.
Definition scanned (content : string) : list string := scan_lines (split_byte newline content).

(** ** Lines *)

Record agdguardRuleLine : Type := MkRuleLine {
  ruleLine : string;
  isRawDomain : bool;
  isExclude : bool;
  isSuffix : bool;
  hasStart : bool;
  hasEnd : bool;
  isRegexp : bool;
  isImportant : bool;
}.

Section AdGuard.
Context `{AdGuardLibs}.

(** [ignoreIPCIDRRegexp] *)
Definition ignoreIPCIDRRegexp (line : string) : bool :=
  let line :=
    if strings_HasPrefix line "(http?:\/\/)" then str_drop 12 line
    else if strings_HasPrefix line "(https?:\/\/)" then str_drop 13 line
    else if strings_HasPrefix line "^" then str_drop 1 line
    else line in
  is_set (strconv_ParseUint (common_SubstringBefore line "\.") 8) || is_set (strconv_ParseUint (common_SubstringBefore line ".") 8).

(** [parseAdGuardHostLine]: the name of a line of a hosts file, none if it has an address *)
Definition parseAdGuardHostLine (line : string) : result string :=
  match strings_Cut line " " with
  | None => Err (ENamed "invalid argument")
  | Some (before, after) =>
      match netip_ParseAddr before with
      | None => Err (ENamed "ParseAddr")
      | Some address =>
          if negb (Addr_IsUnspecified address) then Ok ""%string
          else if negb (M_IsDomainName after) then Err (ENew ("invalid domain name: " +:+ after)%string)
          else Ok after
      end
  end.

(** [parseADGuardIPCIDRLine]; what it returns decides only what is logged. *)
Fixpoint parse_parts (parts : list string) : result (list Z) :=
  match parts with
  | [] => Ok []
  | part :: parts =>
      match strconv_ParseUint part 8 with
      | None => Err (ENamed "ParseUint")
      | Some v => l ← parse_parts parts; Ok (v :: l)
      end
  end.
Definition parseADGuardIPCIDRLine (line : string) : result Prefix :=
  let isPrefix := strings_HasSuffix line "." in
  let line := if isPrefix then str_take (String.length line - 1) line else line in
  let parts := split_byte "." line in
  if (4 <? length parts)%nat || ((length parts <? 4)%nat && negb isPrefix) then Err (ENamed "invalid argument")
  else
    ruleParts ← parse_parts parts;
    let bitLen := Z.of_nat (length ruleParts) * 8 in
    let ruleParts := ruleParts ++ repeat 0 (4 - length ruleParts) in
    Ok (PrefixFrom (Addr4 (fold_left (λ v b, v * 256 + b) ruleParts 0)) bitLen).

(** A modifier behind [$]: none if it makes the line be ignored, otherwise whether it is
    [important]. *)
Definition parse_param (param : string) : option bool :=
  match split_byte "=" param with
  | [name] => if bool_decide (name = "important"%string) then Some true else None
  | [name; value] =>
      if bool_decide (name = "important"%string) then Some true
      else if bool_decide (name = "dnsrewrite"%string) && Addr_IsUnspecified (M_ParseAddr value) then Some false
      else None
  | _ => None
  end.
Fixpoint parse_params (params : list string) (important : bool) : option bool :=
  match params with
  | [] => Some important
  | param :: params => match parse_param param with Some i => parse_params params (important || i) | None => None end
  end.

(** The modifiers of a line, and the line without them. *)
Definition parse_modifiers (line : string) : option (string * bool) :=
  if negb (strings_HasPrefix line "/") && strings_Contains line "$" then
    match parse_params (split_byte "," (common_SubstringAfter line "$")) false with
    | Some important => Some (common_SubstringBefore line "$", important)
    | None => None
    end
  else Some (line, false).

(** Whether a pattern that is not a regular expression is one of a name. *)
Definition contains_any (line : string) (l : list string) : bool := existsb (strings_Contains line) l.
Definition pattern_ok (line : string) : bool :=
  negb (contains_any line ["/"; "?"; "&"; "["; "]"; "("; ")"; "!"; "#"; "~"]%string) && nonempty line &&
  M_IsDomainName (string_map (λ c, if bool_decide (c = "*"%char) then "x"%char else c)
    (if strings_HasPrefix line "." || strings_HasPrefix line "-" then ("r" +:+ line)%string else line)).

(** A line that is neither empty nor a comment: ignored and counted, passed over, or a rule. *)
Inductive parsed_line : Type :=
| LineIgnored
| LineSkipped
| LineRule (l : agdguardRuleLine).

(** The line without its modifiers. *)
Definition parse_pattern (line : string) (important : bool) : result parsed_line :=
  let exclude := strings_HasPrefix line "@@" in
  let line := if exclude then str_drop 2 line else line in
  let line := strings_TrimSuffix line "|" in
  let suffix := strings_HasPrefix line "||" in
  let start := negb suffix && strings_HasPrefix line "|" in
  let line := if suffix then str_drop 2 line else if start then str_drop 1 line else line in
  let ends := strings_HasSuffix line "^" in
  let line := if ends then str_take (String.length line - 1) line else line in
  if strings_HasPrefix line "/" && strings_HasSuffix line "/" then
    line ← str_slice line 1 (Z.of_nat (String.length line) - 1);
    if ignoreIPCIDRRegexp line then Ok LineIgnored
    else Ok (LineRule (MkRuleLine line false exclude suffix start ends true important))
  else
    let scheme := strings_Contains line "://" in
    let line := if scheme then common_SubstringAfter line "://" else line in
    if pattern_ok line then Ok (LineRule (MkRuleLine line false exclude (suffix || scheme) start ends false important))
    else Ok LineIgnored.

Definition parse_line (line : string) : result parsed_line :=
  if negb (nonempty line) || strings_HasPrefix line "!" || strings_HasPrefix line "#" then Ok LineSkipped
  else if M_IsDomainName line then Ok (LineRule (MkRuleLine line true false false false false false false))
  else
    match parseAdGuardHostLine line with
    | Ok hostLine => Ok (if nonempty hostLine then LineRule (MkRuleLine hostLine true false false true true false false) else LineSkipped)
    | Panic m => Panic m
    | Err _ =>
        match parse_modifiers (strings_TrimSuffix line "|") with
        | None => Ok LineIgnored
        | Some (line, important) => parse_pattern line important
        end
    end.

Fixpoint parse_lines (lines : list string) : result (list agdguardRuleLine) :=
  match lines with
  | [] => Ok []
  | line :: lines =>
      p ← parse_line line;
      l ← parse_lines lines;
      Ok (match p with LineRule r => r :: l | _ => l end)
  end.
End AdGuard.

(** ** Rules *)

(** [mapDomain] *)
Definition mapDomain (it : agdguardRuleLine) : string :=
  let line := if isSuffix it then ("||" +:+ ruleLine it)%string else if hasStart it then ("|" +:+ ruleLine it)%string else ruleLine it in
  if hasEnd it then (line +:+ "^")%string else line.

(** The lines of a kind: important or not, regular expressions or not, exclusions or not. *)
Definition of_kind (important regexp exclude : bool) (it : agdguardRuleLine) : bool :=
  eqb (isImportant it) important && eqb (isRegexp it) regexp && eqb (isExclude it) exclude.
Definition kind (important regexp exclude : bool) (lines : list agdguardRuleLine) : list string :=
  map mapDomain (List.filter (of_kind important regexp exclude) lines).

Section Options.
Context `{Extern}.

(** A default rule with [AdGuardDomain], [DomainRegex] and [Invert]; [common.Map] makes lists
    that are not nil. *)
Definition adguard_default (domain domainRegex : list string) (invert : bool) : HeadlessRuleOptions :=
  MkHeadlessRuleOptions "default"
    (MkHeadlessOptions None None None None None (Some domainRegex) None None None None None None None None None
       None None None false false None None None None invert None None None (Some domain) None)
    "" [] false.
Definition adguard_logical (mode : string) (first second : HeadlessRuleOptions) : HeadlessRuleOptions :=
  MkHeadlessRuleOptions "logical" (HeadlessOptionsZero false) mode [first; second] false.

(** A rule around the current one, if there are lines for it. *)
Definition wrap_rule (mode : string) (domain domainRegex : list string) (invert : bool) (current : HeadlessRuleOptions) : HeadlessRuleOptions :=
  if has_items domain || has_items domainRegex then adguard_logical mode (adguard_default domain domainRegex invert) current
  else current.

Definition raw_rule (lines : list agdguardRuleLine) : HeadlessRuleOptions :=
  MkHeadlessRuleOptions "default"
    (MkHeadlessOptions None None (Some (map ruleLine lines)) None None None None None None None None None None None None
       None None None false false None None None None false None None None None None)
    "" [] false.

Definition lines_rule (lines : list agdguardRuleLine) : HeadlessRuleOptions :=
  if forallb isRawDomain lines then raw_rule lines
  else
    wrap_rule "and" (kind true false true lines) (kind true true true lines) true
      (wrap_rule "or" (kind true false false lines) (kind true true false lines) false
        (wrap_rule "and" (kind false false true lines) (kind false true true lines) true
          (adguard_default (kind false false false lines) (kind false true false lines) false))).

Definition ToOptions `{AdGuardLibs} (content : string) : result (list HeadlessRuleOptions) :=
  lines ← parse_lines (scanned content);
  if negb (has_items lines) then Err (ENew "AdGuard rule-set is empty or all rules are unsupported")
  else Ok [lines_rule lines].

(** ** Lines of rules *)

Definition adguard_ErrInvalid : error := ENew "invalid binary AdGuard rule-set".

Record adguard_lists : Type := MkAdGuardLists {
  al_importantDomain : list string;
  al_importantDomainRegex : list string;
  al_importantExcludeDomain : list string;
  al_importantExcludeDomainRegex : list string;
  al_domain : list string;
  al_domainRegex : list string;
  al_excludeDomain : list string;
  al_excludeDomainRegex : list string;
}.
Definition no_lists : adguard_lists := MkAdGuardLists [] [] [] [] [] [] [] [].

(** The options of a rule that is a default rule *)
Definition default_options (rule : HeadlessRuleOptions) : option DefaultHeadlessRuleOptions :=
  match rule with MkHeadlessRuleOptions ty d _ _ _ => if bool_decide (ty = "default"%string) then Some d else None end.

(** A logical rule around the rest: the lists with what it excludes or what is important. *)
Definition unwrap_rule (mode : string) (first : DefaultHeadlessRuleOptions) (l : adguard_lists) : result adguard_lists :=
  let domain := elems (h_AdGuardDomain first) in
  let domainRegex := elems (h_DomainRegex first) in
  let filled := has_items domain || has_items domainRegex in
  if bool_decide (mode = "and"%string) && h_Invert first then
    if negb (has_items (al_importantExcludeDomain l)) && negb (has_items (al_importantExcludeDomainRegex l)) then
      if filled then Ok (MkAdGuardLists (al_importantDomain l) (al_importantDomainRegex l) domain domainRegex (al_domain l) (al_domainRegex l) (al_excludeDomain l) (al_excludeDomainRegex l))
      else Err adguard_ErrInvalid
    else
      if filled then Ok (MkAdGuardLists (al_importantDomain l) (al_importantDomainRegex l) (al_importantExcludeDomain l) (al_importantExcludeDomainRegex l) (al_domain l) (al_domainRegex l) domain domainRegex)
      else Err adguard_ErrInvalid
  else if bool_decide (mode = "or"%string) && negb (h_Invert first) then
    if filled then Ok (MkAdGuardLists domain domainRegex (al_importantExcludeDomain l) (al_importantExcludeDomainRegex l) (al_domain l) (al_domainRegex l) (al_excludeDomain l) (al_excludeDomainRegex l))
    else Err adguard_ErrInvalid
  else Err adguard_ErrInvalid.

(** The loop; for a rule of another type it does not end, [None]. *)
Fixpoint unwrap (rule : HeadlessRuleOptions) (l : adguard_lists) : option (result adguard_lists) :=
  match rule with
  | MkHeadlessRuleOptions ty d mode rules _ =>
      if bool_decide (ty = "logical"%string) then
        match rules with
        | [first; second] =>
            match default_options first with
            | None => Some (Err adguard_ErrInvalid)
            | Some first =>
                match unwrap_rule mode first l with
                | Ok l => unwrap second l
                | Err e => Some (Err e)
                | Panic m => Some (Panic m)
                end
            end
        | _ => Some (Err adguard_ErrInvalid)
        end
      else if bool_decide (ty = "default"%string) then
        let domain := elems (h_AdGuardDomain d) in
        let domainRegex := elems (h_DomainRegex d) in
        Some (if has_items domain || has_items domainRegex
              then Ok (MkAdGuardLists (al_importantDomain l) (al_importantDomainRegex l) (al_importantExcludeDomain l) (al_importantExcludeDomainRegex l) domain domainRegex (al_excludeDomain l) (al_excludeDomainRegex l))
              else Err adguard_ErrInvalid)
      else None
  end.

(** A list of lines with what stands before and behind each of them. *)
Definition print_lines (before after : string) (l : list string) : string :=
  String.concat "" (map (λ line, before +:+ line +:+ after +:+ String newline "")%string l).
Definition print_lists (l : adguard_lists) : string :=
  String.concat "" [
    print_lines "" "$important" (al_importantDomain l); print_lines "/" "/$important" (al_importantDomainRegex l);
    print_lines "@@" "$important" (al_importantExcludeDomain l); print_lines "@@/" "/$important" (al_importantExcludeDomainRegex l);
    print_lines "" "" (al_domain l); print_lines "/" "/" (al_domainRegex l);
    print_lines "@@" "" (al_excludeDomain l); print_lines "@@/" "/" (al_excludeDomainRegex l)].
Definition FromOptions (rules : list HeadlessRuleOptions) : option (result string) :=
  match rules with
  | [rule] =>
      match unwrap rule no_lists with
      | Some (Ok l) => Some (Ok (print_lists l))
      | Some (Err e) => Some (Err e)
      | Some (Panic m) => Some (Panic m)
      | None => None
      end
  | _ => Some (Err adguard_ErrInvalid)
  end.

(** ** The command: cmd_rule_set_convert.go *)

Definition RuleSetVersion2 : Z := 2.
(** [convertRuleSet] of a list of type [adguard]: the bytes of the file *)
Definition convertRuleSet `{AdGuardLibs, Varbin} (content : string) : result (list byte) :=
  rules ← ToOptions content; Write rules RuleSetVersion2.
End Options.
