(* ===== verification/AdGuardFacts.v ===== *)
(** * What a converted AdGuard list blocks

    The rule that the convert command writes for a list of filters, read from its file and
    built, matches the requests that the lines of the list block: [blocks] is the meaning of
    the lines, from the strongest to the weakest kind. A list in which no line blocks without
    being important is converted to a file that is refused. *)
From Stdlib Require Import Strings.Ascii Strings.String.
From stdpp Require Import base list strings pretty gmap.
From S2P Require Import Prelude Netip Metadata RuleItems RuleAction RuleMatch RuleSpec RuleRefine Concrete RuleTheorems RuleOptions RuleBuild RuleBuildFacts Srs SrsCodec SrsFacts SrsTheorems Group AdGuard.

(** ** What lines mean *)

Section Spec.
Context `{Extern}.

Definition pattern_matches (line : string) (host : string) : bool := AdGuardMatcher_Match (domain_NewAdGuardMatcher [line]) host.
Definition regexp_matches (expression : string) (host : string) : bool :=
  match regexp_Compile expression with Ok re => Regexp_MatchString re host | _ => false end.

(** A line matches the name of a request. *)
Definition line_matches (req : InboundContext) (it : agdguardRuleLine) : bool :=
  nonempty (domainHost req) &&
  (if isRegexp it then regexp_matches else pattern_matches) (mapDomain it) (strings_ToLower (domainHost req)).

Definition some_line (important exclude : bool) (lines : list agdguardRuleLine) (p : agdguardRuleLine → bool) : bool :=
  existsb (λ it, eqb (isImportant it) important && eqb (isExclude it) exclude && p it) lines.

(** An important exclusion is stronger than an important line, that is stronger than an
    exclusion, and that than any other line. Names alone stand for themselves. *)
Definition blocks (lines : list agdguardRuleLine) (req : InboundContext) : bool :=
  if forallb isRawDomain lines then
    nonempty (domainHost req) && Matcher_Match (domain_NewMatcher (map ruleLine lines) [] false) (strings_ToLower (domainHost req))
  else
    negb (some_line true true lines (line_matches req)) &&
    (some_line true false lines (line_matches req) ||
     negb (some_line false true lines (line_matches req)) && some_line false false lines (line_matches req)).

(** A list that can be loaded: of names, or with a line that blocks and is not important. *)
Definition loadable (lines : list agdguardRuleLine) : bool :=
  forallb isRawDomain lines || some_line false false lines (λ _, true).
End Spec.

(** ** Rules that are written, read and built *)

Section Rules.
Context `{SrsLaws}.
Variable newMatcher : list string → list string → result Matcher.
Variable networkManager : bool.
Hypothesis Hmatcher : ∀ lines host, AdGuardMatcher_Match (domain_NewAdGuardMatcher lines) host = existsb (λ line, pattern_matches line host) lines.

Abbreviation build_rule := (NewHeadlessRule newMatcher networkManager).

Definition written (o : HeadlessRuleOptions) : Prop := is_ok (writeRule o RuleSetVersion2).

(** The rule is valid when it is read, and built it holds for the requests of [f]. *)
Definition loads (o : HeadlessRuleOptions) (f : InboundContext → bool) : Prop :=
  HeadlessRule_IsValid (decoded false RuleSetVersion2 o) = Ok true ∧
  ∃ rule, build_rule (decoded false RuleSetVersion2 o) = Ok rule ∧ no_domain_only rule = true ∧ ∀ env sc req, holds env sc rule req = f req.

Definition refused (o : HeadlessRuleOptions) : Prop :=
  HeadlessRule_IsValid (decoded false RuleSetVersion2 o) = Ok false ∧ build_rule (decoded false RuleSetVersion2 o) = Err (ENew "missing conditions").

Definition compiles (expression : string) : Prop := ∃ re, regexp_Compile expression = Ok re.

Lemma compile_all_ok l : Forall compiles l → ∃ res, compile_all l = Ok res ∧
  ∀ host, existsb (λ re, Regexp_MatchString re host) res = existsb (λ e, regexp_matches e host) l.
Proof.
  unfold compile_all. generalize 0%nat as i. intros i Hl. revert i. induction Hl as [|x l [re Hre] _ IH]; intros i; [by exists []|].
  destruct (IH (S i)) as (res & Hres & Hm). exists (re :: res). cbn. rewrite Hre. cbn. rewrite Hres. split; [done|].
  intros host. cbn. rewrite Hm. unfold regexp_matches. by rewrite Hre.
Qed.

Definition lists_match (domain domainRegex : list string) (req : InboundContext) : bool :=
  nonempty (domainHost req) &&
  (existsb (λ e, regexp_matches e (strings_ToLower (domainHost req))) domainRegex ||
   existsb (λ e, pattern_matches e (strings_ToLower (domainHost req))) domain).

Lemma default_written domain domainRegex inv : written (adguard_default domain domainRegex inv).
Proof.
  unfold written. cbn [writeRule adguard_default]. rewrite bool_decide_eq_true_2 by done. apply writeDefaultRule_version; [done|].
  unfold required_version, cidr_ok. cbn. destruct (listed _); repeat split; done.
Qed.

Definition option_list {A} (m : option A) : list A := match m with Some x => [x] | None => [] end.

(** What is read of a rule, and the rule that is built of it. *)
Definition read_default (domain : Listable string) (matcher : option Matcher) (domainRegex : Listable string) (inv : bool) : DefaultHeadlessRuleOptions :=
  MkHeadlessOptions None None None None None domainRegex None None None None None None None None None
    None None None false false None None None None inv matcher None None None (domain_NewAdGuardMatcher <$> domain).
Definition built_rule (l : list RuleItem) (inv : bool) : HeadlessRule :=
  DefaultHeadlessRule (MkDefault [] [] [] l [] [] (map PlainItem l) None inv None).

Definition read_items (domain : Listable string) (matcher : option Matcher) (domainRegex : Listable string) (res : list Regexp) : list RuleItem :=
  option_list (NewRawDomainItem <$> matcher) ++
  (if listed domainRegex then [DomainRegexItem res ("domain_regex=" +:+ describe_first (elems domainRegex))%string] else []) ++
  option_list (NewRawAdGuardDomainItem <$> (domain_NewAdGuardMatcher <$> domain)).

Lemma build_read_default domain matcher domainRegex inv res : compile_all (elems domainRegex) = Ok res →
  DefaultHeadlessRule_IsValid (read_default domain matcher domainRegex inv) = true →
  build_rule (MkHeadlessRuleOptions "default" (read_default domain matcher domainRegex inv) "" [] false) =
  Ok (built_rule (read_items domain matcher domainRegex res) inv).
Proof.
  intros Hres Hvalid. cbn [NewHeadlessRule]. change (is_default_type "default") with true. rewrite Hvalid. cbn [negb].
  unfold NewDefaultHeadlessRule, NewDefaultHeadlessRule_addressItems, NewDefaultHeadlessRule_otherItems, NewDomainRegexItem. cbn [read_default h_DomainRegex].
  destruct matcher, domain, (listed domainRegex) eqn:E, networkManager; cbn; rewrite ?E, ?Hres; cbn; rewrite ?E, ?Hres; try reflexivity.
Qed.

Lemma holds_built l inv env sc req : l ≠ [] → holds env sc (built_rule l inv) req = xorb inv (existsb (item_holds env sc req) l).
Proof.
  intros Hl. unfold built_rule. cbn [holds]. unfold default_holds, body_holds. cbn [allItems ruleSetItem items forallb andb invert].
  assert (has_items (map PlainItem l) = true) as -> by (by destruct l). cbn [negb orb]. f_equal.
  unfold groups_hold, group_conds, group_items. cbn [forallb all_groups sourceAddressItems sourcePortItems destinationAddressItems destinationIPCIDRItems destinationPortItems].
  destruct (sc_source sc); cbn [orb app map]; rewrite ?app_nil_r; unfold group_holds at 1 2 4; cbn [has_items negb orb andb]; rewrite andb_true_r;
    unfold group_holds; assert (has_items (map (item_holds env sc req) l) = true) as -> by (by destruct l); cbn [negb orb]; clear Hl;
    induction l as [|x l IH]; cbn; [done|by rewrite IH|done|by rewrite IH].
Qed.

Lemma read_items_match domain matcher domainRegex res env sc req :
  (∀ host, existsb (λ re, Regexp_MatchString re host) res = existsb (λ e, regexp_matches e host) (elems domainRegex)) →
  existsb (item_holds env sc req) (read_items domain matcher domainRegex res) =
  nonempty (domainHost req) &&
    ((match matcher with Some m => Matcher_Match m (strings_ToLower (domainHost req)) | None => false end) ||
     existsb (λ e, regexp_matches e (strings_ToLower (domainHost req))) (elems domainRegex) ||
     existsb (λ e, pattern_matches e (strings_ToLower (domainHost req))) (elems domain)).
Proof using Hmatcher.
  intros Hm. unfold read_items. rewrite !existsb_app, andb_orb_distrib_r, andb_orb_distrib_r, <- orb_assoc.
  assert (Hh : ∀ c, domainHost (set_cache req c) = domainHost req) by done.
  f_equal; [|f_equal].
  - destruct matcher; cbn; [|by rewrite andb_false_r]. unfold item_holds. cbn. unfold DomainItem_Match. rewrite orb_false_r, Hh. by destruct (nonempty _).
  - destruct (listed domainRegex) eqn:E.
    + cbn. unfold item_holds. cbn. unfold DomainRegexItem_Match. rewrite orb_false_r, Hh, Hm. by destruct (nonempty _).
    + cbn. unfold listed in E. destruct (elems domainRegex); [by rewrite andb_false_r|done].
  - destruct domain; cbn; [|by rewrite andb_false_r]. unfold item_holds. cbn. unfold AdGuardDomainItem_Match. rewrite orb_false_r, Hh, Hmatcher. by destruct (nonempty _).
Qed.

(** ** The rule of a list *)

Lemma decoded_adguard domain domainRegex inv : decoded false RuleSetVersion2 (adguard_default domain domainRegex inv) =
  MkHeadlessRuleOptions "default" (read_default (keep (Some domain)) None (keep (Some domainRegex)) inv) "" [] false.
Proof.
  unfold adguard_default. cbn [decoded]. rewrite bool_decide_eq_true_2 by done. f_equal. unfold decoded_default, read_default, keep. cbn.
  by destruct domain.
Qed.

Lemma decoded_raw lines : has_items lines = true → decoded false RuleSetVersion2 (raw_rule lines) =
  MkHeadlessRuleOptions "default" (read_default None (Some (domain_NewMatcher (map ruleLine lines) [] false)) None false) "" [] false.
Proof. intros Hl. unfold raw_rule. cbn [decoded]. rewrite bool_decide_eq_true_2 by done. by destruct lines. Qed.

Lemma elems_keep {A} (l : list A) : elems (keep (Some l)) = l.
Proof. by destruct l. Qed.

Lemma read_default_valid domain matcher domainRegex inv :
  DefaultHeadlessRule_IsValid (read_default domain matcher domainRegex inv) = is_set domainRegex || is_set matcher || is_set domain.
Proof. by destruct domain, matcher, domainRegex. Qed.

Lemma valid_default d : HeadlessRule_IsValid (MkHeadlessRuleOptions "default" d "" [] false) = Ok (DefaultHeadlessRule_IsValid d).
Proof. cbn. by rewrite bool_decide_eq_true_2. Qed.

Lemma default_valid domain domainRegex inv :
  HeadlessRule_IsValid (decoded false RuleSetVersion2 (adguard_default domain domainRegex inv)) = Ok (has_items domain || has_items domainRegex).
Proof. rewrite decoded_adguard, valid_default, read_default_valid. by destruct domain, domainRegex. Qed.

Lemma loads_default domain matcher domainRegex inv o :
  decoded false RuleSetVersion2 o = MkHeadlessRuleOptions "default" (read_default domain matcher domainRegex inv) "" [] false →
  is_set domainRegex || is_set matcher || is_set domain = true → read_items domain matcher domainRegex [] ≠ [] → Forall compiles (elems domainRegex) →
  loads o (λ req, xorb inv (nonempty (domainHost req) &&
    ((match matcher with Some m => Matcher_Match m (strings_ToLower (domainHost req)) | None => false end) ||
     existsb (λ e, regexp_matches e (strings_ToLower (domainHost req))) (elems domainRegex) ||
     existsb (λ e, pattern_matches e (strings_ToLower (domainHost req))) (elems domain)))).
Proof using Hmatcher.
  intros Hd Hset Hne Hre. destruct (compile_all_ok _ Hre) as (res & Hres & Hm). unfold loads. rewrite Hd. split.
  { by rewrite valid_default, read_default_valid, Hset. }
  exists (built_rule (read_items domain matcher domainRegex res) inv). split; [apply build_read_default; [done|by rewrite read_default_valid]|].
  split; [done|]. intros env sc req. rewrite holds_built, read_items_match; [done|done|].
  unfold read_items in *. destruct matcher, (listed domainRegex), domain; done.
Qed.

Lemma loads_ext o f g : loads o f → (∀ req, f req = g req) → loads o g.
Proof. intros (Hv & rule & Hb & Hd & Hh) Hfg. split; [done|]. exists rule. split_and!; [done|done|]. intros. by rewrite Hh. Qed.

Lemma default_loads domain domainRegex inv : has_items domain || has_items domainRegex = true → Forall compiles domainRegex →
  loads (adguard_default domain domainRegex inv) (λ req, xorb inv (lists_match domain domainRegex req)).
Proof using Hmatcher.
  intros Hne Hre. eapply loads_ext.
  - apply (loads_default (keep (Some domain)) None (keep (Some domainRegex)) inv); [apply decoded_adguard|by destruct domain, domainRegex| |by rewrite elems_keep].
    by destruct domain, domainRegex.
  - intros req. by rewrite !elems_keep.
Qed.

Lemma raw_loads lines : has_items lines = true →
  loads (raw_rule lines) (λ req, nonempty (domainHost req) && Matcher_Match (domain_NewMatcher (map ruleLine lines) [] false) (strings_ToLower (domainHost req))).
Proof using Hmatcher.
  intros Hne. eapply loads_ext.
  - apply (loads_default None (Some (domain_NewMatcher (map ruleLine lines) [] false)) None false); [by apply decoded_raw|done|done|constructor].
  - intros req. cbn. by rewrite !orb_false_r.
Qed.

Lemma decoded_logical mode a b : decoded false RuleSetVersion2 (adguard_logical mode a b) =
  MkHeadlessRuleOptions "logical" (HeadlessOptionsZero false) mode [decoded false RuleSetVersion2 a; decoded false RuleSetVersion2 b] false.
Proof. unfold adguard_logical. cbn [decoded]. by rewrite bool_decide_eq_false_2 by done. Qed.

Lemma valid_logical mode a b : HeadlessRule_IsValid a = Ok true →
  HeadlessRule_IsValid (MkHeadlessRuleOptions "logical" (HeadlessOptionsZero false) mode [a; b] false) =
  (x ← HeadlessRule_IsValid b; Ok x).
Proof.
  intros Ha. cbn [HeadlessRule_IsValid]. rewrite bool_decide_eq_false_2, bool_decide_eq_true_2 by done. cbn. rewrite Ha. cbn.
  destruct (HeadlessRule_IsValid b) as [[]| |]; done.
Qed.

Lemma logical_loads mode m a b f g : parse_mode mode = Ok m → loads a f → loads b g →
  loads (adguard_logical mode a b) (λ req, match m with LogicalTypeAnd => f req && g req | LogicalTypeOr => f req || g req end).
Proof.
  intros Hm (Hva & ra & Hba & Hda & Hha) (Hvb & rb & Hbb & Hdb & Hhb). unfold loads. rewrite decoded_logical. split.
  { rewrite valid_logical by done. by rewrite Hvb. }
  exists (LogicalHeadlessRule (MkLogical [ra; rb] m false None)). split_and!.
  - cbn [NewHeadlessRule]. change (is_default_type "logical") with false. change (is_logical_type "logical") with true. cbn [has_items].
    cbn [all_result]. rewrite Hva. cbn [mbind result_bind]. rewrite Hvb. cbn [mbind result_bind negb]. rewrite Hm. cbn. by rewrite Hba, Hbb.
  - cbn. by rewrite Hda, Hdb.
  - intros env sc req. cbn. unfold logical_holds. cbn. rewrite !Hha, !Hhb. destruct m; by rewrite ?andb_true_r, ?orb_false_r.
Qed.

Lemma logical_refused mode a b : HeadlessRule_IsValid (decoded false RuleSetVersion2 a) = Ok true → refused b → refused (adguard_logical mode a b).
Proof.
  intros Ha [Hv _]. unfold refused. rewrite decoded_logical. split; [rewrite valid_logical by done; by rewrite Hv|].
  cbn [NewHeadlessRule]. change (is_default_type "logical") with false. change (is_logical_type "logical") with true. cbn [has_items].
  cbn [all_result]. rewrite Ha. cbn [mbind result_bind]. rewrite Hv. done.
Qed.

Lemma wrap_and domain domainRegex current g : Forall compiles domainRegex → loads current g →
  loads (wrap_rule "and" domain domainRegex true current) (λ req, negb (lists_match domain domainRegex req) && g req).
Proof using Hmatcher.
  intros Hre Hg. unfold wrap_rule. destruct (has_items domain || has_items domainRegex) eqn:E.
  - eapply loads_ext; [apply (logical_loads "and" LogicalTypeAnd); [done|by apply default_loads|exact Hg]|]. intros req. reflexivity.
  - destruct domain, domainRegex; try done. eapply loads_ext; [exact Hg|]. intros req. unfold lists_match. by rewrite andb_false_r.
Qed.

Lemma wrap_or domain domainRegex current g : Forall compiles domainRegex → loads current g →
  loads (wrap_rule "or" domain domainRegex false current) (λ req, lists_match domain domainRegex req || g req).
Proof using Hmatcher.
  intros Hre Hg. unfold wrap_rule. destruct (has_items domain || has_items domainRegex) eqn:E.
  - eapply loads_ext; [apply (logical_loads "or" LogicalTypeOr); [done|by apply default_loads|exact Hg]|]. intros req. reflexivity.
  - destruct domain, domainRegex; try done. eapply loads_ext; [exact Hg|]. intros req. unfold lists_match. by rewrite andb_false_r.
Qed.

Lemma wrap_refused mode domain domainRegex inv current : refused current → refused (wrap_rule mode domain domainRegex inv current).
Proof.
  intros Hr. unfold wrap_rule. destruct (has_items domain || has_items domainRegex) eqn:E; [|done].
  apply logical_refused; [|done]. by rewrite default_valid, E.
Qed.

Lemma logical_written mode a b : mode = "and"%string ∨ mode = "or"%string → written a → written b → written (adguard_logical mode a b).
Proof.
  unfold written, adguard_logical. intros Hmode Ha Hb. cbn [writeRule mapM_idx].
  change (bool_decide ("logical"%string = "default"%string)) with false. change (bool_decide ("logical"%string = "logical"%string)) with true.
  destruct (writeRule a RuleSetVersion2); [|done..]. destruct (writeRule b RuleSetVersion2); [|done..].
  destruct Hmode as [-> | ->]; done.
Qed.

Lemma wrap_written mode domain domainRegex inv current : mode = "and"%string ∨ mode = "or"%string → written current → written (wrap_rule mode domain domainRegex inv current).
Proof. intros Hmode Hw. unfold wrap_rule. destruct (_ || _); [|done]. apply logical_written; [done|apply default_written|done]. Qed.

Lemma raw_written lines : written (raw_rule lines).
Proof.
  unfold written. cbn [writeRule raw_rule]. rewrite bool_decide_eq_true_2 by done. apply writeDefaultRule_version; [done|].
  unfold required_version, cidr_ok. by repeat split.
Qed.

Lemma lines_rule_written lines : written (lines_rule lines).
Proof.
  unfold lines_rule. destruct (forallb isRawDomain lines); [apply raw_written|].
  apply wrap_written; [by left|]. apply wrap_written; [by right|]. apply wrap_written; [by left|]. apply default_written.
Qed.

Lemma kind_cons important regexp exclude it lines : kind important regexp exclude (it :: lines) =
  if of_kind important regexp exclude it then mapDomain it :: kind important regexp exclude lines else kind important regexp exclude lines.
Proof. unfold kind. cbn [List.filter]. by destruct (of_kind _ _ _ it). Qed.

(** The kinds of lines, patterns and regular expressions together. *)
Lemma kind_match important exclude lines req :
  lists_match (kind important false exclude lines) (kind important true exclude lines) req = some_line important exclude lines (line_matches req).
Proof.
  unfold lists_match, some_line. destruct (nonempty (domainHost req)) eqn:E.
  - cbn [andb]. rewrite orb_comm. induction lines as [|it lines IH]; [done|]. rewrite !kind_cons. cbn [existsb]. rewrite <- IH. clear IH.
    unfold of_kind, line_matches. rewrite E. cbn [andb].
    destruct (eqb (isImportant it) important), (eqb (isExclude it) exclude), (isRegexp it); cbn; try done; [|by rewrite <- orb_assoc].
    destruct (regexp_matches (mapDomain it) (strings_ToLower (domainHost req))); cbn; by rewrite ?orb_true_r.
  - cbn. induction lines as [|it lines IH]; [done|]. cbn. unfold line_matches at 1. rewrite E, <- IH. cbn. by rewrite andb_false_r.
Qed.

Lemma kind_some important exclude lines :
  has_items (kind important false exclude lines) || has_items (kind important true exclude lines) = some_line important exclude lines (λ _, true).
Proof.
  unfold some_line. induction lines as [|it lines IH]; [done|]. rewrite !kind_cons. cbn [existsb]. rewrite <- IH. unfold of_kind.
  destruct (eqb (isImportant it) important), (eqb (isExclude it) exclude), (isRegexp it); cbn; try done. by rewrite orb_true_r.
Qed.

Lemma kind_compiles important exclude lines :
  Forall (λ it, isRegexp it = true → compiles (mapDomain it)) lines → Forall compiles (kind important true exclude lines).
Proof.
  intros Hl. unfold kind. apply Forall_map, Forall_forall. intros it Hin. apply list_elem_of_In, filter_In in Hin as [Hin Hk].
  rewrite Forall_forall in Hl. apply Hl; [by apply list_elem_of_In|]. unfold of_kind in Hk. by destruct (isRegexp it), (eqb (isImportant it) important).
Qed.

Lemma lines_rule_loads lines : has_items lines = true → loadable lines = true → Forall (λ it, isRegexp it = true → compiles (mapDomain it)) lines →
  loads (lines_rule lines) (blocks lines).
Proof using Hmatcher.
  intros Hne Hload Hre. unfold lines_rule, blocks, loadable in *. destruct (forallb isRawDomain lines) eqn:E.
  - eapply loads_ext; [by apply raw_loads|done].
  - eapply loads_ext; [apply wrap_and; [by apply kind_compiles|]; apply wrap_or; [by apply kind_compiles|]; apply wrap_and; [by apply kind_compiles|];
      apply default_loads; [by rewrite kind_some|by apply kind_compiles]|].
    intros req. cbn beta. rewrite !kind_match. cbn [xorb]. by destruct (some_line false false lines _).
Qed.

Lemma lines_rule_refused lines : loadable lines = false → refused (lines_rule lines).
Proof.
  unfold loadable, lines_rule. destruct (forallb isRawDomain lines); [done|]. cbn [orb]. rewrite <- kind_some. intros Hk.
  do 3 apply wrap_refused. split; [by rewrite default_valid, Hk|]. rewrite decoded_adguard. cbn [NewHeadlessRule].
  change (is_default_type "default") with true. rewrite read_default_valid. by destruct (kind false false false lines), (kind false true false lines).
Qed.

(** Rules whose regular expressions fit the format. *)
Lemma default_ok_regexps domainRegex d : h_DomainRegex d = domainRegex → strings_ok (elems domainRegex) →
  Forall (λ l, listed l = false) [h_Network d; h_DomainKeyword d; h_SourcePortRange d; h_PortRange d; h_ProcessName d; h_ProcessPath d;
    h_ProcessPathRegex d; h_PackageName d; h_PackageNameRegex d; h_WIFISSID d; h_WIFIBSSID d] →
  Forall (λ l, listed l = false) [h_QueryType d; h_SourcePort d; h_Port d; h_NetworkType d] →
  listed (h_NetworkInterfaceAddress d) = false → listed (h_DefaultInterfaceAddress d) = false → default_ok d.
Proof.
  intros Hd Hre Hs Hz Hi Hp. unfold listed in *.
  assert (Hnil : ∀ A (l : list A), has_items l = false → l = []) by (by intros A []).
  rewrite !Forall_cons in Hs. rewrite !Forall_cons in Hz. unfold default_ok. rewrite !Forall_cons, Hd.
  destruct_and!. repeat match goal with H : has_items _ = false |- _ => apply Hnil in H; rewrite H; clear H end.
  split_and!; try done; try (split; [done|]; constructor); constructor.
Qed.

Lemma default_fits depth domain domainRegex inv : strings_ok domainRegex → rule_fits depth (adguard_default domain domainRegex inv).
Proof.
  intros Hre. destruct depth; cbn [rule_fits adguard_default]; rewrite bool_decide_eq_true_2 by done;
    apply (default_ok_regexps (Some domainRegex)); repeat (apply Forall_cons_2; [done|]); try apply Forall_nil_2; done.
Qed.

Lemma wrap_fits depth mode domain domainRegex inv current : strings_ok domainRegex → rule_fits depth current →
  rule_fits (S depth) current → rule_fits (S depth) (wrap_rule mode domain domainRegex inv current).
Proof.
  intros Hre Hc Hc'. unfold wrap_rule. destruct (_ || _); [|done]. unfold adguard_logical. cbn [rule_fits].
  rewrite bool_decide_eq_false_2 by done. split; [done|]. constructor; [by apply default_fits|by constructor].
Qed.

Lemma lines_rule_fits lines : (∀ important exclude, strings_ok (kind important true exclude lines)) → rule_fits maxLogicalRuleDepth (lines_rule lines).
Proof.
  intros Hre. unfold lines_rule. destruct (forallb isRawDomain lines).
  - unfold raw_rule. cbn [rule_fits maxLogicalRuleDepth]. rewrite bool_decide_eq_true_2 by done.
    apply (default_ok_regexps None); repeat (apply Forall_cons_2; [done|]); try apply Forall_nil_2; done.
  - change maxLogicalRuleDepth with (S (S (S 97))). repeat (apply wrap_fits || apply default_fits || apply Hre).
Qed.
End Rules.

(** ** Lists *)

(** C24 A list that parses, has rules, has no more of them than the format can hold and whose
    regular expressions compile, each of them, is
    converted to a file, and the file is read as one rule. If the list has names only, or a line
    that blocks and is not important, the rule can be built and matches exactly the requests
    that the lines block, important exclusions before important lines before exclusions before
    the rest; otherwise the rule is refused. *)
Theorem adguard_list_blocks `{SrsLaws, AdGuardLibs} newMatcher networkManager content lines :
  (∀ lines host, AdGuardMatcher_Match (domain_NewAdGuardMatcher lines) host = existsb (λ line, pattern_matches line host) lines) →
  parse_lines (scanned content) = Ok lines → has_items lines = true →
  (∀ important exclude, strings_ok (kind important true exclude lines)) → Forall (λ it, isRegexp it = true → compiles (mapDomain it)) lines →
  ∃ bytes rule', convertRuleSet content = Ok bytes ∧ Read bytes false = Ok (RuleSetVersion2, [rule']) ∧
    if loadable lines then ∃ rule, NewHeadlessRule newMatcher networkManager rule' = Ok rule ∧
      ∀ env req c, ready false c → (rule_Match env rule req c).1 = blocks lines req
    else NewHeadlessRule newMatcher networkManager rule' = Err (ENew "missing conditions").
Proof.
  intros Hmatcher Hp Hne Hfit Hre. pose proof (lines_rule_written lines) as Hw. unfold written in Hw.
  destruct (writeRule (lines_rule lines) RuleSetVersion2) as [b| |] eqn:Eb; [|done..].
  assert (Hc : convertRuleSet content = Write [lines_rule lines] RuleSetVersion2).
  { unfold convertRuleSet, ToOptions. rewrite Hp. cbn [mbind result_bind]. by rewrite Hne. }
  destruct (Write [lines_rule lines] RuleSetVersion2) as [bytes| |] eqn:Ew; [|unfold Write in Ew; cbn [mapM_idx] in Ew; by rewrite Eb in Ew..].
  exists bytes, (decoded false RuleSetVersion2 (lines_rule lines)). split; [done|]. split.
  { apply (Read_written false [lines_rule lines]); [done|unfold fits; cbn; lia|constructor; [by apply lines_rule_fits|constructor]|done]. }
  destruct (loadable lines) eqn:El.
  - destruct (lines_rule_loads newMatcher networkManager Hmatcher lines Hne El Hre) as (_ & rule & Hb & Hd & Hh).
    exists rule. split; [done|]. intros env req c Hr. rewrite <- (Hh env (scope_of c)). by apply Match_exact.
  - by apply lines_rule_refused.
Qed.

(** What [FromOptions] makes of the rule of a list: its lines, but exclusions become important
    ones when there were none. *)
Lemma unwrap_lines_rule `{Extern} lines : forallb isRawDomain lines = false → some_line false false lines (λ _, true) = true →
  unwrap (lines_rule lines) no_lists = Some (Ok
    (if some_line true true lines (λ _, true) || negb (some_line false true lines (λ _, true)) then
       MkAdGuardLists (kind true false false lines) (kind true true false lines) (kind true false true lines) (kind true true true lines)
         (kind false false false lines) (kind false true false lines) (kind false false true lines) (kind false true true lines)
     else
       MkAdGuardLists (kind true false false lines) (kind true true false lines) (kind false false true lines) (kind false true true lines)
         (kind false false false lines) (kind false true false lines) [] [])).
Proof.
  unfold lines_rule. intros ->. rewrite <- !kind_some.
  generalize (kind true false true lines) (kind true true true lines) (kind true false false lines) (kind true true false lines).
  generalize (kind false false true lines) (kind false true true lines) (kind false false false lines) (kind false true false lines).
  intros e er d dr ie ier i ir Hd. unfold wrap_rule.
  destruct e, er, ie, ier, i, ir, d, dr; try discriminate Hd; vm_compute; reflexivity.
Qed.

(** ** A concrete list *)

Definition c_name_char (c : Ascii.ascii) : bool := bool_decide (c = "."%char) || ((97 <=? ascii_code c) && (ascii_code c <=? 122)).
Fixpoint c_name_chars (s : string) : bool :=
  match s with EmptyString => true | String c s => c_name_char c && c_name_chars s end.
#[export] Instance c_adguard_libs : AdGuardLibs := {|
  M_IsDomainName s := nonempty s && c_name_chars s;
  M_ParseAddr s := default AddrZero (netip_ParseAddr s);
  common_SubstringBefore s sub := match strings_Index s sub with Some i => str_take i s | None => s end;
  common_SubstringAfter s sub := match strings_Index s sub with Some i => str_drop (i + String.length sub) s | None => s end;
|}.

Definition c_lines (l : list string) : string := String.concat (String newline "") l.

Definition c_list : string := c_lines ["! a comment"; "bad.example"; "@@good.example"; "good.example"; "top.example$important"; "@@top.example"; "path.example/x"]%string.
Definition c_parsed : list agdguardRuleLine := [
  MkRuleLine "bad.example" true false false false false false false;
  MkRuleLine "good.example" false true false false false false false;
  MkRuleLine "good.example" true false false false false false false;
  MkRuleLine "top.example" false false false false false false true;
  MkRuleLine "top.example" false true false false false false false].

Lemma c_matcher_law (lines : list string) (host : string) :
  AdGuardMatcher_Match (domain_NewAdGuardMatcher lines) host = existsb (λ line, pattern_matches line host) lines.
Proof.
  unfold pattern_matches. cbn. apply eq_true_iff_eq. rewrite mem_true, existsb_exists. split.
  - intros Hin. exists host. split; [by apply list_elem_of_In|]. apply mem_true. by left.
  - intros (line & Hin & Hm). apply mem_true, list_elem_of_singleton in Hm as ->. by apply list_elem_of_In.
Qed.

Lemma adguard_list_blocks_witness : ∃ bytes rule' rule,
  convertRuleSet c_list = Ok bytes ∧ Read bytes false = Ok (2, [rule']) ∧
  NewHeadlessRule (λ _ _, Err (ENew "")) false rule' = Ok rule ∧
  (rule_Match c_env rule (c_request "bad.example") RuleCacheZero).1 = true ∧
  (rule_Match c_env rule (c_request "good.example") RuleCacheZero).1 = false ∧
  (rule_Match c_env rule (c_request "top.example") RuleCacheZero).1 = true.
Proof.
  destruct (adguard_list_blocks (λ _ _, Err (ENew "")) false c_list c_parsed) as (bytes & rule' & Hc & Hr & rule & Hb & Hm).
  - exact c_matcher_law.
  - by vm_compute.
  - done.
  - intros [] []; (split; [done|apply Forall_nil_2]).
  - repeat constructor; discriminate.
  - exists bytes, rule', rule. split; [exact Hc|]. split; [exact Hr|]. split; [exact Hb|].
    rewrite !Hm by (by split_and!). split_and!; vm_compute; reflexivity.
Defined.

(** A line of a slash only is a regular expression without its second slash. *)
Example slash_panics : parse_line "/" = Panic "slice bounds out of range".
Proof. by vm_compute. Qed.

(** An important regular expression is printed so that it is ignored when it is parsed. *)
Example important_regexp_lost : parse_line "/x/$important" = Ok LineIgnored.
Proof. by vm_compute. Qed.

(** The exclusion of a list becomes an important one, which an important line does not beat. *)
Example exclusion_becomes_important : option_map (λ r, match r with Ok s => s | _ => ""%string end)
  (match ToOptions (c_lines ["a$important"; "@@a"; "@@b"; "b"]%string) with Ok rules => FromOptions rules | _ => None end) =
  Some (c_lines ["a$important"; "@@a$important"; "@@b$important"; "b"; ""]%string).
Proof. by vm_compute. Qed.
